(* ===== verification/_CoqProject ===== *)
-Q . S2P
Prelude.v
GoMath.v
EvmParams.v
EvmMachine.v
EvmGas.v
EvmAnalysis.v
EvmInstr.v
EvmTable.v
EvmInterp.v
EvmLaws.v
EvmWp.v
EvmTermination.v
EvmSafety.v
EvmSafetyOps.v
EvmSafetyRun.v
EvmArith.v
EvmData.v
State.v
StateFacts.v
StateLaws.v
Transition.v
TransitionFacts.v
Concrete.v
GoHeap.v
RlpEncode.v
RlpEncodeFacts.v
RlpDecode.v
RlpStream.v
RlpSound.v
RlpComplete.v
RlpRaw.v
RlpRecord.v
RlpCodec.v
RlpProps.v
Keccak.v
KeccakFacts.v
Trie.v
KeccakProps.v
Bitutil.v
BitutilProps.v
TxTypes.v
TxFacts.v
TxProps.v
TxList.v
TxListProps.v
TrieKeys.v
TriePure.v
TrieNode.v
TrieOps.v
TrieHash.v
TrieMap.v
TrieProof.v
TrieConcrete.v
SecureTrie.v
SecureTrieProps.v
TrieProps.v
BlockTypes.v
BlockFacts.v
BlockProps.v
ChainDb.v
ChainDbFacts.v
ChainDbProps.v
HeaderChain.v
HeaderChainFacts.v
HeaderChainSteps.v
HeaderChainProps.v
Bloombits.v
BloombitsFacts.v
ChainIndexer.v
ChainIndexerFacts.v
ChainIndexerProps.v
Filters.v
FiltersProps.v
EvmProps.v
StateProps.v
TransitionProps.v
TxPool.v
TxPoolFacts.v
TxPoolProps.v
