(* ===== verification/Prelude.v ===== *)
(** * go-hpb: a verification development

    go-hpb is a blockchain node derived from go-ethereum.  A block is a list of
    transactions; each becomes a message that is applied to the world state:
    gas is bought, the message runs either as a plain transfer or on the
    Ethereum Virtual Machine, unused gas goes back and the fee is paid to the
    beneficiary of the block.  The world state is a journaled cache over a
    Merkle trie that can be rolled back to snapshots, which is how a failed
    call is undone.  Around it are the data a node stores and exchanges:
    transactions with their signatures, headers, blocks and receipts, their
    RLP encoding, the tries and hashes that commit to them, and the database
    and header chain that keep them.  This library models that core.

    ** Files and the code they model

    - [Prelude]: outcomes of Go code, the state and error monad [M], its
      weakest precondition [wpg], machine integers, byte slices, [sort.Search].
    - [GoMath]: [src/common/math], and Hash and Address of
      [src/common/types.go].
    - [EvmParams], [EvmMachine], [EvmGas], [EvmAnalysis], [EvmInstr],
      [EvmTable], [EvmInterp]: the package [src/hvm/evm].  In order: opcodes
      ([opcodes.go]), prices and errors; stack, memory, contract and EVM
      records and the interface [StateDB] as a class; [gas_table.go] and
      [memory_table.go]; [analysis.go]; [instructions.go]; [jump_table.go];
      the loop of [interpreter.go] and the calls of [evm.go].
    - [State]: [src/blockchain/state]: [statedb.go], [state_object.go] and
      [journal.go].  Objects live in a [gmap] by address; an object carries its
      account, code, storage cache, dirty storage and flags.
    - [Transition]: [src/blockchain/state_transition.go], [src/hvm/hvm.go],
      [gaspool.go], [native.go], IntrinsicGas of [transaction.go] and
      CalcGasLimit of [block_validator.go].
    - [RlpEncode], [RlpDecode], [RlpRaw]: [src/common/rlp].  A Go type, which
      the code walks by reflection, is a [typ]; a value of it a [value].
    - [Trie], [SecureTrie]: [src/common/trie]: the key encodings, nodes, the
      trie over a database, hashing and commits, Merkle proofs, and the trie
      with hashed keys.
    - [Keccak]: [src/common/crypto/sha3], and Keccak256 and CreateAddress of
      [src/common/crypto/crypto.go].
    - [Bitutil]: [src/common/bitutil].
    - [TxTypes]: [transaction.go] and [tx_signer.go] of
      [src/blockchain/types], and the Go side of the secp256k1 signatures.
    - [BlockTypes]: [block.go], [receipt.go], [log.go], [bloom9.go] and
      [derive_sha.go] of [src/blockchain/types].
    - [ChainDb]: [src/blockchain/database_util.go] over the memory database
      and the prefixed tables of [src/blockchain/storage].
    - [HeaderChain]: [src/blockchain/headerchain.go].
    - [Bloombits]: [generator.go] and [matcher.go] of
      [src/blockchain/bloombits]: the rotated bloom bits of a section and the
      search in them, its stages composed as functions.
    - [ChainIndexer]: [src/blockchain/chain_indexer.go] and the bloom indexer
      of [src/node/bloombits.go], which write the sections.
    - [Filters]: [src/node/filters/filter.go], the search for logs in indexed
      and in other blocks.
    - [GoHeap]: [container/heap] of the Go library.
    - [TxList]: [src/txpool/tx_list.go], and TransactionsByPriceAndNonce of
      [src/blockchain/types/transaction.go].
    - [TxPool]: [src/blockchain/state/managed_state.go] and
      [src/txpool/tx_pool.go].  A call under the lock of the pool is a step of
      its state.

    The other files hold the proofs.  [EvmLaws] states what the EVM relies on
    from a state database, as a class; [EvmWp] the rules for the frame monad;
    [EvmTermination], [EvmSafety], [EvmSafetyOps] and [EvmSafetyRun] the two
    halves of the run theorem and their combination;
    [EvmArith] and [EvmData] single instructions; [StateFacts] and
    [StateLaws] the journal and the instance of the laws; [TransitionFacts]
    the message; [RlpEncodeFacts] the reference encoding and that the encoder
    writes it, [RlpStream] the invariant of the decoder's stream, [RlpSound]
    and [RlpComplete] the two directions of decoding, [RlpProps] their main
    theorems; [TrieKeys] the key encodings, [TriePure] trees without caches,
    [TrieNode] their encoding, [TrieOps], [TrieHash] and [TrieMap] that the
    operations work on the tree, [TrieProof] Merkle proofs, [TrieProps] and
    [SecureTrieProps] the main theorems; [Concrete] and [TrieConcrete]
    concrete environments the examples run in;
    [EvmProps], [StateProps] and [TransitionProps] the main theorems.
    [RlpRecord] and [RlpCodec] give the typed encoding of a Go struct from
    those of its fields.  For the other components a file ending in [Facts]
    (or [Steps]) holds the lemmas and one ending in [Props] the theorems.

    ** State and effects

    A Go method on a mutable object is a function from the object to the new
    object and a result.  [M S E A] is state passing with four outcomes:
    a value, an error, a panic, and no fuel.  An error keeps the state that was
    reached, as Go does.  An index out of range, a negative slice length or a
    revert to an unknown snapshot is [Panic].  A [uint64] is a [Z] reduced by
    [u64] where the code can overflow; a [big.Int] is a [Z]; [common.Hash]
    and [common.Address] are numbers.

    ** What the theorems show

    - Calls (C1 and the other theorems of [EvmProps]): every call of the EVM
      returns for all code, input and gas, without a panic, with no more gas
      than it was given; an error leaves the database as it was; a static call
      changes nothing that contracts can see.
    - State database ([StateProps]): [RevertToSnapshot] restores
      every observation, over every sequence of calls with nested
      snapshots; each setter changes what it names and nothing else; transfers
      conserve balances.
    - Hashing ([KeccakProps]): the unrolled permutation is the specified one,
      and hashing in pieces is the sponge of the whole message.
    - Messages ([TransitionProps]): [ApplyMessage] always returns; gas and
      pool are accounted for exactly; the balances after a plain transfer.
    - Instructions ([EvmArith], [EvmData]): signed arithmetic, exponentiation
      by squaring, memory round trip, jumps land on real destinations, fees
      are exact within their bounds.

    - RLP ([RlpProps]): decoding is the inverse of encoding in both
      directions, returns on every input, and the encoder equals the
      encoding defined on the value.
    - Tries ([TrieProps], [SecureTrieProps]): a trie, in memory or in its
      database, is a finite map; its hash is a function of the map and
      determines it when nothing collides; commits and proofs are faithful.
    - Bit vectors ([BitutilProps]): the word-wise operations equal the
      byte-wise ones; decompression inverts compression.
    - Transactions ([TxProps]): encoding round trips, caches never change a
      result, the recovered sender is the signer, and no second signature
      with the negated s is accepted.
    - Blocks ([BlockProps]): encoding round trips; the block hash commits to
      header, transactions and uncles up to a collision.
    - Chain database ([ChainDbProps]): what is written is read back, deleting
      is exact, the common ancestor is the last one.
    - Header chain ([HeaderChainProps]): after every insertion the canonical
      numbers are the ancestors of the head, and the head has the highest
      total difficulty; rewinding keeps this.
    - Log search ([ChainIndexerProps], [FiltersProps]): a section marked
      complete has the bits of a chain of headers, in every interleaving of
      processing with new heads; the search finds exactly the matching logs,
      and where the matcher skips blocks it should report.
    - Transaction lists ([TxListProps]): a list with its heap and cache is the
      sorted list of its transactions for every sequence of calls; the order
      for a block respects price and nonce.
    - Transaction pool ([TxPoolProps]): over every sequence of additions, new
      heads, evictions and price changes the maps agree, no call panics or
      runs forever, the limits hold after a promotion, the pending
      transactions of an account have no gap as long as the chain only grows,
      and all of them are offered to the miner.

    ** Bounds and fuel

    The interpreter loop has the fuel [gas + 1]: every instruction but the
    halting ones costs at least one unit of gas ([EvmTermination]), so the
    outcome [NoFuel] is excluded by theorem.  Nested calls have the fuel
    [call_fuel = 1026], two more than the depth limit 1024 the code enforces;
    exclusion is a theorem as well.  Decoding a slice or an interface has the
    length of the input as fuel, for every element takes a byte.  A walk down a
    trie has twice the length of the key, and a few steps more, as fuel: below
    a node that is loaded from the database there is one that takes a nibble.
    The walk of [GetHashFn] has the number of the current header as fuel, and
    so have the walks of the header chain to an ancestor; the loop that
    deletes numbers above a new head has the size of the database.
    Decompression halves its target at least, which is its fuel.  The loops
    of a transaction list have the size of its heap, the rounds that bring the
    pool down to its limits the number of pending transactions, and the walks
    to a common ancestor the numbers of the blocks they start from.

    ** Assumptions

    Hashing, signature recovery, precompiled contracts, the trie and the code
    store are arguments.  What is required of them is named where it is used:
    [EvmOk] (the environment), [StateDBLaws] (the database, proved for
    [State]), [StateEnv] and its laws (trie and code store).  [Concrete] has
    an environment that satisfies all of them at once.  The trie needs
    [DatabaseLaws] from its database and, where hashes have to identify nodes,
    that the hash function has no collision among the nodes in question
    ([no_collisions], [hash_ok]).  The two C functions of secp256k1 are the
    class [Secp256k1], the LRU cache of the header chain the class [Lru], the
    order in which Go ranges over a map the class [GoRange], the third-party
    priority queue of the pool the class [Prque], the access of a log filter
    to the chain the class [Backend]; a concrete instance of each runs in the
    examples.  The pool is given the chain as a record of functions that know
    the blocks of the heads they announce ([chain_ok], [knows]), and
    transactions whose senders can be recovered and whose hashes identify
    sender and nonce ([universe]).

    ** Not modelled

    Networking, RPC, key stores, consensus and block sealing, insertion of
    full blocks, the RPC helpers of the transaction pool, the scheduling of
    bloom bit retrievals, iterators and synchronisation of tries.  They are I/O, concurrency or
    separate components; tracing, logging and
    the integer pool of the EVM have no effect on results. *)

From stdpp Require Import base tactics list numbers gmap.
From Stdlib Require Import Strings.Byte.

#[local] Open Scope Z_scope.

(** ** Outcomes of Go code

    A Go function either returns a value, returns a non-nil error, or panics.
    [NoFuel] is the model's own outcome: the step bound given to a loop was
    too small.  Every theorem that says the code returns excludes it. *)
Inductive outcome (E A : Type) : Type :=
| Val (a : A)
| Err (e : E)
| Panic
| NoFuel.
Arguments Val {E A} a.
Arguments Err {E A} e.
Arguments Panic {E A}.
Arguments NoFuel {E A}.

(** Stateful code that may fail.  The state survives an error: Go does not
    roll back what a function wrote before it returned one. *)
Definition M (S E A : Type) : Type := S → S * outcome E A.

#[global] Instance M_ret S E : MRet (M S E) := λ A a s, (s, Val a).
#[global] Instance M_bind S E : MBind (M S E) := λ A B f m s,
  match m s with
  | (s', Val a) => f a s'
  | (s', Err e) => (s', Err e)
  | (s', Panic) => (s', Panic)
  | (s', NoFuel) => (s', NoFuel)
  end.

Definition fail {S E A} (e : E) : M S E A := λ s, (s, Err e).
Definition panic {S E A} : M S E A := λ s, (s, Panic).
Definition gets {S E A} (f : S → A) : M S E A := λ s, (s, Val (f s)).
Definition modify {S E} (f : S → S) : M S E unit := λ s, (f s, Val tt).

(** A slice access: the value, or the panic of an index out of range. *)
Definition or_panic {S E A} (o : option A) : M S E A := λ s,
  match o with Some a => (s, Val a) | None => (s, Panic) end.

(** The same for code without state of its own. *)
#[global] Instance outcome_ret E : MRet (outcome E) := λ A, Val.
#[global] Instance outcome_bind E : MBind (outcome E) := λ A B f o,
  match o with
  | Val a => f a
  | Err e => Err e
  | Panic => Panic
  | NoFuel => NoFuel
  end.
Definition val_or_panic {E A} (o : option A) : outcome E A :=
  match o with Some a => Val a | None => Panic end.

(** ** Reasoning about outcomes

    [wpg P N m Q E s]: run from [s], [m] panics only if [P], runs out of fuel
    only if [N], a value satisfies [Q] and an error [E] with the final state.
    Termination is [wpg True False], freedom from panics [wpg False True]. *)
Definition wpg {S Er A} (P N : Prop) (m : M S Er A)
    (Q : A → S → Prop) (E : Er → S → Prop) (s : S) : Prop :=
  match m s with
  | (s', Val a) => Q a s'
  | (s', Err e) => E e s'
  | (_, Panic) => P
  | (_, NoFuel) => N
  end.
Abbreviation wp P := (wpg P False).

Lemma wp_bind {S Er A B} P N (m : M S Er A) (k : A → M S Er B) Q E s :
  wpg P N (m ≫= k) Q E s ↔ wpg P N m (λ a, wpg P N (k a) Q E) E s.
Proof. unfold wpg, mbind, M_bind. by destruct (m s) as [s' []]. Qed.

Lemma wp_mono {S Er A} (P P' N : Prop) (m : M S Er A) (Q Q' : A → S → Prop) (E E' : Er → S → Prop) s :
  wpg P N m Q E s → (P → P') → (∀ a s', Q a s' → Q' a s') → (∀ e s', E e s' → E' e s') →
  wpg P' N m Q' E' s.
Proof. unfold wpg. destruct (m s) as [s' []]; auto. Qed.

(** Termination and freedom from panics are proved apart and put together. *)
Lemma wp_conj {S Er A} (P1 P2 N1 N2 : Prop) (m : M S Er A) (Q1 Q2 : A → S → Prop) (E1 E2 : Er → S → Prop) s :
  wpg P1 N1 m Q1 E1 s → wpg P2 N2 m Q2 E2 s →
  wpg (P1 ∧ P2) (N1 ∧ N2) m (λ a s', Q1 a s' ∧ Q2 a s') (λ e s', E1 e s' ∧ E2 e s') s.
Proof. unfold wpg. destruct (m s) as [s' []]; auto. Qed.

(** Running the first computation of a sequence. *)
Lemma bind_val {S Er A B} (m : M S Er A) (k : A → M S Er B) s s' a : m s = (s', Val a) → (m ≫= k) s = k a s'.
Proof. intros H. unfold mbind, M_bind. by rewrite H. Qed.
Lemma bind_err {S Er A B} (m : M S Er A) (k : A → M S Er B) s s' e : m s = (s', Err e) → (m ≫= k) s = (s', Err e).
Proof. intros H. unfold mbind, M_bind. by rewrite H. Qed.

(** ** Machine integers

    Go's fixed-width integers are [Z] values kept in range by the wrap-around
    written out at every operation that can leave it. *)
Definition u64 (x : Z) : Z := x mod 2 ^ 64.
Definition i64 (x : Z) : Z := (x + 2 ^ 63) mod 2 ^ 64 - 2 ^ 63.
Definition is_u64 (x : Z) : Prop := 0 ≤ x < 2 ^ 64.
Definition is_u256 (x : Z) : Prop := 0 ≤ x < 2 ^ 256.
Definition MaxUint64 : Z := 2 ^ 64 - 1.

(** ** Bytes *)
Abbreviation byte := Byte.byte.
Definition byteZ (b : byte) : Z := Z.of_N (Byte.to_N b).
Definition Zbyte (z : Z) : byte :=
  match Byte.of_N (Z.to_N (z mod 256)) with Some b => b | None => Byte.x00 end.

(** [big.Int.SetBytes]: the number a big-endian byte string denotes. *)
Definition SetBytes (bs : list byte) : Z :=
  foldl (λ acc b, acc * 256 + byteZ b) 0 bs.

(** The [n] low-order bytes of [z], most significant first. *)
Fixpoint be_bytes (n : nat) (z : Z) : list byte :=
  match n with
  | O => []
  | S n' => be_bytes n' (z / 256) ++ [Zbyte z]
  end.

(** [big.Int.BitLen] and [big.Int.Bytes] (of the absolute value). *)
Definition BitLen (z : Z) : Z :=
  if Z.abs z =? 0 then 0 else Z.log2 (Z.abs z) + 1.
Definition big_Bytes (z : Z) : list byte :=
  be_bytes (Z.to_nat ((BitLen z + 7) / 8)) (Z.abs z).

(** [big.Int.Uint64] and [big.Int.Int64]: the low 64 bits of the magnitude,
    with the sign put back for [Int64]. *)
Definition big_Uint64 (z : Z) : Z := u64 (Z.abs z).
Definition big_Int64 (z : Z) : Z :=
  if z <? 0 then i64 (- i64 (Z.abs z)) else i64 (Z.abs z).

(** [big.Int.Cmp] and [big.Int.Sign]. *)
Definition big_Cmp (x y : Z) : Z :=
  match x ?= y with Lt => -1 | Eq => 0 | Gt => 1 end.
Definition big_Sign (x : Z) : Z := big_Cmp x 0.

(** A slice [data\[s:e\]] whose bounds were already checked, and [make]. *)
Definition slice {A} (s e : Z) (l : list A) : list A :=
  take (Z.to_nat (e - s)) (drop (Z.to_nat s) l).
Definition zeros (n : Z) : list byte := replicate (Z.to_nat n) Byte.x00.
Definition Zlen {A} (l : list A) : Z := Z.of_nat (length l).

(** [copy(dst, src)]: overwrites a prefix of [dst], never extends it. *)
Definition go_copy {A} (dst src : list A) : list A :=
  take (length dst) src ++ drop (length src) dst.

(** [sort.Search(n, f)]: binary search; [n] rounds are enough. *)
Fixpoint Search_loop (fuel : nat) (f : nat → bool) (i j : nat) : nat :=
  match fuel with
  | O => i
  | S fuel' =>
      if (i <? j)%nat then
        let h := (i + (j - i) / 2)%nat in
        if f h then Search_loop fuel' f i h else Search_loop fuel' f (h + 1) j
      else i
  end.
Definition sort_Search (n : nat) (f : nat → bool) : nat := Search_loop n f 0 n.

(** ** Automation *)

(** Turns boolean tests on [Z] and [nat] in the context into propositions. *)
Ltac zbool :=
  repeat match goal with
  | H : (_ <? _) = true |- _ => apply Z.ltb_lt in H
  | H : (_ <? _) = false |- _ => apply Z.ltb_ge in H
  | H : (_ <=? _) = true |- _ => apply Z.leb_le in H
  | H : (_ <=? _) = false |- _ => apply Z.leb_gt in H
  | H : (_ >? _) = _ |- _ => rewrite Z.gtb_ltb in H
  | H : (_ >=? _) = _ |- _ => rewrite Z.geb_leb in H
  | H : (_ =? _) = true |- _ => apply Z.eqb_eq in H
  | H : (_ =? _) = false |- _ => apply Z.eqb_neq in H
  | H : (_ && _)%bool = true |- _ => apply andb_true_iff in H as [? ?]
  | H : (_ || _)%bool = false |- _ => apply orb_false_iff in H as [? ?]
  | H : negb _ = true |- _ => apply negb_true_iff in H
  | H : negb _ = false |- _ => apply negb_false_iff in H
  end.

(** Case analysis on the boolean a conditional of the goal tests. *)
Ltac case_if :=
  match goal with
  | |- context [if ?b then _ else _] =>
      let E := fresh "E" in destruct b eqn:E; zbool
  end.

Create HintDb hpb.

(** ** Lemmas on integers *)

Lemma u64_range x : is_u64 (u64 x).
Proof. unfold is_u64, u64. apply Z.mod_pos_bound. lia. Qed.

Lemma u64_small x : is_u64 x → u64 x = x.
Proof. unfold is_u64, u64. intros. by rewrite Z.mod_small. Qed.

Lemma u64_idemp x : u64 (u64 x) = u64 x.
Proof. apply u64_small, u64_range. Qed.

Lemma i64_small x : - 2 ^ 63 ≤ x < 2 ^ 63 → i64 x = x.
Proof. unfold i64. intros. rewrite Z.mod_small; lia. Qed.

Lemma big_Uint64_small x : is_u64 x → big_Uint64 x = x.
Proof.
  unfold big_Uint64. intros H. rewrite Z.abs_eq by (unfold is_u64 in H; lia).
  by apply u64_small.
Qed.

Lemma big_Uint64_range x : is_u64 (big_Uint64 x).
Proof. apply u64_range. Qed.

Lemma big_Int64_small x : 0 ≤ x < 2 ^ 63 → big_Int64 x = x.
Proof.
  intros. unfold big_Int64. rewrite (proj2 (Z.ltb_ge x 0)) by lia.
  rewrite Z.abs_eq by lia. apply i64_small. lia.
Qed.

Lemma big_Sign_eqb x : (big_Sign x =? 0) = (x =? 0).
Proof. unfold big_Sign, big_Cmp. destruct (Z.compare_spec x 0); simpl; lia. Qed.

Lemma BitLen_nonneg z : 0 ≤ BitLen z.
Proof. unfold BitLen. case_if; [lia|]. pose proof (Z.log2_nonneg (Z.abs z)). lia. Qed.

(** [BitLen] is the least width the magnitude fits in. *)
Lemma BitLen_le z n : 0 ≤ n → BitLen z ≤ n ↔ Z.abs z < 2 ^ n.
Proof.
  intros Hn. unfold BitLen. case_if.
  - rewrite E. split; [intros; apply Z.pow_pos_nonneg; lia|lia].
  - pose proof (Z.log2_lt_pow2 (Z.abs z) n ltac:(lia)). lia.
Qed.

Lemma BitLen_gt z n : 0 ≤ n → BitLen z > n ↔ 2 ^ n ≤ Z.abs z.
Proof. intros Hn. pose proof (BitLen_le z n Hn). lia. Qed.

(** ** Lemmas on bytes *)

Lemma byteZ_range b : 0 ≤ byteZ b < 256.
Proof. unfold byteZ. pose proof (Byte.to_N_bounded b). lia. Qed.

Lemma byteZ_Zbyte z : byteZ (Zbyte z) = z mod 256.
Proof.
  unfold byteZ, Zbyte. pose proof (Z.mod_pos_bound z 256 ltac:(lia)).
  destruct (Byte.of_N _) eqn:E.
  - apply Byte.to_of_N in E. rewrite E. lia.
  - apply Byte.of_N_None_iff in E. lia.
Qed.

Lemma Zbyte_byteZ b : Zbyte (byteZ b) = b.
Proof.
  unfold Zbyte, byteZ. pose proof (Byte.to_N_bounded b).
  rewrite Z.mod_small by lia. by rewrite N2Z.id, Byte.of_to_N.
Qed.

Lemma Zbyte_mod z : Zbyte (z mod 256) = Zbyte z.
Proof. unfold Zbyte. by rewrite Z.mod_mod by lia. Qed.

Lemma Zbyte_inj_mod x y : x mod 256 = y mod 256 → Zbyte x = Zbyte y.
Proof. unfold Zbyte. by intros ->. Qed.

#[global] Instance byte_eq_dec : EqDecision byte := Byte.byte_eq_dec.

Lemma Zlen_nonneg {A} (l : list A) : 0 ≤ Zlen l.
Proof. unfold Zlen. lia. Qed.

Lemma length_zeros n : length (zeros n) = Z.to_nat n.
Proof. apply length_replicate. Qed.

Lemma length_be_bytes n z : length (be_bytes n z) = n.
Proof. revert z. induction n; intros; simpl; [done|]. rewrite length_app, IHn. simpl. lia. Qed.

Lemma SetBytes_snoc l b : SetBytes (l ++ [b]) = SetBytes l * 256 + byteZ b.
Proof. unfold SetBytes. by rewrite foldl_app. Qed.

Lemma SetBytes_app l1 l2 :
  SetBytes (l1 ++ l2) = SetBytes l1 * 256 ^ Zlen l2 + SetBytes l2.
Proof.
  induction l2 as [|b l2 IH] using rev_ind.
  - rewrite app_nil_r. unfold Zlen. simpl. change (SetBytes []) with 0. lia.
  - rewrite app_assoc, !SetBytes_snoc, IH. unfold Zlen. rewrite length_app. simpl.
    rewrite Nat2Z.inj_add, Z.pow_add_r by lia. change (256 ^ Z.of_nat 1) with 256. ring.
Qed.

Lemma SetBytes_range l : 0 ≤ SetBytes l < 256 ^ Zlen l.
Proof.
  induction l as [|b l IH] using rev_ind.
  - by unfold SetBytes, Zlen; simpl.
  - rewrite SetBytes_snoc. pose proof (byteZ_range b). unfold Zlen in *. rewrite length_app. simpl.
    rewrite Nat2Z.inj_add, Z.pow_add_r by lia. change (256 ^ Z.of_nat 1) with 256. lia.
Qed.

Lemma SetBytes_be_bytes n z : SetBytes (be_bytes n z) = z mod 256 ^ Z.of_nat n.
Proof.
  revert z. induction n as [|n IH]; intros z; simpl be_bytes.
  - change (SetBytes []) with 0. by rewrite Z.mod_1_r.
  - rewrite SetBytes_snoc, IH, byteZ_Zbyte.
    replace (256 ^ Z.of_nat (S n)) with (256 * 256 ^ Z.of_nat n)
      by (rewrite Nat2Z.inj_succ, Z.pow_succ_r by lia; ring).
    pose proof (Z.pow_pos_nonneg 256 (Z.of_nat n) ltac:(lia) ltac:(lia)).
    rewrite Z.rem_mul_r by lia. ring.
Qed.

Lemma be_bytes_SetBytes l : be_bytes (length l) (SetBytes l) = l.
Proof.
  induction l as [|b l IH] using rev_ind; [done|].
  rewrite length_app. simpl. rewrite Nat.add_1_r. simpl.
  rewrite SetBytes_snoc. pose proof (byteZ_range b).
  rewrite Z.div_add_l, Z.div_small, Z.add_0_r, IH by lia. f_equal.
  rewrite <- (Zbyte_byteZ b) at 2. f_equal. apply Zbyte_inj_mod.
  rewrite Z.add_comm, Z.mod_add by lia. done.
Qed.

Lemma SetBytes_zeros n : SetBytes (zeros n) = 0.
Proof.
  unfold zeros. induction (Z.to_nat n) as [|k IH]; [done|].
  rewrite replicate_S_end, SetBytes_snoc, IH. done.
Qed.

Lemma be_bytes_big_Bytes z : 0 ≤ z → SetBytes (big_Bytes z) = z.
Proof.
  intros Hz. unfold big_Bytes. rewrite SetBytes_be_bytes, Z.abs_eq by done.
  apply Z.mod_small. split; [done|].
  pose proof (BitLen_nonneg z).
  pose proof (Z.div_mod (BitLen z + 7) 8 ltac:(lia)).
  pose proof (Z.mod_pos_bound (BitLen z + 7) 8 ltac:(lia)).
  rewrite Z2Nat.id by lia.
  change 256 with (2 ^ 8). rewrite <- Z.pow_mul_r by lia.
  eapply Z.lt_le_trans.
  - rewrite <- (Z.abs_eq z) at 1 by done. apply (proj1 (BitLen_le z (BitLen z) ltac:(done))). lia.
  - apply Z.pow_le_mono_r; lia.
Qed.

(** ** Binary search *)

Lemma Search_loop_spec n f fuel i j :
  (∀ x y, (x ≤ y < n)%nat → f x = true → f y = true) →
  (i ≤ j ≤ n)%nat → (j - i ≤ fuel)%nat →
  (∀ x, (x < i)%nat → f x = false) → (∀ x, (j ≤ x < n)%nat → f x = true) →
  let k := Search_loop fuel f i j in
  (k ≤ n)%nat ∧ (∀ x, (x < k)%nat → f x = false) ∧ (∀ x, (k ≤ x < n)%nat → f x = true).
Proof.
  intros Hmono. revert i j. induction fuel as [|fuel IH]; intros i j Hij Hfuel Hlo Hhi.
  - simpl. assert (i = j) by lia. subst. split_and!; [lia|done|done].
  - cbn [Search_loop]. destruct (Nat.ltb_spec i j); [|assert (i = j) by lia; subst; split_and!; [lia|done|done]].
    cbv zeta. set (h := (i + (j - i) / 2)%nat).
    assert (Hh : (i ≤ h < j)%nat).
    { subst h. pose proof (Nat.div_lt (j - i) 2 ltac:(lia) ltac:(lia)). lia. }
    destruct (f h) eqn:Eh; apply IH; try done; try lia; intros x Hx.
    + destruct (decide (x < j)%nat); [|apply Hhi; lia]. apply (Hmono h x); [lia|done].
    + destruct (decide (x < i)%nat); [by apply Hlo|]. destruct (f x) eqn:Ex; [|done].
      rewrite (Hmono x h) in Eh; [done|lia|done].
Qed.

(** On a monotone predicate [sort.Search] finds the least index. *)
Lemma sort_Search_spec n f :
  (∀ x y, (x ≤ y < n)%nat → f x = true → f y = true) →
  (sort_Search n f ≤ n)%nat ∧ (∀ x, (x < sort_Search n f)%nat → f x = false) ∧
  (∀ x, (sort_Search n f ≤ x < n)%nat → f x = true).
Proof. intros Hmono. apply Search_loop_spec; try done; lia. Qed.
