(* ===== verification/GoMath.v ===== *)
(** * Integer helpers of [common/math] and byte helpers of [common]

    [src/common/math/big.go], [src/common/math/integer.go],
    [src/common/bytes.go], and the conversions of [src/common/types.go]
    between big integers, hashes and addresses.  A [big.Int] is a [Z]; the
    destructive operations return the new value. *)

From stdpp Require Import base tactics list numbers.
From S2P Require Import Prelude.

#[local] Open Scope Z_scope.

(** ** big.go *)

Definition tt255 : Z := 2 ^ 255.
Definition tt256 : Z := 2 ^ 256.
Definition tt256m1 : Z := tt256 - 1.

(** Bits and bytes in a [big.Word] on a 64-bit machine. *)
Definition wordBits : nat := 64.
Definition wordBytes : nat := 8.

(** [big.Int.Bits]: the magnitude as little-endian machine words without a
    leading zero word. *)
Fixpoint words (n : nat) (z : Z) : list Z :=
  match n with
  | O => []
  | S n' => (z mod 2 ^ 64) :: words n' (z / 2 ^ 64)
  end.
Definition big_Bits (z : Z) : list Z :=
  words (Z.to_nat ((BitLen z + 63) / 64)) (Z.abs z).

(** [big.Int.Div] and [big.Int.Mod]: Euclidean division, for [y ≠ 0]. *)
Definition big_Div (x y : Z) : Z := Z.sgn y * (x / Z.abs y).
Definition big_Mod (x y : Z) : Z := x mod Z.abs y.

Definition BigPow (a b : Z) : Z := if b <? 0 then 1 else a ^ b.

Definition BigMax (x y : Z) : Z := if big_Cmp x y <? 0 then y else x.
Definition BigMin (x y : Z) : Z := if big_Cmp x y >? 0 then y else x.

(** The loop of [FirstBitSet] from bit [i], with [n] bits left. *)
Fixpoint FirstBitSet_loop (n : nat) (i : Z) (v : Z) : Z :=
  match n with
  | O => BitLen v
  | S n' => if Z.testbit v i then i else FirstBitSet_loop n' (i + 1) v
  end.
Definition FirstBitSet (v : Z) : Z := FirstBitSet_loop (Z.to_nat (BitLen v)) 0 v.

(** One word of [ReadBits]: at most [j] bytes of [d] are stored, moving down
    from index [i]. *)
Fixpoint ReadBits_word (j : nat) (d : Z) (i : nat) (buf : list byte) : nat * list byte :=
  match j, i with
  | O, _ => (i, buf)
  | _, O => (i, buf)
  | S j', S i' => ReadBits_word j' (d / 2 ^ 8) i' (<[i' := Zbyte d]> buf)
  end.
Definition ReadBits (bigint : Z) (buf : list byte) : list byte :=
  snd (foldl (λ '(i, b) d, ReadBits_word wordBytes d i b)
         (length buf, buf) (big_Bits bigint)).

Definition PaddedBigBytes (bigint n : Z) : list byte :=
  if BitLen bigint / 8 >=? n then big_Bytes bigint
  else ReadBits bigint (zeros n).

Definition bigEndianByteAt (bigint n : Z) : byte :=
  let ws := big_Bits bigint in
  let i := n / Z.of_nat wordBytes in
  if i >=? Zlen ws then Zbyte 0
  else
    let word := nth (Z.to_nat i) ws 0 in
    let shift := 8 * (n mod Z.of_nat wordBytes) in
    Zbyte (Z.shiftr word shift).

Definition Byte (bigint padlength n : Z) : byte :=
  if n >=? padlength then Zbyte 0
  else bigEndianByteAt bigint (padlength - 1 - n).

Definition U256 (x : Z) : Z := Z.land x tt256m1.

Definition S256 (x : Z) : Z :=
  if big_Cmp x tt255 <? 0 then x else x - tt256.

(** The inner loop of [Exp] over the low [n] bits of [word]; the state is
    [result] and [base], both overwritten in place. *)
Fixpoint Exp_word (n : nat) (word result base : Z) : Z * Z :=
  match n with
  | O => (result, base)
  | S n' =>
      let result' := if Z.land word 1 =? 1 then U256 (result * base) else result in
      Exp_word n' (Z.shiftr word 1) result' (U256 (base * base))
  end.
(** [Exp] with the value it leaves in the caller's [base]. *)
Definition Exp_state (base exponent : Z) : Z * Z :=
  foldl (λ '(result, b) word, Exp_word wordBits word result b)
    (1, base) (big_Bits exponent).
Definition Exp (base exponent : Z) : Z := fst (Exp_state base exponent).

(** ** integer.go: each returns the wrapped result and the overflow flag *)

Definition SafeSub (x y : Z) : Z * bool := (u64 (x - y), x <? y).
Definition SafeAdd (x y : Z) : Z * bool := (u64 (x + y), y >? MaxUint64 - x).
Definition SafeMul (x y : Z) : Z * bool :=
  if (x =? 0) || (y =? 0) then (0, false)
  else (u64 (x * y), y >? MaxUint64 / x).

(** ** bytes.go *)

Definition RightPadBytes (sl : list byte) (l : Z) : list byte :=
  if l <=? Zlen sl then sl else go_copy (zeros l) sl.

(** [copy(padded\[l-len(slice):\], slice)] writes the tail of [padded]. *)
Definition LeftPadBytes (sl : list byte) (l : Z) : list byte :=
  if l <=? Zlen sl then sl
  else take (Z.to_nat (l - Zlen sl)) (zeros l) ++ go_copy (drop (Z.to_nat (l - Zlen sl)) (zeros l)) sl.

(** ** types.go: a hash is the 256-bit number and an address the 160-bit
    number its bytes denote. *)

Definition HashLength : Z := 32.
Definition AddressLength : Z := 20.

Abbreviation Hash := Z (only parsing).
Abbreviation Address := Z (only parsing).

(** [SetBytes] on a fixed array of [n] zero bytes: crop from the left, then
    copy to the right end. *)
Definition array_SetBytes (n : Z) (b : list byte) : list byte :=
  let b' := if Zlen b >? n then drop (Z.to_nat (Zlen b - n)) b else b in
  take (Z.to_nat (n - Zlen b')) (zeros n) ++ go_copy (drop (Z.to_nat (n - Zlen b')) (zeros n)) b'.

Definition BytesToHash (b : list byte) : Hash := SetBytes (array_SetBytes HashLength b).
Definition BigToHash (b : Z) : Hash := BytesToHash (big_Bytes b).
Definition BytesToAddress (b : list byte) : Address := SetBytes (array_SetBytes AddressLength b).
Definition BigToAddress (b : Z) : Address := BytesToAddress (big_Bytes b).
Definition Hash_Bytes (h : Hash) : list byte := be_bytes 32 h.
Definition Address_Bytes (a : Address) : list byte := be_bytes 20 a.
Definition EmptyHash (h : Hash) : bool := h =? 0.

(** ** Lemmas *)

Lemma U256_mod x : U256 x = x mod 2 ^ 256.
Proof.
  change (U256 x) with (Z.land x (Z.ones 256)). by rewrite Z.land_ones by lia.
Qed.

Lemma U256_range x : is_u256 (U256 x).
Proof. rewrite U256_mod. apply Z.mod_pos_bound. lia. Qed.

Lemma U256_small x : is_u256 x → U256 x = x.
Proof. intros. rewrite U256_mod. by apply Z.mod_small. Qed.

Lemma S256_eq x : S256 x = if x <? 2 ^ 255 then x else x - 2 ^ 256.
Proof.
  unfold S256, big_Cmp, tt255, tt256.
  destruct (Z.compare_spec x (2 ^ 255)), (Z.ltb_spec x (2 ^ 255)); simpl; try lia.
Qed.

Lemma S256_range x : is_u256 x → - 2 ^ 255 ≤ S256 x < 2 ^ 255.
Proof. unfold is_u256. intros. rewrite S256_eq. case_if; lia. Qed.

Lemma U256_S256 x : is_u256 x → U256 (S256 x) = x.
Proof.
  intros H. rewrite S256_eq, U256_mod. unfold is_u256 in H. case_if.
  - apply Z.mod_small. lia.
  - rewrite <- (Z.mod_add _ 1) by lia. rewrite Z.mod_small; lia.
Qed.

Lemma BigMax_spec x y : BigMax x y = Z.max x y.
Proof. unfold BigMax, big_Cmp. destruct (Z.compare_spec x y); simpl; lia. Qed.

Lemma BigMin_spec x y : BigMin x y = Z.min x y.
Proof. unfold BigMin, big_Cmp. destruct (Z.compare_spec x y); simpl; lia. Qed.

(** The number a list of machine words denotes. *)
Fixpoint words_val (ws : list Z) : Z :=
  match ws with [] => 0 | w :: ws' => w + 2 ^ 64 * words_val ws' end.

Lemma words_val_words n z : 0 ≤ z → words_val (words n z) = z mod 2 ^ (64 * Z.of_nat n).
Proof.
  revert z. induction n as [|n IH]; intros z Hz.
  - simpl. by rewrite Z.mod_1_r.
  - simpl words. simpl words_val. rewrite IH by (apply Z.div_pos; lia).
    replace (64 * Z.of_nat (S n)) with (64 + 64 * Z.of_nat n) by lia.
    rewrite (Z.pow_add_r 2 64) by lia.
    rewrite Z.rem_mul_r by lia. done.
Qed.

Lemma words_range n z : Forall is_u64 (words n z).
Proof.
  revert z. induction n; intros; constructor; [|done].
  apply Z.mod_pos_bound. lia.
Qed.

Lemma length_words n z : length (words n z) = n.
Proof. revert z. induction n; intros; simpl; auto. Qed.

Lemma words_count z n : 0 ≤ n → Z.abs z < 2 ^ n →
  Z.abs z < 2 ^ (64 * ((BitLen z + 63) / 64)).
Proof.
  intros Hn Hz. pose proof (BitLen_nonneg z).
  pose proof (Z.div_mod (BitLen z + 63) 64 ltac:(lia)).
  pose proof (Z.mod_pos_bound (BitLen z + 63) 64 ltac:(lia)).
  apply BitLen_le; lia.
Qed.

Lemma words_val_big_Bits z : words_val (big_Bits z) = Z.abs z.
Proof.
  unfold big_Bits. pose proof (BitLen_nonneg z).
  assert (0 ≤ (BitLen z + 63) / 64) by (apply Z.div_pos; lia).
  rewrite words_val_words, Z2Nat.id by lia.
  apply Z.mod_small. split; [lia|].
  apply (words_count z (BitLen z)); [done|]. apply BitLen_le; lia.
Qed.

Lemma big_Bits_range z : Forall is_u64 (big_Bits z).
Proof. apply words_range. Qed.

(** The square-and-multiply loop over one word. *)
Lemma Exp_word_spec n w r b :
  0 ≤ w → is_u256 r →
  let '(r', b') := Exp_word n w r b in
  r' = (r * b ^ (w mod 2 ^ Z.of_nat n)) mod 2 ^ 256 ∧
  b' mod 2 ^ 256 = (b ^ (2 ^ Z.of_nat n)) mod 2 ^ 256.
Proof.
  revert w r b. induction n as [|n IH]; intros w r b Hw Hr.
  - simpl. rewrite Z.mod_1_r, Z.pow_0_r, Z.pow_1_r, Z.mul_1_r.
    split; [|done]. symmetry. by apply Z.mod_small.
  - simpl Exp_word.
    set (r1 := if Z.land w 1 =? 1 then U256 (r * b) else r).
    assert (is_u256 r1) by (subst r1; case_if; [apply U256_range|done]).
    specialize (IH (Z.shiftr w 1) r1 (U256 (b * b)) ltac:(by apply Z.shiftr_nonneg) ltac:(done)).
    destruct (Exp_word n _ _ _) as [r' b']. destruct IH as [IHr IHb].
    assert (0 ≤ w / 2) by (apply Z.div_pos; lia).
    pose proof (Z.pow_pos_nonneg 2 (Z.of_nat n) ltac:(lia) ltac:(lia)) as Hpn.
    pose proof (Z.mod_pos_bound (w / 2) (2 ^ Z.of_nat n) Hpn) as Hm.
    rewrite Z.shiftr_div_pow2, Z.pow_1_r in IHr by lia.
    assert (Hpow : ∀ k, 0 ≤ k →
      U256 (b * b) ^ k mod 2 ^ 256 = (b ^ (2 * k)) mod 2 ^ 256).
    { intros k Hk. rewrite U256_mod, Z.mod_pow_l.
      replace (b * b) with (b ^ 2) by ring. by rewrite <- Z.pow_mul_r by lia. }
    rewrite Nat2Z.inj_succ, Z.pow_succ_r by lia.
    split.
    + rewrite IHr, Z.mul_mod, Hpow, <- Z.mul_mod by lia.
      rewrite Z.rem_mul_r by lia. subst r1.
      change 1 with (Z.ones 1) at 1. rewrite Z.land_ones, Z.pow_1_r by lia.
      pose proof (Z.mod_pos_bound w 2 ltac:(lia)).
      destruct (w mod 2 =? 1) eqn:E; zbool.
      * rewrite E, U256_mod, Z.mul_mod_idemp_l by lia.
        rewrite Z.pow_add_r, Z.pow_1_r by lia. f_equal. ring.
      * replace (w mod 2) with 0 by lia. by rewrite Z.add_0_l.
    + rewrite IHb. apply Hpow. lia.
Qed.

Lemma exp_join N W r b b1 w v :
  N ≠ 0 → 0 ≤ W → 0 ≤ w → 0 ≤ v → b1 mod N = b ^ W mod N →
  ((r * b ^ w) mod N * b1 ^ v) mod N = (r * b ^ (w + W * v)) mod N.
Proof.
  intros HN HW Hw Hv Hb.
  rewrite Z.mul_mod_idemp_l by done.
  rewrite Z.mul_mod, <- (Z.mod_pow_l b1), Hb, Z.mod_pow_l, <- Z.mul_mod by done.
  rewrite <- Z.pow_mul_r, Z.pow_add_r by lia. f_equal. ring.
Qed.

Lemma Exp_words_spec ws r b :
  Forall is_u64 ws → is_u256 r →
  let '(r', b') := foldl (λ '(result, b) word, Exp_word wordBits word result b) (r, b) ws in
  r' = (r * b ^ words_val ws) mod 2 ^ 256.
Proof.
  revert r b. induction ws as [|w ws IH]; intros r b Hws Hr.
  - simpl. rewrite Z.pow_0_r, Z.mul_1_r. symmetry. by apply Z.mod_small.
  - inversion Hws as [|? ? Hw Hws']; subst. cbn [foldl].
    pose proof (Exp_word_spec wordBits w r b ltac:(apply Hw) Hr) as H1.
    destruct (Exp_word wordBits w r b) as [r1 b1]. destruct H1 as [Hr1 Hb1].
    assert (is_u256 r1) by (rewrite Hr1; apply Z.mod_pos_bound; lia).
    specialize (IH r1 b1 Hws' ltac:(done)).
    destruct (foldl _ _ _) as [r' b']. rewrite IH, Hr1.
    assert (Hv : 0 ≤ words_val ws).
    { clear -Hws'. induction Hws' as [|x l Hx]; simpl; [lia|]. unfold is_u64 in Hx. lia. }
    change (Z.of_nat wordBits) with 64 in *. unfold is_u64 in Hw.
    rewrite (Z.mod_small w) by exact Hw. simpl words_val.
    apply exp_join; [done..|apply Hw|exact Hv|exact Hb1].
Qed.

Lemma Exp_spec b e : Exp b e = b ^ Z.abs e mod 2 ^ 256.
Proof.
  unfold Exp, Exp_state.
  pose proof (Exp_words_spec (big_Bits e) 1 b (big_Bits_range e) ltac:(by unfold is_u256)) as H.
  destruct (foldl _ _ _) as [r b']. simpl. by rewrite words_val_big_Bits, Z.mul_1_l in H.
Qed.

(** ** Byte encodings *)

Lemma be_bytes_add m n z : 0 ≤ z →
  be_bytes (m + n) z = be_bytes m (z / 256 ^ Z.of_nat n) ++ be_bytes n z.
Proof.
  revert z. induction n as [|n IH]; intros z Hz.
  - by rewrite Nat.add_0_r, Z.div_1_r, app_nil_r.
  - rewrite Nat.add_succ_r. simpl be_bytes. rewrite IH by (apply Z.div_pos; lia).
    rewrite <- app_assoc. f_equal. f_equal.
    rewrite Z.div_div by (try apply Z.pow_pos_nonneg; lia).
    f_equal. rewrite Nat2Z.inj_succ, Z.pow_succ_r by lia. ring.
Qed.

Lemma be_bytes_mod n z k : 0 ≤ z → Z.of_nat n ≤ k → be_bytes n (z mod 256 ^ k) = be_bytes n z.
Proof.
  revert z k. induction n as [|n IH]; intros z k Hz Hk; [done|].
  simpl be_bytes.
  assert (Hk' : 256 ^ k = 256 * 256 ^ (k - 1)).
  { rewrite <- Z.pow_succ_r by lia. f_equal. lia. }
  pose proof (Z.pow_pos_nonneg 256 (k - 1) ltac:(lia) ltac:(lia)).
  rewrite Hk', Z.rem_mul_r by lia.
  pose proof (Z.mod_pos_bound z 256 ltac:(lia)).
  f_equal; [|f_equal].
  - rewrite (Z.mul_comm 256 (_ mod _)), Z.div_add, Z.div_small, Z.add_0_l by lia.
    apply IH; [apply Z.div_pos; lia|lia].
  - apply Zbyte_inj_mod.
    rewrite (Z.mul_comm 256 (_ mod _)), Z.mod_add, Z.mod_mod by lia. done.
Qed.

Lemma be_bytes_zero n : be_bytes n 0 = replicate n Byte.x00.
Proof. induction n; [done|]. rewrite replicate_S_end. simpl. rewrite Z.div_0_l by lia. by rewrite IHn. Qed.

Lemma ReadBits_word_spec j d i buf :
  0 ≤ d → (i ≤ length buf)%nat →
  ReadBits_word j d i buf =
    ((i - Nat.min j i)%nat,
     take (i - Nat.min j i) buf ++ be_bytes (Nat.min j i) d ++ drop i buf).
Proof.
  revert d i buf. induction j as [|j IH]; intros d i buf Hd Hi.
  - simpl. rewrite Nat.sub_0_r, take_drop. done.
  - destruct i as [|i]; [done|]. simpl ReadBits_word.
    rewrite IH by (rewrite ?length_insert; try apply Z.div_pos; lia).
    rewrite <- Nat.succ_min_distr, Nat.sub_succ. f_equal.
    rewrite take_insert_ge by lia. f_equal. simpl be_bytes. change (2 ^ 8) with 256.
    rewrite <- app_assoc. f_equal.
    rewrite drop_insert_ge, Nat.sub_diag by lia.
    destruct (drop i buf) as [|x l] eqn:E.
    + apply (f_equal length) in E. rewrite length_drop in E. simpl in E. lia.
    + simpl. f_equal. replace (S i) with (1 + i)%nat by lia.
      rewrite Nat.add_comm, <- drop_drop, E. done.
Qed.

Lemma ReadBits_words_spec ws i buf :
  Forall is_u64 ws → (i ≤ length buf)%nat →
  let k := Nat.min (8 * length ws) i in
  foldl (λ '(i, b) d, ReadBits_word wordBytes d i b) (i, buf) ws =
    ((i - k)%nat, take (i - k) buf ++ be_bytes k (words_val ws) ++ drop i buf).
Proof.
  intros Hws. revert i buf. induction Hws as [|w ws Hw Hws IH]; intros i buf Hi k.
  - subst k. simpl. by rewrite Nat.sub_0_r, take_drop.
  - cbn [foldl]. rewrite ReadBits_word_spec by (unfold is_u64 in Hw; lia).
    change wordBytes with 8%nat in *. set (k0 := Nat.min 8 i).
    assert (Hv : 0 ≤ words_val ws).
    { clear -Hws. induction Hws as [|x l Hx]; simpl; [lia|]. unfold is_u64 in Hx. lia. }
    unfold is_u64 in Hw.
    rewrite IH by (rewrite !length_app, length_take, length_be_bytes, length_drop; lia).
    set (k1 := Nat.min _ (i - k0)). assert (k = k1 + k0)%nat as -> by (subst k k0 k1; simpl length; lia).
    f_equal; [lia|].
    rewrite take_app_le by (rewrite length_take; lia).
    rewrite take_take, Nat.min_l by lia.
    rewrite drop_app_length' by (rewrite length_take; lia).
    rewrite (Nat.add_comm k1), <- Nat.sub_add_distr. f_equal. rewrite app_assoc. f_equal.
    rewrite (Nat.add_comm k0), be_bytes_add by (simpl; lia).
    destruct (decide (8 ≤ i)%nat) as [Hle|Hle].
    + replace k0 with 8%nat by lia. simpl words_val.
      change (256 ^ Z.of_nat 8) with (2 ^ 64).
      f_equal.
      * rewrite (Z.mul_comm (2 ^ 64)), Z.div_add, Z.div_small by lia. done.
      * rewrite <- (be_bytes_mod 8 (_ + _) 8) by lia. change (256 ^ 8) with (2 ^ 64).
        rewrite (Z.mul_comm (2 ^ 64)), Z.mod_add, Z.mod_small by lia. done.
    + replace k1 with 0%nat by lia. simpl.
      rewrite <- (be_bytes_mod k0 (_ + _) 8) by lia. change (256 ^ 8) with (2 ^ 64).
      rewrite (Z.mul_comm (2 ^ 64)), Z.mod_add, Z.mod_small by lia. done.
Qed.

Lemma ReadBits_zeros z n : 0 ≤ n → ReadBits z (zeros n) = be_bytes (Z.to_nat n) (Z.abs z).
Proof.
  intros Hn. unfold ReadBits.
  rewrite ReadBits_words_spec by (try apply big_Bits_range; lia). simpl.
  rewrite length_zeros, words_val_big_Bits, drop_ge, app_nil_r by (rewrite length_zeros; lia).
  set (k := Nat.min _ _).
  replace (Z.to_nat n) with ((Z.to_nat n - k) + k)%nat at 2 by lia.
  rewrite be_bytes_add by lia. f_equal.
  destruct (decide (k = Z.to_nat n)) as [->|]; [by rewrite Nat.sub_diag|].
  rewrite Z.div_small, be_bytes_zero; [unfold zeros; rewrite take_replicate; f_equal; lia|].
  split; [lia|]. assert (k = 8 * length (big_Bits z))%nat as -> by lia.
  rewrite <- words_val_big_Bits. unfold big_Bits. rewrite length_words.
  rewrite words_val_words by lia.
  replace (256 ^ _) with (2 ^ (64 * Z.of_nat (Z.to_nat ((BitLen z + 63) / 64)))).
  - apply Z.mod_pos_bound, Z.pow_pos_nonneg; lia.
  - change 256 with (2 ^ 8). rewrite <- Z.pow_mul_r by lia. f_equal. lia.
Qed.

Lemma PaddedBigBytes_be z n : 0 ≤ z → 0 ≤ n → z < 256 ^ n →
  PaddedBigBytes z n = be_bytes (Z.to_nat n) z.
Proof.
  intros Hz Hn Hlt. unfold PaddedBigBytes. pose proof (BitLen_nonneg z).
  rewrite Z.geb_leb. destruct (n <=? BitLen z / 8) eqn:E; zbool.
  - assert (BitLen z ≤ 8 * n).
    { apply BitLen_le; [lia|]. rewrite Z.abs_eq by done.
      rewrite Z.pow_mul_r by lia. done. }
    pose proof (Z.div_mod (BitLen z) 8 ltac:(lia)).
    pose proof (Z.mod_pos_bound (BitLen z) 8 ltac:(lia)).
    pose proof (Z.div_mod (BitLen z + 7) 8 ltac:(lia)).
    pose proof (Z.mod_pos_bound (BitLen z + 7) 8 ltac:(lia)).
    unfold big_Bytes. rewrite Z.abs_eq by done. f_equal. f_equal. lia.
  - rewrite ReadBits_zeros by done. by rewrite Z.abs_eq.
Qed.

Lemma nth_words n z i : 0 ≤ z → (i < n)%nat →
  nth i (words n z) 0 = (z / 2 ^ (64 * Z.of_nat i)) mod 2 ^ 64.
Proof.
  revert z i. induction n as [|n IH]; intros z i Hz Hi; [lia|].
  destruct i as [|i]; simpl nth.
  - by rewrite Z.mul_0_r, Z.pow_0_r, Z.div_1_r.
  - rewrite IH by (try apply Z.div_pos; lia).
    rewrite Z.div_div by (try apply Z.pow_pos_nonneg; lia).
    rewrite <- Z.pow_add_r by lia. repeat f_equal. lia.
Qed.

Lemma bigEndianByteAt_spec z n : 0 ≤ z → 0 ≤ n →
  byteZ (bigEndianByteAt z n) = (z / 256 ^ n) mod 256.
Proof.
  intros Hz Hn. unfold bigEndianByteAt. rewrite Z.geb_leb.
  change (Z.of_nat wordBytes) with 8.
  pose proof (Z.div_mod n 8 ltac:(lia)). pose proof (Z.mod_pos_bound n 8 ltac:(lia)).
  pose proof (BitLen_nonneg z).
  pose proof (Z.div_mod (BitLen z + 63) 64 ltac:(lia)).
  pose proof (Z.mod_pos_bound (BitLen z + 63) 64 ltac:(lia)).
  assert (Hlen : Zlen (big_Bits z) = (BitLen z + 63) / 64).
  { unfold Zlen, big_Bits. rewrite length_words. lia. }
  assert (Hz' : z < 2 ^ (64 * ((BitLen z + 63) / 64))).
  { rewrite <- (Z.abs_eq z) at 1 by done. apply BitLen_le; lia. }
  rewrite Hlen. change 256 with (2 ^ 8) at 1. rewrite <- Z.pow_mul_r by lia. case_if.
  - rewrite byteZ_Zbyte, Z.div_small; [done|]. split; [done|].
    eapply Z.lt_le_trans; [exact Hz'|]. apply Z.pow_le_mono_r; lia.
  - unfold big_Bits. rewrite nth_words by lia. rewrite byteZ_Zbyte, Z.abs_eq by done.
    rewrite Z.shiftr_div_pow2 by lia. rewrite Z2Nat.id by lia.
    change 256 with (2 ^ 8).
    apply Z.bits_inj'. intros m Hm.
    rewrite !Z.testbit_mod_pow2 by lia.
    destruct (m <? 8) eqn:Em; zbool; simpl; [|done].
    rewrite !Z.div_pow2_bits by lia. rewrite Z.testbit_mod_pow2 by lia.
    rewrite (proj2 (Z.ltb_lt _ _)) by lia. simpl.
    rewrite Z.div_pow2_bits by lia. f_equal. lia.
Qed.

(** [go_copy] into a buffer of the same length replaces it. *)
Lemma go_copy_eq {A} (dst src : list A) : length src = length dst → go_copy dst src = src.
Proof.
  intros H. unfold go_copy. rewrite <- H, firstn_all, H, drop_ge by lia. apply app_nil_r.
Qed.

Lemma length_go_copy {A} (dst src : list A) : length (go_copy dst src) = length dst.
Proof. unfold go_copy. rewrite length_app, length_take, length_drop. lia. Qed.

Lemma length_RightPadBytes sl l : 0 ≤ l →
  Zlen (RightPadBytes sl l) = Z.max l (Zlen sl).
Proof.
  intros Hl. unfold RightPadBytes. case_if; [lia|].
  unfold Zlen in *. rewrite length_go_copy, length_zeros. lia.
Qed.

Lemma array_SetBytes_spec n b : 0 ≤ n →
  length (array_SetBytes n b) = Z.to_nat n ∧
  SetBytes (array_SetBytes n b) = SetBytes b mod 256 ^ n.
Proof.
  intros Hn. unfold array_SetBytes.
  set (b' := if Zlen b >? n then _ else b).
  assert (Hb' : Zlen b' ≤ n ∧ SetBytes b' = SetBytes b mod 256 ^ n).
  { subst b'. rewrite Z.gtb_ltb. case_if.
    - unfold Zlen in *. rewrite length_drop. split; [lia|].
      set (k := Z.to_nat _).
      assert (Hk : Z.of_nat (length (drop k b)) = n) by (rewrite length_drop; lia).
      rewrite <- (take_drop k b) at 2. rewrite SetBytes_app. unfold Zlen.
      rewrite Hk, Z.add_comm, Z.mod_add by (apply Z.pow_nonzero; lia).
      symmetry. apply Z.mod_small. rewrite <- Hk. apply SetBytes_range.
    - split; [done|]. symmetry. apply Z.mod_small. pose proof (SetBytes_range b).
      split; [lia|]. eapply Z.lt_le_trans; [apply H|]. apply Z.pow_le_mono_r; lia. }
  destruct Hb' as [Hlen Hval]. unfold Zlen in *. clearbody b'.
  rewrite go_copy_eq by (rewrite length_drop, length_zeros; lia). split.
  - rewrite length_app, length_take, length_zeros. lia.
  - rewrite SetBytes_app. unfold zeros at 1. rewrite take_replicate.
    rewrite <- (Nat2Z.id (Nat.min _ _)). fold (zeros (Z.of_nat (Nat.min (Z.to_nat (n - Z.of_nat (length b'))) (Z.to_nat n)))).
    rewrite SetBytes_zeros. lia.
Qed.

Lemma BytesToHash_spec b : BytesToHash b = SetBytes b mod 2 ^ 256.
Proof. apply (array_SetBytes_spec 32). lia. Qed.

Lemma BytesToAddress_spec b : BytesToAddress b = SetBytes b mod 2 ^ 160.
Proof. apply (array_SetBytes_spec 20). lia. Qed.

Lemma BigToHash_spec z : 0 ≤ z → BigToHash z = z mod 2 ^ 256.
Proof. intros. unfold BigToHash. by rewrite BytesToHash_spec, be_bytes_big_Bytes. Qed.

Lemma BigToAddress_spec z : 0 ≤ z → BigToAddress z = z mod 2 ^ 160.
Proof. intros. unfold BigToAddress. by rewrite BytesToAddress_spec, be_bytes_big_Bytes. Qed.

Lemma SafeAdd_spec x y : is_u64 x → is_u64 y →
  SafeAdd x y = (u64 (x + y), bool_decide (2 ^ 64 ≤ x + y)).
Proof.
  unfold is_u64, SafeAdd, MaxUint64. intros. f_equal. rewrite Z.gtb_ltb.
  case_bool_decide; [apply Z.ltb_lt|apply Z.ltb_ge]; lia.
Qed.

Lemma SafeMul_spec x y : is_u64 x → is_u64 y →
  SafeMul x y = (u64 (x * y), bool_decide (2 ^ 64 ≤ x * y)).
Proof.
  unfold is_u64, SafeMul, MaxUint64. intros Hx Hy.
  destruct (x =? 0) eqn:Ex; zbool; [subst; rewrite Z.mul_0_l, bool_decide_false by lia; done|].
  destruct (y =? 0) eqn:Ey; zbool; [subst; rewrite Z.mul_0_r, bool_decide_false by lia; done|].
  cbn [orb]. f_equal. rewrite Z.gtb_ltb.
  pose proof (Z.div_mod (2 ^ 64 - 1) x ltac:(lia)).
  pose proof (Z.mod_pos_bound (2 ^ 64 - 1) x ltac:(lia)).
  case_bool_decide; [apply Z.ltb_lt|apply Z.ltb_ge]; nia.
Qed.
