(* ===== verification/EvmParams.v ===== *)
(** * EVM constants: opcodes, gas schedule, errors

    [src/hvm/evm/opcodes.go], [src/hvm/evm/gas.go], [src/hvm/evm/errors.go],
    [src/config/config.go] and [src/config/vmconfig.go]. *)

From stdpp Require Import base tactics list numbers.
From S2P Require Import Prelude.

#[local] Open Scope Z_scope.

(** ** opcodes.go

    [OpCode] is a byte in the source; the constructors are its named
    constants.  A byte that names none of them is looked up in the jump table
    as an invalid operation. *)
Inductive OpCode : Type :=
| STOP | ADD | MUL | SUB | DIV | SDIV | MOD | SMOD | ADDMOD | MULMOD
| EXP | SIGNEXTEND | LT | GT | SLT | SGT | EQ | ISZERO | AND | OR
| XOR | NOT | BYTE | SHA3 | ADDRESS | BALANCE | ORIGIN | CALLER | CALLVALUE | CALLDATALOAD
| CALLDATASIZE | CALLDATACOPY | CODESIZE | CODECOPY | GASPRICE | EXTCODESIZE | EXTCODECOPY | RETURNDATASIZE | RETURNDATACOPY | BLOCKHASH
| COINBASE | TIMESTAMP | NUMBER | DIFFICULTY | GASLIMIT | POP | MLOAD | MSTORE | MSTORE8 | SLOAD
| SSTORE | JUMP | JUMPI | PC | MSIZE | GAS | JUMPDEST | PUSH1 | PUSH2 | PUSH3
| PUSH4 | PUSH5 | PUSH6 | PUSH7 | PUSH8 | PUSH9 | PUSH10 | PUSH11 | PUSH12 | PUSH13
| PUSH14 | PUSH15 | PUSH16 | PUSH17 | PUSH18 | PUSH19 | PUSH20 | PUSH21 | PUSH22 | PUSH23
| PUSH24 | PUSH25 | PUSH26 | PUSH27 | PUSH28 | PUSH29 | PUSH30 | PUSH31 | PUSH32 | DUP1
| DUP2 | DUP3 | DUP4 | DUP5 | DUP6 | DUP7 | DUP8 | DUP9 | DUP10 | DUP11
| DUP12 | DUP13 | DUP14 | DUP15 | DUP16 | SWAP1 | SWAP2 | SWAP3 | SWAP4 | SWAP5
| SWAP6 | SWAP7 | SWAP8 | SWAP9 | SWAP10 | SWAP11 | SWAP12 | SWAP13 | SWAP14 | SWAP15
| SWAP16 | LOG0 | LOG1 | LOG2 | LOG3 | LOG4 | PUSH | DUP | SWAP | CREATE
| CALL | CALLCODE | RETURN | DELEGATECALL | STATICCALL | REVERT | SELFDESTRUCT.

(** The byte value of each constant. *)
Definition OpCode_byte (op : OpCode) : Z :=
  match op with
  | STOP => 0x00 | ADD => 0x01 | MUL => 0x02 | SUB => 0x03 | DIV => 0x04 | SDIV => 0x05
  | MOD => 0x06 | SMOD => 0x07 | ADDMOD => 0x08 | MULMOD => 0x09 | EXP => 0x0a | SIGNEXTEND => 0x0b
  | LT => 0x10 | GT => 0x11 | SLT => 0x12 | SGT => 0x13 | EQ => 0x14 | ISZERO => 0x15
  | AND => 0x16 | OR => 0x17 | XOR => 0x18 | NOT => 0x19 | BYTE => 0x1a | SHA3 => 0x20
  | ADDRESS => 0x30 | BALANCE => 0x31 | ORIGIN => 0x32 | CALLER => 0x33 | CALLVALUE => 0x34 | CALLDATALOAD => 0x35
  | CALLDATASIZE => 0x36 | CALLDATACOPY => 0x37 | CODESIZE => 0x38 | CODECOPY => 0x39 | GASPRICE => 0x3a | EXTCODESIZE => 0x3b
  | EXTCODECOPY => 0x3c | RETURNDATASIZE => 0x3d | RETURNDATACOPY => 0x3e | BLOCKHASH => 0x40 | COINBASE => 0x41 | TIMESTAMP => 0x42
  | NUMBER => 0x43 | DIFFICULTY => 0x44 | GASLIMIT => 0x45 | POP => 0x50 | MLOAD => 0x51 | MSTORE => 0x52
  | MSTORE8 => 0x53 | SLOAD => 0x54 | SSTORE => 0x55 | JUMP => 0x56 | JUMPI => 0x57 | PC => 0x58
  | MSIZE => 0x59 | GAS => 0x5a | JUMPDEST => 0x5b | PUSH1 => 0x60 | PUSH2 => 0x61 | PUSH3 => 0x62
  | PUSH4 => 0x63 | PUSH5 => 0x64 | PUSH6 => 0x65 | PUSH7 => 0x66 | PUSH8 => 0x67 | PUSH9 => 0x68
  | PUSH10 => 0x69 | PUSH11 => 0x6a | PUSH12 => 0x6b | PUSH13 => 0x6c | PUSH14 => 0x6d | PUSH15 => 0x6e
  | PUSH16 => 0x6f | PUSH17 => 0x70 | PUSH18 => 0x71 | PUSH19 => 0x72 | PUSH20 => 0x73 | PUSH21 => 0x74
  | PUSH22 => 0x75 | PUSH23 => 0x76 | PUSH24 => 0x77 | PUSH25 => 0x78 | PUSH26 => 0x79 | PUSH27 => 0x7a
  | PUSH28 => 0x7b | PUSH29 => 0x7c | PUSH30 => 0x7d | PUSH31 => 0x7e | PUSH32 => 0x7f | DUP1 => 0x80
  | DUP2 => 0x81 | DUP3 => 0x82 | DUP4 => 0x83 | DUP5 => 0x84 | DUP6 => 0x85 | DUP7 => 0x86
  | DUP8 => 0x87 | DUP9 => 0x88 | DUP10 => 0x89 | DUP11 => 0x8a | DUP12 => 0x8b | DUP13 => 0x8c
  | DUP14 => 0x8d | DUP15 => 0x8e | DUP16 => 0x8f | SWAP1 => 0x90 | SWAP2 => 0x91 | SWAP3 => 0x92
  | SWAP4 => 0x93 | SWAP5 => 0x94 | SWAP6 => 0x95 | SWAP7 => 0x96 | SWAP8 => 0x97 | SWAP9 => 0x98
  | SWAP10 => 0x99 | SWAP11 => 0x9a | SWAP12 => 0x9b | SWAP13 => 0x9c | SWAP14 => 0x9d | SWAP15 => 0x9e
  | SWAP16 => 0x9f | LOG0 => 0xa0 | LOG1 => 0xa1 | LOG2 => 0xa2 | LOG3 => 0xa3 | LOG4 => 0xa4
  | PUSH => 0xb0 | DUP => 0xb1 | SWAP => 0xb2 | CREATE => 0xf0 | CALL => 0xf1 | CALLCODE => 0xf2
  | RETURN => 0xf3 | DELEGATECALL => 0xf4 | STATICCALL => 0xfa | REVERT => 0xfd | SELFDESTRUCT => 0xff
  end.

Definition all_opcodes : list OpCode :=
  [STOP; ADD; MUL; SUB; DIV; SDIV; MOD; SMOD; ADDMOD; MULMOD;
   EXP; SIGNEXTEND; LT; GT; SLT; SGT; EQ; ISZERO; AND; OR;
   XOR; NOT; BYTE; SHA3; ADDRESS; BALANCE; ORIGIN; CALLER; CALLVALUE; CALLDATALOAD;
   CALLDATASIZE; CALLDATACOPY; CODESIZE; CODECOPY; GASPRICE; EXTCODESIZE; EXTCODECOPY; RETURNDATASIZE; RETURNDATACOPY; BLOCKHASH;
   COINBASE; TIMESTAMP; NUMBER; DIFFICULTY; GASLIMIT; POP; MLOAD; MSTORE; MSTORE8; SLOAD;
   SSTORE; JUMP; JUMPI; PC; MSIZE; GAS; JUMPDEST; PUSH1; PUSH2; PUSH3;
   PUSH4; PUSH5; PUSH6; PUSH7; PUSH8; PUSH9; PUSH10; PUSH11; PUSH12; PUSH13;
   PUSH14; PUSH15; PUSH16; PUSH17; PUSH18; PUSH19; PUSH20; PUSH21; PUSH22; PUSH23;
   PUSH24; PUSH25; PUSH26; PUSH27; PUSH28; PUSH29; PUSH30; PUSH31; PUSH32; DUP1;
   DUP2; DUP3; DUP4; DUP5; DUP6; DUP7; DUP8; DUP9; DUP10; DUP11;
   DUP12; DUP13; DUP14; DUP15; DUP16; SWAP1; SWAP2; SWAP3; SWAP4; SWAP5;
   SWAP6; SWAP7; SWAP8; SWAP9; SWAP10; SWAP11; SWAP12; SWAP13; SWAP14; SWAP15;
   SWAP16; LOG0; LOG1; LOG2; LOG3; LOG4; PUSH; DUP; SWAP; CREATE;
   CALL; CALLCODE; RETURN; DELEGATECALL; STATICCALL; REVERT; SELFDESTRUCT].

Definition OpCode_of_byte (b : byte) : option OpCode :=
  List.find (λ op, OpCode_byte op =? byteZ b) all_opcodes.

(** ** errors of package evm *)
Inductive evm_error : Type :=
| ErrOutOfGas
| ErrCodeStoreOutOfGas
| ErrDepth
| ErrInsufficientBalance
| ErrContractAddressCollision
| errGasUintOverflow
| errWriteProtection
| errReturnDataOutOfBounds
| errExecutionReverted
| errMaxCodeSizeExceeded
| errStackUnderflow (have need : Z)
| errStackLimit (have : Z)
| errInvalidOpcode (op : Z)
| errInvalidJump (nop : Z) (pos : Z)
| errPrecompile (code : Z).

#[global] Instance evm_error_eq_dec : EqDecision evm_error.
Proof. solve_decision. Defined.

(** ** gas.go: the step costs *)
Definition GasQuickStep : Z := 2.
Definition GasFastestStep : Z := 3.
Definition GasFastStep : Z := 5.
Definition GasMidStep : Z := 8.
Definition GasSlowStep : Z := 10.
Definition GasExtStep : Z := 20.

(** ** config.go: the protocol parameters the VM uses *)
Definition CallValueTransferGas : Z := 9000.
Definition CallNewAccountGas : Z := 25000.
Definition TxGas : Z := 10.
Definition TxGasContractCreation : Z := 53000.
Definition TxDataZeroGas : Z := 1.
Definition QuadCoeffDiv : Z := 512.
Definition SstoreSetGas : Z := 20000.
Definition LogDataGas : Z := 8.
Definition CallStipend : Z := 2300.
Definition Sha3Gas : Z := 30.
Definition Sha3WordGas : Z := 6.
Definition SstoreResetGas : Z := 5000.
Definition SstoreClearGas : Z := 5000.
Definition SstoreRefundGas : Z := 15000.
Definition JumpdestGas : Z := 1.
Definition CreateDataGas : Z := 200.
Definition CallCreateDepth : Z := 1024.
Definition LogGas : Z := 375.
Definition CopyGas : Z := 3.
Definition StackLimit : Z := 1024.
Definition LogTopicGas : Z := 375.
Definition CreateGas : Z := 32000.
Definition SuicideRefundGas : Z := 24000.
Definition MemoryGas : Z := 3.
Definition TxDataNonZeroGas : Z := 1.
Definition MaxCodeSize : Z := 24576.

(** ** vmconfig.go *)
Record GasTable : Type := {
  gt_ExtcodeSize : Z;
  gt_ExtcodeCopy : Z;
  gt_Balance : Z;
  gt_SLoad : Z;
  gt_Calls : Z;
  gt_Suicide : Z;
  gt_ExpByte : Z;
  gt_CreateBySuicide : Z }.

Definition GasTableEIP158 : GasTable := {|
  gt_ExtcodeSize := 700;
  gt_ExtcodeCopy := 700;
  gt_Balance := 400;
  gt_SLoad := 200;
  gt_Calls := 700;
  gt_Suicide := 5000;
  gt_ExpByte := 50;
  gt_CreateBySuicide := 25000 |}.

(** ** Lemmas *)

Lemma OpCode_byte_range op : 0 ≤ OpCode_byte op < 256.
Proof. destruct op; simpl; lia. Qed.

Lemma OpCode_of_byte_byte op : OpCode_of_byte (Zbyte (OpCode_byte op)) = Some op.
Proof. destruct op; vm_compute; reflexivity. Qed.

Lemma OpCode_of_byte_Some b op : OpCode_of_byte b = Some op → byteZ b = OpCode_byte op.
Proof.
  unfold OpCode_of_byte. intros [_ H]%List.find_some. by zbool.
Qed.

Lemma OpCode_byte_inj op1 op2 : OpCode_byte op1 = OpCode_byte op2 → op1 = op2.
Proof.
  intros H. enough (Some op1 = Some op2) by congruence.
  by rewrite <- !OpCode_of_byte_byte, H.
Qed.

#[global] Instance OpCode_eq_dec : EqDecision OpCode.
Proof.
  intros x y. destruct (decide (OpCode_byte x = OpCode_byte y)) as [E|E].
  - left. by apply OpCode_byte_inj.
  - right. congruence.
Defined.
