(* ===== verification/EvmMachine.v ===== *)
(** * The state the EVM runs on

    The interface the EVM expects of the state database
    ([src/hvm/evm/interface.go]), the stack ([stack.go], [stack_table.go]),
    the memory ([memory.go]), the contract of a frame ([contract.go]) and the
    EVM object ([evm.go]), with the state monad the instructions are written
    in.  Integer-pool recycling ([intpool.go]) has no observable effect: every
    instruction puts back only integers it popped, so an integer on the stack
    is never shared, and stack items are values. *)

From stdpp Require Import base tactics list numbers gmap.
From S2P Require Import Prelude GoMath EvmParams.

#[local] Open Scope Z_scope.

(** ** interface.go *)

Record Log : Type := {
  log_Address : Address;
  log_Topics : list Hash;
  log_Data : list byte;
  log_BlockNumber : Z }.

(** The state database as the EVM sees it.  Read methods return the database
    too: the implementation caches what it loads.  [RevertToSnapshot] panics
    on a revision it does not know, hence the [option].  The interface's
    [ForEachStorage] is not called by the EVM. *)
Class StateDB (DB : Type) : Type := {
  CreateAccount : Address → DB → DB;
  SubBalance : Address → Z → DB → DB;
  AddBalance : Address → Z → DB → DB;
  GetBalance : Address → DB → DB * Z;
  GetNonce : Address → DB → DB * Z;
  SetNonce : Address → Z → DB → DB;
  GetCodeHash : Address → DB → DB * Hash;
  GetCode : Address → DB → DB * list byte;
  SetCode : Address → list byte → DB → DB;
  GetCodeSize : Address → DB → DB * Z;
  AddRefund : Z → DB → DB;
  GetRefund : DB → Z;
  GetState : Address → Hash → DB → DB * Hash;
  SetState : Address → Hash → Hash → DB → DB;
  Suicide : Address → DB → DB * bool;
  HasSuicided : Address → DB → DB * bool;
  Exist : Address → DB → DB * bool;
  Empty : Address → DB → DB * bool;
  RevertToSnapshot : Z → DB → option DB;
  Snapshot : DB → DB * Z;
  AddLog : Log → DB → DB;
  AddPreimage : Hash → list byte → DB → DB }.

(** ** stack.go: the head of the list is the top, [st.data\[len-1\]] *)

Abbreviation Stack := (list Z) (only parsing).

Definition Stack_push (d : Z) (st : Stack) : Stack := d :: st.
Definition Stack_pop (st : Stack) : option (Z * Stack) :=
  match st with d :: st' => Some (d, st') | [] => None end.
(** [swap(n)] exchanges the top with the [n]-th item from the top. *)
Definition Stack_swap (n : nat) (st : Stack) : option Stack :=
  match st !! (n - 1)%nat, st !! 0%nat with
  | Some x, Some y => Some (<[0%nat := x]> (<[(n - 1)%nat := y]> st))
  | _, _ => None
  end.
Definition Stack_dup (n : nat) (st : Stack) : option Stack :=
  match st !! (n - 1)%nat with Some x => Some (x :: st) | None => None end.
Definition Stack_peek (st : Stack) : option Z := st !! 0%nat.
Definition Stack_Back (n : nat) (st : Stack) : option Z := st !! n.
Definition Stack_require (n : Z) (st : Stack) : option evm_error :=
  if Zlen st <? n then Some (errStackUnderflow (Zlen st) n) else None.

(** ** stack_table.go *)

Definition stackValidationFunc : Type := Stack → option evm_error.
Definition makeStackFunc (pop push : Z) : stackValidationFunc := λ stack,
  match Stack_require pop stack with
  | Some err => Some err
  | None =>
      if Zlen stack + push - pop >? StackLimit
      then Some (errStackLimit (Zlen stack)) else None
  end.
Definition makeDupStackFunc (n : Z) : stackValidationFunc := makeStackFunc n (n + 1).
Definition makeSwapStackFunc (n : Z) : stackValidationFunc := makeStackFunc n n.

(** ** memory.go *)

Record Memory : Type := mkMemory { store : list byte; lastGasCost : Z }.
Definition NewMemory : Memory := mkMemory [] 0.
Definition Memory_Len (m : Memory) : Z := Zlen (store m).

(** [None] is a run-time panic.  Go checks a slice bound against the capacity
    of the backing array; the model uses the length, its lower bound. *)
Definition Memory_Set (offset size : Z) (value : list byte) (m : Memory) : option Memory :=
  if size >? Memory_Len m then None
  else if size >? 0 then
    let e := u64 (offset + size) in
    if (offset <=? e) && (e <=? Memory_Len m) then
      let o := Z.to_nat offset in
      Some (mkMemory (take o (store m) ++
                      go_copy (slice offset e (store m)) value ++
                      drop (Z.to_nat e) (store m)) (lastGasCost m))
    else None
  else Some m.

Definition Memory_Resize (size : Z) (m : Memory) : Memory :=
  if Memory_Len m <? size
  then mkMemory (store m ++ zeros (size - Memory_Len m)) (lastGasCost m)
  else m.

(** [offset] and [size] are [int64] here. *)
Definition Memory_GetPtr (offset size : Z) (m : Memory) : option (list byte) :=
  if size =? 0 then Some []
  else if Memory_Len m >? offset then
    let e := i64 (offset + size) in
    if (0 <=? offset) && (offset <=? e) && (e <=? Memory_Len m)
    then Some (slice offset e (store m)) else None
  else Some [].
Definition Memory_Get (offset size : Z) (m : Memory) : option (list byte) :=
  if size =? 0 then Some []
  else if Memory_Len m >? offset then
    if size <? 0 then None
    else
      let e := i64 (offset + size) in
      if (0 <=? offset) && (offset <=? e) && (e <=? Memory_Len m)
      then Some (go_copy (zeros size) (slice offset e (store m))) else None
  else Some [].

(** ** contract.go *)

(** A contract reference is an account or another contract; of the latter
    only the fields the code reads through the reference are kept. *)
Inductive ContractRef : Type :=
| AccountRef (a : Address)
| ContractPtr (addr caller_address : Address) (val : option Z).
Definition ref_Address (r : ContractRef) : Address :=
  match r with AccountRef a => a | ContractPtr a _ _ => a end.

Record Contract : Type := mkContract {
  CallerAddress : Address;
  caller : ContractRef;
  self : ContractRef;
  Code : list byte;
  CodeHash : Hash;
  CodeAddr : option Address;
  Input : list byte;
  Gas : Z;
  value : option Z;
  DelegateCall : bool }.

Definition Contract_Address (c : Contract) : Address := ref_Address (self c).
(** A [*Contract] used as a [ContractRef]. *)
Definition Contract_ref (c : Contract) : ContractRef :=
  ContractPtr (Contract_Address c) (CallerAddress c) (value c).

Definition set_Gas (g : Z) (c : Contract) : Contract :=
  mkContract (CallerAddress c) (caller c) (self c) (Code c) (CodeHash c)
    (CodeAddr c) (Input c) g (value c) (DelegateCall c).
Definition set_Input (i : list byte) (c : Contract) : Contract :=
  mkContract (CallerAddress c) (caller c) (self c) (Code c) (CodeHash c)
    (CodeAddr c) i (Gas c) (value c) (DelegateCall c).

(** [NewContract] without its choice of the jump-destination cache, which
    [new_jumpdests] makes. *)
Definition NewContract (clr object : ContractRef) (val : option Z) (gas : Z) : Contract :=
  mkContract (ref_Address clr) clr object [] 0 None [] gas val false.

(** [AsDelegate] asserts that the caller is a contract, and panics if not. *)
Definition AsDelegate (c : Contract) : option Contract :=
  match caller c with
  | ContractPtr _ ca v =>
      Some (mkContract ca (caller c) (self c) (Code c) (CodeHash c)
              (CodeAddr c) (Input c) (Gas c) v true)
  | AccountRef _ => None
  end.

Definition GetByte (n : Z) (c : Contract) : byte :=
  if n <? Zlen (Code c) then nth (Z.to_nat n) (Code c) Byte.x00 else Byte.x00.
Definition GetOp (n : Z) (c : Contract) : byte := GetByte n c.

Definition UseGas (gas : Z) (c : Contract) : Contract * bool :=
  if Gas c <? gas then (c, false) else (set_Gas (u64 (Gas c - gas)) c, true).

Definition SetCallCode (addr : Address) (hash : Hash) (code : list byte) (c : Contract) : Contract :=
  mkContract (CallerAddress c) (caller c) (self c) code hash
    (Some addr) (Input c) (Gas c) (value c) (DelegateCall c).

(** ** evm.go: context, configuration and the EVM object *)

(** Block and message information; [CanTransfer] and [Transfer] are function
    fields, as in the source. *)
Record Context (DB : Type) : Type := mkContext {
  CanTransfer : Address → Z → DB → DB * bool;
  Transfer : Address → Address → Z → DB → DB;
  GetHash : Z → Hash;
  Origin : Address;
  GasPrice : Z;
  Coinbase : Address;
  GasLimit : Z;
  BlockNumber : Z;
  Time : Z;
  Difficulty : Z }.
Arguments mkContext {DB} _ _ _ _ _ _ _ _ _ _.
Arguments CanTransfer {DB} _ _ _ _.
Arguments Transfer {DB} _ _ _ _ _.
Arguments GetHash {DB} _ _.
Arguments Origin {DB} _.
Arguments GasPrice {DB} _.
Arguments Coinbase {DB} _.
Arguments GasLimit {DB} _.
Arguments BlockNumber {DB} _.
Arguments Time {DB} _.
Arguments Difficulty {DB} _.

(** The configuration switches that change execution ([Debug] and [Tracer]
    only observe it; the jump table is always the Byzantium one). *)
Record Config : Type := {
  NoRecursion : bool;
  DisableGasMetering : bool;
  EnablePreimageRecording : bool }.
Definition default_Config : Config := {|
  NoRecursion := false; DisableGasMetering := false; EnablePreimageRecording := false |}.

(** A native contract: its price and its result or error. *)
Record PrecompiledContract : Type := {
  RequiredGas : list byte → Z;
  Precompiled_Run : list byte → list byte * option evm_error }.

(** What does not change while an EVM runs: context, configuration, gas
    table, and the hash function and native contracts it calls. *)
Record Env (DB : Type) : Type := mkEnv {
  ctx : Context DB;
  vmConfig : Config;
  gasTable : GasTable;
  Keccak256Hash : list byte → Hash;
  CreateAddress : Address → Z → Address;
  precompiles : Address → option PrecompiledContract }.
Arguments mkEnv {DB} _ _ _ _ _ _.
Arguments ctx {DB} _.
Arguments vmConfig {DB} _.
Arguments gasTable {DB} _.
Arguments Keccak256Hash {DB} _ _.
Arguments CreateAddress {DB} _ _ _.
Arguments precompiles {DB} _ _.

(** The mutable part of the EVM and its interpreter.  [dests] is the [jumpdests] map
    all contracts of one call tree share. *)
Record EVM (DB : Type) : Type := mkEVM {
  stateDB : DB;
  depth : Z;
  readOnly : bool;
  returnData : list byte;
  dests : gmap Z (list byte);
  abort : bool }.
Arguments mkEVM {DB} _ _ _ _ _ _.
Arguments stateDB {DB} _.
Arguments depth {DB} _.
Arguments readOnly {DB} _.
Arguments returnData {DB} _.
Arguments dests {DB} _.
Arguments abort {DB} _.

(** A running frame: the local variables of [Interpreter.Run]. *)
Record Frame (DB : Type) : Type := mkFrame {
  pc : Z;
  stack : Stack;
  memory : Memory;
  contract : Contract;
  evm : EVM DB }.
Arguments mkFrame {DB} _ _ _ _ _.
Arguments pc {DB} _.
Arguments stack {DB} _.
Arguments memory {DB} _.
Arguments contract {DB} _.
Arguments evm {DB} _.

Section machine.
Context {DB : Type}.

Definition set_stateDB (db : DB) (e : EVM DB) : EVM DB :=
  mkEVM db (depth e) (readOnly e) (returnData e) (dests e) (abort e).
Definition set_depth (d : Z) (e : EVM DB) : EVM DB :=
  mkEVM (stateDB e) d (readOnly e) (returnData e) (dests e) (abort e).
Definition set_readOnly (r : bool) (e : EVM DB) : EVM DB :=
  mkEVM (stateDB e) (depth e) r (returnData e) (dests e) (abort e).
Definition set_returnData (r : list byte) (e : EVM DB) : EVM DB :=
  mkEVM (stateDB e) (depth e) (readOnly e) r (dests e) (abort e).
Definition set_jumpdests (j : gmap Z (list byte)) (e : EVM DB) : EVM DB :=
  mkEVM (stateDB e) (depth e) (readOnly e) (returnData e) j (abort e).

(** [Cancel] raises the flag the run loop polls. *)
Definition Cancel (e : EVM DB) : EVM DB :=
  mkEVM (stateDB e) (depth e) (readOnly e) (returnData e) (dests e) true.

(** The other half of [NewContract]: a contract called by a contract reuses
    its caller's jump-destination cache, any other starts an empty one. *)
Definition new_jumpdests (clr : ContractRef) (e : EVM DB) : EVM DB :=
  match clr with ContractPtr _ _ _ => e | AccountRef _ => set_jumpdests ∅ e end.

(** The monad of the instructions. *)
Definition X (A : Type) : Type := M (Frame DB) evm_error A.
#[global] Instance X_ret : MRet X := M_ret (Frame DB) evm_error.
#[global] Instance X_bind : MBind X := M_bind (Frame DB) evm_error.

Definition set_pc (p : Z) : X unit := modify (λ f,
  mkFrame p (stack f) (memory f) (contract f) (evm f)).
Definition set_stack (st : Stack) : X unit := modify (λ f,
  mkFrame (pc f) st (memory f) (contract f) (evm f)).
Definition set_memory (m : Memory) : X unit := modify (λ f,
  mkFrame (pc f) (stack f) m (contract f) (evm f)).
Definition set_contract (c : Contract) : X unit := modify (λ f,
  mkFrame (pc f) (stack f) (memory f) c (evm f)).
Definition set_evm (e : EVM DB) : X unit := modify (λ f,
  mkFrame (pc f) (stack f) (memory f) (contract f) e).

Definition push (d : Z) : X unit :=
  st ← gets stack; set_stack (Stack_push d st).
Definition pop : X Z :=
  st ← gets stack;
  r ← or_panic (Stack_pop st);
  set_stack (snd r);; mret (fst r).
Definition Back (n : nat) : X Z :=
  st ← gets stack; or_panic (Stack_Back n st).

Definition mem_Set (offset size : Z) (v : list byte) : X unit :=
  m ← gets memory; m' ← or_panic (Memory_Set offset size v m); set_memory m'.
Definition mem_Get (offset size : Z) : X (list byte) :=
  m ← gets memory; or_panic (Memory_Get offset size m).
Definition mem_GetPtr (offset size : Z) : X (list byte) :=
  m ← gets memory; or_panic (Memory_GetPtr offset size m).

(** A call of a state-database method. *)
Definition db_read {A} (f : DB → DB * A) : X A :=
  e ← gets evm;
  let '(db, a) := f (stateDB e) in
  set_evm (set_stateDB db e);; mret a.
Definition db_write (f : DB → DB) : X unit :=
  e ← gets evm; set_evm (set_stateDB (f (stateDB e)) e).
End machine.
