(* ===== verification/EvmGas.v ===== *)
(** * Memory sizes and gas costs

    [src/hvm/evm/common.go], [memory_table.go], [gas.go] and [gas_table.go].
    A gas function returns the cost; it may also update the memory's recorded
    fee, the refund counter, and (for calls) the gas argument on the stack. *)

From stdpp Require Import base tactics list numbers gmap.
From S2P Require Import Prelude GoMath EvmParams EvmMachine.

#[local] Open Scope Z_scope.

(** ** common.go *)

Definition calcMemSize (off l : Z) : Z :=
  if big_Sign l =? 0 then 0 else off + l.

(** [data\[start:end\]] right-padded to [size].  The sum [start + size] wraps;
    [None] is the panic of a slice whose end is before its start. *)
Definition getData (data : list byte) (start size : Z) : option (list byte) :=
  let length := Zlen data in
  let start := if start >? length then length else start in
  let e := u64 (start + size) in
  let e := if e >? length then length else e in
  if start <=? e then Some (RightPadBytes (slice start e data) (i64 size)) else None.

Definition getDataBig (data : list byte) (start size : Z) : list byte :=
  let dlen := Zlen data in
  let s := BigMin start dlen in
  let e := BigMin (s + size) dlen in
  RightPadBytes (slice (big_Uint64 s) (big_Uint64 e) data) (i64 (big_Uint64 size)).

Definition bigUint64 (v : Z) : Z * bool := (big_Uint64 v, BitLen v >? 64).

Definition toWordSize (size : Z) : Z :=
  if size >? MaxUint64 - 31 then MaxUint64 / 32 + 1 else (size + 31) / 32.

Definition allZero (b : list byte) : bool := forallb (λ x, byteZ x =? 0) b.

Section gas.
Context {DB : Type} {db_ops : StateDB DB} (env : Env DB).

#[local] Abbreviation X := (@X DB).

(** ** memory_table.go *)

Definition memorySha3 : X Z := o ← Back 0; l ← Back 1; mret (calcMemSize o l).
Definition memoryCallDataCopy : X Z := o ← Back 0; l ← Back 2; mret (calcMemSize o l).
Definition memoryReturnDataCopy : X Z := o ← Back 0; l ← Back 2; mret (calcMemSize o l).
Definition memoryCodeCopy : X Z := o ← Back 0; l ← Back 2; mret (calcMemSize o l).
Definition memoryExtCodeCopy : X Z := o ← Back 1; l ← Back 3; mret (calcMemSize o l).
Definition memoryMLoad : X Z := o ← Back 0; mret (calcMemSize o 32).
Definition memoryMStore8 : X Z := o ← Back 0; mret (calcMemSize o 1).
Definition memoryMStore : X Z := o ← Back 0; mret (calcMemSize o 32).
Definition memoryCreate : X Z := o ← Back 1; l ← Back 2; mret (calcMemSize o l).
Definition memoryCall : X Z :=
  o1 ← Back 5; l1 ← Back 6;
  let x := calcMemSize o1 l1 in
  o2 ← Back 3; l2 ← Back 4;
  let y := calcMemSize o2 l2 in
  mret (BigMax x y).
Definition memoryDelegateCall : X Z :=
  o1 ← Back 4; l1 ← Back 5;
  let x := calcMemSize o1 l1 in
  o2 ← Back 2; l2 ← Back 3;
  let y := calcMemSize o2 l2 in
  mret (BigMax x y).
Definition memoryStaticCall : X Z :=
  o1 ← Back 4; l1 ← Back 5;
  let x := calcMemSize o1 l1 in
  o2 ← Back 2; l2 ← Back 3;
  let y := calcMemSize o2 l2 in
  mret (BigMax x y).
Definition memoryReturn : X Z := o ← Back 0; l ← Back 1; mret (calcMemSize o l).
Definition memoryRevert : X Z := o ← Back 0; l ← Back 1; mret (calcMemSize o l).
Definition memoryLog : X Z :=
  mSize ← Back 1; mStart ← Back 0; mret (calcMemSize mStart mSize).

(** ** gas.go *)

Definition callGas (gt : GasTable) (availableGas base callCost : Z) : outcome evm_error Z :=
  let eip150 :=
    if gt_CreateBySuicide gt >? 0 then
      let availableGas := u64 (availableGas - base) in
      let gas := u64 (availableGas - availableGas / 64) in
      if (BitLen callCost >? 64) || (gas <? big_Uint64 callCost) then Some gas else None
    else None in
  match eip150 with
  | Some gas => Val gas
  | None =>
      if BitLen callCost >? 64 then Err errGasUintOverflow else Val (big_Uint64 callCost)
  end.

(** ** gas_table.go *)

(** The overflow checks of the gas functions. *)
Definition safe (r : Z * bool) : X Z :=
  if snd r then fail errGasUintOverflow else mret (fst r).
Definition lift {A} (o : outcome evm_error A) : X A := λ f, (f, o).

Definition memoryGasCost (mem : Memory) (newMemSize : Z) : Memory * outcome evm_error Z :=
  if newMemSize =? 0 then (mem, Val 0)
  else if newMemSize >? 0xffffffffe0 then (mem, Err errGasUintOverflow)
  else
    let newMemSizeWords := toWordSize newMemSize in
    let newMemSize := u64 (newMemSizeWords * 32) in
    if newMemSize >? Memory_Len mem then
      let square := u64 (newMemSizeWords * newMemSizeWords) in
      let linCoef := u64 (newMemSizeWords * MemoryGas) in
      let quadCoef := square / QuadCoeffDiv in
      let newTotalFee := u64 (linCoef + quadCoef) in
      let fee := u64 (newTotalFee - lastGasCost mem) in
      (mkMemory (store mem) newTotalFee, Val fee)
    else (mem, Val 0).
Definition mem_GasCost (newMemSize : Z) : X Z :=
  m ← gets memory;
  let '(m', r) := memoryGasCost m newMemSize in
  set_memory m';; lift r.

(** The last parameter of every gas function is the memory size. *)
Definition gasFunc : Type := Z → X Z.

Definition constGasFunc (gas : Z) : gasFunc := λ _, mret gas.

Definition gasCallDataCopy : gasFunc := λ memorySize,
  gas ← mem_GasCost memorySize;
  gas ← safe (SafeAdd gas GasFastestStep);
  l ← Back 2; words ← safe (bigUint64 l);
  words ← safe (SafeMul (toWordSize words) CopyGas);
  safe (SafeAdd gas words).

Definition gasReturnDataCopy : gasFunc := λ memorySize,
  gas ← mem_GasCost memorySize;
  gas ← safe (SafeAdd gas GasFastestStep);
  l ← Back 2; words ← safe (bigUint64 l);
  words ← safe (SafeMul (toWordSize words) CopyGas);
  safe (SafeAdd gas words).

Definition gasSStore : gasFunc := λ memorySize,
  y ← Back 1; x ← Back 0;
  c ← gets contract;
  val ← db_read (GetState (Contract_Address c) (BigToHash x));
  if EmptyHash val && negb (EmptyHash (BigToHash y)) then mret SstoreSetGas
  else if negb (EmptyHash val) && EmptyHash (BigToHash y) then
    db_write (AddRefund SstoreRefundGas);; mret SstoreClearGas
  else mret SstoreResetGas.

Definition makeGasLog (n : Z) : gasFunc := λ memorySize,
  l ← Back 1; requestedSize ← safe (bigUint64 l);
  gas ← mem_GasCost memorySize;
  gas ← safe (SafeAdd gas LogGas);
  gas ← safe (SafeAdd gas (u64 (n * LogTopicGas)));
  memorySizeGas ← safe (SafeMul requestedSize LogDataGas);
  safe (SafeAdd gas memorySizeGas).

Definition gasSha3 : gasFunc := λ memorySize,
  gas ← mem_GasCost memorySize;
  gas ← safe (SafeAdd gas Sha3Gas);
  l ← Back 1; wordGas ← safe (bigUint64 l);
  wordGas ← safe (SafeMul (toWordSize wordGas) Sha3WordGas);
  safe (SafeAdd gas wordGas).

Definition gasCodeCopy : gasFunc := λ memorySize,
  gas ← mem_GasCost memorySize;
  gas ← safe (SafeAdd gas GasFastestStep);
  l ← Back 2; wordGas ← safe (bigUint64 l);
  wordGas ← safe (SafeMul (toWordSize wordGas) CopyGas);
  safe (SafeAdd gas wordGas).

Definition gasExtCodeCopy : gasFunc := λ memorySize,
  gas ← mem_GasCost memorySize;
  gas ← safe (SafeAdd gas (gt_ExtcodeCopy (gasTable env)));
  l ← Back 3; wordGas ← safe (bigUint64 l);
  wordGas ← safe (SafeMul (toWordSize wordGas) CopyGas);
  safe (SafeAdd gas wordGas).

(** Any error of [memoryGasCost] is the overflow error these three return. *)
Definition gasMLoad : gasFunc := λ memorySize,
  gas ← mem_GasCost memorySize; safe (SafeAdd gas GasFastestStep).
Definition gasMStore8 : gasFunc := λ memorySize,
  gas ← mem_GasCost memorySize; safe (SafeAdd gas GasFastestStep).
Definition gasMStore : gasFunc := λ memorySize,
  gas ← mem_GasCost memorySize; safe (SafeAdd gas GasFastestStep).

Definition gasCreate : gasFunc := λ memorySize,
  gas ← mem_GasCost memorySize; safe (SafeAdd gas CreateGas).

Definition gasBalance : gasFunc := λ _, mret (gt_Balance (gasTable env)).
Definition gasExtCodeSize : gasFunc := λ _, mret (gt_ExtcodeSize (gasTable env)).
Definition gasSLoad : gasFunc := λ _, mret (gt_SLoad (gasTable env)).

Definition gasExp : gasFunc := λ _,
  e ← Back 1;
  let expByteLen := u64 ((BitLen e + 7) / 8) in
  let gas := u64 (expByteLen * gt_ExpByte (gasTable env)) in
  safe (SafeAdd gas GasSlowStep).

(** [stack.data\[stack.len()-1\] = ...] *)
Definition set_top (v : Z) : X unit :=
  st ← gets stack;
  match st with _ :: st' => set_stack (v :: st') | [] => panic end.

(** The end of the four call costs: the 63/64 rule, written back on the
    stack and added to the base cost. *)
Definition finish_call_gas (gas : Z) : X Z :=
  c ← gets contract;
  req ← Back 0;
  cg ← lift (callGas (gasTable env) (Gas c) gas req);
  set_top cg;;
  safe (SafeAdd gas cg).

Definition gasCall : gasFunc := λ memorySize,
  let gas := gt_Calls (gasTable env) in
  v ← Back 2;
  let transfersValue := negb (big_Sign v =? 0) in
  a ← Back 1;
  let address := BigToAddress a in
  newAccount ← (if transfersValue then db_read (A:=bool) (Empty address) else mret false);
  let gas := if (newAccount : bool) then u64 (gas + CallNewAccountGas) else gas in
  let gas := if transfersValue then u64 (gas + CallValueTransferGas) else gas in
  memoryGas ← mem_GasCost memorySize;
  gas ← safe (SafeAdd gas memoryGas);
  finish_call_gas gas.

Definition gasCallCode : gasFunc := λ memorySize,
  let gas := gt_Calls (gasTable env) in
  v ← Back 2;
  let gas := if negb (big_Sign v =? 0) then u64 (gas + CallValueTransferGas) else gas in
  memoryGas ← mem_GasCost memorySize;
  gas ← safe (SafeAdd gas memoryGas);
  finish_call_gas gas.

Definition gasReturn : gasFunc := λ memorySize, mem_GasCost memorySize.
Definition gasRevert : gasFunc := λ memorySize, mem_GasCost memorySize.

Definition gasSuicide : gasFunc := λ _,
  let gas := gt_Suicide (gasTable env) in
  a ← Back 0;
  let address := BigToAddress a in
  c ← gets contract;
  isEmpty ← db_read (Empty address);
  transfers ← (if (isEmpty : bool) then
                 b ← db_read (GetBalance (Contract_Address c)); mret (negb (big_Sign b =? 0))
               else mret false);
  let gas := if (transfers : bool) then u64 (gas + gt_CreateBySuicide (gasTable env)) else gas in
  dead ← db_read (HasSuicided (Contract_Address c));
  (if (dead : bool) then mret tt else db_write (AddRefund SuicideRefundGas));;
  mret gas.

Definition gasDelegateCall : gasFunc := λ memorySize,
  gas ← mem_GasCost memorySize;
  gas ← safe (SafeAdd gas (gt_Calls (gasTable env)));
  finish_call_gas gas.
Definition gasStaticCall : gasFunc := λ memorySize,
  gas ← mem_GasCost memorySize;
  gas ← safe (SafeAdd gas (gt_Calls (gasTable env)));
  finish_call_gas gas.

Definition gasPush : gasFunc := λ _, mret GasFastestStep.
Definition gasSwap : gasFunc := λ _, mret GasFastestStep.
Definition gasDup : gasFunc := λ _, mret GasFastestStep.
End gas.
