(* ===== verification/EvmAnalysis.v ===== *)
(** * Jump-destination analysis

    [src/hvm/evm/analysis.go]: a bit vector marks the [JUMPDEST] bytes of a
    contract that start an instruction, and is cached by code hash.  The
    specification is an inductive description of instruction boundaries. *)

From stdpp Require Import base tactics list numbers gmap.
From S2P Require Import Prelude GoMath EvmParams EvmMachine.

#[local] Open Scope Z_scope.

Definition is_JUMPDEST (b : byte) : bool := byteZ b =? OpCode_byte JUMPDEST.
Definition is_PUSH (b : byte) : bool :=
  (OpCode_byte PUSH1 <=? byteZ b) && (byteZ b <=? OpCode_byte PUSH32).

(** [m\[pc/8\] |= 1 << (pc%8)] *)
Definition set_bit (pc : nat) (m : list byte) : list byte :=
  alter (λ b, Zbyte (Z.lor (byteZ b) (Z.shiftl 1 (Z.of_nat (pc mod 8))))) (pc / 8)%nat m.

(** The loop of [jumpdests] at [pc].  Each round advances [pc], so
    [length code] rounds are enough. *)
Fixpoint jumpdests_loop (fuel : nat) (code : list byte) (pc : nat) (m : list byte) : list byte :=
  match fuel with
  | O => m
  | S fuel' =>
      match code !! pc with
      | None => m
      | Some op =>
          if is_JUMPDEST op then jumpdests_loop fuel' code (pc + 1) (set_bit pc m)
          else if is_PUSH op then
            let a := byteZ op - OpCode_byte PUSH1 + 1 in
            jumpdests_loop fuel' code (pc + Z.to_nat a + 1) m
          else jumpdests_loop fuel' code (pc + 1) m
      end
  end.
Definition jumpdests (code : list byte) : list byte :=
  jumpdests_loop (length code) code 0 (zeros (Zlen code / 8 + 1)).

(** [m\[udest/8\] & (1 << (udest%8)) != 0], or the panic of the index. *)
Definition test_bit (m : list byte) (udest : Z) : option bool :=
  match m !! Z.to_nat (udest / 8) with
  | Some b => Some (negb (Z.land (byteZ b) (Z.shiftl 1 (udest mod 8)) =? 0))
  | None => None
  end.

(** The method [destinations.has]: the new cache and the answer. *)
Definition has (d : gmap Z (list byte)) (codehash : Hash) (code : list byte) (dest : Z)
    : gmap Z (list byte) * option bool :=
  let udest := big_Uint64 dest in
  if (BitLen dest >=? 63) || (udest >=? Zlen code) then (d, Some false)
  else
    match d !! codehash with
    | Some m => (d, test_bit m udest)
    | None =>
        let m := jumpdests code in
        (<[codehash := m]> d, test_bit m udest)
    end.

(** ** Specification *)

(** [boundary code s n]: execution that starts at [s] and steps over push
    data can have an instruction at [n]. *)
Inductive boundary (code : list byte) (s : nat) : nat → Prop :=
| boundary_start : boundary code s s
| boundary_push n op : boundary code s n → code !! n = Some op → is_PUSH op = true →
    boundary code s (n + Z.to_nat (byteZ op - OpCode_byte PUSH1 + 1) + 1)
| boundary_next n op : boundary code s n → code !! n = Some op → is_PUSH op = false →
    boundary code s (n + 1).

Definition valid_jumpdest (code : list byte) (n : nat) : Prop :=
  boundary code 0 n ∧ code !! n = Some (Zbyte (OpCode_byte JUMPDEST)).

(** [known h code]: [code] has hash [h].  Every cached vector is the analysis
    of a code with that hash. *)
Definition cache_ok (known : Z → list byte → Prop) (d : gmap Z (list byte)) : Prop :=
  ∀ h m, d !! h = Some m → ∃ code, known h code ∧ m = jumpdests code.

(** ** Lemmas *)

Lemma is_JUMPDEST_true b : is_JUMPDEST b = true ↔ b = Zbyte (OpCode_byte JUMPDEST).
Proof.
  unfold is_JUMPDEST. rewrite Z.eqb_eq. split.
  - intros <-. by rewrite Zbyte_byteZ.
  - intros ->. by rewrite byteZ_Zbyte.
Qed.

Lemma is_JUMPDEST_not_PUSH b : is_JUMPDEST b = true → is_PUSH b = false.
Proof. unfold is_JUMPDEST, is_PUSH. intros E. zbool. rewrite E. done. Qed.

Lemma length_set_bit pc m : length (set_bit pc m) = length m.
Proof. apply length_alter. Qed.

Lemma length_jumpdests_loop fuel code pc m :
  length (jumpdests_loop fuel code pc m) = length m.
Proof.
  revert pc m. induction fuel as [|fuel IH]; intros pc m; simpl; [done|].
  repeat case_match; rewrite ?IH; try done. apply length_set_bit.
Qed.

Lemma length_jumpdests code : length (jumpdests code) = Z.to_nat (Zlen code / 8 + 1).
Proof. unfold jumpdests. by rewrite length_jumpdests_loop, length_zeros. Qed.

(** The bit vector as a set of positions. *)
Definition bit (m : list byte) (n : nat) : bool :=
  match m !! (n / 8)%nat with
  | Some b => Z.testbit (byteZ b) (Z.of_nat (n mod 8))
  | None => false
  end.

Lemma land_shiftl_testbit x k : 0 ≤ k →
  negb (Z.land x (Z.shiftl 1 k) =? 0) = Z.testbit x k.
Proof.
  intros Hk. rewrite Z.shiftl_1_l. destruct (Z.testbit x k) eqn:E.
  - apply negb_true_iff, Z.eqb_neq. intros H.
    assert (Z.testbit (Z.land x (2 ^ k)) k = false) as H' by (rewrite H; apply Z.bits_0).
    rewrite Z.land_spec, E, Z.pow2_bits_true in H' by done. done.
  - apply negb_false_iff, Z.eqb_eq, Z.bits_inj'. intros n Hn.
    rewrite Z.land_spec, Z.bits_0. destruct (decide (n = k)) as [->|].
    + by rewrite E.
    + rewrite Z.pow2_bits_false by lia. apply andb_false_r.
Qed.

Lemma test_bit_bit m n : (n / 8 < length m)%nat → test_bit m (Z.of_nat n) = Some (bit m n).
Proof.
  intros H. unfold test_bit, bit.
  replace (Z.of_nat n / 8) with (Z.of_nat (n / 8)) by (by rewrite Nat2Z.inj_div).
  rewrite Nat2Z.id.
  destruct (lookup_lt_is_Some_2 m (n / 8)) as [b ->]; [done|].
  rewrite land_shiftl_testbit by (apply Z.mod_pos_bound; lia).
  replace (Z.of_nat n mod 8) with (Z.of_nat (n mod 8)) by (by rewrite Nat2Z.inj_mod). done.
Qed.

Lemma bit_set_bit m pc n : (pc / 8 < length m)%nat →
  bit (set_bit pc m) n = bool_decide (n = pc) || bit m n.
Proof.
  intros Hpc. unfold bit, set_bit. rewrite list_lookup_alter.
  pose proof (Nat.div_mod_eq n 8) as Hn. pose proof (Nat.div_mod_eq pc 8) as Hp.
  pose proof (Nat.mod_upper_bound n 8 ltac:(lia)). pose proof (Nat.mod_upper_bound pc 8 ltac:(lia)).
  case_decide as E.
  - rewrite E. destruct (lookup_lt_is_Some_2 m (n / 8)) as [b Hb]; [congruence|]. rewrite Hb.
    cbn [fmap option_fmap option_map]. rewrite byteZ_Zbyte. change 256 with (2 ^ 8).
    rewrite Z.testbit_mod_pow2, (proj2 (Z.ltb_lt _ _)), andb_true_l by lia.
    rewrite Z.lor_spec, Z.shiftl_1_l. destruct (decide (n = pc)) as [->|Hne].
    + rewrite Z.pow2_bits_true by lia. rewrite bool_decide_true by done.
      apply orb_true_r.
    + rewrite Z.pow2_bits_false by lia. rewrite bool_decide_false by done.
      apply orb_false_r.
  - rewrite bool_decide_false by congruence. done.
Qed.

(** ** Correctness of the analysis *)

Lemma boundary_ge code s n : boundary code s n → (s ≤ n)%nat.
Proof. induction 1; lia. Qed.

Lemma boundary_trans code s n k : boundary code s n → boundary code n k → boundary code s k.
Proof. intros H. induction 1; eauto using boundary. Qed.

(** Decomposition at the first instruction. *)
Definition next_pc (op : byte) (pc : nat) : nat :=
  if is_PUSH op then pc + Z.to_nat (byteZ op - OpCode_byte PUSH1 + 1) + 1 else pc + 1.

Lemma boundary_inv code s n : boundary code s n →
  n = s ∨ ∃ op, code !! s = Some op ∧ boundary code (next_pc op s) n.
Proof.
  induction 1 as [|n op Hb [->|(op' & Hop & IH)] Hn Hp|n op Hb [->|(op' & Hop & IH)] Hn Hp];
    [by left|right; exists op|right; exists op'|right; exists op|right; exists op'];
    (split; [done|]); eauto using boundary.
  - unfold next_pc. rewrite Hp. constructor.
  - unfold next_pc. rewrite Hp. constructor.
Qed.

Lemma boundary_step code s n op :
  code !! s = Some op → boundary code (next_pc op s) n → boundary code s n.
Proof.
  intros Hop. apply boundary_trans. unfold next_pc. destruct (is_PUSH op) eqn:E.
  - eapply boundary_push; eauto using boundary_start.
  - eapply boundary_next; eauto using boundary_start.
Qed.

(** The loop sets exactly the bits of the jump destinations it passes. *)
Lemma jumpdests_loop_spec fuel code pc m n :
  (length code ≤ fuel + pc)%nat → (length code / 8 < length m)%nat →
  bit (jumpdests_loop fuel code pc m) n = true ↔
  bit m n = true ∨ (boundary code pc n ∧ code !! n = Some (Zbyte (OpCode_byte JUMPDEST))).
Proof.
  revert pc m. induction fuel as [|fuel IH]; intros pc m Hf Hm; simpl.
  { split; [by left|]. intros [?|[Hb Hn]]; [done|].
    apply boundary_ge in Hb. apply lookup_lt_Some in Hn. lia. }
  destruct (code !! pc) as [op|] eqn:Hop.
  2:{ split; [by left|]. intros [?|[Hb Hn]]; [done|].
      apply boundary_ge in Hb. apply lookup_lt_Some in Hn. apply lookup_ge_None in Hop. lia. }
  assert (Hstep : ∀ b m', next_pc op pc = b → (length code / 8 < length m')%nat →
    (bit m' n = true ↔ bit m n = true ∨ (n = pc ∧ is_JUMPDEST op = true)) →
    bit (jumpdests_loop fuel code b m') n = true ↔
    bit m n = true ∨ (boundary code pc n ∧ code !! n = Some (Zbyte (OpCode_byte JUMPDEST)))).
  { intros b m' <- Hm' Hbit. rewrite IH; [|unfold next_pc; destruct (is_PUSH op); lia|done].
    rewrite Hbit. split.
    - intros [[?|[-> Hj]]|[Hb Hn]]; [by left|right|right; split; [by eapply boundary_step|done]].
      split; [constructor|]. rewrite Hop. f_equal. by apply is_JUMPDEST_true.
    - intros [?|[Hb Hn]]; [auto|]. destruct (boundary_inv _ _ _ Hb) as [->|(op' & Hop' & Hb')].
      + left. right. split; [done|]. apply is_JUMPDEST_true. congruence.
      + right. rewrite Hop in Hop'. by simplify_eq. }
  destruct (is_JUMPDEST op) eqn:Ej; [|destruct (is_PUSH op) eqn:Ep].
  - apply Hstep.
    + unfold next_pc. by rewrite (is_JUMPDEST_not_PUSH _ Ej).
    + by rewrite length_set_bit.
    + rewrite bit_set_bit.
      * rewrite orb_true_iff, bool_decide_eq_true. tauto.
      * apply lookup_lt_Some in Hop. pose proof (Nat.Div0.div_le_mono pc (length code) 8). lia.
  - apply Hstep; [unfold next_pc; by rewrite Ep|done|]. intuition congruence.
  - apply Hstep; [unfold next_pc; by rewrite Ep|done|]. intuition congruence.
Qed.

Lemma bit_zeros k n : bit (zeros k) n = false.
Proof.
  unfold bit, zeros. destruct (replicate _ _ !! _) eqn:E; [|done].
  apply lookup_replicate in E as [-> _]. apply Z.bits_0.
Qed.

Lemma jumpdests_spec code n : bit (jumpdests code) n = true ↔ valid_jumpdest code n.
Proof.
  unfold jumpdests, valid_jumpdest. rewrite jumpdests_loop_spec.
  - rewrite bit_zeros. intuition congruence.
  - lia.
  - rewrite length_zeros. unfold Zlen.
    pose proof (Nat2Z.inj_div (length code) 8). lia.
Qed.

(** [has] on a consistent cache answers as the specification does, never
    panics, and keeps the cache consistent. *)
Lemma has_spec known d h code dest :
  known h code → (∀ code', known h code' → code' = code) → cache_ok known d → 0 ≤ dest →
  ∃ d' b, has d h code dest = (d', Some b) ∧ cache_ok known d' ∧
    (b = true ↔ dest < 2 ^ 62 ∧ valid_jumpdest code (Z.to_nat dest)).
Proof.
  intros Hk Huniq Hd Hdest. unfold has. rewrite !Z.geb_leb.
  destruct (63 <=? BitLen dest) eqn:E1; zbool; simpl.
  { exists d, false. split_and!; [done..|]. split; [done|]. intros [? _].
    assert (BitLen dest ≤ 62) by (apply BitLen_le; lia). lia. }
  assert (Hd62 : dest < 2 ^ 62).
  { rewrite <- (Z.abs_eq dest) by done. apply BitLen_le; lia. }
  rewrite big_Uint64_small by (unfold is_u64; lia).
  destruct (Zlen code <=? dest) eqn:E2; zbool.
  { exists d, false. split_and!; [done..|]. split; [done|]. intros [_ [_ Hn]].
    apply lookup_lt_Some in Hn. unfold Zlen in E2. lia. }
  assert (Htest : test_bit (jumpdests code) dest = Some (bit (jumpdests code) (Z.to_nat dest))).
  { rewrite <- (Z2Nat.id dest) at 1 by done. apply test_bit_bit. rewrite length_jumpdests.
    unfold Zlen in *. rewrite <- (Nat2Z.id (Z.to_nat dest / 8)).
    rewrite Nat2Z.inj_div. rewrite Z2Nat.id by done.
    pose proof (Z.div_le_mono dest (Z.of_nat (length code)) 8).
    apply Z2Nat.inj_lt; try lia; try (apply Z.div_pos; lia).
    pose proof (Z.div_pos (Z.of_nat (length code)) 8). lia. }
  destruct (d !! h) as [m|] eqn:Em.
  - destruct (Hd _ _ Em) as (c & Hc & ->). apply Huniq in Hc as ->.
    exists d, (bit (jumpdests code) (Z.to_nat dest)). rewrite Htest. split_and!; [done..|].
    rewrite jumpdests_spec. tauto.
  - exists (<[h := jumpdests code]> d), (bit (jumpdests code) (Z.to_nat dest)).
    rewrite Htest. split_and!; [done| |rewrite jumpdests_spec; tauto].
    intros h' m. rewrite lookup_insert_Some. intros [[<- <-]|[_ Hm]]; eauto.
Qed.
