(* ===== verification/EvmInstr.v ===== *)
(** * Instructions

    [src/hvm/evm/instructions.go]: one definition per execution function.
    The functions that start a new frame are arguments ([Handlers]); they are
    tied to the interpreter in [EvmInterp]. *)

From stdpp Require Import base tactics list numbers gmap.
From S2P Require Import Prelude GoMath EvmParams EvmMachine EvmGas EvmAnalysis.

#[local] Open Scope Z_scope.

Section instr.
Context {DB : Type} {db_ops : StateDB DB} (env : Env DB).

#[local] Abbreviation X := (@X DB).

(** [EVM.Call] and its siblings return data, left-over gas and an error. *)
Definition H (A : Type) : Type := M (EVM DB) evm_error A.
Record CallRes : Type := mkCallRes {
  cr_ret : list byte; cr_gas : Z; cr_err : option evm_error }.
Record Handlers : Type := mkHandlers {
  h_Call : ContractRef → Address → list byte → Z → Z → H CallRes;
  h_CallCode : ContractRef → Address → list byte → Z → Z → H CallRes;
  h_DelegateCall : ContractRef → Address → list byte → Z → H CallRes;
  h_StaticCall : ContractRef → Address → list byte → Z → H CallRes;
  h_Create : ContractRef → list byte → Z → Z → H (Address * CallRes) }.
Definition call_evm {A} (h : H A) : X A := λ f,
  let '(e, r) := h (evm f) in
  (mkFrame (pc f) (stack f) (memory f) (contract f) e, r).

(** An execution function returns the instruction's data. *)
Definition executionFunc : Type := X (list byte).

Definition opAdd : executionFunc :=
  x ← pop; y ← pop; push (U256 (x + y));; mret [].
Definition opSub : executionFunc :=
  x ← pop; y ← pop; push (U256 (x - y));; mret [].
Definition opMul : executionFunc :=
  x ← pop; y ← pop; push (U256 (x * y));; mret [].
Definition opDiv : executionFunc :=
  x ← pop; y ← pop;
  (if negb (big_Sign y =? 0) then push (U256 (big_Div x y)) else push 0);; mret [].
Definition opSdiv : executionFunc :=
  x0 ← pop; let x := S256 x0 in
  y0 ← pop; let y := S256 y0 in
  if big_Sign y =? 0 then push 0;; mret []
  else
    let n := if big_Sign (x * y) <? 0 then -1 else 1 in
    let res := big_Div (Z.abs x) (Z.abs y) in
    push (U256 (res * n));; mret [].
Definition opMod : executionFunc :=
  x ← pop; y ← pop;
  (if big_Sign y =? 0 then push 0 else push (U256 (big_Mod x y)));; mret [].
Definition opSmod : executionFunc :=
  x0 ← pop; let x := S256 x0 in
  y0 ← pop; let y := S256 y0 in
  (if big_Sign y =? 0 then push 0
   else
     let n := if big_Sign x <? 0 then -1 else 1 in
     let res := big_Mod (Z.abs x) (Z.abs y) in
     push (U256 (res * n)));; mret [].
Definition opExp : executionFunc :=
  base ← pop; exponent ← pop; push (Exp base exponent);; mret [].
Definition opSignExtend : executionFunc :=
  back ← pop;
  (if big_Cmp back 31 <? 0 then
     let bit := u64 (big_Uint64 back * 8 + 7) in
     num ← pop;
     let mask := Z.shiftl 1 bit - 1 in
     let num := if Z.testbit num bit then Z.lor num (Z.lnot mask) else Z.land num mask in
     push (U256 num)
   else mret tt);; mret [].
Definition opNot : executionFunc :=
  x ← pop; push (U256 (Z.lnot x));; mret [].
Definition opLt : executionFunc :=
  x ← pop; y ← pop; (if big_Cmp x y <? 0 then push 1 else push 0);; mret [].
Definition opGt : executionFunc :=
  x ← pop; y ← pop; (if big_Cmp x y >? 0 then push 1 else push 0);; mret [].
(** [S256] is applied to [y] twice, as in the source. *)
Definition opSlt : executionFunc :=
  x0 ← pop; let x := S256 x0 in
  y0 ← pop; let y := S256 y0 in
  (if big_Cmp x (S256 y) <? 0 then push 1 else push 0);; mret [].
Definition opSgt : executionFunc :=
  x0 ← pop; let x := S256 x0 in
  y0 ← pop; let y := S256 y0 in
  (if big_Cmp x y >? 0 then push 1 else push 0);; mret [].
Definition opEq : executionFunc :=
  x ← pop; y ← pop; (if big_Cmp x y =? 0 then push 1 else push 0);; mret [].
Definition opIszero : executionFunc :=
  x ← pop; (if big_Sign x >? 0 then push 0 else push 1);; mret [].
Definition opAnd : executionFunc :=
  x ← pop; y ← pop; push (Z.land x y);; mret [].
Definition opOr : executionFunc :=
  x ← pop; y ← pop; push (Z.lor x y);; mret [].
Definition opXor : executionFunc :=
  x ← pop; y ← pop; push (Z.lxor x y);; mret [].
Definition opByte : executionFunc :=
  th ← pop;
  val ← Back 0;
  (if big_Cmp th 32 <? 0 then set_top (byteZ (Byte val 32 (big_Int64 th))) else set_top 0);;
  mret [].
Definition opAddmod : executionFunc :=
  x ← pop; y ← pop; z ← pop;
  (if big_Cmp z 0 >? 0 then push (U256 (big_Mod (x + y) z)) else push 0);; mret [].
Definition opMulmod : executionFunc :=
  x ← pop; y ← pop; z ← pop;
  (if big_Cmp z 0 >? 0 then push (U256 (big_Mod (x * y) z)) else push 0);; mret [].

Definition opSha3 : executionFunc :=
  offset ← pop; size ← pop;
  data ← mem_Get (big_Int64 offset) (big_Int64 size);
  let hash := Keccak256Hash env data in
  (if EnablePreimageRecording (vmConfig env) then db_write (AddPreimage hash data) else mret tt);;
  push hash;; mret [].
Definition opAddress : executionFunc :=
  c ← gets contract; push (Contract_Address c);; mret [].
Definition opBalance : executionFunc :=
  a ← pop; balance ← db_read (GetBalance (BigToAddress a)); push balance;; mret [].
Definition opOrigin : executionFunc := push (Origin (ctx env));; mret [].
Definition opCaller : executionFunc :=
  c ← gets contract; push (CallerAddress c);; mret [].
(** [Set] on a nil value would panic. *)
Definition opCallValue : executionFunc :=
  c ← gets contract; v ← or_panic (value c); push v;; mret [].
Definition opCallDataLoad : executionFunc :=
  s ← pop; c ← gets contract; push (SetBytes (getDataBig (Input c) s 32));; mret [].
Definition opCallDataSize : executionFunc :=
  c ← gets contract; push (Zlen (Input c));; mret [].
Definition opCallDataCopy : executionFunc :=
  memOffset ← pop; dataOffset ← pop; length ← pop;
  c ← gets contract;
  mem_Set (big_Uint64 memOffset) (big_Uint64 length) (getDataBig (Input c) dataOffset length);;
  mret [].
Definition opReturnDataSize : executionFunc :=
  e ← gets evm; push (Zlen (returnData e));; mret [].
Definition opReturnDataCopy : executionFunc :=
  memOffset ← pop; dataOffset ← pop; length ← pop;
  let e := dataOffset + length in
  ev ← gets evm;
  if (BitLen e >? 64) || (Zlen (returnData ev) <? big_Uint64 e) then fail errReturnDataOutOfBounds
  else
    (* [returnData\[dataOffset:end\]] panics when its bounds are not ordered *)
    (if big_Uint64 dataOffset <=? big_Uint64 e then
       mem_Set (big_Uint64 memOffset) (big_Uint64 length)
         (slice (big_Uint64 dataOffset) (big_Uint64 e) (returnData ev))
     else panic);; mret [].
Definition opExtCodeSize : executionFunc :=
  a ← pop; n ← db_read (GetCodeSize (BigToAddress a)); push n;; mret [].
Definition opCodeSize : executionFunc :=
  c ← gets contract; push (Zlen (Code c));; mret [].
Definition opCodeCopy : executionFunc :=
  memOffset ← pop; codeOffset ← pop; length ← pop;
  c ← gets contract;
  let codeCopy := getDataBig (Code c) codeOffset length in
  mem_Set (big_Uint64 memOffset) (big_Uint64 length) codeCopy;; mret [].
Definition opExtCodeCopy : executionFunc :=
  a ← pop; let addr := BigToAddress a in
  memOffset ← pop; codeOffset ← pop; length ← pop;
  code ← db_read (GetCode addr);
  let codeCopy := getDataBig code codeOffset length in
  mem_Set (big_Uint64 memOffset) (big_Uint64 length) codeCopy;; mret [].
Definition opGasprice : executionFunc := push (GasPrice (ctx env));; mret [].
Definition opBlockhash : executionFunc :=
  num ← pop;
  let n := BlockNumber (ctx env) - 257 in
  (if (big_Cmp num n >? 0) && (big_Cmp num (BlockNumber (ctx env)) <? 0)
   then push (GetHash (ctx env) (big_Uint64 num)) else push 0);; mret [].
Definition opCoinbase : executionFunc := push (Coinbase (ctx env));; mret [].
Definition opTimestamp : executionFunc := push (U256 (Time (ctx env)));; mret [].
Definition opNumber : executionFunc := push (U256 (BlockNumber (ctx env)));; mret [].
Definition opDifficulty : executionFunc := push (U256 (Difficulty (ctx env)));; mret [].
Definition opGasLimit : executionFunc := push (U256 (GasLimit (ctx env)));; mret [].
Definition opPop : executionFunc := pop;; mret [].
Definition opMload : executionFunc :=
  offset ← pop; d ← mem_Get (big_Int64 offset) 32; push (SetBytes d);; mret [].
Definition opMstore : executionFunc :=
  mStart ← pop; val ← pop;
  mem_Set (big_Uint64 mStart) 32 (PaddedBigBytes val 32);; mret [].
(** [memory.store\[off\] = byte(val & 0xff)] *)
Definition opMstore8 : executionFunc :=
  off0 ← pop; let off := big_Int64 off0 in
  val0 ← pop; let val := big_Int64 val0 in
  m ← gets memory;
  if (0 <=? off) && (off <? Memory_Len m)
  then set_memory (mkMemory (<[Z.to_nat off := Zbyte (Z.land val 0xff)]> (store m)) (lastGasCost m));; mret []
  else panic.
Definition opSload : executionFunc :=
  l ← pop; c ← gets contract;
  val ← db_read (GetState (Contract_Address c) (BigToHash l)); push val;; mret [].
Definition opSstore : executionFunc :=
  l ← pop; val ← pop; c ← gets contract;
  db_write (SetState (Contract_Address c) (BigToHash l) (BigToHash val));; mret [].

(** [contract.jumpdests.has(contract.CodeHash, contract.Code, pos)] *)
Definition jumpdest_ok (pos : Z) : X bool :=
  c ← gets contract; e ← gets evm;
  let '(d, r) := has (dests e) (CodeHash c) (Code c) pos in
  set_evm (set_jumpdests d e);; or_panic r.
Definition opJump : executionFunc :=
  pos ← pop;
  ok ← jumpdest_ok pos;
  c ← gets contract;
  if negb ok then fail (errInvalidJump (byteZ (GetOp (big_Uint64 pos) c)) pos)
  else set_pc (big_Uint64 pos);; mret [].
Definition opJumpi : executionFunc :=
  pos ← pop; cond ← pop;
  p ← gets pc;
  if negb (big_Sign cond =? 0) then
    ok ← jumpdest_ok pos;
    c ← gets contract;
    if negb ok then fail (errInvalidJump (byteZ (GetOp (big_Uint64 pos) c)) pos)
    else set_pc (big_Uint64 pos);; mret []
  else set_pc (u64 (p + 1));; mret [].
Definition opJumpdest : executionFunc := mret [].
Definition opPc : executionFunc := p ← gets pc; push p;; mret [].
Definition opMsize : executionFunc := m ← gets memory; push (Memory_Len m);; mret [].
Definition opGas : executionFunc := c ← gets contract; push (Gas c);; mret [].

(** *** Instructions that start another frame *)

(** [contract.Gas += returnGas] *)
Definition return_gas (returnGas : Z) : X unit :=
  c ← gets contract; set_contract (set_Gas (u64 (Gas c + returnGas)) c).

(** The common end of the four calls: success flag, output, refunded gas. *)
Definition finish_call (retOffset retSize : Z) (r : CallRes) : executionFunc :=
  (match cr_err r with Some _ => push 0 | None => push 1 end);;
  (if bool_decide (cr_err r = None) || bool_decide (cr_err r = Some errExecutionReverted)
   then mem_Set (big_Uint64 retOffset) (big_Uint64 retSize) (cr_ret r) else mret tt);;
  return_gas (cr_gas r);;
  mret (cr_ret r).

Definition opCreate (h : Handlers) : executionFunc :=
  value ← pop; offset ← pop; size ← pop;
  input ← mem_Get (big_Int64 offset) (big_Int64 size);
  c ← gets contract;
  let gas := u64 (Gas c - Gas c / 64) in
  set_contract (fst (UseGas gas c));;
  res ← call_evm (h_Create h (Contract_ref c) input gas value);
  let '(addr, r) := (res : Address * CallRes) in
  (match cr_err r with
   | Some ErrCodeStoreOutOfGas => push 0
   | Some _ => push 0
   | None => push addr
   end);;
  return_gas (cr_gas r);;
  if bool_decide (cr_err r = Some errExecutionReverted) then mret (cr_ret r) else mret [].

Definition opCall (h : Handlers) : executionFunc :=
  g ← pop; let gas := big_Uint64 g in
  addr ← pop; v ← pop; let value := U256 v in
  inOffset ← pop; inSize ← pop;
  retOffset ← pop; retSize ← pop;
  let address := BigToAddress addr in
  args ← mem_Get (big_Int64 inOffset) (big_Int64 inSize);
  let gas := if negb (big_Sign value =? 0) then u64 (gas + CallStipend) else gas in
  c ← gets contract;
  r ← call_evm (h_Call h (Contract_ref c) address args gas value);
  finish_call retOffset retSize r.

Definition opCallCode (h : Handlers) : executionFunc :=
  g ← pop; let gas := big_Uint64 g in
  addr ← pop; v ← pop; let value := U256 v in
  inOffset ← pop; inSize ← pop;
  retOffset ← pop; retSize ← pop;
  let address := BigToAddress addr in
  args ← mem_Get (big_Int64 inOffset) (big_Int64 inSize);
  let gas := if negb (big_Sign value =? 0) then u64 (gas + CallStipend) else gas in
  c ← gets contract;
  r ← call_evm (h_CallCode h (Contract_ref c) address args gas value);
  finish_call retOffset retSize r.

Definition opDelegateCall (h : Handlers) : executionFunc :=
  g ← pop; let gas := big_Uint64 g in
  to ← pop; inOffset ← pop; inSize ← pop; outOffset ← pop; outSize ← pop;
  let toAddr := BigToAddress to in
  args ← mem_Get (big_Int64 inOffset) (big_Int64 inSize);
  c ← gets contract;
  r ← call_evm (h_DelegateCall h (Contract_ref c) toAddr args gas);
  finish_call outOffset outSize r.

Definition opStaticCall (h : Handlers) : executionFunc :=
  g ← pop; let gas := big_Uint64 g in
  addr ← pop;
  inOffset ← pop; inSize ← pop;
  retOffset ← pop; retSize ← pop;
  let address := BigToAddress addr in
  args ← mem_Get (big_Int64 inOffset) (big_Int64 inSize);
  c ← gets contract;
  r ← call_evm (h_StaticCall h (Contract_ref c) address args gas);
  finish_call retOffset retSize r.

Definition opReturn : executionFunc :=
  offset ← pop; size ← pop; mem_GetPtr (big_Int64 offset) (big_Int64 size).
Definition opRevert : executionFunc :=
  offset ← pop; size ← pop; mem_GetPtr (big_Int64 offset) (big_Int64 size).
Definition opStop : executionFunc := mret [].
Definition opSuicide : executionFunc :=
  c ← gets contract;
  balance ← db_read (GetBalance (Contract_Address c));
  b ← pop;
  db_write (AddBalance (BigToAddress b) balance);;
  db_read (Suicide (Contract_Address c));;
  mret [].

(** *** Instruction families *)

Fixpoint pop_topics (n : nat) : X (list Hash) :=
  match n with
  | O => mret []
  | S n' => t ← pop; ts ← pop_topics n'; mret (BigToHash t :: ts)
  end.
Definition makeLog (size : nat) : executionFunc :=
  mStart ← pop; mSize ← pop;
  topics ← pop_topics size;
  d ← mem_Get (big_Int64 mStart) (big_Int64 mSize);
  c ← gets contract;
  db_write (AddLog {| log_Address := Contract_Address c; log_Topics := topics;
                      log_Data := d; log_BlockNumber := big_Uint64 (BlockNumber (ctx env)) |});;
  mret [].

Definition makePush (size pushByteSize : Z) : executionFunc :=
  c ← gets contract; p ← gets pc;
  let codeLen := Zlen (Code c) in
  let startMin := if i64 (u64 (p + 1)) <? codeLen then i64 (u64 (p + 1)) else codeLen in
  let endMin := if startMin + pushByteSize <? codeLen then startMin + pushByteSize else codeLen in
  (* a negative [startMin] would panic in [Code\[startMin:endMin\]] *)
  if 0 <=? startMin then
    push (SetBytes (RightPadBytes (slice startMin endMin (Code c)) pushByteSize));;
    set_pc (u64 (p + size));; mret []
  else panic.

Definition makeDup (size : nat) : executionFunc :=
  st ← gets stack; st' ← or_panic (Stack_dup size st); set_stack st';; mret [].
Definition makeSwap (size : nat) : executionFunc :=
  st ← gets stack; st' ← or_panic (Stack_swap (size + 1) st); set_stack st';; mret [].
End instr.

Arguments mkHandlers {DB} _ _ _ _ _.
