(* ===== verification/EvmTable.v ===== *)
(** * The instruction table

    [src/hvm/evm/jump_table.go].  A byte without an entry is the zero
    [operation], whose [valid] flag is false: [None] here. *)

From stdpp Require Import base tactics list numbers gmap.
From S2P Require Import Prelude GoMath EvmParams EvmMachine EvmGas EvmAnalysis EvmInstr.

#[local] Open Scope Z_scope.

(** The flags an entry of the table literal sets. *)
Inductive op_flag : Type := F_halts | F_jumps | F_writes | F_reverts | F_returns.
#[global] Instance op_flag_eq_dec : EqDecision op_flag.
Proof. solve_decision. Defined.

Section table.
Context {DB : Type} {db_ops : StateDB DB} (env : Env DB) (h : @Handlers DB).

Record operation : Type := {
  execute : @executionFunc DB;
  gasCost : @gasFunc DB;
  validateStack : stackValidationFunc;
  memorySize : option (@X DB Z);
  halts : bool;
  jumps : bool;
  writes : bool;
  reverts : bool;
  returns : bool }.

Definition op_entry (ex : @executionFunc DB) (gas : @gasFunc DB) (vs : stackValidationFunc)
    (ms : option (@X DB Z)) (fl : list op_flag) : operation := {|
  execute := ex; gasCost := gas; validateStack := vs; memorySize := ms;
  halts := bool_decide (F_halts ∈ fl);
  jumps := bool_decide (F_jumps ∈ fl);
  writes := bool_decide (F_writes ∈ fl);
  reverts := bool_decide (F_reverts ∈ fl);
  returns := bool_decide (F_returns ∈ fl) |}.

Definition frontier_0x00 (op : OpCode) : option operation :=
  match op with
  | STOP => Some (op_entry opStop (constGasFunc 0) (makeStackFunc 0 0) None [F_halts])
  | ADD => Some (op_entry opAdd (constGasFunc GasFastestStep) (makeStackFunc 2 1) None [])
  | MUL => Some (op_entry opMul (constGasFunc GasFastStep) (makeStackFunc 2 1) None [])
  | SUB => Some (op_entry opSub (constGasFunc GasFastestStep) (makeStackFunc 2 1) None [])
  | DIV => Some (op_entry opDiv (constGasFunc GasFastStep) (makeStackFunc 2 1) None [])
  | SDIV => Some (op_entry opSdiv (constGasFunc GasFastStep) (makeStackFunc 2 1) None [])
  | MOD => Some (op_entry opMod (constGasFunc GasFastStep) (makeStackFunc 2 1) None [])
  | SMOD => Some (op_entry opSmod (constGasFunc GasFastStep) (makeStackFunc 2 1) None [])
  | ADDMOD => Some (op_entry opAddmod (constGasFunc GasMidStep) (makeStackFunc 3 1) None [])
  | MULMOD => Some (op_entry opMulmod (constGasFunc GasMidStep) (makeStackFunc 3 1) None [])
  | EXP => Some (op_entry opExp (gasExp env) (makeStackFunc 2 1) None [])
  | SIGNEXTEND => Some (op_entry opSignExtend (constGasFunc GasFastStep) (makeStackFunc 2 1) None [])
  | LT => Some (op_entry opLt (constGasFunc GasFastestStep) (makeStackFunc 2 1) None [])
  | GT => Some (op_entry opGt (constGasFunc GasFastestStep) (makeStackFunc 2 1) None [])
  | SLT => Some (op_entry opSlt (constGasFunc GasFastestStep) (makeStackFunc 2 1) None [])
  | SGT => Some (op_entry opSgt (constGasFunc GasFastestStep) (makeStackFunc 2 1) None [])
  | EQ => Some (op_entry opEq (constGasFunc GasFastestStep) (makeStackFunc 2 1) None [])
  | ISZERO => Some (op_entry opIszero (constGasFunc GasFastestStep) (makeStackFunc 1 1) None [])
  | AND => Some (op_entry opAnd (constGasFunc GasFastestStep) (makeStackFunc 2 1) None [])
  | XOR => Some (op_entry opXor (constGasFunc GasFastestStep) (makeStackFunc 2 1) None [])
  | OR => Some (op_entry opOr (constGasFunc GasFastestStep) (makeStackFunc 2 1) None [])
  | NOT => Some (op_entry opNot (constGasFunc GasFastestStep) (makeStackFunc 1 1) None [])
  | BYTE => Some (op_entry opByte (constGasFunc GasFastestStep) (makeStackFunc 2 1) None [])
  | SHA3 => Some (op_entry (opSha3 env) gasSha3 (makeStackFunc 2 1) (Some memorySha3) [])
  | _ => None
  end.

Definition frontier_0x30 (op : OpCode) : option operation :=
  match op with
  | ADDRESS => Some (op_entry opAddress (constGasFunc GasQuickStep) (makeStackFunc 0 1) None [])
  | BALANCE => Some (op_entry opBalance (gasBalance env) (makeStackFunc 1 1) None [])
  | ORIGIN => Some (op_entry (opOrigin env) (constGasFunc GasQuickStep) (makeStackFunc 0 1) None [])
  | CALLER => Some (op_entry opCaller (constGasFunc GasQuickStep) (makeStackFunc 0 1) None [])
  | CALLVALUE => Some (op_entry opCallValue (constGasFunc GasQuickStep) (makeStackFunc 0 1) None [])
  | CALLDATALOAD => Some (op_entry opCallDataLoad (constGasFunc GasFastestStep) (makeStackFunc 1 1) None [])
  | CALLDATASIZE => Some (op_entry opCallDataSize (constGasFunc GasQuickStep) (makeStackFunc 0 1) None [])
  | CALLDATACOPY => Some (op_entry opCallDataCopy gasCallDataCopy (makeStackFunc 3 0) (Some memoryCallDataCopy) [])
  | CODESIZE => Some (op_entry opCodeSize (constGasFunc GasQuickStep) (makeStackFunc 0 1) None [])
  | CODECOPY => Some (op_entry opCodeCopy gasCodeCopy (makeStackFunc 3 0) (Some memoryCodeCopy) [])
  | GASPRICE => Some (op_entry (opGasprice env) (constGasFunc GasQuickStep) (makeStackFunc 0 1) None [])
  | EXTCODESIZE => Some (op_entry opExtCodeSize (gasExtCodeSize env) (makeStackFunc 1 1) None [])
  | EXTCODECOPY => Some (op_entry opExtCodeCopy (gasExtCodeCopy env) (makeStackFunc 4 0) (Some memoryExtCodeCopy) [])
  | BLOCKHASH => Some (op_entry (opBlockhash env) (constGasFunc GasExtStep) (makeStackFunc 1 1) None [])
  | COINBASE => Some (op_entry (opCoinbase env) (constGasFunc GasQuickStep) (makeStackFunc 0 1) None [])
  | TIMESTAMP => Some (op_entry (opTimestamp env) (constGasFunc GasQuickStep) (makeStackFunc 0 1) None [])
  | NUMBER => Some (op_entry (opNumber env) (constGasFunc GasQuickStep) (makeStackFunc 0 1) None [])
  | DIFFICULTY => Some (op_entry (opDifficulty env) (constGasFunc GasQuickStep) (makeStackFunc 0 1) None [])
  | GASLIMIT => Some (op_entry (opGasLimit env) (constGasFunc GasQuickStep) (makeStackFunc 0 1) None [])
  | _ => None
  end.

Definition frontier_0x50 (op : OpCode) : option operation :=
  match op with
  | POP => Some (op_entry opPop (constGasFunc GasQuickStep) (makeStackFunc 1 0) None [])
  | MLOAD => Some (op_entry opMload gasMLoad (makeStackFunc 1 1) (Some memoryMLoad) [])
  | MSTORE => Some (op_entry opMstore gasMStore (makeStackFunc 2 0) (Some memoryMStore) [])
  | MSTORE8 => Some (op_entry opMstore8 gasMStore8 (makeStackFunc 2 0) (Some memoryMStore8) [])
  | SLOAD => Some (op_entry opSload (gasSLoad env) (makeStackFunc 1 1) None [])
  | SSTORE => Some (op_entry opSstore gasSStore (makeStackFunc 2 0) None [F_writes])
  | JUMP => Some (op_entry opJump (constGasFunc GasMidStep) (makeStackFunc 1 0) None [F_jumps])
  | JUMPI => Some (op_entry opJumpi (constGasFunc GasSlowStep) (makeStackFunc 2 0) None [F_jumps])
  | PC => Some (op_entry opPc (constGasFunc GasQuickStep) (makeStackFunc 0 1) None [])
  | MSIZE => Some (op_entry opMsize (constGasFunc GasQuickStep) (makeStackFunc 0 1) None [])
  | GAS => Some (op_entry opGas (constGasFunc GasQuickStep) (makeStackFunc 0 1) None [])
  | JUMPDEST => Some (op_entry opJumpdest (constGasFunc JumpdestGas) (makeStackFunc 0 0) None [])
  | _ => None
  end.

Definition frontier_0x60 (op : OpCode) : option operation :=
  match op with
  | PUSH1 => Some (op_entry (makePush 1 1) gasPush (makeStackFunc 0 1) None [])
  | PUSH2 => Some (op_entry (makePush 2 2) gasPush (makeStackFunc 0 1) None [])
  | PUSH3 => Some (op_entry (makePush 3 3) gasPush (makeStackFunc 0 1) None [])
  | PUSH4 => Some (op_entry (makePush 4 4) gasPush (makeStackFunc 0 1) None [])
  | PUSH5 => Some (op_entry (makePush 5 5) gasPush (makeStackFunc 0 1) None [])
  | PUSH6 => Some (op_entry (makePush 6 6) gasPush (makeStackFunc 0 1) None [])
  | PUSH7 => Some (op_entry (makePush 7 7) gasPush (makeStackFunc 0 1) None [])
  | PUSH8 => Some (op_entry (makePush 8 8) gasPush (makeStackFunc 0 1) None [])
  | PUSH9 => Some (op_entry (makePush 9 9) gasPush (makeStackFunc 0 1) None [])
  | PUSH10 => Some (op_entry (makePush 10 10) gasPush (makeStackFunc 0 1) None [])
  | PUSH11 => Some (op_entry (makePush 11 11) gasPush (makeStackFunc 0 1) None [])
  | PUSH12 => Some (op_entry (makePush 12 12) gasPush (makeStackFunc 0 1) None [])
  | PUSH13 => Some (op_entry (makePush 13 13) gasPush (makeStackFunc 0 1) None [])
  | PUSH14 => Some (op_entry (makePush 14 14) gasPush (makeStackFunc 0 1) None [])
  | PUSH15 => Some (op_entry (makePush 15 15) gasPush (makeStackFunc 0 1) None [])
  | PUSH16 => Some (op_entry (makePush 16 16) gasPush (makeStackFunc 0 1) None [])
  | _ => None
  end.

Definition frontier_0x70 (op : OpCode) : option operation :=
  match op with
  | PUSH17 => Some (op_entry (makePush 17 17) gasPush (makeStackFunc 0 1) None [])
  | PUSH18 => Some (op_entry (makePush 18 18) gasPush (makeStackFunc 0 1) None [])
  | PUSH19 => Some (op_entry (makePush 19 19) gasPush (makeStackFunc 0 1) None [])
  | PUSH20 => Some (op_entry (makePush 20 20) gasPush (makeStackFunc 0 1) None [])
  | PUSH21 => Some (op_entry (makePush 21 21) gasPush (makeStackFunc 0 1) None [])
  | PUSH22 => Some (op_entry (makePush 22 22) gasPush (makeStackFunc 0 1) None [])
  | PUSH23 => Some (op_entry (makePush 23 23) gasPush (makeStackFunc 0 1) None [])
  | PUSH24 => Some (op_entry (makePush 24 24) gasPush (makeStackFunc 0 1) None [])
  | PUSH25 => Some (op_entry (makePush 25 25) gasPush (makeStackFunc 0 1) None [])
  | PUSH26 => Some (op_entry (makePush 26 26) gasPush (makeStackFunc 0 1) None [])
  | PUSH27 => Some (op_entry (makePush 27 27) gasPush (makeStackFunc 0 1) None [])
  | PUSH28 => Some (op_entry (makePush 28 28) gasPush (makeStackFunc 0 1) None [])
  | PUSH29 => Some (op_entry (makePush 29 29) gasPush (makeStackFunc 0 1) None [])
  | PUSH30 => Some (op_entry (makePush 30 30) gasPush (makeStackFunc 0 1) None [])
  | PUSH31 => Some (op_entry (makePush 31 31) gasPush (makeStackFunc 0 1) None [])
  | PUSH32 => Some (op_entry (makePush 32 32) gasPush (makeStackFunc 0 1) None [])
  | _ => None
  end.

Definition frontier_0x80 (op : OpCode) : option operation :=
  match op with
  | DUP1 => Some (op_entry (makeDup 1) gasDup (makeDupStackFunc 1) None [])
  | DUP2 => Some (op_entry (makeDup 2) gasDup (makeDupStackFunc 2) None [])
  | DUP3 => Some (op_entry (makeDup 3) gasDup (makeDupStackFunc 3) None [])
  | DUP4 => Some (op_entry (makeDup 4) gasDup (makeDupStackFunc 4) None [])
  | DUP5 => Some (op_entry (makeDup 5) gasDup (makeDupStackFunc 5) None [])
  | DUP6 => Some (op_entry (makeDup 6) gasDup (makeDupStackFunc 6) None [])
  | DUP7 => Some (op_entry (makeDup 7) gasDup (makeDupStackFunc 7) None [])
  | DUP8 => Some (op_entry (makeDup 8) gasDup (makeDupStackFunc 8) None [])
  | DUP9 => Some (op_entry (makeDup 9) gasDup (makeDupStackFunc 9) None [])
  | DUP10 => Some (op_entry (makeDup 10) gasDup (makeDupStackFunc 10) None [])
  | DUP11 => Some (op_entry (makeDup 11) gasDup (makeDupStackFunc 11) None [])
  | DUP12 => Some (op_entry (makeDup 12) gasDup (makeDupStackFunc 12) None [])
  | DUP13 => Some (op_entry (makeDup 13) gasDup (makeDupStackFunc 13) None [])
  | DUP14 => Some (op_entry (makeDup 14) gasDup (makeDupStackFunc 14) None [])
  | DUP15 => Some (op_entry (makeDup 15) gasDup (makeDupStackFunc 15) None [])
  | DUP16 => Some (op_entry (makeDup 16) gasDup (makeDupStackFunc 16) None [])
  | _ => None
  end.

Definition frontier_0x90 (op : OpCode) : option operation :=
  match op with
  | SWAP1 => Some (op_entry (makeSwap 1) gasSwap (makeSwapStackFunc 2) None [])
  | SWAP2 => Some (op_entry (makeSwap 2) gasSwap (makeSwapStackFunc 3) None [])
  | SWAP3 => Some (op_entry (makeSwap 3) gasSwap (makeSwapStackFunc 4) None [])
  | SWAP4 => Some (op_entry (makeSwap 4) gasSwap (makeSwapStackFunc 5) None [])
  | SWAP5 => Some (op_entry (makeSwap 5) gasSwap (makeSwapStackFunc 6) None [])
  | SWAP6 => Some (op_entry (makeSwap 6) gasSwap (makeSwapStackFunc 7) None [])
  | SWAP7 => Some (op_entry (makeSwap 7) gasSwap (makeSwapStackFunc 8) None [])
  | SWAP8 => Some (op_entry (makeSwap 8) gasSwap (makeSwapStackFunc 9) None [])
  | SWAP9 => Some (op_entry (makeSwap 9) gasSwap (makeSwapStackFunc 10) None [])
  | SWAP10 => Some (op_entry (makeSwap 10) gasSwap (makeSwapStackFunc 11) None [])
  | SWAP11 => Some (op_entry (makeSwap 11) gasSwap (makeSwapStackFunc 12) None [])
  | SWAP12 => Some (op_entry (makeSwap 12) gasSwap (makeSwapStackFunc 13) None [])
  | SWAP13 => Some (op_entry (makeSwap 13) gasSwap (makeSwapStackFunc 14) None [])
  | SWAP14 => Some (op_entry (makeSwap 14) gasSwap (makeSwapStackFunc 15) None [])
  | SWAP15 => Some (op_entry (makeSwap 15) gasSwap (makeSwapStackFunc 16) None [])
  | SWAP16 => Some (op_entry (makeSwap 16) gasSwap (makeSwapStackFunc 17) None [])
  | _ => None
  end.

Definition frontier_0xa0 (op : OpCode) : option operation :=
  match op with
  | LOG0 => Some (op_entry (makeLog env 0) (makeGasLog 0) (makeStackFunc 2 0) (Some memoryLog) [F_writes])
  | LOG1 => Some (op_entry (makeLog env 1) (makeGasLog 1) (makeStackFunc 3 0) (Some memoryLog) [F_writes])
  | LOG2 => Some (op_entry (makeLog env 2) (makeGasLog 2) (makeStackFunc 4 0) (Some memoryLog) [F_writes])
  | LOG3 => Some (op_entry (makeLog env 3) (makeGasLog 3) (makeStackFunc 5 0) (Some memoryLog) [F_writes])
  | LOG4 => Some (op_entry (makeLog env 4) (makeGasLog 4) (makeStackFunc 6 0) (Some memoryLog) [F_writes])
  | CREATE => Some (op_entry (opCreate h) gasCreate (makeStackFunc 3 1) (Some memoryCreate) [F_writes; F_returns])
  | CALL => Some (op_entry (opCall h) (gasCall env) (makeStackFunc 7 1) (Some memoryCall) [F_returns])
  | CALLCODE => Some (op_entry (opCallCode h) (gasCallCode env) (makeStackFunc 7 1) (Some memoryCall) [F_returns])
  | RETURN => Some (op_entry opReturn gasReturn (makeStackFunc 2 0) (Some memoryReturn) [F_halts])
  | SELFDESTRUCT => Some (op_entry opSuicide (gasSuicide env) (makeStackFunc 1 0) None [F_halts; F_writes])
  | _ => None
  end.

(** [NewFrontierInstructionSet]: the literal above, by opcode range. *)
Definition NewFrontierInstructionSet (op : OpCode) : option operation :=
  match frontier_0x00 op with Some o => Some o | None =>
  match frontier_0x30 op with Some o => Some o | None =>
  match frontier_0x50 op with Some o => Some o | None =>
  match frontier_0x60 op with Some o => Some o | None =>
  match frontier_0x70 op with Some o => Some o | None =>
  match frontier_0x80 op with Some o => Some o | None =>
  match frontier_0x90 op with Some o => Some o | None => frontier_0xa0 op
  end end end end end end end.

Definition NewHomesteadInstructionSet (op : OpCode) : option operation :=
  match op with
  | DELEGATECALL => Some (op_entry (opDelegateCall h) (gasDelegateCall env) (makeStackFunc 6 1) (Some memoryDelegateCall) [F_returns])
  | _ => NewFrontierInstructionSet op
  end.

Definition NewByzantiumInstructionSet (op : OpCode) : option operation :=
  match op with
  | STATICCALL => Some (op_entry (opStaticCall h) (gasStaticCall env) (makeStackFunc 6 1) (Some memoryStaticCall) [F_returns])
  | RETURNDATASIZE => Some (op_entry opReturnDataSize (constGasFunc GasQuickStep) (makeStackFunc 0 1) None [])
  | RETURNDATACOPY => Some (op_entry opReturnDataCopy gasReturnDataCopy (makeStackFunc 3 0) (Some memoryReturnDataCopy) [])
  | REVERT => Some (op_entry opRevert gasRevert (makeStackFunc 2 0) (Some memoryRevert) [F_reverts; F_returns])
  | _ => NewHomesteadInstructionSet op
  end.

(** [in.cfg.JumpTable\[op\]] for a byte of code. *)
Definition JumpTable (b : byte) : option operation :=
  match OpCode_of_byte b with
  | Some op => NewByzantiumInstructionSet op
  | None => None
  end.
End table.
