(* ===== verification/EvmInterp.v ===== *)
(** * The interpreter and the EVM entry points

    [src/hvm/evm/interpreter.go] (the run loop), [evm.go] (Call, CallCode,
    DelegateCall, StaticCall, Create) and the precompile runner of
    [contracts.go].

    Two bounds replace Go's unbounded loop and recursion.  The loop of a frame
    runs [loop_fuel] rounds, one more than the gas of the frame: every round
    that continues costs gas.  Nested frames are unrolled [call_fuel] levels,
    one more than the deepest call the depth check lets start. *)

From stdpp Require Import base tactics list numbers gmap.
From S2P Require Import Prelude GoMath EvmParams EvmMachine EvmGas EvmAnalysis EvmInstr EvmTable.

#[local] Open Scope Z_scope.

(** hvm.go *)
Definition hvm_CanTransfer {DB} {db_ops : StateDB DB} (addr : Address) (amount : Z) (db : DB) : DB * bool :=
  let '(db, b) := GetBalance addr db in (db, big_Cmp b amount >=? 0).
Definition hvm_Transfer {DB} {db_ops : StateDB DB} (sender recipient : Address) (amount : Z) (db : DB) : DB :=
  AddBalance recipient amount (SubBalance sender amount db).

Section interp.
Context {DB : Type} {db_ops : StateDB DB} (env : Env DB).

#[local] Abbreviation X := (@X DB).
#[local] Abbreviation H := (@H DB).
#[local] Abbreviation Handlers := (@Handlers DB).

(** ** interpreter.go *)

Definition enforceRestrictions (op : byte) (o : @operation DB) : X unit :=
  e ← gets evm;
  if readOnly e then
    if writes o then fail errWriteProtection
    else if byteZ op =? OpCode_byte CALL then
      v ← Back 2;
      if BitLen v >? 0 then fail errWriteProtection else mret tt
    else mret tt
  else mret tt.

(** The size the memory must have before the operation runs. *)
Definition required_memory (o : @operation DB) : X Z :=
  match memorySize o with
  | None => mret 0
  | Some f =>
      s ← f;
      memSize ← safe (bigUint64 s);
      safe (SafeMul (toWordSize memSize) 32)
  end.

(** Charging for the operation: any error is reported as out of gas. *)
Definition as_out_of_gas (cost : X Z) : X Z := λ f,
  match cost f with
  | (f', Err _) => (f', Err ErrOutOfGas)
  | r => r
  end.
Definition charge (o : @operation DB) (memSz : Z) : X unit :=
  if DisableGasMetering (vmConfig env) then mret tt
  else
    cost ← as_out_of_gas (gasCost o memSz);
    c ← gets contract;
    let '(c', ok) := UseGas cost c in
    if (ok : bool) then set_contract c' else fail ErrOutOfGas.

(** [operation.execute] and the update of the return-data buffer, which
    happens whether or not the operation failed. *)
Definition execute_op (o : @operation DB) : X (list byte) := λ f,
  match execute o f with
  | (f', Val res) =>
      (if returns o then set_evm (set_returnData res (evm f'));; mret res else mret res) f'
  | (f', Err e) =>
      (if returns o then set_evm (set_returnData [] (evm f'));; fail e else fail e) f'
  | r => r
  end.

Abbreviation RunRes := (list byte * option evm_error)%type (only parsing).

(** One round of the loop: [Some] is the result [Run] returns, [None] goes
    on with the next instruction. *)
Definition step (h : Handlers) : X (option RunRes) :=
  p ← gets pc; c ← gets contract;
  let op := GetOp p c in
  match JumpTable env h op with
  | None => fail (errInvalidOpcode (byteZ op))
  | Some o =>
      st ← gets stack;
      match validateStack o st with
      | Some err => fail err
      | None =>
          enforceRestrictions op o;;
          memSz ← required_memory o;
          charge o memSz;;
          m ← gets memory;
          (if memSz >? 0 then set_memory (Memory_Resize memSz m) else mret tt);;
          res ← execute_op o;
          p ← gets pc;
          if reverts o then mret (Some (res, Some errExecutionReverted))
          else if halts o then mret (Some (res, None))
          else if negb (jumps o) then set_pc (u64 (p + 1));; mret None
          else mret None
      end
  end.

Fixpoint Run_loop (h : Handlers) (fuel : nat) : X RunRes :=
  match fuel with
  | O => λ f, (f, NoFuel)
  | S fuel' =>
      e ← gets evm;
      if abort e then mret ([], None)
      else
        r ← step h;
        match r with
        | Some x => mret x
        | None => Run_loop h fuel'
        end
  end.

(** Rounds of the loop that suffice for a contract. *)
Definition loop_fuel (c : Contract) : nat := S (Z.to_nat (Gas c)).

(** [Run] also returns the contract, whose gas the callers read. *)
Definition Run (h : Handlers) (c : Contract) (input : list byte) : H (Contract * RunRes) := λ e,
  let e := set_returnData [] (set_depth (depth e + 1) e) in
  let leave e := set_depth (depth e - 1) e in
  if Zlen (Code c) =? 0 then (leave e, Val (c, ([], None)))
  else
    match Run_loop h (loop_fuel c) (mkFrame 0 [] NewMemory (set_Input input c) e) with
    | (f, Val r) => (leave (evm f), Val (contract f, r))
    | (f, Err err) => (leave (evm f), Val (contract f, ([], Some err)))
    | (f, Panic) => (leave (evm f), Panic)
    | (f, NoFuel) => (leave (evm f), NoFuel)
    end.

(** ** contracts.go *)

Definition RunPrecompiledContract (p : PrecompiledContract) (input : list byte) (c : Contract)
    : Contract * RunRes :=
  let gas := RequiredGas p input in
  match UseGas gas c with
  | (c', true) => (c', Precompiled_Run p input)
  | (c', false) => (c', ([], Some ErrOutOfGas))
  end.

(** ** evm.go *)

Definition run (h : Handlers) (c : Contract) (input : list byte) : H (Contract * RunRes) :=
  match CodeAddr c with
  | Some a =>
      match precompiles env a with
      | Some p => mret (RunPrecompiledContract p input c)
      | None => Run h c input
      end
  | None => Run h c input
  end.

(** Calls of state-database methods from the entry points. *)
Definition H_read {A} (f : DB → DB * A) : H A := λ e,
  let '(db, a) := f (stateDB e) in (set_stateDB db e, Val a).
Definition H_write (f : DB → DB) : H unit :=
  modify (λ e, set_stateDB (f (stateDB e)) e).
Definition H_revert (snapshot : Z) : H unit := λ e,
  match RevertToSnapshot snapshot (stateDB e) with
  | Some db => (set_stateDB db e, Val tt)
  | None => (e, Panic)
  end.

(** What every entry point does with the result of [run]: on an error revert
    to the snapshot and, unless the contract reverted, consume all gas. *)
Definition settle (snapshot : Z) (c : Contract) (err : option evm_error) : H Contract :=
  match err with
  | Some e =>
      H_revert snapshot;;
      if bool_decide (e = errExecutionReverted) then mret c
      else mret (fst (UseGas (Gas c) c))
  | None => mret c
  end.

Definition no_precompile (addr : Address) : bool :=
  match precompiles env addr with None => true | Some _ => false end.

Definition Call (h : Handlers) (clr : ContractRef) (addr : Address) (input : list byte)
    (gas value : Z) : H CallRes :=
  d ← gets depth;
  if NoRecursion (vmConfig env) && (d >? 0) then mret (mkCallRes [] gas None)
  else if d >? CallCreateDepth then mret (mkCallRes [] gas (Some ErrDepth))
  else
    can ← H_read (CanTransfer (ctx env) (ref_Address clr) value);
    if negb can then mret (mkCallRes [] gas (Some ErrInsufficientBalance))
    else
      let to := AccountRef addr in
      snapshot ← H_read Snapshot;
      exists_ ← H_read (Exist addr);
      if negb exists_ && no_precompile addr && (big_Sign value =? 0)
      then mret (mkCallRes [] gas None)
      else
        (if negb exists_ then H_write (CreateAccount addr) else mret tt);;
        H_write (Transfer (ctx env) (ref_Address clr) (ref_Address to) value);;
        modify (new_jumpdests clr);;
        let contract := NewContract clr to (Some value) gas in
        hash ← H_read (GetCodeHash addr);
        code ← H_read (GetCode addr);
        let contract := SetCallCode addr hash code contract in
        res ← run h contract input;
        let '(contract, (ret, err)) := (res : Contract * RunRes) in
        contract ← settle snapshot contract err;
        mret (mkCallRes ret (Gas contract) err).

Definition CallCode (h : Handlers) (clr : ContractRef) (addr : Address) (input : list byte)
    (gas value : Z) : H CallRes :=
  d ← gets depth;
  if NoRecursion (vmConfig env) && (d >? 0) then mret (mkCallRes [] gas None)
  else if d >? CallCreateDepth then mret (mkCallRes [] gas (Some ErrDepth))
  else
    can ← H_read (CanTransfer (ctx env) (ref_Address clr) value);
    if negb can then mret (mkCallRes [] gas (Some ErrInsufficientBalance))
    else
      snapshot ← H_read Snapshot;
      let to := AccountRef (ref_Address clr) in
      modify (new_jumpdests clr);;
      let contract := NewContract clr to (Some value) gas in
      hash ← H_read (GetCodeHash addr);
      code ← H_read (GetCode addr);
      let contract := SetCallCode addr hash code contract in
      res ← run h contract input;
      let '(contract, (ret, err)) := (res : Contract * RunRes) in
      contract ← settle snapshot contract err;
      mret (mkCallRes ret (Gas contract) err).

Definition DelegateCall (h : Handlers) (clr : ContractRef) (addr : Address) (input : list byte)
    (gas : Z) : H CallRes :=
  d ← gets depth;
  if NoRecursion (vmConfig env) && (d >? 0) then mret (mkCallRes [] gas None)
  else if d >? CallCreateDepth then mret (mkCallRes [] gas (Some ErrDepth))
  else
    snapshot ← H_read Snapshot;
    let to := AccountRef (ref_Address clr) in
    modify (new_jumpdests clr);;
    contract ← or_panic (AsDelegate (NewContract clr to None gas));
    hash ← H_read (GetCodeHash addr);
    code ← H_read (GetCode addr);
    let contract := SetCallCode addr hash code contract in
    res ← run h contract input;
    let '(contract, (ret, err)) := (res : Contract * RunRes) in
    contract ← settle snapshot contract err;
    mret (mkCallRes ret (Gas contract) err).

Definition StaticCall (h : Handlers) (clr : ContractRef) (addr : Address) (input : list byte)
    (gas : Z) : H CallRes :=
  d ← gets depth;
  if NoRecursion (vmConfig env) && (d >? 0) then mret (mkCallRes [] gas None)
  else if d >? CallCreateDepth then mret (mkCallRes [] gas (Some ErrDepth))
  else
    was ← gets readOnly;
    modify (set_readOnly true);;
    let to := AccountRef addr in
    snapshot ← H_read Snapshot;
    modify (new_jumpdests clr);;
    let contract := NewContract clr to (Some 0) gas in
    hash ← H_read (GetCodeHash addr);
    code ← H_read (GetCode addr);
    let contract := SetCallCode addr hash code contract in
    res ← run h contract input;
    let '(contract, (ret, err)) := (res : Contract * RunRes) in
    contract ← settle snapshot contract err;
    modify (set_readOnly was);;
    mret (mkCallRes ret (Gas contract) err).

Definition Create (h : Handlers) (clr : ContractRef) (code : list byte) (gas value : Z)
    : H (Address * CallRes) :=
  d ← gets depth;
  if d >? CallCreateDepth then mret (0, mkCallRes [] gas (Some ErrDepth))
  else
    can ← H_read (CanTransfer (ctx env) (ref_Address clr) value);
    if negb can then mret (0, mkCallRes [] gas (Some ErrInsufficientBalance))
    else
      nonce ← H_read (GetNonce (ref_Address clr));
      H_write (SetNonce (ref_Address clr) (u64 (nonce + 1)));;
      let contractAddr := CreateAddress env (ref_Address clr) nonce in
      contractHash ← H_read (GetCodeHash contractAddr);
      n ← H_read (GetNonce contractAddr);
      if negb (n =? 0) ||
         (negb (contractHash =? 0) && negb (contractHash =? Keccak256Hash env []))
      then mret (0, mkCallRes [] 0 (Some ErrContractAddressCollision))
      else
        snapshot ← H_read Snapshot;
        H_write (CreateAccount contractAddr);;
        H_write (SetNonce contractAddr 1);;
        H_write (Transfer (ctx env) (ref_Address clr) contractAddr value);;
        modify (new_jumpdests clr);;
        let contract := NewContract clr (AccountRef contractAddr) (Some value) gas in
        let contract := SetCallCode contractAddr (Keccak256Hash env code) code contract in
        if NoRecursion (vmConfig env) && (d >? 0)
        then mret (contractAddr, mkCallRes [] gas None)
        else
          res ← run h contract [];
          let '(contract, (ret, err)) := (res : Contract * RunRes) in
          let maxCodeSizeExceeded := Zlen ret >? MaxCodeSize in
          res ←
            (if bool_decide (err = None) && negb maxCodeSizeExceeded then
               let createDataGas := u64 (Zlen ret * CreateDataGas) in
               match UseGas createDataGas contract with
               | (contract, true) =>
                   H_write (SetCode contractAddr ret);; mret (contract, err)
               | (contract, false) => mret (contract, Some ErrCodeStoreOutOfGas)
               end
             else mret (contract, err));
          let '(contract, err) := (res : Contract * option evm_error) in
          (* an oversized code is settled like an error *)
          contract ← settle snapshot contract
            (if maxCodeSizeExceeded && bool_decide (err = None)
             then Some errMaxCodeSizeExceeded else err);
          mret (contractAddr, mkCallRes ret (Gas contract)
            (if maxCodeSizeExceeded && bool_decide (err = None)
             then Some errMaxCodeSizeExceeded else err)).

(** Tying the knot: [handlers n] allows [n] nested frames. *)
Fixpoint handlers (n : nat) : Handlers :=
  match n with
  | O =>
      let diverge {A} : H A := λ e, (e, NoFuel) in
      mkHandlers (λ _ _ _ _ _, diverge) (λ _ _ _ _ _, diverge) (λ _ _ _ _, diverge)
        (λ _ _ _ _, diverge) (λ _ _ _ _, diverge)
  | S n' =>
      let h := handlers n' in
      mkHandlers (Call h) (CallCode h) (DelegateCall h) (StaticCall h) (Create h)
  end.

(** One more frame than the depth check lets start. *)
Definition call_fuel : nat := 1026.

(** The methods of [*EVM] as clients call them. *)
Definition EVM_Call := h_Call (handlers call_fuel).
Definition EVM_CallCode := h_CallCode (handlers call_fuel).
Definition EVM_DelegateCall := h_DelegateCall (handlers call_fuel).
Definition EVM_StaticCall := h_StaticCall (handlers call_fuel).
Definition EVM_Create := h_Create (handlers call_fuel).

(** [NewEVM] with the interpreter [NewInterpreter] gives it. *)
Definition NewEVM (db : DB) : EVM DB := mkEVM db 0 false [] ∅ false.
End interp.
