(* ===== verification/EvmLaws.v ===== *)
(** * What the EVM relies on from the state database

    The laws behind the interface [StateDB]: an invariant under which every
    value read is a natural number, live snapshots that survive every other
    method and are restored by [RevertToSnapshot], and observational
    equivalence.  The EVM theorems are proved against this class; the
    journaled database of [src/blockchain/state] is an instance. *)

From stdpp Require Import base tactics list numbers gmap.
From S2P Require Import Prelude GoMath EvmParams EvmMachine.

#[local] Open Scope Z_scope.

(** The vocabulary of the laws: the invariant; [restores i d db], snapshot [i]
    is live in [db] and stands for [d]; what every getter shows; and what a
    static call must not change, which is less: balances, nonces, code,
    storage and logs, but not whether an empty account has an object. *)
Class DBView (DB : Type) : Type := {
  db_ok : DB → Prop;
  restores : Z → DB → DB → Prop;
  db_equiv : relation DB;
  same_content : relation DB }.

Definition evolves {DB} {view : DBView DB} (db db' : DB) : Prop :=
  db_ok db' ∧ ∀ i d, restores i d db → restores i d db'.
Definition reads {DB} {view : DBView DB} (db db' : DB) : Prop :=
  evolves db db' ∧ db_equiv db' db.

(** [K] is the hash of contract code. *)
Class StateDBLaws (DB : Type) {db_ops : StateDB DB} {view : DBView DB}
    (K : list byte → Hash) : Prop := {
  db_equiv_equivalence : Equivalence db_equiv;
  same_content_equivalence : Equivalence same_content;
  equiv_content db db' : db_equiv db db' → same_content db db';

  GetBalance_nonneg a db : db_ok db → 0 ≤ (GetBalance a db).2;
  GetCodeSize_nonneg a db : db_ok db → 0 ≤ (GetCodeSize a db).2;
  GetState_nonneg a k db : db_ok db → 0 ≤ (GetState a k db).2;
  GetCode_length a db : db_ok db → Zlen (GetCode a db).2 < 2 ^ 63;
  (** The code of an account is empty or has the account's code hash. *)
  GetCode_hash a db : db_ok db →
    let '(db1, h) := GetCodeHash a db in
    (GetCode a db1).2 = [] ∨ h = K (GetCode a db1).2;

  GetBalance_reads a db : db_ok db → reads db (GetBalance a db).1;
  GetNonce_reads a db : db_ok db → reads db (GetNonce a db).1;
  GetCodeHash_reads a db : db_ok db → reads db (GetCodeHash a db).1;
  GetCode_reads a db : db_ok db → reads db (GetCode a db).1;
  GetCodeSize_reads a db : db_ok db → reads db (GetCodeSize a db).1;
  GetState_reads a k db : db_ok db → reads db (GetState a k db).1;
  HasSuicided_reads a db : db_ok db → reads db (HasSuicided a db).1;
  Exist_reads a db : db_ok db → reads db (Exist a db).1;
  Empty_reads a db : db_ok db → reads db (Empty a db).1;

  CreateAccount_evolves a db : db_ok db → evolves db (CreateAccount a db);
  AddBalance_evolves a v db : db_ok db → 0 ≤ v → evolves db (AddBalance a v db);
  SubBalance_evolves a v db : db_ok db → 0 ≤ v ≤ (GetBalance a db).2 →
    evolves db (SubBalance a v db);
  SetNonce_evolves a n db : db_ok db → is_u64 n → evolves db (SetNonce a n db);
  SetCode_evolves a c db : db_ok db → Zlen c < 2 ^ 63 → evolves db (SetCode a c db);
  AddRefund_evolves v db : db_ok db → 0 ≤ v → evolves db (AddRefund v db);
  SetState_evolves a k v db : db_ok db → is_u256 v → evolves db (SetState a k v db);
  Suicide_evolves a db : db_ok db → evolves db (Suicide a db).1;
  AddLog_evolves l db : db_ok db → evolves db (AddLog l db);
  AddPreimage_evolves k p db : db_ok db → evolves db (AddPreimage k p db);

  (** What lies between the balance check and the transfer leaves the balance
      alone. *)
  GetBalance_equiv a db db' : db_ok db → db_ok db' → db_equiv db db' →
    (GetBalance a db).2 = (GetBalance a db').2;
  GetBalance_CreateAccount a b db : db_ok db →
    (GetBalance a (CreateAccount b db)).2 = (GetBalance a db).2;
  GetBalance_SetNonce a b n db : db_ok db → is_u64 n →
    (GetBalance a (SetNonce b n db)).2 = (GetBalance a db).2;

  (** The changes a static call may make. *)
  CreateAccount_content a db : db_ok db → (Exist a db).2 = false →
    same_content (CreateAccount a (Exist a db).1) db;
  AddBalance_content a db : db_ok db → same_content (AddBalance a 0 db) db;
  SubBalance_content a db : db_ok db → same_content (SubBalance a 0 db) db;
  AddPreimage_content k p db : db_ok db → same_content (AddPreimage k p db) db;

  (** Taking a snapshot, and going back to one. *)
  Snapshot_reads db : db_ok db → reads db (Snapshot db).1;
  Snapshot_restores db : db_ok db → restores (Snapshot db).2 db (Snapshot db).1;
  Snapshot_fresh i d db : db_ok db → restores i d db → i < (Snapshot db).2;
  Revert_spec i d db : db_ok db → restores i d db →
    ∃ db', RevertToSnapshot i db = Some db' ∧ db_equiv db' d ∧ db_ok db' ∧
      ∀ i' d', i' < i → restores i' d' db → restores i' d' db' }.

#[global] Existing Instance db_equiv_equivalence.
#[global] Existing Instance same_content_equivalence.

Ltac by_reads :=
  intros; first
  [ by apply GetBalance_reads | by apply GetNonce_reads | by apply GetCodeHash_reads
  | by apply GetCode_reads | by apply GetCodeSize_reads | by apply GetState_reads
  | by apply HasSuicided_reads | by apply Exist_reads | by apply Empty_reads
  | by apply Snapshot_reads ].
