(* ===== verification/EvmWp.v ===== *)
(** * Proof rules for the instruction monad

    The [wpg] of every primitive the instructions and gas functions are built
    from, shared by the proofs about gas ([EvmTermination]) and about panics
    ([EvmSafety]). *)

From stdpp Require Import base tactics list numbers gmap.
From S2P Require Import Prelude GoMath EvmParams EvmMachine EvmGas EvmAnalysis EvmInstr EvmTable.
From S2P Require Import EvmInterp.

#[local] Open Scope Z_scope.

Definition with_pc {DB} (p : Z) (f : Frame DB) : Frame DB :=
  mkFrame p (stack f) (memory f) (contract f) (evm f).
Definition with_stack {DB} (st : list Z) (f : Frame DB) : Frame DB :=
  mkFrame (pc f) st (memory f) (contract f) (evm f).
Definition with_memory {DB} (m : Memory) (f : Frame DB) : Frame DB :=
  mkFrame (pc f) (stack f) m (contract f) (evm f).
Definition with_contract {DB} (c : Contract) (f : Frame DB) : Frame DB :=
  mkFrame (pc f) (stack f) (memory f) c (evm f).
Definition with_evm {DB} (e : EVM DB) (f : Frame DB) : Frame DB :=
  mkFrame (pc f) (stack f) (memory f) (contract f) e.
Definition with_db {DB} (db : DB) (f : Frame DB) : Frame DB :=
  with_evm (set_stateDB db (evm f)) f.

Section rules.
Context {DB : Type} {db_ops : StateDB DB} (P N : Prop).
Implicit Types (f : Frame DB) (E : evm_error → Frame DB → Prop).

#[local] Abbreviation X := (@X DB).

Lemma wp_X_bind {A B} (m : X A) (k : A → X B) (Q : B → Frame DB → Prop) E f :
  wpg P N m (λ a, wpg P N (k a) Q E) E f → wpg P N (m ≫= k) Q E f.
Proof. apply wp_bind. Qed.
Lemma wp_X_ret {A} (a : A) Q E f : Q a f → wpg P N (mret a : X A) Q E f.
Proof. done. Qed.
Lemma wp_gets {A} (g : Frame DB → A) Q E f : Q (g f) f → wpg P N (gets g : X A) Q E f.
Proof. done. Qed.
Lemma wp_fail {A} e Q E f : E e f → wpg P N (fail e : X A) Q E f.
Proof. done. Qed.
Lemma wp_or_panic {A} (o : option A) Q E f :
  match o with Some a => Q a f | None => P end → wpg P N (or_panic o : X A) Q E f.
Proof. by destruct o. Qed.
Lemma wp_lift {A} (o : outcome evm_error A) Q E f :
  match o with Val a => Q a f | Err e => E e f | Panic => P | NoFuel => N end →
  wpg P N (lift o : X A) Q E f.
Proof. by destruct o. Qed.

Lemma wp_set_pc p Q E f : Q tt (with_pc p f) → wpg P N (set_pc p) Q E f.
Proof. done. Qed.
Lemma wp_set_stack st Q E f : Q tt (with_stack st f) → wpg P N (set_stack st) Q E f.
Proof. done. Qed.
Lemma wp_set_memory m Q E f : Q tt (with_memory m f) → wpg P N (set_memory m) Q E f.
Proof. done. Qed.
Lemma wp_set_contract c Q E f : Q tt (with_contract c f) → wpg P N (set_contract c) Q E f.
Proof. done. Qed.
Lemma wp_set_evm e Q E f : Q tt (with_evm e f) → wpg P N (set_evm e) Q E f.
Proof. done. Qed.

Lemma wp_push d Q E f : Q tt (with_stack (d :: stack f) f) → wpg P N (push d) Q E f.
Proof. done. Qed.
Lemma wp_pop Q E f :
  match stack f with x :: st => Q x (with_stack st f) | [] => P end → wpg P N pop Q E f.
Proof.
  intros HQ. unfold pop. apply wp_X_bind, wp_gets, wp_X_bind, wp_or_panic.
  by destruct (stack f).
Qed.
Lemma wp_Back n Q E f :
  match stack f !! n with Some v => Q v f | None => P end → wpg P N (Back n) Q E f.
Proof. intros HQ. unfold Back. by apply wp_X_bind, wp_gets, wp_or_panic. Qed.
Lemma wp_set_top v Q E f :
  match stack f with _ :: st => Q tt (with_stack (v :: st) f) | [] => P end →
  wpg P N (set_top v) Q E f.
Proof.
  intros HQ. unfold set_top. apply wp_X_bind, wp_gets. by destruct (stack f).
Qed.

Lemma wp_mem_Set o n v Q E f :
  match Memory_Set o n v (memory f) with Some m => Q tt (with_memory m f) | None => P end →
  wpg P N (mem_Set o n v) Q E f.
Proof.
  intros HQ. unfold mem_Set. apply wp_X_bind, wp_gets, wp_X_bind, wp_or_panic.
  by destruct (Memory_Set _ _ _ _).
Qed.
Lemma wp_mem_Get o n Q E f :
  match Memory_Get o n (memory f) with Some d => Q d f | None => P end →
  wpg P N (mem_Get o n) Q E f.
Proof. intros HQ. unfold mem_Get. by apply wp_X_bind, wp_gets, wp_or_panic. Qed.
Lemma wp_mem_GetPtr o n Q E f :
  match Memory_GetPtr o n (memory f) with Some d => Q d f | None => P end →
  wpg P N (mem_GetPtr o n) Q E f.
Proof. intros HQ. unfold mem_GetPtr. by apply wp_X_bind, wp_gets, wp_or_panic. Qed.

Lemma wp_db_read {A} (g : DB → DB * A) Q E f :
  Q (g (stateDB (evm f))).2 (with_db (g (stateDB (evm f))).1 f) → wpg P N (db_read g) Q E f.
Proof.
  intros HQ. unfold db_read. apply wp_X_bind, wp_gets. destruct (g _). exact HQ.
Qed.
Lemma wp_db_write (g : DB → DB) Q E f :
  Q tt (with_db (g (stateDB (evm f))) f) → wpg P N (db_write g) Q E f.
Proof. done. Qed.
Lemma wp_call_evm {A} (h : @H DB A) Q E f :
  wpg P N h (λ a e, Q a (with_evm e f)) (λ er e, E er (with_evm e f)) (evm f) →
  wpg P N (call_evm h) Q E f.
Proof. unfold wpg, call_evm. by destruct (h (evm f)) as [e []]. Qed.

Lemma wp_safe r Q E f :
  (snd r = false → Q (fst r) f) → (snd r = true → E errGasUintOverflow f) →
  wpg P N (safe r) Q E f.
Proof. intros. unfold safe. destruct (snd r); [apply wp_fail|apply wp_X_ret]; auto. Qed.

Lemma wp_mem_GasCost n Q E f :
  (let '(m, r) := memoryGasCost (memory f) n in
   match r with
   | Val c => Q c (with_memory m f)
   | Err e => E e (with_memory m f)
   | Panic => P
   | NoFuel => N
   end) → wpg P N (mem_GasCost n) Q E f.
Proof.
  intros HQ. unfold mem_GasCost. apply wp_X_bind, wp_gets.
  destruct (memoryGasCost _ _) as [m r]. apply wp_X_bind, wp_set_memory, wp_lift.
  by destruct r.
Qed.

Lemma wp_as_out_of_gas (m : X Z) Q E f :
  wpg P N m Q (λ _, E ErrOutOfGas) f → wpg P N (as_out_of_gas m) Q E f.
Proof. unfold wpg, as_out_of_gas. by destruct (m f) as [f' []]. Qed.

Lemma wp_execute_op (o : @operation DB) Q E f :
  wpg P N (execute o)
    (λ r f', Q r (if returns o then with_evm (set_returnData r (evm f')) f' else f'))
    (λ e f', E e (if returns o then with_evm (set_returnData [] (evm f')) f' else f')) f →
  wpg P N (execute_op o) Q E f.
Proof. unfold wpg, execute_op. destruct (execute o f) as [f' []]; by destruct (returns o). Qed.

(** The monad of the entry points. *)
Lemma wp_H_bind {A B} (m : @H DB A) (k : A → @H DB B) (Q : B → EVM DB → Prop) (E : evm_error → EVM DB → Prop) e :
  wpg P N m (λ a, wpg P N (k a) Q E) E e → wpg P N (mbind (M:=M (EVM DB) evm_error) k m) Q E e.
Proof. apply wp_bind. Qed.
Lemma wp_H_read {A} (g : DB → DB * A) Q (E : evm_error → EVM DB → Prop) e :
  Q (g (stateDB e)).2 (set_stateDB (g (stateDB e)).1 e) → wpg P N (H_read g) Q E e.
Proof. unfold wpg, H_read. by destruct (g _). Qed.
Lemma wp_H_write (g : DB → DB) Q (E : evm_error → EVM DB → Prop) e :
  Q tt (set_stateDB (g (stateDB e)) e) → wpg P N (H_write g) Q E e.
Proof. done. Qed.
Lemma wp_modify (g : EVM DB → EVM DB) Q (E : evm_error → EVM DB → Prop) e :
  Q tt (g e) → wpg P N (modify g) Q E e.
Proof. done. Qed.
Lemma wp_H_gets {A} (g : EVM DB → A) Q (E : evm_error → EVM DB → Prop) e :
  Q (g e) e → wpg P N (gets g) Q E e.
Proof. done. Qed.
Lemma wp_H_ret {A} (a : A) Q (E : evm_error → EVM DB → Prop) e :
  Q a e → wpg P N (mret (M:=M (EVM DB) evm_error) a) Q E e.
Proof. done. Qed.
Lemma wp_H_or_panic {A} (o : option A) Q (E : evm_error → EVM DB → Prop) e :
  match o with Some a => Q a e | None => P end → wpg P N (or_panic o) Q E e.
Proof. by destruct o. Qed.
End rules.

(** One step of symbolic execution. *)
Ltac wp_step :=
  cbv beta zeta;
  lazymatch goal with
  | |- wpg _ _ (mbind _ _) _ _ _ => apply wp_X_bind
  | |- wpg _ _ (mret _) _ _ _ => apply wp_X_ret
  | |- wpg _ _ (gets _) _ _ _ => apply wp_gets
  | |- wpg _ _ (fail _) _ _ _ => apply wp_fail
  | |- wpg _ _ (or_panic _) _ _ _ => apply wp_or_panic
  | |- wpg _ _ (lift _) _ _ _ => apply wp_lift
  | |- wpg _ _ (set_pc _) _ _ _ => apply wp_set_pc
  | |- wpg _ _ (set_stack _) _ _ _ => apply wp_set_stack
  | |- wpg _ _ (set_memory _) _ _ _ => apply wp_set_memory
  | |- wpg _ _ (set_contract _) _ _ _ => apply wp_set_contract
  | |- wpg _ _ (set_evm _) _ _ _ => apply wp_set_evm
  | |- wpg _ _ (push _) _ _ _ => apply wp_push
  | |- wpg _ _ pop _ _ _ => apply wp_pop
  | |- wpg _ _ (Back _) _ _ _ => apply wp_Back
  | |- wpg _ _ (set_top _) _ _ _ => apply wp_set_top
  | |- wpg _ _ (mem_Set _ _ _) _ _ _ => apply wp_mem_Set
  | |- wpg _ _ (mem_Get _ _) _ _ _ => apply wp_mem_Get
  | |- wpg _ _ (mem_GetPtr _ _) _ _ _ => apply wp_mem_GetPtr
  | |- wpg _ _ (db_read _) _ _ _ => apply wp_db_read
  | |- wpg _ _ (db_write _) _ _ _ => apply wp_db_write
  | |- wpg _ _ (call_evm _) _ _ _ => apply wp_call_evm
  end.

Ltac wp_H_step :=
  cbv beta zeta;
  lazymatch goal with
  | |- wpg _ _ (mbind _ _) _ _ _ => apply wp_H_bind
  | |- wpg _ _ (mret _) _ _ _ => apply wp_H_ret
  | |- wpg _ _ (gets _) _ _ _ => apply wp_H_gets
  | |- wpg _ _ (modify _) _ _ _ => apply wp_modify
  | |- wpg _ _ (or_panic _) _ _ _ => apply wp_H_or_panic
  | |- wpg _ _ (H_read _) _ _ _ => apply wp_H_read
  | |- wpg _ _ (H_write _) _ _ _ => apply wp_H_write
  end.

(** Unfolds the function whose program the goal runs. *)
Ltac unfold_head_wp :=
  try lazymatch goal with
  | |- wpg _ _ ?m _ _ _ =>
      let rec go t := lazymatch t with ?t' _ => go t' | ?c => unfold c end in go m
  end.
