(* ===== verification/EvmTermination.v ===== *)
(** * Gas and termination of the EVM

    Every instruction that lets the loop go on uses gas, a call never returns
    more gas than it was given, and the depth check bounds the nesting: so the
    bounds of [EvmInterp] on rounds and nested frames are never reached.
    Panics are allowed here ([wp True]); [EvmSafety] excludes them. *)

From stdpp Require Import base tactics list numbers gmap.
From S2P Require Import Prelude GoMath EvmParams EvmMachine EvmGas EvmAnalysis EvmInstr EvmTable.
From S2P Require Import EvmInterp EvmWp.

#[local] Open Scope Z_scope.

(** What the results about gas need of the static data: gas is metered at the
    prices of the protocol, and native contracts have a [uint64] price. *)
Record metered {DB} (env : Env DB) : Prop := {
  metered_on : DisableGasMetering (vmConfig env) = false;
  metered_table : gasTable env = GasTableEIP158;
  metered_price a p input : precompiles env a = Some p → is_u64 (RequiredGas p input) }.

(** What a client of an entry point may rely on: the depth is restored and at
    most the supplied gas comes back. *)
Definition gas_back {DB} (e : EVM DB) (gas : Z) (r : CallRes) (e' : EVM DB) : Prop :=
  depth e' = depth e ∧ 0 ≤ cr_gas r ≤ gas.
Definition no_error {DB} (err : evm_error) (e : EVM DB) : Prop := False.

Record returns_gas {DB} (h : @Handlers DB) (e : EVM DB) : Prop := {
  rg_Call clr a i gas v : is_u64 gas →
    wp True (h_Call h clr a i gas v) (gas_back e gas) no_error e;
  rg_CallCode clr a i gas v : is_u64 gas →
    wp True (h_CallCode h clr a i gas v) (gas_back e gas) no_error e;
  rg_DelegateCall clr a i gas : is_u64 gas →
    wp True (h_DelegateCall h clr a i gas) (gas_back e gas) no_error e;
  rg_StaticCall clr a i gas : is_u64 gas →
    wp True (h_StaticCall h clr a i gas) (gas_back e gas) no_error e;
  rg_Create clr i gas v : is_u64 gas →
    wp True (h_Create h clr i gas v) (λ r, gas_back e gas (snd r)) no_error e }.

Section gas_facts.
Context {DB : Type} {db_ops : StateDB DB} (env : Env DB) (Hm : metered env).

#[local] Abbreviation X := (@X DB).

(** ** Code that leaves the contract and the depth alone *)

Definition same (f f' : Frame DB) : Prop :=
  contract f' = contract f ∧ depth (evm f') = depth (evm f).
#[local] Instance same_preorder : PreOrder same.
Proof. split; [done|]. intros f g k [? ?] [? ?]. split; congruence. Qed.

Definition gives {A} (m : X A) (Q : A → Prop) : Prop :=
  ∀ f, wp True m (λ a f', Q a ∧ same f f') (λ _ f', same f f') f.
Abbreviation keeps m := (gives m (λ _, True)).

Lemma gives_bind {A B} (m : X A) (k : A → X B) Q R :
  gives m Q → (∀ a, Q a → gives (k a) R) → gives (m ≫= k) R.
Proof.
  intros Hk Ha f. apply wp_bind. eapply wp_mono; [apply Hk|done| |done].
  intros a f1 [Hq Hs]. eapply wp_mono; [by apply Ha|done| |]; simpl.
  - intros b f2 [? ?]. split; [done|]. by etrans.
  - intros e f2 ?. by etrans.
Qed.

Lemma gives_mono {A} (m : X A) (Q R : A → Prop) : gives m Q → (∀ a, Q a → R a) → gives m R.
Proof. intros Hk Ha f. eapply wp_mono; [apply Hk|done| |done]. intros a f' [? ?]. auto. Qed.

Lemma keeps_bind {A B} (m : X A) (k : A → X B) R :
  keeps m → (∀ a, gives (k a) R) → gives (m ≫= k) R.
Proof. intros. eapply gives_bind; eauto. Qed.

Lemma gives_ret {A} (a : A) (Q : A → Prop) : Q a → gives (mret a) Q.
Proof. intros ? f. by split. Qed.
Lemma gives_gets {A} (g : Frame DB → A) (Q : A → Prop) : (∀ f, Q (g f)) → gives (gets g) Q.
Proof. intros ? f. by split. Qed.
Lemma gives_fail {A} e (Q : A → Prop) : gives (fail e) Q.
Proof. intros f. done. Qed.
Lemma gives_panic {A} (Q : A → Prop) : gives panic Q.
Proof. intros f. done. Qed.
Lemma gives_lift {A} (o : outcome evm_error A) (Q : A → Prop) :
  match o with Val a => Q a | NoFuel => False | _ => True end → gives (lift o) Q.
Proof. intros ? f. by destruct o. Qed.
Lemma keeps_or_panic {A} (o : option A) : keeps (or_panic o).
Proof. intros f. by destruct o. Qed.
Lemma keeps_set_pc p : keeps (set_pc p).
Proof. intros f. done. Qed.
Lemma keeps_set_stack st : keeps (set_stack st).
Proof. intros f. done. Qed.
Lemma keeps_set_memory m : keeps (set_memory m).
Proof. intros f. done. Qed.
Lemma keeps_db_read {A} (g : DB → DB * A) : keeps (db_read g).
Proof. intros f. unfold db_read, wpg. simpl. unfold mbind, X_bind, M_bind. simpl. by destruct (g _). Qed.
Lemma keeps_db_write (g : DB → DB) : keeps (db_write g).
Proof. intros f. done. Qed.
Lemma gives_safe r (Q : Z → Prop) : (snd r = false → Q (fst r)) → gives (safe r) Q.
Proof. intros ? f. unfold safe. destruct (snd r); [done|]. split; [auto|done]. Qed.
Lemma keeps_pop : keeps pop.
Proof. intros f. unfold wpg, pop. simpl. unfold mbind, X_bind, M_bind. simpl. by destruct (Stack_pop _). Qed.
Lemma keeps_push d : keeps (push d).
Proof. intros f. done. Qed.
Lemma keeps_set_returnData r : keeps (e ← gets evm; set_evm (set_returnData r e)).
Proof. intros f. done. Qed.
Lemma keeps_Back n : keeps (Back n).
Proof. unfold Back. apply keeps_bind; [by apply gives_gets|]. intros. apply keeps_or_panic. Qed.
Lemma keeps_set_top v : keeps (set_top v).
Proof. intros f. unfold wpg, set_top. simpl. unfold mbind, X_bind, M_bind. simpl. by destruct (stack f). Qed.
Lemma keeps_jumpdest_ok p : keeps (jumpdest_ok p).
Proof.
  intros f. unfold wpg, jumpdest_ok. simpl. unfold mbind, X_bind, M_bind. simpl.
  destruct (has _ _ _ _) as [d []]; done.
Qed.

#[local] Hint Resolve keeps_pop keeps_push keeps_Back keeps_set_top keeps_jumpdest_ok
  keeps_or_panic keeps_set_pc keeps_set_stack keeps_set_memory keeps_db_read keeps_db_write
  gives_fail gives_panic : hpb.

(** Walks through a program, whose head constant it unfolds if need be. *)
Ltac gives_step :=
  cbv beta zeta;
  lazymatch goal with
  | |- gives (mbind _ _) _ => apply keeps_bind; [|intros ?]
  | |- gives (mret _) _ => apply gives_ret
  | |- gives (gets _) _ => apply gives_gets; intros ?
  | |- gives (fail _) _ => apply gives_fail
  | |- gives (match ?x with _ => _ end) _ => destruct x eqn:?
  | |- gives _ _ => solve [auto with hpb nocore]
  end.
Ltac gives_go := repeat (gives_step; try done).

Lemma keeps_mem_Set o n v : keeps (mem_Set o n v).
Proof. unfold mem_Set. gives_go. Qed.
Lemma keeps_mem_Get o n : keeps (mem_Get o n).
Proof. unfold mem_Get. gives_go. Qed.
Lemma keeps_mem_GetPtr o n : keeps (mem_GetPtr o n).
Proof. unfold mem_GetPtr. gives_go. Qed.
Lemma keeps_pop_topics n : keeps (pop_topics n).
Proof. induction n; simpl; gives_go. Qed.
#[local] Hint Resolve keeps_mem_Set keeps_mem_Get keeps_mem_GetPtr keeps_pop_topics : hpb.

(** ** Gas costs *)

Definition price (lo c : Z) : Prop := is_u64 c ∧ lo ≤ c.

Lemma price_weaken a b c : price a c → b ≤ a → price b c.
Proof. unfold price. intuition lia. Qed.
Lemma price_u64 x : price 0 (u64 x).
Proof. pose proof (u64_range x). unfold price, is_u64 in *. lia. Qed.

Lemma SafeAdd_price a b x y : price a x → price b y → 0 ≤ a → 0 ≤ b →
  snd (SafeAdd x y) = false → price (a + b) (fst (SafeAdd x y)).
Proof.
  intros [Hx ?] [Hy ?] ? ?. rewrite SafeAdd_spec by done. simpl. intros E.
  apply bool_decide_eq_false in E. unfold price, is_u64 in *.
  rewrite u64_small by (unfold is_u64; lia). lia.
Qed.
Lemma gives_SafeAdd a b x y : price a x → price b y → 0 ≤ a → 0 ≤ b →
  gives (safe (SafeAdd x y)) (price (a + b)).
Proof. intros. by apply gives_safe, SafeAdd_price. Qed.
Lemma gives_SafeMul x y : gives (safe (SafeMul x y)) (price 0).
Proof.
  apply gives_safe. intros _. unfold SafeMul. case_if; simpl; [by unfold price, is_u64|].
  apply price_u64.
Qed.
Lemma gives_bigUint64 x : gives (safe (bigUint64 x)) (price 0).
Proof. apply gives_safe. intros _. apply price_u64. Qed.

Lemma gives_mem_GasCost n : gives (mem_GasCost n) (price 0).
Proof.
  unfold mem_GasCost. apply keeps_bind; [by apply gives_gets|]. intros m.
  unfold memoryGasCost. repeat case_if; cbv zeta;
    (apply keeps_bind; [apply keeps_set_memory|intros _]); apply gives_lift; try done;
    apply price_u64.
Qed.

Lemma price_refl c : is_u64 c → price c c.
Proof. by split. Qed.

(** Costs are sums that are checked for overflow. *)
Ltac price_tac :=
  try match goal with |- price _ (if _ then _ else _) => case_match end;
  first
  [ eassumption | apply price_u64
  | apply price_refl; solve [by unfold is_u64]
  | solve [split; [by unfold is_u64|done]] ].
Ltac add_tac := eapply gives_SafeAdd; [price_tac|price_tac|done..].
Ltac price_step :=
  cbv beta zeta;
  lazymatch goal with
  | |- gives (mbind _ (mem_GasCost _)) _ => eapply gives_bind; [apply gives_mem_GasCost|intros ? ?]
  | |- gives (mbind _ (safe (SafeAdd _ _))) _ => eapply gives_bind; [add_tac|intros ? ?]
  | |- gives (mbind _ (safe (SafeMul _ _))) _ => eapply gives_bind; [apply gives_SafeMul|intros ? ?]
  | |- gives (mbind _ (safe (bigUint64 _))) _ => eapply gives_bind; [apply gives_bigUint64|intros ? ?]
  | |- gives (safe (SafeAdd _ _)) _ =>
      eapply gives_mono; [add_tac|intros ? ?; eapply price_weaken; [eassumption|done]]
  | |- gives (mem_GasCost _) _ => apply gives_mem_GasCost
  | |- gives _ _ => gives_step
  | |- price _ _ => price_tac
  | |- True => exact I
  end.
Ltac price_go := rewrite ?(metered_table _ Hm); repeat price_step.

Lemma gives_gasCallDataCopy n : gives (gasCallDataCopy n) (price 1).
Proof. unfold gasCallDataCopy. price_go. Qed.
Lemma gives_gasReturnDataCopy n : gives (gasReturnDataCopy n) (price 1).
Proof. unfold gasReturnDataCopy. price_go. Qed.
Lemma gives_gasCodeCopy n : gives (gasCodeCopy n) (price 1).
Proof. unfold gasCodeCopy. price_go. Qed.
Lemma gives_gasExtCodeCopy n : gives (gasExtCodeCopy env n) (price 1).
Proof. unfold gasExtCodeCopy. price_go. Qed.
Lemma gives_gasSStore n : gives (gasSStore n) (price 1).
Proof. unfold gasSStore. price_go. Qed.
Lemma gives_makeGasLog k n : gives (makeGasLog k n) (price 1).
Proof. unfold makeGasLog. price_go. Qed.
Lemma gives_gasSha3 n : gives (gasSha3 n) (price 1).
Proof. unfold gasSha3. price_go. Qed.
Lemma gives_gasMLoad n : gives (gasMLoad n) (price 1).
Proof. unfold gasMLoad. price_go. Qed.
Lemma gives_gasCreate n : gives (gasCreate n) (price 1).
Proof. unfold gasCreate. price_go. Qed.
Lemma gives_gasExp n : gives (gasExp env n) (price 1).
Proof. unfold gasExp. price_go. Qed.
Lemma gives_gasSuicide n : gives (gasSuicide env n) (price 0).
Proof. unfold gasSuicide. price_go. Qed.

(** ** Operations *)

(** At least [k] gas less, and the depth as before. *)
Definition below (k : Z) (f f' : Frame DB) : Prop :=
  depth (evm f') = depth (evm f) ∧ 0 ≤ Gas (contract f') ≤ Gas (contract f) - k.

Lemma below_refl f : is_u64 (Gas (contract f)) → below 0 f f.
Proof. unfold below, is_u64. lia. Qed.
Lemma below_same k f f1 f2 : below k f f1 → same f1 f2 → below k f f2.
Proof. unfold below. intros [? ?] [-> ->]. done. Qed.
Lemma below_le k k' f f' : below k f f' → k' ≤ k → below k' f f'.
Proof. unfold below. intuition lia. Qed.
Lemma same_below f f' : is_u64 (Gas (contract f)) → same f f' → below 0 f f'.
Proof. intros ? ?. eapply below_same; [by apply below_refl|done]. Qed.

(** What one round of the loop must use up, unless the frame ends. *)
Definition least_cost (o : @operation DB) : Z := if reverts o || halts o then 0 else 1.

(** Charging for an operation and executing it: the memory may be resized in
    between. *)
Definition op_uses_gas (d : Z) (o : @operation DB) : Prop := ∀ ms f,
  depth (evm f) = d → is_u64 (Gas (contract f)) →
  wp True (charge env o ms)
    (λ _ f1, ∀ m, wp True (execute_op o) (λ _, below (least_cost o) f) (λ _, below 0 f)
                     (with_memory m f1))
    (λ _, below 0 f) f.

Lemma UseGas_true c g c' : is_u64 (Gas c) → 0 ≤ g → UseGas g c = (c', true) →
  c' = set_Gas (Gas c - g) c ∧ g ≤ Gas c.
Proof.
  unfold UseGas. intros Hc Hg ?. case_match eqn:E; simplify_eq. zbool.
  rewrite u64_small by (unfold is_u64 in *; lia). done.
Qed.

Lemma least_cost_range o : 0 ≤ least_cost o ≤ 1.
Proof. unfold least_cost. case_match; lia. Qed.

(** An operation whose price is known and whose execution gains no gas. *)
Lemma priced_uses_gas d o :
  (∀ ms, gives (gasCost o ms) (price (least_cost o))) →
  (∀ f, depth (evm f) = d → is_u64 (Gas (contract f)) →
     wp True (execute o) (λ _, below 0 f) (λ _, below 0 f) f) → op_uses_gas d o.
Proof.
  intros Hcost Hex ms f Hd Hg. unfold charge. rewrite (metered_on _ Hm).
  apply wp_X_bind, wp_as_out_of_gas. eapply wp_mono; [apply Hcost|done| |];
    [|intros; by apply same_below].
  intros c f1 [[Hc Hlo] Hs]. apply wp_X_bind, wp_gets. rewrite (proj1 Hs).
  pose proof (least_cost_range o).
  destruct (UseGas c (contract f)) as [c' []] eqn:EU; [|by apply wp_fail, same_below].
  destruct Hs as [_ Hs]. unfold is_u64 in *.
  apply UseGas_true in EU as [-> Hle]; [|done|lia].
  apply wp_set_contract. intros m. apply wp_execute_op.
  eapply wp_mono; [apply Hex; unfold is_u64; simpl; [congruence|lia]|done| |];
    unfold below; simpl; intros ? f2 [? ?]; destruct (returns o); simpl; (split; [congruence|lia]).
Qed.

(** Operations that do not start a frame. *)
Lemma plain_uses_gas d o :
  (∀ ms, gives (gasCost o ms) (price (least_cost o))) → keeps (execute o) → op_uses_gas d o.
Proof.
  intros Hcost Hex. apply priced_uses_gas; [done|]. intros f Hd Hg.
  eapply wp_mono; [apply Hex|done| |]; simpl; intros; apply same_below; intuition.
Qed.

(** ** Calls

    A call costs a base fee plus the gas handed over, which the gas function
    leaves on top of the stack for the instruction to pop. *)

Definition valued (rest : list Z) : Prop :=
  match rest !! 1%nat with Some v => U256 v ≠ 0 | None => False end.

(** [fee] is a lower bound of the base fee, given the items under the top. *)
Definition call_price (fee : list Z → Z → Prop) (m : X Z) : Prop := ∀ f,
  wp True m
    (λ c f', same f f' ∧ ∃ cg base rest, stack f' = cg :: rest ∧ is_u64 cg ∧
       c = base + cg ∧ is_u64 c ∧ fee rest base)
    (λ _ f', same f f') f.

Definition fee_valued (rest : list Z) (base : Z) : Prop :=
  GasTableEIP158.(gt_Calls) ≤ base ∧ (valued rest → CallValueTransferGas ≤ base).
Definition fee_plain (rest : list Z) (base : Z) : Prop := GasTableEIP158.(gt_Calls) ≤ base.

Lemma callGas_u64 gt g b c : match callGas gt g b c with Val cg => is_u64 cg | NoFuel => False | _ => True end.
Proof. unfold callGas. repeat case_match; simplify_eq; try done; apply u64_range. Qed.

(** After code that keeps the stack, [finish_call_gas] prices the call. *)
Lemma finish_call_gas_price gas (fee : list Z → Z → Prop) f0 f :
  price 0 gas → same f0 f → (∀ x rest, stack f = x :: rest → fee rest gas) →
  wp True (finish_call_gas env gas)
    (λ c f', same f0 f' ∧ ∃ cg base rest, stack f' = cg :: rest ∧ is_u64 cg ∧
       c = base + cg ∧ is_u64 c ∧ fee rest base)
    (λ _ f', same f0 f') f.
Proof.
  intros [Hg Hg0] Hs Hfee. unfold finish_call_gas. do 2 wp_step. do 2 wp_step.
  destruct (stack f) as [|x rest] eqn:Est; [done|]. simpl. do 2 wp_step.
  pose proof (callGas_u64 (gasTable env) (Gas (contract f)) gas x) as Hcg.
  destruct (callGas _ _ _ _) as [cg| | |]; [|done..].
  do 2 wp_step. rewrite Est. rewrite SafeAdd_spec by done.
  apply wp_safe; simpl; intros Eb; [|done]. apply bool_decide_eq_false in Eb.
  unfold is_u64 in *. rewrite u64_small by (unfold is_u64; lia).
  split; [done|]. exists cg, gas, rest. split_and!; eauto; lia.
Qed.

Lemma wp_mem_GasCost_price n Q E (f : Frame DB) :
  (∀ c m, price 0 c → Q c (with_memory m f)) → (∀ e m, E e (with_memory m f)) →
  wp True (mem_GasCost n) Q E f.
Proof.
  intros HQ HE. apply wp_mem_GasCost. unfold memoryGasCost. repeat case_if; cbv zeta.
  all: first [apply HE | apply HQ; first [apply price_u64 | by unfold price, is_u64]].
Qed.

Lemma wp_SafeAdd_price a b x y Q E (f : Frame DB) :
  price a x → price b y → 0 ≤ a → 0 ≤ b →
  (∀ c, price (a + b) c → Q c f) → (∀ e, E e f) → wp True (safe (SafeAdd x y)) Q E f.
Proof.
  intros Hx Hy Ha Hb HQ HE. apply wp_safe; intros Eb; [|done].
  by apply HQ, SafeAdd_price.
Qed.

Lemma gasDelegateCall_price ms : call_price fee_plain (gasDelegateCall env ms).
Proof.
  intros f. unfold gasDelegateCall. rewrite (metered_table _ Hm). wp_step.
  apply wp_mem_GasCost_price; [|done]. intros c m Hc. wp_step.
  eapply wp_SafeAdd_price; [exact Hc|by apply price_refl|done|done| |done].
  intros g Hg. apply finish_call_gas_price; [by eapply price_weaken|done|].
  intros. apply Hg.
Qed.
Lemma gasStaticCall_price ms : call_price fee_plain (gasStaticCall env ms).
Proof. apply gasDelegateCall_price. Qed.

Lemma call_price_value (v gas : Z) (w : bool) ms f0 f :
  stack f !! 2%nat = Some v → same f0 f →
  gas = (if negb (big_Sign v =? 0) then u64 ((if w then u64 (700 + CallNewAccountGas) else 700) + CallValueTransferGas)
         else 700) →
  wp True (memoryGas ← mem_GasCost ms; gas ← safe (SafeAdd gas memoryGas); finish_call_gas env gas)
    (λ c f', same f0 f' ∧ ∃ cg base rest, stack f' = cg :: rest ∧ is_u64 cg ∧
       c = base + cg ∧ is_u64 c ∧ fee_valued rest base)
    (λ _ f', same f0 f') f.
Proof.
  intros Hv Hs ->. wp_step. apply wp_mem_GasCost_price; [|done]. intros mg m Hmg. wp_step.
  eapply (wp_SafeAdd_price (if negb (big_Sign v =? 0) then 9700 else 700));
    [by destruct (negb _), w; split|exact Hmg|by case_match|done| |done].
  intros g Hg. apply finish_call_gas_price; [eapply price_weaken; [done|by case_match]|done|].
  simpl. intros x rest Est. rewrite Est in Hv. simpl in Hv. destruct Hg as [_ Hg].
  unfold fee_valued, valued, CallValueTransferGas. simpl. rewrite Hv.
  rewrite big_Sign_eqb in Hg. destruct (v =? 0) eqn:Ev; simpl in Hg; zbool; [|lia].
  subst v. split; [lia|done].
Qed.

Lemma gasCall_price ms : call_price fee_valued (gasCall env ms).
Proof.
  intros f. unfold gasCall. rewrite (metered_table _ Hm). do 2 wp_step.
  destruct (stack f !! 2%nat) as [v|] eqn:Ev; [|done]. do 2 wp_step.
  destruct (stack f !! 1%nat); [|done]. wp_step.
  destruct (negb (big_Sign v =? 0)) eqn:Et; wp_step.
  - eapply call_price_value; [exact Ev|done|]. by rewrite Et.
  - by eapply (call_price_value v _ false); [exact Ev|done|rewrite Et].
Qed.
Lemma gasCallCode_price ms : call_price fee_valued (gasCallCode env ms).
Proof.
  intros f. unfold gasCallCode. rewrite (metered_table _ Hm). do 2 wp_step.
  destruct (stack f !! 2%nat) as [v|] eqn:Ev; [|done]. cbv zeta.
  by apply (call_price_value v _ false).
Qed.

(** The end of a call adds what came back to the frame's gas. *)
Lemma wp_finish_call o n r (Q : list byte → Frame DB → Prop) E f :
  (∀ st m, Q (cr_ret r) (mkFrame (pc f) st m (set_Gas (u64 (Gas (contract f) + cr_gas r)) (contract f)) (evm f))) →
  wp True (finish_call o n r) Q E f.
Proof.
  intros HQ. unfold finish_call, return_gas. wp_step.
  apply wp_mono with (P := True) (Q := λ _ f', f' = with_stack (stack f') f) (E := λ _ _, False);
    [destruct (cr_err r); by wp_step|done| |done].
  intros _ f1 ->. wp_step.
  apply wp_mono with (P := True) (E := λ _ _, False)
    (Q := λ _ f', f' = with_memory (memory f') (with_stack (stack f1) f)); [|done| |done].
  { case_match; [|done]. wp_step. by destruct (Memory_Set _ _ _ _). }
  intros _ f2 ->. repeat wp_step. apply HQ.
Qed.

(** Executing a call after it was paid for. *)
Lemma call_uses_gas d o fee (fwd : list Z → Z → Z) :
  (∀ ms, call_price fee (gasCost o ms)) →
  (∀ rest base g, fee rest base → is_u64 g → 0 ≤ fwd rest g < g + base) →
  (∀ f g rest, depth (evm f) = d → stack f = g :: rest → is_u64 g → is_u64 (fwd rest g) →
     wp True (execute o)
       (λ _ f', depth (evm f') = d ∧ ∃ back, 0 ≤ back ≤ fwd rest g ∧
          Gas (contract f') = u64 (Gas (contract f) + back))
       (λ _ _, False) f) →
  op_uses_gas d o.
Proof.
  intros Hcost Hfwd Hex ms f Hd Hg. unfold charge. rewrite (metered_on _ Hm).
  apply wp_X_bind, wp_as_out_of_gas. eapply wp_mono; [apply Hcost|done| |];
    [|intros; by apply same_below].
  intros c f1 [Hs (cg & base & rest & Hst & Hcg & -> & Hc & Hfee)].
  apply wp_X_bind, wp_gets. rewrite (proj1 Hs).
  destruct (UseGas (base + cg) (contract f)) as [c' []] eqn:EU; [|by apply wp_fail, same_below].
  apply UseGas_true in EU as [-> Hle]; [|done|unfold is_u64 in *; lia].
  pose proof (Hfwd _ _ cg Hfee Hcg). unfold is_u64 in *.
  apply wp_set_contract. intros m. apply wp_execute_op.
  eapply wp_mono; [apply (Hex _ cg rest); simpl; [by destruct Hs; congruence|done|done|unfold is_u64; lia]
                  |done| |done]. simpl.
  intros r f2 [Hd2 (back & Hback & HG)]. pose proof (least_cost_range o).
  rewrite u64_small in HG by (unfold is_u64; lia).
  destruct (returns o); unfold below; simpl; rewrite HG; (split; [congruence|lia]).
Qed.

Section frames.
Context (h : @Handlers DB) (d : Z) (Hh : ∀ e, depth e = d → returns_gas h e).

(** The gas handed to the new frame includes the stipend of a value call. *)
Definition with_stipend (rest : list Z) (g : Z) : Z :=
  match rest !! 1%nat with
  | Some v => if big_Sign (U256 v) =? 0 then g else g + CallStipend
  | None => g
  end.

Lemma with_stipend_fee rest base g :
  fee_valued rest base → is_u64 g → 0 ≤ with_stipend rest g < g + base.
Proof.
  unfold fee_valued, valued, with_stipend, is_u64, CallValueTransferGas, CallStipend. simpl.
  intros [Hb Hv] Hg. destruct (rest !! 1%nat) as [v|]; [|lia].
  rewrite big_Sign_eqb. case_if; [lia|]. specialize (Hv E). lia.
Qed.

Lemma with_stipend_gas v x rest g : is_u64 g → is_u64 (with_stipend (x :: v :: rest) g) →
  (if negb (big_Sign (U256 v) =? 0) then u64 (big_Uint64 g + CallStipend) else big_Uint64 g)
  = with_stipend (x :: v :: rest) g.
Proof.
  unfold with_stipend. simpl. intros Hg. rewrite big_Uint64_small by done.
  case_if; simpl; [done|]. by intros ?%u64_small.
Qed.

Lemma wp_call_finish (c : @H DB CallRes) gas bound o n G f :
  wp True c (gas_back (evm f) gas) no_error (evm f) → gas = bound →
  depth (evm f) = d → Gas (contract f) = G →
  wp True (call_evm c)
    (λ a, wp True (finish_call o n a)
       (λ _ f', depth (evm f') = d ∧ ∃ back, 0 ≤ back ≤ bound ∧
          Gas (contract f') = u64 (G + back)) (λ _ _, False))
    (λ _ _, False) f.
Proof.
  intros Hc -> Hd HG. apply wp_call_evm. eapply wp_mono; [exact Hc|done| |done].
  intros r e [He Hr]. apply wp_finish_call. intros st m. simpl. split; [congruence|].
  exists (cr_gas r). by rewrite HG.
Qed.

(** Pops an argument, if the stack has one. *)
Tactic Notation "pop_arg" ident(st) :=
  wp_step; wp_step; simpl;
  lazymatch goal with |- match ?s with _ => _ end => destruct s as [|? st]; [done|] end.
(** Pops the gas and the other arguments of a call, and reads its input. *)
Tactic Notation "call_args" integer(n) ident(rest) ident(Hg) ident(Hw) :=
  let Est := fresh "Est" in
  intros ? ? rest ? Est Hg Hw; simpl; wp_step; wp_step; rewrite Est; do n pop_arg rest;
  wp_step; wp_step; destruct (Memory_Get _ _ _); [|done]; do 3 wp_step.

Lemma opCall_uses_gas vs ms : op_uses_gas d (op_entry (opCall h) (gasCall env) vs ms [F_returns]).
Proof.
  apply (call_uses_gas d _ fee_valued with_stipend);
    [apply gasCall_price|apply with_stipend_fee|].
  unfold opCall. call_args 6 rest Hg Hw.
  eapply wp_call_finish; [apply rg_Call; [by apply Hh|]| |done|done];
    by rewrite (with_stipend_gas _ _ _ _ Hg Hw).
Qed.
Lemma opCallCode_uses_gas vs ms : op_uses_gas d (op_entry (opCallCode h) (gasCallCode env) vs ms [F_returns]).
Proof.
  apply (call_uses_gas d _ fee_valued with_stipend);
    [apply gasCallCode_price|apply with_stipend_fee|].
  unfold opCallCode. call_args 6 rest Hg Hw.
  eapply wp_call_finish; [apply rg_CallCode; [by apply Hh|]| |done|done];
    by rewrite (with_stipend_gas _ _ _ _ Hg Hw).
Qed.

Lemma fee_plain_forward rest base g : fee_plain rest base → is_u64 g → 0 ≤ g < g + base.
Proof. unfold fee_plain, is_u64. simpl. lia. Qed.

Lemma opDelegateCall_uses_gas vs ms :
  op_uses_gas d (op_entry (opDelegateCall h) (gasDelegateCall env) vs ms [F_returns]).
Proof.
  apply (call_uses_gas d _ fee_plain (λ _ g, g));
    [apply gasDelegateCall_price|apply fee_plain_forward|].
  unfold opDelegateCall. call_args 5 rest Hg Hw.
  eapply wp_call_finish; [apply rg_DelegateCall; [by apply Hh|apply big_Uint64_range]| |done|done].
  by apply big_Uint64_small.
Qed.
Lemma opStaticCall_uses_gas vs ms :
  op_uses_gas d (op_entry (opStaticCall h) (gasStaticCall env) vs ms [F_returns]).
Proof.
  apply (call_uses_gas d _ fee_plain (λ _ g, g));
    [apply gasStaticCall_price|apply fee_plain_forward|].
  unfold opStaticCall. call_args 5 rest Hg Hw.
  eapply wp_call_finish; [apply rg_StaticCall; [by apply Hh|apply big_Uint64_range]| |done|done].
  by apply big_Uint64_small.
Qed.

Lemma all_but_one_64th G : is_u64 G → 0 ≤ G - G / 64 ≤ G.
Proof.
  unfold is_u64. intros. pose proof (Z.div_mod G 64 ltac:(lia)).
  pose proof (Z.mod_pos_bound G 64 ltac:(lia)). lia.
Qed.

Lemma opCreate_gas f : depth (evm f) = d → is_u64 (Gas (contract f)) →
  wp True (opCreate h) (λ _, below 0 f) (λ _, below 0 f) f.
Proof.
  intros Hd HG. unfold opCreate. wp_step. wp_step. destruct (stack f) as [|v rest]; [done|].
  do 2 pop_arg rest. wp_step. wp_step. destruct (Memory_Get _ _ _) as [input|]; [|done].
  do 3 wp_step. simpl. pose proof (all_but_one_64th _ HG) as Hall. unfold is_u64 in HG.
  rewrite u64_small by (unfold is_u64; lia). set (g := Gas (contract f) - _) in *.
  unfold UseGas. case_if; [lia|]. simpl. wp_step. wp_step. wp_step.
  eapply wp_mono; [apply rg_Create; [by apply Hh|unfold is_u64; lia]|done| |done].
  intros [addr r] e [He Hr]. simpl in Hr. cbv beta. unfold return_gas.
  apply wp_X_bind. apply wp_mono with (P := True) (E := λ _ _, False)
    (Q := λ _ f', contract f' = set_Gas (u64 (Gas (contract f) - g)) (contract f) ∧ evm f' = e);
    [by repeat case_match|done| |done].
  intros _ f1 [Hc1 He1]. repeat wp_step. rewrite Hc1. simpl.
  rewrite !u64_small by (rewrite ?u64_small; unfold is_u64; lia).
  case_match; wp_step; unfold below; simpl; (split; [by rewrite He1, He|lia]).
Qed.
Lemma opCreate_uses_gas vs ms fl : op_uses_gas d (op_entry (opCreate h) gasCreate vs ms fl).
Proof.
  apply priced_uses_gas; [|apply opCreate_gas]. intros n.
  eapply gives_mono; [apply gives_gasCreate|].
  intros c Hc. eapply price_weaken; [exact Hc|apply least_cost_range].
Qed.

#[local] Hint Resolve gives_gasCallDataCopy gives_gasReturnDataCopy gives_gasCodeCopy
  gives_gasExtCodeCopy gives_gasSStore gives_makeGasLog gives_gasSha3 gives_gasMLoad
  gives_gasCreate gives_gasExp gives_gasSuicide gives_mem_GasCost : hpb.
#[local] Hint Resolve opCall_uses_gas opCallCode_uses_gas opDelegateCall_uses_gas
  opStaticCall_uses_gas opCreate_uses_gas : hpb.

Ltac unfold_head :=
  lazymatch goal with
  | |- gives ?m _ => let rec go t := lazymatch t with ?t' _ => go t' | ?c => unfold c end in go m
  end.
Ltac plain_op :=
  apply plain_uses_gas; simpl execute; simpl gasCost;
  [ intros ms; cbv [least_cost op_entry halts reverts];
    repeat match goal with |- context [bool_decide ?p] =>
      let b := eval vm_compute in (bool_decide p) in change (bool_decide p) with b end; simpl;
    first [ solve [auto with hpb nocore]
          | unfold_head; rewrite ?(metered_table _ Hm); first
            [ solve [auto with hpb nocore]
            | apply gives_ret; split; [by unfold is_u64|done] ] ]
  | unfold_head; gives_go ].

Ltac table_op :=
  intros op o; destruct op;
  cbv beta iota delta [frontier_0x00 frontier_0x30 frontier_0x50 frontier_0x60
    frontier_0x70 frontier_0x80 frontier_0x90 frontier_0xa0];
  intros Ho; simplify_eq;
  first [ solve [auto with hpb nocore] | plain_op ].

Lemma frontier_0x00_gas : ∀ op o, frontier_0x00 env op = Some o → op_uses_gas d o.
Proof. table_op. Qed.
Lemma frontier_0x30_gas : ∀ op o, frontier_0x30 env op = Some o → op_uses_gas d o.
Proof. table_op. Qed.
Lemma frontier_0x50_gas : ∀ op o, frontier_0x50 env op = Some o → op_uses_gas d o.
Proof. table_op. Qed.
Lemma frontier_0x60_gas : ∀ op o, frontier_0x60 op = Some o → op_uses_gas d o.
Proof. table_op. Qed.
Lemma frontier_0x70_gas : ∀ op o, frontier_0x70 op = Some o → op_uses_gas d o.
Proof. table_op. Qed.
Lemma frontier_0x80_gas : ∀ op o, frontier_0x80 op = Some o → op_uses_gas d o.
Proof. table_op. Qed.
Lemma frontier_0x90_gas : ∀ op o, frontier_0x90 op = Some o → op_uses_gas d o.
Proof. table_op. Qed.
Lemma frontier_0xa0_gas : ∀ op o, frontier_0xa0 env h op = Some o → op_uses_gas d o.
Proof. table_op. Qed.

Lemma frontier_gas op o : NewFrontierInstructionSet env h op = Some o → op_uses_gas d o.
Proof.
  unfold NewFrontierInstructionSet. intros Ho. repeat (case_match; [simplify_eq|]);
    eauto using frontier_0x00_gas, frontier_0x30_gas, frontier_0x50_gas, frontier_0x60_gas,
      frontier_0x70_gas, frontier_0x80_gas, frontier_0x90_gas, frontier_0xa0_gas.
Qed.

Lemma ops_use_gas op o : NewByzantiumInstructionSet env h op = Some o → op_uses_gas d o.
Proof.
  intros Ho. destruct op; try exact (frontier_gas _ _ Ho);
    cbv beta iota delta [NewByzantiumInstructionSet NewHomesteadInstructionSet] in Ho; simplify_eq;
    first [ solve [auto with hpb nocore] | plain_op ].
Qed.

Lemma ops_memory_keeps op o m :
  NewByzantiumInstructionSet env h op = Some o → memorySize o = Some m → keeps m.
Proof.
  intros Ho. destruct op;
    cbv beta iota delta [NewByzantiumInstructionSet NewHomesteadInstructionSet NewFrontierInstructionSet
      frontier_0x00 frontier_0x30 frontier_0x50 frontier_0x60
      frontier_0x70 frontier_0x80 frontier_0x90 frontier_0xa0] in Ho;
    simplify_eq; cbv beta iota delta [op_entry memorySize]; intros; simplify_eq;
    unfold_head; gives_go.
Qed.

(** ** The loop *)

Lemma keeps_enforceRestrictions b o : keeps (enforceRestrictions (DB:=DB) b o).
Proof. unfold enforceRestrictions. gives_go. Qed.

Lemma required_memory_keeps op o :
  NewByzantiumInstructionSet env h op = Some o → keeps (required_memory o).
Proof.
  intros Ho. unfold required_memory. destruct (memorySize o) as [m|] eqn:Em; [|by apply gives_ret].
  apply keeps_bind; [by eapply ops_memory_keeps|]. intros sz.
  apply keeps_bind; [by apply gives_safe|]. intros. by apply gives_safe.
Qed.

Lemma below_trans k f f1 f2 : below 0 f f1 → below k f1 f2 → below k f f2.
Proof. unfold below. intros [? ?] [? ?]. split; [congruence|lia]. Qed.

Lemma below_u64 k f f' : is_u64 (Gas (contract f)) → 0 ≤ k → below k f f' → is_u64 (Gas (contract f')).
Proof. unfold below, is_u64. lia. Qed.

Lemma step_uses_gas f : depth (evm f) = d → is_u64 (Gas (contract f)) →
  wp True (step env h) (λ r, below (match r with Some _ => 0 | None => 1 end) f) (λ _, below 0 f) f.
Proof.
  intros Hd Hg. unfold step. do 4 wp_step. unfold JumpTable.
  destruct (OpCode_of_byte _) as [op|]; [|by apply wp_fail, below_refl].
  destruct (NewByzantiumInstructionSet env h op) as [o|] eqn:Ho; [|by apply wp_fail, below_refl].
  pose proof (ops_use_gas _ _ Ho) as Hop. do 2 wp_step.
  destruct (validateStack o _); [by apply wp_fail, below_refl|]. wp_step.
  eapply wp_mono; [apply keeps_enforceRestrictions|done| |intros; by apply same_below].
  intros _ f1 [_ Hs1]. wp_step.
  eapply wp_mono; [by eapply required_memory_keeps|done| |intros; apply same_below; [done|by etrans]].
  intros ms f2 [_ Hs2]. assert (Hs : same f f2) by by etrans. clear f1 Hs1 Hs2.
  assert (Hb : below 0 f f2) by by apply same_below.
  destruct Hs as [Hc Hd2]. wp_step.
  eapply wp_mono; [apply Hop; [congruence|by rewrite Hc]|done| |intros; by eapply below_trans].
  intros [] f3 Hf3. do 3 wp_step.
  assert (Hmem : ∃ m, wp True (if ms >? 0 then set_memory (Memory_Resize ms (memory f3)) else mret tt)
            (λ _ f4, f4 = with_memory m f3) (λ _ _, False) f3).
  { case_match; [eexists; by wp_step|]. exists (memory f3). wp_step. by destruct f3. }
  destruct Hmem as [m Hmem]. eapply wp_mono; [exact Hmem|done| |done].
  intros _ f4 ->. wp_step. specialize (Hf3 m). unfold least_cost in Hf3.
  eapply wp_mono; [exact Hf3|done| |intros; by eapply below_trans].
  intros res f5 Hf5. apply (below_trans _ _ _ _ Hb) in Hf5. do 2 wp_step.
  destruct (reverts o), (halts o), (jumps o); simpl in *; repeat wp_step; exact Hf5.
Qed.

Lemma Run_loop_terminates fuel f : depth (evm f) = d → is_u64 (Gas (contract f)) →
  Gas (contract f) < Z.of_nat fuel →
  wp True (Run_loop env h fuel) (λ _, below 0 f) (λ _, below 0 f) f.
Proof.
  revert f. induction fuel as [|fuel IH]; intros f Hd Hg Hf; [unfold is_u64 in Hg; lia|].
  simpl. do 2 wp_step. destruct (abort (evm f)); [by apply wp_X_ret, below_refl|]. wp_step.
  eapply wp_mono; [by apply step_uses_gas|done| |done]. intros [x|] f1 Hb; [by wp_step|].
  pose proof (below_u64 1 _ _ Hg ltac:(done) Hb). pose proof Hb as [? ?].
  eapply wp_mono; [apply IH; [congruence|done|lia]|done| |];
    simpl; intros; eapply below_trans; try done; by eapply below_le.
Qed.

(** ** Frames *)

(** What a frame leaves of the gas of its contract. *)
Definition leaves (e : EVM DB) (gas : Z) (r : Contract * (list byte * option evm_error)) (e' : EVM DB) : Prop :=
  depth e' = depth e ∧ 0 ≤ Gas (fst r) ≤ gas.

Lemma Run_terminates c input e : depth e + 1 = d → is_u64 (Gas c) →
  wp True (Run env h c input) (leaves e (Gas c)) no_error e.
Proof.
  intros Hd Hg. unfold Run, wpg. destruct (Zlen (Code c) =? 0); [unfold leaves; simpl; unfold is_u64 in Hg; lia|].
  set (f := mkFrame _ _ _ _ _). unfold loop_fuel.
  pose proof (Run_loop_terminates (S (Z.to_nat (Gas c))) f Hd Hg) as HR.
  unfold is_u64 in Hg. specialize (HR ltac:(simpl; lia)). unfold wpg in HR.
  destruct (Run_loop _ _ _ f) as [f' []]; [..|done]; unfold leaves, below in *; simpl in *; lia.
Qed.

Lemma RunPrecompiled_leaves a p c input e : precompiles env a = Some p → is_u64 (Gas c) →
  leaves e (Gas c) (RunPrecompiledContract p input c) e.
Proof.
  intros Hp Hg. unfold RunPrecompiledContract, leaves.
  pose proof (metered_price _ Hm a p input Hp) as Hr. unfold is_u64 in *.
  destruct (UseGas _ c) as [c' []] eqn:EU; simpl.
  - apply UseGas_true in EU as [-> ?]; [|done|lia]. simpl. lia.
  - unfold UseGas in EU. case_match; simplify_eq. lia.
Qed.

Lemma run_terminates c input e : depth e + 1 = d → is_u64 (Gas c) →
  wp True (run env h c input) (leaves e (Gas c)) no_error e.
Proof.
  intros Hd Hg. unfold run. destruct (CodeAddr c) as [a|]; [|by apply Run_terminates].
  destruct (precompiles env a) as [p|] eqn:Hp; [|by apply Run_terminates].
  by eapply RunPrecompiled_leaves.
Qed.
End frames.

(** ** Entry points *)

Lemma settle_gas id c err (e : EVM DB) : is_u64 (Gas c) →
  wp True (settle id c err) (λ c' e', depth e' = depth e ∧ 0 ≤ Gas c' ≤ Gas c) no_error e.
Proof.
  unfold is_u64. intros Hg. unfold settle. destruct err as [er|]; [|by repeat split; lia].
  apply wp_bind. unfold H_revert, wpg at 1.
  destruct (RevertToSnapshot id _); [|done]. simpl. case_match; [by repeat split; lia|].
  unfold UseGas. case_match; split; simpl; try done; zbool; [lia|].
  rewrite u64_small by (unfold is_u64; lia). lia.
Qed.

Lemma depth_new_jumpdests clr (e : EVM DB) : depth (new_jumpdests clr e) = depth e.
Proof. by destruct clr. Qed.

(** [n] levels of handlers are enough at depth [d]. *)
Definition enough (n : nat) (d : Z) : Prop := (1 ≤ n)%nat ∧ CallCreateDepth + 2 ≤ Z.of_nat n + d.

Section level.
Context (h : @Handlers DB) (n : nat).
Context (Hh : ∀ e, enough n (depth e) → returns_gas h e).

Lemma run_frame_gas c input gas (e e1 : EVM DB) :
  enough (S n) (depth e) → depth e ≤ CallCreateDepth → is_u64 gas → Gas c = gas →
  depth e1 = depth e →
  wp True (run env h c input) (leaves e gas) no_error e1.
Proof.
  unfold enough, CallCreateDepth. intros Hn Hd Hg <- He1.
  eapply wp_mono; [apply (run_terminates h (depth e + 1)); [|lia|done]|done| |done].
  - intros e' He'. apply Hh. unfold enough, CallCreateDepth. lia.
  - unfold leaves. intros r e' [? ?]. split; [congruence|done].
Qed.

Lemma run_settle_gas {A} id c input gas (e e1 : EVM DB)
    (k : Contract → list byte → option evm_error → @H DB A) Q :
  enough (S n) (depth e) → depth e ≤ CallCreateDepth → is_u64 gas → Gas c = gas →
  depth e1 = depth e →
  (∀ c ret err e', depth e' = depth e → 0 ≤ Gas c ≤ gas → wp True (k c ret err) Q no_error e') →
  wp True (res ← run env h c input;
           let '(contract, (ret, err)) := (res : Contract * (list byte * option evm_error)) in
           contract ← settle id contract err; k contract ret err)
    Q no_error e1.
Proof.
  intros Hn Hd Hg Hc He1 Hk. wp_H_step. eapply wp_mono; [by eapply run_frame_gas|done| |done].
  intros [c' [ret err]] e2 [He2 Hc']. simpl in Hc'. unfold is_u64 in *. wp_H_step.
  eapply wp_mono; [apply settle_gas; unfold is_u64; lia|done| |done].
  intros c2 e3 [? ?]. apply Hk; [congruence|lia].
Qed.

(** The early returns hand the gas back. *)
Lemma gas_back_all e ret gas err (e' : EVM DB) :
  is_u64 gas → depth e' = depth e → gas_back e gas (mkCallRes ret gas err) e'.
Proof. unfold gas_back, is_u64. simpl. lia. Qed.

Lemma gas_back_some (e : EVM DB) ret gas err (c : Contract) e' : depth e' = depth e → 0 ≤ Gas c ≤ gas →
  gas_back e gas (mkCallRes ret (Gas c) err) e'.
Proof. done. Qed.

Ltac entry_step :=
  cbv beta zeta;
  lazymatch goal with
  | |- wpg _ _ (mret _) _ _ _ => apply wp_H_ret; first [by apply gas_back_all | by apply gas_back_some | idtac]
  | |- wpg _ _ (mbind _ (run _ _ _ _)) _ _ _ =>
      eapply run_settle_gas; try done; try (simpl; by rewrite ?depth_new_jumpdests); intros
  | |- wpg _ _ (if ?b then _ else _) _ _ _ => destruct b eqn:?; zbool
  | |- wpg _ _ _ _ _ _ => wp_H_step
  end.

Lemma Call_returns clr a i gas v e : enough (S n) (depth e) → is_u64 gas →
  wp True (Call env h clr a i gas v) (gas_back e gas) no_error e.
Proof. intros Hn Hg. unfold Call. repeat entry_step. Qed.
Lemma CallCode_returns clr a i gas v e : enough (S n) (depth e) → is_u64 gas →
  wp True (CallCode env h clr a i gas v) (gas_back e gas) no_error e.
Proof. intros Hn Hg. unfold CallCode. repeat entry_step. Qed.
Lemma StaticCall_returns clr a i gas e : enough (S n) (depth e) → is_u64 gas →
  wp True (StaticCall env h clr a i gas) (gas_back e gas) no_error e.
Proof. intros Hn Hg. unfold StaticCall. repeat entry_step. Qed.
Lemma DelegateCall_returns clr a i gas e : enough (S n) (depth e) → is_u64 gas →
  wp True (DelegateCall env h clr a i gas) (gas_back e gas) no_error e.
Proof.
  intros Hn Hg. unfold DelegateCall. repeat entry_step.
  destruct (AsDelegate _) as [c|] eqn:Ec; [|done].
  assert (Gas c = gas) by (destruct clr; [discriminate|by injection Ec as <-]).
  repeat entry_step.
Qed.

(** Creation pays for the code it stores. *)
Lemma Create_returns clr code gas v e : enough (S n) (depth e) → is_u64 gas →
  wp True (Create env h clr code gas v) (λ r, gas_back e gas (snd r)) no_error e.
Proof.
  intros Hn Hg. unfold Create.
  repeat lazymatch goal with |- wpg _ _ (mbind _ (run _ _ _ _)) _ _ _ => fail | _ => entry_step end.
  - unfold gas_back, is_u64 in *. simpl. lia.
  - apply gas_back_all; [done|]. by rewrite depth_new_jumpdests.
  - wp_H_step. eapply wp_mono; [eapply run_frame_gas; try done; simpl; by rewrite depth_new_jumpdests|done| |done].
    intros [c [ret err]] e1 [He1 Hc]. simpl in Hc. cbv zeta. apply wp_H_bind.
    apply wp_mono with (P := True) (E := no_error)
      (Q := λ r e', depth e' = depth e ∧ 0 ≤ Gas (fst r) ≤ gas); [|done| |done].
    { case_match; [|by apply wp_H_ret]. unfold UseGas. case_if; [by apply wp_H_ret|].
      do 3 wp_H_step. split; [done|]. simpl.
      pose proof (u64_range (Zlen ret * CreateDataGas)) as Hr. unfold is_u64 in *.
      rewrite u64_small by (unfold is_u64; lia). lia. }
    intros [c1 err1] e2 [He2 Hc1]. simpl in Hc1. wp_H_step.
    eapply wp_mono; [apply settle_gas; unfold is_u64 in *; lia|done| |done].
    intros c2 e3 [He3 ?]. wp_H_step. unfold gas_back. simpl. split; [congruence|lia].
Qed.
End level.

(** Every level of handlers that is high enough returns its gas. *)
Lemma handlers_return_gas n e : enough n (depth e) → returns_gas (handlers env n) e.
Proof.
  revert e. induction n as [|n IH]; intros e Hn; [destruct Hn; lia|].
  split; intros; simpl; by eauto using Call_returns, CallCode_returns, DelegateCall_returns,
    StaticCall_returns, Create_returns.
Qed.

Lemma call_fuel_enough (e : EVM DB) : 0 ≤ depth e → enough call_fuel (depth e).
Proof.
  intros He. split; [unfold call_fuel; lia|].
  assert (Hf : Z.of_nat call_fuel = 1026) by (by vm_compute). unfold CallCreateDepth. lia.
Qed.

Lemma EVM_returns_gas e : 0 ≤ depth e → returns_gas (handlers env call_fuel) e.
Proof. intros. by apply handlers_return_gas, call_fuel_enough. Qed.
End gas_facts.
