(* ===== verification/EvmSafety.v ===== *)
(** * The EVM does not panic

    An invariant of frames under which no instruction indexes the stack, the
    memory, the code or the jump-destination vector out of range, and every
    snapshot the entry points go back to exists.  Along the way: the stack
    stays within its limit, a failed call leaves the state as it was, and a
    static call does not change it.  Running out of fuel is allowed here
    ([wpg False True]); [EvmTermination] excludes it. *)

From stdpp Require Import base tactics list numbers gmap.
From S2P Require Import Prelude GoMath EvmParams EvmMachine EvmGas EvmAnalysis EvmInstr EvmTable.
From S2P Require Import EvmInterp EvmLaws EvmWp.

#[local] Open Scope Z_scope.

(** The largest memory [memoryGasCost] lets a frame pay for. *)
Definition mem_limit : Z := 0xffffffffe0.

(** What the EVM expects of its surroundings.  Code hashes are assumed free
    of collisions: the jump-destination cache is keyed by them. *)
Record env_ok {DB} {db_ops : StateDB DB} {view : DBView DB} (env : Env DB) : Prop := {
  ok_laws : StateDBLaws DB (Keccak256Hash env);
  ok_metered : DisableGasMetering (vmConfig env) = false;
  ok_CanTransfer : CanTransfer (ctx env) = hvm_CanTransfer;
  ok_Transfer : Transfer (ctx env) = hvm_Transfer;
  ok_GetHash n : 0 ≤ GetHash (ctx env) n;
  ok_Origin : 0 ≤ Origin (ctx env);
  ok_GasPrice : 0 ≤ GasPrice (ctx env);
  ok_Coinbase : 0 ≤ Coinbase (ctx env);
  ok_CreateAddress a n : 0 ≤ CreateAddress env a n;
  ok_hash d : 0 ≤ Keccak256Hash env d;
  ok_hash_inj d d' : Keccak256Hash env d = Keccak256Hash env d' → d = d' }.

Section safety.
Context {DB : Type} {db_ops : StateDB DB} {view : DBView DB} (env : Env DB).

Definition has_hash (h : Hash) (code : list byte) : Prop := Keccak256Hash env code = h.

Record evm_ok (e : EVM DB) : Prop := {
  evm_db : db_ok (stateDB e);
  evm_cache : cache_ok has_hash (dests e) }.

(** How the EVM object may change. *)
Record evm_evolves (e e' : EVM DB) : Prop := {
  ev_ok : evm_ok e';
  ev_depth : depth e' = depth e;
  ev_readOnly : readOnly e' = readOnly e;
  ev_snap i d : restores i d (stateDB e) → restores i d (stateDB e');
  ev_static : readOnly e = true → same_content (stateDB e') (stateDB e) }.

Definition ref_ok (r : ContractRef) : Prop :=
  match r with
  | AccountRef a => 0 ≤ a
  | ContractPtr a ca v => 0 ≤ a ∧ 0 ≤ ca ∧ ∃ x, v = Some x ∧ 0 ≤ x
  end.

Record contract_ok (c : Contract) : Prop := {
  c_caller : 0 ≤ CallerAddress c;
  c_self : 0 ≤ Contract_Address c;
  c_code : Zlen (Code c) < 2 ^ 63;
  c_hash : has_hash (CodeHash c) (Code c);
  c_gas : 0 ≤ Gas c;
  c_value : ∃ v, value c = Some v ∧ 0 ≤ v }.

Abbreviation nonneg := (Forall (λ z, 0 ≤ z)).

Record frame_ok (f : Frame DB) : Prop := {
  f_stack : nonneg (stack f);
  f_limit : Zlen (stack f) ≤ StackLimit;
  f_memory : Memory_Len (memory f) ≤ mem_limit;
  f_pc : 0 ≤ pc f;
  f_contract : contract_ok (contract f);
  f_evm : evm_ok (evm f) }.

(** Code that neither panics nor breaks the invariant. *)
Abbreviation wps := (wpg False True).
Definition stays {A} (f : Frame DB) (_ : A) (f' : Frame DB) : Prop :=
  frame_ok f' ∧ evm_evolves (evm f) (evm f').
Definition ends (f : Frame DB) (_ : evm_error) (f' : Frame DB) : Prop :=
  evm_evolves (evm f) (evm f').
Definition safe_from {A} (m : @X DB A) (f : Frame DB) : Prop := wps m (stays f) (ends f) f.

(** What the instructions rely on from the entry points they call. *)
Definition call_ok (e : EVM DB) (r : CallRes) (e' : EVM DB) : Prop :=
  evm_evolves e e' ∧ (cr_err r ≠ None → db_equiv (stateDB e') (stateDB e)).
(** A failed creation leaves at most the nonce of the creator increased. *)
Definition not_created (c : Address) (db db' : DB) : Prop :=
  db_equiv db' db ∨
  ∃ db1, db_equiv db1 db ∧
    db_equiv db' (SetNonce c (u64 ((GetNonce c db1).2 + 1)) (GetNonce c db1).1).
Definition create_ok (c : Address) (e : EVM DB) (r : Address * CallRes) (e' : EVM DB) : Prop :=
  evm_evolves e e' ∧ 0 ≤ fst r ∧ (cr_err (snd r) ≠ None → not_created c (stateDB e) (stateDB e')).
Definition not_err (er : evm_error) (e : EVM DB) : Prop := False.
Record safe_handlers (h : @Handlers DB) : Prop := {
  sh_Call clr a i gas v e : evm_ok e → ref_ok clr → 0 ≤ a → 0 ≤ gas → 0 ≤ v →
    (readOnly e = true → v = 0) → wps (h_Call h clr a i gas v) (call_ok e) not_err e;
  sh_CallCode clr a i gas v e : evm_ok e → ref_ok clr → 0 ≤ a → 0 ≤ gas → 0 ≤ v →
    wps (h_CallCode h clr a i gas v) (call_ok e) not_err e;
  sh_DelegateCall s ca w a i gas e : evm_ok e → ref_ok (ContractPtr s ca w) → 0 ≤ a → 0 ≤ gas →
    wps (h_DelegateCall h (ContractPtr s ca w) a i gas) (call_ok e) not_err e;
  sh_StaticCall clr a i gas e : evm_ok e → ref_ok clr → 0 ≤ a → 0 ≤ gas →
    wps (h_StaticCall h clr a i gas) (call_ok e) not_err e;
  sh_Create clr code gas v e : evm_ok e → ref_ok clr → Zlen code < 2 ^ 63 → 0 ≤ gas → 0 ≤ v →
    readOnly e = false →
    wps (h_Create h clr code gas v) (create_ok (ref_Address clr) e) not_err e }.

(** ** Operations *)

(** A piece of memory that exists. *)
Definition region_ok (m : Memory) (r : Z * Z) : Prop :=
  0 ≤ fst r ∧ 0 ≤ snd r ∧ (snd r = 0 ∨ fst r + snd r ≤ Memory_Len m).

(** A static frame refuses operations that write, and calls with a value. *)
Definition allowed (op : OpCode) (o : @operation DB) (f : Frame DB) : Prop :=
  readOnly (evm f) = true → writes o = false ∧ (op = CALL → nth 2 (stack f) 0 = 0).

(** The part of a round between the checks and the update of [pc]. *)
Definition op_body (o : @operation DB) : @X DB (list byte) :=
  memSz ← required_memory o;
  charge env o memSz;;
  m ← gets memory;
  (if memSz >? 0 then set_memory (Memory_Resize memSz m) else mret tt);;
  execute_op o.

Definition op_safe (op : OpCode) (o : @operation DB) : Prop := ∀ f,
  frame_ok f → validateStack o (stack f) = None → allowed op o f →
  (op ≠ STOP → pc f < Zlen (Code (contract f))) → safe_from (op_body o) f.

Section lemmas.
Context (Henv : env_ok env).
#[local] Instance laws : StateDBLaws DB (Keccak256Hash env) := ok_laws _ Henv.

Lemma evm_evolves_refl e : evm_ok e → evm_evolves e e.
Proof. by split. Qed.
Lemma evm_evolves_trans e e1 e2 : evm_evolves e e1 → evm_evolves e1 e2 → evm_evolves e e2.
Proof.
  intros [? ? Hr ? Hs] [? ? Hr' ? Hs']. split; try congruence; eauto.
  intros Hro. trans (stateDB e1); [apply Hs'; congruence|auto].
Qed.

(** ** Memory *)

Lemma Memory_Get_region m o l : Memory_Len m ≤ mem_limit → region_ok m (o, l) →
  ∃ d, Memory_Get (big_Int64 o) (big_Int64 l) m = Some d ∧ Zlen d = l.
Proof.
  unfold mem_limit. intros Hm (Ho & Hl & Hr). simpl in *. unfold Memory_Get.
  destruct Hr as [->|Hr]; [by exists []|].
  destruct (decide (l = 0)) as [->|]; [by exists []|].
  rewrite !big_Int64_small by lia.
  rewrite (proj2 (Z.eqb_neq l 0)) by lia. rewrite Z.gtb_ltb, (proj2 (Z.ltb_lt _ _)) by lia.
  rewrite (proj2 (Z.ltb_ge l 0)) by lia. rewrite i64_small by lia.
  rewrite !(proj2 (Z.leb_le _ _)) by lia. simpl. eexists. split; [done|].
  unfold Zlen. rewrite length_go_copy, length_zeros. lia.
Qed.

Lemma Memory_GetPtr_region m o l : Memory_Len m ≤ mem_limit → region_ok m (o, l) →
  ∃ d, Memory_GetPtr (big_Int64 o) (big_Int64 l) m = Some d.
Proof.
  unfold mem_limit. intros Hm (Ho & Hl & Hr). simpl in *. unfold Memory_GetPtr.
  destruct Hr as [->|Hr]; [by exists []|].
  destruct (decide (l = 0)) as [->|]; [by exists []|].
  rewrite !big_Int64_small by lia.
  rewrite (proj2 (Z.eqb_neq l 0)) by lia. rewrite Z.gtb_ltb, (proj2 (Z.ltb_lt _ _)) by lia.
  rewrite i64_small by lia. rewrite !(proj2 (Z.leb_le _ _)) by lia. eauto.
Qed.

Lemma Memory_Set_region m o l v : Memory_Len m ≤ mem_limit → region_ok m (o, l) →
  ∃ m', Memory_Set (big_Uint64 o) (big_Uint64 l) v m = Some m' ∧ Memory_Len m' = Memory_Len m.
Proof.
  unfold mem_limit. intros Hm (Ho & Hl & Hr). simpl in *. unfold Memory_Set.
  destruct (decide (l = 0)) as [->|].
  { exists m. change (big_Uint64 0) with 0. rewrite Z.gtb_ltb, (proj2 (Z.ltb_ge _ _)) by apply Zlen_nonneg.
    done. }
  destruct Hr as [|Hr]; [done|]. rewrite !big_Uint64_small by (unfold is_u64; lia).
  rewrite !Z.gtb_ltb, (proj2 (Z.ltb_ge _ _)), (proj2 (Z.ltb_lt _ _)) by lia.
  rewrite u64_small by (unfold is_u64; lia). rewrite !(proj2 (Z.leb_le _ _)) by lia. simpl.
  eexists. split; [done|]. unfold Memory_Len, Zlen, slice in *. simpl.
  rewrite !length_app, length_go_copy, !length_take, !length_drop. lia.
Qed.

(** ** Charging *)

(** A frame after its gas function ran: at most the recorded memory fee and
    the first [k] stack items changed. *)
Record charged (k : nat) (f f' : Frame DB) : Prop := {
  ch_ok : frame_ok f';
  ch_evm : evm_evolves (evm f) (evm f');
  ch_store : store (memory f') = store (memory f);
  ch_contract : contract f' = contract f;
  ch_pc : pc f' = pc f;
  ch_stack : drop k (stack f') = drop k (stack f);
  ch_length : length (stack f') = length (stack f) }.

Lemma charged_refl k f : frame_ok f → charged k f f.
Proof. intros Hf. split; try done. apply evm_evolves_refl, Hf. Qed.
Lemma charged_trans k f f1 f2 : charged k f f1 → charged k f1 f2 → charged k f f2.
Proof. intros [] []. split; try congruence. by eapply evm_evolves_trans. Qed.
Lemma charged_le k k' f f' : charged k f f' → (k ≤ k')%nat → charged k' f f'.
Proof.
  intros [? ? ? ? ? Hd ?] Hk. split; try done.
  replace k' with (k + (k' - k))%nat by lia. rewrite <- !drop_drop. by rewrite Hd.
Qed.

(** Gas functions keep the invariant; those that charge for memory ([b])
    bound its size. *)
Definition gas_safe (op : OpCode) (o : @operation DB) (n k : nat) (b : bool) : Prop := ∀ ms f,
  frame_ok f → (n ≤ length (stack f))%nat → allowed op o f →
  wps (gasCost o ms) (λ _ f', charged k f f' ∧ (b = true → ms ≤ mem_limit)) (ends f) f.

(** The memory an operation asks for covers its regions [rs]. *)
Definition size_safe (n : nat) (m : @X DB Z) (rs : list Z → list (Z * Z)) : Prop := ∀ f,
  frame_ok f → (n ≤ length (stack f))%nat →
  wps m (λ s f', f' = f ∧ 0 ≤ s ∧
    Forall (λ r, 0 ≤ fst r ∧ 0 ≤ snd r ∧ (snd r = 0 ∨ fst r + snd r ≤ s)) (rs (stack f))) (ends f) f.

Lemma Zlen_le_nat {A} (l : list A) n : Z.of_nat n ≤ Zlen l ↔ (n ≤ length l)%nat.
Proof. unfold Zlen. lia. Qed.

Lemma makeStackFunc_None p q st : makeStackFunc p q st = None →
  p ≤ Zlen st ∧ Zlen st + q - p ≤ StackLimit.
Proof. unfold makeStackFunc, Stack_require. repeat case_match; intros; simplify_eq; zbool; lia. Qed.

(** Rounding up to words never loses bytes. *)
Lemma toWordSize_ge s : is_u64 s → is_u64 (toWordSize s) ∧ s ≤ toWordSize s * 32.
Proof.
  unfold toWordSize, is_u64, MaxUint64. intros Hs. 
  assert (Hmax : (2 ^ 64 - 1) / 32 = 2 ^ 59 - 1) by done. rewrite Hmax. clear Hmax. case_if; [lia|].
  pose proof (Z.div_mod (s + 31) 32 ltac:(lia)). pose proof (Z.mod_pos_bound (s + 31) 32 ltac:(lia)). lia.
Qed.

Lemma required_memory_safe o n rs f :
  match memorySize o with Some m => size_safe n m rs | None => rs = λ _, [] end →
  frame_ok f → (n ≤ length (stack f))%nat →
  wps (required_memory o) (λ ms f', f' = f ∧ 0 ≤ ms ∧ (memorySize o = None → ms = 0) ∧
    Forall (λ r, 0 ≤ fst r ∧ 0 ≤ snd r ∧ (snd r = 0 ∨ fst r + snd r ≤ ms)) (rs (stack f))) (ends f) f.
Proof.
  intros Hs Hf Hn. unfold required_memory. destruct (memorySize o) as [m|].
  - apply wp_X_bind. eapply wp_mono; [by apply Hs|done| |done].
    intros s f' (-> & Hs0 & Hrs). apply wp_X_bind, wp_safe; simpl; intros E1;
      [|apply evm_evolves_refl, Hf]. rewrite Z.gtb_ltb in E1. zbool.
    assert (Hu : is_u64 s) by (apply BitLen_le in E1; unfold is_u64; lia).
    rewrite big_Uint64_small by done. destruct (toWordSize_ge s Hu) as [Hw Hge].
    rewrite SafeMul_spec by (done || by unfold is_u64).
    apply wp_safe; simpl; intros E2; [|apply evm_evolves_refl, Hf].
    apply bool_decide_eq_false in E2. unfold is_u64 in *.
    rewrite u64_small by (unfold is_u64; lia). split_and!; [done|lia|done|].
    eapply Forall_impl; [exact Hrs|]. simpl. lia.
  - subst rs. apply wp_X_ret. split_and!; done.
Qed.

Lemma contract_ok_Gas c g : contract_ok c → 0 ≤ g → contract_ok (set_Gas g c).
Proof. intros [] ?. by split. Qed.

Lemma frame_ok_contract f c : frame_ok f → contract_ok c → frame_ok (with_contract c f).
Proof. intros [] ?. by split. Qed.
Lemma frame_ok_stack f st : frame_ok f → nonneg st → Zlen st ≤ StackLimit → frame_ok (with_stack st f).
Proof. intros [] ? ?. by split. Qed.
Lemma frame_ok_memory f m : frame_ok f → Memory_Len m ≤ mem_limit → frame_ok (with_memory m f).
Proof. intros [] ?. by split. Qed.
Lemma frame_ok_pc f p : frame_ok f → 0 ≤ p → frame_ok (with_pc p f).
Proof. intros [] ?. by split. Qed.
Lemma frame_ok_evm f e : frame_ok f → evm_ok e → frame_ok (with_evm e f).
Proof. intros [] ?. by split. Qed.

Definition exec_safe (op : OpCode) (o : @operation DB) (p q : Z) (rs : list Z → list (Z * Z)) : Prop := ∀ f,
  frame_ok f → p ≤ Zlen (stack f) → Zlen (stack f) + q - p ≤ StackLimit →
  allowed op o f → (op ≠ STOP → pc f < Zlen (Code (contract f))) →
  Forall (region_ok (memory f)) (rs (stack f)) → safe_from (execute o) f.

(** Regions that do not depend on the first [k] stack items. *)
Definition beyond (k : nat) (rs : list Z → list (Z * Z)) : Prop := ∀ st st',
  drop k st = drop k st' → length st = length st' → rs st = rs st'.

Lemma nth_drop_eq {A} k i (l l' : list A) x :
  drop k l = drop k l' → (k ≤ i)%nat → nth i l x = nth i l' x.
Proof.
  intros Hd Hi. rewrite !nth_lookup. replace i with (k + (i - k))%nat by lia.
  by rewrite <- !lookup_drop, Hd.
Qed.

Lemma charged_allowed k op o f f' : charged k f f' → (k ≤ 2)%nat → allowed op o f → allowed op o f'.
Proof.
  intros Hc Hk Ha Hr. rewrite (ev_readOnly _ _ (ch_evm _ _ _ Hc)) in Hr. destruct (Ha Hr) as [? Hv].
  split; [done|]. intros Hop. etrans; [|by apply Hv].
  eapply nth_drop_eq; [apply Hc|done].
Qed.

(** Paying: the frame is as charged, with less gas. *)
Lemma charge_safe op o n k b ms f : gas_safe op o n k b → (k ≤ 2)%nat →
  frame_ok f → (n ≤ length (stack f))%nat → allowed op o f →
  wps (charge env o ms) (λ _ f', (∃ f1 g, charged k f f1 ∧ 0 ≤ g ∧ f' = with_contract (set_Gas g (contract f)) f1)
    ∧ (b = true → ms ≤ mem_limit)) (ends f) f.
Proof.
  intros Hgas Hk Hf Hn Ha. unfold charge. rewrite (ok_metered _ Henv).
  apply wp_X_bind, wp_as_out_of_gas. eapply wp_mono; [by apply Hgas|done| |done].
  intros c f1 [Hc Hms]. apply wp_X_bind, wp_gets. rewrite (ch_contract _ _ _ Hc).
  unfold UseGas. case_if; [apply wp_fail, Hc|].
  apply wp_set_contract. split; [|done]. eexists _, _. split_and!; [done| |done]. apply u64_range.
Qed.

Lemma resize_region ms m r : ms ≤ mem_limit → Memory_Len m ≤ mem_limit →
  0 ≤ fst r ∧ 0 ≤ snd r ∧ (snd r = 0 ∨ fst r + snd r ≤ ms) →
  region_ok (if ms >? 0 then Memory_Resize ms m else m) r ∧
  Memory_Len (if ms >? 0 then Memory_Resize ms m else m) ≤ mem_limit.
Proof.
  intros Hms Hm (? & ? & Hr). assert (HL : Memory_Len (Memory_Resize ms m) = Z.max ms (Memory_Len m)).
  { unfold Memory_Resize. case_if; [|lia]. unfold Memory_Len, Zlen in *. simpl.
    rewrite length_app, length_zeros. lia. }
  pose proof (Zlen_nonneg (store m)). unfold Memory_Len in *. unfold region_ok, Memory_Len.
  case_if; rewrite ?HL; lia.
Qed.

Lemma evolves_returnData e e1 r : evm_evolves e e1 → evm_evolves e (set_returnData r e1).
Proof. intros [[] ? ? ? ?]. by repeat split. Qed.

(** Executing a frame that was charged and whose memory was resized. *)
Lemma exec_after_charge op o p q k rs f f2 g m :
  exec_safe op o p q rs → (k ≤ 2)%nat → beyond k rs → charged k f f2 → 0 ≤ g →
  frame_ok f → p ≤ Zlen (stack f) → Zlen (stack f) + q - p ≤ StackLimit → allowed op o f →
  (op ≠ STOP → pc f < Zlen (Code (contract f))) →
  Memory_Len m ≤ mem_limit → Forall (region_ok m) (rs (stack f)) →
  wps (execute_op o) (stays f) (ends f) (with_memory m (with_contract (set_Gas g (contract f)) f2)).
Proof.
  intros Hex Hk Hb Hc Hg Hf Hn Hlim Ha Hpc Hm Hrs. apply wp_execute_op.
  assert (HL : Zlen (stack f2) = Zlen (stack f)) by (unfold Zlen; by rewrite (ch_length _ _ _ Hc)).
  eapply wp_mono; [eapply Hex|done| |]; simpl.
  - apply frame_ok_memory; [|done]. apply frame_ok_contract; [apply Hc|].
    apply contract_ok_Gas; [apply Hf|done].
  - by rewrite HL.
  - by rewrite HL.
  - exact (charged_allowed _ _ _ _ _ Hc Hk Ha).
  - by rewrite (ch_pc _ _ _ Hc).
  - by rewrite (Hb (stack f2) (stack f)) by apply Hc.
  - intros r f3 [Hf3 He]. simpl in He. apply (evm_evolves_trans _ _ _ (ch_evm _ _ _ Hc)) in He.
    destruct (returns o); split; try done; [|by apply evolves_returnData].
    apply frame_ok_evm; [done|]. by apply (evolves_returnData _ _ r) in He as [].
  - intros r f3 He. unfold ends in *. simpl in He. apply (evm_evolves_trans _ _ _ (ch_evm _ _ _ Hc)) in He.
    destruct (returns o); [|done]. by apply evolves_returnData.
Qed.

Lemma op_safe_intro op o p q k b rs :
  validateStack o = makeStackFunc p q → 0 ≤ p → (k ≤ 2)%nat → beyond k rs →
  gas_safe op o (Z.to_nat p) k b →
  match memorySize o with Some m => b = true ∧ size_safe (Z.to_nat p) m rs | None => rs = λ _, [] end →
  exec_safe op o p q rs → op_safe op o.
Proof.
  intros Hv Hp Hk Hb Hgas Hms Hex f Hf Hst Ha Hpc. rewrite Hv in Hst.
  apply makeStackFunc_None in Hst as [Hn Hlim].
  assert (Hn' : (Z.to_nat p ≤ length (stack f))%nat) by (unfold Zlen in Hn; lia).
  unfold safe_from, op_body. apply wp_X_bind.
  eapply wp_mono; [apply (required_memory_safe o (Z.to_nat p) rs); [|done|done]|done| |done].
  { destruct (memorySize o); [apply Hms|done]. }
  intros ms f0 (-> & Hms0 & Hnone & Hrs). apply wp_X_bind.
  eapply wp_mono; [by eapply charge_safe|done| |done].
  intros _ f1 [(f2 & g & Hc & Hg & ->) Hlim']. do 3 wp_step.
  assert (Hmax : ms ≤ mem_limit).
  { destruct (memorySize o); [by apply Hlim', Hms|]. rewrite Hnone by done. done. }
  set (m2 := if ms >? 0 then Memory_Resize ms (memory f2) else memory f2).
  apply wp_mono with (P := False) (E := λ _ _, False)
    (Q := λ _ f3, f3 = with_memory m2 (with_contract (set_Gas g (contract f)) f2)); [|done| |done].
  { subst m2. destruct (ms >? 0); [by apply wp_set_memory|]. apply wp_X_ret. by destruct f2. }
  intros _ f3 ->. pose proof (f_memory _ (ch_ok _ _ _ Hc)) as Hf2.
  eapply exec_after_charge; try done.
  - apply (resize_region ms (memory f2) (0, 0)); simpl; [done|done|lia].
  - eapply Forall_impl; [exact Hrs|]. intros r Hr. by apply resize_region.
Qed.

(** ** The database *)

Lemma evolves_db e db : evm_ok e → evolves (stateDB e) db →
  (readOnly e = true → same_content db (stateDB e)) → evm_evolves e (set_stateDB db e).
Proof. intros [] [] ?. by repeat split. Qed.
Lemma evolves_reads e db : evm_ok e → reads (stateDB e) db → evm_evolves e (set_stateDB db e).
Proof. intros He [? Heq]. apply evolves_db; [done..|]. intros _. by apply equiv_content. Qed.

(** ** Gas functions *)

Lemma gs_Back k f0 f i Q (E : evm_error → Frame DB → Prop) : charged k f0 f → (i < length (stack f0))%nat →
  (∀ v, 0 ≤ v → Q v f) → wps (Back i) Q E f.
Proof.
  intros Hc Hi HQ. apply wp_Back. rewrite <- (ch_length _ _ _ Hc) in Hi.
  destruct (lookup_lt_is_Some_2 _ _ Hi) as [v Hv]. rewrite Hv. apply HQ.
  exact (proj1 (Forall_lookup _ _) (f_stack _ (ch_ok _ _ _ Hc)) _ _ Hv).
Qed.
Lemma gs_safe k f0 f r (Q : Z → Frame DB → Prop) : charged k f0 f →
  (∀ c, Q c f) → wps (safe r) Q (ends f0) f.
Proof. intros Hc HQ. apply wp_safe; intros _; [apply HQ|apply Hc]. Qed.

Lemma charged_memory k f0 f m : charged k f0 f → store m = store (memory f) → charged k f0 (with_memory m f).
Proof.
  intros [Hok ? ? ? ? ? ?] Hm. split; simpl; try congruence.
  apply frame_ok_memory; [done|]. pose proof (f_memory _ Hok). unfold Memory_Len in *. congruence.
Qed.
Lemma gs_mem_GasCost k f0 f ms (Q : Z → Frame DB → Prop) : charged k f0 f →
  (∀ c f', charged k f0 f' → ms ≤ mem_limit → Q c f') → wps (mem_GasCost ms) Q (ends f0) f.
Proof.
  intros Hc HQ. apply wp_mem_GasCost. unfold memoryGasCost. unfold mem_limit in HQ.
  case_if; [apply HQ; [by apply charged_memory|lia]|].
  case_if; [apply (ch_evm _ _ _ Hc)|]. cbv zeta.
  case_if; (apply HQ; [by apply charged_memory|lia]).
Qed.

Lemma charged_db k f0 f db : charged k f0 f → evm_evolves (evm f) (set_stateDB db (evm f)) →
  charged k f0 (with_db db f).
Proof.
  intros [] Hev. split; simpl; try congruence; [apply frame_ok_evm; [done|apply Hev]|].
  by eapply evm_evolves_trans.
Qed.
Lemma gs_db_read {A} k f0 f (g : DB → DB * A) (Q : A → Frame DB → Prop) E : charged k f0 f →
  (∀ db, db_ok db → reads db (g db).1) →
  (∀ f', charged k f0 f' → Q (g (stateDB (evm f))).2 f') → wps (db_read g) Q E f.
Proof.
  intros Hc Hg HQ. apply wp_db_read, HQ, (charged_db _ _ _ _ Hc).
  pose proof (f_evm _ (ch_ok _ _ _ Hc)) as He. apply evolves_reads; [done|]. apply Hg, He.
Qed.
Lemma gs_db_write k f0 f (g : DB → DB) (Q : unit → Frame DB → Prop) E : charged k f0 f →
  (∀ db, db_ok db → evolves db (g db)) → readOnly (evm f0) = false →
  (∀ f', charged k f0 f' → Q tt f') → wps (db_write g) Q E f.
Proof.
  intros Hc Hg Hr HQ. apply wp_db_write, HQ, (charged_db _ _ _ _ Hc).
  pose proof (f_evm _ (ch_ok _ _ _ Hc)) as He. apply evolves_db; [done| |].
  - apply Hg, He.
  - rewrite (ev_readOnly _ _ (ch_evm _ _ _ Hc)). congruence.
Qed.

Lemma callGas_nonneg gt g b c cg : callGas gt g b c = Val cg → 0 ≤ cg.
Proof. unfold callGas. repeat case_match; intros; simplify_eq; apply u64_range. Qed.
Lemma callGas_no_panic gt g b c : match callGas gt g b c with Panic => False | NoFuel => False | _ => True end.
Proof. unfold callGas. by repeat case_match. Qed.

(** The call gas replaces the first stack item only. *)
Lemma gs_finish_call_gas f0 f g (Q : Z → Frame DB → Prop) : charged 1 f0 f → (1 ≤ length (stack f0))%nat →
  (∀ c f', charged 1 f0 f' → Q c f') → wps (finish_call_gas env g) Q (ends f0) f.
Proof.
  intros Hc Hn HQ. unfold finish_call_gas. do 3 wp_step.
  eapply gs_Back; [exact Hc|done|]. intros v Hv. do 2 wp_step.
  pose proof (callGas_nonneg (gasTable env) (Gas (contract f)) g v).
  pose proof (callGas_no_panic (gasTable env) (Gas (contract f)) g v).
  destruct (callGas _ _ _ _) as [cg| | |]; [|apply Hc|done..].
  do 2 wp_step. pose proof Hc as [Hok ? ? ? ? Hst Hl]. rewrite <- Hl in Hn.
  destruct (stack f) as [|x st] eqn:Est; [simpl in Hn; lia|].
  assert (Hc' : charged 1 f0 (with_stack (cg :: st) f)).
  { split; simpl in *; try done. apply frame_ok_stack; [done| |].
    - pose proof (f_stack _ Hok) as Hs. rewrite Est in Hs. inversion Hs. constructor; [by auto|done].
    - pose proof (f_limit _ Hok) as Hs. rewrite Est in Hs. done. }
  eapply gs_safe; [exact Hc'|]. intros c. by apply HQ.
Qed.

(** Walks through a gas function. *)
Ltac gas_step :=
  cbv beta zeta;
  lazymatch goal with
  | |- wpg _ _ (mbind _ _) _ _ _ => apply wp_X_bind
  | |- wpg _ _ (mret _) _ _ _ => apply wp_X_ret
  | |- wpg _ _ (gets _) _ _ _ => apply wp_gets
  | |- wpg _ _ (Back _) _ _ _ => eapply gs_Back; [eassumption|lia|intros ? ?]
  | |- wpg _ _ (safe _) _ _ _ => eapply gs_safe; [eassumption|intros ?]
  | |- wpg _ _ (mem_GasCost _) _ _ _ => eapply gs_mem_GasCost; [eassumption|intros ? ? ? ?]
  | |- wpg _ _ (db_read _) _ _ _ => eapply gs_db_read; [eassumption|by_reads|intros ? ?]
  | |- wpg _ _ (finish_call_gas _ _) _ _ _ => eapply gs_finish_call_gas; [eassumption|lia|intros ? ? ?]
  | |- wpg _ _ (if ?b then _ else _) _ _ _ => destruct b
  | |- charged _ _ _ ∧ _ => split; [eassumption|by intros]
  end.
Ltac gas_go :=
  lazymatch goal with |- gas_safe _ _ _ ?k _ =>
    intros msz f Hf Hn Ha; pose proof (charged_refl k f Hf) end;
  simpl gasCost; unfold_head_wp; repeat gas_step.

Section gas_functions.
Context (op : OpCode) (ex : @executionFunc DB) (vs : stackValidationFunc) (ms : option (@X DB Z)) (fl : list op_flag).
#[local] Abbreviation ent g := (op_entry ex g vs ms fl).

Lemma gasConst_safe c n : gas_safe op (ent (constGasFunc c)) n 0 false.
Proof. gas_go. Qed.
Lemma gasCallDataCopy_safe : gas_safe op (ent gasCallDataCopy) 3 0 true.
Proof. gas_go. Qed.
Lemma gasReturnDataCopy_safe : gas_safe op (ent gasReturnDataCopy) 3 0 true.
Proof. gas_go. Qed.
Lemma gasCodeCopy_safe : gas_safe op (ent gasCodeCopy) 3 0 true.
Proof. gas_go. Qed.
Lemma gasExtCodeCopy_safe : gas_safe op (ent (gasExtCodeCopy env)) 4 0 true.
Proof. gas_go. Qed.
Lemma makeGasLog_safe k n : (2 ≤ n)%nat → gas_safe op (ent (makeGasLog k)) n 0 true.
Proof. intros Hn2. gas_go. Qed.
Lemma gasSha3_safe : gas_safe op (ent gasSha3) 2 0 true.
Proof. gas_go. Qed.
Lemma gasMLoad_safe n : gas_safe op (ent gasMLoad) n 0 true.
Proof. gas_go. Qed.
Lemma gasMStore_safe n : gas_safe op (ent gasMStore) n 0 true.
Proof. gas_go. Qed.
Lemma gasMStore8_safe n : gas_safe op (ent gasMStore8) n 0 true.
Proof. gas_go. Qed.
Lemma gasCreate_safe n : gas_safe op (ent gasCreate) n 0 true.
Proof. gas_go. Qed.
Lemma gasReturn_safe n : gas_safe op (ent gasReturn) n 0 true.
Proof. gas_go. Qed.
Lemma gasRevert_safe n : gas_safe op (ent gasRevert) n 0 true.
Proof. gas_go. Qed.
Lemma gasBalance_safe n : gas_safe op (ent (gasBalance env)) n 0 false.
Proof. gas_go. Qed.
Lemma gasExtCodeSize_safe n : gas_safe op (ent (gasExtCodeSize env)) n 0 false.
Proof. gas_go. Qed.
Lemma gasSLoad_safe n : gas_safe op (ent (gasSLoad env)) n 0 false.
Proof. gas_go. Qed.
Lemma gasExp_safe : gas_safe op (ent (gasExp env)) 2 0 false.
Proof. gas_go. Qed.
Lemma gasPush_safe n : gas_safe op (ent gasPush) n 0 false.
Proof. gas_go. Qed.
Lemma gasSwap_safe n : gas_safe op (ent gasSwap) n 0 false.
Proof. gas_go. Qed.
Lemma gasDup_safe n : gas_safe op (ent gasDup) n 0 false.
Proof. gas_go. Qed.
Lemma gasCall_safe : gas_safe op (ent (gasCall env)) 7 1 true.
Proof. gas_go. Qed.
Lemma gasCallCode_safe : gas_safe op (ent (gasCallCode env)) 7 1 true.
Proof. gas_go. Qed.
Lemma gasDelegateCall_safe : gas_safe op (ent (gasDelegateCall env)) 6 1 true.
Proof. gas_go. Qed.
Lemma gasStaticCall_safe : gas_safe op (ent (gasStaticCall env)) 6 1 true.
Proof. gas_go. Qed.

(** [AddRefund] is reached in frames that may write. *)
Lemma gs_AddRefund f0 f v (Q : unit → Frame DB → Prop) E :
  charged 0 f0 f → 0 ≤ v → readOnly (evm f0) = false → (∀ f', charged 0 f0 f' → Q tt f') →
  wps (db_write (AddRefund v)) Q E f.
Proof. intros Hc Hv Hr HQ. eapply gs_db_write; [done| |done|done]. intros. by apply AddRefund_evolves. Qed.

Lemma not_static o f : writes o = true → allowed op o f → readOnly (evm f) = false.
Proof. intros Hw Ha. destruct (readOnly (evm f)) eqn:E; [|done]. destruct (Ha E). congruence. Qed.

Lemma gasSStore_safe : F_writes ∈ fl → gas_safe op (ent gasSStore) 2 0 false.
Proof.
  intros Hw. gas_go. eapply gs_AddRefund; [done|done| |by intros; repeat gas_step].
  eapply not_static; [|done]. simpl. by apply bool_decide_true.
Qed.
Lemma gasSuicide_safe : F_writes ∈ fl → gas_safe op (ent (gasSuicide env)) 1 0 false.
Proof.
  intros Hw. gas_go; (eapply gs_AddRefund; [done|done| |by intros; repeat gas_step]);
    (eapply not_static; [|done]; simpl; by apply bool_decide_true).
Qed.
End gas_functions.

(** ** Memory sizes *)

Definition region (i j : nat) (st : list Z) : Z * Z := (nth i st 0, nth j st 0).

Lemma sz_Back f i Q (E : evm_error → Frame DB → Prop) : frame_ok f → (i < length (stack f))%nat →
  (0 ≤ nth i (stack f) 0 → Q (nth i (stack f) 0) f) → wps (Back i) Q E f.
Proof.
  intros Hf Hi HQ. apply wp_Back. destruct (lookup_lt_is_Some_2 _ _ Hi) as [v Hv]. rewrite Hv.
  rewrite nth_lookup, Hv in HQ. apply HQ.
  exact (proj1 (Forall_lookup _ _) (f_stack _ Hf) _ _ Hv).
Qed.

Lemma calcMemSize_ge o l : 0 ≤ o → 0 ≤ l → 0 ≤ calcMemSize o l ∧ (l = 0 ∨ o + l ≤ calcMemSize o l).
Proof. unfold calcMemSize. rewrite big_Sign_eqb. intros. case_if; lia. Qed.

Ltac size_go :=
  intros f Hf Hn; unfold_head_wp;
  repeat lazymatch goal with
  | |- wpg _ _ (mbind _ _) _ _ _ => apply wp_X_bind
  | |- wpg _ _ (mret _) _ _ _ => apply wp_X_ret
  | |- wpg _ _ (Back _) _ _ _ => apply sz_Back; [done|lia|intros ?]
  end; rewrite ?BigMax_spec;
  repeat match goal with
  | |- context [calcMemSize ?o ?l] => destruct (calcMemSize_ge o l); [done|done|];
      generalize dependent (calcMemSize o l); intros
  end;
  split; [done|]; split; [lia|]; unfold region; rewrite ?Forall_cons, ?Forall_nil; simpl; lia.

Lemma memorySha3_size : size_safe 2 memorySha3 (λ st, [region 0 1 st]).
Proof. size_go. Qed.
Lemma memoryCallDataCopy_size : size_safe 3 memoryCallDataCopy (λ st, [region 0 2 st]).
Proof. size_go. Qed.
Lemma memoryReturnDataCopy_size : size_safe 3 memoryReturnDataCopy (λ st, [region 0 2 st]).
Proof. size_go. Qed.
Lemma memoryCodeCopy_size : size_safe 3 memoryCodeCopy (λ st, [region 0 2 st]).
Proof. size_go. Qed.
Lemma memoryExtCodeCopy_size : size_safe 4 memoryExtCodeCopy (λ st, [region 1 3 st]).
Proof. size_go. Qed.
Lemma memoryMLoad_size : size_safe 1 memoryMLoad (λ st, [(nth 0 st 0, 32)]).
Proof. size_go. Qed.
Lemma memoryMStore_size : size_safe 2 memoryMStore (λ st, [(nth 0 st 0, 32)]).
Proof. size_go. Qed.
Lemma memoryMStore8_size : size_safe 2 memoryMStore8 (λ st, [(nth 0 st 0, 1)]).
Proof. size_go. Qed.
Lemma memoryCreate_size : size_safe 3 memoryCreate (λ st, [region 1 2 st]).
Proof. size_go. Qed.
Lemma memoryCall_size : size_safe 7 memoryCall (λ st, [region 5 6 st; region 3 4 st]).
Proof. size_go. Qed.
Lemma memoryDelegateCall_size : size_safe 6 memoryDelegateCall (λ st, [region 4 5 st; region 2 3 st]).
Proof. size_go. Qed.
Lemma memoryStaticCall_size : size_safe 6 memoryStaticCall (λ st, [region 4 5 st; region 2 3 st]).
Proof. size_go. Qed.
Lemma memoryReturn_size : size_safe 2 memoryReturn (λ st, [region 0 1 st]).
Proof. size_go. Qed.
Lemma memoryRevert_size : size_safe 2 memoryRevert (λ st, [region 0 1 st]).
Proof. size_go. Qed.
Lemma memoryLog_size n : (2 ≤ n)%nat → size_safe n memoryLog (λ st, [region 0 1 st]).
Proof. intros Hn2. size_go. Qed.
End lemmas.
End safety.
