(* ===== verification/EvmSafetyOps.v ===== *)
(** * Every instruction keeps the frame invariant

    The execution functions of [EvmInstr] one by one, then the instruction
    table, the loop and the entry points, against the invariant of
    [EvmSafety]. *)

From stdpp Require Import base tactics list numbers gmap.
From S2P Require Import Prelude GoMath EvmParams EvmMachine EvmGas EvmAnalysis EvmInstr EvmTable.
From S2P Require Import EvmInterp EvmLaws EvmWp EvmSafety.

#[local] Open Scope Z_scope.

(** ** Results that are natural numbers *)

Create HintDb nn.
Create HintDb evm_safe.

Lemma U256_nonneg x : 0 ≤ U256 x.
Proof. apply U256_range. Qed.
Lemma u64_nonneg x : 0 ≤ u64 x.
Proof. apply u64_range. Qed.
Lemma big_Uint64_nonneg x : 0 ≤ big_Uint64 x.
Proof. apply big_Uint64_range. Qed.
Lemma SetBytes_nonneg l : 0 ≤ SetBytes l.
Proof. apply SetBytes_range. Qed.
Lemma byteZ_nonneg b : 0 ≤ byteZ b.
Proof. apply byteZ_range. Qed.
Lemma Exp_nonneg b e : 0 ≤ Exp b e.
Proof. rewrite Exp_spec. by apply Z.mod_pos_bound. Qed.
Lemma land_nonneg x y : 0 ≤ x → 0 ≤ Z.land x y.
Proof. intros. apply Z.land_nonneg. auto. Qed.
Lemma lor_nonneg x y : 0 ≤ x → 0 ≤ y → 0 ≤ Z.lor x y.
Proof. intros. by apply Z.lor_nonneg. Qed.
Lemma lxor_nonneg x y : 0 ≤ x → 0 ≤ y → 0 ≤ Z.lxor x y.
Proof. intros. apply Z.lxor_nonneg. tauto. Qed.
#[export] Hint Resolve U256_nonneg u64_nonneg big_Uint64_nonneg SetBytes_nonneg byteZ_nonneg Exp_nonneg
  land_nonneg lor_nonneg lxor_nonneg Zlen_nonneg Z.le_refl Z.le_0_1
  c_self c_caller c_gas ok_Origin ok_GasPrice ok_Coinbase ok_GetHash ok_hash ok_CreateAddress : nn.

Section ops.
Context {DB : Type} {db_ops : StateDB DB} {view : DBView DB} (env : Env DB) (Henv : env_ok env).
#[local] Instance laws' : StateDBLaws DB (Keccak256Hash env) := ok_laws _ Henv.

(** Takes the items an instruction pops apart. *)
Ltac pop_items :=
  repeat (cbv beta zeta; lazymatch goal with
  | |- wpg _ _ panic _ _ _ => fail
  | |- wpg _ _ (call_evm _) _ _ _ => fail
  | |- wpg _ _ (if ?b then _ else _) _ _ _ => destruct b eqn:?
  | |- wpg _ _ _ _ _ _ => wp_step
  | |- match stack _ with _ => _ end => cbn [stack with_stack with_pc with_db with_evm with_memory]
  | Hn : _ ≤ Zlen ?st |- match ?st with _ => _ end =>
      destruct st; [exfalso; unfold Zlen in Hn; simpl in Hn; lia|]
  | |- match ?st with _ => _ end => 
      destruct st; [exfalso; unfold Zlen in *; simpl in *; lia|]
  end).
Ltac finish :=
  split; [split; simpl in *|by apply evm_evolves_refl];
  [ rewrite ?Forall_cons in *; destruct_and?; split_and?; eauto with nn
  | unfold Zlen in *; simpl in *; lia
  | eauto with nn.. ].
(** The same after the database changed, as [Hev] says. *)
Ltac finish_with Hev :=
  split; [split; simpl in *|exact Hev];
  [ rewrite ?Forall_cons in *; destruct_and?; split_and?; eauto with nn
  | unfold Zlen in *; simpl in *; lia
  | eauto with nn..
  | exact (ev_ok _ _ _ Hev) ].
Ltac exec_go :=
  intros f Hf Hn Hlim Ha Hpc Hrs; simpl execute; destruct f as [p st m c e], Hf as [Hst Hl Hm Hp Hc He];
  simpl in *; unfold safe_from; unfold_head_wp; pop_items.

Section stack_ops.
Context (op : OpCode) (g : @gasFunc DB) (vs : stackValidationFunc) (ms : option (@X DB Z)) (fl : list op_flag).
#[local] Abbreviation ent x := (op_entry x g vs ms fl).
#[local] Abbreviation none := (λ _ : list Z, @nil (Z * Z)).

Lemma opAdd_safe : exec_safe env op (ent opAdd) 2 1 none.
Proof. exec_go. finish. Qed.
Lemma opSub_safe : exec_safe env op (ent opSub) 2 1 none.
Proof. exec_go; finish. Qed.
Lemma opMul_safe : exec_safe env op (ent opMul) 2 1 none.
Proof. exec_go; finish. Qed.
Lemma opDiv_safe : exec_safe env op (ent opDiv) 2 1 none.
Proof. exec_go; finish. Qed.
Lemma opSdiv_safe : exec_safe env op (ent opSdiv) 2 1 none.
Proof. exec_go; finish. Qed.
Lemma opMod_safe : exec_safe env op (ent opMod) 2 1 none.
Proof. exec_go; finish. Qed.
Lemma opSmod_safe : exec_safe env op (ent opSmod) 2 1 none.
Proof. exec_go; finish. Qed.
Lemma opExp_safe : exec_safe env op (ent opExp) 2 1 none.
Proof. exec_go; finish. Qed.
Lemma opSignExtend_safe : exec_safe env op (ent opSignExtend) 2 1 none.
Proof. exec_go; finish. Qed.
Lemma opLt_safe : exec_safe env op (ent opLt) 2 1 none.
Proof. exec_go; finish. Qed.
Lemma opGt_safe : exec_safe env op (ent opGt) 2 1 none.
Proof. exec_go; finish. Qed.
Lemma opSlt_safe : exec_safe env op (ent opSlt) 2 1 none.
Proof. exec_go; finish. Qed.
Lemma opSgt_safe : exec_safe env op (ent opSgt) 2 1 none.
Proof. exec_go; finish. Qed.
Lemma opEq_safe : exec_safe env op (ent opEq) 2 1 none.
Proof. exec_go; finish. Qed.
Lemma opAnd_safe : exec_safe env op (ent opAnd) 2 1 none.
Proof. exec_go; finish. Qed.
Lemma opOr_safe : exec_safe env op (ent opOr) 2 1 none.
Proof. exec_go; finish. Qed.
Lemma opXor_safe : exec_safe env op (ent opXor) 2 1 none.
Proof. exec_go; finish. Qed.
Lemma opByte_safe : exec_safe env op (ent opByte) 2 1 none.
Proof.
  exec_go. destruct st; [exfalso; unfold Zlen in Hn; simpl in Hn; lia|]. simpl.
  pop_items; finish.
Qed.
Lemma opNot_safe : exec_safe env op (ent opNot) 1 1 none.
Proof. exec_go; finish. Qed.
Lemma opIszero_safe : exec_safe env op (ent opIszero) 1 1 none.
Proof. exec_go; finish. Qed.
Lemma opCallDataLoad_safe : exec_safe env op (ent opCallDataLoad) 1 1 none.
Proof. exec_go; finish. Qed.
Lemma opAddmod_safe : exec_safe env op (ent opAddmod) 3 1 none.
Proof. exec_go; finish. Qed.
Lemma opMulmod_safe : exec_safe env op (ent opMulmod) 3 1 none.
Proof. exec_go; finish. Qed.
Lemma opAddress_safe : exec_safe env op (ent opAddress) 0 1 none.
Proof. exec_go; finish. Qed.
Lemma opCaller_safe : exec_safe env op (ent opCaller) 0 1 none.
Proof. exec_go; finish. Qed.
Lemma opCallDataSize_safe : exec_safe env op (ent opCallDataSize) 0 1 none.
Proof. exec_go; finish. Qed.
Lemma opReturnDataSize_safe : exec_safe env op (ent opReturnDataSize) 0 1 none.
Proof. exec_go; finish. Qed.
Lemma opCodeSize_safe : exec_safe env op (ent opCodeSize) 0 1 none.
Proof. exec_go; finish. Qed.
Lemma opPc_safe : exec_safe env op (ent opPc) 0 1 none.
Proof. exec_go; finish. Qed.
Lemma opMsize_safe : exec_safe env op (ent opMsize) 0 1 none.
Proof. exec_go; finish. Qed.
Lemma opGas_safe : exec_safe env op (ent opGas) 0 1 none.
Proof. exec_go; finish. Qed.
Lemma opOrigin_safe : exec_safe env op (ent (opOrigin env)) 0 1 none.
Proof. exec_go; finish. Qed.
Lemma opGasprice_safe : exec_safe env op (ent (opGasprice env)) 0 1 none.
Proof. exec_go; finish. Qed.
Lemma opCoinbase_safe : exec_safe env op (ent (opCoinbase env)) 0 1 none.
Proof. exec_go; finish. Qed.
Lemma opTimestamp_safe : exec_safe env op (ent (opTimestamp env)) 0 1 none.
Proof. exec_go; finish. Qed.
Lemma opNumber_safe : exec_safe env op (ent (opNumber env)) 0 1 none.
Proof. exec_go; finish. Qed.
Lemma opDifficulty_safe : exec_safe env op (ent (opDifficulty env)) 0 1 none.
Proof. exec_go; finish. Qed.
Lemma opGasLimit_safe : exec_safe env op (ent (opGasLimit env)) 0 1 none.
Proof. exec_go; finish. Qed.
Lemma opBlockhash_safe : exec_safe env op (ent (opBlockhash env)) 1 1 none.
Proof. exec_go; finish. Qed.
Lemma opPop_safe : exec_safe env op (ent opPop) 1 0 none.
Proof. exec_go; finish. Qed.
Lemma opJumpdest_safe : exec_safe env op (ent opJumpdest) 0 0 none.
Proof. exec_go; finish. Qed.
Lemma opStop_safe : exec_safe env op (ent opStop) 0 0 none.
Proof. exec_go; finish. Qed.
Lemma opCallValue_safe : exec_safe env op (ent opCallValue) 0 1 none.
Proof.
  exec_go. simpl. destruct (c_value _ _ Hc) as (v & Hv & Hv0). rewrite Hv.
  do 3 wp_step. finish.
Qed.

Lemma opBalance_safe : exec_safe env op (ent opBalance) 1 1 none.
Proof.
  exec_go. pose proof (evm_db _ _ He).
  assert (Hev : evm_evolves env e (set_stateDB (GetBalance (BigToAddress z) (stateDB e)).1 e))
    by (eapply evolves_reads; [exact Henv|done|by_reads]).
  finish_with Hev. by apply GetBalance_nonneg.
Qed.
Lemma opExtCodeSize_safe : exec_safe env op (ent opExtCodeSize) 1 1 none.
Proof.
  exec_go. pose proof (evm_db _ _ He).
  assert (Hev : evm_evolves env e (set_stateDB (GetCodeSize (BigToAddress z) (stateDB e)).1 e))
    by (eapply evolves_reads; [exact Henv|done|by_reads]).
  finish_with Hev. by apply GetCodeSize_nonneg.
Qed.
Lemma opSload_safe : exec_safe env op (ent opSload) 1 1 none.
Proof.
  exec_go. pose proof (evm_db _ _ He).
  assert (Hev : evm_evolves env e (set_stateDB (GetState (Contract_Address c) (BigToHash z) (stateDB e)).1 e))
    by (eapply evolves_reads; [exact Henv|done|by_reads]).
  finish_with Hev. by apply GetState_nonneg.
Qed.
Lemma opSstore_safe : F_writes ∈ fl → exec_safe env op (ent opSstore) 2 0 none.
Proof.
  intros Hw. exec_go. pose proof (evm_db _ _ He).
  assert (Hro : readOnly e = false).
  { refine (not_static _ _ _ _ Ha). simpl. by apply bool_decide_true. }
  assert (Hev : evm_evolves env e (set_stateDB (SetState (Contract_Address c) (BigToHash z) (BigToHash z0) (stateDB e)) e)).
  { apply evolves_db; [done| |congruence]. apply SetState_evolves; [done|].
    rewrite !Forall_cons in Hst. destruct Hst as (? & ? & ?).
    rewrite BigToHash_spec by done. by apply Z.mod_pos_bound. }
  finish_with Hev.
Qed.

(** *** Control flow *)

Lemma jumpdest_ok_safe pos f : evm_ok env (evm f) → contract_ok env (contract f) → 0 ≤ pos →
  wpg False True (jumpdest_ok pos)
    (λ _ f', ∃ d, f' = with_evm (set_jumpdests d (evm f)) f ∧
       evm_evolves env (evm f) (set_jumpdests d (evm f))) (λ _ _, False) f.
Proof.
  intros [Hdb Hcache] Hc Hpos. unfold jumpdest_ok. do 4 wp_step.
  destruct (has_spec (has_hash env) (dests (evm f)) (CodeHash (contract f)) (Code (contract f)) pos)
    as (d & b & Hhas & Hd & _); [apply Hc| |done|done|].
  { intros code Hcode. apply (ok_hash_inj _ Henv). etrans; [exact Hcode|]. symmetry. apply Hc. }
  rewrite Hhas. do 3 wp_step. exists d. split; [done|]. by repeat split.
Qed.

Lemma opJump_safe : exec_safe env op (ent opJump) 1 0 none.
Proof.
  exec_go. rewrite Forall_cons in Hst. destruct Hst as [Hz Hst].
  eapply wp_mono; [by apply jumpdest_ok_safe|done| |done].
  intros b f1 (d & -> & Hev). pop_items; [exact Hev|]. finish_with Hev.
Qed.
Lemma opJumpi_safe : exec_safe env op (ent opJumpi) 2 0 none.
Proof.
  exec_go; [|finish]. rewrite !Forall_cons in Hst. destruct Hst as (Hz & Hz0 & Hst).
  eapply wp_mono; [by apply jumpdest_ok_safe|done| |done].
  intros b f1 (d & -> & Hev). pop_items; [exact Hev|]. finish_with Hev.
Qed.

Lemma makePush_safe n k : op ≠ STOP → exec_safe env op (ent (makePush n k)) 0 1 none.
Proof.
  intros Hop. exec_go; [finish|exfalso]. specialize (Hpc Hop). pose proof (c_code _ _ Hc).
  match goal with E : (0 <=? _) = false |- _ => cbn [pc contract] in E;
    rewrite !u64_small, !i64_small in E by (unfold is_u64; lia) end.
  zbool. case_match; zbool; lia.
Qed.

(** *** Stack manipulation *)

Lemma makeDup_safe n : (1 ≤ n)%nat →
  exec_safe env op (ent (makeDup n)) (Z.of_nat n) (Z.of_nat n + 1) none.
Proof.
  intros Hn1. exec_go. unfold Stack_dup. simpl.
  destruct (lookup_lt_is_Some_2 st (n - 1)) as [x Hx]; [unfold Zlen in Hn; lia|]. rewrite Hx.
  pop_items. pose proof (proj1 (Forall_lookup _ _) Hst _ _ Hx). finish.
Qed.

Lemma makeSwap_safe n : (1 ≤ n)%nat →
  exec_safe env op (ent (makeSwap n)) (Z.of_nat n + 1) (Z.of_nat n + 1) none.
Proof.
  intros Hn1. exec_go. unfold Stack_swap. simpl.
  replace (n + 1 - 1)%nat with n by lia.
  destruct (lookup_lt_is_Some_2 st n) as [x Hx]; [unfold Zlen in Hn; lia|].
  destruct (lookup_lt_is_Some_2 st 0) as [y Hy]; [unfold Zlen in Hn; lia|].
  rewrite Hx, Hy. pop_items.
  pose proof (proj1 (Forall_lookup _ _) Hst _ _ Hx). pose proof (proj1 (Forall_lookup _ _) Hst _ _ Hy).
  split; [split; simpl in *|by apply evm_evolves_refl]; try done.
  - by do 2 (apply Forall_insert; [|done]).
  - unfold Zlen in *. rewrite !length_insert. lia.
Qed.
End stack_ops.

(** *** Memory *)

(** Uses the region of memory the operation was charged for. *)
Ltac use_region :=
  unfold region in *; rewrite ?Forall_cons, ?Forall_nil in *; simpl in *; destruct_and?;
  lazymatch goal with
  | Hm : Memory_Len ?m ≤ mem_limit |- match Memory_Get (big_Int64 ?o) (big_Int64 ?l) ?m with _ => _ end =>
      destruct (Memory_Get_region m o l) as (? & -> & ?); [done|done|]
  | Hm : Memory_Len ?m ≤ mem_limit |- match Memory_Get (big_Int64 ?o) ?l ?m with _ => _ end =>
      destruct (Memory_Get_region m o l) as (? & Hmem & ?); [done|done|];
      change (big_Int64 l) with l in Hmem; rewrite Hmem
  | Hm : Memory_Len ?m ≤ mem_limit |- match Memory_GetPtr (big_Int64 ?o) (big_Int64 ?l) ?m with _ => _ end =>
      destruct (Memory_GetPtr_region m o l) as (? & ->); [done|done|]
  | Hm : Memory_Len ?m ≤ mem_limit |- match Memory_Set (big_Uint64 ?o) (big_Uint64 ?l) ?v ?m with _ => _ end =>
      destruct (Memory_Set_region m o l v) as (? & -> & ?); [done|done|]
  | Hm : Memory_Len ?m ≤ mem_limit |- match Memory_Set (big_Uint64 ?o) ?l ?v ?m with _ => _ end =>
      destruct (Memory_Set_region m o l v) as (? & Hmem & ?); [done|done|];
      change (big_Uint64 l) with l in Hmem; rewrite Hmem
  end.

Section memory_ops.
Context (op : OpCode) (g : @gasFunc DB) (vs : stackValidationFunc) (ms : option (@X DB Z)) (fl : list op_flag).
#[local] Abbreviation ent x := (op_entry x g vs ms fl).

Lemma opMload_safe : exec_safe env op (ent opMload) 1 1 (λ st, [(nth 0 st 0, 32)]).
Proof. exec_go. use_region. pop_items. finish. Qed.
Lemma opMstore_safe : exec_safe env op (ent opMstore) 2 0 (λ st, [(nth 0 st 0, 32)]).
Proof. exec_go. use_region. pop_items. finish. lia. Qed.
Lemma opCallDataCopy_safe : exec_safe env op (ent opCallDataCopy) 3 0 (λ st, [region 0 2 st]).
Proof. exec_go. use_region. pop_items. finish. lia. Qed.
Lemma opCodeCopy_safe : exec_safe env op (ent opCodeCopy) 3 0 (λ st, [region 0 2 st]).
Proof. exec_go. use_region. pop_items. finish. lia. Qed.
Lemma opReturn_safe : exec_safe env op (ent opReturn) 2 0 (λ st, [region 0 1 st]).
Proof. exec_go. use_region. pop_items. finish. Qed.
Lemma opRevert_safe : exec_safe env op (ent opRevert) 2 0 (λ st, [region 0 1 st]).
Proof. exec_go. use_region. pop_items. finish. Qed.

Lemma opReturnDataCopy_safe : exec_safe env op (ent opReturnDataCopy) 3 0 (λ st, [region 0 2 st]).
Proof.
  exec_go; [by apply evm_evolves_refl|use_region; pop_items; finish; lia|exfalso].
  rewrite !Forall_cons in Hst. destruct Hst as (? & ? & ? & ?).
  rewrite Z.gtb_ltb in *. zbool.
  match goal with E : BitLen _ ≤ 64 |- _ => apply BitLen_le in E; [|done] end.
  rewrite !big_Uint64_small in * by (unfold is_u64; lia). lia.
Qed.

Lemma opMstore8_safe : exec_safe env op (ent opMstore8) 2 0 (λ st, [(nth 0 st 0, 1)]).
Proof.
  exec_go.
  - finish. unfold Memory_Len, Zlen in *. simpl. rewrite length_insert. lia.
  - exfalso. rewrite ?Forall_cons in *. simpl in *. destruct Hrs as [(? & ? & [?|Hr]) _]; [done|].
    simpl in Hr. unfold mem_limit in Hm. rewrite !big_Int64_small in * by lia.
    match goal with E : _ && _ = false |- _ => apply andb_false_iff in E as [E|E] end; zbool; lia.
Qed.

Lemma opExtCodeCopy_safe : exec_safe env op (ent opExtCodeCopy) 4 0 (λ st, [region 1 3 st]).
Proof.
  exec_go. pose proof (evm_db _ _ He).
  assert (Hev : evm_evolves env e (set_stateDB (GetCode (BigToAddress z) (stateDB e)).1 e))
    by (eapply evolves_reads; [exact Henv|done|by_reads]).
  use_region. pop_items. finish_with Hev. lia.
Qed.

Lemma opSha3_safe : exec_safe env op (ent (opSha3 env)) 2 1 (λ st, [region 0 1 st]).
Proof.
  exec_go. pose proof (evm_db _ _ He). use_region. pop_items; [|finish].
  assert (Hev : evm_evolves env e (set_stateDB (AddPreimage (Keccak256Hash env x) x (stateDB e)) e)).
  { apply evolves_db; [done|by apply AddPreimage_evolves|]. intros _. by apply AddPreimage_content. }
  finish_with Hev.
Qed.

Lemma opSuicide_safe : F_writes ∈ fl → exec_safe env op (ent opSuicide) 1 0 (λ _, []).
Proof.
  intros Hw. exec_go. pose proof (evm_db _ _ He).
  assert (Hro : readOnly e = false).
  { refine (not_static _ _ _ _ Ha). simpl. by apply bool_decide_true. }
  set (r := GetBalance (Contract_Address c) (stateDB e)).
  assert (Hr : evolves (stateDB e) r.1) by (apply GetBalance_reads; done).
  assert (Ha1 : evolves r.1 (AddBalance (BigToAddress z) r.2 r.1)).
  { apply AddBalance_evolves; [apply Hr|]. by apply GetBalance_nonneg. }
  set (db := AddBalance _ _ _) in *.
  assert (Hs : evolves db (Suicide (Contract_Address c) db).1) by (apply Suicide_evolves, Ha1).
  assert (Hev : evm_evolves env e (set_stateDB (Suicide (Contract_Address c) db).1 e)).
  { apply evolves_db; [done| |congruence]. split; [apply Hs|]. intros. by apply Hs, Ha1, Hr. }
  finish_with Hev.
Qed.

Lemma pop_topics_safe n (f : Frame DB) E : (n ≤ length (stack f))%nat →
  wpg False True (pop_topics n) (λ _ f', f' = with_stack (drop n (stack f)) f) E f.
Proof.
  revert f. induction n as [|n IH]; intros f Hn; simpl.
  - apply wp_X_ret. by destruct f.
  - do 2 wp_step. destruct (stack f) as [|t st] eqn:Est; [simpl in Hn; lia|]. wp_step.
    eapply wp_mono; [apply IH; simpl in *; lia|done| |done]. intros ts f' ->. by wp_step.
Qed.

Lemma makeLog_safe n : F_writes ∈ fl →
  exec_safe env op (ent (makeLog env n)) (Z.of_nat n + 2) 0 (λ st, [region 0 1 st]).
Proof.
  intros Hw. exec_go. pose proof (evm_db _ _ He).
  assert (Hro : readOnly e = false).
  { refine (not_static _ _ _ _ Ha). simpl. by apply bool_decide_true. }
  unfold Zlen in Hn. simpl in Hn.
  eapply wp_mono; [apply pop_topics_safe; simpl; lia|done| |done].
  intros ts f' ->. pop_items. use_region. pop_items.
  match goal with |- stays _ _ _ (with_db (AddLog ?l _) _) =>
    assert (Hev : evm_evolves env e (set_stateDB (AddLog l (stateDB e)) e))
      by (apply evolves_db; [done|by apply AddLog_evolves|congruence]) end.
  split; [split; simpl in *|exact Hev]; try done; [by apply Forall_drop| |apply Hev].
  unfold Zlen in *. rewrite length_drop. simpl in *. lia.
Qed.
End memory_ops.

(** *** Calls *)

Section call_ops.
Context (h : @Handlers DB) (Hh : safe_handlers env h).
Context (op : OpCode) (g : @gasFunc DB) (vs : stackValidationFunc) (ms : option (@X DB Z)) (fl : list op_flag).
#[local] Abbreviation ent x := (op_entry x g vs ms fl).

Lemma Contract_ref_ok c : contract_ok env c → ref_ok (Contract_ref c).
Proof. intros Hc. split_and!; apply Hc. Qed.

Lemma BigToAddress_nonneg z : 0 ≤ z → 0 ≤ BigToAddress z.
Proof. intros. rewrite BigToAddress_spec by done. by apply Z.mod_pos_bound. Qed.

(** The frame after a call: the item pushed, the output stored, the gas back. *)
Lemma finish_call_safe o l r (f0 f : Frame DB) : frame_ok env f → evm_evolves env (evm f0) (evm f) →
  Zlen (stack f) + 1 ≤ StackLimit → region_ok (memory f) (o, l) →
  wpg False True (finish_call o l r) (stays env f0) (ends env f0) f.
Proof.
  intros Hf Hev Hlim Hr. unfold finish_call, return_gas. wp_step.
  apply wp_mono with (P := False) (Q := λ _ f', ∃ v, 0 ≤ v ∧ f' = with_stack (v :: stack f) f) (E := λ _ _, False);
    [destruct (cr_err r); wp_step; eexists; (split; [|done]); done|done| |done].
  intros _ f1 (v & Hv & ->). wp_step.
  apply wp_mono with (P := False) (E := λ _ _, False)
    (Q := λ _ f', ∃ m, Memory_Len m ≤ mem_limit ∧ f' = with_memory m (with_stack (v :: stack f) f)); [|done| |done].
  { case_match; [|exists (memory f); split; [apply Hf|done]]. wp_step.
    destruct (Memory_Set_region (memory f) o l (cr_ret r)) as (m & Hm & Hl); [apply Hf|done|].
    simpl. rewrite Hm. exists m. split; [|done]. rewrite Hl. apply Hf. }
  intros _ f2 (m & Hm & ->). repeat wp_step. split; [|done].
  apply frame_ok_contract; [|apply contract_ok_Gas; [apply Hf|apply u64_nonneg]].
  apply frame_ok_memory; [|done]. apply frame_ok_stack; [done| |].
  - constructor; [done|apply Hf].
  - unfold Zlen in *. simpl. lia.
Qed.

(** After the arguments: the call, then its common end. *)
Lemma call_finish_safe (c : @H DB CallRes) o l (f0 f : Frame DB) :
  frame_ok env f → evm f = evm f0 → Zlen (stack f) + 1 ≤ StackLimit → region_ok (memory f) (o, l) →
  wpg False True c (call_ok env (evm f)) not_err (evm f) →
  wpg False True (call_evm c) (λ r, wpg False True (finish_call o l r) (stays env f0) (ends env f0))
    (ends env f0) f.
Proof.
  intros Hf He Hlim Hr Hc. apply wp_call_evm. eapply wp_mono; [exact Hc|done| |done].
  intros r e' [Hev _]. apply finish_call_safe; simpl; try done; [|by rewrite <- He].
  apply frame_ok_evm; [done|apply Hev].
Qed.

Ltac call_go :=
  exec_go; use_region; pop_items; apply call_finish_safe; simpl;
  [ by split; simpl; try done; unfold Zlen in *; simpl in *; lia
  | done | unfold Zlen in *; simpl in *; lia | done | ].

Lemma opCallCode_safe : exec_safe env op (ent (opCallCode h)) 7 1 (λ st, [region 5 6 st; region 3 4 st]).
Proof.
  call_go. apply Hh; try done; [by apply Contract_ref_ok|by apply BigToAddress_nonneg| |apply U256_nonneg].
  case_match; auto with nn.
Qed.
Lemma opDelegateCall_safe : exec_safe env op (ent (opDelegateCall h)) 6 1 (λ st, [region 4 5 st; region 2 3 st]).
Proof.
  call_go. apply Hh; [done|by apply Contract_ref_ok|by apply BigToAddress_nonneg|auto with nn].
Qed.
Lemma opStaticCall_safe : exec_safe env op (ent (opStaticCall h)) 6 1 (λ st, [region 4 5 st; region 2 3 st]).
Proof.
  call_go. apply Hh; [done|by apply Contract_ref_ok|by apply BigToAddress_nonneg|auto with nn].
Qed.
End call_ops.

Lemma opCall_safe h g vs ms fl : safe_handlers env h →
  exec_safe env CALL (op_entry (opCall h) g vs ms fl) 7 1 (λ st, [region 5 6 st; region 3 4 st]).
Proof.
  intros Hh. exec_go. use_region. pop_items. apply call_finish_safe; simpl;
  [ by split; simpl; try done; unfold Zlen in *; simpl in *; lia
  | done | unfold Zlen in *; simpl in *; lia | done | ].
  apply Hh; try done; [by apply Contract_ref_ok|by apply BigToAddress_nonneg| |apply U256_nonneg|].
  - case_match; auto with nn.
  - intros Hro. destruct (Ha Hro) as [_ Hv]. simpl in Hv. by rewrite Hv.
Qed.

Lemma UseGas_ok g c : contract_ok env c → contract_ok env (UseGas g c).1.
Proof. intros Hc. unfold UseGas. case_if; [done|]. apply contract_ok_Gas; [done|apply u64_nonneg]. Qed.

Lemma opCreate_safe h op g vs ms fl : safe_handlers env h → F_writes ∈ fl →
  exec_safe env op (op_entry (opCreate h) g vs ms fl) 3 1 (λ st, [region 1 2 st]).
Proof.
  intros Hh Hw. exec_go. use_region. pop_items.
  assert (Hro : readOnly e = false).
  { refine (not_static _ _ _ _ Ha). simpl. by apply bool_decide_true. }
  pose proof (UseGas_ok (u64 (Gas c - Gas c / 64)) c Hc) as Hc1.
  assert (Hlen : Zlen x < 2 ^ 63).
  { match goal with Hr : region_ok _ _, Hx : Zlen x = _ |- _ =>
      destruct Hr as (? & ? & [Hr|Hr]); simpl in Hr; rewrite Hx; unfold mem_limit in Hm; simpl in *; lia end. }
  apply wp_call_evm. simpl.
  eapply wp_mono; [apply Hh; try done; [by apply Contract_ref_ok|apply u64_nonneg]|done| |done].
  intros [addr r] e1 (Hev & Haddr & _). simpl in Haddr. cbv beta. unfold return_gas. apply wp_X_bind.
  apply wp_mono with (P := False) (E := λ _ _, False)
    (Q := λ _ f', ∃ v, 0 ≤ v ∧ f' = mkFrame p (v :: st) m (UseGas (u64 (Gas c - Gas c / 64)) c).1 e1); [|done| |done].
  { repeat case_match; apply wp_push; eexists; (split; [|done]); done. }
  intros _ f1 (v & Hv & ->). pop_items; (split; [split; simpl; try done|exact Hev]).
  all: try apply Hev.
  all: try (by apply contract_ok_Gas; [|apply u64_nonneg]).
  all: try by constructor.
  all: unfold Zlen in *; simpl in *; lia.
Qed.

(** ** The instruction table *)

Lemma simple_op_safe op o p q :
  validateStack o = makeStackFunc p q → 0 ≤ p → memorySize o = None →
  gas_safe env op o (Z.to_nat p) 0 false → exec_safe env op o p q (λ _, []) → op_safe env op o.
Proof.
  intros ? ? Hm ? ?. eapply op_safe_intro with (k := 0%nat) (b := false); try done; try lia;
    [by intros ? ?|by rewrite Hm].
Qed.
Lemma memory_op_safe op o p q m rs :
  validateStack o = makeStackFunc p q → 0 ≤ p → memorySize o = Some m →
  gas_safe env op o (Z.to_nat p) 0 true → size_safe env (Z.to_nat p) m rs →
  exec_safe env op o p q rs → op_safe env op o.
Proof.
  intros ? ? Hm ? ? ?. eapply op_safe_intro with (k := 0%nat) (b := true); try done; try lia; [|by rewrite Hm].
  intros st st' Hd _. by rewrite !drop_0 in Hd; subst.
Qed.
Lemma call_op_safe op o p q m i1 j1 i2 j2 :
  validateStack o = makeStackFunc p q → 0 ≤ p → memorySize o = Some m →
  gas_safe env op o (Z.to_nat p) 1 true →
  size_safe env (Z.to_nat p) m (λ st, [region (S i1) (S j1) st; region (S i2) (S j2) st]) →
  exec_safe env op o p q (λ st, [region (S i1) (S j1) st; region (S i2) (S j2) st]) → op_safe env op o.
Proof.
  intros ? ? Hm ? ? ?. eapply op_safe_intro with (k := 1%nat) (b := true); try done; try lia; [|by rewrite Hm].
  intros st st' Hd _. unfold region. by rewrite !(nth_drop_eq 1 _ st st') by (done || lia).
Qed.

#[local] Hint Constants Opaque : evm_safe.
#[local] Hint Resolve gasConst_safe gasCallDataCopy_safe gasReturnDataCopy_safe gasCodeCopy_safe
  gasExtCodeCopy_safe gasSha3_safe gasMLoad_safe gasMStore_safe gasMStore8_safe gasCreate_safe
  gasReturn_safe gasRevert_safe gasBalance_safe gasExtCodeSize_safe gasSLoad_safe gasExp_safe
  gasPush_safe gasSwap_safe gasDup_safe gasCall_safe gasCallCode_safe gasDelegateCall_safe
  gasStaticCall_safe : evm_safe.
#[local] Hint Resolve memorySha3_size memoryCallDataCopy_size memoryReturnDataCopy_size
  memoryCodeCopy_size memoryExtCodeCopy_size memoryMLoad_size memoryMStore_size memoryMStore8_size
  memoryCreate_size memoryCall_size memoryDelegateCall_size memoryStaticCall_size
  memoryReturn_size memoryRevert_size : evm_safe.
#[local] Hint Resolve opAdd_safe opSub_safe opMul_safe opDiv_safe opSdiv_safe opMod_safe opSmod_safe
  opExp_safe opSignExtend_safe opLt_safe opGt_safe opSlt_safe opSgt_safe opEq_safe opAnd_safe
  opOr_safe opXor_safe opByte_safe opNot_safe opIszero_safe opCallDataLoad_safe opAddmod_safe
  opMulmod_safe opAddress_safe opCaller_safe opCallDataSize_safe opReturnDataSize_safe
  opCodeSize_safe opPc_safe opMsize_safe opGas_safe opOrigin_safe opGasprice_safe opCoinbase_safe
  opTimestamp_safe opNumber_safe opDifficulty_safe opGasLimit_safe opBlockhash_safe opPop_safe
  opJumpdest_safe opStop_safe opCallValue_safe opBalance_safe opExtCodeSize_safe opSload_safe
  opJump_safe opJumpi_safe opMload_safe opMstore_safe opMstore8_safe opCallDataCopy_safe
  opCodeCopy_safe opReturn_safe opRevert_safe opReturnDataCopy_safe opExtCodeCopy_safe opSha3_safe : evm_safe.

Ltac table_safe :=
  intros op o; destruct op;
  cbv beta iota delta [frontier_0x00 frontier_0x30 frontier_0x50 frontier_0x60
    frontier_0x70 frontier_0x80 frontier_0x90 frontier_0xa0];
  intros Ho; simplify_eq.
Ltac calc_nat :=
  repeat match goal with |- context [Z.to_nat ?z] =>
    let n := eval vm_compute in (Z.to_nat z) in change (Z.to_nat z) with n end.
Ltac entry_safe :=
  lazymatch goal with
  | |- op_safe _ _ (op_entry _ _ _ None _) =>
      eapply simple_op_safe; [reflexivity|done|reflexivity|calc_nat; solve [eauto with evm_safe nocore]|]
  | |- op_safe _ _ (op_entry _ _ _ (Some _) _) =>
      first
      [ eapply memory_op_safe; [reflexivity|done|reflexivity
        |calc_nat; solve [eauto with evm_safe nocore]|calc_nat; solve [eauto with evm_safe nocore]|]
      | eapply call_op_safe; [reflexivity|done|reflexivity
        |calc_nat; solve [eauto with evm_safe nocore]|calc_nat; solve [eauto with evm_safe nocore]|] ]
  end; try solve [eauto with evm_safe nocore].

Lemma frontier_0x00_safe : ∀ op o, frontier_0x00 env op = Some o → op_safe env op o.
Proof. table_safe; entry_safe. Qed.
Lemma frontier_0x30_safe : ∀ op o, frontier_0x30 env op = Some o → op_safe env op o.
Proof. table_safe; entry_safe. Qed.
Lemma frontier_0x50_safe : ∀ op o, frontier_0x50 env op = Some o → op_safe env op o.
Proof.
  table_safe; lazymatch goal with |- op_safe _ SSTORE _ => idtac | _ => entry_safe end.
  eapply simple_op_safe; [reflexivity|done|reflexivity|apply gasSStore_safe|apply opSstore_safe];
    first [exact Henv|apply elem_of_cons; by left].
Qed.
Lemma frontier_0x60_safe : ∀ op o, frontier_0x60 op = Some o → op_safe env op o.
Proof. table_safe; entry_safe; by apply makePush_safe. Qed.
Lemma frontier_0x70_safe : ∀ op o, frontier_0x70 op = Some o → op_safe env op o.
Proof. table_safe; entry_safe; by apply makePush_safe. Qed.
Lemma frontier_0x80_safe : ∀ op o, frontier_0x80 op = Some o → op_safe env op o.
Proof.
  table_safe; entry_safe;
    lazymatch goal with |- exec_safe _ ?op (op_entry (makeDup ?n) ?g ?v ?m ?fl) _ _ _ =>
      exact (makeDup_safe op g v m fl n ltac:(lia)) end.
Qed.
Lemma frontier_0x90_safe : ∀ op o, frontier_0x90 op = Some o → op_safe env op o.
Proof.
  table_safe; entry_safe;
    lazymatch goal with |- exec_safe _ ?op (op_entry (makeSwap ?n) ?g ?v ?m ?fl) _ _ _ =>
      exact (makeSwap_safe op g v m fl n ltac:(lia)) end.
Qed.

Section table.
Context (h : @Handlers DB) (Hh : safe_handlers env h).

Lemma frontier_0xa0_safe : ∀ op o, frontier_0xa0 env h op = Some o → op_safe env op o.
Proof.
  table_safe.
  1-5: eapply memory_op_safe; [reflexivity|done|reflexivity
    |apply makeGasLog_safe; first [exact Henv|by apply Nat.leb_le]|apply memoryLog_size; by apply Nat.leb_le|];
    lazymatch goal with |- exec_safe _ ?op (op_entry (makeLog _ ?n) ?g ?v ?m ?fl) _ _ _ =>
      exact (makeLog_safe op g v m fl n ltac:(apply elem_of_cons; by left)) end.
  - entry_safe. apply opCreate_safe; [done|apply elem_of_cons; by left].
  - entry_safe. by apply opCall_safe.
  - entry_safe. by apply opCallCode_safe.
  - entry_safe.
  - eapply simple_op_safe; [reflexivity|done|reflexivity|apply gasSuicide_safe|apply opSuicide_safe];
      first [exact Henv|apply elem_of_cons; right; apply elem_of_cons; by left].
Qed.

Lemma frontier_safe op o : NewFrontierInstructionSet env h op = Some o → op_safe env op o.
Proof.
  unfold NewFrontierInstructionSet. intros Ho. repeat (case_match; [simplify_eq|]);
    eauto using frontier_0x00_safe, frontier_0x30_safe, frontier_0x50_safe, frontier_0x60_safe,
      frontier_0x70_safe, frontier_0x80_safe, frontier_0x90_safe, frontier_0xa0_safe.
Qed.

Lemma ops_safe op o : NewByzantiumInstructionSet env h op = Some o → op_safe env op o.
Proof.
  intros Ho. destruct op;
    try (match goal with |- op_safe _ ?op _ => exact (frontier_safe op o Ho) end);
    cbv beta iota delta [NewByzantiumInstructionSet NewHomesteadInstructionSet] in Ho; simplify_eq;
    entry_safe; [by apply opDelegateCall_safe|by apply opStaticCall_safe].
Qed.
End table.
End ops.
