(* ===== verification/EvmSafetyRun.v ===== *)
(** * The loop and the entry points do not panic

    From the instructions ([EvmSafetyOps]) to [Run], and from there to Call,
    CallCode, DelegateCall, StaticCall and Create at every level of nesting.
    With termination ([EvmTermination]) every entry point of the EVM returns
    a result. *)

From stdpp Require Import base tactics list numbers gmap.
From S2P Require Import Prelude GoMath EvmParams EvmMachine EvmGas EvmAnalysis EvmInstr EvmTable.
From S2P Require Import EvmInterp EvmLaws EvmWp EvmTermination EvmSafety EvmSafetyOps.

#[local] Open Scope Z_scope.

Section run.
Context {DB : Type} {db_ops : StateDB DB} {view : DBView DB} (env : Env DB) (Henv : env_ok env).
#[local] Instance laws_run : StateDBLaws DB (Keccak256Hash env) := ok_laws _ Henv.
#[local] Abbreviation wps := (wpg False True).

Lemma op_body_bind {A} (o : @operation DB) (k : list byte → @X DB A) Q E f :
  wps (op_body env o ≫= k) Q E f →
  wps (memSz ← required_memory o;
       charge env o memSz;;
       m ← gets memory;
       (if memSz >? 0 then set_memory (Memory_Resize memSz m) else mret tt);;
       res ← execute_op o; k res) Q E f.
Proof.
  unfold wpg, op_body, mbind, X_bind, M_bind.
  destruct (required_memory o f) as [f1 [ms| | |]]; try done.
  destruct (charge env o ms f1) as [f2 [[]| | |]]; try done. simpl.
  by destruct (ms >? 0).
Qed.

Section loop.
Context (h : @Handlers DB) (Hh : safe_handlers env h).

Lemma GetOp_in_code p c op : OpCode_of_byte (GetOp p c) = Some op → op ≠ STOP → p < Zlen (Code c).
Proof.
  unfold GetOp, GetByte. case_if; [done|]. intros Hop Hne. exfalso. apply Hne.
  vm_compute in Hop. by simplify_eq.
Qed.

Lemma enforce_allowed b op o f :
  OpCode_of_byte b = Some op → NewByzantiumInstructionSet env h op = Some o →
  frame_ok env f → validateStack o (stack f) = None →
  wps (enforceRestrictions b o) (λ _ f', f' = f ∧ allowed op o f) (ends env f) f.
Proof.
  intros Hb Ho Hf Hst. unfold enforceRestrictions. do 2 wp_step.
  destruct (readOnly (evm f)) eqn:Hr; [|wp_step; split; [done|unfold allowed; congruence]].
  destruct (writes o) eqn:Hw; [wp_step; by apply evm_evolves_refl, Hf|].
  apply OpCode_of_byte_Some in Hb.
  destruct (byteZ b =? OpCode_byte CALL) eqn:E; zbool.
  - assert (op = CALL) as -> by (apply OpCode_byte_inj; congruence).
    assert (Hlen : (2 < length (stack f))%nat).
    { cbn in Ho. simplify_eq. apply makeStackFunc_None in Hst as [Hst _]. unfold Zlen in Hst. lia. }
    wp_step. apply wp_Back. destruct (lookup_lt_is_Some_2 _ _ Hlen) as [v Hv]. rewrite Hv.
    case_if; wp_step; [by apply evm_evolves_refl, Hf|]. split; [done|]. intros _. split; [done|].
    intros _. rewrite nth_lookup, Hv. simpl. apply BitLen_le in E0; lia.
  - wp_step. split; [done|]. intros _. split; [done|]. intros ->. congruence.
Qed.

Lemma step_safe f : frame_ok env f → wps (step env h) (stays env f) (ends env f) f.
Proof.
  intros Hf. pose proof (evm_evolves_refl _ Henv _ (f_evm _ _ Hf)) as Hrefl.
  unfold step. do 4 wp_step. unfold JumpTable.
  destruct (OpCode_of_byte _) as [op|] eqn:Hb; [|by wp_step].
  destruct (NewByzantiumInstructionSet env h op) as [o|] eqn:Ho; [|by wp_step].
  do 2 wp_step. destruct (validateStack o (stack f)) eqn:Hv; [by wp_step|].
  wp_step. eapply wp_mono; [by eapply enforce_allowed|done| |done].
  intros _ f1 [-> Ha]. apply op_body_bind. wp_step.
  eapply wp_mono; [apply (ops_safe env Henv h Hh op); try done|done| |done].
  - by eapply GetOp_in_code.
  - intros res f2 [Hf2 Hev]. do 2 wp_step. unfold stays.
    destruct (reverts o), (halts o), (jumps o); simpl; repeat wp_step; (split; [|done]); try done.
    apply frame_ok_pc; [done|apply u64_range].
Qed.

Lemma Run_loop_safe fuel f : frame_ok env f → wps (Run_loop env h fuel) (stays env f) (ends env f) f.
Proof.
  revert f. induction fuel as [|fuel IH]; intros f Hf; [done|].
  simpl. do 2 wp_step. destruct (abort (evm f)).
  { wp_step. split; [done|]. by apply evm_evolves_refl, Hf. }
  wp_step. eapply wp_mono; [by apply step_safe|done| |done]. intros [x|] f1 [Hf1 Hev]; [by wp_step|].
  eapply wp_mono; [by apply IH|done| |].
  - intros r f2 [? ?]. split; [done|]. by eapply evm_evolves_trans.
  - intros er f2 ?. by eapply evm_evolves_trans.
Qed.

(** ** Frames *)

Definition runs_to (e : EVM DB) {A} (_ : A) (e' : EVM DB) : Prop := evm_evolves env e e'.

Lemma contract_ok_Input i c : contract_ok env c → contract_ok env (set_Input i c).
Proof. intros []. by split. Qed.

Lemma Run_safe c input e : evm_ok env e → (Code c ≠ [] → contract_ok env c) →
  wps (Run env h c input) (runs_to e) not_err e.
Proof.
  intros He Hc. unfold Run, wpg. destruct (Zlen (Code c) =? 0) eqn:E; zbool.
  { destruct He. split; simpl; try done; lia. }
  assert (Hc' : contract_ok env c) by (apply Hc; intros Hnil; by rewrite Hnil in E).
  set (f := mkFrame _ _ _ _ _).
  assert (Hf : frame_ok env f).
  { destruct He. split; simpl; try done; by apply contract_ok_Input. }
  pose proof (Run_loop_safe (loop_fuel c) f Hf) as HR. unfold wpg in HR.
  assert (Hleave : ∀ e', evm_evolves env (evm f) e' → evm_evolves env e (set_depth (depth e' - 1) e')).
  { intros e' [[] Hd ? ? ?]. simpl in Hd. split; simpl; try done. lia. }
  destruct (Run_loop _ _ _ f) as [f' []]; try done; apply Hleave; [apply HR|exact HR].
Qed.

Lemma run_safe c input e : evm_ok env e → (Code c ≠ [] → contract_ok env c) →
  wps (run env h c input) (runs_to e) not_err e.
Proof.
  intros He Hc. unfold run. destruct (CodeAddr c) as [a|]; [|by apply Run_safe].
  destruct (precompiles env a); [|by apply Run_safe]. by apply evm_evolves_refl.
Qed.

(** ** Snapshots *)

(** [e] was saved as snapshot [id], and the EVM has evolved to [e']. *)
Record saved (id : Z) (e e' : EVM DB) : Prop := {
  sv_ev : evm_evolves env e e';
  sv_snap : restores id (stateDB e) (stateDB e');
  sv_fresh i d : restores i d (stateDB e) → i < id }.

Lemma saved_evolves id e e1 e2 : saved id e e1 → evm_evolves env e1 e2 → saved id e e2.
Proof. intros [? ? ?] Hev. split; [by eapply evm_evolves_trans|by apply Hev|done]. Qed.

Lemma Snapshot_saved e : evm_ok env e →
  saved (Snapshot (stateDB e)).2 e (set_stateDB (Snapshot (stateDB e)).1 e).
Proof.
  intros He. pose proof (evm_db _ _ He) as Hdb. split; simpl.
  - apply evolves_reads; [done|done|by_reads].
  - by apply Snapshot_restores.
  - intros i d. by apply Snapshot_fresh.
Qed.

(** Settling a result: after an error the state is the saved one. *)
Lemma settle_safe id c err e e' : saved id e e' →
  wps (settle id c err)
    (λ _ e2, evm_evolves env e e2 ∧ (err ≠ None → db_equiv (stateDB e2) (stateDB e))) not_err e'.
Proof.
  intros [Hev Hsnap Hfresh]. unfold settle. destruct err as [er|]; [|by split].
  apply wp_bind. destruct (Revert_spec id (stateDB e) (stateDB e')) as (db & Hr & Heq & Hok & Hold);
    [apply Hev|done|]. unfold wpg at 1, H_revert. rewrite Hr.
  assert (Hev' : evm_evolves env e (set_stateDB db e')).
  { destruct Hev as [[] ? ? Hs ?]. split; simpl; try done.
    - intros i d Hi. apply Hold; eauto.
    - intros _. by apply equiv_content. }
  by destruct (bool_decide _).
Qed.

(** ** The common end of the calls *)

Lemma evolves_new_jumpdests e e1 clr : evm_evolves env e e1 → evm_evolves env e (new_jumpdests clr e1).
Proof.
  destruct clr; [|done]. intros [[] ? ? ? ?]. by repeat split.
Qed.

(** A contract before its code is set. *)
Definition bare_ok (c : Contract) : Prop :=
  0 ≤ CallerAddress c ∧ 0 ≤ Contract_Address c ∧ 0 ≤ Gas c ∧ ∃ v, value c = Some v ∧ 0 ≤ v.

Lemma bare_ok_code c a hsh code : bare_ok c → Zlen code < 2 ^ 63 → has_hash env hsh code →
  contract_ok env (SetCallCode a hsh code c).
Proof. intros (? & ? & ? & ?) ? ?. by split. Qed.

Lemma ref_Address_nonneg r : ref_ok r → 0 ≤ ref_Address r.
Proof. destruct r; simpl; [done|]. by intros []. Qed.

Lemma NewContract_bare clr a v gas : ref_ok clr → 0 ≤ a → 0 ≤ v → 0 ≤ gas →
  bare_ok (NewContract clr (AccountRef a) (Some v) gas).
Proof. intros Hr ? ? ?. split_and!; simpl; try done; [by apply ref_Address_nonneg|eauto]. Qed.

Lemma load_run_settle_safe {A} id addr input c0 (k : Contract → list byte → option evm_error → @H DB A) Q e e' :
  saved id e e' → bare_ok c0 →
  (∀ c ret err e2, evm_evolves env e e2 → (err ≠ None → db_equiv (stateDB e2) (stateDB e)) →
     wps (k c ret err) Q not_err e2) →
  wps (hash ← H_read (GetCodeHash addr);
       code ← H_read (GetCode addr);
       res ← run env h (SetCallCode addr hash code c0) input;
       let '(contract, (ret, err)) := (res : Contract * (list byte * option evm_error)) in
       contract ← settle id contract err; k contract ret err) Q not_err e'.
Proof.
  intros Hs Hc0 Hk. do 4 wp_H_step.
  pose proof (evm_db _ _ (ev_ok _ _ _ (sv_ev _ _ _ Hs))) as Hdb.
  pose proof (GetCode_hash addr (stateDB e') Hdb) as Hhash.
  pose proof (GetCodeHash_reads addr (stateDB e') Hdb) as Hr1.
  destruct (GetCodeHash addr (stateDB e')) as [db1 hsh]. simpl in *.
  pose proof (GetCode_length addr db1 (proj1 (proj1 Hr1))) as Hlen.
  assert (Hs2 : saved id e (set_stateDB (GetCode addr db1).1 (set_stateDB db1 e'))).
  { eapply saved_evolves; [eapply saved_evolves; [done|]|]; apply evolves_reads; simpl; try done.
    - apply Hs.
    - apply (ev_ok env e'), evolves_reads; [done|apply Hs|done].
    - apply GetCode_reads, Hr1. }
  wp_H_step. eapply wp_mono; [apply run_safe; [apply Hs2|]|done| |done].
  { simpl. intros Hne. destruct Hhash as [? | ->]; [done|]. by apply bare_ok_code. }
  intros [c [ret err]] e3 Hev3. apply (saved_evolves _ _ _ _ Hs2) in Hev3. wp_H_step.
  eapply wp_mono; [by apply settle_safe|done| |done]. intros c2 e4 [? ?]. by apply Hk.
Qed.

(** ** Entry points *)

Lemma call_ok_refl e r : evm_ok env e → call_ok env e r e.
Proof. intros. split; [by apply evm_evolves_refl|done]. Qed.
Lemma call_ok_reads e e1 r e2 : evm_evolves env e e1 → db_equiv (stateDB e1) (stateDB e) →
  call_ok env e1 r e2 → call_ok env e r e2.
Proof.
  intros ? ? [? Heq]. split; [by eapply evm_evolves_trans|]. intros Herr. trans (stateDB e1); auto.
Qed.

Lemma CanTransfer_reads a v db : db_ok db →
  reads db (CanTransfer (ctx env) a v db).1 ∧
  ((CanTransfer (ctx env) a v db).2 = true → v ≤ (GetBalance a db).2).
Proof.
  intros Hdb. rewrite (ok_CanTransfer _ Henv). unfold hvm_CanTransfer.
  pose proof (GetBalance_reads a db Hdb). destruct (GetBalance a db) as [db1 b]. simpl in *.
  split; [done|]. unfold big_Cmp. destruct (Z.compare_spec b v); simpl; lia || done.
Qed.

(** The checks all calls start with, and the balance check of some. *)
Ltac call_guards :=
  wp_H_step; wp_H_step; cbv beta;
  case_match; [wp_H_step; by apply call_ok_refl|];
  case_match; [wp_H_step; by apply call_ok_refl|].
Ltac balance_guard Hcan e1 Hev1 Heq1 :=
  wp_H_step; wp_H_step; cbv beta;
  lazymatch goal with He : evm_ok _ ?e |- context [CanTransfer _ ?a ?v (stateDB ?e)] =>
    pose proof (CanTransfer_reads a v (stateDB e) (evm_db _ _ He)) as [Hcr Hcan];
    pose proof (evolves_reads _ Henv _ _ He Hcr) as Hev1;
    pose proof (proj2 Hcr) as Heq1;
    set (e1 := set_stateDB _ e) in *
  end.

Lemma CallCode_safe clr a i gas v e : evm_ok env e → ref_ok clr → 0 ≤ a → 0 ≤ gas → 0 ≤ v →
  wps (CallCode env h clr a i gas v) (call_ok env e) not_err e.
Proof.
  intros He Hr Ha Hg Hv. unfold CallCode. call_guards.
  balance_guard Hcan e1 Hev1 Heq1. case_match.
  { wp_H_step. split; [done|]. by intros _. }
  do 4 wp_H_step. pose proof (Snapshot_saved e1 (ev_ok _ _ _ Hev1)) as Hs.
  eapply load_run_settle_safe with (e := e1).
  - destruct Hs as [Hse ? ?]. split; [by apply evolves_new_jumpdests| |done]. by destruct clr.
  - apply NewContract_bare; try done. by apply ref_Address_nonneg.
  - intros c ret err e2 ? ?. wp_H_step. eapply call_ok_reads; done.
Qed.

Lemma AsDelegate_bare s ca w gas : ref_ok (ContractPtr s ca w) → 0 ≤ gas →
  ∃ c, AsDelegate (NewContract (ContractPtr s ca w) (AccountRef s) None gas) = Some c ∧ bare_ok c.
Proof. intros (? & ? & ?) ?. eexists. split; [done|]. by split_and!. Qed.

Lemma DelegateCall_safe s ca w a i gas e : evm_ok env e → ref_ok (ContractPtr s ca w) → 0 ≤ a → 0 ≤ gas →
  wps (DelegateCall env h (ContractPtr s ca w) a i gas) (call_ok env e) not_err e.
Proof.
  intros He Hr Ha Hg. unfold DelegateCall. call_guards.
  do 6 wp_H_step. destruct (AsDelegate_bare s ca w gas Hr Hg) as (c & Hc & Hb).
  cbn [ref_Address]. rewrite Hc. eapply load_run_settle_safe with (e := e); [by apply Snapshot_saved|done|].
  intros. by wp_H_step.
Qed.

Lemma StaticCall_safe clr a i gas e : evm_ok env e → ref_ok clr → 0 ≤ a → 0 ≤ gas →
  wps (StaticCall env h clr a i gas)
    (λ r e', call_ok env e r e' ∧ same_content (stateDB e') (stateDB e)) not_err e.
Proof.
  intros He Hr Ha Hg. unfold StaticCall. wp_H_step. wp_H_step. cbv beta.
  case_match; [wp_H_step; split; [by apply call_ok_refl|done]|].
  case_match; [wp_H_step; split; [by apply call_ok_refl|done]|].
  do 8 wp_H_step. set (e1 := set_readOnly true e).
  assert (He1 : evm_ok env e1) by (by destruct He).
  pose proof (Snapshot_saved e1 He1) as Hs.
  eapply load_run_settle_safe with (e := e1).
  - destruct Hs as [Hse ? ?]. split; [by apply evolves_new_jumpdests| |done]. by destruct clr.
  - by apply NewContract_bare.
  - intros c ret err e2 [[] ? ? ? Hst] Heq. do 3 wp_H_step. simpl in *.
    split; [|by apply Hst]. split; [|done]. by repeat split; simpl; auto.
Qed.

Lemma evolves_trans db db1 db2 : evolves db db1 → evolves db1 db2 → evolves db db2.
Proof. intros [? H1] [? H2]. split; [done|]. eauto. Qed.

Lemma transfer_evolves c a v db : db_ok db → 0 ≤ v → v ≤ (GetBalance c db).2 →
  evolves db (Transfer (ctx env) c a v db) ∧ (v = 0 → same_content (Transfer (ctx env) c a v db) db).
Proof.
  intros Hdb Hv Hb. rewrite (ok_Transfer _ Henv). unfold hvm_Transfer.
  assert (Hs : evolves db (SubBalance c v db)) by (by apply SubBalance_evolves).
  split; [eapply evolves_trans; [done|apply AddBalance_evolves; [apply Hs|done]]|].
  intros ->. etrans; [apply AddBalance_content, Hs|by apply SubBalance_content].
Qed.

(** The state a call transfers from: the account exists or was just created,
    and the caller still has the balance that was checked. *)
Lemma ensure_account a e : evm_ok env e →
  let '(db1, ex) := Exist a (stateDB e) in
  wps (if negb ex then H_write (CreateAccount a) else mret tt)
    (λ _ e', evm_evolves env e e' ∧ same_content (stateDB e') (stateDB e) ∧
       ∀ c, (GetBalance c (stateDB e')).2 = (GetBalance c (stateDB e)).2)
    not_err (set_stateDB db1 e).
Proof.
  intros He. pose proof (evm_db _ _ He) as Hdb.
  pose proof (Exist_reads a _ Hdb) as Hr. pose proof (CreateAccount_content a _ Hdb) as Hc.
  destruct (Exist a (stateDB e)) as [db1 ex] eqn:Eex. simpl in *. destruct Hr as [Hev Heq].
  pose proof (proj1 Hev) as Hdb1. destruct ex; simpl.
  - wp_H_step. split_and!; simpl; [by apply evolves_reads|by apply equiv_content|].
    intros. by apply GetBalance_equiv.
  - apply wp_H_write. simpl. split_and!; [|by apply Hc|].
    + apply (evolves_db env e); [done| |intros; by apply Hc].
      eapply evolves_trans; [done|by apply CreateAccount_evolves].
    + intros c. rewrite GetBalance_CreateAccount by done. by apply GetBalance_equiv.
Qed.

Lemma Call_safe clr a i gas v e : evm_ok env e → ref_ok clr → 0 ≤ a → 0 ≤ gas → 0 ≤ v →
  (readOnly e = true → v = 0) → wps (Call env h clr a i gas v) (call_ok env e) not_err e.
Proof.
  intros He Hr Ha Hg Hv Hro. unfold Call. call_guards.
  balance_guard Hcan e1 Hev1 Heq1. case_match.
  { wp_H_step. split; [done|]. by intros _. }
  pose proof (ev_ok _ _ _ Hev1) as He1. pose proof (Snapshot_saved e1 He1) as Hs.
  do 4 wp_H_step. set (e2 := set_stateDB _ e1) in *. pose proof (ev_ok _ _ _ (sv_ev _ _ _ Hs)) as He2.
  pose proof (ensure_account a e2 He2) as Hens. pose proof (Exist_reads a (stateDB e2) (evm_db _ _ He2)) as Hex.
  destruct (Exist a (stateDB e2)) as [db3 ex]. simpl in Hex |- *.
  assert (Hbal : (GetBalance (ref_Address clr) (stateDB e2)).2 = (GetBalance (ref_Address clr) (stateDB e)).2).
  { pose proof (Snapshot_reads (stateDB e1) (evm_db _ _ He1)) as [_ Heq2].
    apply GetBalance_equiv; [apply He2|apply He|]. by trans (stateDB e1). }
  destruct (negb ex && no_precompile env a && (big_Sign v =? 0)).
  { wp_H_step. eapply call_ok_reads; [done|done|]. split; [|done].
    eapply evm_evolves_trans; [done|apply Hs|]. by apply evolves_reads. }
  wp_H_step. eapply wp_mono; [exact Hens|done| |done]. intros _ e3 (Hev3 & Hsc3 & Hb3).
  do 4 wp_H_step. destruct (transfer_evolves (ref_Address clr) a v (stateDB e3)) as [Ht Hts];
    [apply Hev3|done|rewrite Hb3, Hbal; apply Hcan; by destruct (_.2)|].
  assert (Hs4 : saved (Snapshot (stateDB e1)).2 e1 (set_stateDB (Transfer (ctx env) (ref_Address clr) a v (stateDB e3)) e3)).
  { eapply saved_evolves; [by eapply saved_evolves|]. apply evolves_db; [apply Hev3|done|].
    intros Hro3. apply Hts, Hro. rewrite <- Hro3. symmetry.
    by rewrite (ev_readOnly _ _ _ Hev3), (ev_readOnly _ _ _ (sv_ev _ _ _ Hs)), (ev_readOnly _ _ _ Hev1). }
  eapply load_run_settle_safe with (e := e1).
  - destruct Hs4 as [Hse ? ?]. split; [by apply evolves_new_jumpdests| |done]. by destruct clr.
  - by apply NewContract_bare.
  - intros c ret err e5 ? ?. wp_H_step. eapply call_ok_reads; done.
Qed.

(** Creation: the EVM has evolved and the creator still has [v]. *)
Definition funded (c v : Z) (e e' : EVM DB) : Prop :=
  evm_evolves env e e' ∧ v ≤ (GetBalance c (stateDB e')).2.

Lemma funded_reads c v e e1 db : funded c v e e1 → reads (stateDB e1) db → funded c v e (set_stateDB db e1).
Proof.
  intros [Hev Hv] Hr. split; [eapply evm_evolves_trans; [done..|apply evolves_reads; [done|apply Hev|done]]|].
  simpl. rewrite (GetBalance_equiv c db (stateDB e1)); [done|apply Hr|apply Hev|apply Hr].
Qed.
Lemma funded_write c v e e1 db : funded c v e e1 → readOnly e = false → evolves (stateDB e1) db →
  (GetBalance c db).2 = (GetBalance c (stateDB e1)).2 → funded c v e (set_stateDB db e1).
Proof.
  intros [Hev Hv] Hro Hd Hb. split; [|simpl; lia].
  eapply evm_evolves_trans; [done..|]. apply evolves_db; [apply Hev|done|].
  rewrite (ev_readOnly _ _ _ Hev). congruence.
Qed.

Lemma u64_is_u64 x : is_u64 (u64 x).
Proof. apply u64_range. Qed.

(** The part of [Create] before the snapshot. *)
Lemma Create_nonce_funded c v e e1 n a : funded c v e e1 → readOnly e = false →
  let db1 := (GetNonce c (stateDB e1)).1 in
  let db2 := SetNonce c (u64 n) db1 in
  let db3 := (GetCodeHash a db2).1 in
  funded c v e (set_stateDB (GetNonce a db3).1 (set_stateDB db3 (set_stateDB db2 (set_stateDB db1 e1)))).
Proof.
  intros Hf Hro db1 db2 db3. pose proof (evm_db _ _ (ev_ok _ _ _ (proj1 Hf))) as Hdb.
  assert (H1 : funded c v e (set_stateDB db1 e1)) by (apply funded_reads; [done|by_reads]).
  pose proof (evm_db _ _ (ev_ok _ _ _ (proj1 H1))) as Hdb1. simpl in Hdb1.
  assert (H2 : funded c v e (set_stateDB db2 (set_stateDB db1 e1))).
  { apply funded_write; simpl; [done|done|by apply SetNonce_evolves; [|apply u64_is_u64]|by apply GetBalance_SetNonce; [|apply u64_is_u64]]. }
  pose proof (evm_db _ _ (ev_ok _ _ _ (proj1 H2))) as Hdb2. simpl in Hdb2.
  assert (H3 : funded c v e (set_stateDB db3 (set_stateDB db2 (set_stateDB db1 e1))))
    by (apply funded_reads; [done|by_reads]).
  apply funded_reads; [done|]. apply GetNonce_reads. apply (evm_db _ _ (ev_ok _ _ _ (proj1 H3))).
Qed.

Lemma Create_nonce_equiv c v e e1 n a : funded c v e e1 → readOnly e = false →
  let db1 := (GetNonce c (stateDB e1)).1 in
  let db2 := SetNonce c (u64 n) db1 in
  db_equiv (GetNonce a (GetCodeHash a db2).1).1 db2.
Proof.
  intros Hf Hro db1 db2. pose proof (evm_db _ _ (ev_ok _ _ _ (proj1 Hf))) as Hdb.
  assert (Hdb1 : db_ok db1) by by apply GetNonce_reads.
  assert (Hdb2 : db_ok db2) by by apply SetNonce_evolves; [|apply u64_is_u64].
  assert (H3 : reads db2 (GetCodeHash a db2).1) by by_reads.
  etrans; [apply GetNonce_reads, H3|apply H3].
Qed.

(** The part between the snapshot and the initialisation code. *)
Lemma Create_account_saved c a v id e e1 : saved id e e1 → readOnly e = false →
  0 ≤ v ≤ (GetBalance c (stateDB e1)).2 →
  let db1 := CreateAccount a (stateDB e1) in
  let db2 := SetNonce a 1 db1 in
  saved id e (set_stateDB (Transfer (ctx env) c a v db2) (set_stateDB db2 (set_stateDB db1 e1))).
Proof.
  intros Hs Hro [Hv Hb] db1 db2.
  assert (Hf : funded c v e e1) by (split; [apply Hs|done]).
  pose proof (evm_db _ _ (ev_ok _ _ _ (proj1 Hf))) as Hdb.
  assert (He1 : evolves (stateDB e1) db1) by (by apply CreateAccount_evolves).
  assert (He2 : evolves db1 db2) by (apply SetNonce_evolves; [apply He1|done]).
  assert (Hb2 : (GetBalance c db2).2 = (GetBalance c (stateDB e1)).2).
  { subst db2. rewrite GetBalance_SetNonce by (done || apply He1). by apply GetBalance_CreateAccount. }
  destruct (transfer_evolves c a v db2) as [Ht _]; [apply He2|done|by rewrite Hb2|].
  eapply saved_evolves; [exact Hs|].
  assert (Hall : evolves (stateDB e1) (Transfer (ctx env) c a v db2))
    by (eapply evolves_trans; [exact He1|]; by eapply evolves_trans).
  apply (evolves_db env e1); [apply Hs|done|].
  rewrite (ev_readOnly _ _ _ (sv_ev _ _ _ Hs)). congruence.
Qed.

(** Storing the code that the initialisation returned. *)
Lemma store_code_saved a ret err contract id e e' : saved id e e' → readOnly e = false →
  wps (if bool_decide (err = None) && negb (Zlen ret >? MaxCodeSize) then
         match UseGas (u64 (Zlen ret * CreateDataGas)) contract with
         | (contract, true) => H_write (SetCode a ret);; mret (contract, err)
         | (contract, false) => mret (contract, Some ErrCodeStoreOutOfGas)
         end
       else mret (contract, err)) (λ _, saved id e) not_err e'.
Proof.
  intros Hs Hro. case_match eqn:E; [|by wp_H_step]. zbool.
  destruct (UseGas _ contract) as [c []]; [|by wp_H_step]. do 3 wp_H_step.
  unfold MaxCodeSize in *. eapply saved_evolves; [done|]. apply evolves_db; [apply Hs| |].
  - apply SetCode_evolves; [apply Hs|lia].
  - rewrite (ev_readOnly _ _ _ (sv_ev _ _ _ Hs)). congruence.
Qed.

Lemma Create_safe clr code gas v e : evm_ok env e → ref_ok clr → Zlen code < 2 ^ 63 → 0 ≤ gas → 0 ≤ v →
  readOnly e = false →
  wps (Create env h clr code gas v) (create_ok env (ref_Address clr) e) not_err e.
Proof.
  intros He Hr Hcode Hg Hv Hro. unfold Create. wp_H_step. wp_H_step. cbv beta.
  case_match; [wp_H_step; split_and!; [by apply evm_evolves_refl|done|by left]|].
  balance_guard Hcan e1 Hev1 Heq1. case_match; [wp_H_step; split_and!; [done|done|by left]|].
  assert (Hf1 : funded (ref_Address clr) v e e1).
  { split; [done|]. rewrite (GetBalance_equiv _ (stateDB e1) (stateDB e)); [|apply Hev1|apply He|done].
    apply Hcan. by destruct (_.2). }
  do 8 wp_H_step. set (n := (GetNonce _ (stateDB e1)).2). set (a := CreateAddress env _ n).
  pose proof (Create_nonce_funded _ _ _ _ (n + 1) a Hf1 Hro) as Hf2. cbv zeta in Hf2. simpl in Hf2 |- *.
  pose proof (Create_nonce_equiv _ _ _ _ (n + 1) a Hf1 Hro) as Hq2. cbv zeta in Hq2. simpl in Hq2 |- *.
  match type of Hf2 with funded _ _ _ ?x => set (e2 := x) in * end.
  assert (Hnot : ∀ db, db_equiv db (stateDB e2) → not_created (ref_Address clr) (stateDB e) db).
  { intros db Hdb. right. exists (stateDB e1). split; [done|]. etrans; [exact Hdb|exact Hq2]. }
  case_match; [wp_H_step; split_and!; [apply Hf2|done|by intros _; apply Hnot]|].
  pose proof (ev_ok _ _ _ (proj1 Hf2)) as He2. pose proof (Snapshot_saved e2 He2) as Hs.
  assert (Hro2 : readOnly e2 = false) by (by rewrite (ev_readOnly _ _ _ (proj1 Hf2))).
  assert (Hfs : funded (ref_Address clr) v e (set_stateDB (Snapshot (stateDB e2)).1 e2))
    by (apply funded_reads; [done|apply Snapshot_reads, He2]).
  pose proof (Create_account_saved _ a v _ _ _ Hs Hro2 (conj Hv (proj2 Hfs))) as Hs'.
  do 10 wp_H_step. cbv zeta in Hs'. simpl in Hs' |- *.
  match type of Hs' with saved _ _ ?x => set (e3 := x) in * end.
  assert (Hs4 : saved (Snapshot (stateDB e2)).2 e2 (new_jumpdests clr e3)).
  { destruct Hs' as [Hse ? ?]. split; [by apply evolves_new_jumpdests| |done]. by destruct clr. }
  pose proof (ok_CreateAddress _ Henv (ref_Address clr) n) as Haddr.
  case_match; [wp_H_step; split_and!; [eapply evm_evolves_trans; [done|apply Hf2|apply Hs4]|done|done]|].
  wp_H_step. eapply wp_mono; [apply run_safe; [apply Hs4|]|done| |done].
  { intros _. apply bare_ok_code; [by apply NewContract_bare|done|done]. }
  intros [c [ret err]] e4 He4. apply (saved_evolves _ _ _ _ Hs4) in He4. wp_H_step.
  eapply wp_mono; [by apply store_code_saved|done| |done]. intros [c1 err1] e5 Hs5. wp_H_step.
  eapply wp_mono; [by apply settle_safe|done| |done]. intros c2 e6 [Hev6 Herr6]. wp_H_step.
  split_and!; [eapply evm_evolves_trans; [done|apply Hf2|done]|done|]. intros Hne. by apply Hnot, Herr6.
Qed.
End loop.

(** Every level of handlers is safe. *)
Lemma handlers_safe n : safe_handlers env (handlers env n).
Proof.
  induction n as [|n IH]; [by split|]. split; simpl; intros.
  - by apply Call_safe.
  - by apply CallCode_safe.
  - by apply DelegateCall_safe.
  - eapply wp_mono; [by apply StaticCall_safe|done| |done]. by intros r e' [? _].
  - by apply Create_safe.
Qed.

(** A static call changes no content, whatever it runs. *)
Lemma handlers_static n clr a i gas e : evm_ok env e → ref_ok clr → 0 ≤ a → 0 ≤ gas →
  wps (h_StaticCall (handlers env n) clr a i gas)
    (λ _ e', same_content (stateDB e') (stateDB e)) not_err e.
Proof.
  intros. destruct n as [|n]; [done|]. simpl.
  eapply wp_mono; [apply StaticCall_safe; try done; apply handlers_safe|done| |done].
  by intros r e' [_ ?].
Qed.
End run.

(** ** The entry points are total *)

Section total.
Context {DB : Type} {db_ops : StateDB DB} {view : DBView DB} (env : Env DB).
Context (Henv : env_ok env) (Hm : metered env).

Lemma run_total {A} (m : @H DB A) (Q1 Q2 : A → EVM DB → Prop) e :
  wpg False True m Q1 (@not_err DB) e → wp True m Q2 (@no_error DB) e →
  ∃ r e', m e = (e', Val r) ∧ Q1 r e' ∧ Q2 r e'.
Proof.
  intros H1 H2. pose proof (wp_conj _ _ _ _ _ _ _ _ _ _ H1 H2) as H. unfold wpg in H.
  destruct (m e) as [e' [r| | |]]; [|by destruct H..]. eauto.
Qed.

Lemma call_total clr a input gas v e :
  evm_ok env e → 0 ≤ depth e → ref_ok clr → 0 ≤ a → is_u64 gas → 0 ≤ v → (readOnly e = true → v = 0) →
  ∃ r e', EVM_Call env clr a input gas v e = (e', Val r) ∧ call_ok env e r e' ∧ gas_back e gas r e'.
Proof.
  intros He Hd Hc Ha Hg Hv Hro. exact (run_total _ _ _ e
    (sh_Call _ _ (handlers_safe env Henv call_fuel) clr a input gas v e He Hc Ha (proj1 Hg) Hv Hro)
    (rg_Call _ _ (EVM_returns_gas env Hm e Hd) clr a input gas v Hg)).
Qed.
Lemma callcode_total clr a input gas v e :
  evm_ok env e → 0 ≤ depth e → ref_ok clr → 0 ≤ a → is_u64 gas → 0 ≤ v →
  ∃ r e', EVM_CallCode env clr a input gas v e = (e', Val r) ∧ call_ok env e r e' ∧ gas_back e gas r e'.
Proof.
  intros He Hd Hc Ha Hg Hv. exact (run_total _ _ _ e
    (sh_CallCode _ _ (handlers_safe env Henv call_fuel) clr a input gas v e He Hc Ha (proj1 Hg) Hv)
    (rg_CallCode _ _ (EVM_returns_gas env Hm e Hd) clr a input gas v Hg)).
Qed.
Lemma delegatecall_total s ca w a input gas e :
  evm_ok env e → 0 ≤ depth e → ref_ok (ContractPtr s ca w) → 0 ≤ a → is_u64 gas →
  ∃ r e', EVM_DelegateCall env (ContractPtr s ca w) a input gas e = (e', Val r) ∧
    call_ok env e r e' ∧ gas_back e gas r e'.
Proof.
  intros He Hd Hc Ha Hg. exact (run_total _ _ _ e
    (sh_DelegateCall _ _ (handlers_safe env Henv call_fuel) s ca w a input gas e He Hc Ha (proj1 Hg))
    (rg_DelegateCall _ _ (EVM_returns_gas env Hm e Hd) (ContractPtr s ca w) a input gas Hg)).
Qed.
Lemma staticcall_total clr a input gas e :
  evm_ok env e → 0 ≤ depth e → ref_ok clr → 0 ≤ a → is_u64 gas →
  ∃ r e', EVM_StaticCall env clr a input gas e = (e', Val r) ∧
    (call_ok env e r e' ∧ same_content (stateDB e') (stateDB e)) ∧ gas_back e gas r e'.
Proof.
  intros He Hd Hc Ha Hg. unfold EVM_StaticCall.
  pose proof (wp_conj _ _ _ _ _ _ _ _ _ _
    (sh_StaticCall _ _ (handlers_safe env Henv call_fuel) clr a input gas e He Hc Ha (proj1 Hg))
    (handlers_static env Henv call_fuel clr a input gas e He Hc Ha (proj1 Hg))) as Hs.
  apply (run_total _ _ _ e); [|exact (rg_StaticCall _ _ (EVM_returns_gas env Hm e Hd) clr a input gas Hg)].
  revert Hs. generalize (h_StaticCall (handlers env call_fuel) clr a input gas). intros m Hs.
  unfold wpg in *. destruct (m e) as [e' [r| | |]]; [done|..]; by destruct Hs.
Qed.
Lemma create_total clr code gas v e :
  evm_ok env e → 0 ≤ depth e → ref_ok clr → Zlen code < 2 ^ 63 → is_u64 gas → 0 ≤ v → readOnly e = false →
  ∃ r e', EVM_Create env clr code gas v e = (e', Val r) ∧
    create_ok env (ref_Address clr) e r e' ∧ gas_back e gas (snd r) e'.
Proof.
  intros He Hd Hc Hl Hg Hv Hro. exact (run_total _ _ _ e
    (sh_Create _ _ (handlers_safe env Henv call_fuel) clr code gas v e He Hc Hl (proj1 Hg) Hv Hro)
    (rg_Create _ _ (EVM_returns_gas env Hm e Hd) clr code gas v Hg)).
Qed.
End total.
