(* ===== verification/EvmArith.v ===== *)
(** * What the arithmetic instructions compute

    Closed forms of the instructions of [instructions.go] whose Go code is far
    from their meaning: signed division, sign extension, exponentiation by
    words, byte extraction, and the memory instructions. *)

From stdpp Require Import base tactics list numbers gmap.
From S2P Require Import Prelude GoMath EvmParams EvmMachine EvmGas EvmInstr.

#[local] Open Scope Z_scope.

(** The [n] low bits of [x] as a two's complement number. *)
Definition signed (n x : Z) : Z :=
  let w := x mod 2 ^ n in if w <? 2 ^ (n - 1) then w else w - 2 ^ n.

Lemma big_Cmp_ltb x y : (big_Cmp x y <? 0) = (x <? y).
Proof. unfold big_Cmp. destruct (Z.compare_spec x y); simpl; lia. Qed.
Lemma big_Cmp_gtb x y : (big_Cmp x y >? 0) = (y <? x).
Proof. unfold big_Cmp. destruct (Z.compare_spec x y); simpl; lia. Qed.
Lemma big_Cmp_eqb x y : (big_Cmp x y =? 0) = (x =? y).
Proof. unfold big_Cmp. destruct (Z.compare_spec x y); simpl; lia. Qed.

Lemma div_sign x y : y ≠ 0 →
  big_Div (Z.abs x) (Z.abs y) * (if big_Sign (x * y) <? 0 then -1 else 1) = Z.quot x y.
Proof.
  intros Hy. unfold big_Sign. rewrite big_Cmp_ltb. unfold big_Div.
  rewrite Z.abs_idemp, (Z.sgn_pos (Z.abs y)), (Z.quot_div x y) by lia.
  destruct (Z.ltb_spec (x * y) 0), (Z.sgn_spec x) as [[? ->]|[[? ->]|[? ->]]], (Z.sgn_spec y) as [[? ->]|[[? ->]|[? ->]]];
    subst; try lia; rewrite ?Z.abs_0, ?Z.div_0_l by lia; nia.
Qed.

Lemma rem_sign x y : y ≠ 0 →
  big_Mod (Z.abs x) (Z.abs y) * (if big_Sign x <? 0 then -1 else 1) = Z.rem x y.
Proof.
  intros Hy. unfold big_Sign. rewrite big_Cmp_ltb. unfold big_Mod.
  rewrite Z.abs_idemp, (Z.rem_mod x y) by lia.
  destruct (Z.ltb_spec x 0), (Z.sgn_spec x) as [[? ->]|[[? ->]|[? ->]]]; subst; try lia.
  rewrite Z.mod_0_l; lia.
Qed.

(** Sign extension by masks. *)
Lemma lor_lnot_ones x n : 0 ≤ n → Z.lor x (Z.lnot (Z.ones n)) = x mod 2 ^ n - 2 ^ n.
Proof.
  intros Hn. rewrite <- Z.land_ones by done.
  assert (Hd : Z.land (Z.land x (Z.ones n)) (Z.lnot (Z.ones n)) = 0)
    by (rewrite <- Z.land_assoc, Z.land_lnot_diag; apply Z.land_0_r).
  assert (Hs : Z.land x (Z.ones n) - 2 ^ n = Z.land x (Z.ones n) + Z.lnot (Z.ones n))
    by (unfold Z.lnot; rewrite Z.ones_equiv; lia).
  rewrite Hs, Z.add_nocarry_lxor, Z.lxor_lor by done.
  apply Z.bits_inj'. intros i Hi. rewrite !Z.lor_spec, Z.land_spec, Z.lnot_spec by done.
  by destruct (Z.testbit x i), (Z.testbit (Z.ones n) i).
Qed.

Lemma mod_top_bit x n : 0 ≤ n → x mod 2 ^ (n + 1) = x mod 2 ^ n + 2 ^ n * Z.b2z (Z.testbit x n).
Proof.
  intros Hn. rewrite Z.pow_add_r, Z.rem_mul_r, Z.testbit_spec' by lia. by change (2 ^ 1) with 2.
Qed.

Lemma sign_extend_mask x bit : 0 ≤ bit →
  (if Z.testbit x bit then Z.lor x (Z.lnot (Z.shiftl 1 bit - 1)) else Z.land x (Z.shiftl 1 bit - 1)) =
  signed (bit + 1) x.
Proof.
  intros Hb. assert (Hm : Z.shiftl 1 bit - 1 = Z.ones bit) by (rewrite Z.shiftl_1_l, Z.ones_equiv; lia).
  rewrite Hm, lor_lnot_ones, Z.land_ones by done. unfold signed.
  pose proof (Z.mod_pos_bound x (2 ^ bit) ltac:(lia)). rewrite mod_top_bit by done.
  replace (bit + 1 - 1) with bit by lia. rewrite Z.pow_add_r by lia.
  destruct (Z.testbit x bit); simpl; case_if; lia.
Qed.

(** ** Memory *)

(** The bytes [\[o, o + l)] of a memory replaced by [v]. *)
Definition overwrite (o : Z) (v : list byte) (m : Memory) : Memory :=
  mkMemory (take (Z.to_nat o) (store m) ++ v ++ drop (Z.to_nat (o + Zlen v)) (store m)) (lastGasCost m).

Lemma Memory_Set_overwrite o v m : 0 ≤ o → 0 < Zlen v → o + Zlen v ≤ Memory_Len m → Memory_Len m < 2 ^ 63 →
  Memory_Set o (Zlen v) v m = Some (overwrite o v m).
Proof.
  intros Ho Hv Hm Hl. unfold Memory_Set.
  rewrite !Z.gtb_ltb, (proj2 (Z.ltb_ge _ _)), (proj2 (Z.ltb_lt _ _)) by lia.
  rewrite u64_small by (unfold is_u64; lia). rewrite !(proj2 (Z.leb_le _ _)) by lia. simpl.
  unfold overwrite. rewrite go_copy_eq; [done|]. unfold slice, Memory_Len, Zlen in *.
  rewrite length_take, length_drop. lia.
Qed.

Lemma Memory_Len_overwrite o v m : 0 ≤ o → o + Zlen v ≤ Memory_Len m → Memory_Len (overwrite o v m) = Memory_Len m.
Proof.
  intros Ho Hm. unfold Memory_Len, overwrite, Zlen in *. simpl.
  rewrite !length_app, length_take, length_drop. lia.
Qed.

Lemma Memory_Get_overwrite o v m : 0 ≤ o → 0 < Zlen v → o + Zlen v ≤ Memory_Len m → Memory_Len m < 2 ^ 63 →
  Memory_Get o (Zlen v) (overwrite o v m) = Some v.
Proof.
  intros Ho Hv Hm Hl. unfold Memory_Get. rewrite Memory_Len_overwrite by lia.
  rewrite (proj2 (Z.eqb_neq (Zlen v) 0)), Z.gtb_ltb, (proj2 (Z.ltb_lt o _)), (proj2 (Z.ltb_ge (Zlen v) _)) by lia.
  rewrite i64_small, !(proj2 (Z.leb_le _ _)) by lia. cbn [andb]. f_equal.
  assert (Hs : slice o (o + Zlen v) (store (overwrite o v m)) = v).
  { unfold slice, overwrite, Memory_Len, Zlen in *. simpl. rewrite drop_app_ge by (rewrite length_take; lia).
    rewrite length_take. replace (_ - _)%nat with 0%nat by lia. rewrite drop_0.
    replace (Z.to_nat _) with (length v) by lia. by rewrite take_app_length. }
  rewrite Hs. apply go_copy_eq. unfold zeros. rewrite length_replicate. unfold Zlen. lia.
Qed.

Lemma overwrite_outside o v m i : 0 ≤ o → o + Zlen v ≤ Memory_Len m →
  (i < Z.to_nat o)%nat ∨ (Z.to_nat (o + Zlen v) ≤ i)%nat → store (overwrite o v m) !! i = store m !! i.
Proof.
  intros Ho Hm Hi. unfold overwrite, Memory_Len, Zlen in *. simpl. destruct Hi as [Hi|Hi].
  - rewrite lookup_app_l by (rewrite length_take; lia). by apply lookup_take_lt.
  - rewrite lookup_app_r, lookup_app_r by (rewrite ?length_take; lia). rewrite lookup_drop, length_take. f_equal. lia.
Qed.

(** ** Instructions *)

Section ops.
Context {DB : Type} {db_ops : StateDB DB}.

(** [op] takes [xs] from the stack and pushes [r]. *)
Definition computes (op : @executionFunc DB) (xs : list Z) (r : Z) : Prop :=
  ∀ p st m c e, op (mkFrame p (xs ++ st) m c e) = (mkFrame p (r :: st) m c e, Val []).

Ltac run_op op := intros p st m c e; cbv beta iota zeta delta
  [op app mbind mret X_bind X_ret M_bind M_ret pop push gets modify set_stack or_panic
   Stack_pop Stack_push set_top Back Stack_Back fst snd
   EvmMachine.pc EvmMachine.stack EvmMachine.memory EvmMachine.contract EvmMachine.evm].

(** SDIV: the quotient of the signed values, rounded towards zero, in
    two's complement; zero for a zero divisor. *)
Theorem opSdiv_signed x y : computes opSdiv [x; y] (U256 (Z.quot (S256 x) (S256 y))).
Proof.
  run_op @opSdiv. rewrite big_Sign_eqb. destruct (Z.eqb_spec (S256 y) 0) as [->|Hy]; [by destruct (S256 x)|].
  by rewrite <- div_sign.
Qed.

(** SMOD: the remainder with the sign of the dividend; zero for a zero
    divisor. *)
Theorem opSmod_signed x y : computes opSmod [x; y]
  (if S256 y =? 0 then 0 else U256 (Z.rem (S256 x) (S256 y))).
Proof.
  run_op @opSmod. rewrite big_Sign_eqb. destruct (Z.eqb_spec (S256 y) 0) as [Hy|Hy]; [done|].
  by rewrite <- rem_sign.
Qed.

(** SIGNEXTEND: the [8(b+1)] low bits read as a two's complement number;
    the operand itself when [b] is 31 or more. *)
Theorem opSignExtend_signed b x : 0 ≤ b →
  computes opSignExtend [b; x] (if b <? 31 then U256 (signed (8 * (b + 1)) x) else x).
Proof.
  intros Hb. run_op @opSignExtend. rewrite big_Cmp_ltb. destruct (Z.ltb_spec b 31); [|done].
  rewrite big_Uint64_small, u64_small by (unfold is_u64; lia). 
  rewrite sign_extend_mask by lia. by replace (b * 8 + 7 + 1) with (8 * (b + 1)) by lia.
Qed.

(** EXP: the square-and-multiply loop over the machine words of the
    exponent computes the power modulo 2^256. *)
Theorem opExp_power x y : 0 ≤ y → computes opExp [x; y] (x ^ y mod 2 ^ 256).
Proof. intros Hy. run_op @opExp. by rewrite Exp_spec, Z.abs_eq. Qed.

(** BYTE: the [i]-th byte of a 256-bit word, counted from the most
    significant one; zero beyond the 32nd. *)
Theorem opByte_byte i x : 0 ≤ i → is_u256 x →
  computes opByte [i; x] (if i <? 32 then x / 256 ^ (31 - i) mod 256 else 0).
Proof.
  intros Hi Hx. run_op @opByte. rewrite big_Cmp_ltb. destruct (Z.ltb_spec i 32); [|done]. simpl.
  rewrite big_Int64_small by lia. unfold Byte. rewrite Z.geb_leb, (proj2 (Z.leb_gt _ _)) by lia.
  rewrite bigEndianByteAt_spec by (destruct Hx; lia). done.
Qed.

(** ADDMOD and MULMOD work on the unbounded sum and product. *)
Theorem opAddmod_opMulmod x y z : 0 ≤ z →
  computes opAddmod [x; y; z] (if z =? 0 then 0 else U256 ((x + y) mod z)) ∧
  computes opMulmod [x; y; z] (if z =? 0 then 0 else U256 ((x * y) mod z)).
Proof.
  intros Hz. split; [run_op @opAddmod|run_op @opMulmod]; rewrite big_Cmp_gtb;
    (destruct (Z.eqb_spec z 0) as [->|Hne]; [done|]);
    rewrite (proj2 (Z.ltb_lt 0 z)) by lia; unfold big_Mod; by rewrite Z.abs_eq.
Qed.

Lemma S256_idemp x : is_u256 x → S256 (S256 x) = S256 x.
Proof. intros Hx. rewrite (S256_eq (S256 x)). destruct (S256_range x Hx). case_if; lia. Qed.

(** The comparisons: LT and GT of the words, SLT and SGT of the signed
    values. *)
Theorem comparisons x y : is_u256 x → is_u256 y →
  computes opLt [x; y] (Z.b2z (x <? y)) ∧ computes opGt [x; y] (Z.b2z (y <? x)) ∧
  computes opSlt [x; y] (Z.b2z (S256 x <? S256 y)) ∧ computes opSgt [x; y] (Z.b2z (S256 y <? S256 x)) ∧
  computes opEq [x; y] (Z.b2z (x =? y)) ∧ computes opIszero [x] (Z.b2z (x =? 0)).
Proof.
  intros Hx Hy. split_and!; [run_op @opLt|run_op @opGt|run_op @opSlt|run_op @opSgt|run_op @opEq|run_op @opIszero].
  - rewrite big_Cmp_ltb. by destruct (x <? y).
  - rewrite big_Cmp_gtb. by destruct (y <? x).
  - rewrite S256_idemp, big_Cmp_ltb by done. by destruct (S256 x <? S256 y).
  - rewrite big_Cmp_gtb. by destruct (S256 y <? S256 x).
  - rewrite big_Cmp_eqb. by destruct (x =? y).
  - unfold big_Sign. rewrite big_Cmp_gtb. destruct Hx. by destruct (Z.ltb_spec 0 x), (Z.eqb_spec x 0); try lia.
Qed.

(** MSTORE then MLOAD: a word stored in memory is read back, the memory
    keeps its length and no other byte changes. *)
Theorem mstore_mload p st m c (e : EVM DB) off v :
  0 ≤ off → is_u256 v → off + 32 ≤ Memory_Len m → Memory_Len m < 2 ^ 63 →
  ∃ m', opMstore (mkFrame p (off :: v :: st) m c e) = (mkFrame p st m' c e, Val []) ∧
    opMload (mkFrame p (off :: st) m' c e) = (mkFrame p (v :: st) m' c e, Val []) ∧
    Memory_Len m' = Memory_Len m ∧
    ∀ i, (i < Z.to_nat off)%nat ∨ (Z.to_nat (off + 32) ≤ i)%nat → store m' !! i = store m !! i.
Proof.
  intros Ho [Hv0 Hv] Hm Hl. assert (Hp : PaddedBigBytes v 32 = be_bytes 32 v) by (by apply PaddedBigBytes_be).
  assert (Hlen : Zlen (be_bytes 32 v) = 32) by (unfold Zlen; by rewrite length_be_bytes).
  exists (overwrite off (be_bytes 32 v) m). split_and!.
  - cbv [opMstore mbind X_bind M_bind pop gets or_panic Stack_pop mret X_ret M_ret set_stack modify fst snd
      EvmMachine.stack EvmMachine.pc EvmMachine.memory EvmMachine.contract EvmMachine.evm mem_Set set_memory].
    rewrite Hp, big_Uint64_small by (unfold is_u64; lia).
    pose proof (Memory_Set_overwrite off (be_bytes 32 v) m) as Hset. rewrite Hlen in Hset. by rewrite Hset by lia.
  - cbv [opMload mbind X_bind M_bind pop push gets or_panic Stack_pop Stack_push mret X_ret M_ret set_stack modify fst snd
      EvmMachine.stack EvmMachine.pc EvmMachine.memory EvmMachine.contract EvmMachine.evm mem_Get].
    rewrite big_Int64_small by lia.
    pose proof (Memory_Get_overwrite off (be_bytes 32 v) m) as Hget. rewrite Hlen in Hget. rewrite Hget by lia.
    rewrite SetBytes_be_bytes, Z.mod_small by done. done.
  - apply Memory_Len_overwrite; lia.
  - intros i Hi. apply overwrite_outside; rewrite ?Hlen; lia.
Qed.
End ops.

(** ** Witnesses *)

Lemma opExp_power_witness : computes (DB := unit) opExp [3; 5] 243.
Proof. exact (opExp_power (DB := unit) 3 5 ltac:(lia)). Defined.

Definition word_memory : Memory := mkMemory (zeros 64) 6.
