(* ===== verification/EvmData.v ===== *)
(** * Data access, jumps and gas formulas

    What the helpers of [common.go], [analysis.go], [gas.go] and
    [gas_table.go] compute, and the instructions built on them. *)

From stdpp Require Import base tactics list numbers gmap.
From S2P Require Import Prelude GoMath EvmParams EvmMachine EvmGas EvmAnalysis EvmInstr.

#[local] Open Scope Z_scope.

(** ** Reading past the end of data *)

(** Byte [i] of [l]; zero beyond its end. *)
Definition byte_or_0 (l : list byte) (i : Z) : byte := nth (Z.to_nat i) l Byte.x00.

Lemma nth_go_copy_zeros n l i : Zlen l ≤ n → nth i (go_copy (zeros n) l) Byte.x00 = nth i l Byte.x00.
Proof.
  intros Hn. unfold go_copy, zeros, Zlen in *. rewrite length_replicate, take_ge, drop_replicate by lia.
  rewrite !nth_lookup, lookup_app. destruct (l !! i) eqn:E; [done|].
  destruct (replicate _ _ !! _) eqn:E'; [|done]. apply lookup_replicate in E' as [-> _]. done.
Qed.

Lemma RightPadBytes_nth l n i : nth i (RightPadBytes l n) Byte.x00 = nth i l Byte.x00.
Proof. unfold RightPadBytes. case_if; [done|]. apply nth_go_copy_zeros. lia. Qed.

Lemma slice_nth {A} s e (l : list A) i d : 0 ≤ s → 0 ≤ i < e - s → nth (Z.to_nat i) (slice s e l) d = nth (Z.to_nat (s + i)) l d.
Proof.
  intros Hs Hi. unfold slice. rewrite !nth_lookup, lookup_take_lt, lookup_drop by lia. do 2 f_equal. lia.
Qed.

Lemma Zlen_slice {A} s e (l : list A) : 0 ≤ s ≤ e → e ≤ Zlen l → Zlen (slice s e l) = e - s.
Proof. intros. unfold Zlen, slice in *. rewrite length_take, length_drop. lia. Qed.

(** Reading a slice padded with zeros is reading the data. *)
Lemma padded_slice data s n : 0 ≤ s ≤ Zlen data → 0 ≤ n →
  let r := RightPadBytes (slice s (Z.min (s + n) (Zlen data)) data) n in
  Zlen r = n ∧ ∀ i, 0 ≤ i < n → byte_or_0 r i = byte_or_0 data (s + i).
Proof.
  intros Hs Hn r. subst r. rewrite length_RightPadBytes, Zlen_slice by lia. split; [lia|].
  intros i Hi. unfold byte_or_0. rewrite RightPadBytes_nth.
  destruct (decide (s + i < Zlen data)); [apply slice_nth; lia|].
  rewrite !nth_overflow; [done|..]; unfold Zlen in *; [lia|].
  pose proof (Zlen_slice s (Z.min (s + n) (Z.of_nat (length data))) data) as Hl. unfold Zlen in Hl. lia.
Qed.

(** The data CALLDATALOAD, CALLDATACOPY, CODECOPY and EXTCODECOPY read:
    [size] bytes from [start], zero beyond the end, for any offset. *)
Theorem getDataBig_reads data start size : 0 ≤ start → 0 ≤ size < 2 ^ 63 → Zlen data < 2 ^ 63 →
  Zlen (getDataBig data start size) = size ∧
  ∀ i, 0 ≤ i < size → byte_or_0 (getDataBig data start size) i = byte_or_0 data (start + i).
Proof.
  intros Hs Hn Hd. unfold getDataBig. rewrite !BigMin_spec. pose proof (Zlen_nonneg data).
  rewrite (big_Uint64_small size) by (unfold is_u64; lia). rewrite i64_small by lia.
  rewrite !big_Uint64_small by (unfold is_u64; lia).
  destruct (padded_slice data (Z.min start (Zlen data)) size) as [Hl Hb]; [lia..|]. split; [done|].
  intros i Hi. rewrite Hb by done. destruct (decide (start ≤ Zlen data)); [f_equal; lia|].
  unfold byte_or_0, Zlen in *. rewrite !nth_overflow by lia. done.
Qed.

(** [getData] reads the same when start and size do not add up to more
    than a [uint64]. *)
Theorem getData_reads data start size :
  0 ≤ start → 0 ≤ size < 2 ^ 63 → Zlen data < 2 ^ 63 →
  ∃ r, getData data start size = Some r ∧ Zlen r = size ∧
    ∀ i, 0 ≤ i < size → byte_or_0 r i = byte_or_0 data (start + i).
Proof.
  intros Hs Hn Hd. unfold getData. pose proof (Zlen_nonneg data). rewrite !Z.gtb_ltb.
  set (s := if Zlen data <? start then Zlen data else start).
  assert (Hs' : s = Z.min start (Zlen data)) by (unfold s; case_if; lia). clearbody s. subst s.
  rewrite i64_small, u64_small by (unfold is_u64; lia). set (e := if _ <? _ then _ else _).
  assert (He : e = Z.min (Z.min start (Zlen data) + size) (Zlen data)) by (unfold e; case_if; lia). clearbody e. subst e.
  rewrite (proj2 (Z.leb_le _ _)) by lia. eexists. split; [done|].
  destruct (padded_slice data (Z.min start (Zlen data)) size) as [Hl Hb]; [lia..|]. split; [done|].
  intros i Hi. rewrite Hb by done. destruct (decide (start ≤ Zlen data)); [f_equal; lia|].
  unfold byte_or_0, Zlen in *. rewrite !nth_overflow by lia. done.
Qed.

(** [getData] is not overflow safe: a size close to 2^64 wraps the end of
    the slice below its start, and the slice expression panics. *)
Theorem getData_overflow data start size :
  0 < start ≤ Zlen data → Zlen data < 2 ^ 63 → 2 ^ 64 - start ≤ size < 2 ^ 64 →
  getData data start size = None.
Proof.
  intros Hs Hd Hn. unfold getData. rewrite !Z.gtb_ltb, (proj2 (Z.ltb_ge (Zlen data) start)) by lia.
  assert (Hu : u64 (start + size) = start + size - 2 ^ 64).
  { unfold u64. rewrite <- (Z.mod_add _ (-1)) by lia. apply Z.mod_small. lia. }
  rewrite Hu, (proj2 (Z.ltb_ge _ _)), (proj2 (Z.leb_gt _ _)) by lia. done.
Qed.

(** ** Gas *)

(** The fee of a memory of [w] words. *)
Definition memory_fee (w : Z) : Z := 3 * w + w * w / 512.

Lemma memory_fee_mono w w' : 0 ≤ w ≤ w' → memory_fee w ≤ memory_fee w'.
Proof. intros. unfold memory_fee. assert (w * w / 512 ≤ w' * w' / 512) by (apply Z.div_le_mono; nia). lia. Qed.

(** Growing a memory of [w] words, whose fee was paid, to hold [size] bytes
    costs the difference of the fees of the two sizes, and the new fee is
    recorded; a memory that is large enough is free.  The arithmetic is exact
    below 2^32 words. *)
Theorem memoryGasCost_fee m w size :
  0 ≤ w < 2 ^ 32 → Memory_Len m = 32 * w → lastGasCost m = memory_fee w → 0 ≤ size ≤ 0x1fffffffe0 →
  let w' := Z.max w ((size + 31) / 32) in
  memoryGasCost m size = (mkMemory (store m) (memory_fee w'), Val (memory_fee w' - memory_fee w)).
Proof.
  intros Hw Hl Hf Hs w'. unfold memoryGasCost.
  assert (Hsame : mkMemory (store m) (memory_fee w) = m) by (rewrite <- Hf; by destruct m).
  assert (Hq : 32 * ((size + 31) / 32) ≤ size + 31 < 32 * ((size + 31) / 32) + 32)
    by (pose proof (Z.div_mod (size + 31) 32); pose proof (Z.mod_pos_bound (size + 31) 32); lia).
  case_if.
  { assert (w' = w) as -> by (unfold w'; subst size; change ((0 + 31) / 32) with 0; lia). by rewrite Hsame, Z.sub_diag. }
  assert (Hws : toWordSize size = (size + 31) / 32).
  { unfold toWordSize, MaxUint64. rewrite Z.gtb_ltb, (proj2 (Z.ltb_ge _ _)) by lia. done. }
  rewrite Z.gtb_ltb, (proj2 (Z.ltb_ge _ size)), Hws by lia. set (q := (size + 31) / 32) in *.
  rewrite u64_small by (unfold is_u64; lia). rewrite Hl, Z.gtb_ltb.
  destruct (Z.ltb_spec (32 * w) (q * 32)).
  - assert (w' = q) as -> by (unfold w'; lia). unfold MemoryGas, QuadCoeffDiv. rewrite Hf.
    pose proof (memory_fee_mono w q ltac:(lia)). pose proof (memory_fee_mono 0 w ltac:(lia)).
    assert (0 ≤ q * q < 2 ^ 64) by nia. assert (0 ≤ q * q / 512 < 2 ^ 55) by (split; [apply Z.div_pos|apply Z.div_lt_upper_bound]; lia).
    rewrite (u64_small (q * q)), (u64_small (q * 3)), (u64_small (q * 3 + _)) by (unfold is_u64; lia).
    replace (q * 3 + q * q / 512) with (memory_fee q) by (unfold memory_fee; lia).
    change (memory_fee 0) with 0 in *. rewrite u64_small; [done|]. unfold is_u64, memory_fee in *. lia.
  - assert (w' = w) as -> by (unfold w'; lia). by rewrite Hsame, Z.sub_diag.
Qed.

(** Above that size the product of the words wraps: a fresh memory of 2^37
    bytes, a size the function accepts, is charged no quadratic part. *)
Theorem memoryGasCost_wraps :
  memoryGasCost NewMemory (2 ^ 37) = (mkMemory [] (3 * 2 ^ 32), Val (3 * 2 ^ 32)) ∧
  memory_fee (2 ^ 32) = 3 * 2 ^ 32 + 2 ^ 55.
Proof. by split; vm_compute. Qed.

(** All but one 64th. *)
Definition L64 (n : Z) : Z := n - n / 64.

(** The gas a CALL passes on is the requested amount, capped to all but one
    64th of what remains after the base fee. *)
Theorem callGas_capped available base requested :
  is_u64 available → 0 ≤ base ≤ available → 0 ≤ requested →
  callGas GasTableEIP158 available base requested = Val (Z.min requested (L64 (available - base))).
Proof.
  unfold is_u64. intros Ha Hb Hr. unfold callGas. simpl.
  rewrite (u64_small (available - base)) by (unfold is_u64; lia). set (n := available - base).
  assert (Hd : 0 ≤ n / 64 ≤ n) by (pose proof (Z.div_mod n 64); pose proof (Z.mod_pos_bound n 64); lia).
  rewrite u64_small by (unfold is_u64, n in *; lia). fold (L64 n). unfold L64 in *.
  destruct (decide (requested < 2 ^ 64)).
  - rewrite Z.gtb_ltb, (proj2 (Z.ltb_ge 64 _)) by (apply BitLen_le; lia). simpl.
    rewrite big_Uint64_small by (unfold is_u64; lia). case_if; f_equal; lia.
  - assert (64 < BitLen requested).
    { destruct (decide (BitLen requested ≤ 64)) as [Hle|]; [|lia]. apply BitLen_le in Hle; lia. }
    rewrite Z.gtb_ltb, (proj2 (Z.ltb_lt _ _)) by done. simpl. f_equal. unfold n in *. lia.
Qed.

(** ** Jumps and pushes *)

Section code.
Context {DB : Type} {db_ops : StateDB DB}.

Ltac run_op op := cbv beta iota zeta delta
  [op jumpdest_ok mbind mret X_bind X_ret M_bind M_ret pop push gets modify set_stack set_evm set_pc or_panic
   Stack_pop Stack_push fst snd fail panic
   EvmMachine.pc EvmMachine.stack EvmMachine.memory EvmMachine.contract EvmMachine.evm].

(** JUMP goes to its operand when a JUMPDEST stands there that is not push
    data, and fails otherwise, whatever the cache of analyses holds as long
    as its entries belong to the code hashes they are stored under. *)
Theorem opJump_lands known p pos st m c (e : EVM DB) :
  known (CodeHash c) (Code c) → (∀ code, known (CodeHash c) code → code = Code c) →
  cache_ok known (dests e) → 0 ≤ pos → Zlen (Code c) ≤ 2 ^ 62 →
  ∃ d, cache_ok known d ∧
    (valid_jumpdest (Code c) (Z.to_nat pos) →
       opJump (mkFrame p (pos :: st) m c e) = (mkFrame pos st m c (set_jumpdests d e), Val [])) ∧
    (¬ valid_jumpdest (Code c) (Z.to_nat pos) →
       opJump (mkFrame p (pos :: st) m c e) =
       (mkFrame p st m c (set_jumpdests d e), Err (errInvalidJump (byteZ (GetOp (big_Uint64 pos) c)) pos))).
Proof.
  intros Hk Hu Hc Hp Hl. destruct (has_spec known (dests e) (CodeHash c) (Code c) pos Hk Hu Hc Hp)
    as (d & b & Hhas & Hd & Hb). exists d. split; [done|]. split; intros Hv.
  - assert (Hlt : pos < 2 ^ 62) by (destruct Hv as [_ Hv%lookup_lt_Some]; unfold Zlen in Hl; lia).
    rewrite (proj2 Hb (conj Hlt Hv)) in Hhas. run_op @opJump. rewrite Hhas. simpl.
    by rewrite big_Uint64_small by (unfold is_u64; lia).
  - assert (b = false) as -> by (destruct b; [by destruct (proj1 Hb eq_refl)|done]).
    run_op @opJump. by rewrite Hhas.
Qed.

(** PUSHn pushes the number the next [n] bytes of code denote, bytes past
    the end of the code counting as zero, and steps over them. *)
Theorem makePush_number n p st m c (e : EVM DB) :
  0 < n ≤ 32 → 0 ≤ p ≤ Zlen (Code c) → Zlen (Code c) < 2 ^ 62 →
  ∃ bs, makePush n n (mkFrame p st m c e) = (mkFrame (p + n) (SetBytes bs :: st) m c e, Val []) ∧
    Zlen bs = n ∧ ∀ i, 0 ≤ i < n → byte_or_0 bs i = byte_or_0 (Code c) (p + 1 + i).
Proof.
  intros Hn Hp Hl. set (L := Zlen (Code c)) in *. set (s := Z.min (p + 1) L).
  destruct (padded_slice (Code c) s n) as [Hlen Hbs]; [unfold s, L in *; lia|lia|].
  fold L in Hlen, Hbs. eexists. split; [|split; [exact Hlen|]].
  - run_op @makePush. rewrite (u64_small (p + 1)), (u64_small (p + n)) by (unfold is_u64; lia).
    rewrite i64_small by lia. fold L.
    assert (Hs : (if p + 1 <? L then p + 1 else L) = s) by (unfold s; case_if; lia). rewrite Hs.
    assert (He : (if s + n <? L then s + n else L) = Z.min (s + n) L) by (case_if; lia). rewrite He.
    rewrite (proj2 (Z.leb_le 0 s)) by (unfold s; lia). done.
  - intros i Hi. rewrite Hbs by done. destruct (decide (p + 1 ≤ L)); [f_equal; unfold s; lia|].
    unfold byte_or_0, s, L, Zlen in *. rewrite !nth_overflow by lia. done.
Qed.

(** SWAPn exchanges the top of the stack with the item [n] below it, and
    DUPn copies the [n]-th item; nothing else moves. *)
Theorem makeSwap_makeDup n p st m c (e : EVM DB) x y :
  (0 < n)%nat → st !! 0%nat = Some x → st !! n = Some y →
  makeSwap n (mkFrame p st m c e) = (mkFrame p (<[0%nat := y]> (<[n := x]> st)) m c e, Val []) ∧
  makeDup (n + 1) (mkFrame p st m c e) = (mkFrame p (y :: st) m c e, Val []).
Proof.
  intros Hn Hx Hy. split; [run_op @makeSwap|run_op @makeDup];
    unfold Stack_swap, Stack_dup; rewrite Nat.add_sub; by rewrite Hy, ?Hx.
Qed.
End code.

(** ** Witnesses *)

Definition five_bytes : list byte := Zbyte <$> [1; 2; 3; 4; 5].

Lemma getData_overflow_witness : getData five_bytes 3 (2 ^ 64 - 1) = None.
Proof. apply (getData_overflow five_bytes 3 (2 ^ 64 - 1)); vm_compute; intuition discriminate. Defined.

Lemma memoryGasCost_fee_witness : memoryGasCost (mkMemory (zeros 32) 3) 1024 = (mkMemory (zeros 32) 98, Val 95).
Proof.
  exact (memoryGasCost_fee (mkMemory (zeros 32) 3) 1 1024 ltac:(lia) eq_refl eq_refl ltac:(lia)).
Defined.

Lemma callGas_capped_witness : callGas GasTableEIP158 6400 0 10000 = Val 6300.
Proof. exact (callGas_capped 6400 0 10000 ltac:(split; lia) ltac:(lia) ltac:(lia)). Defined.

(** PUSH1 0x5b JUMPDEST: the first 0x5b is push data. *)
Definition jump_code : list byte := Zbyte <$> [0x60; 0x5b; 0x5b].
Definition jump_contract : Contract := SetCallCode 2 9 jump_code (NewContract (AccountRef 1) (AccountRef 2) (Some 0) 100).

Lemma opJump_lands_witness : ∃ d,
  valid_jumpdest jump_code 2 ∧
  opJump (mkFrame 0 [2] NewMemory jump_contract (mkEVM tt 0 false [] ∅ false)) =
    (mkFrame 2 [] NewMemory jump_contract (set_jumpdests d (mkEVM tt 0 false [] ∅ false)), Val []).
Proof.
  destruct (opJump_lands (DB := unit) (λ h c, h = 9 ∧ c = jump_code) 0 2 [] NewMemory jump_contract
    (mkEVM tt 0 false [] ∅ false)) as (d & _ & H & _);
    [done|by intros ? [_ ?]|by intros ? ?|lia|by vm_compute|].
  assert (Hv : valid_jumpdest jump_code 2).
  { split; [|done]. apply (boundary_push jump_code 0 0 (Zbyte 0x60)); [constructor|done|done]. }
  exists d. split; [done|]. by apply H.
Defined.

