(* ===== verification/State.v ===== *)
(** * The journaled state database

    [src/blockchain/state]: [journal.go], [state_object.go] and [statedb.go].
    A [StateDB] caches account objects over a Merkle trie, records an undo
    entry for every change and goes back to a snapshot by replaying the
    entries.  Objects are reached through the map only, and an object that
    [resetObjectChange] keeps is out of the map until it is put back, so
    objects are values here.  The trie, the code store, RLP and Keccak-256 are
    the interface [StateEnv]. *)

From stdpp Require Import base tactics list numbers gmap.
From S2P Require Import Prelude GoMath EvmParams EvmMachine.

#[local] Open Scope Z_scope.

Module state.

(** ** Accounts as stored in the trie; [None] is a nil pointer or slice *)
Record Account : Type := mkAccount {
  Nonce : Z;
  Balance : option Z;
  Root : Hash;
  CodeHash : option Hash }.

(** The interfaces [Database] and [Trie] of [database.go], and the functions
    of other packages that the state calls. *)
Class StateEnv : Type := {
  Trie : Type;
  db_error : Type;
  OpenTrie : Hash → db_error + Trie;
  OpenStorageTrie : Hash → Hash → db_error + Trie;
  ZeroTrie : Trie;
  TryGet : list byte → Trie → list byte * option db_error;
  TryUpdate : list byte → list byte → Trie → Trie * option db_error;
  TryDelete : list byte → Trie → Trie * option db_error;
  Trie_Hash : Trie → Hash;
  ContractCode : Hash → Hash → list byte * option db_error;
  ContractCodeSize : Hash → Hash → Z * option db_error;
  Keccak256Hash : list byte → Hash;
  rlp_Account : Account → list byte;
  rlp_Account_decode : list byte → option Account;
  rlp_Split : list byte → list byte * option db_error;
  rlp_bytes : list byte → list byte }.

Section state.
Context {senv : StateEnv}.

Definition emptyCodeHash : Hash := Keccak256Hash [].

(** ** state_object.go *)

Abbreviation Storage := (gmap Z Z).

(** [clean] says that the [onDirty] callback is still set; [code] is [None]
    while it is nil. *)
Record stateObject : Type := mkObject {
  address : Address;
  addrHash : Hash;
  data_Nonce : Z;
  data_Balance : Z;
  data_Root : Hash;
  data_CodeHash : Hash;
  obj_dbErr : option db_error;
  obj_trie : option Trie;
  code : option (list byte);
  cachedStorage : Storage;
  dirtyStorage : Storage;
  dirtyCode : bool;
  suicided : bool;
  touched : bool;
  deleted : bool;
  clean : bool }.

Definition newObject (addr : Address) (data : Account) (onDirty : bool) : stateObject :=
  mkObject addr (Keccak256Hash (Address_Bytes addr)) (Nonce data) (default 0 (Balance data))
    (Root data) (default emptyCodeHash (CodeHash data)) None None None ∅ ∅ false false false false onDirty.
Definition zero_Account : Account := mkAccount 0 None 0 None.

Definition upd_Nonce (n : Z) (o : stateObject) : stateObject :=
  mkObject (address o) (addrHash o) n (data_Balance o) (data_Root o) (data_CodeHash o) (obj_dbErr o)
    (obj_trie o) (code o) (cachedStorage o) (dirtyStorage o) (dirtyCode o) (suicided o) (touched o) (deleted o) (clean o).
Definition upd_Balance (b : Z) (o : stateObject) : stateObject :=
  mkObject (address o) (addrHash o) (data_Nonce o) b (data_Root o) (data_CodeHash o) (obj_dbErr o)
    (obj_trie o) (code o) (cachedStorage o) (dirtyStorage o) (dirtyCode o) (suicided o) (touched o) (deleted o) (clean o).
Definition upd_Root (r : Hash) (o : stateObject) : stateObject :=
  mkObject (address o) (addrHash o) (data_Nonce o) (data_Balance o) r (data_CodeHash o) (obj_dbErr o)
    (obj_trie o) (code o) (cachedStorage o) (dirtyStorage o) (dirtyCode o) (suicided o) (touched o) (deleted o) (clean o).
Definition upd_code (h : Hash) (c : option (list byte)) (d : bool) (o : stateObject) : stateObject :=
  mkObject (address o) (addrHash o) (data_Nonce o) (data_Balance o) (data_Root o) h (obj_dbErr o)
    (obj_trie o) c (cachedStorage o) (dirtyStorage o) d (suicided o) (touched o) (deleted o) (clean o).
Definition upd_trie (t : Trie) (o : stateObject) : stateObject :=
  mkObject (address o) (addrHash o) (data_Nonce o) (data_Balance o) (data_Root o) (data_CodeHash o) (obj_dbErr o)
    (Some t) (code o) (cachedStorage o) (dirtyStorage o) (dirtyCode o) (suicided o) (touched o) (deleted o) (clean o).
Definition upd_storage (c d : Storage) (o : stateObject) : stateObject :=
  mkObject (address o) (addrHash o) (data_Nonce o) (data_Balance o) (data_Root o) (data_CodeHash o) (obj_dbErr o)
    (obj_trie o) (code o) c d (dirtyCode o) (suicided o) (touched o) (deleted o) (clean o).
Definition upd_flags (s t d : bool) (o : stateObject) : stateObject :=
  mkObject (address o) (addrHash o) (data_Nonce o) (data_Balance o) (data_Root o) (data_CodeHash o) (obj_dbErr o)
    (obj_trie o) (code o) (cachedStorage o) (dirtyStorage o) (dirtyCode o) s t d (clean o).
Definition upd_clean (c : bool) (o : stateObject) : stateObject :=
  mkObject (address o) (addrHash o) (data_Nonce o) (data_Balance o) (data_Root o) (data_CodeHash o) (obj_dbErr o)
    (obj_trie o) (code o) (cachedStorage o) (dirtyStorage o) (dirtyCode o) (suicided o) (touched o) (deleted o) c.

Definition obj_setError (err : option db_error) (o : stateObject) : stateObject :=
  mkObject (address o) (addrHash o) (data_Nonce o) (data_Balance o) (data_Root o) (data_CodeHash o)
    (match obj_dbErr o with None => err | e => e end)
    (obj_trie o) (code o) (cachedStorage o) (dirtyStorage o) (dirtyCode o) (suicided o) (touched o) (deleted o) (clean o).

Definition empty (o : stateObject) : bool :=
  (data_Nonce o =? 0) && (big_Sign (data_Balance o) =? 0) && (data_CodeHash o =? emptyCodeHash).

(** [getTrie]: the storage trie, opened on first use. *)
Definition getTrie (o : stateObject) : stateObject * Trie :=
  match obj_trie o with
  | Some t => (o, t)
  | None =>
      match OpenStorageTrie (addrHash o) (data_Root o) with
      | inr t => (upd_trie t o, t)
      | inl err => (obj_setError (Some err) (upd_trie ZeroTrie o), ZeroTrie)
      end
  end.

Definition obj_GetState (key : Hash) (o : stateObject) : stateObject * Hash :=
  match cachedStorage o !! key with
  | Some v => (o, v)
  | None =>
      let '(o, t) := getTrie o in
      match TryGet (Hash_Bytes key) t with
      | (_, Some err) => (obj_setError (Some err) o, 0)
      | (enc, None) =>
          let '(o, value) :=
            if Zlen enc >? 0 then
              let '(content, err) := rlp_Split enc in
              (obj_setError err o, BytesToHash content)
            else (o, 0) in
          if value =? 0 then (o, value)
          else (upd_storage (<[key := value]> (cachedStorage o)) (dirtyStorage o) o, value)
      end
  end.

(** [Code]: nil for an account without code, else loaded once. *)
Definition obj_Code (o : stateObject) : stateObject * option (list byte) :=
  match code o with
  | Some c => (o, Some c)
  | None =>
      if data_CodeHash o =? emptyCodeHash then (o, None)
      else
        let '(c, err) := ContractCode (addrHash o) (data_CodeHash o) in
        let c := if Zlen c =? 0 then None else Some c in
        (upd_code (data_CodeHash o) c (dirtyCode o) (obj_setError err o), c)
  end.

(** ** journal.go *)

Inductive journalEntry : Type :=
| createObjectChange (account : Address)
| resetObjectChange (prev : stateObject)
| suicideChange (account : Address) (prev : bool) (prevbalance : Z)
| balanceChange (account : Address) (prev : Z)
| nonceChange (account : Address) (prev : Z)
| storageChange (account : Address) (key prevalue : Hash)
| codeChange (account : Address) (prevcode : option (list byte)) (prevhash : Hash)
| refundChange (prev : Z)
| addLogChange (txhash : Hash)
| addPreimageChange (hash : Hash)
| touchChange (account : Address) (prev prevDirty : bool).

(** ** statedb.go *)

Record revision : Type := mkRevision { rev_id : Z; journalIndex : nat }.

(** A log with the fields the database adds to it. *)
Record StoredLog : Type := mkStoredLog {
  sl_log : Log; sl_TxHash : Hash; sl_BlockHash : Hash; sl_TxIndex : Z; sl_Index : Z }.

(** The head of [journal] is its last entry. *)
Record StateDB : Type := mkStateDB {
  trie : Trie;
  stateObjects : gmap Z stateObject;
  stateObjectsDirty : gset Z;
  dbErr : option db_error;
  refund : Z;
  thash : Hash;
  bhash : Hash;
  txIndex : Z;
  logs : gmap Z (list StoredLog);
  logSize : Z;
  preimages : gmap Z (list byte);
  journal : list journalEntry;
  validRevisions : list revision;
  nextRevisionId : Z }.

Definition set_objects (m : gmap Z stateObject) (d : gset Z) (s : StateDB) : StateDB :=
  mkStateDB (trie s) m d (dbErr s) (refund s) (thash s) (bhash s) (txIndex s) (logs s) (logSize s)
    (preimages s) (journal s) (validRevisions s) (nextRevisionId s).
Definition set_trie (t : Trie) (s : StateDB) : StateDB :=
  mkStateDB t (stateObjects s) (stateObjectsDirty s) (dbErr s) (refund s) (thash s) (bhash s) (txIndex s)
    (logs s) (logSize s) (preimages s) (journal s) (validRevisions s) (nextRevisionId s).
Definition set_refund (r : Z) (s : StateDB) : StateDB :=
  mkStateDB (trie s) (stateObjects s) (stateObjectsDirty s) (dbErr s) r (thash s) (bhash s) (txIndex s)
    (logs s) (logSize s) (preimages s) (journal s) (validRevisions s) (nextRevisionId s).
Definition set_logs (l : gmap Z (list StoredLog)) (n : Z) (s : StateDB) : StateDB :=
  mkStateDB (trie s) (stateObjects s) (stateObjectsDirty s) (dbErr s) (refund s) (thash s) (bhash s) (txIndex s)
    l n (preimages s) (journal s) (validRevisions s) (nextRevisionId s).
Definition set_preimages (p : gmap Z (list byte)) (s : StateDB) : StateDB :=
  mkStateDB (trie s) (stateObjects s) (stateObjectsDirty s) (dbErr s) (refund s) (thash s) (bhash s) (txIndex s)
    (logs s) (logSize s) p (journal s) (validRevisions s) (nextRevisionId s).
Definition set_journal (j : list journalEntry) (v : list revision) (n : Z) (s : StateDB) : StateDB :=
  mkStateDB (trie s) (stateObjects s) (stateObjectsDirty s) (dbErr s) (refund s) (thash s) (bhash s) (txIndex s)
    (logs s) (logSize s) (preimages s) j v n.
(** [s.journal = append(s.journal, e)] *)
Definition log_change (e : journalEntry) (s : StateDB) : StateDB :=
  set_journal (e :: journal s) (validRevisions s) (nextRevisionId s) s.

Definition setError (err : option db_error) (s : StateDB) : StateDB :=
  mkStateDB (trie s) (stateObjects s) (stateObjectsDirty s)
    (match dbErr s with None => err | e => e end)
    (refund s) (thash s) (bhash s) (txIndex s) (logs s) (logSize s)
    (preimages s) (journal s) (validRevisions s) (nextRevisionId s).

Definition clearJournalAndRefund (s : StateDB) : StateDB :=
  set_refund 0 (set_journal [] [] (nextRevisionId s) s).

Definition New (root : Hash) : db_error + StateDB :=
  match OpenTrie root with
  | inl err => inl err
  | inr t => inr (mkStateDB t ∅ ∅ None 0 0 0 0 ∅ 0 ∅ [] [] 0)
  end.

Definition Reset (root : Hash) (s : StateDB) : StateDB * option db_error :=
  match OpenTrie root with
  | inl err => (s, Some err)
  | inr t =>
      (clearJournalAndRefund
         (mkStateDB t ∅ ∅ (dbErr s) (refund s) 0 0 0 ∅ 0 ∅ (journal s) (validRevisions s) (nextRevisionId s)),
       None)
  end.

Definition Prepare (th bh : Hash) (ti : Z) (s : StateDB) : StateDB :=
  mkStateDB (trie s) (stateObjects s) (stateObjectsDirty s) (dbErr s) (refund s) th bh ti (logs s) (logSize s)
    (preimages s) (journal s) (validRevisions s) (nextRevisionId s).

Definition setStateObject (o : stateObject) (s : StateDB) : StateDB :=
  set_objects (<[address o := o]> (stateObjects s)) (stateObjectsDirty s) s.

Definition MarkStateObjectDirty (addr : Address) (s : StateDB) : StateDB :=
  set_objects (stateObjects s) ({[addr]} ∪ stateObjectsDirty s) s.

Definition getStateObject (addr : Address) (s : StateDB) : StateDB * option stateObject :=
  match stateObjects s !! addr with
  | Some obj => if deleted obj then (s, None) else (s, Some obj)
  | None =>
      let '(enc, err) := TryGet (Address_Bytes addr) (trie s) in
      if Zlen enc =? 0 then (setError err s, None)
      else
        match rlp_Account_decode enc with
        | None => (s, None)
        | Some data =>
            let obj := newObject addr data true in
            (setStateObject obj s, Some obj)
        end
  end.

(** An object after an assignment to it: the first one calls [onDirty]. *)
Definition store_dirty (o : stateObject) (s : StateDB) : StateDB :=
  if clean o
  then setStateObject (upd_clean false o) (MarkStateObjectDirty (address o) s)
  else setStateObject o s.

Definition setNonce (nonce : Z) (o : stateObject) (s : StateDB) : StateDB :=
  store_dirty (upd_Nonce nonce o) s.
Definition setBalance (amount : Z) (o : stateObject) (s : StateDB) : StateDB :=
  store_dirty (upd_Balance amount o) s.
Definition setCode (codeHash : Hash) (c : option (list byte)) (o : stateObject) (s : StateDB) : StateDB :=
  store_dirty (upd_code codeHash c true o) s.
Definition setState (key value : Hash) (o : stateObject) (s : StateDB) : StateDB :=
  store_dirty (upd_storage (<[key := value]> (cachedStorage o)) (<[key := value]> (dirtyStorage o)) o) s.

Definition touch (o : stateObject) (s : StateDB) : StateDB :=
  let s := log_change (touchChange (address o) (touched o) (negb (clean o))) s in
  store_dirty (upd_flags (suicided o) true (deleted o) o) s.

Definition obj_SetNonce (nonce : Z) (o : stateObject) (s : StateDB) : StateDB :=
  setNonce nonce o (log_change (nonceChange (address o) (data_Nonce o)) s).
Definition obj_SetBalance (amount : Z) (o : stateObject) (s : StateDB) : StateDB :=
  setBalance amount o (log_change (balanceChange (address o) (data_Balance o)) s).
Definition obj_AddBalance (amount : Z) (o : stateObject) (s : StateDB) : StateDB :=
  if big_Sign amount =? 0 then (if empty o then touch o s else s)
  else obj_SetBalance (data_Balance o + amount) o s.
Definition obj_SubBalance (amount : Z) (o : stateObject) (s : StateDB) : StateDB :=
  if big_Sign amount =? 0 then s
  else obj_SetBalance (data_Balance o - amount) o s.
Definition obj_SetState (key value : Hash) (o : stateObject) (s : StateDB) : StateDB :=
  let '(o, prevalue) := obj_GetState key o in
  setState key value o (log_change (storageChange (address o) key prevalue) s).
Definition obj_SetCode (codeHash : Hash) (c : option (list byte)) (o : stateObject) (s : StateDB) : StateDB :=
  let '(o, prevcode) := obj_Code o in
  setCode codeHash c o (log_change (codeChange (address o) prevcode (data_CodeHash o)) s).

Definition createObject (addr : Address) (s : StateDB) : StateDB * stateObject * option stateObject :=
  let '(s, prev) := getStateObject addr s in
  let newobj := upd_clean false (upd_Nonce 0 (newObject addr zero_Account true)) in
  let s := MarkStateObjectDirty addr s in
  let s := match prev with
           | None => log_change (createObjectChange addr) s
           | Some p => log_change (resetObjectChange p) s
           end in
  (setStateObject newobj s, newobj, prev).

Definition CreateAccount (addr : Address) (s : StateDB) : StateDB :=
  let '(s, new, prev) := createObject addr s in
  match prev with
  | Some p => setBalance (data_Balance p) new s
  | None => s
  end.

(** The object found is never a deleted one, so the second test of the
    source is the first. *)
Definition GetOrNewStateObject (addr : Address) (s : StateDB) : StateDB * stateObject :=
  let '(s, o) := getStateObject addr s in
  match o with
  | Some o => if deleted o then let '(s, new, _) := createObject addr s in (s, new) else (s, o)
  | None => let '(s, new, _) := createObject addr s in (s, new)
  end.

Definition AddBalance (addr : Address) (amount : Z) (s : StateDB) : StateDB :=
  let '(s, o) := GetOrNewStateObject addr s in obj_AddBalance amount o s.
Definition SubBalance (addr : Address) (amount : Z) (s : StateDB) : StateDB :=
  let '(s, o) := GetOrNewStateObject addr s in obj_SubBalance amount o s.
Definition SetBalance (addr : Address) (amount : Z) (s : StateDB) : StateDB :=
  let '(s, o) := GetOrNewStateObject addr s in obj_SetBalance amount o s.
Definition SetNonce (addr : Address) (nonce : Z) (s : StateDB) : StateDB :=
  let '(s, o) := GetOrNewStateObject addr s in obj_SetNonce nonce o s.
(** An empty code is nil. *)
Definition SetCode (addr : Address) (c : list byte) (s : StateDB) : StateDB :=
  let '(s, o) := GetOrNewStateObject addr s in
  obj_SetCode (Keccak256Hash c) (if Zlen c =? 0 then None else Some c) o s.
Definition SetState (addr : Address) (key value : Hash) (s : StateDB) : StateDB :=
  let '(s, o) := GetOrNewStateObject addr s in obj_SetState key value o s.
(** The loop over a Go map: [rewards] lists it in the order it is visited. *)
Definition AddBatchBalance (rewards : list (Address * Z)) (s : StateDB) : StateDB :=
  foldl (λ s '(addr, amount), AddBalance addr amount s) s rewards.

Definition Exist (addr : Address) (s : StateDB) : StateDB * bool :=
  let '(s, o) := getStateObject addr s in (s, match o with Some _ => true | None => false end).
Definition Empty (addr : Address) (s : StateDB) : StateDB * bool :=
  let '(s, o) := getStateObject addr s in (s, match o with Some o => empty o | None => true end).
Definition GetBalance (addr : Address) (s : StateDB) : StateDB * Z :=
  let '(s, o) := getStateObject addr s in (s, match o with Some o => data_Balance o | None => 0 end).
Definition GetNonce (addr : Address) (s : StateDB) : StateDB * Z :=
  let '(s, o) := getStateObject addr s in (s, match o with Some o => data_Nonce o | None => 0 end).
Definition GetCode (addr : Address) (s : StateDB) : StateDB * list byte :=
  let '(s, o) := getStateObject addr s in
  match o with
  | Some o => let '(o, c) := obj_Code o in (setStateObject o s, default [] c)
  | None => (s, [])
  end.
Definition GetCodeSize (addr : Address) (s : StateDB) : StateDB * Z :=
  let '(s, o) := getStateObject addr s in
  match o with
  | Some o =>
      match code o with
      | Some c => (s, Zlen c)
      | None =>
          let '(size, err) := ContractCodeSize (addrHash o) (data_CodeHash o) in
          (setError err s, size)
      end
  | None => (s, 0)
  end.
Definition GetCodeHash (addr : Address) (s : StateDB) : StateDB * Hash :=
  let '(s, o) := getStateObject addr s in (s, match o with Some o => data_CodeHash o | None => 0 end).
Definition GetState (addr : Address) (key : Hash) (s : StateDB) : StateDB * Hash :=
  let '(s, o) := getStateObject addr s in
  match o with
  | Some o => let '(o, v) := obj_GetState key o in (setStateObject o s, v)
  | None => (s, 0)
  end.
Definition HasSuicided (addr : Address) (s : StateDB) : StateDB * bool :=
  let '(s, o) := getStateObject addr s in (s, match o with Some o => suicided o | None => false end).

Definition Suicide (addr : Address) (s : StateDB) : StateDB * bool :=
  let '(s, o) := getStateObject addr s in
  match o with
  | None => (s, false)
  | Some o =>
      let s := log_change (suicideChange addr (suicided o) (data_Balance o)) s in
      (store_dirty (upd_Balance 0 (upd_flags true (touched o) (deleted o) o)) s, true)
  end.

Definition AddRefund (gas : Z) (s : StateDB) : StateDB :=
  let s := log_change (refundChange (refund s)) s in
  set_refund (refund s + gas) s.
Definition GetRefund (s : StateDB) : Z := refund s.

Definition AddLog (l : Log) (s : StateDB) : StateDB :=
  let s := log_change (addLogChange (thash s)) s in
  let sl := mkStoredLog l (thash s) (bhash s) (txIndex s) (logSize s) in
  set_logs (<[thash s := default [] (logs s !! thash s) ++ [sl]]> (logs s)) (u64 (logSize s + 1)) s.
Definition GetLogs (hash : Hash) (s : StateDB) : list StoredLog := default [] (logs s !! hash).

Definition AddPreimage (hash : Hash) (preimage : list byte) (s : StateDB) : StateDB :=
  match preimages s !! hash with
  | Some _ => s
  | None => set_preimages (<[hash := preimage]> (preimages s)) (log_change (addPreimageChange hash) s)
  end.

(** *** Undoing; [None] is a panic *)

Definition ripemd : Address := 3.

(** A method of [s.getStateObject(account)], which panics on nil. *)
Definition on_object (account : Address) (f : stateObject → StateDB → StateDB) (s : StateDB) : option StateDB :=
  let '(s, o) := getStateObject account s in
  match o with Some o => Some (f o s) | None => None end.

Definition undo (ch : journalEntry) (s : StateDB) : option StateDB :=
  match ch with
  | createObjectChange account =>
      Some (set_objects (delete account (stateObjects s)) (stateObjectsDirty s ∖ {[account]}) s)
  | resetObjectChange prev => Some (setStateObject prev s)
  | suicideChange account prev prevbalance =>
      let '(s, o) := getStateObject account s in
      match o with
      | Some o => Some (setBalance prevbalance (upd_flags prev (touched o) (deleted o) o) s)
      | None => Some s
      end
  | touchChange account prev prevDirty =>
      if negb prev && negb (account =? ripemd) then
        s ← on_object account (λ o, setStateObject (upd_flags (suicided o) prev (deleted o) o)) s;
        Some (if prevDirty then s
              else set_objects (stateObjects s) (stateObjectsDirty s ∖ {[account]}) s)
      else Some s
  | balanceChange account prev => on_object account (setBalance prev) s
  | nonceChange account prev => on_object account (setNonce prev) s
  | codeChange account prevcode prevhash => on_object account (setCode prevhash prevcode) s
  | storageChange account key prevalue => on_object account (setState key prevalue) s
  | refundChange prev => Some (set_refund prev s)
  | addLogChange txhash =>
      match default [] (logs s !! txhash) with
      | [] => None
      | [_] => Some (set_logs (delete txhash (logs s)) (u64 (logSize s - 1)) s)
      | l => Some (set_logs (<[txhash := take (length l - 1) l]> (logs s)) (u64 (logSize s - 1)) s)
      end
  | addPreimageChange hash => Some (set_preimages (delete hash (preimages s)) s)
  end.

Fixpoint undo_all (es : list journalEntry) (s : StateDB) : option StateDB :=
  match es with
  | [] => Some s
  | e :: es' => s ← undo e s; undo_all es' s
  end.

Definition Snapshot (s : StateDB) : StateDB * Z :=
  let id := nextRevisionId s in
  (set_journal (journal s) (validRevisions s ++ [mkRevision id (length (journal s))]) (id + 1) s, id).

Definition RevertToSnapshot (revid : Z) (s : StateDB) : option StateDB :=
  let idx := sort_Search (length (validRevisions s))
    (λ i, match validRevisions s !! i with Some r => rev_id r >=? revid | None => true end) in
  match validRevisions s !! idx with
  | None => None
  | Some r =>
      if negb (rev_id r =? revid) then None
      else
        let undone := (length (journal s) - journalIndex r)%nat in
        s' ← undo_all (take undone (journal s)) s;
        Some (set_journal (drop undone (journal s')) (take idx (validRevisions s')) (nextRevisionId s') s')
  end.

(** *** Writing to the trie *)

(** [bytes.TrimLeft(value, "\x00")] *)
Fixpoint TrimLeft0 (l : list byte) : list byte :=
  match l with
  | Byte.x00 :: l' => TrimLeft0 l'
  | _ => l
  end.

(** The loops over Go maps below take the order of the visit as a list. *)
Definition updateTrie_step (o : stateObject) (key : Hash) : stateObject :=
  match dirtyStorage o !! key, obj_trie o with
  | Some value, Some t =>
      let o := upd_storage (cachedStorage o) (delete key (dirtyStorage o)) o in
      let '(t, err) :=
        if value =? 0 then TryDelete (Hash_Bytes key) t
        else TryUpdate (Hash_Bytes key) (rlp_bytes (TrimLeft0 (Hash_Bytes value))) t in
      obj_setError err (upd_trie t o)
  | _, _ => o
  end.
Definition updateTrie (keys : list Hash) (o : stateObject) : stateObject :=
  foldl updateTrie_step (fst (getTrie o)) keys.
Definition updateRoot (keys : list Hash) (o : stateObject) : stateObject :=
  let o := updateTrie keys o in
  match obj_trie o with Some t => upd_Root (Trie_Hash t) o | None => o end.

Definition obj_Account (o : stateObject) : Account :=
  mkAccount (data_Nonce o) (Some (data_Balance o)) (data_Root o) (Some (data_CodeHash o)).
Definition updateStateObject (o : stateObject) (s : StateDB) : StateDB :=
  let '(t, err) := TryUpdate (Address_Bytes (address o)) (rlp_Account (obj_Account o)) (trie s) in
  setError err (set_trie t s).
Definition deleteStateObject (o : stateObject) (s : StateDB) : StateDB :=
  let s := setStateObject (upd_flags (suicided o) (touched o) true o) s in
  let '(t, err) := TryDelete (Address_Bytes (address o)) (trie s) in
  setError err (set_trie t s).

(** One round of the loop of [Finalise]; an address in the dirty set without
    an object is a nil dereference. *)
Definition Finalise_step (deleteEmptyObjects : bool) (s : StateDB) (addr : Address) : option StateDB :=
  match stateObjects s !! addr with
  | None => None
  | Some o =>
      if suicided o || (deleteEmptyObjects && empty o) then Some (deleteStateObject o s)
      else
        let o := updateRoot (elements (dom (dirtyStorage o))) o in
        Some (updateStateObject o (setStateObject o s))
  end.
Fixpoint Finalise_loop (deleteEmptyObjects : bool) (s : StateDB) (order : list Address) : option StateDB :=
  match order with
  | [] => Some s
  | a :: order' => s ← Finalise_step deleteEmptyObjects s a; Finalise_loop deleteEmptyObjects s order'
  end.
Definition Finalise (deleteEmptyObjects : bool) (order : list Address) (s : StateDB) : option StateDB :=
  s ← Finalise_loop deleteEmptyObjects s order; Some (clearJournalAndRefund s).
Definition IntermediateRoot (deleteEmptyObjects : bool) (order : list Address) (s : StateDB)
    : option (StateDB * Hash) :=
  s ← Finalise deleteEmptyObjects order s; Some (s, Trie_Hash (trie s)).

(** ** Copies *)

(** A copy caches only the written slots; the code is shared, the trie
    copied. *)
Definition deepCopy (o : stateObject) : stateObject :=
  let n := newObject (address o) (mkAccount (data_Nonce o) (Some (data_Balance o)) (data_Root o) (Some (data_CodeHash o))) true in
  mkObject (address n) (addrHash n) (data_Nonce n) (data_Balance n) (data_Root n) (data_CodeHash n) (obj_dbErr n)
    (obj_trie o) (code o) (dirtyStorage o) (dirtyStorage o) (dirtyCode o) (suicided o) (touched n) (deleted o) (clean n).
(** A dirty address without an object is a nil dereference: [None]. *)
Definition Copy (s : StateDB) : option StateDB :=
  objs ← mapM (λ addr, o ← stateObjects s !! addr; Some (addr, deepCopy o)) (elements (stateObjectsDirty s));
  Some (mkStateDB (trie s) (list_to_map objs) (stateObjectsDirty s) None (refund s) 0 0 0 (logs s) (logSize s) (preimages s) [] [] 0).
End state.
End state.
