(* ===== verification/StateFacts.v ===== *)
(** * Snapshots of the state database

    What a client can observe of a [StateDB] ([state_equiv]), the invariant of
    objects, journal and revisions ([db_valid]), and the theorem behind
    [RevertToSnapshot]: every operation logs entries whose undoing gives back
    an equivalent state.  The journaled database is then an instance of the
    interface the EVM was verified against. *)

From stdpp Require Import base tactics list numbers gmap sorting.
From S2P Require Import Prelude GoMath EvmParams EvmMachine EvmLaws State.

#[local] Open Scope Z_scope.

Import state.

(** Documented behaviour of what the state is built on: the zero root is the
    empty trie, code is stored under its hash, and RLP decodes unsigned
    integers only. *)
Class StateEnvLaws {senv : StateEnv} : Prop := {
  OpenStorageTrie_zero h : OpenStorageTrie h 0 = inr ZeroTrie;
  TryGet_ZeroTrie k : TryGet k ZeroTrie = ([], None);
  ContractCode_hash ah h : (ContractCode ah h).1 = [] ∨ Keccak256Hash (ContractCode ah h).1 = h;
  ContractCode_len ah h : Zlen (ContractCode ah h).1 < 2 ^ 63;
  ContractCode_empty ah : (ContractCode ah emptyCodeHash).1 = [];
  ContractCodeSize_len ah h : (ContractCodeSize ah h).1 = Zlen (ContractCode ah h).1;
  rlp_Account_ok enc acc : rlp_Account_decode enc = Some acc →
    is_u64 (Nonce acc) ∧ 0 ≤ default 0 (Balance acc) }.

Section facts.
Context {senv : StateEnv} {slaws : StateEnvLaws}.

(** ** What can be observed *)

(** The account the trie holds, and the object [getStateObject] returns. *)
Definition load (t : Trie) (a : Address) : option Account :=
  let enc := (TryGet (Address_Bytes a) t).1 in
  if Zlen enc =? 0 then None else rlp_Account_decode enc.
Definition lookup_obj (a : Address) (s : StateDB) : option stateObject :=
  match stateObjects s !! a with
  | Some o => if deleted o then None else Some o
  | None => (λ data, newObject a data true) <$> load (trie s) a
  end.

Definition storage_val (o : stateObject) (k : Hash) : Hash := (obj_GetState k o).2.
Definition code_val (o : stateObject) : list byte := default [] (obj_Code o).2.
Definition size_val (o : stateObject) : Z :=
  match code o with
  | Some c => Zlen c
  | None => (ContractCodeSize (addrHash o) (data_CodeHash o)).1
  end.

(** Equal up to caches and dirty marks. *)
Record obj_equiv (o1 o2 : stateObject) : Prop := {
  oe_address : address o1 = address o2;
  oe_addrHash : addrHash o1 = addrHash o2;
  oe_nonce : data_Nonce o1 = data_Nonce o2;
  oe_balance : data_Balance o1 = data_Balance o2;
  oe_codehash : data_CodeHash o1 = data_CodeHash o2;
  oe_code : code_val o1 = code_val o2;
  oe_storage k : storage_val o1 k = storage_val o2 k;
  oe_suicided : suicided o1 = suicided o2 }.

Record state_equiv (s1 s2 : StateDB) : Prop := {
  se_trie : trie s1 = trie s2;
  se_objects a : option_Forall2 obj_equiv (lookup_obj a s1) (lookup_obj a s2);
  se_refund : refund s1 = refund s2;
  se_logs : logs s1 = logs s2;
  se_logSize : logSize s1 = logSize s2;
  se_preimages : preimages s1 = preimages s2;
  se_thash : thash s1 = thash s2;
  se_bhash : bhash s1 = bhash s2;
  se_txIndex : txIndex s1 = txIndex s2 }.

#[global] Instance obj_equiv_equivalence : Equivalence obj_equiv.
Proof.
  split.
  - intros o. by split.
  - intros o1 o2 []. by split.
  - intros o1 o2 o3 [] []. split; intros; congruence.
Qed.

#[global] Instance state_equiv_equivalence : Equivalence state_equiv.
Proof.
  split.
  - intros s. by split.
  - intros s1 s2 []. by split.
  - intros s1 s2 s3 [] []. split; intros; try congruence. etrans; eauto.
Qed.

(** ** Objects *)

Record obj_ok (a : Address) (o : stateObject) : Prop := {
  ok_address : address o = a;
  ok_balance : 0 ≤ data_Balance o;
  ok_nonce : is_u64 (data_Nonce o);
  ok_storage k v : cachedStorage o !! k = Some v → is_u256 v;
  ok_code c : code o = Some c → Keccak256Hash c = data_CodeHash o ∧ Zlen c < 2 ^ 63 }.

Lemma BytesToHash_u256 b : is_u256 (BytesToHash b).
Proof. rewrite BytesToHash_spec. by apply Z.mod_pos_bound. Qed.

(** The storage trie of an object and a slot of it. *)
Definition eff_trie (o : stateObject) : Trie := (getTrie o).2.
Definition slot (t : Trie) (k : Hash) : Hash :=
  match TryGet (Hash_Bytes k) t with
  | (_, Some _) => 0
  | (enc, None) => if Zlen enc >? 0 then BytesToHash (rlp_Split enc).1 else 0
  end.

Lemma slot_u256 t k : is_u256 (slot t k).
Proof. unfold slot. repeat case_match; try done; apply BytesToHash_u256. Qed.

Lemma storage_val_eq o k : storage_val o k = default (slot (eff_trie o) k) (cachedStorage o !! k).
Proof.
  unfold storage_val, obj_GetState, slot, eff_trie. destruct (cachedStorage o !! k); [done|]. simpl.
  destruct (getTrie o) as [o1 t]. simpl. destruct (TryGet _ t) as [enc [er|]]; [done|].
  destruct (Zlen enc >? 0); [|done]. destruct (rlp_Split enc) as [c er]. by destruct (_ =? 0).
Qed.

(** [same_data o o']: nothing but caches and error flags differ. *)
Record same_data (o o' : stateObject) : Prop := {
  sd_address : address o' = address o;
  sd_addrHash : addrHash o' = addrHash o;
  sd_nonce : data_Nonce o' = data_Nonce o;
  sd_balance : data_Balance o' = data_Balance o;
  sd_root : data_Root o' = data_Root o;
  sd_codehash : data_CodeHash o' = data_CodeHash o;
  sd_suicided : suicided o' = suicided o;
  sd_deleted : deleted o' = deleted o;
  sd_clean : clean o' = clean o;
  sd_trie : eff_trie o' = eff_trie o }.

Lemma eff_trie_eq o : eff_trie o =
  match obj_trie o with
  | Some t => t
  | None => match OpenStorageTrie (addrHash o) (data_Root o) with inr t => t | inl _ => ZeroTrie end
  end.
Proof. unfold eff_trie, getTrie. by repeat case_match. Qed.

Lemma same_data_setError er o o' : same_data o o' → same_data o (obj_setError er o').
Proof. intros []. split; try done. by rewrite eff_trie_eq in *. Qed.
Lemma same_data_storage c d o o' : same_data o o' → same_data o (upd_storage c d o').
Proof. intros []. split; try done. by rewrite eff_trie_eq in *. Qed.

Lemma getTrie_same o : same_data o (getTrie o).1 ∧ code (getTrie o).1 = code o ∧
  cachedStorage (getTrie o).1 = cachedStorage o.
Proof.
  unfold getTrie. destruct (obj_trie o) as [t|] eqn:Et; [by repeat split|].
  destruct (OpenStorageTrie _ _) as [er|t] eqn:Eo; simpl.
  all: split_and!; try done; split; try done; unfold eff_trie, getTrie; rewrite Et, Eo; done.
Qed.

Lemma obj_GetState_same k o : same_data o (obj_GetState k o).1 ∧
  code (obj_GetState k o).1 = code o ∧
  (∀ k', default (slot (eff_trie o) k') (cachedStorage (obj_GetState k o).1 !! k') = storage_val o k') ∧
  (∀ k' v, cachedStorage (obj_GetState k o).1 !! k' = Some v → cachedStorage o !! k' = Some v ∨ is_u256 v).
Proof.
  unfold obj_GetState. destruct (cachedStorage o !! k) as [v|] eqn:Ek.
  { split_and!; try done; eauto. intros k'. by rewrite storage_val_eq. }
  destruct (getTrie_same o) as (Hs & Hc & Hst).
  assert (Ht : (getTrie o).2 = eff_trie o) by done.
  destruct (getTrie o) as [o1 t]. simpl in *. subst t.
  assert (Hold : ∀ k', default (slot (eff_trie o) k') (cachedStorage o1 !! k') = storage_val o k')
    by (intros; by rewrite storage_val_eq, Hst).
  pose proof (Hold k) as Hslot. rewrite Hst, Ek in Hslot. simpl in Hslot.
  assert (Hu : is_u256 (slot (eff_trie o) k)) by apply slot_u256. unfold slot in Hslot, Hu.
  destruct (TryGet _ _) as [enc [er|]] eqn:Eg; simpl.
  { split_and!; [by apply same_data_setError|done|done|]. rewrite Hst. eauto. }
  set (r := if Zlen enc >? 0 then _ else (o1, 0)).
  assert (Hr : same_data o r.1 ∧ code r.1 = code o ∧ cachedStorage r.1 = cachedStorage o ∧ r.2 = storage_val o k).
  { subst r. destruct (Zlen enc >? 0); [|done]. destruct (rlp_Split enc) as [c er]. simpl in *.
    split_and!; try done. by apply same_data_setError. }
  destruct r as [o2 value]. simpl in Hr. destruct Hr as (Hs2 & Hc2 & Hst2 & ->).
  destruct (_ =? 0); simpl.
  - split_and!; try done; rewrite Hst2; eauto. intros k'. by rewrite storage_val_eq.
  - split_and!; try done; [by apply same_data_storage|..]; rewrite Hst2.
    + intros k'. destruct (decide (k' = k)) as [->|]; [by rewrite lookup_insert_eq|].
      rewrite lookup_insert_ne by done. by rewrite storage_val_eq.
    + intros k' v. rewrite lookup_insert_Some. intros [[<- <-]|[_ ?]]; [right|by left].
      by rewrite <- Hslot.
Qed.

Lemma code_val_eq o : code_val o =
  match code o with
  | Some c => c
  | None => if data_CodeHash o =? emptyCodeHash then [] else (ContractCode (addrHash o) (data_CodeHash o)).1
  end.
Proof.
  unfold code_val, obj_Code. destruct (code o); [done|]. case_match; [done|].
  destruct (ContractCode _ _) as [c er]. simpl. by destruct c.
Qed.

(** The size reported without loading the code is its length. *)
Lemma size_val_eq o : size_val o = Zlen (code_val o).
Proof.
  unfold size_val. rewrite code_val_eq. destruct (code o); [done|]. rewrite ContractCodeSize_len.
  case_if; [|done]. by rewrite E, ContractCode_empty.
Qed.

(** Objects that agree on the data and on what the caches give. *)
Lemma same_data_equiv o o' : same_data o o' → code_val o' = code_val o →
  (∀ k, default (slot (eff_trie o) k) (cachedStorage o' !! k) = storage_val o k) → obj_equiv o' o.
Proof.
  intros [] Hc Hs. split; try done. intros k. rewrite storage_val_eq. etrans; [|apply Hs]. by f_equal; f_equal.
Qed.

Lemma obj_GetState_equiv k o : obj_equiv (obj_GetState k o).1 o.
Proof.
  destruct (obj_GetState_same k o) as (Hs & Hc & Hst & _). apply same_data_equiv; [done| |done].
  rewrite !code_val_eq, Hc. by rewrite (sd_codehash _ _ Hs), (sd_addrHash _ _ Hs).
Qed.
Lemma obj_GetState_ok a k o : obj_ok a o → obj_ok a (obj_GetState k o).1 ∧ deleted (obj_GetState k o).1 = deleted o ∧
  clean (obj_GetState k o).1 = clean o.
Proof.
  intros []. destruct (obj_GetState_same k o) as ([] & Hc & _ & Hu). split_and!; [|done|done].
  split; try congruence.
  - intros k' v Hv. destruct (Hu k' v Hv); eauto.
  - intros c. rewrite Hc, sd_codehash0. auto.
Qed.

Lemma obj_Code_same o : same_data o (obj_Code o).1 ∧ cachedStorage (obj_Code o).1 = cachedStorage o ∧
  code (obj_Code o).1 = (obj_Code o).2 ∧
  ((obj_Code o).2 = code o ∨ code o = None ∧ (obj_Code o).2 = Some (ContractCode (addrHash o) (data_CodeHash o)).1 ∧
    (ContractCode (addrHash o) (data_CodeHash o)).1 ≠ []).
Proof.
  unfold obj_Code. destruct (code o) as [c|] eqn:Ec; [split_and!; simpl; [by split|done|done|by left]|].
  case_if; [split_and!; simpl; [by split|done|done|by left]|]. destruct (ContractCode _ _) as [c er]. simpl.
  split_and!; try done; [split; try done; by rewrite !eff_trie_eq|].
  destruct c; [by left|by right].
Qed.
Lemma obj_Code_equiv o : obj_equiv (obj_Code o).1 o.
Proof.
  destruct (obj_Code_same o) as (Hs & Hst & Hc & Hor). apply same_data_equiv; [done| |].
  - rewrite !code_val_eq, Hc, (sd_codehash _ _ Hs), (sd_addrHash _ _ Hs).
    destruct Hor as [->|(Hn & -> & Hne)]; [done|]. rewrite Hn. case_if; [|done].
    by rewrite E, ContractCode_empty in Hne.
  - intros k. by rewrite Hst, storage_val_eq.
Qed.
Lemma obj_Code_ok a o : obj_ok a o → obj_ok a (obj_Code o).1 ∧ deleted (obj_Code o).1 = deleted o ∧
  clean (obj_Code o).1 = clean o.
Proof.
  intros [? ? ? Hst Hco]. destruct (obj_Code_same o) as ([] & Hcs & Hc & Hor). split_and!; [|done|done].
  split; try congruence; [by rewrite Hcs|]. intros c. rewrite Hc, sd_codehash0.
  destruct Hor as [->|(Hn & -> & Hne)]; [auto|]. intros [= <-]. split; [|apply ContractCode_len].
  by destruct (ContractCode_hash (addrHash o) (data_CodeHash o)).
Qed.

(** ** The map of objects *)

Definition objs_ok (s : StateDB) : Prop := ∀ a o, stateObjects s !! a = Some o →
  obj_ok a o ∧ (deleted o = true → load (trie s) a = None).

(** Nothing but objects, dirty marks and the error changed. *)
Record same_rest (s s' : StateDB) : Prop := {
  sr_trie : trie s' = trie s;
  sr_refund : refund s' = refund s;
  sr_logs : logs s' = logs s;
  sr_logSize : logSize s' = logSize s;
  sr_preimages : preimages s' = preimages s;
  sr_thash : thash s' = thash s;
  sr_bhash : bhash s' = bhash s;
  sr_txIndex : txIndex s' = txIndex s }.
Record same_journal (s s' : StateDB) : Prop := {
  sj_journal : journal s' = journal s;
  sj_revisions : validRevisions s' = validRevisions s;
  sj_next : nextRevisionId s' = nextRevisionId s }.

Lemma same_rest_refl s : same_rest s s. Proof. by split. Qed.
Lemma same_journal_refl s : same_journal s s. Proof. by split. Qed.
Lemma same_rest_trans s s1 s2 : same_rest s s1 → same_rest s1 s2 → same_rest s s2.
Proof. intros [] []. split; congruence. Qed.
Lemma same_journal_trans s s1 s2 : same_journal s s1 → same_journal s1 s2 → same_journal s s2.
Proof. intros [] []. split; congruence. Qed.

Lemma same_rest_equiv s s' : same_rest s s' →
  (∀ a, option_Forall2 obj_equiv (lookup_obj a s') (lookup_obj a s)) → state_equiv s' s.
Proof. intros [] Ho. by split. Qed.

(** Objects whose observed fields are the same terms. *)
Ltac same_fields :=
  split; try done; [by rewrite !code_val_eq|]; intros ?; by rewrite !storage_val_eq, !eff_trie_eq.

Lemma upd_clean_equiv b o : obj_equiv (upd_clean b o) o.
Proof. same_fields. Qed.

Lemma lookup_setStateObject a o s : lookup_obj a (setStateObject o s) =
  if decide (a = address o) then (if deleted o then None else Some o) else lookup_obj a s.
Proof.
  unfold lookup_obj, setStateObject. simpl. case_decide as Ha.
  - subst. by rewrite lookup_insert_eq.
  - by rewrite lookup_insert_ne.
Qed.
Lemma setStateObject_rest o s : same_rest s (setStateObject o s) ∧ same_journal s (setStateObject o s).
Proof. by repeat split. Qed.

(** [store_dirty] as a case of [setStateObject]. *)
Lemma store_dirty_eq o s : ∃ o' d, obj_equiv o' o ∧ deleted o' = deleted o ∧ address o' = address o ∧
  code o' = code o ∧ cachedStorage o' = cachedStorage o ∧
  store_dirty o s = setStateObject o' (set_objects (stateObjects s) d s).
Proof.
  unfold store_dirty. destruct (clean o).
  - eexists _, _. split_and!; [apply upd_clean_equiv|done..].
  - by exists o, (stateObjectsDirty s); destruct s.
Qed.

Lemma lookup_store_dirty a o s : address o = a → deleted o = false →
  ∃ o', obj_equiv o' o ∧ stateObjects (store_dirty o s) !! a = Some o' ∧ deleted o' = false ∧
    lookup_obj a (store_dirty o s) = Some o'.
Proof.
  intros <- Hd. destruct (store_dirty_eq o s) as (o' & d & Ho & Hd' & Ha & _ & _ & ->).
  exists o'. rewrite lookup_setStateObject, decide_True, Hd', Hd by done.
  split_and!; [done| |congruence|done]. simpl. by rewrite <- Ha, lookup_insert_eq.
Qed.
Lemma lookup_store_dirty_ne a o s : address o ≠ a → lookup_obj a (store_dirty o s) = lookup_obj a s.
Proof.
  intros Hne. destruct (store_dirty_eq o s) as (o' & d & Ho & Hd' & Ha & _ & _ & ->).
  by rewrite lookup_setStateObject, decide_False by congruence.
Qed.
Lemma store_dirty_rest o s : same_rest s (store_dirty o s) ∧ same_journal s (store_dirty o s).
Proof. destruct (store_dirty_eq o s) as (o' & d & _ & _ & _ & _ & _ & ->). by repeat split. Qed.

Lemma obj_ok_equiv a o o' : obj_ok a o → obj_equiv o' o → code o' = code o →
  cachedStorage o' = cachedStorage o → obj_ok a o'.
Proof.
  intros [? ? ? Hs Hc] [] Hco Hst.
  split; rewrite ?Hst, ?Hco; try congruence; [exact Hs|]. intros. rewrite oe_codehash0. auto.
Qed.

Lemma objs_ok_set o s : objs_ok s → obj_ok (address o) o → deleted o = false → objs_ok (setStateObject o s).
Proof.
  intros Hs Ho Hd a o'. simpl. rewrite lookup_insert_Some. intros [[<- <-]|[_ Hl]]; [|by apply Hs].
  split; [done|]. congruence.
Qed.
Lemma objs_ok_store o s : objs_ok s → obj_ok (address o) o → deleted o = false → objs_ok (store_dirty o s).
Proof.
  intros Hs Ho Hd. destruct (store_dirty_eq o s) as (o' & d & Heq & Hd' & Ha & Hc & Hst & ->).
  apply objs_ok_set; [exact Hs| |congruence]. rewrite Ha. by eapply obj_ok_equiv.
Qed.

Lemma newObject_ok a data b : is_u64 (Nonce data) → 0 ≤ default 0 (Balance data) → obj_ok a (newObject a data b).
Proof. intros. by split. Qed.

Lemma load_ok t a data : load t a = Some data → is_u64 (Nonce data) ∧ 0 ≤ default 0 (Balance data).
Proof. unfold load. case_match; [done|]. apply rlp_Account_ok. Qed.

(** [getStateObject] finds the object and changes caches only. *)
Record found (a : Address) (s s' : StateDB) (r : option stateObject) : Prop := {
  fo_result : r = lookup_obj a s;
  fo_equiv : state_equiv s' s;
  fo_ok : objs_ok s';
  fo_rest : same_rest s s';
  fo_journal : same_journal s s';
  fo_some o : r = Some o → stateObjects s' !! a = Some o ∧ deleted o = false ∧ obj_ok a o;
  fo_none : r = None → load (trie s) a = None }.

Lemma setError_equiv er s : state_equiv (setError er s) s.
Proof. by split. Qed.

Lemma getStateObject_found a s : objs_ok s → found a s (getStateObject a s).1 (getStateObject a s).2.
Proof.
  intros Hs. unfold getStateObject, lookup_obj.
  destruct (stateObjects s !! a) as [o|] eqn:Eo.
  - destruct (Hs a o Eo) as [Hok Hdel]. destruct (deleted o) eqn:Ed; simpl.
    + split; try done; [by (unfold lookup_obj; rewrite Eo, Ed)|by intros; apply Hdel].
    + split; try done; [by (unfold lookup_obj; rewrite Eo, Ed)|]. by intros ? [= <-].
  - destruct (TryGet (Address_Bytes a) (trie s)) as [enc er] eqn:Eg.
    assert (Hload : load (trie s) a = if Zlen enc =? 0 then None else rlp_Account_decode enc)
      by (unfold load; by rewrite Eg).
    destruct (Zlen enc =? 0) eqn:Ez; simpl.
    { split; try done; by (unfold lookup_obj; rewrite Eo, Hload). }
    destruct (rlp_Account_decode enc) as [data|] eqn:Ed; simpl.
    2: { split; try done; by (unfold lookup_obj; rewrite Eo, Hload). }
    destruct (load_ok _ _ _ Hload) as [? ?].
    split; try done.
    + by (unfold lookup_obj; rewrite Eo, Hload).
    + apply same_rest_equiv; [done|]. intros b. rewrite lookup_setStateObject. simpl.
      case_decide; [subst|done]. unfold lookup_obj. rewrite Eo, Hload. simpl. by constructor.
    + apply objs_ok_set; [done|by apply newObject_ok|done].
    + intros o [= <-]. split_and!; [by apply lookup_insert_eq|done|by apply newObject_ok].
Qed.

(** ** Assignments to an object *)

Record assignment (g : stateObject → stateObject) : Prop := {
  as_equiv o1 o2 : obj_equiv o1 o2 → obj_equiv (g o1) (g o2);
  as_address o : address (g o) = address o;
  as_deleted o : deleted (g o) = deleted o }.

Lemma storage_upd k v d o k' : storage_val (upd_storage (<[k := v]> (cachedStorage o)) d o) k' =
  if decide (k' = k) then v else storage_val o k'.
Proof.
  rewrite !storage_val_eq, !eff_trie_eq. simpl. case_decide as Hk.
  - subst. by rewrite lookup_insert_eq.
  - by rewrite lookup_insert_ne.
Qed.

Lemma storage_upd_code h c d o k : storage_val (upd_code h c d o) k = storage_val o k.
Proof. by rewrite !storage_val_eq, !eff_trie_eq. Qed.
Lemma storage_val_u256 a o k : obj_ok a o → is_u256 (storage_val o k).
Proof.
  intros Hok. rewrite storage_val_eq. destruct (cachedStorage o !! k) eqn:E; simpl; [by eapply ok_storage|apply slot_u256].
Qed.

Ltac assign_tac :=
  split; try done; intros o1 o2 []; split; try done; [by rewrite !code_val_eq in *|];
  intros k''; match goal with Hk : ∀ k, storage_val _ k = _ |- _ => specialize (Hk k'') end;
  by rewrite !storage_val_eq, !eff_trie_eq in *.

Lemma assign_Balance b : assignment (upd_Balance b).
Proof. assign_tac. Qed.
Lemma assign_Nonce n : assignment (upd_Nonce n).
Proof. assign_tac. Qed.
Lemma assign_code hh c d : assignment (upd_code hh c d).
Proof.
  split; try done. intros o1 o2 []. split; try done; [rewrite !code_val_eq; simpl; by rewrite oe_addrHash0|].
  intros k. specialize (oe_storage0 k). by rewrite !storage_val_eq, !eff_trie_eq in *.
Qed.
Lemma assign_storage k v : assignment (λ o, upd_storage (<[k := v]> (cachedStorage o)) (<[k := v]> (dirtyStorage o)) o).
Proof.
  split; try done. intros o1 o2 []. split; try done; [by rewrite !code_val_eq in *|].
  intros k'. rewrite !storage_upd. by case_decide.
Qed.
Lemma assign_flags su to : assignment (λ o, upd_flags su (to o) (deleted o) o).
Proof. assign_tac. Qed.
Lemma assign_touched to : assignment (λ o, upd_flags (suicided o) to (deleted o) o).
Proof. assign_tac. Qed.

(** ** Undoing respects equivalence *)

Lemma equiv_rest s1 s2 s1' s2' : state_equiv s1 s2 → same_rest s1 s1' → same_rest s2 s2' →
  (∀ a, option_Forall2 obj_equiv (lookup_obj a s1') (lookup_obj a s2')) → state_equiv s1' s2'.
Proof. intros [] [] [] Ho. split; try congruence. done. Qed.

Lemma set_equiv o1 o2 s1 s2 : state_equiv s1 s2 → obj_equiv o1 o2 → deleted o1 = false → deleted o2 = false →
  state_equiv (setStateObject o1 s1) (setStateObject o2 s2).
Proof.
  intros Hs Ho H1 H2. eapply equiv_rest; [exact Hs|by split..|]. intros a.
  rewrite !lookup_setStateObject, H1, H2, <- (oe_address _ _ Ho). case_decide; [by constructor|apply Hs].
Qed.
Lemma store_equiv o1 o2 s1 s2 : state_equiv s1 s2 → obj_equiv o1 o2 → deleted o1 = false → deleted o2 = false →
  state_equiv (store_dirty o1 s1) (store_dirty o2 s2).
Proof.
  intros Hs Ho H1 H2.
  destruct (store_dirty_eq o1 s1) as (o1' & d1 & He1 & Hd1 & _ & _ & _ & ->).
  destruct (store_dirty_eq o2 s2) as (o2' & d2 & He2 & Hd2 & _ & _ & _ & ->).
  apply set_equiv; try congruence; [|by rewrite He1, He2]. destruct Hs. by split.
Qed.

Lemma found_equiv a s1 s2 s1' s2' r1 r2 : state_equiv s1 s2 → found a s1 s1' r1 → found a s2 s2' r2 →
  state_equiv s1' s2' ∧ option_Forall2 obj_equiv r1 r2.
Proof.
  intros Hs [-> He1 _ _ _ _ _] [-> He2 _ _ _ _ _]. split; [|apply Hs]. by rewrite He1, He2.
Qed.

Lemma on_object_equiv a (f : stateObject → StateDB → StateDB) s1 s2 s1' :
  (∀ o1 o2 t1 t2, obj_equiv o1 o2 → deleted o1 = false → deleted o2 = false → state_equiv t1 t2 →
     state_equiv (f o1 t1) (f o2 t2)) →
  objs_ok s1 → objs_ok s2 → state_equiv s1 s2 → on_object a f s1 = Some s1' →
  ∃ s2', on_object a f s2 = Some s2' ∧ state_equiv s1' s2'.
Proof.
  intros Hf Hok1 Hok2 Hs. unfold on_object.
  pose proof (getStateObject_found a s1 Hok1) as F1. pose proof (getStateObject_found a s2 Hok2) as F2.
  destruct (getStateObject a s1) as [t1 r1], (getStateObject a s2) as [t2 r2]. simpl in *.
  destruct (found_equiv _ _ _ _ _ _ _ Hs F1 F2) as [Ht Hr].
  destruct Hr as [o1 o2 Ho|]; [|done]. intros [= <-]. eexists. split; [done|].
  destruct (fo_some _ _ _ _ F1 o1 eq_refl) as (_ & ? & _), (fo_some _ _ _ _ F2 o2 eq_refl) as (_ & ? & _).
  by apply Hf.
Qed.

Lemma store_assign g o1 o2 t1 t2 : assignment g → obj_equiv o1 o2 → deleted o1 = false → deleted o2 = false →
  state_equiv t1 t2 → state_equiv (store_dirty (g o1) t1) (store_dirty (g o2) t2).
Proof.
  intros [He _ Hd] ? ? ? ?. apply store_equiv; [done|by apply He|by rewrite Hd..].
Qed.

Lemma dirty_equiv d1 d2 s1 s2 : state_equiv s1 s2 →
  state_equiv (set_objects (stateObjects s1) d1 s1) (set_objects (stateObjects s2) d2 s2).
Proof. intros []. by split. Qed.

Lemma undo_equiv e s1 s2 s1' : objs_ok s1 → objs_ok s2 → state_equiv s1 s2 → undo e s1 = Some s1' →
  (match e with resetObjectChange p => deleted p = false | _ => True end) →
  ∃ s2', undo e s2 = Some s2' ∧ state_equiv s1' s2'.
Proof.
  intros Hok1 Hok2 Hs Hu He.
  destruct e as [a|p|a pv b|a b|a n|a k v|a c h|r|t|h|a pv pd]; simpl in *.
  - simplify_eq. eexists. split; [done|]. eapply equiv_rest; [exact Hs|by split..|].
    intros a'. unfold lookup_obj. simpl. destruct (decide (a' = a)) as [->|].
    + rewrite !lookup_delete_eq, (se_trie _ _ Hs). done.
    + rewrite !lookup_delete_ne by done. apply Hs.
  - simplify_eq. eexists. split; [done|]. by apply set_equiv.
  - pose proof (getStateObject_found a s1 Hok1) as F1. pose proof (getStateObject_found a s2 Hok2) as F2.
    destruct (getStateObject a s1) as [t1 r1], (getStateObject a s2) as [t2 r2]. simpl in *.
    destruct (found_equiv _ _ _ _ _ _ _ Hs F1 F2) as [Ht Hr].
    destruct Hr as [o1 o2 Ho|]; simplify_eq; eexists; (split; [done|]); [|done].
    destruct (fo_some _ _ _ _ F1 o1 eq_refl) as (_ & ? & _), (fo_some _ _ _ _ F2 o2 eq_refl) as (_ & ? & _).
    apply (store_assign (upd_Balance b)); [apply assign_Balance| |done|done|done].
    by apply (as_equiv _ (assign_flags pv touched)).
  - apply (on_object_equiv a _ s1 s2 s1'); try done. intros. apply (store_assign (upd_Balance b)); [apply assign_Balance|done..].
  - apply (on_object_equiv a _ s1 s2 s1'); try done. intros. apply (store_assign (upd_Nonce n)); [apply assign_Nonce|done..].
  - apply (on_object_equiv a _ s1 s2 s1'); try done. intros. apply (store_assign _ _ _ _ _ (assign_storage k v)); done.
  - apply (on_object_equiv a _ s1 s2 s1'); try done. intros. apply (store_assign (upd_code h c true)); [apply assign_code|done..].
  - simplify_eq. eexists. split; [done|]. destruct Hs. by split.
  - rewrite (se_logs _ _ Hs), (se_logSize _ _ Hs) in Hu.
    repeat case_match; simplify_eq; eexists; (split; [done|]); destruct Hs; by split.
  - simplify_eq. eexists. split; [done|]. destruct Hs. split; simpl; try done. by f_equal.
  - destruct (negb pv && negb (a =? ripemd)); [|simplify_eq; by eexists].
    destruct (on_object a _ s1) as [t1|] eqn:E1; [|done]. simpl in Hu. simplify_eq.
    eapply on_object_equiv in E1 as (t2 & E2 & Ht); [|..|exact Hok2|exact Hs]; [| |done].
    + rewrite E2. simpl. eexists. split; [done|]. destruct pd; [done|by apply dirty_equiv].
    + intros o1 o2 u1 u2 Ho Hd1 Hd2 Hu. apply set_equiv; try done. by apply (as_equiv _ (assign_touched pv)).
Qed.

(** ** The journal *)

(** What an entry may hold. *)
Definition entry_ok (e : journalEntry) : Prop :=
  match e with
  | resetObjectChange p => obj_ok (address p) p ∧ deleted p = false
  | suicideChange _ _ b => 0 ≤ b
  | balanceChange _ b => 0 ≤ b
  | nonceChange _ n => is_u64 n
  | storageChange _ _ v => is_u256 v
  | codeChange _ c h => ∀ x, c = Some x → Keccak256Hash x = h ∧ Zlen x < 2 ^ 63
  | _ => True
  end.

Lemma ok_Balance a b o : obj_ok a o → 0 ≤ b → obj_ok a (upd_Balance b o).
Proof. intros [] ?. by split. Qed.
Lemma ok_Nonce a n o : obj_ok a o → is_u64 n → obj_ok a (upd_Nonce n o).
Proof. intros [] ?. by split. Qed.
Lemma ok_upd_code a h c d o : obj_ok a o → (∀ x, c = Some x → Keccak256Hash x = h ∧ Zlen x < 2 ^ 63) →
  obj_ok a (upd_code h c d o).
Proof. intros [] ?. by split. Qed.
Lemma ok_upd_storage a k v d o : obj_ok a o → is_u256 v →
  obj_ok a (upd_storage (<[k := v]> (cachedStorage o)) d o).
Proof.
  intros [] ?. split; try done. intros k' v'. simpl. rewrite lookup_insert_Some.
  intros [[_ <-]|[_ ?]]; eauto.
Qed.
Lemma ok_flags a x y z o : obj_ok a o → obj_ok a (upd_flags x y z o).
Proof. intros []. by split. Qed.

Lemma on_object_ok a f s s' : objs_ok s →
  (∀ o t, objs_ok t → obj_ok a o → deleted o = false → objs_ok (f o t) ∧ same_journal t (f o t) ∧ trie (f o t) = trie t) →
  on_object a f s = Some s' → objs_ok s' ∧ same_journal s s' ∧ trie s' = trie s.
Proof.
  intros Hs Hf. unfold on_object. pose proof (getStateObject_found a s Hs) as F.
  destruct (getStateObject a s) as [t [o|]]; [|done]. simpl in F. intros [= <-].
  destruct (fo_some _ _ _ _ F o eq_refl) as (_ & Hd & Ho).
  destruct (Hf o t (fo_ok _ _ _ _ F) Ho Hd) as (? & ? & Ht). split_and!; [done| |].
  - eapply same_journal_trans; [apply F|done].
  - rewrite Ht. apply F.
Qed.

Lemma store_ok a o t : objs_ok t → obj_ok a o → deleted o = false →
  objs_ok (store_dirty o t) ∧ same_journal t (store_dirty o t) ∧ trie (store_dirty o t) = trie t.
Proof.
  intros Ht Ho Hd. destruct (store_dirty_rest o t) as [[] Hj]. split_and!; [|done|done].
  apply objs_ok_store; [done| |done]. by rewrite (ok_address _ _ Ho).
Qed.

Lemma undo_ok e s s' : objs_ok s → entry_ok e → undo e s = Some s' →
  objs_ok s' ∧ same_journal s s' ∧ trie s' = trie s.
Proof.
  intros Hs He Hu. destruct e as [a|p|a pv b|a b|a n|a k v|a c h|r|t|h|a pv pd]; simpl in *.
  - simplify_eq. split_and!; [|by split|done]. intros a' o. simpl. rewrite lookup_delete_Some.
    intros [_ Ho]. by apply Hs.
  - simplify_eq. destruct He. split_and!; [by apply objs_ok_set|by split|done].
  - pose proof (getStateObject_found a s Hs) as F. destruct (getStateObject a s) as [t [o|]]; simpl in F; simplify_eq.
    + destruct (fo_some _ _ _ _ F o eq_refl) as (_ & Hd & Ho).
      destruct (store_ok a (upd_Balance b (upd_flags pv (touched o) (deleted o) o)) t) as (? & ? & Ht);
        [apply F|by apply ok_Balance; [apply ok_flags|]|done|].
      split_and!; [done|eapply same_journal_trans; [apply F|done]|]. etrans; [exact Ht|apply F].
    + split_and!; apply F.
  - eapply on_object_ok; [done| |done]. intros. by apply (store_ok a); [|apply ok_Balance|].
  - eapply on_object_ok; [done| |done]. intros. by apply (store_ok a); [|apply ok_Nonce|].
  - eapply on_object_ok; [done| |done]. intros. by apply (store_ok a); [|apply ok_upd_storage|].
  - eapply on_object_ok; [done| |done]. intros. by apply (store_ok a); [|apply ok_upd_code|].
  - simplify_eq. by split_and!.
  - repeat case_match; simplify_eq; by split_and!.
  - simplify_eq. by split_and!.
  - destruct (negb pv && negb (a =? ripemd)); [|by simplify_eq].
    destruct (on_object a _ s) as [t1|] eqn:E1; [|done]. simpl in Hu. simplify_eq.
    apply on_object_ok in E1 as (Ho & Hj & Ht); [|done|].
    + destruct pd; split_and!; try done. destruct Hj. by split.
    + intros o t Htok Hok Hd. split_and!; [|by split|done].
      apply objs_ok_set; [done| |done]. simpl. rewrite (ok_address _ _ Hok). by apply ok_flags.
Qed.

Lemma undo_all_ok es s s' : objs_ok s → Forall entry_ok es → undo_all es s = Some s' →
  objs_ok s' ∧ same_journal s s' ∧ trie s' = trie s.
Proof.
  revert s. induction es as [|e es IH]; intros s Hs Hes Hu; simpl in Hu; [by simplify_eq|].
  inversion Hes; subst. destruct (undo e s) as [s1|] eqn:E1; [|done]. simpl in Hu.
  destruct (undo_ok e s s1) as (? & ? & ?); [done..|].
  destruct (IH s1) as (? & ? & ?); [done..|]. split_and!; [done|by eapply same_journal_trans|congruence].
Qed.

Lemma undo_all_equiv es s1 s2 s1' : objs_ok s1 → objs_ok s2 → Forall entry_ok es → state_equiv s1 s2 →
  undo_all es s1 = Some s1' → ∃ s2', undo_all es s2 = Some s2' ∧ state_equiv s1' s2'.
Proof.
  revert s1 s2. induction es as [|e es IH]; intros s1 s2 Hok1 Hok2 Hes Hs Hu; simpl in Hu |- *.
  { simplify_eq. eauto. }
  inversion Hes as [|? ? He Hes']; subst. destruct (undo e s1) as [t1|] eqn:E1; [|done]. simpl in Hu.
  destruct (undo_equiv e s1 s2 t1) as (t2 & E2 & Ht); [done..|by destruct e; try done; apply He|].
  rewrite E2. simpl. eapply (IH t1 t2); try done; [by eapply undo_ok in E1 as (? & _)|by eapply undo_ok in E2 as (? & _)].
Qed.

Lemma undo_all_app es1 es2 s : undo_all (es1 ++ es2) s = s1 ← undo_all es1 s; undo_all es2 s1.
Proof. revert s. induction es1 as [|e es IH]; intros s; simpl; [done|]. destruct (undo e s); simpl; auto. Qed.

(** ** Changes that the journal can take back *)

(** The part of the invariant that is not about objects. *)
Definition extras_ok (s : StateDB) : Prop :=
  (∀ h, logs s !! h ≠ Some []) ∧ is_u64 (logSize s) ∧ 0 ≤ refund s.

Definition undoable (s s' : StateDB) : Prop := ∃ es,
  journal s' = es ++ journal s ∧ validRevisions s' = validRevisions s ∧
  nextRevisionId s' = nextRevisionId s ∧ Forall entry_ok es ∧ objs_ok s' ∧ (extras_ok s → extras_ok s') ∧
  ∃ s1, undo_all es s' = Some s1 ∧ state_equiv s1 s.

Lemma extras_ok_eq s s' : logs s' = logs s → logSize s' = logSize s → refund s' = refund s →
  extras_ok s → extras_ok s'.
Proof. unfold extras_ok. by intros -> -> ->. Qed.

Lemma undoable_objs s s' : undoable s s' → objs_ok s'.
Proof. by intros (es & ? & ? & ? & ? & ? & ? & ?). Qed.

Lemma undoable_equiv s s' : objs_ok s' → state_equiv s' s → same_journal s s' → undoable s s'.
Proof. intros Hok He []. exists []. split_and!; try done; [|by exists s'].
  apply extras_ok_eq; apply He. Qed.

Lemma undoable_refl s : objs_ok s → undoable s s.
Proof. intros. by apply undoable_equiv. Qed.

Lemma undoable_trans s s1 s2 : undoable s s1 → undoable s1 s2 → undoable s s2.
Proof.
  intros (es1 & Hj1 & Hr1 & Hn1 & He1 & Ho1 & Ht1 & t1 & Hu1 & Heq1)
         (es2 & Hj2 & Hr2 & Hn2 & He2 & Ho2 & Ht2 & t2 & Hu2 & Heq2).
  exists (es2 ++ es1). split_and!; try congruence; try done; try by auto.
  - by rewrite Hj2, Hj1, app_assoc.
  - by apply Forall_app.
  - destruct (undo_all_ok es2 s2 t2) as (Hok & _ & _); [done..|].
    destruct (undo_all_equiv es1 s1 t2 t1) as (t3 & Hu3 & Heq3); [done..|by symmetry|done|].
    exists t3. split; [by rewrite undo_all_app, Hu2|]. by rewrite <- Heq3.
Qed.

Lemma undoable_found a s s' r : found a s s' r → undoable s s'.
Proof. intros F. apply undoable_equiv; apply F. Qed.

(** Replacing an object by an equivalent one: what a cache does. *)
Lemma undoable_cache a o o' s : objs_ok s → stateObjects s !! a = Some o → deleted o = false →
  obj_equiv o' o → obj_ok a o' → deleted o' = false → undoable s (setStateObject o' s).
Proof.
  intros Hs Hl Hd He Hok Hd'. apply undoable_equiv; [|..|by split].
  - apply objs_ok_set; [done|by rewrite (ok_address _ _ Hok)|done].
  - apply same_rest_equiv; [by split|]. intros b. rewrite lookup_setStateObject, Hd'.
    case_decide; [|done]. subst. rewrite (ok_address _ _ Hok). unfold lookup_obj. rewrite Hl, Hd. by constructor.
Qed.

Lemma on_object_found a f t o : getStateObject a t = (t, Some o) → on_object a f t = Some (f o t).
Proof. unfold on_object. by intros ->. Qed.

(** Logging an entry and storing a changed object. *)
Lemma undoable_store a o n e (g : stateObject → stateObject) s :
  objs_ok s → stateObjects s !! a = Some o → deleted o = false →
  obj_ok a n → deleted n = false → entry_ok e →
  (∀ t o', getStateObject a t = (t, Some o') → undo e t = Some (store_dirty (g o') t)) →
  (∀ o', address (g o') = address o' ∧ deleted (g o') = deleted o') →
  (∀ o', obj_equiv o' n → obj_equiv (g o') o) →
  undoable s (store_dirty n (log_change e s)).
Proof.
  intros Hs Hl Hd Hn Hnd He Hundo Hg Hback. set (s0 := log_change e s).
  assert (Hs0 : objs_ok s0) by done. destruct (store_ok a n s0 Hs0 Hn Hnd) as (Hok & [Hj Hr Hnx] & Ht).
  destruct (store_dirty_rest n s0) as [Hrest _].
  exists [e]. split_and!; try done; [by repeat constructor|apply extras_ok_eq; apply Hrest|].
  destruct (lookup_store_dirty a n s0 (ok_address _ _ Hn) Hnd) as (o' & Ho' & Hl' & Hd' & _).
  exists (store_dirty (g o') (store_dirty n s0)). split.
  - simpl. rewrite (Hundo _ o'); [done|]. unfold getStateObject. by rewrite Hl', Hd'.
  - destruct (Hg o') as [Hga Hgd]. apply same_rest_equiv.
    + eapply same_rest_trans; [|apply store_dirty_rest]. by destruct Hrest.
    + intros b. assert (Haddr : address (g o') = a).
      { rewrite Hga, (oe_address _ _ Ho'). apply Hn. }
      destruct (decide (b = a)) as [->|Hne].
      * destruct (lookup_store_dirty a (g o') (store_dirty n s0)) as (o2 & Ho2 & _ & _ & ->);
          [done|by rewrite Hgd|]. unfold lookup_obj. rewrite Hl, Hd. constructor. rewrite Ho2. by apply Hback.
      * rewrite lookup_store_dirty_ne by congruence. by rewrite lookup_store_dirty_ne by (rewrite (ok_address _ _ Hn); congruence).
Qed.

(** Logging an entry and changing something else than an object. *)
Lemma undoable_entry e s s' : objs_ok s' → entry_ok e → same_journal (log_change e s) s' →
  (extras_ok s → extras_ok s') →
  (∃ s1, undo e s' = Some s1 ∧ state_equiv s1 s) → undoable s s'.
Proof.
  intros Hok He [] Hlogs (s1 & Hu & Heq). exists [e]. split_and!; try done; [by repeat constructor|].
  exists s1. simpl. by rewrite Hu.
Qed.

Lemma touched_equiv t o : obj_equiv (upd_flags (suicided o) t (deleted o) o) o.
Proof. same_fields. Qed.

Lemma store_same a o n s : stateObjects s !! a = Some o → deleted o = false → address n = a →
  deleted n = false → obj_equiv n o → state_equiv (store_dirty n s) s.
Proof.
  intros Hl Hd Ha Hdn Hn. apply same_rest_equiv; [apply store_dirty_rest|]. intros b.
  destruct (decide (b = a)) as [->|Hne].
  - destruct (lookup_store_dirty a n s) as (n' & Hn' & _ & _ & ->); [done..|].
    unfold lookup_obj. rewrite Hl, Hd. constructor. by rewrite Hn', Hn.
  - by rewrite lookup_store_dirty_ne by congruence.
Qed.

(** The undo of a touch never panics, and shows nothing. *)
Lemma undo_touch a p d o s : objs_ok s → stateObjects s !! a = Some o → deleted o = false →
  ∃ s', undo (touchChange a p d) s = Some s' ∧ state_equiv s' s.
Proof.
  intros Hs Hl Hd. simpl. case_match; [|by eexists].
  unfold on_object, getStateObject. rewrite Hl, Hd. simpl. eexists. split; [done|].
  set (o' := upd_flags _ _ _ _).
  assert (He : state_equiv (setStateObject o' s) s).
  { apply same_rest_equiv; [by split|]. intros b. rewrite lookup_setStateObject. simpl. rewrite Hd.
    case_decide; [|done]. subst. destruct (Hs a o Hl) as [Hok _]. rewrite (ok_address _ _ Hok).
    unfold lookup_obj. rewrite Hl, Hd. constructor. apply touched_equiv. }
  destruct d; [done|]. etrans; [|exact He]. by split.
Qed.

Lemma undoable_touch a o s : objs_ok s → stateObjects s !! a = Some o → deleted o = false →
  undoable s (touch o s).
Proof.
  intros Hs Hl Hd. destruct (Hs a o Hl) as [Hok _]. unfold touch. rewrite (ok_address _ _ Hok).
  set (e := touchChange _ _ _). set (n := upd_flags _ _ _ _). set (s0 := log_change e s).
  assert (Hn : obj_ok a n) by by apply ok_flags.
  destruct (store_ok a n s0 Hs Hn Hd) as (Hs' & Hj & _). destruct (store_dirty_rest n s0) as [Hr _].
  apply (undoable_entry e); [done|done|done|apply extras_ok_eq; apply Hr|].
  destruct (lookup_store_dirty a n s0) as (o' & _ & Hl' & Hd' & _); [apply Hn|done|].
  destruct (undo_touch a (touched o) (negb (clean o)) o' _ Hs' Hl' Hd') as (s1 & Hu & He).
  exists s1. split; [done|]. rewrite He. transitivity s0; [|by split].
  apply (store_same a o); try done; [apply Hn|apply touched_equiv].
Qed.

Lemma undoable_SetBalance a o b s : objs_ok s → stateObjects s !! a = Some o → deleted o = false →
  0 ≤ b → undoable s (obj_SetBalance b o s).
Proof.
  intros Hs Hl Hd Hb. destruct (Hs a o Hl) as [Hok _]. unfold obj_SetBalance, setBalance.
  rewrite (ok_address _ _ Hok).
  apply (undoable_store a o _ _ (upd_Balance (data_Balance o))); try done; [by apply ok_Balance|apply Hok|by intros ? ? Hg; simpl; rewrite (on_object_found _ _ _ _ Hg)|].
  intros o' He. etrans; [by apply (as_equiv _ (assign_Balance _))|].
  same_fields.
Qed.
Lemma undoable_SetNonce a o n s : objs_ok s → stateObjects s !! a = Some o → deleted o = false →
  is_u64 n → undoable s (obj_SetNonce n o s).
Proof.
  intros Hs Hl Hd Hb. destruct (Hs a o Hl) as [Hok _]. unfold obj_SetNonce, setNonce.
  rewrite (ok_address _ _ Hok).
  apply (undoable_store a o _ _ (upd_Nonce (data_Nonce o))); try done; [by apply ok_Nonce|apply Hok|by intros ? ? Hg; simpl; rewrite (on_object_found _ _ _ _ Hg)|].
  intros o' He. etrans; [by apply (as_equiv _ (assign_Nonce _))|].
  same_fields.
Qed.

Lemma undoable_SetState a o k v s : objs_ok s → stateObjects s !! a = Some o → deleted o = false →
  is_u256 v → undoable s (obj_SetState k v o s).
Proof.
  intros Hs Hl Hd Hv. destruct (Hs a o Hl) as [Hok _]. unfold obj_SetState, setState.
  pose proof (obj_GetState_equiv k o) as He. destruct (obj_GetState_ok a k o Hok) as (Hok' & Hd' & Hpv).
  destruct (obj_GetState k o) as [o1 pv] eqn:Eg. simpl in *.
  assert (Epv : pv = storage_val o k) by (unfold storage_val; by rewrite Eg).
  rewrite (ok_address _ _ Hok').
  apply (undoable_store a o _ _
    (λ o', upd_storage (<[k := pv]> (cachedStorage o')) (<[k := pv]> (dirtyStorage o')) o')); try done;
    [by apply ok_upd_storage|simpl; congruence|simpl; subst pv; by eapply storage_val_u256|by intros ? ? Hg; simpl; rewrite (on_object_found _ _ _ _ Hg)|].
  intros o' Ho'. destruct Ho' as [? ? ? ? ? Hco Hst ?], He as [? ? ? ? ? Hco1 Hst1 ?].
  split; simpl in *; try congruence.
  - rewrite <- Hco1. rewrite !code_val_eq in *. done.
  - intros k'. rewrite storage_upd. case_decide; [congruence|].
    rewrite Hst, storage_upd, decide_False by done. apply Hst1.
Qed.

Lemma undoable_SetCode a o h c s : objs_ok s → stateObjects s !! a = Some o → deleted o = false →
  (∀ x, c = Some x → Keccak256Hash x = h ∧ Zlen x < 2 ^ 63) → undoable s (obj_SetCode h c o s).
Proof.
  intros Hs Hl Hd Hc. destruct (Hs a o Hl) as [Hok _]. unfold obj_SetCode, setCode.
  pose proof (obj_Code_equiv o) as He. destruct (obj_Code_ok a o Hok) as (Hok' & Hd' & _).
  destruct (obj_Code_same o) as (_ & _ & Hpc & _).
  destruct (obj_Code o) as [o1 pc] eqn:Eg. simpl in *. rewrite (ok_address _ _ Hok').
  apply (undoable_store a o _ _ (upd_code (data_CodeHash o1) pc true)); try done;
    [by apply ok_upd_code|simpl; congruence|simpl; subst pc; apply Hok'|by intros ? ? Hg; simpl; rewrite (on_object_found _ _ _ _ Hg)|].
  intros o' Ho'. rewrite <- He. destruct Ho' as [? ? ? ? ? Hco Hst ?]. split; simpl in *; try congruence.
  - rewrite !code_val_eq. simpl. by rewrite Hpc, oe_addrHash0.
  - intros k'. by rewrite storage_upd_code, Hst, storage_upd_code.
Qed.
End facts.
