(* ===== verification/StateLaws.v ===== *)
(** * The state database as a database for the EVM

    Every setter of [statedb.go] changes one account, which the getters then
    show, and can be taken back through the journal; a live snapshot survives
    every other call, and [RevertToSnapshot] gives back the state it was taken
    in.  The journaled database is an instance of the interface [StateDB] with
    its laws [StateDBLaws]. *)

From stdpp Require Import base tactics list numbers gmap.
From S2P Require Import Prelude GoMath EvmParams EvmMachine EvmLaws State StateFacts.

#[local] Open Scope Z_scope.

Import state.

Section laws.
Context {senv : StateEnv} {slaws : StateEnvLaws}.

(** The object of an account that did not exist. *)
Definition fresh (a : Address) : stateObject :=
  upd_clean false (upd_Nonce 0 (newObject a zero_Account true)).

(** The object a setter works on. *)
Definition object_at (a : Address) (s : StateDB) : stateObject := default (fresh a) (lookup_obj a s).

Definition others_same (a : Address) (s s' : StateDB) : Prop :=
  ∀ b, b ≠ a → option_Forall2 obj_equiv (lookup_obj b s') (lookup_obj b s).

Record has_object (a : Address) (s s' : StateDB) (o : stateObject) : Prop := {
  ho_undo : undoable s s';
  ho_lookup : stateObjects s' !! a = Some o;
  ho_live : deleted o = false;
  ho_equiv : obj_equiv o (object_at a s);
  ho_others : others_same a s s';
  ho_rest : same_rest s s' }.

(** [s'] is [s] with the account [a] changed to [n]. *)
Record updates (a : Address) (n : stateObject) (s s' : StateDB) : Prop := {
  up_undo : undoable s s';
  up_object : option_Forall2 obj_equiv (lookup_obj a s') (Some n);
  up_others : others_same a s s';
  up_rest : same_rest s s' }.

Lemma fresh_ok a : obj_ok a (fresh a).
Proof. by split. Qed.

Lemma fresh_storage a k : storage_val (fresh a) k = 0.
Proof.
  rewrite storage_val_eq, eff_trie_eq. simpl. rewrite OpenStorageTrie_zero. unfold slot.
  by rewrite TryGet_ZeroTrie.
Qed.
Lemma fresh_code a : code_val (fresh a) = [].
Proof. rewrite code_val_eq. simpl. by rewrite Z.eqb_refl. Qed.

Lemma ho_ok a s s' o : has_object a s s' o → objs_ok s'.
Proof. intros H. eapply undoable_objs, H. Qed.
Lemma ho_obj_ok a s s' o : has_object a s s' o → obj_ok a o.
Proof. intros H. by apply (ho_ok _ _ _ _ H), H. Qed.

(** ** Creating objects *)

Lemma undoable_reset a p n s s' : objs_ok s → stateObjects s !! a = Some p → deleted p = false →
  obj_ok a n → deleted n = false → stateObjects s' = <[a := n]> (stateObjects s) → same_rest s s' →
  same_journal (log_change (resetObjectChange p) s) s' → undoable s s'.
Proof.
  intros Hs Hl Hd Hn Hdn Hobj Hr Hj. destruct (Hs a p Hl) as [Hp _].
  apply (undoable_entry (resetObjectChange p)).
  - intros b o. rewrite Hobj, lookup_insert_Some, (sr_trie _ _ Hr). intros [[<- <-]|[_ Hb]]; [|by apply Hs].
    split; [done|congruence].
  - simpl. by rewrite (ok_address _ _ Hp).
  - done.
  - apply extras_ok_eq; apply Hr.
  - eexists. split; [done|]. apply same_rest_equiv; [destruct Hr; by split|]. intros b.
    rewrite lookup_setStateObject, Hd, (ok_address _ _ Hp). unfold lookup_obj. case_decide; subst.
    + rewrite Hl, Hd. by constructor.
    + by rewrite Hobj, lookup_insert_ne, (sr_trie _ _ Hr) by done.
Qed.

Lemma createObject_spec a s : objs_ok s →
  let '(s', o, prev) := createObject a s in
  undoable s s' ∧ o = fresh a ∧ prev = lookup_obj a s ∧ stateObjects s' !! a = Some o ∧
  others_same a s s' ∧ same_rest s s'.
Proof.
  intros Hs. unfold createObject. pose proof (getStateObject_found a s Hs) as F.
  destruct (getStateObject a s) as [s0 prev]. simpl in F.
  set (e := match prev with None => createObjectChange a | Some p => resetObjectChange p end).
  set (s1 := match prev with None => _ | Some p => _ end).
  assert (Es1 : s1 = log_change e (MarkStateObjectDirty a s0)) by by destruct prev.
  change (upd_clean false _) with (fresh a).
  assert (Hoth : others_same a s (setStateObject (fresh a) s1)).
  { intros b Hb. rewrite lookup_setStateObject, decide_False, Es1 by done. apply (se_objects _ _ (fo_equiv _ _ _ _ F)). }
  split_and!; [|done|apply F|by apply lookup_insert_eq|done|].
  2: { rewrite Es1. destruct (fo_rest _ _ _ _ F). by split. }
  eapply undoable_trans; [by eapply undoable_found|]. rewrite Es1. unfold e. destruct prev as [p|].
  - destruct (fo_some _ _ _ _ F p eq_refl) as (Hl & Hd & Hp).
    apply (undoable_reset a p (fresh a)); try done; apply F.
  - apply (undoable_entry (createObjectChange a)); [|done|by split|by apply extras_ok_eq|].
    { apply objs_ok_set; [apply F|apply fresh_ok|done]. }
    eexists. split; [done|]. apply same_rest_equiv; [by split|].
    intros b. unfold lookup_obj. simpl. destruct (decide (b = a)) as [->|Hb].
    + rewrite lookup_delete_eq. pose proof (fo_none _ _ _ _ F eq_refl) as Hn.
      rewrite (sr_trie _ _ (fo_rest _ _ _ _ F)), Hn. simpl.
      pose proof (se_objects _ _ (fo_equiv _ _ _ _ F) a) as He. rewrite <- (fo_result _ _ _ _ F) in He.
      unfold lookup_obj in He. rewrite (sr_trie _ _ (fo_rest _ _ _ _ F)), Hn in He. simpl in He.
      by inversion He.
    + by rewrite lookup_delete_ne, lookup_insert_ne.
Qed.

Lemma GetOrNew_spec a s : objs_ok s →
  has_object a s (GetOrNewStateObject a s).1 (GetOrNewStateObject a s).2.
Proof.
  intros Hs. unfold GetOrNewStateObject. pose proof (getStateObject_found a s Hs) as F.
  destruct (getStateObject a s) as [s0 [o|]]; simpl in F.
  - destruct (fo_some _ _ _ _ F o eq_refl) as (Hl & Hd & Ho). rewrite Hd. simpl.
    split; try done; [by eapply undoable_found| | |apply F].
    + unfold object_at. by rewrite <- (fo_result _ _ _ _ F).
    + intros b _. apply (se_objects _ _ (fo_equiv _ _ _ _ F)).
  - pose proof (createObject_spec a s0 (fo_ok _ _ _ _ F)) as Hc.
    destruct (createObject a s0) as [[s1 o] p]. destruct Hc as (Hu & -> & _ & Hl & Hoth & Hr). simpl.
    split; try done.
    + eapply undoable_trans; [by eapply undoable_found|done].
    + unfold object_at. by rewrite <- (fo_result _ _ _ _ F).
    + intros b Hb. etrans; [by apply Hoth|]. apply (se_objects _ _ (fo_equiv _ _ _ _ F)).
    + eapply same_rest_trans; [apply F|done].
Qed.

(** ** Setters *)

Lemma updates_equiv a n n' s s' : obj_equiv n n' → updates a n s s' → updates a n' s s'.
Proof.
  intros Hn [Hu Ho Hoth Hr]. split; try done. inversion Ho as [x ? Hx|]; subst. constructor. by rewrite Hx.
Qed.

Lemma ho_updates a s s' o : has_object a s s' o → updates a (object_at a s) s s'.
Proof.
  intros [Hu Hl Hd He Hoth Hr]. split; try done. unfold lookup_obj. rewrite Hl, Hd. by constructor.
Qed.

Lemma store_updates a o n e s s1 : has_object a s s1 o → address n = a → deleted n = false →
  undoable s1 (store_dirty n (log_change e s1)) → updates a n s (store_dirty n (log_change e s1)).
Proof.
  intros H Ha Hd Hu. split.
  - eapply undoable_trans; [apply H|done].
  - destruct (lookup_store_dirty a n (log_change e s1)) as (n' & Hn & _ & _ & ->); [done..|]. by constructor.
  - intros b Hb. rewrite lookup_store_dirty_ne by congruence. by apply H.
  - eapply same_rest_trans; [apply H|]. destruct (store_dirty_rest n (log_change e s1)) as [[] _]. by split.
Qed.

Ltac setter a :=
  match goal with Hs : objs_ok ?s |- _ =>
    pose proof (GetOrNew_spec a s Hs) as H;
    destruct (GetOrNewStateObject a s) as [s1 o]; simpl in H;
    pose proof (ho_ok _ _ _ _ H) as Hs1; pose proof (ho_obj_ok _ _ _ _ H) as Hok;
    pose proof (ho_lookup _ _ _ _ H) as Hl; pose proof (ho_live _ _ _ _ H) as Hd;
    pose proof (ho_equiv _ _ _ _ H) as He
  end.

Lemma SetBalance_updates a v s : objs_ok s → 0 ≤ v →
  updates a (upd_Balance v (object_at a s)) s (SetBalance a v s).
Proof.
  intros Hs Hv. unfold SetBalance. setter a.
  eapply updates_equiv; [by apply (as_equiv _ (assign_Balance v))|].
  eapply store_updates; [done|apply Hok|done|]. by apply (undoable_SetBalance a).
Qed.
Lemma SetNonce_updates a n s : objs_ok s → is_u64 n →
  updates a (upd_Nonce n (object_at a s)) s (SetNonce a n s).
Proof.
  intros Hs Hv. unfold SetNonce. setter a.
  eapply updates_equiv; [by apply (as_equiv _ (assign_Nonce n))|].
  eapply store_updates; [done|apply Hok|done|]. by apply (undoable_SetNonce a).
Qed.

Lemma balance_same o : obj_equiv (upd_Balance (data_Balance o) o) o.
Proof. by destruct o. Qed.

(** Adding nothing touches an empty account. *)
Lemma touch_updates a s s1 o : has_object a s s1 o → updates a (object_at a s) s (touch o s1).
Proof.
  intros H. pose proof (ho_ok _ _ _ _ H) as Hs1. pose proof (ho_obj_ok _ _ _ _ H) as Hok.
  eapply updates_equiv; [|apply (store_updates a o); [done|apply Hok|apply H|by apply (undoable_touch a); [|apply H..]]].
  rewrite <- (ho_equiv _ _ _ _ H). apply touched_equiv.
Qed.

Lemma AddBalance_updates a v s : objs_ok s → 0 ≤ data_Balance (object_at a s) + v →
  updates a (upd_Balance (data_Balance (object_at a s) + v) (object_at a s)) s (AddBalance a v s).
Proof.
  intros Hs Hv. unfold AddBalance. setter a. unfold obj_AddBalance. rewrite big_Sign_eqb.
  destruct (Z.eqb_spec v 0) as [->|Hne].
  - rewrite Z.add_0_r. eapply updates_equiv; [symmetry; apply balance_same|].
    case_match; [by eapply touch_updates|by eapply ho_updates].
  - rewrite (oe_balance _ _ He).
    eapply updates_equiv; [by apply (as_equiv _ (assign_Balance _))|].
    eapply store_updates; [done|apply Hok|done|]. by apply (undoable_SetBalance a).
Qed.
Lemma SubBalance_updates a v s : objs_ok s → v ≤ data_Balance (object_at a s) →
  updates a (upd_Balance (data_Balance (object_at a s) - v) (object_at a s)) s (SubBalance a v s).
Proof.
  intros Hs Hv. unfold SubBalance. setter a. unfold obj_SubBalance. rewrite big_Sign_eqb.
  destruct (Z.eqb_spec v 0) as [->|Hne].
  - rewrite Z.sub_0_r. eapply updates_equiv; [symmetry; apply balance_same|]. by eapply ho_updates.
  - rewrite (oe_balance _ _ He).
    eapply updates_equiv; [by apply (as_equiv _ (assign_Balance _))|].
    eapply store_updates; [done|apply Hok|done|]. apply (undoable_SetBalance a); try done. lia.
Qed.

Lemma SetState_updates a k v s : objs_ok s → is_u256 v →
  updates a (upd_storage (<[k := v]> (cachedStorage (object_at a s)))
               (<[k := v]> (dirtyStorage (object_at a s))) (object_at a s)) s (SetState a k v s).
Proof.
  intros Hs Hv. unfold SetState. setter a.
  pose proof (undoable_SetState a o k v s1 Hs1 Hl Hd Hv) as Hu. unfold obj_SetState in *.
  pose proof (obj_GetState_equiv k o) as He1. destruct (obj_GetState_ok a k o Hok) as (Hok1 & Hd1 & _).
  destruct (obj_GetState k o) as [o1 pv]. simpl in *.
  eapply updates_equiv; [apply (as_equiv _ (assign_storage k v)); etrans; [exact He1|exact He]|].
  eapply store_updates; [done|apply Hok1|simpl; congruence|done].
Qed.

(** The code as [SetCode] stores it. *)
Definition code_field (c : list byte) : option (list byte) := if Zlen c =? 0 then None else Some c.

Lemma SetCode_updates a c s : objs_ok s → Zlen c < 2 ^ 63 →
  updates a (upd_code (Keccak256Hash c) (code_field c) true (object_at a s)) s (SetCode a c s).
Proof.
  intros Hs Hc. unfold SetCode. setter a.
  assert (Hf : ∀ x, code_field c = Some x → Keccak256Hash x = Keccak256Hash c ∧ Zlen x < 2 ^ 63).
  { unfold code_field. intros x. case_match; [done|]. by intros [= <-]. }
  pose proof (undoable_SetCode a o _ _ s1 Hs1 Hl Hd Hf) as Hu. fold (code_field c). unfold obj_SetCode in *.
  pose proof (obj_Code_equiv o) as He1. destruct (obj_Code_ok a o Hok) as (Hok1 & Hd1 & _).
  destruct (obj_Code o) as [o1 pv]. simpl in *.
  eapply updates_equiv; [apply (as_equiv _ (assign_code _ _ _)); etrans; [exact He1|exact He]|].
  eapply store_updates; [done|apply Hok1|simpl; congruence|done].
Qed.

Lemma CreateAccount_updates a s : objs_ok s →
  updates a (upd_Balance (data_Balance (object_at a s)) (fresh a)) s (CreateAccount a s).
Proof.
  intros Hs. unfold CreateAccount. pose proof (createObject_spec a s Hs) as Hc.
  unfold createObject in *. pose proof (getStateObject_found a s Hs) as F.
  destruct (getStateObject a s) as [s0 [p|]]; simpl in F;
    change (upd_clean false _) with (fresh a) in *; destruct Hc as (Hu & _ & _ & Hl & Hoth & Hr);
    unfold object_at; rewrite <- (fo_result _ _ _ _ F); simpl.
  - destruct (fo_some _ _ _ _ F p eq_refl) as (Hlp & Hd & Hp). unfold setBalance. set (n := upd_Balance _ _).
    change (store_dirty n _) with (setStateObject n (setStateObject (fresh a) (log_change (resetObjectChange p) (MarkStateObjectDirty a s0)))).
    split.
    + eapply undoable_trans; [by eapply undoable_found|].
      apply (undoable_reset a p n); try done; [apply F| |by apply insert_insert_eq|by split..].
      apply ok_Balance; [apply fresh_ok|apply Hp].
    + rewrite lookup_setStateObject, decide_True by done. by constructor.
    + intros b Hb. rewrite lookup_setStateObject, decide_False by done. by apply Hoth.
    + destruct (fo_rest _ _ _ _ F). by split.
  - eapply updates_equiv; [symmetry; apply balance_same|]. split; try done.
    unfold lookup_obj. rewrite Hl. by constructor.
Qed.

Lemma Suicide_none a s : objs_ok s → lookup_obj a s = None →
  state_equiv (Suicide a s).1 s ∧ undoable s (Suicide a s).1 ∧ (Suicide a s).2 = false.
Proof.
  intros Hs Hn. unfold Suicide. pose proof (getStateObject_found a s Hs) as F.
  destruct (getStateObject a s) as [s0 [p|]]; simpl in F;
    [pose proof (fo_result _ _ _ _ F); congruence|]. split_and!; [apply F|by eapply undoable_found|done].
Qed.

Definition dead (o : stateObject) : stateObject := upd_Balance 0 (upd_flags true (touched o) (deleted o) o).

Lemma Suicide_updates a s o : objs_ok s → lookup_obj a s = Some o →
  updates a (dead o) s (Suicide a s).1 ∧ (Suicide a s).2 = true.
Proof.
  intros Hs Hn. unfold Suicide. pose proof (getStateObject_found a s Hs) as F.
  destruct (getStateObject a s) as [s0 [p|]]; simpl in F; pose proof (fo_result _ _ _ _ F) as Er; [|congruence].
  assert (p = o) as -> by congruence. split; [|done]. simpl. fold (dead o).
  destruct (fo_some _ _ _ _ F o eq_refl) as (Hl & Hd & Hp).
  assert (H : has_object a s s0 o).
  { split; try done; [by eapply undoable_found|by unfold object_at; rewrite Hn| |apply F].
    intros b _. apply (se_objects _ _ (fo_equiv _ _ _ _ F)). }
  apply (store_updates a o); [done|apply Hp|done|].
  apply (undoable_store a o _ _ (λ o', upd_Balance (data_Balance o) (upd_flags (suicided o) (touched o') (deleted o') o')));
    try done; [apply F|by apply ok_Balance; [apply ok_flags|]|apply Hp| |].
  - intros t o' Hg. simpl. by rewrite Hg.
  - intros o' Ho'. destruct Ho' as [? ? ? ? ? Hco Hst ?]. split; simpl in *; try congruence.
    + rewrite !code_val_eq in *. done.
    + intros k. specialize (Hst k). rewrite !storage_val_eq, !eff_trie_eq in *. done.
Qed.

(** ** What is not in an account *)

Lemma undoable_AddRefund v s : objs_ok s → 0 ≤ v → undoable s (AddRefund v s).
Proof.
  intros Hs Hv. apply (undoable_entry (refundChange (refund s))); try done.
  { intros (? & ? & ?). split_and!; [done..|simpl; lia]. }
  eexists. split; [done|]. by split.
Qed.

Lemma undoable_AddPreimage h p s : objs_ok s → undoable s (AddPreimage h p s).
Proof.
  intros Hs. unfold AddPreimage. destruct (preimages s !! h) eqn:E; [by apply undoable_refl|].
  apply (undoable_entry (addPreimageChange h)); try done.
  eexists. split; [done|]. split; try done. simpl. by rewrite delete_insert_id.
Qed.

Lemma undoable_AddLog l s : objs_ok s → extras_ok s → undoable s (AddLog l s).
Proof.
  intros Hs (Hne & Hsz & _). apply (undoable_entry (addLogChange (thash s))); try done.
  - intros (_ & _ & Hr). split_and!; [|apply u64_range|done]. intros h. simpl. rewrite lookup_insert_Some. intros [[_ ?]|[_ ?]]; [|by eapply Hne].
    by destruct (default [] _).
  - assert (Hu : u64 (u64 (logSize s + 1) - 1) = logSize s).
    { rewrite <- (u64_small (logSize s)) at 2 by done. unfold u64. rewrite Zminus_mod_idemp_l. f_equal. lia. }
    simpl. rewrite lookup_insert_eq. simpl. set (x := mkStoredLog _ _ _ _ _).
    destruct (logs s !! thash s) as [[|y old]|] eqn:E; [by destruct (Hne (thash s))| |]; simpl.
    + destruct (old ++ [x]) as [|z l'] eqn:El; [by destruct old|]. rewrite <- El.
      eexists. split; [done|]. split; simpl; rewrite ?Hu; try done.
      rewrite insert_insert_eq. apply insert_id. rewrite E. f_equal.
      apply (f_equal length) in El. rewrite length_app in El. simpl in El.
      replace (length l') with (length old) by lia. by rewrite take_app_length.
    + eexists. split; [done|]. split; simpl; rewrite ?Hu; try done. by rewrite delete_insert_id.
Qed.

(** ** Revisions *)

Record db_valid (s : StateDB) : Prop := {
  dv_objs : objs_ok s;
  dv_logs : extras_ok s;
  dv_entries : Forall entry_ok (journal s);
  dv_sorted i j ri rj : (i < j)%nat → validRevisions s !! i = Some ri → validRevisions s !! j = Some rj →
    rev_id ri < rev_id rj ∧ (journalIndex ri ≤ journalIndex rj)%nat;
  dv_bound r : r ∈ validRevisions s → rev_id r < nextRevisionId s ∧ (journalIndex r ≤ length (journal s))%nat }.

(** The entries logged since the revision, undone, give [d]. *)
Definition restores_db (i : Z) (d s : StateDB) : Prop := ∃ r s',
  r ∈ validRevisions s ∧ rev_id r = i ∧ extras_ok d ∧
  undo_all (take (length (journal s) - journalIndex r) (journal s)) s = Some s' ∧ state_equiv s' d.

Lemma undoable_valid s s' : db_valid s → undoable s s' → db_valid s'.
Proof.
  intros [] (es & Hj & Hr & Hn & He & Ho & Hl & _). split; rewrite ?Hr, ?Hj, ?Hn; try by auto.
  - by apply Forall_app.
  - intros r Hin. destruct (dv_bound0 r Hin). rewrite length_app. lia.
Qed.

Lemma undoable_restores i d s s' : db_valid s → undoable s s' → restores_db i d s → restores_db i d s'.
Proof.
  intros Hv (es & Hj & Hr & Hn & He & Ho & Hl & s1 & Hu & Heq) (r & t & Hin & Hid & Hld & Hut & Ht).
  destruct (dv_bound _ Hv r Hin) as [_ Hb].
  destruct (undo_all_ok es s' s1) as (Hs1 & _ & _); [done..|].
  destruct (undo_all_equiv (take (length (journal s) - journalIndex r) (journal s)) s s1 t) as (t' & Hut' & Ht');
    [apply Hv|done|apply Forall_take, Hv|by symmetry|done|].
  exists r, t'. rewrite Hr, Hj. split_and!; try done.
  - rewrite length_app, take_app_ge by lia. rewrite undo_all_app, Hu. simpl. rewrite <- Hut'. do 2 f_equal. lia.
  - by rewrite <- Ht'.
Qed.

Lemma Snapshot_equiv s : state_equiv (Snapshot s).1 s.
Proof. by split. Qed.

Lemma Snapshot_valid s : db_valid s → db_valid (Snapshot s).1.
Proof.
  intros []. split; try done; simpl.
  - intros i j ri rj Hij Hi Hj. apply lookup_app_Some in Hi, Hj.
    destruct Hi as [Hi|[Hi1 Hi]], Hj as [Hj|[Hj1 Hj]]; [eauto| | |].
    + apply list_lookup_singleton_Some in Hj as [? <-]. simpl.
      destruct (dv_bound0 ri); [by eapply list_elem_of_lookup_2|]. lia.
    + apply lookup_lt_Some in Hj. lia.
    + apply list_lookup_singleton_Some in Hi as [? <-], Hj as [? <-]. lia.
  - intros r [Hin| ->%list_elem_of_singleton]%elem_of_app; [destruct (dv_bound0 r Hin)|simpl]; lia.
Qed.

Lemma Snapshot_restores_db s : db_valid s → restores_db (Snapshot s).2 s (Snapshot s).1.
Proof.
  intros Hv. eexists (mkRevision _ (length (journal s))), _. split_and!; [| |apply Hv| |]; simpl.
  - apply elem_of_app. right. by apply list_elem_of_singleton.
  - done.
  - by rewrite Nat.sub_diag, take_0.
  - apply Snapshot_equiv.
Qed.

Lemma Snapshot_restores_old i d s : restores_db i d s → db_valid s → restores_db i d (Snapshot s).1.
Proof.
  intros (r & t & Hin & Hid & Hld & Hut & Ht) Hv.
  destruct (undo_all_equiv (take (length (journal s) - journalIndex r) (journal s)) s (Snapshot s).1 t) as (t' & Hut' & Ht');
    [apply Hv|apply (Snapshot_valid _ Hv)|apply Forall_take, Hv|symmetry; apply Snapshot_equiv|exact Hut|].
  exists r, t'. split_and!; try done; [|by rewrite <- Ht'].
  simpl. apply elem_of_app. by left.
Qed.

(** The binary search over the revisions finds the one with the id. *)
Lemma Revert_index s k r : db_valid s → validRevisions s !! k = Some r →
  sort_Search (length (validRevisions s))
    (λ i, match validRevisions s !! i with Some r' => rev_id r' >=? rev_id r | None => true end) = k.
Proof.
  intros Hv Hk. set (f := λ i, _).
  assert (Hf : ∀ x rx, validRevisions s !! x = Some rx → f x = true ↔ (k ≤ x)%nat).
  { intros x rx Hx. unfold f. rewrite Hx, Z.geb_leb, Z.leb_le. split; intros Hle.
    - destruct (decide (k ≤ x)%nat); [done|]. destruct (dv_sorted s Hv x k rx r); [lia|done..|lia].
    - destruct (decide (k = x)) as [->|]; [by simplify_eq; lia|].
      destruct (dv_sorted s Hv k x r rx); [lia|done..|lia]. }
  apply lookup_lt_Some in Hk as Hlen.
  destruct (sort_Search_spec (length (validRevisions s)) f) as (Hn & Hlo & Hhi).
  { intros x y Hxy Hx. destruct (lookup_lt_is_Some_2 (validRevisions s) x) as [rx Hrx]; [lia|].
    destruct (lookup_lt_is_Some_2 (validRevisions s) y) as [ry Hry]; [lia|].
    apply (Hf y ry Hry). apply (Hf x rx Hrx) in Hx. lia. }
  destruct (Nat.lt_trichotomy (sort_Search (length (validRevisions s)) f) k) as [Hlt|[->|Hgt]]; [|done|].
  - destruct (lookup_lt_is_Some_2 (validRevisions s) (sort_Search (length (validRevisions s)) f)) as [rx Hrx]; [lia|].
    specialize (Hhi (sort_Search (length (validRevisions s)) f) ltac:(lia)). apply (Hf _ rx Hrx) in Hhi. lia.
  - specialize (Hlo k Hgt). assert (f k = true) by (by apply (Hf k r)). congruence.
Qed.

(** What [RevertToSnapshot] leaves of journal and revisions. *)
Definition cut (n k : nat) (s : StateDB) : StateDB :=
  set_journal (drop n (journal s)) (take k (validRevisions s)) (nextRevisionId s) s.

Lemma Revert_eq s k r s' : db_valid s → validRevisions s !! k = Some r →
  let n := (length (journal s) - journalIndex r)%nat in
  undo_all (take n (journal s)) s = Some s' → RevertToSnapshot (rev_id r) s = Some (cut n k s').
Proof.
  intros Hv Hk n Hu. unfold RevertToSnapshot. rewrite (Revert_index s k r Hv Hk), Hk, Z.eqb_refl.
  simpl. unfold n in Hu. by rewrite Hu.
Qed.

Lemma cut_valid n k r s : db_valid s → validRevisions s !! k = Some r →
  n = (length (journal s) - journalIndex r)%nat → db_valid (cut n k s).
Proof.
  intros Hv Hk ->. split; simpl; try apply Hv.
  - apply Forall_drop, Hv.
  - intros i j ri rj Hij [Hi _]%lookup_take_Some [Hj _]%lookup_take_Some. by eapply dv_sorted.
  - intros r' Hin. apply list_elem_of_lookup_1 in Hin as [i [Hi Hik]%lookup_take_Some].
    destruct (dv_bound s Hv r'); [by eapply list_elem_of_lookup_2|].
    destruct (dv_bound s Hv r); [by eapply list_elem_of_lookup_2|].
    destruct (dv_sorted s Hv i k r' r); [done..|]. rewrite length_drop. lia.
Qed.

(** Undoing some of the entries leaves a valid state with the same journal. *)
Lemma undone_valid es s s' d : db_valid s → Forall entry_ok es → undo_all es s = Some s' →
  state_equiv s' d → extras_ok d → db_valid s' ∧ same_journal s s'.
Proof.
  intros Hv He Hu Hd Hl. destruct (undo_all_ok es s s') as (Ho & [Hj Hr Hn] & Ht); [apply Hv|done..|].
  split; [|by split]. split; rewrite ?Hj, ?Hr, ?Hn; try apply Hv; [done|].
  eapply extras_ok_eq; [..|done]; apply Hd.
Qed.

Lemma cut_equiv n k s : state_equiv (cut n k s) s.
Proof. by split. Qed.

(** Older snapshots survive. *)
Lemma cut_restores s s' r k i' d' : db_valid s → validRevisions s !! k = Some r → same_journal s s' →
  db_valid s' → let n := (length (journal s) - journalIndex r)%nat in
  undo_all (take n (journal s)) s = Some s' → i' < rev_id r →
  restores_db i' d' s → restores_db i' d' (cut n k s').
Proof.
  intros Hv Hk [Hj Hr Hn] Hv' n Hu Hlt (r' & t & Hin & Hid & Hld & Hut & Ht).
  apply list_elem_of_lookup_1 in Hin as [j Hin].
  destruct (dv_bound s Hv r') as [_ ?]; [by eapply list_elem_of_lookup_2|].
  destruct (dv_bound s Hv r) as [_ ?]; [by eapply list_elem_of_lookup_2|].
  assert (j < k)%nat as Hjk.
  { destruct (decide (j < k)%nat); [done|]. destruct (decide (j = k)) as [->|]; [simplify_eq; lia|].
    destruct (dv_sorted s Hv k j r r'); [lia|done..|lia]. }
  destruct (dv_sorted s Hv j k r' r) as [_ Hji]; [done..|].
  assert (Hsplit : take (length (journal s) - journalIndex r') (journal s) =
    take n (journal s) ++ take (journalIndex r - journalIndex r') (drop n (journal s))).
  { rewrite <- (take_drop n (journal s)) at 2. rewrite take_app_ge by (rewrite length_take; lia).
    do 2 f_equal. rewrite length_take. lia. }
  rewrite Hsplit, undo_all_app, Hu in Hut. simpl in Hut.
  destruct (undo_all_equiv (take (journalIndex r - journalIndex r') (drop n (journal s))) s' (cut n k s') t) as (t' & Hut' & Ht');
    [apply Hv'|apply Hv'|apply Forall_take, Forall_drop, Hv|symmetry; apply cut_equiv|done|].
  exists r', t'. split_and!; try done; [| |by rewrite <- Ht'].
  - simpl. rewrite Hr. eapply list_elem_of_lookup_2. rewrite lookup_take_Some. done.
  - simpl. rewrite Hj, length_drop. rewrite <- Hut'. do 2 f_equal. lia.
Qed.

Lemma Revert_restores i d s : db_valid s → restores_db i d s →
  ∃ s', RevertToSnapshot i s = Some s' ∧ state_equiv s' d ∧ db_valid s' ∧
    ∀ i' d', i' < i → restores_db i' d' s → restores_db i' d' s'.
Proof.
  intros Hv (r & t & Hin & <- & Hld & Hut & Ht). apply list_elem_of_lookup_1 in Hin as [k Hk].
  destruct (undone_valid _ s t d Hv (Forall_take _ _ _ (dv_entries _ Hv)) Hut Ht Hld) as [Hvt Hj].
  eexists. split_and!; [by eapply Revert_eq|by rewrite cut_equiv| |].
  - eapply cut_valid; [done|by rewrite (sj_revisions _ _ Hj)|by rewrite (sj_journal _ _ Hj)].
  - intros i' d' Hlt Hr'. by eapply cut_restores.
Qed.

(** ** Getters *)

Definition balance_at (a : Address) (s : StateDB) : Z := from_option data_Balance 0 (lookup_obj a s).
Definition nonce_at (a : Address) (s : StateDB) : Z := from_option data_Nonce 0 (lookup_obj a s).
Definition code_at (a : Address) (s : StateDB) : list byte := from_option code_val [] (lookup_obj a s).
Definition hash_at (a : Address) (s : StateDB) : Hash := from_option data_CodeHash 0 (lookup_obj a s).
Definition storage_at (a : Address) (k : Hash) (s : StateDB) : Hash :=
  from_option (λ o, storage_val o k) 0 (lookup_obj a s).
Definition suicided_at (a : Address) (s : StateDB) : bool := from_option suicided false (lookup_obj a s).

(** A read: the value, and a state that differs in caches only. *)
Record pure_read (s s' : StateDB) : Prop := {
  pr_equiv : state_equiv s' s;
  pr_undo : undoable s s' }.

Ltac getter a s :=
  match goal with Hs : objs_ok s |- _ =>
    pose proof (getStateObject_found a s Hs) as F; destruct (getStateObject a s) as [s0 [o|]]; simpl in F |- *;
    rewrite <- ?(fo_result _ _ _ _ F)
  end.

Lemma found_read a s s' r : found a s s' r → pure_read s s'.
Proof. intros F. split; [apply F|by eapply undoable_found]. Qed.

Lemma GetBalance_eq a s : objs_ok s → pure_read s (GetBalance a s).1 ∧ (GetBalance a s).2 = balance_at a s.
Proof. intros Hs. unfold GetBalance, balance_at. getter a s; (split; [by eapply found_read|done]). Qed.
Lemma GetNonce_eq a s : objs_ok s → pure_read s (GetNonce a s).1 ∧ (GetNonce a s).2 = nonce_at a s.
Proof. intros Hs. unfold GetNonce, nonce_at. getter a s; (split; [by eapply found_read|done]). Qed.
Lemma GetCodeHash_eq a s : objs_ok s → pure_read s (GetCodeHash a s).1 ∧ (GetCodeHash a s).2 = hash_at a s.
Proof. intros Hs. unfold GetCodeHash, hash_at. getter a s; (split; [by eapply found_read|done]). Qed.
Lemma HasSuicided_eq a s : objs_ok s → pure_read s (HasSuicided a s).1 ∧ (HasSuicided a s).2 = suicided_at a s.
Proof. intros Hs. unfold HasSuicided, suicided_at. getter a s; (split; [by eapply found_read|done]). Qed.
Lemma Exist_eq a s : objs_ok s → pure_read s (Exist a s).1 ∧ ((Exist a s).2 = true ↔ is_Some (lookup_obj a s)).
Proof.
  intros Hs. unfold Exist. getter a s; (split; [by eapply found_read|]); [by eauto|].
  split; [done|by intros [? ?]].
Qed.
Lemma Empty_eq a s : objs_ok s → pure_read s (Empty a s).1 ∧ (Empty a s).2 = from_option empty true (lookup_obj a s).
Proof. intros Hs. unfold Empty. getter a s; (split; [by eapply found_read|done]). Qed.

Lemma cache_read a s s0 o o' : found a s s0 (Some o) → obj_equiv o' o → obj_ok a o' → deleted o' = deleted o →
  pure_read s (setStateObject o' s0).
Proof.
  intros F He Ho Hd. destruct (fo_some _ _ _ _ F o eq_refl) as (Hl & Hd0 & _).
  assert (Hu : undoable s0 (setStateObject o' s0)) by (apply (undoable_cache a o); [apply F|congruence..]).
  split; [|eapply undoable_trans; [by eapply undoable_found|done]].
  rewrite <- (fo_equiv _ _ _ _ F). apply same_rest_equiv; [by split|]. intros b.
  rewrite lookup_setStateObject, (ok_address _ _ Ho), Hd, Hd0. case_decide; [|done]. subst.
  unfold lookup_obj. rewrite Hl, Hd0. by constructor.
Qed.

Lemma GetState_eq a k s : objs_ok s → pure_read s (GetState a k s).1 ∧ (GetState a k s).2 = storage_at a k s.
Proof.
  intros Hs. unfold GetState, storage_at. getter a s; [|by split; [eapply found_read|]].
  destruct (fo_some _ _ _ _ F o eq_refl) as (_ & _ & Ho). unfold storage_val. simpl.
  pose proof (obj_GetState_equiv k o). destruct (obj_GetState_ok a k o Ho) as (? & ? & _).
  destruct (obj_GetState k o). simpl in *. split; [by eapply cache_read|done].
Qed.
Lemma GetCode_eq a s : objs_ok s → pure_read s (GetCode a s).1 ∧ (GetCode a s).2 = code_at a s.
Proof.
  intros Hs. unfold GetCode, code_at. getter a s; [|by split; [eapply found_read|]].
  destruct (fo_some _ _ _ _ F o eq_refl) as (_ & _ & Ho). unfold code_val. simpl.
  pose proof (obj_Code_equiv o). destruct (obj_Code_ok a o Ho) as (? & ? & _).
  destruct (obj_Code o). simpl in *. split; [by eapply cache_read|done].
Qed.

Lemma setError_read er s s' : pure_read s s' → pure_read s (setError er s').
Proof.
  intros [He Hu]. split; [by rewrite setError_equiv|]. eapply undoable_trans; [done|].
  apply undoable_equiv; [by apply undoable_objs in Hu|apply setError_equiv|by split].
Qed.
Lemma GetCodeSize_eq a s : objs_ok s →
  pure_read s (GetCodeSize a s).1 ∧ (GetCodeSize a s).2 = Zlen (code_at a s).
Proof.
  intros Hs. unfold GetCodeSize, code_at. getter a s; [|by split; [eapply found_read|]].
  simpl. rewrite <- size_val_eq. unfold size_val. destruct (code o); [by split; [eapply found_read|]|].
  destruct (ContractCodeSize _ _). simpl. split; [|done]. by eapply setError_read, found_read.
Qed.

(** ** The laws *)

Record content_eq (s1 s2 : StateDB) : Prop := {
  ce_balance a : balance_at a s1 = balance_at a s2;
  ce_nonce a : nonce_at a s1 = nonce_at a s2;
  ce_code a : code_at a s1 = code_at a s2;
  ce_storage a k : storage_at a k s1 = storage_at a k s2;
  ce_suicided a : suicided_at a s1 = suicided_at a s2;
  ce_refund : refund s1 = refund s2;
  ce_logs : logs s1 = logs s2 }.

Lemma content_equivalence : Equivalence content_eq.
Proof.
  split.
  - by split.
  - by intros s1 s2 [].
  - intros s1 s2 s3 [] []. split; intros; etrans; eauto.
Qed.

Lemma equiv_at {A} (f : stateObject → A) (d : A) a s1 s2 :
  (∀ o1 o2, obj_equiv o1 o2 → f o1 = f o2) → state_equiv s1 s2 →
  from_option f d (lookup_obj a s1) = from_option f d (lookup_obj a s2).
Proof. intros Hf Hs. destruct (se_objects _ _ Hs a); simpl; auto. Qed.

Lemma equiv_content_eq s1 s2 : state_equiv s1 s2 → content_eq s1 s2.
Proof.
  intros Hs. split; try apply Hs; intros; (apply equiv_at; [|done]); intros ? ? []; done.
Qed.

(** An account changed to one with the same contents. *)
Lemma updates_content a n s s' : updates a n s s' →
  data_Balance n = balance_at a s → data_Nonce n = nonce_at a s → code_val n = code_at a s →
  (∀ k, storage_val n k = storage_at a k s) → suicided n = suicided_at a s → content_eq s' s.
Proof.
  intros [_ Ho Hoth Hr] Hb Hn Hc Hst Hsu. inversion Ho as [n' ? Hn' El|]; subst.
  assert (Hat : ∀ A (f : stateObject → A) d b, (∀ o1 o2, obj_equiv o1 o2 → f o1 = f o2) →
    f n = from_option f d (lookup_obj a s) →
    from_option f d (lookup_obj b s') = from_option f d (lookup_obj b s)).
  { intros A f d b Hf Ha. destruct (decide (b = a)) as [->|Hne].
    - rewrite <- El, <- Ha. by apply Hf.
    - destruct (Hoth b Hne); simpl; auto. }
  split; try apply Hr; intros; (apply Hat; [by intros ? ? []|done]).
Qed.

Lemma fresh_content a : data_Balance (fresh a) = 0 ∧ data_Nonce (fresh a) = 0 ∧ suicided (fresh a) = false.
Proof. done. Qed.

Lemma object_at_content a s : data_Balance (object_at a s) = balance_at a s ∧
  data_Nonce (object_at a s) = nonce_at a s ∧ code_val (object_at a s) = code_at a s ∧
  (∀ k, storage_val (object_at a s) k = storage_at a k s) ∧ suicided (object_at a s) = suicided_at a s.
Proof.
  unfold object_at, balance_at, nonce_at, code_at, storage_at, suicided_at.
  destruct (lookup_obj a s); simpl; [done|]. split_and!; try done; [apply fresh_code|apply fresh_storage].
Qed.

Lemma updates_same_content a s s' : updates a (object_at a s) s s' → content_eq s' s.
Proof.
  intros Hu. destruct (object_at_content a s) as (? & ? & ? & ? & ?). by eapply updates_content.
Qed.

Lemma object_at_balance a s : objs_ok s → 0 ≤ data_Balance (object_at a s).
Proof.
  intros Hs. destruct (GetOrNew_spec a s Hs) as [Hu Hl _ He _ _]. rewrite <- (oe_balance _ _ He).
  apply undoable_objs in Hu. destruct (Hu a _ Hl) as [[] _]. done.
Qed.
Lemma lookup_obj_ok a s o : objs_ok s → lookup_obj a s = Some o → obj_ok a o.
Proof.
  intros Hs Hl. destruct (getStateObject_found a s Hs) as [Hr _ _ _ _ Hso _].
  rewrite Hl in Hr. by destruct (Hso o Hr) as (_ & _ & ?).
Qed.

(** How the balances look after an update. *)
Lemma updates_balance a n s s' b : updates a n s s' →
  balance_at b s' = if decide (b = a) then data_Balance n else balance_at b s.
Proof.
  intros [_ Ho Hoth _]. unfold balance_at. case_decide as Hb.
  - subst. inversion Ho as [? ? He El|]; subst. simpl. apply He.
  - destruct (Hoth b Hb) as [? ? []|]; done.
Qed.

#[global] Instance journaled_StateDB : EvmMachine.StateDB StateDB := {|
  EvmMachine.CreateAccount := CreateAccount; EvmMachine.SubBalance := SubBalance;
  EvmMachine.AddBalance := AddBalance; EvmMachine.GetBalance := GetBalance;
  EvmMachine.GetNonce := GetNonce; EvmMachine.SetNonce := SetNonce;
  EvmMachine.GetCodeHash := GetCodeHash; EvmMachine.GetCode := GetCode;
  EvmMachine.SetCode := SetCode; EvmMachine.GetCodeSize := GetCodeSize;
  EvmMachine.AddRefund := AddRefund; EvmMachine.GetRefund := GetRefund;
  EvmMachine.GetState := GetState; EvmMachine.SetState := SetState;
  EvmMachine.Suicide := Suicide; EvmMachine.HasSuicided := HasSuicided;
  EvmMachine.Exist := Exist; EvmMachine.Empty := Empty;
  EvmMachine.RevertToSnapshot := RevertToSnapshot; EvmMachine.Snapshot := Snapshot;
  EvmMachine.AddLog := AddLog; EvmMachine.AddPreimage := AddPreimage |}.

#[global] Instance journaled_view : DBView StateDB := {|
  db_ok := db_valid; restores := restores_db; db_equiv := state_equiv; same_content := content_eq |}.

Lemma undoable_evolves s s' : db_valid s → undoable s s' → evolves s s'.
Proof. intros Hv Hu. split; [by eapply undoable_valid|]. intros i d. by apply undoable_restores. Qed.
Lemma read_reads s s' : db_valid s → pure_read s s' → reads s s'.
Proof. intros Hv [He Hu]. split; [by apply undoable_evolves|done]. Qed.
Lemma updates_evolves a n s s' : db_valid s → updates a n s s' → evolves s s'.
Proof. intros Hv [Hu _ _ _]. by apply undoable_evolves. Qed.

Lemma balance_at_nonneg a s : objs_ok s → 0 ≤ balance_at a s.
Proof.
  intros Hs. unfold balance_at. destruct (lookup_obj a s) as [o|] eqn:E; [|done].
  by apply (lookup_obj_ok a s o Hs E).
Qed.
Lemma storage_at_nonneg a k s : objs_ok s → is_u256 (storage_at a k s).
Proof.
  intros Hs. unfold storage_at. destruct (lookup_obj a s) as [o|] eqn:E; [|done].
  by eapply storage_val_u256, lookup_obj_ok.
Qed.
Lemma code_at_ok a s : objs_ok s →
  Zlen (code_at a s) < 2 ^ 63 ∧ (code_at a s = [] ∨ hash_at a s = state.Keccak256Hash (code_at a s)).
Proof.
  intros Hs. unfold code_at, hash_at. destruct (lookup_obj a s) as [o|] eqn:E; [|by split; [|left]].
  simpl. rewrite code_val_eq. destruct (lookup_obj_ok a s o Hs E) as [_ _ _ _ Hc].
  destruct (code o) as [c|]; [by destruct (Hc c) as [-> ?]; [|split; [|right]]|].
  case_if; [by split; [|left]|]. split; [apply ContractCode_len|].
  destruct (ContractCode_hash (addrHash o) (data_CodeHash o)) as [-> | ->]; auto.
Qed.
Lemma code_at_equiv a s s' : state_equiv s' s → code_at a s' = code_at a s.
Proof. intros Hs. by apply equiv_at; [intros ? ? []|]. Qed.

Lemma CreateAccount_balance a b s : objs_ok s → balance_at a (CreateAccount b s) = balance_at a s.
Proof.
  intros Hs. rewrite (updates_balance _ _ _ _ a (CreateAccount_updates b s Hs)). case_decide; [|done].
  subst. apply object_at_content.
Qed.
Lemma SetNonce_balance a b n s : objs_ok s → is_u64 n → balance_at a (SetNonce b n s) = balance_at a s.
Proof.
  intros Hs Hn. rewrite (updates_balance _ _ _ _ a (SetNonce_updates b n s Hs Hn)). case_decide; [|done].
  subst. apply object_at_content.
Qed.

Lemma CreateAccount_new a s : objs_ok s → lookup_obj a s = None → content_eq (CreateAccount a s) s.
Proof.
  intros Hs Hn. apply (updates_same_content a). eapply updates_equiv; [|by apply CreateAccount_updates].
  unfold object_at. rewrite Hn. apply balance_same.
Qed.
Lemma AddBalance_0 a s : objs_ok s → content_eq (AddBalance a 0 s) s.
Proof.
  intros Hs. apply (updates_same_content a). eapply updates_equiv; [|apply AddBalance_updates; [done|]];
    rewrite Z.add_0_r; [apply balance_same|by apply object_at_balance].
Qed.
Lemma SubBalance_0 a s : objs_ok s → content_eq (SubBalance a 0 s) s.
Proof.
  intros Hs. apply (updates_same_content a). eapply updates_equiv; [|apply SubBalance_updates; [done|]];
    rewrite ?Z.sub_0_r; [apply balance_same|by apply object_at_balance].
Qed.

Lemma undoable_Suicide a s : objs_ok s → undoable s (Suicide a s).1.
Proof.
  intros Hs. destruct (lookup_obj a s) as [o|] eqn:E;
    [apply (Suicide_updates a s o Hs E)|apply (Suicide_none a s Hs E)].
Qed.

#[global] Instance journaled_laws : StateDBLaws StateDB state.Keccak256Hash.
Proof.
  split; simpl.
  - apply _.
  - apply content_equivalence.
  - apply equiv_content_eq.
  - intros a s [Hs]. destruct (GetBalance_eq a s Hs) as [_ ->]. by apply balance_at_nonneg.
  - intros a s [Hs]. destruct (GetCodeSize_eq a s Hs) as [_ ->]. unfold Zlen. lia.
  - intros a k s [Hs]. destruct (GetState_eq a k s Hs) as [_ ->]. by apply storage_at_nonneg.
  - intros a s [Hs]. destruct (GetCode_eq a s Hs) as [_ ->]. by apply code_at_ok.
  - intros a s [Hs]. destruct (GetCodeHash_eq a s Hs) as [[He Hu] Hh]. destruct (GetCodeHash a s) as [s' h]. simpl in *.
    destruct (GetCode_eq a s') as [_ ->]; [by eapply undoable_objs|]. rewrite Hh, (code_at_equiv _ _ _ He).
    by apply code_at_ok.
  - intros a s Hv. apply read_reads, GetBalance_eq; [done|apply Hv].
  - intros a s Hv. apply read_reads, GetNonce_eq; [done|apply Hv].
  - intros a s Hv. apply read_reads, GetCodeHash_eq; [done|apply Hv].
  - intros a s Hv. apply read_reads, GetCode_eq; [done|apply Hv].
  - intros a s Hv. apply read_reads, GetCodeSize_eq; [done|apply Hv].
  - intros a k s Hv. apply read_reads, GetState_eq; [done|apply Hv].
  - intros a s Hv. apply read_reads, HasSuicided_eq; [done|apply Hv].
  - intros a s Hv. apply read_reads, Exist_eq; [done|apply Hv].
  - intros a s Hv. apply read_reads, Empty_eq; [done|apply Hv].
  - intros a s Hv. eapply updates_evolves, CreateAccount_updates; [done|apply Hv].
  - intros a v s Hv ?. eapply updates_evolves, AddBalance_updates; [done|apply Hv|].
    pose proof (object_at_balance a s (dv_objs _ Hv)). lia.
  - intros a v s Hv [_ Hle]. destruct (GetBalance_eq a s (dv_objs _ Hv)) as [_ Hb]. rewrite Hb in Hle.
    eapply updates_evolves, SubBalance_updates; [done|apply Hv|]. by destruct (object_at_content a s) as [-> _].
  - intros a n s Hv ?. eapply updates_evolves, SetNonce_updates; [done|apply Hv|done].
  - intros a c s Hv ?. eapply updates_evolves, SetCode_updates; [done|apply Hv|done].
  - intros v s Hv ?. apply undoable_evolves, undoable_AddRefund; [done|apply Hv|done].
  - intros a k v s Hv ?. eapply updates_evolves, SetState_updates; [done|apply Hv|done].
  - intros a s Hv. apply undoable_evolves, undoable_Suicide, Hv. done.
  - intros l s Hv. apply undoable_evolves, undoable_AddLog; apply Hv.
  - intros k p s Hv. apply undoable_evolves, undoable_AddPreimage, Hv. done.
  - intros a s s' [Hs] [Hs'] He. destruct (GetBalance_eq a s Hs) as [_ ->], (GetBalance_eq a s' Hs') as [_ ->].
    by apply (ce_balance _ _ (equiv_content_eq _ _ He)).
  - intros a b s [Hs]. destruct (GetBalance_eq a s Hs) as [_ ->].
    destruct (GetBalance_eq a (CreateAccount b s)) as [_ ->]; [|by apply CreateAccount_balance].
    eapply undoable_objs, CreateAccount_updates, Hs.
  - intros a b n s [Hs] Hn. destruct (GetBalance_eq a s Hs) as [_ ->].
    destruct (GetBalance_eq a (SetNonce b n s)) as [_ ->]; [|by apply SetNonce_balance].
    eapply undoable_objs, SetNonce_updates; done.
  - intros a s [Hs] Hx. destruct (Exist_eq a s Hs) as [[He Hu] Hiff].
    assert (Hn : lookup_obj a (Exist a s).1 = None).
    { pose proof (se_objects _ _ He a) as Ho. destruct (lookup_obj a s); [|by inversion Ho].
      rewrite (proj2 Hiff) in Hx by eauto. done. }
    destruct content_equivalence. etrans; [apply CreateAccount_new; [by eapply undoable_objs|done]|].
    by apply equiv_content_eq.
  - intros a s [Hs]. by apply AddBalance_0.
  - intros a s [Hs]. by apply SubBalance_0.
  - intros k p s _. unfold AddPreimage. destruct (preimages s !! k); by split.
  - intros s Hv. split; [split; [by apply Snapshot_valid|]|apply Snapshot_equiv].
    intros. by apply Snapshot_restores_old.
  - apply Snapshot_restores_db.
  - intros i d s Hv (r & t & Hin & <- & _). by apply (dv_bound s Hv).
  - intros i d s. apply Revert_restores.
Qed.
End laws.
