(* ===== verification/Transition.v ===== *)
(** * Applying a message

    [src/hvm/hvm.go] (the EVM context), [src/hvm/gaspool.go],
    [src/hvm/native/native.go], [IntrinsicGas] of
    [src/blockchain/types/transaction.go], and
    [src/blockchain/state_transition.go]: buying gas, running a message on the
    EVM or as a native transfer, refunding, paying the coinbase. *)

From stdpp Require Import base tactics list numbers gmap.
From S2P Require Import Prelude GoMath EvmParams EvmMachine EvmInstr EvmInterp EvmLaws State.
From S2P Require Import StateFacts StateLaws.

#[local] Open Scope Z_scope.

(** The sentinel errors compared by identity: the packages [hvm] and [bc]
    each have their own [ErrGasLimitReached]. *)
Inductive tx_error : Type :=
| ErrNonceTooHigh
| ErrNonceTooLow
| errInsufficientBalanceForGas
| bc_ErrInsufficientBalance
| hvm_ErrGasLimitReached
| bc_ErrGasLimitReached
| tx_vm_error (err : evm_error).
#[global] Instance tx_error_eq_dec : EqDecision tx_error.
Proof. solve_decision. Defined.

(** ** transaction.go *)

Record Message : Type := mkMessage {
  msg_from : Address;
  msg_to : option Address;
  msg_nonce : Z;
  msg_amount : Z;
  msg_price : Z;
  msg_gasLimit : Z;
  msg_data : list byte;
  msg_checkNonce : bool }.

Definition nonzero_bytes (data : list byte) : Z :=
  foldl (λ nz byt, if negb (byteZ byt =? 0) then nz + 1 else nz) 0 data.
Definition IntrinsicGas (data : list byte) (contractCreation : bool) : Z :=
  let igas := if contractCreation then TxGasContractCreation else TxGas in
  if Zlen data >? 0 then
    let nz := nonzero_bytes data in
    let igas := igas + nz * TxDataNonZeroGas in
    igas + (Zlen data - nz) * TxDataZeroGas
  else igas.

(** ** gaspool.go *)

Definition AddGas (amount gp : Z) : Z := gp + amount.
Definition SubGas (amount gp : Z) : option Z :=
  if big_Cmp gp amount <? 0 then None else Some (gp - amount).

(** ** hvm.go *)

Record Header : Type := mkHeader {
  hd_ParentHash : Hash;
  hd_Number : Z;
  hd_Time : Z;
  hd_Difficulty : Z;
  hd_GasLimit : Z;
  hd_Hash : Hash }.

(** What a message is processed in: the chain's headers, and the engine's
    author of a header. *)
Record ChainContext : Type := {
  GetHeader : Hash → Z → option Header;
  Engine_Author : Header → Address }.

(** The walk back from the parent of [ref]; a chain has fewer headers than
    the fuel. *)
Fixpoint GetHashFn_loop (fuel : nat) (chain : ChainContext) (header : option Header) (n : Z) : option Hash :=
  match fuel, header with
  | O, _ => None
  | _, None => Some 0
  | S fuel', Some h =>
      if big_Uint64 (hd_Number h) =? n then Some (hd_Hash h)
      else GetHashFn_loop fuel' chain
             (GetHeader chain (hd_ParentHash h) (u64 (big_Uint64 (hd_Number h) - 1))) n
  end.
Definition GetHashFn (ref : Header) (chain : ChainContext) (n : Z) : option Hash :=
  GetHashFn_loop (S (Z.to_nat (big_Uint64 (hd_Number ref)))) chain
    (GetHeader chain (hd_ParentHash ref) (u64 (big_Uint64 (hd_Number ref) - 1))) n.

Definition beneficiary (header : Header) (chain : ChainContext) (author : option Address) : Address :=
  match author with None => Engine_Author chain header | Some a => a end.

Definition NewEVMContext {DB} {db_ops : StateDB DB} (msg : Message) (header : Header)
    (chain : ChainContext) (author : option Address) : Context DB :=
  mkContext hvm_CanTransfer hvm_Transfer (λ n, default 0 (GetHashFn header chain n))
    (msg_from msg) (msg_price msg) (beneficiary header chain author)
    (hd_GasLimit header) (hd_Number header) (hd_Time header) (hd_Difficulty header).

(** ** block_validator.go *)

Definition GasLimitBoundDivisor : Z := 1024.
Definition MinGasLimit : Z := 5000.
Definition GenesisGasLimit : Z := 100000000.
Definition TargetGasLimit : Z := GenesisGasLimit.

(** The limit is computed, and then the target returned. *)
Definition CalcGasLimit (parent_GasUsed parent_GasLimit : Z) : Z :=
  let contrib := big_Div (big_Div (parent_GasUsed * 3) 2) GasLimitBoundDivisor in
  let decay := big_Div parent_GasLimit GasLimitBoundDivisor - 1 in
  let gl := BigMax (parent_GasLimit - decay + contrib) MinGasLimit in
  let gl := if big_Cmp gl TargetGasLimit <? 0
            then BigMin (parent_GasLimit + decay) TargetGasLimit else gl in
  TargetGasLimit.

(** ** native.go: the same two functions once more *)
Definition native_CanTransfer {DB} {db_ops : StateDB DB} (addr : Address) (amount : Z) (db : DB) : DB * bool :=
  let '(db, b) := GetBalance addr db in (db, big_Cmp b amount >=? 0).
Definition native_Transfer {DB} {db_ops : StateDB DB} (sender recipient : Address) (amount : Z) (db : DB) : DB :=
  AddBalance recipient amount (SubBalance sender amount db).

(** ** state_transition.go *)

Section transition.
Context {senv : state.StateEnv}.

(** What the package [evm] is given besides the context: address derivation
    and the native contracts. *)
Context (CreateAddress : Address → Z → Address) (precompiles : Address → option PrecompiledContract).

(** The mutable fields; [st_state] is the database shared with the caller. *)
Record StateTransition : Type := mkST {
  st_gp : Z;
  st_gas : Z;
  st_initialGas : Z;
  st_state : state.StateDB }.

Definition set_gp (g : Z) (s : StateTransition) : StateTransition :=
  mkST g (st_gas s) (st_initialGas s) (st_state s).
Definition set_gas (g : Z) (s : StateTransition) : StateTransition :=
  mkST (st_gp s) g (st_initialGas s) (st_state s).
Definition set_initialGas (g : Z) (s : StateTransition) : StateTransition :=
  mkST (st_gp s) (st_gas s) g (st_state s).
Definition set_state (db : state.StateDB) (s : StateTransition) : StateTransition :=
  mkST (st_gp s) (st_gas s) (st_initialGas s) db.

Abbreviation T := (M StateTransition tx_error).

Definition T_read {A} (f : state.StateDB → state.StateDB * A) : T A := λ s,
  let '(db, a) := f (st_state s) in (set_state db s, Val a).
Definition T_write (f : state.StateDB → state.StateDB) : T unit :=
  modify (λ s, set_state (f (st_state s)) s).

(** The part of the environment that is fixed for a message. *)
Record Job : Type := mkJob {
  job_msg : Message;
  job_header : Header;
  job_chain : ChainContext;
  job_author : option Address }.

Section job.
Context (j : Job).
#[local] Abbreviation msg := (job_msg j).

Definition NewStateTransition_native : T bool :=
  match msg_to msg with
  | None => mret false
  | Some _ => n ← T_read (GetCodeSize (msg_from msg)); mret (n =? 0)
  end.

Definition from : T Address :=
  let f := msg_from msg in
  e ← T_read (Exist f);
  (if negb e then T_write (CreateAccount f) else mret tt);; mret f.
Definition to : T Address :=
  match msg_to msg with
  | None => mret 0
  | Some a =>
      e ← T_read (Exist a);
      (if negb e then T_write (CreateAccount a) else mret tt);; mret a
  end.

Definition useGas (amount : Z) : T unit :=
  g ← gets st_gas;
  if g <? amount then fail (tx_vm_error ErrOutOfGas)
  else modify (set_gas (u64 (g - amount))).

Definition buyGas : T unit :=
  let mgas := msg_gasLimit msg in
  if BitLen mgas >? 64 then fail (tx_vm_error ErrOutOfGas)
  else
    let mgval := mgas * msg_price msg in
    sender ← from;
    b ← T_read (GetBalance sender);
    if big_Cmp b mgval <? 0 then fail errInsufficientBalanceForGas
    else
      g ← gets st_gp;
      match SubGas mgas g with
      | None => fail hvm_ErrGasLimitReached
      | Some g' =>
          modify (set_gp g');;
          gas ← gets st_gas;
          modify (set_gas (u64 (gas + big_Uint64 mgas)));;
          modify (set_initialGas mgas);;
          T_write (SubBalance sender mgval)
      end.

Definition preCheck : T unit :=
  sender ← from;
  if msg_checkNonce msg then
    nonce ← T_read (GetNonce sender);
    if nonce <? msg_nonce msg then fail ErrNonceTooHigh
    else if msg_nonce msg <? nonce then fail ErrNonceTooLow
    else buyGas
  else buyGas.

Definition gasUsed : T Z := gets (λ s, st_initialGas s - st_gas s).

(** [BigMin] returns one of its arguments, and the product is stored in it:
    when that is the refund counter of the state, the counter changes. *)
Definition refundGas : T unit :=
  sender ← from;
  gas ← gets st_gas;
  let remaining := gas * msg_price msg in
  T_write (AddBalance sender remaining);;
  used ← gasUsed;
  let uhalf := big_Div used 2 in
  counter ← gets (λ s, GetRefund (st_state s));
  let refund := BigMin uhalf counter in
  modify (set_gas (u64 (gas + big_Uint64 refund)));;
  let paid := refund * msg_price msg in
  (if big_Cmp uhalf counter >? 0 then T_write (state.set_refund paid) else mret tt);;
  T_write (AddBalance sender paid);;
  gas ← gets st_gas;
  modify (λ s, set_gp (AddGas gas (st_gp s)) s).

(** The results are the returned data, the gas used and the failure flag. *)
Abbreviation TxRes := (list byte * Z * bool)%type (only parsing).

Definition TransitionOnNative : T TxRes :=
  let from := msg_from msg in
  to_ ← to;
  can ← T_read (native_CanTransfer from (msg_amount msg));
  if negb can then fail bc_ErrInsufficientBalance
  else
    to2 ← to;
    e ← T_read (Exist to2);
    (if negb e then T_write (CreateAccount to_) else mret tt);;
    T_write (native_Transfer from to_ (msg_amount msg));;
    refundGas;;
    used ← gasUsed;
    T_write (AddBalance (beneficiary (job_header j) (job_chain j) (job_author j)) (used * msg_price msg));;
    used ← gasUsed;
    mret ([], used, false).

(** The EVM of the message. *)
Definition job_Env : Env state.StateDB :=
  mkEnv (NewEVMContext msg (job_header j) (job_chain j) (job_author j))
    default_Config GasTableEIP158 state.Keccak256Hash CreateAddress precompiles.

(** Running the EVM on the state of the transition; its errors are results. *)
Definition on_evm {A} (h : M (EVM state.StateDB) evm_error A) : T A := λ s,
  match h (NewEVM (st_state s)) with
  | (e, Val a) => (set_state (stateDB e) s, Val a)
  | (e, Err err) => (set_state (stateDB e) s, Err (tx_vm_error err))
  | (e, Panic) => (set_state (stateDB e) s, Panic)
  | (e, NoFuel) => (set_state (stateDB e) s, NoFuel)
  end.

(** The creation or call of [TransitionOnEVM]. *)
Definition run_message (sender : Address) : T CallRes :=
  match msg_to msg with
  | None =>
      gas ← gets st_gas;
      r ← on_evm (EVM_Create job_Env (AccountRef sender) (msg_data msg) gas (msg_amount msg));
      mret (snd r)
  | Some _ =>
      nonce ← T_read (GetNonce sender);
      T_write (SetNonce sender (u64 (nonce + 1)));;
      to_ ← to;
      gas ← gets st_gas;
      on_evm (EVM_Call job_Env (AccountRef sender) to_ (msg_data msg) gas (msg_amount msg))
  end.
Definition TransitionOnEVM : T TxRes :=
  sender ← from;
  r ← run_message sender;
  modify (set_gas (cr_gas r));;
  if bool_decide (cr_err r = Some ErrInsufficientBalance) then fail (tx_vm_error ErrInsufficientBalance)
  else
    refundGas;;
    used ← gasUsed;
    T_write (AddBalance (Coinbase (ctx job_Env)) (used * msg_price msg));;
    used ← gasUsed;
    mret (cr_ret r, used, bool_decide (cr_err r ≠ None)).

Definition ApplyMessage_body (native : bool) : T TxRes :=
  preCheck;;
  let contractCreation := match msg_to msg with None => true | Some _ => false end in
  let intrinsicGas := IntrinsicGas (msg_data msg) contractCreation in
  if BitLen intrinsicGas >? 64 then fail (tx_vm_error ErrOutOfGas)
  else
    useGas (big_Uint64 intrinsicGas);;
    if native then TransitionOnNative else TransitionOnEVM.

(** The pool and the database belong to the caller. *)
Definition ApplyMessage (db : state.StateDB) (gp : Z)
    : state.StateDB * Z * outcome tx_error TxRes :=
  let '(s, r) := (native ← NewStateTransition_native; ApplyMessage_body native) (mkST gp 0 0 db) in
  (st_state s, st_gp s, r).
End job.
End transition.
