(* ===== verification/TransitionFacts.v ===== *)
(** * Messages move gas and money as specified

    How each step of [state_transition.go] moves the gas counters, the gas
    pool of the block and the balances, and that applying a message always
    returns. *)

From stdpp Require Import base tactics list numbers gmap.
From S2P Require Import Prelude GoMath EvmParams EvmMachine EvmInstr EvmInterp EvmLaws.
From S2P Require Import EvmTermination EvmSafety EvmSafetyRun EvmArith State StateFacts StateLaws.
From S2P Require Import Transition.

#[local] Open Scope Z_scope.

Section moves.
Context {senv : state.StateEnv} {slaws : StateEnvLaws}.

(** ** Balances *)

(** Amount [v] at address [a]. *)
Definition at_addr (a : Address) (v : Z) (b : Address) : Z := if decide (b = a) then v else 0.

(** From [db] to [db'] only balances moved, by [delta]. *)
Record moved (delta : Address → Z) (db db' : state.StateDB) : Prop := {
  mv_valid : db_valid db';
  mv_balance b : balance_at b db' = balance_at b db + delta b;
  mv_nonce b : nonce_at b db' = nonce_at b db;
  mv_code b : code_at b db' = code_at b db;
  mv_storage b k : storage_at b k db' = storage_at b k db }.

Lemma moved_trans d1 d2 db db1 db2 : moved d1 db db1 → moved d2 db1 db2 → moved (λ b, d1 b + d2 b) db db2.
Proof.
  intros [? Hb Hn Hc Hs] [? Hb' Hn' Hc' Hs']. split; intros; [done|rewrite Hb', Hb; lia|congruence..].
Qed.
Lemma moved_ext d1 d2 db db' : (∀ b, d1 b = d2 b) → moved d1 db db' → moved d2 db db'.
Proof. intros He [? Hb ? ? ?]. split; try done. intros b. by rewrite Hb, He. Qed.
Lemma moved_content db db' : db_valid db' → content_eq db' db → moved (λ _, 0) db db'.
Proof. intros Hv [Hb Hn Hc Hs _ _ _]. split; try done. intros b. rewrite Hb. lia. Qed.

Lemma updates_moved a v db db' : db_valid db →
  updates a (state.upd_Balance (state.data_Balance (object_at a db) + v) (object_at a db)) db db' →
  moved (at_addr a v) db db' ∧ state.refund db' = state.refund db.
Proof.
  intros Hv Hu. destruct (object_at_content a db) as (Ob & On & Oc & Ost & _).
  assert (Hat : ∀ A (f : state.stateObject → A) d b, (∀ o1 o2, obj_equiv o1 o2 → f o1 = f o2) →
    f (state.upd_Balance (state.data_Balance (object_at a db) + v) (object_at a db)) = from_option f d (lookup_obj a db) →
    from_option f d (lookup_obj b db') = from_option f d (lookup_obj b db)).
  { intros A f d b Hf Ha. destruct (decide (b = a)) as [->|Hne].
    - pose proof (up_object _ _ _ _ Hu) as Ho. inversion Ho as [? ? He El|]; subst. simpl. by rewrite <- Ha, (Hf _ _ He).
    - destruct (up_others _ _ _ _ Hu b Hne); simpl; auto. }
  split; [|apply Hu]. split.
  - eapply undoable_valid; [done|apply Hu].
  - intros b. rewrite (updates_balance _ _ _ _ b Hu). unfold at_addr. case_decide; subst; simpl; lia.
  - intros b. apply Hat; [by intros ? ? []|done].
  - intros b. apply Hat; [by intros ? ? []|]. fold (code_at a db). rewrite <- Oc. by rewrite !code_val_eq.
  - intros b k. apply Hat; [by intros ? ? []|]. fold (storage_at a k db). rewrite <- Ost.
    by rewrite !storage_val_eq, !eff_trie_eq.
Qed.

Lemma AddBalance_moved a v db : db_valid db → 0 ≤ v →
  moved (at_addr a v) db (AddBalance a v db) ∧ state.refund (AddBalance a v db) = state.refund db.
Proof.
  intros Hv Hv0. apply updates_moved; [done|]. apply AddBalance_updates; [apply Hv|].
  pose proof (object_at_balance a db (dv_objs _ Hv)). lia.
Qed.
Lemma SubBalance_moved a v db : db_valid db → v ≤ balance_at a db →
  moved (at_addr a (- v)) db (SubBalance a v db) ∧ state.refund (SubBalance a v db) = state.refund db.
Proof.
  intros Hv Hle. apply updates_moved; [done|]. rewrite Z.add_opp_r. apply SubBalance_updates; [apply Hv|].
  by destruct (object_at_content a db) as [-> _].
Qed.

(** A getter leaves the contents alone. *)
Lemma read_content db db' : db_valid db → pure_read db db' → db_valid db' ∧ content_eq db' db.
Proof. intros Hv [He Hu]. split; [by eapply undoable_valid|by apply equiv_content_eq]. Qed.

(** ** The parts of a transition *)

Section parts.
Context (CreateAddress : Address → Z → Address) (precompiles : Address → option PrecompiledContract) (j : Job).
#[local] Abbreviation msg := (job_msg j).

(** [from] and [to]: the account exists afterwards, with the same contents. *)
Definition ensure (a : Address) : M StateTransition tx_error Address :=
  e ← T_read (Exist a);
  (if negb e then T_write (CreateAccount a) else mret tt);; mret a.

Lemma ensure_spec a s : db_valid (st_state s) → ∃ db',
  ensure a s = (set_state db' s, Val a) ∧ db_valid db' ∧ content_eq db' (st_state s).
Proof.
  intros Hv. unfold ensure, T_read, T_write, mbind, M_bind. cbn [Exist journaled_StateDB].
  destruct (Exist_eq a (st_state s) (dv_objs _ Hv)) as [Hr Hex].
  destruct (read_content _ _ Hv Hr) as [Hv' Hc]. 
  destruct (state.Exist a (st_state s)) as [db' ex]. simpl in *. destruct ex; simpl; [by exists db'|].
  exists (state.CreateAccount a db'). split_and!; [done|..].
  - eapply undoable_valid; [done|]. apply CreateAccount_updates, Hv'.
  - destruct content_equivalence. etrans; [|exact Hc]. apply CreateAccount_new; [apply Hv'|].
    destruct (lookup_obj a (st_state s)) eqn:E; [by discriminate (proj2 Hex (ex_intro _ _ eq_refl))|].
    pose proof (se_objects _ _ (pr_equiv _ _ Hr) a) as Ho. rewrite E in Ho. by inversion Ho.
Qed.

Lemma from_ensure : from j = ensure (msg_from msg).
Proof. done. Qed.
Lemma to_ensure a : msg_to msg = Some a → to j = ensure a.
Proof. unfold to. by intros ->. Qed.

(** The bookkeeping of gas: bought, at most that much left, and a counter
    that is not negative. *)
Record gas_ok (s : StateTransition) : Prop := {
  go_db : db_valid (st_state s);
  go_gas : 0 ≤ st_gas s ≤ st_initialGas s;
  go_u64 : st_initialGas s < 2 ^ 64 }.


Lemma T_read_val {A} (f : state.StateDB → state.StateDB * A) s :
  T_read f s = (set_state (f (st_state s)).1 s, Val (f (st_state s)).2).
Proof. unfold T_read. by destruct (f (st_state s)). Qed.

(** Gas that comes back on top of what is left. *)
Definition refund_of (s : StateTransition) : Z :=
  Z.min ((st_initialGas s - st_gas s) / 2) (state.refund (st_state s)).

Lemma big_Div_2 x : big_Div x 2 = x / 2.
Proof. unfold big_Div. change (Z.abs 2) with 2. change (Z.sgn 2) with 1. lia. Qed.

Lemma set_refund_moved x db : db_valid db → 0 ≤ x → moved (λ _, 0) db (state.set_refund x db).
Proof.
  intros [? (? & ? & _) ? ? ?] Hx. split; intros; try done. by rewrite Z.add_0_r.
Qed.

Ltac t_step :=
  erewrite bind_val by first [reflexivity | apply T_read_val];
  cbn [st_gp st_gas st_initialGas st_state set_gp set_gas set_initialGas set_state GetRefund journaled_StateDB].

(** The refund pays the sender for what is left and what is refunded, and
    returns both to the pool. *)
Lemma refundGas_spec s : gas_ok s → 0 ≤ msg_price msg → ∃ db',
  let g := st_gas s + refund_of s in
  refundGas j s = (mkST (st_gp s + g) g (st_initialGas s) db', Val tt) ∧
  st_gas s ≤ g ≤ st_initialGas s ∧
  moved (at_addr (msg_from msg) (g * msg_price msg)) (st_state s) db'.
Proof.
  destruct s as [gp g ig db]. unfold refund_of. intros [Hv Hg Hu] Hp. simpl in *. unfold refundGas. rewrite from_ensure.
  destruct (ensure_spec (msg_from msg) (mkST gp g ig db) Hv) as (db1 & He & Hv1 & Hc1).
  rewrite (bind_val _ _ _ _ _ He). simpl in Hc1.
  destruct (AddBalance_moved (msg_from msg) (g * msg_price msg) db1 Hv1 ltac:(nia)) as [Hm2 Hr2].
  repeat t_step. unfold state.GetRefund. rewrite !Hr2, !(ce_refund _ _ Hc1), !BigMin_spec, !big_Div_2.
  set (r := Z.min ((ig - g) / 2) (state.refund db)).
  assert (Hr : 0 ≤ r ∧ g + r ≤ ig).
  { destruct (dv_logs _ Hv) as (_ & _ & Hpos). pose proof (Z.div_mod (ig - g) 2). pose proof (Z.mod_pos_bound (ig - g) 2). lia. }
  rewrite (big_Uint64_small r), (u64_small (g + r)) by (unfold is_u64; lia).
  assert (Hfin : ∃ db3, (if big_Cmp ((ig - g) / 2) (state.refund db) >? 0 then T_write (state.set_refund (r * msg_price msg)) else mret tt)
    (mkST gp (g + r) ig (AddBalance (msg_from msg) (g * msg_price msg) db1)) = (mkST gp (g + r) ig db3, Val tt) ∧
    moved (λ _, 0) (AddBalance (msg_from msg) (g * msg_price msg) db1) db3).
  { case_match; eexists; (split; [done|]); [apply set_refund_moved; [apply Hm2|nia]|].
    apply moved_content; [apply Hm2|]. destruct content_equivalence. done. }
  destruct Hfin as (db3 & Hif & Hm3). erewrite bind_val by exact Hif.
  destruct (AddBalance_moved (msg_from msg) (r * msg_price msg) db3 (mv_valid _ _ _ Hm3) ltac:(nia)) as [Hm4 _].
  repeat t_step. eexists. split_and!; [done|lia..|].
  eapply moved_ext; [|eapply moved_trans; [by apply moved_content|]; eapply moved_trans; [exact Hm2|]; eapply moved_trans; [exact Hm3|exact Hm4]].
  intros b. unfold at_addr. simpl. case_decide; lia.
Qed.

(** ** Buying gas *)

Definition affordable (s : StateTransition) : Prop :=
  msg_gasLimit msg < 2 ^ 64 ∧ msg_gasLimit msg * msg_price msg ≤ balance_at (msg_from msg) (st_state s) ∧
  msg_gasLimit msg ≤ st_gp s.
Definition right_nonce (s : StateTransition) : Prop :=
  msg_checkNonce msg = true → nonce_at (msg_from msg) (st_state s) = msg_nonce msg.

(** The gas limit is taken from the pool and paid by the sender. *)
Record bought (s s' : StateTransition) : Prop := {
  bt_gp : st_gp s' = st_gp s - msg_gasLimit msg;
  bt_gas : st_gas s' = msg_gasLimit msg;
  bt_initial : st_initialGas s' = msg_gasLimit msg;
  bt_moved : moved (at_addr (msg_from msg) (- (msg_gasLimit msg * msg_price msg))) (st_state s) (st_state s');
  bt_refund : state.refund (st_state s') = state.refund (st_state s) }.

(** A step that only reads, or creates the account it names. *)
Definition tame (s s' : StateTransition) : Prop :=
  ∃ db', s' = set_state db' s ∧ db_valid db' ∧ content_eq db' (st_state s).

Lemma tame_trans s s1 s2 : tame s s1 → tame s1 s2 → tame s s2.
Proof.
  intros (db1 & -> & _ & H1) (db2 & -> & H & H2). exists db2. split_and!; [done..|].
  destruct content_equivalence. by etrans.
Qed.
Lemma tame_read {A} (f : state.StateDB → state.StateDB * A) s :
  db_valid (st_state s) → pure_read (st_state s) (f (st_state s)).1 → tame s (set_state (f (st_state s)).1 s).
Proof. intros Hv Hr. eexists. split; [done|]. by apply read_content. Qed.
Lemma tame_bought s s1 s2 : tame s s1 → bought s1 s2 → bought s s2.
Proof.
  intros (db1 & -> & Hv1 & Hc) [? ? ? Hm ?]. split; try done; [|simpl in *; rewrite <- (ce_refund _ _ Hc); done].
  eapply moved_ext; [|eapply moved_trans; [by apply moved_content|exact Hm]]. intros b. simpl. lia.
Qed.
Lemma tame_valid s s' : tame s s' → db_valid (st_state s').
Proof. by intros (db & -> & ? & _). Qed.

(** What buying gas does, and when it succeeds. *)
Definition buys (s : StateTransition) (cond : Prop) (r : StateTransition * outcome tx_error unit) : Prop :=
  match r.2 with
  | Val _ => cond ∧ bought s r.1
  | Err _ => ¬ cond ∧ tame s r.1
  | _ => False
  end.

Lemma SubGas_eq amount g : SubGas amount g = if g <? amount then None else Some (g - amount).
Proof. unfold SubGas. by rewrite big_Cmp_ltb. Qed.

Lemma buyGas_buys s : db_valid (st_state s) → st_gas s = 0 → 0 ≤ msg_price msg → 0 ≤ msg_gasLimit msg →
  buys s (affordable s) (buyGas j s).
Proof.
  intros Hv Hg Hp Hl. unfold buyGas, affordable, buys. rewrite from_ensure.
  destruct (BitLen (msg_gasLimit msg) >? 64) eqn:E64; zbool.
  { split; [|exists (st_state s); destruct s; split_and!; [done..|by destruct content_equivalence]].
    intros [Hlt _]. assert (BitLen (msg_gasLimit msg) ≤ 64) by (apply BitLen_le; lia). lia. }
  apply BitLen_le in E64; [|lia]. destruct (ensure_spec (msg_from msg) s Hv) as (db1 & He & Hv1 & Hc1).
  erewrite bind_val by exact He. assert (Ht1 : tame s (set_state db1 s)) by by exists db1.
  destruct (GetBalance_eq (msg_from msg) db1 (dv_objs _ Hv1)) as [Hr2 Hb].
  pose proof (tame_read (state.GetBalance (msg_from msg)) (set_state db1 s) Hv1 Hr2) as Ht2.
  apply (tame_trans _ _ _ Ht1) in Ht2. simpl in Ht2.
  t_step. cbn [GetBalance journaled_StateDB]. rewrite Hb, (ce_balance _ _ Hc1), big_Cmp_ltb.
  case_if; [split; [lia|done]|]. t_step. rewrite SubGas_eq. case_if; [split; [simpl in *; lia|done]|].
  repeat t_step. simpl. rewrite Hg, Z.add_0_l, big_Uint64_small, u64_small by (unfold is_u64; lia).
  split; [simpl in *; lia|]. destruct Ht2 as (db2 & Heq & Hv2 & Hc2).
  assert (Hdb2 : (state.GetBalance (msg_from msg) db1).1 = db2) by (by injection Heq). rewrite Hdb2.
  destruct (SubBalance_moved (msg_from msg) (msg_gasLimit msg * msg_price msg) db2 Hv2) as [Hm Hr];
    [by rewrite (ce_balance _ _ Hc2)|].
  split; try done; simpl; [|by rewrite <- (ce_refund _ _ Hc2)].
  eapply moved_ext; [|eapply moved_trans; [by apply moved_content|exact Hm]]. intros b. simpl. lia.
Qed.

Lemma preCheck_buys s : db_valid (st_state s) → st_gas s = 0 → 0 ≤ msg_price msg → 0 ≤ msg_gasLimit msg →
  buys s (affordable s ∧ right_nonce s) (preCheck j s).
Proof.
  intros Hv Hg Hp Hl. unfold preCheck. rewrite from_ensure.
  destruct (ensure_spec (msg_from msg) s Hv) as (db1 & He & Hv1 & Hc1).
  erewrite bind_val by exact He. assert (Ht1 : tame s (set_state db1 s)) by by exists db1.
  destruct (GetNonce_eq (msg_from msg) db1 (dv_objs _ Hv1)) as [Hr2 Hn].
  pose proof (tame_read (state.GetNonce (msg_from msg)) (set_state db1 s) Hv1 Hr2) as Ht2.
  apply (tame_trans _ _ _ Ht1) in Ht2. simpl in Ht2. 
  assert (Hbuy : ∀ s1, tame s s1 → right_nonce s → buys s (affordable s ∧ right_nonce s) (buyGas j s1)).
  { intros s1 Ht Hrn. pose proof (buyGas_buys s1 (tame_valid _ _ Ht)) as Hb.
    destruct (Ht) as (db & Heq & Hvd & Hcd). rewrite Heq in Hb at 1. specialize (Hb Hg Hp Hl).
    assert (Haff : affordable s1 ↔ affordable s) by (unfold affordable; rewrite Heq; simpl; by rewrite (ce_balance _ _ Hcd)).
    unfold buys in *. destruct (buyGas j s1) as [s2 [?| | |]]; simpl in *; try done.
    - destruct Hb. split; [tauto|]. by eapply tame_bought.
    - destruct Hb. split; [tauto|]. by eapply tame_trans. }
  unfold right_nonce in *. destruct (msg_checkNonce msg); [|by apply Hbuy].
  t_step. cbn [GetNonce journaled_StateDB]. rewrite Hn, (ce_nonce _ _ Hc1).
  case_if; [split; [intros [_ Hx]; specialize (Hx eq_refl); lia|done]|].
  case_if; [split; [intros [_ Hx]; specialize (Hx eq_refl); lia|done]|]. apply Hbuy; [done|]. intros _. lia.
Qed.

(** ** A native transfer *)

Lemma tame_refund s s' : tame s s' → refund_of s' = refund_of s ∧ st_gp s' = st_gp s ∧
  st_gas s' = st_gas s ∧ st_initialGas s' = st_initialGas s.
Proof. intros (db & -> & _ & Hc). unfold refund_of. simpl. by rewrite (ce_refund _ _ Hc). Qed.
Lemma tame_moved s s' : tame s s' → moved (λ _, 0) (st_state s) (st_state s').
Proof. intros (db & -> & Hv & Hc). by apply moved_content. Qed.
Lemma tame_gas_ok s s' : gas_ok s → tame s s' → gas_ok s'.
Proof. intros [] (db & -> & ? & ?). by split. Qed.

Lemma ensure_tame a s : db_valid (st_state s) → ∃ s', ensure a s = (s', Val a) ∧ tame s s'.
Proof.
  intros Hv. destruct (ensure_spec a s Hv) as (db & He & ? & ?). eexists. split; [done|]. by exists db.
Qed.

Lemma ensure_bind {B} a (k : M StateTransition tx_error B) s s' : ensure a s = (s', Val a) →
  (e ← T_read (Exist a); (if negb e then T_write (CreateAccount a) else mret tt);; k) s = k s'.
Proof.
  unfold ensure, mbind, M_bind. destruct (T_read (Exist a) s) as [s1 [e| | |]]; try done.
  destruct (_ s1) as [s2 [[]| | |]]; try done. by intros [= ->].
Qed.

(** The common end: refund, then pay for the gas used. *)
Lemma refund_and_pay {B} benef (k : Z → M StateTransition tx_error B) s : gas_ok s → 0 ≤ msg_price msg → ∃ db',
  let g := st_gas s + refund_of s in let used := st_initialGas s - g in
  (refundGas j;; used ← gasUsed; T_write (AddBalance benef (used * msg_price msg));; used ← gasUsed; k used) s =
    k used (mkST (st_gp s + g) g (st_initialGas s) db') ∧
  st_gas s ≤ g ≤ st_initialGas s ∧
  moved (λ b, at_addr (msg_from msg) (g * msg_price msg) b + at_addr benef (used * msg_price msg) b) (st_state s) db'.
Proof.
  intros Hok Hp. destruct (refundGas_spec s Hok Hp) as (db1 & Hr & Hg & Hm). simpl in *.
  rewrite (bind_val _ _ _ _ _ Hr). repeat t_step.
  set (g := st_gas s + refund_of s) in *.
  destruct (AddBalance_moved benef ((st_initialGas s - g) * msg_price msg) db1 (mv_valid _ _ _ Hm) ltac:(nia)) as [Hm2 _].
  eexists. split_and!; [done|apply Hg..|]. by eapply moved_trans.
Qed.

(** The moves of money of a message that is a plain transfer. *)
Definition native_moves (g used : Z) (b : Address) : Z :=
  at_addr (msg_from msg) (g * msg_price msg - msg_amount msg) b +
  at_addr (default 0 (msg_to msg)) (msg_amount msg) b +
  at_addr (beneficiary (job_header j) (job_chain j) (job_author j)) (used * msg_price msg) b.

Lemma native_Transfer_moved f t v db : db_valid db → 0 ≤ v ≤ balance_at f db →
  moved (λ b, at_addr f (- v) b + at_addr t v b) db (native_Transfer f t v db) ∧
  state.refund (native_Transfer f t v db) = state.refund db.
Proof.
  intros Hv Hle. destruct (SubBalance_moved f v db Hv ltac:(lia)) as [H1 Hr1].
  destruct (AddBalance_moved t v _ (mv_valid _ _ _ H1) ltac:(lia)) as [H2 Hr2].
  split; [by eapply moved_trans|]. unfold native_Transfer. simpl in *. congruence.
Qed.

Lemma TransitionOnNative_spec s t : gas_ok s → msg_to msg = Some t → 0 ≤ msg_price msg → 0 ≤ msg_amount msg →
  let g := st_gas s + refund_of s in let used := st_initialGas s - g in
  (msg_amount msg ≤ balance_at (msg_from msg) (st_state s) → ∃ db',
     TransitionOnNative j s = (mkST (st_gp s + g) g (st_initialGas s) db', Val ([], used, false)) ∧
     st_gas s ≤ g ≤ st_initialGas s ∧ moved (native_moves g used) (st_state s) db') ∧
  (balance_at (msg_from msg) (st_state s) < msg_amount msg → ∃ s',
     TransitionOnNative j s = (s', Err bc_ErrInsufficientBalance) ∧ tame s s').
Proof.
  intros Hok Hto Hp Ha g used. unfold TransitionOnNative. rewrite (to_ensure t Hto).
  destruct (ensure_tame t s (go_db _ Hok)) as (s1 & He1 & Ht1). rewrite (bind_val _ _ _ _ _ He1).
  pose proof (tame_valid _ _ Ht1) as Hv1.
  destruct (GetBalance_eq (msg_from msg) (st_state s1) (dv_objs _ Hv1)) as [Hr2 Hb].
  pose proof (tame_read (state.GetBalance (msg_from msg)) s1 Hv1 Hr2) as Ht2. apply (tame_trans _ _ _ Ht1) in Ht2.
  assert (Hcan : T_read (native_CanTransfer (msg_from msg) (msg_amount msg)) s1 =
    (set_state (state.GetBalance (msg_from msg) (st_state s1)).1 s1,
     Val (msg_amount msg <=? balance_at (msg_from msg) (st_state s)))).
  { unfold T_read, native_CanTransfer. cbn [GetBalance journaled_StateDB].
    rewrite <- (ce_balance (st_state s1) (st_state s)) by (by destruct Ht1 as (? & -> & _ & ?)). rewrite <- Hb.
    destruct (state.GetBalance _ _) as [db2 b]. simpl. do 2 f_equal.
    unfold big_Cmp. destruct (Z.compare_spec b (msg_amount msg)); simpl; lia. }
  rewrite !(bind_val _ _ _ _ _ Hcan). split; intros Hbal.
  2: { rewrite (proj2 (Z.leb_gt _ _)) by done. by eexists. }
  rewrite (proj2 (Z.leb_le _ _)) by done. cbn [negb]. set (s2 := set_state _ s1) in *.
  destruct (ensure_tame t s2 (tame_valid _ _ Ht2)) as (s3 & He3 & Ht3). rewrite (bind_val _ _ _ _ _ He3).
  apply (tame_trans _ _ _ Ht2) in Ht3.
  destruct (ensure_tame t s3 (tame_valid _ _ Ht3)) as (s4 & He4 & Ht4). rewrite (ensure_bind _ _ _ _ He4).
  apply (tame_trans _ _ _ Ht3) in Ht4. pose proof (tame_moved _ _ Ht4) as Hm4.
  destruct (native_Transfer_moved (msg_from msg) t (msg_amount msg) (st_state s4) (tame_valid _ _ Ht4)) as [Hm5 Hr5].
  { rewrite (mv_balance _ _ _ Hm4). lia. }
  t_step. set (s5 := set_state _ s4). destruct (tame_refund _ _ Ht4) as (Hr4 & Hgp4 & Hg4 & Hi4).
  assert (Hok5 : gas_ok s5) by (destruct (tame_gas_ok _ _ Hok Ht4); split; [apply Hm5|done..]).
  assert (Hr : refund_of s5 = refund_of s) by (rewrite <- Hr4; unfold refund_of, s5; cbn [st_state st_initialGas st_gas set_state]; by rewrite Hr5).
  destruct (refund_and_pay (beneficiary (job_header j) (job_chain j) (job_author j)) (λ u, mret ([] : list byte, u, false)) s5 Hok5 Hp)
    as (db' & Hrun & Hg & Hm6). simpl in Hrun, Hg, Hm6. exists db'. rewrite Hr, Hgp4, Hg4, Hi4 in *. split_and!; try lia.
  - exact Hrun.
  - eapply moved_ext; [|eapply moved_trans; [exact Hm4|]; eapply moved_trans; [exact Hm5|exact Hm6]].
    intros b. unfold native_moves, at_addr. rewrite Hto. simpl. fold g used. repeat case_decide; lia.
Qed.

(** ** A message on the EVM *)

Abbreviation jenv := (job_Env CreateAddress precompiles j).

(** What the message and its surroundings look like. *)
Record msg_ok : Prop := {
  mo_from : 0 ≤ msg_from msg;
  mo_to a : msg_to msg = Some a → 0 ≤ a;
  mo_price : 0 ≤ msg_price msg;
  mo_amount : 0 ≤ msg_amount msg;
  mo_gas : 0 ≤ msg_gasLimit msg;
  mo_data : Zlen (msg_data msg) < 2 ^ 63 }.

(** The transition after code ran: at most the gas left, everything else of
    the bookkeeping as before. *)
Record ran (s s' : StateTransition) (r : CallRes) : Prop := {
  rn_db : db_valid (st_state s');
  rn_back : 0 ≤ cr_gas r ≤ st_gas s;
  rn_gp : st_gp s' = st_gp s;
  rn_initial : st_initialGas s' = st_initialGas s }.

Lemma on_evm_ran {A} (m : M (EVM state.StateDB) evm_error A) s r e' :
  m (NewEVM (st_state s)) = (e', Val r) → on_evm m s = (set_state (stateDB e') s, Val r).
Proof. unfold on_evm. by intros ->. Qed.

Lemma run_message_ran s : env_ok jenv → metered jenv → msg_ok → gas_ok s →
  ∃ s' r, run_message CreateAddress precompiles j (msg_from msg) s = (s', Val r) ∧ ran s s' r.
Proof.
  intros Henv Hm [Hfrom Hto _ Hamount _ Hdata] [Hv Hg Hu]. unfold run_message. destruct (msg_to msg) as [a|] eqn:Eto.
  - destruct (GetNonce_eq (msg_from msg) (st_state s) (dv_objs _ Hv)) as [Hr1 _].
    destruct (read_content _ _ Hv Hr1) as [Hv1 _]. do 2 t_step.
    set (s2 := set_state _ _). assert (Hv2 : db_valid (st_state s2)).
    { unfold s2. simpl. eapply undoable_valid; [exact Hv1|]. apply SetNonce_updates; [apply Hv1|apply u64_range]. }
    rewrite (to_ensure a Eto). destruct (ensure_spec a s2 Hv2) as (db3 & He & Hv3 & _).
    rewrite (bind_val _ _ _ _ _ He). t_step.
    destruct (call_total jenv Henv Hm (AccountRef (msg_from msg)) a (msg_data msg) (st_gas s2) (msg_amount msg) (NewEVM db3))
      as (r & e' & Hr & [Hev _] & [_ Hback]); try done; try (by apply Hto).
    + unfold is_u64, s2. simpl. lia.
    + exists (set_state (stateDB e') (set_state db3 s2)), r. split; [by apply on_evm_ran|].
      split; [apply Hev|done..].
  - t_step. destruct (create_total jenv Henv Hm (AccountRef (msg_from msg)) (msg_data msg) (st_gas s) (msg_amount msg) (NewEVM (st_state s)))
      as ([a r] & e' & Hr & (Hev & _) & [_ Hback]); try done; try (by apply Hto).
    + unfold is_u64. lia.
    + exists (set_state (stateDB e') s), r. rewrite (bind_val _ _ _ _ _ (on_evm_ran _ _ _ _ Hr)).
      split; [done|]. split; [apply Hev|done..].
Qed.

(** What a finished message leaves behind. *)
Definition finished (s : StateTransition) (out : StateTransition * outcome tx_error (list byte * Z * bool)) : Prop :=
  db_valid (st_state out.1) ∧
  match out.2 with
  | Val (_, used, _) => st_gp out.1 = st_gp s + (st_initialGas s - used) ∧
      st_initialGas s - st_gas s - (st_initialGas s - st_gas s) / 2 ≤ used ≤ st_initialGas s
  | Err _ => st_gp out.1 = st_gp s
  | _ => False
  end.

Lemma half_up_mono x y : 0 ≤ x ≤ y → x - x / 2 ≤ y - y / 2.
Proof.
  intros. pose proof (Z.div_mod x 2). pose proof (Z.div_mod y 2).
  pose proof (Z.mod_pos_bound x 2). pose proof (Z.mod_pos_bound y 2). lia.
Qed.
Lemma refund_of_half s : refund_of s ≤ (st_initialGas s - st_gas s) / 2.
Proof. unfold refund_of. lia. Qed.

Lemma TransitionOnEVM_finished s : env_ok jenv → metered jenv → msg_ok → gas_ok s →
  finished s (TransitionOnEVM CreateAddress precompiles j s).
Proof.
  intros Henv Hm Hmsg Hok. unfold TransitionOnEVM. rewrite from_ensure.
  destruct (ensure_tame (msg_from msg) s (go_db _ Hok)) as (s1 & He & Ht1). rewrite (bind_val _ _ _ _ _ He).
  destruct (tame_refund _ _ Ht1) as (_ & Hgp1 & Hg1 & Hi1). pose proof (tame_gas_ok _ _ Hok Ht1) as Hok1.
  destruct (run_message_ran s1 Henv Hm Hmsg Hok1) as (s2 & r & Hrun & [Hv2 Hback Hgp2 Hi2]).
  rewrite (bind_val _ _ _ _ _ Hrun). t_step. set (s3 := set_gas _ s2). unfold finished.
  case_bool_decide; [split; [done|]; simpl; congruence|].
  assert (Hok3 : gas_ok s3).
  { destruct Hok1. split; unfold s3; simpl; [done|rewrite ?Hi2; lia..]. }
  destruct (refund_and_pay (Coinbase (ctx jenv)) (λ u, mret (cr_ret r, u, bool_decide (cr_err r ≠ None))) s3 Hok3
    (mo_price Hmsg)) as (db' & -> & Hg3 & Hmv). simpl.
  split; [apply Hmv|]. simpl in *. pose proof (refund_of_half s3) as Hhalf. unfold s3 in Hhalf at 2 3. simpl in Hhalf.
  rewrite Hgp2, Hgp1, Hi2, Hi1 in *. split; [lia|]. split; [|lia]. destruct Hok as [_ [? ?] _].
  pose proof (half_up_mono (st_initialGas s - st_gas s) (st_initialGas s - cr_gas r)). lia.
Qed.

Lemma TransitionOnNative_finished s t : msg_ok → msg_to msg = Some t → gas_ok s → finished s (TransitionOnNative j s).
Proof.
  intros Hmsg Hto Hok. destruct (TransitionOnNative_spec s t Hok Hto (mo_price Hmsg) (mo_amount Hmsg)) as [Hyes Hno].
  unfold finished. destruct (decide (msg_amount msg ≤ balance_at (msg_from msg) (st_state s))) as [Hle|Hgt].
  - destruct (Hyes Hle) as (db' & -> & Hg & Hm). simpl. split; [apply Hm|].
    pose proof (refund_of_half s). destruct Hok as [_ [? ?] _]. lia.
  - destruct (Hno ltac:(lia)) as (s' & -> & Ht). simpl. split; [by eapply tame_valid|]. apply (tame_refund _ _ Ht).
Qed.

(** ** The whole message *)

Lemma nonzero_bytes_range l : 0 ≤ nonzero_bytes l ≤ Zlen l.
Proof.
  unfold nonzero_bytes, Zlen. induction l as [|b l IH] using rev_ind; [done|].
  rewrite foldl_app, length_app. simpl. case_match; lia.
Qed.
Lemma IntrinsicGas_range data c : 0 ≤ IntrinsicGas data c ≤ 53000 + Zlen data.
Proof.
  unfold IntrinsicGas, TxGasContractCreation, TxGas, TxDataNonZeroGas, TxDataZeroGas.
  pose proof (nonzero_bytes_range data). pose proof (Zlen_nonneg data). destruct c; case_if; lia.
Qed.

(** The price of the message before anything runs. *)
Definition intrinsic : Z := IntrinsicGas (msg_data msg) (match msg_to msg with None => true | Some _ => false end).

Lemma intrinsic_nonneg : 0 ≤ intrinsic.
Proof. apply IntrinsicGas_range. Qed.

(** Starting point of the body: gas bought and the intrinsic gas taken. *)
Definition charged_st (s : StateTransition) : StateTransition := set_gas (st_gas s - intrinsic) s.

Lemma useGas_eq amount s : useGas amount s =
  if st_gas s <? amount then (s, Err (tx_vm_error ErrOutOfGas))
  else (set_gas (u64 (st_gas s - amount)) s, Val tt).
Proof. unfold useGas, mbind, M_bind, gets. simpl. by case_match. Qed.

Lemma body_after_check native s : msg_ok → db_valid (st_state s) → st_gas s = 0 →
  let out := ApplyMessage_body CreateAddress precompiles j native s in
  (∃ s1, affordable s ∧ right_nonce s ∧ intrinsic ≤ msg_gasLimit msg ∧ bought s s1 ∧
     out = (if native then TransitionOnNative j else TransitionOnEVM CreateAddress precompiles j) (charged_st s1)) ∨
  (∃ s1 e, out = (s1, Err e) ∧ db_valid (st_state s1) ∧
     ¬ (affordable s ∧ right_nonce s ∧ intrinsic ≤ msg_gasLimit msg) ∧
     (st_gp s1 = st_gp s ∨ st_gp s1 = st_gp s - msg_gasLimit msg)).
Proof.
  intros Hmsg Hv Hg out. unfold out, ApplyMessage_body. fold intrinsic.
  pose proof (preCheck_buys s Hv Hg (mo_price Hmsg) (mo_gas Hmsg)) as Hb. unfold buys in Hb.
  destruct (preCheck j s) as [s1 [[]|e| |]] eqn:Epre; try done; simpl in Hb.
  2: { destruct Hb as [Hno Ht]. right. exists s1, e. rewrite (bind_err _ _ _ _ _ Epre).
       split_and!; [done|by eapply tame_valid|tauto|left; apply (tame_refund _ _ Ht)]. }
  destruct Hb as [[Haff Hnonce] Hbt]. rewrite (bind_val _ _ _ _ _ Epre).
  pose proof (IntrinsicGas_range (msg_data msg) (match msg_to msg with None => true | Some _ => false end)) as Hi. fold intrinsic in Hi.
  destruct Hmsg as [_ _ _ _ Hl0 Hlen]. rewrite Z.gtb_ltb, (proj2 (Z.ltb_ge 64 _)) by (apply BitLen_le; lia).
  rewrite big_Uint64_small by (unfold is_u64; lia).
  destruct Hbt as [Hgp Hgas Hini Hmv Href]. destruct Haff as (Hl & Hb1 & Hb2).
  pose proof (useGas_eq intrinsic s1) as Huse. rewrite Hgas in Huse.
  destruct (Z.ltb_spec (msg_gasLimit msg) intrinsic).
  - right. exists s1, (tx_vm_error ErrOutOfGas). rewrite (bind_err _ _ _ _ _ Huse).
    split_and!; [done|apply Hmv|lia|by right].
  - left. exists s1. rewrite (bind_val _ _ _ _ _ Huse). split_and!; try done.
    rewrite u64_small by (unfold is_u64; lia). unfold charged_st. rewrite Hgas. by destruct native.
Qed.

(** The transition a message starts in, once it is known to be a plain
    transfer or not. *)
Lemma ApplyMessage_start db gp : db_valid db → ∃ db1 native,
  db_valid db1 ∧ content_eq db1 db ∧
  native = (match msg_to msg with None => false | Some _ => Zlen (code_at (msg_from msg) db) =? 0 end) ∧
  ApplyMessage CreateAddress precompiles j db gp =
    (let '(s, r) := ApplyMessage_body CreateAddress precompiles j native (mkST gp 0 0 db1) in
     (st_state s, st_gp s, r)).
Proof.
  intros Hv. unfold ApplyMessage, NewStateTransition_native. destruct (msg_to msg) as [t|].
  - destruct (GetCodeSize_eq (msg_from msg) db (dv_objs _ Hv)) as [Hr Hn].
    destruct (read_content _ _ Hv Hr) as [Hv1 Hc1].
    exists (state.GetCodeSize (msg_from msg) db).1, (Zlen (code_at (msg_from msg) db) =? 0). split_and!; try done.
    rewrite <- Hn. unfold mbind, M_bind, T_read. cbn [GetCodeSize journaled_StateDB st_state].
    by destruct (state.GetCodeSize (msg_from msg) db).
  - exists db, false. split_and!; try done.
Qed.
End parts.
End moves.
