(* ===== verification/Concrete.v ===== *)
(** * A concrete environment

    Executable stand-ins for what the program takes from elsewhere (trie,
    code store, hash, encodings), which satisfy the laws the theorems assume,
    and a state with a few accounts.  The witnesses of the theorems evaluate
    in it. *)

From stdpp Require Import base tactics list numbers gmap.
From S2P Require Import Prelude GoMath EvmParams EvmMachine EvmAnalysis EvmInstr EvmInterp EvmLaws.
From S2P Require Import EvmTermination EvmSafety State StateFacts StateLaws.

#[local] Open Scope Z_scope.

(** An injective hash, keys of a map, and a fixed-width account encoding. *)
Definition ideal_hash (d : list byte) : Z := SetBytes (Byte.x01 :: d).
Definition flat_Account (a : state.Account) : list byte :=
  be_bytes 8 (state.Nonce a) ++ be_bytes 32 (default 0 (state.Balance a)) ++
  be_bytes 32 (state.Root a) ++ be_bytes 32 (default 0 (state.CodeHash a)).
Definition flat_Account_decode (enc : list byte) : option state.Account :=
  if Zlen enc =? 104 then
    Some (state.mkAccount (u64 (SetBytes (slice 0 8 enc))) (Some (SetBytes (slice 8 40 enc)))
            (SetBytes (slice 40 72 enc)) (Some (SetBytes (slice 72 104 enc))))
  else None.

#[global] Instance map_env : state.StateEnv := {|
  state.Trie := gmap Z (list byte);
  state.db_error := unit;
  state.OpenTrie root := if root =? 0 then inr ∅ else inl tt;
  state.OpenStorageTrie _ root := if root =? 0 then inr ∅ else inl tt;
  state.ZeroTrie := ∅;
  state.TryGet k t := (default [] (t !! ideal_hash k), None);
  state.TryUpdate k v t := (<[ideal_hash k := v]> t, None);
  state.TryDelete k t := (delete (ideal_hash k) t, None);
  state.Trie_Hash t := Z.of_nat (size t);
  state.ContractCode _ _ := ([], Some tt);
  state.ContractCodeSize _ _ := (0, Some tt);
  state.Keccak256Hash := ideal_hash;
  state.rlp_Account := flat_Account;
  state.rlp_Account_decode := flat_Account_decode;
  state.rlp_Split enc := (enc, None);
  state.rlp_bytes b := b |}.

#[global] Instance map_env_laws : StateEnvLaws.
Proof.
  split; try done; simpl.
  - by left.
  - unfold flat_Account_decode. intros enc acc. case_match; [|done]. intros [= <-]. simpl.
    split; [apply u64_range|apply SetBytes_range].
Qed.

Lemma ideal_hash_nonneg d : 0 ≤ ideal_hash d.
Proof. apply SetBytes_range. Qed.
Lemma ideal_hash_range d : 256 ^ Zlen d ≤ ideal_hash d < 2 * 256 ^ Zlen d.
Proof.
  unfold ideal_hash. change (Byte.x01 :: d) with ([Byte.x01] ++ d). rewrite SetBytes_app.
  change (SetBytes [Byte.x01]) with 1. pose proof (SetBytes_range d). lia.
Qed.
Lemma ideal_hash_inj d d' : ideal_hash d = ideal_hash d' → d = d'.
Proof.
  intros Hd. destruct (ideal_hash_range d), (ideal_hash_range d').
  assert (Hlen : ∀ x y, ideal_hash x = ideal_hash y → ¬ (Zlen x < Zlen y)).
  { intros x y Hxy Hlt. destruct (ideal_hash_range x) as [_ Hx], (ideal_hash_range y) as [Hy _].
    assert (256 ^ (Zlen x + 1) ≤ 256 ^ Zlen y) as Hp by (apply Z.pow_le_mono_r; lia).
    rewrite Z.pow_add_r in Hp by (unfold Zlen; lia). lia. }
  assert (Zlen d = Zlen d') as Hl by (pose proof (Hlen d d' Hd); pose proof (Hlen d' d (eq_sym Hd)); lia).
  unfold ideal_hash in Hd. change (Byte.x01 :: ?l) with ([Byte.x01] ++ l) in Hd. rewrite !SetBytes_app, Hl in Hd.
  rewrite <- (be_bytes_SetBytes d), <- (be_bytes_SetBytes d'). unfold Zlen in Hl. f_equal; lia.
Qed.

(** ** An EVM over it *)

Definition map_ctx : Context state.StateDB :=
  mkContext hvm_CanTransfer hvm_Transfer Z.abs 1 10 9 8000000 100 1500000000 1.
Definition map_Env : Env state.StateDB :=
  mkEnv map_ctx default_Config GasTableEIP158 ideal_hash (λ a n, ideal_hash (be_bytes 20 a ++ be_bytes 8 n)) (λ _, None).

Lemma map_Env_ok : env_ok map_Env.
Proof.
  split; try done; simpl.
  - exact (@journaled_laws map_env map_env_laws).
  - intros. apply Z.abs_nonneg.
  - intros. apply ideal_hash_nonneg.
  - apply ideal_hash_nonneg.
  - apply ideal_hash_inj.
Qed.
Lemma map_Env_metered : metered map_Env.
Proof. by split. Qed.

Definition db0 : state.StateDB :=
  state.mkStateDB ∅ ∅ ∅ None 0 0 0 0 ∅ 0 ∅ [] [] 0.
Lemma db0_valid : db_valid db0.
Proof.
  split; simpl.
  - by intros a o.
  - by split.
  - constructor.
  - done.
  - intros r Hr. by apply not_elem_of_nil in Hr.
Qed.

(** A sender with money and a contract that writes storage and reverts:
    PUSH1 5 PUSH1 0 SSTORE PUSH1 0 PUSH1 0 REVERT. *)
Definition revert_code : list byte := Zbyte <$> [0x60; 5; 0x60; 0; 0x55; 0x60; 0; 0x60; 0; 0xfd].
Definition world : state.StateDB :=
  state.SetCode 7 revert_code (state.AddBalance 1 1000000 db0).
Lemma world_valid : db_valid world.
Proof.
  apply (undoable_valid (state.AddBalance 1 1000000 db0)).
  - apply (undoable_valid db0); [apply db0_valid|]. apply AddBalance_updates; [apply db0_valid|]. by vm_compute.
  - apply SetCode_updates; [|by vm_compute]. eapply undoable_objs, AddBalance_updates; [apply db0_valid|]. by vm_compute.
Qed.

Definition world_evm : EVM state.StateDB := NewEVM world.
Lemma world_evm_ok : evm_ok map_Env world_evm.
Proof. split; [apply world_valid|]. by intros h m. Qed.
