(* ===== verification/GoHeap.v ===== *)
(** * Go's container/heap

    The binary heap of the standard library, which the transaction pool and the
    order of transactions for a block are built on: a slice in which no element
    is less than its parent at [(i - 1) / 2].  For an order [less] as
    [sort.Interface] requires it, the operations preserve the heap property
    and the elements, and [Pop] returns a least element. *)

From stdpp Require Import base tactics list numbers.
From S2P Require Import Prelude.

#[local] Open Scope nat_scope.

Section heap.
Context {A : Type} (less : A → A → bool).

Definition Swap (i j : nat) (h : list A) : list A :=
  match h !! i, h !! j with
  | Some x, Some y => <[i := y]> (<[j := x]> h)
  | _, _ => h
  end.
(** [h.Less(i, j)]; the indices are in range. *)
Definition Less (h : list A) (i j : nat) : bool :=
  match h !! i, h !! j with
  | Some x, Some y => less x y
  | _, _ => false
  end.

(** Each round halves [j]. *)
Fixpoint up_loop (fuel : nat) (h : list A) (j : nat) : list A :=
  match fuel with
  | O => h
  | S fuel =>
      let i := (j - 1) / 2 in
      if (i =? j) || negb (Less h j i) then h
      else up_loop fuel (Swap i j h) i
  end.
Definition up (h : list A) (j : nat) : list A := up_loop (S j) h j.

(** Each round at least doubles [i].  The result says whether it moved. *)
Fixpoint down_loop (fuel : nat) (h : list A) (i n : nat) : list A * nat :=
  match fuel with
  | O => (h, i)
  | S fuel =>
      let j1 := 2 * i + 1 in
      if n <=? j1 then (h, i)
      else
        let j2 := j1 + 1 in
        let j := if (j2 <? n) && Less h j2 j1 then j2 else j1 in
        if negb (Less h j i) then (h, i)
        else down_loop fuel (Swap i j h) j n
  end.
Definition down (h : list A) (i0 n : nat) : list A * bool :=
  let '(h, i) := down_loop (S n) h i0 n in (h, i0 <? i).

Fixpoint Init_loop (k : nat) (h : list A) : list A :=
  match k with
  | O => h
  | S k => Init_loop k (down h k (length h)).1
  end.
Definition Init (h : list A) : list A := Init_loop (length h / 2) h.
Definition Push (x : A) (h : list A) : list A := up (h ++ [x]) (length h).
(** [None]: the index -1 is out of range. *)
Definition Pop (h : list A) : option (A * list A) :=
  match length h with
  | O => None
  | S n =>
      let h := (down (Swap 0 n h) 0 n).1 in
      x ← h !! n; Some (x, take n h)
  end.
Definition Remove (i : nat) (h : list A) : option (A * list A) :=
  match length h with
  | O => None
  | S n =>
      let h :=
        if n =? i then h
        else let '(h, moved) := down (Swap i n h) i n in if moved then h else up h i in
      x ← h !! n; Some (x, take n h)
  end.
Definition Fix (h : list A) (i : nat) : list A :=
  let '(h', moved) := down h i (length h) in if moved then h' else up h' i.
End heap.

(** ** The heap keeps its order *)

(** A strict weak order. *)
Class HeapOrder {A} (less : A → A → bool) : Prop := {
  less_asym x y : less x y = true → less y x = false;
  less_trans x y z : less x y = false → less y z = false → less x z = false }.

Section heap.
Context {A : Type} (less : A → A → bool) {order : HeapOrder less}.
Abbreviation LESS := (Less less).
Definition par (j : nat) : nat := (j - 1) / 2.

Definition heap_ok (h : list A) : Prop := ∀ j, 0 < j < length h → LESS h j (par j) = false.

(** ** Indices *)

Lemma par_lt j : 0 < j → par j < j.
Proof. intros H. unfold par. apply Nat.Div0.div_lt_upper_bound. lia. Qed.
Lemma par_cases i j : 0 < j → par j = i ↔ j = 2 * i + 1 ∨ j = 2 * i + 2.
Proof.
  intros Hj. unfold par. pose proof (Nat.div_mod_eq (j - 1) 2). pose proof (Nat.mod_upper_bound (j - 1) 2). split; [lia|].
  intros [->| ->]; [replace (2 * i + 1 - 1) with (i * 2) by lia|replace (2 * i + 2 - 1) with (1 + i * 2) by lia].
  - apply Nat.div_mul. lia.
  - rewrite Nat.div_add by lia. done.
Qed.

Definition swapped (i j k : nat) : nat := if decide (k = i) then j else if decide (k = j) then i else k.
Lemma Swap_lookup i j (h : list A) k : i < length h → j < length h → Swap i j h !! k = h !! swapped i j k.
Proof.
  intros Hi Hj. destruct (lookup_lt_is_Some_2 h i Hi) as [x Ex], (lookup_lt_is_Some_2 h j Hj) as [y Ey].
  unfold Swap. rewrite Ex, Ey. unfold swapped. repeat case_decide; subst.
  - rewrite list_lookup_insert_eq by (by rewrite length_insert). done.
  - rewrite list_lookup_insert_ne, list_lookup_insert_eq by done. done.
  - by rewrite !list_lookup_insert_ne by done.
Qed.
Lemma Swap_length i j (h : list A) : length (Swap i j h) = length h.
Proof. unfold Swap. repeat case_match; by rewrite ?length_insert. Qed.
Lemma Swap_perm i j (h : list A) : Swap i j h ≡ₚ h.
Proof.
  unfold Swap. destruct (h !! i) as [x|] eqn:Ex, (h !! j) as [y|] eqn:Ey; try done. by apply Permutation_insert_swap.
Qed.
Lemma Swap_Less i j h a b : i < length h → j < length h → LESS (Swap i j h) a b = LESS h (swapped i j a) (swapped i j b).
Proof. intros Hi Hj. unfold GoHeap.Less. by rewrite !Swap_lookup by done. Qed.

Lemma Less_asym h a b : LESS h a b = true → LESS h b a = false.
Proof. unfold GoHeap.Less. destruct (h !! a), (h !! b); try done. apply less_asym. Qed.
Lemma Less_trans h a b c : b < length h → LESS h a b = false → LESS h b c = false → LESS h a c = false.
Proof.
  intros Hb. destruct (lookup_lt_is_Some_2 h b Hb) as [y Ey]. unfold GoHeap.Less. rewrite Ey. destruct (h !! a), (h !! c); try done. apply less_trans.
Qed.

(** ** Down

    Only edges to parents from [b] on and below [n] count. *)

Definition edges (b n : nat) (P : nat → Prop) (h : list A) : Prop := ∀ j, 0 < j < n → b ≤ par j → P j → LESS h j (par j) = false.
(** The children of [i] are not less than its parent. *)
Definition over (b n i : nat) (h : list A) : Prop := ∀ j, 0 < j < n → par j = i → 0 < i → b ≤ par i → LESS h j (par i) = false.

Definition child (h : list A) (i n : nat) : nat :=
  if (2 * i + 1 + 1 <? n) && LESS h (2 * i + 1 + 1) (2 * i + 1) then 2 * i + 1 + 1 else 2 * i + 1.
Lemma child_least h i n s : 2 * i + 1 < n → 0 < s < n → par s = i → s ≠ child h i n → LESS h s (child h i n) = false.
Proof.
  intros Hn Hs Hp. apply par_cases in Hp; [|lia]. unfold child. destruct (Nat.ltb_spec (2 * i + 1 + 1) n); cbn [andb]; [|lia].
  destruct (LESS h (2 * i + 1 + 1) (2 * i + 1)) eqn:E; intros Hne.
  - replace s with (2 * i + 1) by lia. by apply Less_asym.
  - by replace s with (2 * i + 1 + 1) by lia.
Qed.
Lemma child_range h i n : 2 * i + 1 < n → i < child h i n < n ∧ par (child h i n) = i.
Proof.
  intros Hn. assert (child h i n = 2 * i + 1 ∨ child h i n = 2 * i + 2 ∧ 2 * i + 2 < n) as Hc.
  { unfold child. destruct (Nat.ltb_spec (2 * i + 1 + 1) n); cbn [andb]; [case_match|]; lia. }
  split; [lia|]. apply par_cases; lia.
Qed.

(** After a swap with the least child the edges around [i] are fine. *)
Lemma swap_down b n i h : n ≤ length h → 2 * i + 1 < n → LESS h (child h i n) i = true →
  edges b n (λ j, par j ≠ i ∧ j ≠ i) h → over b n i h →
  edges b n (λ j, par j ≠ child h i n) (Swap i (child h i n) h) ∧ over b n (child h i n) (Swap i (child h i n) h).
Proof.
  intros Hl Hn Hless He Ho. destruct (child_range h i n Hn) as [Hc Hpc]. set (c := child h i n) in *.
  split; intros j Hj.
  - intros Hb Hpj. rewrite Swap_Less by lia. pose proof (par_lt j ltac:(lia)). unfold swapped.
    destruct (decide (par j = i)) as [E|E].
    + rewrite (decide_False (P := j = i)) by lia. case_decide as Ej.
      * subst j. by apply Less_asym.
      * by apply child_least.
    + rewrite (decide_False (P := par j = c)) by done. case_decide as Ei.
      * subst j. apply Ho; [lia|done|lia|done].
      * rewrite decide_False by (intros ->; done). by apply He.
  - intros Hpj _ Hbi. rewrite Hpc in *. rewrite Swap_Less by lia. pose proof (par_lt j ltac:(lia)). unfold swapped.
    rewrite (decide_True (P := i = i)) by done. rewrite !decide_False by lia. rewrite <- Hpj. apply He; [lia|lia|lia].
Qed.

Lemma down_loop_ok b n fuel : ∀ h i, n ≤ length h → n < fuel + i → edges b n (λ j, par j ≠ i) h → over b n i h →
  let '(h', i') := down_loop less fuel h i n in edges b n (λ _, True) h'.
Proof.
  induction fuel as [|fuel IH]; intros h i Hl Hf He Ho; cbn [down_loop].
  - intros j Hj Hb _. apply He; [done|done|]. pose proof (par_lt j ltac:(lia)). lia.
  - fold (child h i n). destruct (Nat.leb_spec n (2 * i + 1)).
    + intros j Hj Hb _. apply He; [done|done|]. intros E. apply par_cases in E; lia.
    + destruct (child_range h i n ltac:(lia)) as [Hc Hpc]. destruct (LESS h (child h i n) i) eqn:E; cbn [negb].
      * apply IH; [by rewrite Swap_length|lia| |]; apply swap_down; try done; intros j Hj Hb [H1 H2]; by apply He.
      * intros j Hj Hb _. destruct (decide (par j = i)) as [Ej|Ej]; [|by apply He]. rewrite Ej.
        destruct (decide (j = child h i n)) as [->|Hne]; [done|].
        eapply Less_trans; [|by apply (child_least h i n j); try lia|done]. lia.
Qed.
Lemma down_loop_frame n fuel : ∀ h i, n ≤ length h →
  let '(h', i') := down_loop less fuel h i n in h' ≡ₚ h ∧ i ≤ i' ∧ ∀ k, k < i ∨ n ≤ k → h' !! k = h !! k.
Proof.
  induction fuel as [|fuel IH]; intros h i Hl; cbn [down_loop]; [done|]. fold (child h i n).
  destruct (Nat.leb_spec n (2 * i + 1)); [done|]. destruct (child_range h i n ltac:(lia)) as [Hc _].
  destruct (LESS h (child h i n) i); cbn [negb]; [|done].
  specialize (IH (Swap i (child h i n) h) (child h i n) ltac:(by rewrite Swap_length)).
  destruct (down_loop less fuel _ _ _) as [h' i']. destruct IH as (IH1 & IH2 & IH3). split_and!; [|lia|].
  - rewrite IH1. apply Swap_perm.
  - intros k Hk. rewrite IH3, Swap_lookup by lia. unfold swapped. by rewrite !decide_False by lia.
Qed.
Lemma down_frame h i n : n ≤ length h → (down less h i n).1 ≡ₚ h ∧ ∀ k, k < i ∨ n ≤ k → (down less h i n).1 !! k = h !! k.
Proof.
  intros Hl. unfold down. pose proof (down_loop_frame n (S n) h i Hl) as H. destruct (down_loop less (S n) h i n). destruct H as (? & _ & ?). done.
Qed.
Lemma down_ok b n h i : n ≤ length h → edges b n (λ j, par j ≠ i ∧ j ≠ i) h → over b n i h →
  if (down less h i n).2 then edges b n (λ _, True) (down less h i n).1
  else (down less h i n).1 = h ∧ edges b n (λ j, j ≠ i) h.
Proof.
  intros Hl He Ho. unfold down. cbn [down_loop]. fold (child h i n). destruct (Nat.leb_spec n (2 * i + 1)).
  { cbn [fst snd]. rewrite (proj2 (Nat.ltb_ge i i)) by lia. split; [done|]. intros j Hj Hb Hne. apply He; [done|done|].
    split; [|done]. intros E. apply par_cases in E; lia. }
  destruct (child_range h i n ltac:(lia)) as [Hc Hpc]. destruct (LESS h (child h i n) i) eqn:E; cbn [negb].
  - destruct (swap_down b n i h) as [He' Ho']; try done.
    pose proof (down_loop_ok b n n (Swap i (child h i n) h) (child h i n) ltac:(by rewrite Swap_length) ltac:(lia) He' Ho') as H1.
    pose proof (down_loop_frame n n (Swap i (child h i n) h) (child h i n) ltac:(by rewrite Swap_length)) as H2.
    destruct (down_loop less n _ _ _) as [h' i']. destruct H2 as (_ & Hi & _). cbn [fst snd]. by rewrite (proj2 (Nat.ltb_lt i i')) by lia.
  - cbn [fst snd]. rewrite (proj2 (Nat.ltb_ge i i)) by lia. split; [done|]. intros j Hj Hb Hne.
    destruct (decide (par j = i)) as [Ej|Ej]; [|by apply He]. rewrite Ej.
    destruct (decide (j = child h i n)) as [->|Hne']; [done|]. eapply Less_trans; [|by apply (child_least h i n j); try lia|done]. lia.
Qed.

(** ** Up *)

Lemma up_loop_ok n fuel : ∀ h j, n ≤ length h → j < n → j < fuel → edges 0 n (λ k, k ≠ j) h → over 0 n j h →
  edges 0 n (λ _, True) (up_loop less fuel h j).
Proof.
  induction fuel as [|fuel IH]; intros h j Hl Hjn Hf He Ho; [lia|]. cbn [up_loop]. fold (par j).
  destruct (Nat.eqb_spec (par j) j) as [E|E]; cbn [orb].
  { intros k Hk Hb _. apply He; [done|done|]. intros ->. pose proof (par_lt j ltac:(lia)). lia. }
  destruct (decide (j = 0)) as [->|]; [by destruct E|]. pose proof (par_lt j ltac:(lia)) as Hp.
  destruct (LESS h j (par j)) eqn:Eless; cbn [negb].
  - set (i := par j) in *. apply IH; [by rewrite Swap_length|lia|lia| |].
    + intros k Hk _ Hki. rewrite Swap_Less by lia. pose proof (par_lt k ltac:(lia)). unfold swapped. rewrite (decide_False (P := k = i)) by done.
      destruct (decide (k = j)) as [->|Hkj]; [rewrite decide_True by done; by apply Less_asym|].
      destruct (decide (par k = i)) as [Ek|Ek].
      * eapply (Less_trans h k i j); [lia|rewrite <- Ek; by apply He; try lia|by apply Less_asym].
      * destruct (decide (par k = j)) as [Ekj|Ekj]; [apply Ho; (done || lia)|by apply He; try lia].
    + intros k Hk Epk Hi _. pose proof (par_lt i Hi). rewrite Swap_Less by lia. pose proof (par_lt k ltac:(lia)). unfold swapped.
      rewrite (decide_False (P := par i = i)), (decide_False (P := par i = j)), (decide_False (P := k = i)) by lia.
      destruct (decide (k = j)) as [->|Hkj]; [apply He; lia|].
      eapply (Less_trans h k i (par i)); [lia|rewrite <- Epk; by apply He; try lia|apply He; lia].
  - intros k Hk Hb _. destruct (decide (k = j)) as [->|]; [done|by apply He].
Qed.
Lemma up_loop_frame fuel : ∀ h j, j < length h → up_loop less fuel h j ≡ₚ h ∧ ∀ k, j < k → up_loop less fuel h j !! k = h !! k.
Proof.
  induction fuel as [|fuel IH]; intros h j Hj; [done|]. cbn [up_loop]. fold (par j).
  destruct ((par j =? j) || negb (LESS h j (par j))) eqn:E; [done|]. assert (par j < j) as Hp.
  { apply orb_false_iff in E as [E%Nat.eqb_neq _]. destruct j; [done|apply par_lt; lia]. }
  destruct (IH (Swap (par j) j h) (par j)) as [H1 H2]; [rewrite Swap_length; lia|]. split.
  - rewrite H1. apply Swap_perm.
  - intros k Hk. rewrite H2, Swap_lookup by lia. unfold swapped. by rewrite !decide_False by lia.
Qed.

(** ** The operations *)

Lemma heap_edges h : heap_ok h ↔ edges 0 (length h) (λ _, True) h.
Proof. split; [intros H j Hj _ _; by apply H|intros H j Hj; apply H; (lia || done)]. Qed.
Lemma Less_take n h a b : a < n → b < n → LESS (take n h) a b = LESS h a b.
Proof. intros Ha Hb. unfold GoHeap.Less. by rewrite !lookup_take_lt by done. Qed.
Lemma heap_take n h : n ≤ length h → edges 0 n (λ _, True) h → heap_ok (take n h).
Proof.
  intros Hn He j. rewrite length_take, Nat.min_l by lia. intros Hj. pose proof (par_lt j ltac:(lia)).
  rewrite Less_take by lia. apply He; (lia || done).
Qed.
Lemma heap_root h j : heap_ok h → j < length h → LESS h j 0 = false.
Proof.
  intros Hh. induction j as [j IH] using lt_wf_ind. intros Hj. destruct (decide (j = 0)) as [->|].
  - destruct (LESS h 0 0) eqn:E; [|done]. by rewrite (Less_asym h 0 0 E) in E.
  - pose proof (par_lt j ltac:(lia)). eapply Less_trans; [|apply Hh; lia|apply IH; lia]. lia.
Qed.
Lemma heap_least h x y : heap_ok h → h !! 0 = Some x → y ∈ h → less y x = false.
Proof.
  intros Hh Hx [j Ej]%list_elem_of_lookup. pose proof (heap_root h j Hh (lookup_lt_Some _ _ _ Ej)) as H.
  unfold GoHeap.Less in H. by rewrite Ej, Hx in H.
Qed.

Lemma Init_loop_ok k : ∀ h, k ≤ length h → edges k (length h) (λ _, True) h → heap_ok (Init_loop less k h) ∧ Init_loop less k h ≡ₚ h.
Proof.
  induction k as [|k IH]; intros h Hk He; cbn [Init_loop]; [split; [by apply heap_edges|done]|].
  destruct (down_frame h k (length h) ltac:(lia)) as [Hp _]. pose proof (Permutation_length Hp) as Hl.
  assert (edges k (length h) (λ j, par j ≠ k ∧ j ≠ k) h) as He'.
  { intros j Hj Hb [Hne _]. apply He; [done|lia|done]. }
  assert (over k (length h) k h) as Ho by (intros j Hj E Hpos Hb; pose proof (par_lt k Hpos); lia).
  pose proof (down_ok k (length h) h k ltac:(lia) He' Ho) as Hd.
  destruct (IH (down less h k (length h)).1) as [H1 H2]; [lia| |split; [done|by rewrite H2]]. rewrite Hl.
  destruct (down less h k (length h)) as [h' []]; cbn [fst snd] in *; [done|]. destruct Hd as [-> Hd].
  intros j Hj Hb _. apply Hd; [done|done|]. intros ->. pose proof (par_lt k ltac:(lia)). lia.
Qed.
Lemma Init_ok h : heap_ok (Init less h) ∧ Init less h ≡ₚ h.
Proof.
  unfold Init. pose proof (Nat.div_mod_eq (length h) 2). pose proof (Nat.mod_upper_bound (length h) 2).
  apply Init_loop_ok; [lia|]. intros j Hj Hb. unfold par in *. pose proof (Nat.div_mod_eq (j - 1) 2). pose proof (Nat.mod_upper_bound (j - 1) 2). lia.
Qed.
Lemma Push_ok x h : heap_ok h → heap_ok (Push less x h) ∧ Push less x h ≡ₚ x :: h.
Proof.
  intros Hh. unfold Push, up. assert (length (h ++ [x]) = S (length h)) as Hl by (rewrite length_app; cbn; lia).
  destruct (up_loop_frame (S (length h)) (h ++ [x]) (length h)) as [Hp _]; [lia|]. split; [|rewrite Hp; by rewrite Permutation_app_comm].
  apply heap_edges. rewrite (Permutation_length Hp). apply up_loop_ok; [lia|lia|lia| |].
  - intros j Hj _ Hne. pose proof (par_lt j ltac:(lia)). rewrite <- (Less_take (length h)) by lia.
    rewrite take_app_length. apply Hh. lia.
  - intros j Hj Hpj. pose proof (par_lt j ltac:(lia)). lia.
Qed.
Lemma Pop_ok h : h ≠ [] → heap_ok h → ∃ x h', Pop less h = Some (x, h') ∧ h !! 0 = Some x ∧ heap_ok h' ∧ h ≡ₚ x :: h'.
Proof.
  intros Hne Hh. unfold Pop. destruct (length h) as [|n] eqn:El; [by apply nil_length_inv in El|].
  destruct (lookup_lt_is_Some_2 h 0 ltac:(lia)) as [x Ex].
  assert (length (Swap 0 n h) = S n) as Hs by by rewrite Swap_length.
  destruct (down_frame (Swap 0 n h) 0 n ltac:(lia)) as [Hp Hf]. pose proof (Permutation_length Hp) as Hl.
  set (h' := (down less (Swap 0 n h) 0 n).1) in *. assert (h' !! n = Some x) as En.
  { rewrite Hf, Swap_lookup by lia. unfold swapped. by destruct (decide (n = 0)) as [->|]; [rewrite Ex|rewrite decide_True by done]. }
  rewrite En. exists x, (take n h'). split_and!; [done|done| |].
  - apply heap_take; [lia|]. pose proof (down_ok 0 n (Swap 0 n h) 0 ltac:(lia)) as Hd. unfold h'.
    assert (edges 0 n (λ j, par j ≠ 0 ∧ j ≠ 0) (Swap 0 n h)) as He.
    { intros j Hj _ [H1 H2]. pose proof (par_lt j ltac:(lia)). rewrite Swap_Less by lia. unfold swapped. rewrite !decide_False by lia. apply Hh. lia. }
    specialize (Hd He ltac:(by intros j Hj E H0; lia)). destruct (down less (Swap 0 n h) 0 n) as [h'' []]; [done|]. cbn [fst snd] in *.
    destruct Hd as [-> Hd]. intros j Hj Hb _. apply Hd; lia.
  - rewrite <- (Swap_perm 0 n h), <- Hp. rewrite <- (take_drop n h') at 1. rewrite (drop_S h' x n En), (drop_ge h' (S n)) by lia.
    by rewrite Permutation_app_comm.
Qed.
Lemma Fix_ok h x : h ≠ [] → heap_ok h → heap_ok (Fix less (<[0 := x]> h) 0) ∧ Fix less (<[0 := x]> h) 0 ≡ₚ <[0 := x]> h.
Proof.
  intros Hne Hh. unfold Fix. set (h1 := <[0 := x]> h). assert (0 < length h1) as Hpos by (unfold h1; rewrite length_insert; destruct h; cbn; [done|lia]).
  destruct (down_frame h1 0 (length h1) ltac:(lia)) as [Hp _]. pose proof (Permutation_length Hp) as Hl.
  assert (edges 0 (length h1) (λ j, par j ≠ 0 ∧ j ≠ 0) h1) as He.
  { intros j Hj _ [H1 H2]. unfold h1, GoHeap.Less in *. rewrite length_insert in Hj. rewrite !list_lookup_insert_ne by done. by apply Hh. }
  pose proof (down_ok 0 (length h1) h1 0 ltac:(lia) He ltac:(by intros j Hj E H0; lia)) as Hd.
  destruct (down less h1 0 (length h1)) as [h' []]; cbn [fst snd] in *.
  - split; [|done]. apply heap_edges. by rewrite Hl.
  - destruct Hd as [-> Hd]. change (up less h1 0) with h1. split; [|done]. apply heap_edges.
    intros j Hj Hb _. apply Hd; lia.
Qed.
Lemma Remove_ok h i x : heap_ok h → h !! i = Some x → ∃ h', Remove less i h = Some (x, h') ∧ heap_ok h' ∧ h ≡ₚ x :: h'.
Proof.
  intros Hh Ei. pose proof (lookup_lt_Some _ _ _ Ei) as Hi. unfold Remove. destruct (length h) as [|n] eqn:El; [lia|].
  assert (∀ h', h' ≡ₚ h → h' !! n = Some x → edges 0 n (λ _, True) h' →
    ∃ h'', (x ← h' !! n; Some (x, take n h')) = Some (x, h'') ∧ heap_ok h'' ∧ h ≡ₚ x :: h'') as Hdone.
  { intros h' Hp En He. rewrite En. exists (take n h'). pose proof (Permutation_length Hp). split_and!; [done|by apply heap_take; [lia|]|].
    rewrite <- Hp. rewrite <- (take_drop n h') at 1. rewrite (drop_S h' x n En), (drop_ge h' (S n)) by lia. by rewrite Permutation_app_comm. }
  destruct (Nat.eqb_spec n i) as [->|Hne].
  { apply Hdone; [done|done|]. intros j Hj _ _. apply Hh. lia. }
  assert (length (Swap i n h) = S n) as Hs by by rewrite Swap_length.
  destruct (down_frame (Swap i n h) i n ltac:(lia)) as [Hp Hf].
  assert (edges 0 n (λ j, par j ≠ i ∧ j ≠ i) (Swap i n h)) as He.
  { intros j Hj _ [H1 H2]. pose proof (par_lt j ltac:(lia)). rewrite Swap_Less by lia. unfold swapped. rewrite !decide_False by lia. apply Hh. lia. }
  assert (over 0 n i (Swap i n h)) as Ho.
  { intros j Hj Hpj Hpos _. pose proof (par_lt j ltac:(lia)). pose proof (par_lt i Hpos). rewrite Swap_Less by lia. unfold swapped. rewrite !decide_False by lia.
    eapply (Less_trans h j i); [lia|rewrite <- Hpj; apply Hh; lia|apply Hh; lia]. }
  assert (Swap i n h !! n = Some x) as En by (rewrite Swap_lookup by lia; unfold swapped; rewrite decide_False, decide_True by lia; done).
  pose proof (down_ok 0 n (Swap i n h) i ltac:(lia) He Ho) as Hd. destruct (down less (Swap i n h) i n) as [h' []]; cbn [fst snd] in *.
  - apply Hdone; [by rewrite Hp, Swap_perm|rewrite Hf by lia; done|done].
  - destruct Hd as [-> Hd]. destruct (up_loop_frame (S i) (Swap i n h) i ltac:(lia)) as [Hup Huf]. apply Hdone.
    + unfold up. by rewrite Hup, Swap_perm.
    + unfold up. rewrite Huf by lia. done.
    + apply up_loop_ok; [lia|lia|lia|done|done].
Qed.
End heap.
