(* ===== verification/RlpEncode.v ===== *)
(** * RLP: the encoder

    [src/common/rlp/encode.go] and the head functions shared with
    [decode.go] and [raw.go].  The package works on any Go type by
    reflection; [typ] has the kinds of types [makeWriter] and [makeDecoder]
    distinguish and [value] the values of these types.  A type that has its
    own [EncodeRLP] passes another value to [Encode] and is represented by the
    type of that value.  [writer] follows [makeWriter]: it fills an [encbuf],
    which keeps string data and list headers apart, and [toBytes] puts them
    together. *)

From stdpp Require Import base tactics list numbers.
From S2P Require Import Prelude.

#[local] Open Scope Z_scope.
#[local] Set Warnings "-register-all".

Module rlp.

(** ** Errors of encode.go and decode.go

    Messages of a [decodeError] carry the Go type and a path, which are left
    out. *)
Inductive decode_msg : Type :=
| MsgCanonInt | MsgCanonSize | MsgExpectedList | MsgExpectedString | MsgUintOverflow | MsgNotAtEOL
| MsgTooLong | MsgTooShort | MsgTooFew.
Inductive rlp_error : Type :=
| EOL
| io_EOF | io_ErrUnexpectedEOF
| ErrExpectedString | ErrExpectedList | ErrCanonInt | ErrCanonSize | ErrElemTooLarge | ErrValueTooLarge
| ErrMoreThanOneValue
| errNotInList | errNotAtEOL | errUintOverflow
| errInvalidBool
| errNegativeBigInt
| decodeError (msg : decode_msg).
#[global] Instance decode_msg_eq_dec : EqDecision decode_msg.
Proof. solve_decision. Defined.
#[global] Instance rlp_error_eq_dec : EqDecision rlp_error.
Proof. solve_decision. Defined.

(** ** Go types and values *)

(** [TOptPtr] is a pointer field with the tag [nil], [TTail] a slice field with
    the tag [tail].  [TBytes] covers slices and [TByteArray] arrays of bytes;
    [TArray] is an array of another element type. *)
Inductive typ : Type :=
| TUint (bits : Z)
| TBool
| TString
| TBigInt
| TBytes
| TByteArray (len : Z)
| TRaw
| TSlice (elem : typ)
| TArray (len : Z) (elem : typ)
| TStruct (fields : list typ)
| TPtr (elem : typ)
| TOptPtr (elem : typ)
| TTail (elem : typ)
| TInterface.

(** A nil pointer is [None]; an interface value has its dynamic type. *)
Inductive value : Type :=
| VUint (z : Z)
| VBool (b : bool)
| VBig (z : option Z)
| VBytes (b : list byte)
| VList (vs : list value)
| VPtr (v : option value)
| VInterface (v : option (typ * value)).

(** ** Integers and headers *)

(** [intsize]: the loop ends after at most eight rounds for a [uint64]. *)
Fixpoint intsize_loop (fuel : nat) (size i : Z) : Z :=
  match fuel with
  | O => size
  | S fuel' =>
      let i := Z.shiftr i 8 in
      if i =? 0 then size else intsize_loop fuel' (size + 1) i
  end.
Definition intsize (i : Z) : Z := intsize_loop 8 1 i.

(** The bytes [putint] writes; it returns their number. *)
Definition putint (i : Z) : list byte :=
  let b k := Zbyte (Z.shiftr i k) in
  if i <? Z.shiftl 1 8 then [Zbyte i]
  else if i <? Z.shiftl 1 16 then [b 8; Zbyte i]
  else if i <? Z.shiftl 1 24 then [b 16; b 8; Zbyte i]
  else if i <? Z.shiftl 1 32 then [b 24; b 16; b 8; Zbyte i]
  else if i <? Z.shiftl 1 40 then [b 32; b 24; b 16; b 8; Zbyte i]
  else if i <? Z.shiftl 1 48 then [b 40; b 32; b 24; b 16; b 8; Zbyte i]
  else if i <? Z.shiftl 1 56 then [b 48; b 40; b 32; b 24; b 16; b 8; Zbyte i]
  else [b 56; b 48; b 40; b 32; b 24; b 16; b 8; Zbyte i].

Definition headsize (size : Z) : Z := if size <? 56 then 1 else 1 + intsize size.

(** The bytes [puthead] writes. *)
Definition puthead (smalltag largetag size : Z) : list byte :=
  if size <? 56 then [Zbyte (smalltag + size)]
  else let sizesize := putint size in Zbyte (largetag + Zlen sizesize) :: sizesize.

(** A write into a buffer from index [pos] on, which panics when the buffer is
    too short. *)
Definition write_at (pos : Z) (bs buf : list byte) : option (list byte) :=
  if pos + Zlen bs <=? Zlen buf
  then Some (take (Z.to_nat pos) buf ++ bs ++ drop (Z.to_nat (pos + Zlen bs)) buf)
  else None.

(** ** encbuf

    A [*listhead] that [list] returns is the index of the header. *)
Record listhead : Type := mkListhead { lh_offset : Z; lh_size : Z }.
Record encbuf : Type := mkEncbuf {
  eb_str : list byte;
  lheads : list listhead;
  lhsize : Z }.
Definition new_encbuf : encbuf := mkEncbuf [] [] 0.

Abbreviation W := (M encbuf rlp_error).

Definition eb_Write (b : list byte) : W unit :=
  modify (λ w, mkEncbuf (eb_str w ++ b) (lheads w) (lhsize w)).

Definition encodeStringHeader (size : Z) : W unit :=
  if size <? 56 then eb_Write [Zbyte (0x80 + size)]
  else let sizesize := putint size in eb_Write (Zbyte (0xB7 + Zlen sizesize) :: sizesize).

Definition is_single (b : list byte) : bool :=
  match b with [x] => byteZ x <=? 0x7F | _ => false end.

Definition encodeString (b : list byte) : W unit :=
  if is_single b then eb_Write b
  else encodeStringHeader (Zlen b);; eb_Write b.

Definition eb_size (w : encbuf) : Z := Zlen (eb_str w) + lhsize w.

Definition eb_list : W nat := λ w,
  (mkEncbuf (eb_str w) (lheads w ++ [mkListhead (Zlen (eb_str w)) (lhsize w)]) (lhsize w),
   Val (length (lheads w))).

Definition eb_listEnd (lh : nat) : W unit := λ w,
  match lheads w !! lh with
  | None => (w, Panic)
  | Some h =>
      let size := eb_size w - lh_offset h - lh_size h in
      (mkEncbuf (eb_str w) (<[lh := mkListhead (lh_offset h) size]> (lheads w))
         (lhsize w + (if size <? 56 then 1 else 1 + intsize size)), Val tt)
  end.

Definition head_encode (h : listhead) : list byte := puthead 0xC0 0xF7 (lh_size h).

(** The loop of [toBytes] over the headers: the buffer, [strpos] and [pos]. *)
Fixpoint toBytes_loop (str : list byte) (hs : list listhead) (out : list byte) (strpos pos : Z)
    : option (list byte * Z * Z) :=
  match hs with
  | [] => Some (out, strpos, pos)
  | h :: hs' =>
      if (lh_offset h <? strpos) || (Zlen str <? lh_offset h) then None
      else
        let piece := slice strpos (lh_offset h) str in
        let n := Z.min (Zlen out - pos) (Zlen piece) in
        let out := take (Z.to_nat pos) out ++ go_copy (drop (Z.to_nat pos) out) piece in
        let pos := pos + n in
        let strpos := strpos + n in
        let enc := head_encode h in
        out ← write_at pos enc out;
        toBytes_loop str hs' out strpos (pos + Zlen enc)
  end.
Definition toBytes (w : encbuf) : option (list byte) :=
  r ← toBytes_loop (eb_str w) (lheads w) (zeros (eb_size w)) 0 0;
  let '(out, strpos, pos) := r in
  Some (take (Z.to_nat pos) out ++ go_copy (drop (Z.to_nat pos) out) (drop (Z.to_nat strpos) (eb_str w))).

(** [toWriter]: the pieces are written to [out] one by one; a writer that
    never fails, such as the buffer of the trie hasher, gets their
    concatenation. *)
Fixpoint toWriter_loop (str : list byte) (hs : list listhead) (strpos : Z) : option (list byte * Z) :=
  match hs with
  | [] => Some ([], strpos)
  | h :: hs' =>
      if Zlen str <? lh_offset h then None
      else
        let before := if lh_offset h - strpos >? 0 then slice strpos (lh_offset h) str else [] in
        r ← toWriter_loop str hs' (strpos + Zlen before);
        let '(rest, strpos) := r in
        Some (before ++ head_encode h ++ rest, strpos)
  end.
Definition toWriter (w : encbuf) : option (list byte) :=
  r ← toWriter_loop (eb_str w) (lheads w) 0;
  let '(out, strpos) := r in
  Some (out ++ (if strpos <? Zlen (eb_str w) then drop (Z.to_nat strpos) (eb_str w) else [])).

(** ** Writers *)

Definition writeUint (i : Z) : W unit :=
  if i =? 0 then eb_Write [Zbyte 0x80]
  else if i <? 128 then eb_Write [Zbyte i]
  else let s := putint i in eb_Write (Zbyte (0x80 + Zlen s) :: s).
Definition writeBool (b : bool) : W unit := eb_Write [if b then Zbyte 0x01 else Zbyte 0x80].
Definition writeBigInt (i : Z) : W unit :=
  if big_Cmp i 0 =? -1 then fail errNegativeBigInt
  else if big_Cmp i 0 =? 0 then eb_Write [Zbyte 0x80]
  else encodeString (big_Bytes i).
Definition writeBigIntPtr (i : option Z) : W unit :=
  match i with None => eb_Write [Zbyte 0x80] | Some i => writeBigInt i end.
Definition writeString (s : list byte) : W unit :=
  if is_single s then eb_Write s
  else encodeStringHeader (Zlen s);; eb_Write s.

(** [defer w.listEnd(w.list())]: the list is also ended after an error. *)
Definition ended (lh : nat) (body : W unit) : W unit := λ w,
  match body w with
  | (w, Val _) => eb_listEnd lh w
  | (w, Err e) => let '(w, o) := eb_listEnd lh w in (w, match o with Val _ => Err e | o => o end)
  | r => r
  end.
Definition deferred_list (body : W unit) : W unit := lh ← eb_list; ended lh body.

(** What a nil pointer to [t] is written as, by the kind of [t]. *)
Fixpoint nilfunc (t : typ) : W unit :=
  match t with
  | TByteArray _ => eb_Write [Zbyte 0x80]
  | TStruct _ | TArray _ _ => lh ← eb_list; eb_listEnd lh
  | TUint _ => writeUint 0
  | TBool => writeBool false
  | TString => writeString []
  | TBigInt => writeBigIntPtr None
  | TBytes => encodeString []
  | TRaw => eb_Write []
  | TSlice _ => deferred_list (mret tt)
  | TPtr t' | TOptPtr t' => nilfunc t'
  | TTail _ => mret tt
  | TInterface => eb_Write [Zbyte 0xC0]
  end.

(** [makeWriter] and the closures it returns, on a value of the type. *)
Fixpoint writer (t : typ) (v : value) : W unit :=
  match t, v with
  | TRaw, VBytes b => eb_Write b
  | TInterface, VInterface None => eb_Write [Zbyte 0xC0]
  | TInterface, VInterface (Some (t, v)) => writer t v
  | TBigInt, VBig i => writeBigIntPtr i
  | TUint _, VUint i => writeUint i
  | TBool, VBool b => writeBool b
  | TString, VBytes s => writeString s
  | TBytes, VBytes b => encodeString b
  | TByteArray _, VBytes b => encodeString b
  | TSlice t, VList vs | TArray _ t, VList vs =>
      deferred_list
        ((fix elems (vs : list value) : W unit :=
            match vs with [] => mret tt | v :: vs => writer t v;; elems vs end) vs)
  | TTail t, VList vs =>
      (fix elems (vs : list value) : W unit :=
         match vs with [] => mret tt | v :: vs => writer t v;; elems vs end) vs
  | TStruct ts, VList vs =>
      lh ← eb_list;
      (fix fields (ts : list typ) (vs : list value) {struct vs} : W unit :=
         match vs, ts with
         | v :: vs, t :: ts => writer t v;; fields ts vs
         | _, _ => mret tt
         end) ts vs;;
      eb_listEnd lh
  | TPtr t, VPtr None | TOptPtr t, VPtr None => nilfunc t
  | TPtr t, VPtr (Some v) | TOptPtr t, VPtr (Some v) => writer t v
  | _, _ => panic
  end.

(** [EncodeToBytes], and [Encode] to a writer that does not fail. *)
Definition encode_with (finish : encbuf → option (list byte)) (t : typ) (v : value)
    : outcome rlp_error (list byte) :=
  match writer t v new_encbuf with
  | (w, Val _) => match finish w with Some out => Val out | None => Panic end
  | (_, Err e) => Err e
  | (_, Panic) => Panic
  | (_, NoFuel) => NoFuel
  end.
Definition EncodeToBytes : typ → value → outcome rlp_error (list byte) := encode_with toBytes.
Definition Encode : typ → value → outcome rlp_error (list byte) := encode_with toWriter.

(** [ListSize] of raw.go. *)
Definition ListSize (contentSize : Z) : Z := u64 (headsize contentSize + contentSize).

End rlp.
