(* ===== verification/RlpEncodeFacts.v ===== *)
(** * RLP: the encoder writes the encoding

    A reference encoding [enc], defined on the value as the Yellow Paper does,
    and the proof that the buffer with separate list headers ([encbuf]) is an
    implementation of it. *)

From stdpp Require Import base tactics list numbers.
From S2P Require Import Prelude RlpEncode.

#[local] Open Scope Z_scope.
#[local] Set Warnings "-register-all".
Import rlp.

(** ** Reference encoding *)

Definition head (small large n : Z) : list byte :=
  if n <? 56 then [Zbyte (small + n)] else Zbyte (large + Zlen (big_Bytes n)) :: big_Bytes n.
Definition enc_str (b : list byte) : list byte :=
  if is_single b then b else head 0x80 0xB7 (Zlen b) ++ b.
Definition enc_list (payload : list byte) : list byte := head 0xC0 0xF7 (Zlen payload) ++ payload.

Fixpoint enc_nil (t : typ) : list byte :=
  match t with
  | TStruct _ | TArray _ _ | TSlice _ | TInterface => enc_list []
  | TRaw | TTail _ => []
  | TPtr t' | TOptPtr t' => enc_nil t'
  | _ => enc_str []
  end.

Fixpoint enc (t : typ) (v : value) : option (list byte) :=
  match t, v with
  | TRaw, VBytes b => Some b
  | TInterface, VInterface None => Some (enc_list [])
  | TInterface, VInterface (Some (t, v)) => enc t v
  | TBigInt, VBig None => Some (enc_str [])
  | TBigInt, VBig (Some i) => if i <? 0 then None else Some (enc_str (big_Bytes i))
  | TUint _, VUint i => Some (enc_str (big_Bytes i))
  | TBool, VBool b => Some (enc_str (if b then [Byte.x01] else []))
  | TString, VBytes b | TBytes, VBytes b | TByteArray _, VBytes b => Some (enc_str b)
  | TSlice t, VList vs | TArray _ t, VList vs => enc_list <$> (mjoin <$> mapM (enc t) vs)
  | TTail t, VList vs => mjoin <$> mapM (enc t) vs
  | TStruct ts, VList vs =>
      enc_list <$>
      (fix fields (ts : list typ) (vs : list value) {struct vs} : option (list byte) :=
         match vs, ts with
         | v :: vs, t :: ts => b ← enc t v; bs ← fields ts vs; Some (b ++ bs)
         | _, _ => Some []
         end) ts vs
  | TPtr t, VPtr None | TOptPtr t, VPtr None => Some (enc_nil t)
  | TPtr t, VPtr (Some v) | TOptPtr t, VPtr (Some v) => enc t v
  | _, _ => None
  end.
Fixpoint enc_fields (ts : list typ) (vs : list value) {struct vs} : option (list byte) :=
  match vs, ts with
  | v :: vs, t :: ts => b ← enc t v; bs ← enc_fields ts vs; Some (b ++ bs)
  | _, _ => Some []
  end.
Lemma enc_struct ts vs : enc (TStruct ts) (VList vs) = enc_list <$> enc_fields ts vs.
Proof. reflexivity. Qed.

(** The value has the shape of the type, and integers are in range. *)
Fixpoint shaped (t : typ) (v : value) : Prop :=
  match t, v with
  | TRaw, VBytes _ | TInterface, VInterface None | TBigInt, VBig _ | TBool, VBool _
  | TString, VBytes _ | TBytes, VBytes _ => True
  | TInterface, VInterface (Some (t, v)) => shaped t v
  | TUint bits, VUint i => 0 ≤ i < 2 ^ bits ∧ 8 ≤ bits ≤ 64
  | TByteArray n, VBytes b => Zlen b = n
  | TSlice t, VList vs | TTail t, VList vs =>
      (fix all (vs : list value) : Prop := match vs with [] => True | v :: vs => shaped t v ∧ all vs end) vs
  | TArray n t, VList vs => Zlen vs = n ∧
      (fix all (vs : list value) : Prop := match vs with [] => True | v :: vs => shaped t v ∧ all vs end) vs
  | TStruct ts, VList vs =>
      (fix fields (ts : list typ) (vs : list value) {struct vs} : Prop :=
         match vs, ts with
         | [], [] => True
         | v :: vs, t :: ts => shaped t v ∧ fields ts vs
         | _, _ => False
         end) ts vs
  | TPtr _, VPtr None | TOptPtr _, VPtr None => True
  | TPtr t, VPtr (Some v) | TOptPtr t, VPtr (Some v) => shaped t v
  | _, _ => False
  end.
Fixpoint shaped_fields (ts : list typ) (vs : list value) {struct vs} : Prop :=
  match vs, ts with
  | [], [] => True
  | v :: vs, t :: ts => shaped t v ∧ shaped_fields ts vs
  | _, _ => False
  end.

(** ** Induction on values *)
Lemma value_ind' (P : value → Prop) :
  (∀ z, P (VUint z)) → (∀ b, P (VBool b)) → (∀ z, P (VBig z)) → (∀ b, P (VBytes b)) →
  (∀ vs, Forall P vs → P (VList vs)) →
  P (VPtr None) → (∀ v, P v → P (VPtr (Some v))) →
  P (VInterface None) → (∀ t v, P v → P (VInterface (Some (t, v)))) →
  ∀ v, P v.
Proof.
  intros Hu Hb Hz Hs Hl Hp0 Hp Hi0 Hi. fix IH 1.
  intros [z|b|z|b|vs|[v|]|[[t v]|]];
    [apply Hu|apply Hb|apply Hz|apply Hs| |apply Hp, IH|apply Hp0|apply Hi, IH|apply Hi0].
  apply Hl. induction vs as [|v vs IHvs]; constructor; [apply IH|apply IHvs].
Qed.

Lemma shaped_elems t vs :
  (fix all (vs : list value) : Prop := match vs with [] => True | v :: vs => shaped t v ∧ all vs end) vs
  ↔ Forall (shaped t) vs.
Proof.
  induction vs as [|v vs IH]; [by split; [constructor|]|]. 
  rewrite Forall_cons_iff. tauto.
Qed.
Lemma shaped_struct ts vs : shaped (TStruct ts) (VList vs) ↔ shaped_fields ts vs.
Proof. reflexivity. Qed.

(** ** Integers and headers *)

Lemma shiftr_div i k : 0 ≤ k → Z.shiftr i k = i / 2 ^ k.
Proof. intros. by apply Z.shiftr_div_pow2. Qed.

Lemma big_Bytes_width i (k : nat) : 256 ^ (Z.of_nat k) ≤ i < 256 ^ (Z.of_nat k + 1) → big_Bytes i = be_bytes (S k) i.
Proof.
  intros [Hlo Hhi].
  assert (0 < i) by (pose proof (Z.pow_pos_nonneg 256 (Z.of_nat k)); lia).
  unfold big_Bytes. rewrite Z.abs_eq by lia. f_equal.
  change 256 with (2 ^ 8) in Hlo, Hhi. rewrite <- Z.pow_mul_r in Hlo, Hhi by lia.
  pose proof (proj2 (BitLen_le i (8 * (Z.of_nat k + 1)) ltac:(lia)) ltac:(lia)).
  pose proof (proj2 (BitLen_gt i (8 * Z.of_nat k) ltac:(lia)) ltac:(lia)).
  assert ((BitLen i + 7) / 8 = Z.of_nat k + 1) as -> by (symmetry; apply Z.div_unique with (BitLen i - 8 * Z.of_nat k - 1); lia).
  lia.
Qed.

Lemma intsize_loop_spec fuel size (i : Z) (k : nat) :
  (k < fuel)%nat → (k = O ∨ 256 ^ Z.of_nat k ≤ i) → 0 ≤ i < 256 ^ (Z.of_nat k + 1) →
  intsize_loop fuel size i = size + Z.of_nat k.
Proof.
  revert size i k. induction fuel as [|fuel IH]; intros size i k Hf Hlo Hhi; [lia|].
  cbn [intsize_loop]. rewrite shiftr_div by lia. change (2 ^ 8) with 256.
  pose proof (Z.div_mod i 256 ltac:(lia)). pose proof (Z.mod_pos_bound i 256 ltac:(lia)).
  destruct k as [|k].
  - change (256 ^ (Z.of_nat 0 + 1)) with 256 in Hhi. rewrite Z.div_small by lia. simpl. lia.
  - destruct Hlo as [|Hlo]; [done|]. rewrite Nat2Z.inj_succ in *.
    rewrite Z.pow_succ_r in Hlo by lia.
    replace (Z.succ (Z.of_nat k) + 1) with (Z.succ (Z.of_nat k + 1)) in Hhi by lia. rewrite Z.pow_succ_r in Hhi by lia.
    pose proof (Z.pow_pos_nonneg 256 (Z.of_nat k) ltac:(lia) ltac:(lia)).
    destruct (Z.eqb_spec (i / 256) 0); [lia|].
    rewrite (IH (size + 1) (i / 256) k); [lia|lia|right; lia|lia].
Qed.

(** The byte width of a [uint64], for case analysis. *)
Lemma u64_width i : 0 < i < 2 ^ 64 →
  ∃ k : nat, (k < 8)%nat ∧ 256 ^ Z.of_nat k ≤ i < 256 ^ (Z.of_nat k + 1).
Proof.
  intros Hi.
  destruct (Z.lt_ge_cases i (2 ^ 8)); [exists 0%nat; simpl; lia|].
  destruct (Z.lt_ge_cases i (2 ^ 16)); [exists 1%nat; simpl; lia|].
  destruct (Z.lt_ge_cases i (2 ^ 24)); [exists 2%nat; simpl; lia|].
  destruct (Z.lt_ge_cases i (2 ^ 32)); [exists 3%nat; simpl; lia|].
  destruct (Z.lt_ge_cases i (2 ^ 40)); [exists 4%nat; simpl; lia|].
  destruct (Z.lt_ge_cases i (2 ^ 48)); [exists 5%nat; simpl; lia|].
  destruct (Z.lt_ge_cases i (2 ^ 56)); [exists 6%nat; simpl; lia|exists 7%nat; simpl; lia].
Qed.

Lemma intsize_big_Bytes i : 0 < i < 2 ^ 64 → intsize i = Zlen (big_Bytes i).
Proof.
  intros Hi. destruct (u64_width i Hi) as (k & Hk & Hr).
  rewrite (big_Bytes_width i k Hr). unfold Zlen, intsize. rewrite length_be_bytes.
  rewrite (intsize_loop_spec 8 1 i k); [lia|lia|tauto|lia].
Qed.

Lemma putint_be i (k : nat) : (k < 8)%nat → (k = O ∨ 256 ^ Z.of_nat k ≤ i) → 0 ≤ i < 256 ^ (Z.of_nat k + 1) →
  putint i = be_bytes (S k) i.
Proof.
  intros Hk Hlo Hhi. unfold putint. rewrite !Z.shiftl_1_l, !(shiftr_div i) by lia.
  do 8 (destruct k as [|k];
    [match type of Hhi with _ ≤ _ < ?e => let v := eval vm_compute in e in change e with v in Hhi end;
     match type of Hlo with _ ∨ ?e ≤ _ => let v := eval vm_compute in e in change e with v in Hlo end;
     repeat (case_if; [try (exfalso; lia)|try (exfalso; lia)]);
     simpl be_bytes; rewrite ?Z.div_div by lia; reflexivity|]).
  lia.
Qed.
Lemma putint_big_Bytes i : 0 < i < 2 ^ 64 → putint i = big_Bytes i.
Proof.
  intros Hi. destruct (u64_width i Hi) as (k & Hk & Hr).
  rewrite (big_Bytes_width i k Hr). apply putint_be; [done|tauto|lia].
Qed.

Lemma puthead_head small large n : 0 ≤ n < 2 ^ 64 → puthead small large n = head small large n.
Proof.
  intros Hn. unfold puthead, head. case_if; [done|]. by rewrite putint_big_Bytes by lia.
Qed.
Lemma head_length small large n : 0 ≤ n < 2 ^ 64 → Zlen (head small large n) = headsize n.
Proof.
  intros Hn. unfold head, headsize. case_if; [done|]. rewrite intsize_big_Bytes by lia.
  unfold Zlen. simpl. lia.
Qed.

(** ** What a buffer stands for

    [renders s hs bs]: the headers [hs] put into the string data [s] at their
    offsets give [bs]. *)
Inductive renders : list byte → list listhead → list byte → Prop :=
| renders_nil : renders [] [] []
| renders_str s hs bs b : renders s hs bs → renders (s ++ b) hs (bs ++ b)
| renders_head s hs bs h : renders s hs bs → lh_offset h = Zlen s →
    renders s (hs ++ [h]) (bs ++ head_encode h).

Definition shift (n : Z) (h : listhead) : listhead := mkListhead (n + lh_offset h) (lh_size h).
Lemma shift_0 (hs : list listhead) : shift 0 <$> hs = hs.
Proof. rewrite <- (list_fmap_id hs) at 2. apply list_fmap_ext. by intros ? [] ?. Qed.
Lemma shift_shift n m (hs : list listhead) : shift n <$> (shift m <$> hs) = shift (n + m) <$> hs.
Proof.
  rewrite <- list_fmap_compose. apply list_fmap_ext. intros ? [] ?. unfold shift. simpl. f_equal. lia.
Qed.

Lemma Zlen_app {A} (l1 l2 : list A) : Zlen (l1 ++ l2) = Zlen l1 + Zlen l2.
Proof. unfold Zlen. rewrite length_app. lia. Qed.

Lemma renders_app s1 hs1 b1 s2 hs2 b2 :
  renders s1 hs1 b1 → renders s2 hs2 b2 →
  renders (s1 ++ s2) (hs1 ++ (shift (Zlen s1) <$> hs2)) (b1 ++ b2).
Proof.
  intros H1 H2. induction H2 as [|s hs bs b _ IH|s hs bs h _ IH Ho].
  - by rewrite !app_nil_r.
  - rewrite !app_assoc. by constructor.
  - rewrite fmap_app, !app_assoc. simpl. change (head_encode h) with (head_encode (shift (Zlen s1) h)).
    constructor; [done|]. simpl. rewrite Zlen_app. lia.
Qed.

(** [wrote bs w w']: the calls that led from [w] to [w'] wrote [bs]. *)
Definition wrote (bs : list byte) (w w' : encbuf) : Prop :=
  ∃ s hs, renders s hs bs ∧
    w' = mkEncbuf (eb_str w ++ s) (lheads w ++ (shift (Zlen (eb_str w)) <$> hs))
           (lhsize w + (Zlen bs - Zlen s)).
Definition writes (m : W unit) (bs : list byte) : Prop := ∀ w, ∃ w', m w = (w', Val tt) ∧ wrote bs w w'.

Lemma wrote_nil w : wrote [] w w.
Proof.
  exists [], []. split; [constructor|]. destruct w. simpl. rewrite !app_nil_r. f_equal. unfold Zlen. simpl. lia.
Qed.
Lemma wrote_app b1 b2 w w1 w2 : wrote b1 w w1 → wrote b2 w1 w2 → wrote (b1 ++ b2) w w2.
Proof.
  intros (s1 & hs1 & R1 & ->) (s2 & hs2 & R2 & ->). simpl.
  exists (s1 ++ s2), (hs1 ++ (shift (Zlen s1) <$> hs2)). split; [by apply renders_app|].
  rewrite fmap_app, shift_shift, !Zlen_app, !app_assoc. f_equal. lia.
Qed.

Lemma writes_ret : writes (mret tt) [].
Proof. intros w. exists w. split; [done|apply wrote_nil]. Qed.
Lemma writes_bind m1 m2 b1 b2 : writes m1 b1 → writes m2 b2 → writes (m1;; m2) (b1 ++ b2).
Proof.
  intros H1 H2 w. destruct (H1 w) as (w1 & E1 & W1). destruct (H2 w1) as (w2 & E2 & W2).
  exists w2. split; [|by eapply wrote_app]. unfold mbind, M_bind. by rewrite E1.
Qed.
Lemma writes_Write b : writes (eb_Write b) b.
Proof.
  intros w. eexists. split; [done|]. exists b, []. split.
  - apply (renders_str [] [] [] b). constructor.
  - simpl. rewrite app_nil_r. f_equal. lia.
Qed.

Lemma writes_StringHeader n : 0 ≤ n < 2 ^ 64 → writes (encodeStringHeader n) (head 0x80 0xB7 n).
Proof.
  intros Hn. unfold encodeStringHeader, head. case_if; [apply writes_Write|].
  rewrite putint_big_Bytes by lia. apply writes_Write.
Qed.
Lemma writes_encodeString b : Zlen b < 2 ^ 64 → writes (encodeString b) (enc_str b).
Proof.
  intros Hb. unfold encodeString, enc_str. case_if; [apply writes_Write|].
  apply writes_bind; [|apply writes_Write]. apply writes_StringHeader. pose proof (Zlen_nonneg b). lia.
Qed.

(** A list: the header [eb_list] leaves a gap for is filled in by
    [eb_listEnd]. *)
Definition opened (w : encbuf) : encbuf :=
  mkEncbuf (eb_str w) (lheads w ++ [mkListhead (Zlen (eb_str w)) (lhsize w)]) (lhsize w).
Definition enclosed (m : W unit) : W unit := lh ← eb_list; m;; eb_listEnd lh.
Lemma listEnd_wrote payload w w2 : Zlen payload < 2 ^ 64 →
  wrote payload (opened w) w2 →
  ∃ w3, eb_listEnd (length (lheads w)) w2 = (w3, Val tt) ∧ wrote (enc_list payload) w w3.
Proof.
  intros Hlen (s & hs & R & ->). simpl in *. pose proof (Zlen_nonneg payload).
  unfold eb_listEnd. cbn [lheads eb_str lhsize]. unfold eb_size. cbn [lheads eb_str lhsize].
  rewrite <- app_assoc. cbn [app]. rewrite list_lookup_middle by done. cbn [lh_offset lh_size].
  set (size := _ - _ - _). assert (size = Zlen payload) as -> by (subst size; rewrite Zlen_app; lia).
  eexists. split; [done|]. exists s, (mkListhead 0 (Zlen payload) :: hs). split.
  - change s with ([] ++ s). change (mkListhead 0 (Zlen payload) :: hs) with ([mkListhead 0 (Zlen payload)] ++ hs).
    rewrite <- (shift_0 hs). change 0 with (@Zlen byte []) at 2. apply renders_app; [|done].
    unfold enc_list. rewrite <- puthead_head by lia.
    apply (renders_head [] [] []); [constructor|done].
  - rewrite insert_app_r_alt, Nat.sub_diag by done. cbn [app insert list_insert fmap list_fmap].
    f_equal; [unfold shift; simpl; by rewrite Z.add_0_r|].
    unfold enc_list. rewrite Zlen_app, head_length by lia. unfold headsize. lia.
Qed.
Lemma writes_enclosed m payload : Zlen payload < 2 ^ 64 → writes m payload → writes (enclosed m) (enc_list payload).
Proof.
  intros Hlen Hm w. destruct (Hm (opened w)) as (w2 & E2 & W2).
  destruct (listEnd_wrote payload w w2 Hlen W2) as (w3 & E3 & W3).
  exists w3. split; [|done]. unfold enclosed, mbind, M_bind, eb_list. fold (opened w). by rewrite E2.
Qed.
Lemma writes_deferred m payload : Zlen payload < 2 ^ 64 → writes m payload → writes (deferred_list m) (enc_list payload).
Proof.
  intros Hlen Hm w. destruct (writes_enclosed m payload Hlen Hm w) as (w3 & E3 & W3). exists w3. split; [|done].
  rewrite <- E3. unfold deferred_list, enclosed, ended, mbind, M_bind, eb_list. fold (opened w).
  by destruct (Hm (opened w)) as (w2 & -> & _).
Qed.

(** ** The writers *)

Definition write_elems (t : typ) : list value → W unit :=
  fix elems (vs : list value) : W unit :=
    match vs with [] => mret tt | v :: vs => writer t v;; elems vs end.
Fixpoint write_fields (ts : list typ) (vs : list value) {struct vs} : W unit :=
  match vs, ts with
  | v :: vs, t :: ts => writer t v;; write_fields ts vs
  | _, _ => mret tt
  end.
Lemma writer_slice t vs : writer (TSlice t) (VList vs) = deferred_list (write_elems t vs).
Proof. reflexivity. Qed.
Lemma writer_array n t vs : writer (TArray n t) (VList vs) = deferred_list (write_elems t vs).
Proof. reflexivity. Qed.
Lemma writer_tail t vs : writer (TTail t) (VList vs) = write_elems t vs.
Proof. reflexivity. Qed.
Lemma writer_struct ts vs : writer (TStruct ts) (VList vs) = enclosed (write_fields ts vs).
Proof. reflexivity. Qed.

Lemma enc_str_nil : enc_str [] = [Zbyte 0x80].
Proof. reflexivity. Qed.
Lemma enc_list_nil : enc_list [] = [Zbyte 0xC0].
Proof. reflexivity. Qed.

Lemma enc_str_length b : Zlen b ≤ Zlen (enc_str b).
Proof. unfold enc_str. case_if; [lia|]. rewrite Zlen_app. pose proof (Zlen_nonneg (head 128 183 (Zlen b))). lia. Qed.
Lemma enc_list_length b : Zlen b ≤ Zlen (enc_list b).
Proof. unfold enc_list. rewrite Zlen_app. pose proof (Zlen_nonneg (head 192 247 (Zlen b))). lia. Qed.

Lemma writeString_eq b : writeString b = encodeString b.
Proof. reflexivity. Qed.

Lemma big_Bytes_single i : 0 < i < 128 → big_Bytes i = [Zbyte i].
Proof. intros Hi. rewrite (big_Bytes_width i 0); [done|simpl; lia]. Qed.

Lemma Zbyte_small z : 0 ≤ z < 256 → byteZ (Zbyte z) = z.
Proof. intros. by rewrite byteZ_Zbyte, Z.mod_small. Qed.

Lemma big_Bytes_length i : 0 ≤ i < 2 ^ 64 → Zlen (big_Bytes i) ≤ 8.
Proof.
  intros Hi. destruct (decide (i = 0)) as [->|]; [done|].
  destruct (u64_width i ltac:(lia)) as (k & Hk & Hr). rewrite (big_Bytes_width i k Hr).
  unfold Zlen. rewrite length_be_bytes. lia.
Qed.
Lemma head_length_le small large n : 0 ≤ n < 2 ^ 64 → 1 ≤ Zlen (head small large n) ≤ 9.
Proof.
  intros Hn. unfold head. case_if; [unfold Zlen; simpl; lia|].
  pose proof (big_Bytes_length n Hn). pose proof (Zlen_nonneg (big_Bytes n)). unfold Zlen in *. cbn [length]. lia.
Qed.
Lemma enc_length_le b : Zlen b < 2 ^ 64 → Zlen (enc_str b) ≤ Zlen b + 9 ∧ Zlen (enc_list b) ≤ Zlen b + 9.
Proof.
  intros Hb. pose proof (Zlen_nonneg b). pose proof (head_length_le 0x80 0xB7 (Zlen b) ltac:(lia)).
  pose proof (head_length_le 0xC0 0xF7 (Zlen b) ltac:(lia)). unfold enc_str, enc_list. case_if; rewrite ?Zlen_app; lia.
Qed.
Lemma big_Bytes_not_single i : 128 ≤ i < 2 ^ 64 → is_single (big_Bytes i) = false.
Proof.
  intros Hi. destruct (u64_width i ltac:(lia)) as (k & Hk & Hr). rewrite (big_Bytes_width i k Hr).
  destruct k as [|[|k]].
  - simpl. change (256 ^ (Z.of_nat 0 + 1)) with 256 in Hr. rewrite Zbyte_small by lia.
    apply Z.leb_gt. lia.
  - done.
  - pose proof (length_be_bytes (S (S (S k))) i) as Hl.
    by destruct (be_bytes (S (S (S k))) i) as [|? [|? ?]].
Qed.

Lemma writes_writeUint i : 0 ≤ i < 2 ^ 64 → writes (writeUint i) (enc_str (big_Bytes i)).
Proof.
  intros Hi. unfold writeUint. case_if; [subst; apply writes_Write|]. case_if.
  - rewrite big_Bytes_single by lia. unfold enc_str, is_single.
    rewrite Zbyte_small, (proj2 (Z.leb_le i 127)) by lia. apply writes_Write.
  - unfold enc_str. rewrite big_Bytes_not_single by lia. unfold head.
    pose proof (big_Bytes_length i Hi). rewrite (proj2 (Z.ltb_lt _ _)) by lia.
    rewrite putint_big_Bytes by lia. apply writes_Write.
Qed.

Lemma big_Cmp_0 i : big_Cmp i 0 = Z.sgn i.
Proof. unfold big_Cmp. destruct (Z.compare_spec i 0); subst; simpl; lia. Qed.
Lemma writes_writeBigInt i : 0 ≤ i → Zlen (enc_str (big_Bytes i)) < 2 ^ 64 →
  writes (writeBigInt i) (enc_str (big_Bytes i)).
Proof.
  intros Hi Hl. unfold writeBigInt. rewrite big_Cmp_0. case_if; [lia|]. case_if.
  - assert (i = 0) as -> by lia. apply writes_Write.
  - apply writes_encodeString. pose proof (enc_str_length (big_Bytes i)). lia.
Qed.

Lemma writes_nilfunc t : writes (nilfunc t) (enc_nil t).
Proof.
  induction t; cbn [nilfunc enc_nil]; first
    [ done | apply writes_Write | apply writes_ret | by apply writes_encodeString
    | exact (writes_enclosed (mret tt) [] ltac:(done) writes_ret)
    | apply writes_deferred; [done|apply writes_ret] ].
Qed.

(** Every value whose encoding exists is written as its encoding. *)
Definition written (v : value) : Prop :=
  ∀ t bs, shaped t v → enc t v = Some bs → Zlen bs < 2 ^ 64 → writes (writer t v) bs.

Lemma writes_elems t vs bs : Forall written vs → Forall (shaped t) vs →
  mjoin <$> mapM (enc t) vs = Some bs → Zlen bs < 2 ^ 64 → writes (write_elems t vs) bs.
Proof.
  revert bs. induction vs as [|v vs IH]; intros bs HP Hs Hbs Hl; [injection Hbs as <-; apply writes_ret|].
  apply Forall_cons_iff in HP as [Hv HP], Hs as [Hsv Hs]. cbn [mapM] in Hbs.
  destruct (enc t v) as [b|] eqn:Eb; [|done]. destruct (mapM (enc t) vs) as [l|] eqn:El; [|done].
  injection Hbs as <-. change (mjoin (b :: l)) with (b ++ mjoin l) in *. rewrite Zlen_app in Hl.
  pose proof (Zlen_nonneg b). pose proof (Zlen_nonneg (mjoin l)).
  apply writes_bind; [apply Hv; [done|done|lia]|apply IH; [done..|lia]].
Qed.
Lemma writes_fields ts vs bs : Forall written vs → shaped_fields ts vs →
  enc_fields ts vs = Some bs → Zlen bs < 2 ^ 64 → writes (write_fields ts vs) bs.
Proof.
  intros HP. revert ts bs. induction HP as [|v vs Hv _ IH]; intros [|t ts] bs Hs Hbs Hl; try done.
  { injection Hbs as <-. apply writes_ret. }
  destruct Hs as [Hsv Hs]. cbn [enc_fields] in Hbs.
  destruct (enc t v) as [b|] eqn:Eb; [|done]. destruct (enc_fields ts vs) as [l|] eqn:El; [|done].
  injection Hbs as <-. rewrite Zlen_app in Hl. pose proof (Zlen_nonneg b). pose proof (Zlen_nonneg l).
  apply writes_bind; [apply Hv; [done|done|lia]|apply IH; [done..|lia]].
Qed.

Lemma writer_writes v : written v.
Proof.
  induction v as [z|b|z|b|vs IH| |v IH| |t' v IH] using value_ind'; intros t bs Hs Hb Hl;
    destruct t; try done; cbn [enc] in Hb; rewrite ?enc_struct in Hb; try (injection Hb as <-).
  - destruct Hs as [Hz Hbits]. apply writes_writeUint. split; [lia|].
    eapply Z.lt_le_trans; [apply Hz|]. apply Z.pow_le_mono_r; lia.
  - destruct b; apply writes_Write.
  - destruct z as [z|]; [|injection Hb as <-; apply writes_Write].
    destruct (Z.ltb_spec z 0); [done|]. injection Hb as <-. by apply writes_writeBigInt.
  - apply writes_encodeString. pose proof (enc_str_length b). lia.
  - apply writes_encodeString. pose proof (enc_str_length b). lia.
  - apply writes_encodeString. pose proof (enc_str_length b). lia.
  - apply writes_Write.
  - apply fmap_Some in Hb as (p & Hp & ->). pose proof (enc_list_length p). apply shaped_elems in Hs.
    rewrite writer_slice. apply writes_deferred; [lia|]. apply writes_elems; [done..|lia].
  - apply fmap_Some in Hb as (p & Hp & ->). pose proof (enc_list_length p). destruct Hs as [_ Hs%shaped_elems].
    rewrite writer_array. apply writes_deferred; [lia|]. apply writes_elems; [done..|lia].
  - apply fmap_Some in Hb as (p & Hp & ->). pose proof (enc_list_length p).
    rewrite writer_struct. apply writes_enclosed; [lia|]. apply writes_fields; [done..|lia].
  - rewrite writer_tail. apply shaped_elems in Hs. by apply writes_elems.
  - apply writes_nilfunc.
  - apply writes_nilfunc.
  - by apply IH.
  - by apply IH.
  - apply writes_Write.
  - by apply IH.
Qed.

(** ** Putting strings and headers together *)

Lemma toBytes_loop_app str hs1 hs2 out p q :
  toBytes_loop str (hs1 ++ hs2) out p q =
  r ← toBytes_loop str hs1 out p q; let '(out, p, q) := r in toBytes_loop str hs2 out p q.
Proof.
  revert out p q. induction hs1 as [|h hs1 IH]; intros out p q; [done|]. cbn [toBytes_loop app].
  case_if; [done|]. destruct (write_at _ _ _); [|done]. simpl. apply IH.
Qed.

Lemma drop_slice_full {A} (s str2 : list A) (p : nat) : (p ≤ length s)%nat →
  slice (Z.of_nat p) (Zlen s) (s ++ str2) = drop p s.
Proof.
  intros Hp. unfold slice, Zlen. rewrite Nat2Z.id, drop_app_le by done.
  rewrite take_app_le by (rewrite length_drop; lia). apply take_ge. rewrite length_drop. lia.
Qed.

Lemma copy_step (bs0 piece out : list byte) : (length bs0 + length piece ≤ length out)%nat →
  let buf := bs0 ++ drop (length bs0) out in
  take (length bs0) buf ++ go_copy (drop (length bs0) buf) piece = (bs0 ++ piece) ++ drop (length (bs0 ++ piece)) out.
Proof.
  intros Hl buf. subst buf. rewrite take_app_length, drop_app_length. unfold go_copy.
  rewrite length_drop, take_ge, drop_drop, length_app, <- app_assoc by lia. done.
Qed.
Lemma write_step (bs0 enc out : list byte) : (length bs0 + length enc ≤ length out)%nat →
  write_at (Zlen bs0) enc (bs0 ++ drop (length bs0) out) = Some ((bs0 ++ enc) ++ drop (length (bs0 ++ enc)) out).
Proof.
  intros Hl. unfold write_at, Zlen. rewrite length_app, length_drop, (proj2 (Z.leb_le _ _)) by lia.
  rewrite Nat2Z.id, take_app_length. f_equal. rewrite <- app_assoc. f_equal. f_equal.
  rewrite <- Nat2Z.inj_add, Nat2Z.id, drop_app_ge, drop_drop, length_app by lia. f_equal. lia.
Qed.

(** After the headers [hs] the buffer holds what was rendered before the last
    of them, followed by what it held at first. *)
Lemma toBytes_loop_renders s hs bs : renders s hs bs →
  ∀ str2 out, (length bs ≤ length out)%nat →
  ∃ bs0 p, bs = bs0 ++ drop p s ∧ (p ≤ length s)%nat ∧
    toBytes_loop (s ++ str2) hs out 0 0 =
      Some (bs0 ++ drop (length bs0) out, Z.of_nat p, Zlen bs0).
Proof.
  induction 1 as [|s hs bs b _ IH|s hs bs h R IH Ho]; intros str2 out Hout.
  - by exists [], 0%nat.
  - rewrite length_app in Hout. destruct (IH (b ++ str2) out ltac:(lia)) as (bs0 & p & -> & Hp & E).
    exists bs0, p. split_and!.
    + rewrite <- app_assoc. f_equal. by rewrite drop_app_le.
    + rewrite length_app. lia.
    + by rewrite <- app_assoc.
  - rewrite length_app in Hout. destruct (IH str2 out ltac:(lia)) as (bs0 & p & -> & Hp & E).
    rewrite toBytes_loop_app, E. cbn [mbind option_bind]. cbn [toBytes_loop].
    rewrite length_app in Hout.
    assert ((lh_offset h <? Z.of_nat p) || (Zlen (s ++ str2) <? lh_offset h) = false) as ->.
    { rewrite Zlen_app, Ho. pose proof (Zlen_nonneg str2). unfold Zlen in *. apply orb_false_iff. split; lia. }
    rewrite Ho, drop_slice_full by done. set (piece := drop p s) in *.
    assert (Z.min (Zlen (bs0 ++ drop (length bs0) out) - Zlen bs0) (Zlen piece) = Zlen piece) as ->.
    { rewrite Zlen_app. unfold Zlen. rewrite length_drop. lia. }
    replace (Z.to_nat (Zlen bs0)) with (length bs0) by (unfold Zlen; lia). rewrite copy_step by lia.
    replace (Zlen bs0 + Zlen piece) with (Zlen (bs0 ++ piece)) by (rewrite Zlen_app; lia).
    rewrite write_step by (rewrite length_app; lia). cbn [mbind option_bind].
    exists ((bs0 ++ piece) ++ head_encode h), (length s). split_and!; [|lia|].
    + by rewrite drop_all, app_nil_r.
    + do 2 f_equal; [|rewrite !Zlen_app; lia]. f_equal. subst piece. unfold Zlen. rewrite length_drop. lia.
Qed.

Lemma toBytes_renders w bs : renders (eb_str w) (lheads w) bs → lhsize w = Zlen bs - Zlen (eb_str w) →
  toBytes w = Some bs.
Proof.
  intros R Hs. unfold toBytes, eb_size. replace (Zlen (eb_str w) + lhsize w) with (Zlen bs) by lia.
  destruct (toBytes_loop_renders _ _ _ R [] (zeros (Zlen bs))) as (bs0 & p & -> & Hp & E).
  { rewrite length_zeros. unfold Zlen. lia. }
  rewrite app_nil_r in E. rewrite E. cbn [mbind option_bind].
  replace (Z.to_nat (Zlen bs0)) with (length bs0) by (unfold Zlen; lia).
  rewrite Nat2Z.id, copy_step by (rewrite length_zeros, Zlen_app; unfold Zlen; lia).
  f_equal. rewrite (drop_ge (zeros _)), app_nil_r; [done|]. rewrite length_zeros. unfold Zlen. lia.
Qed.

Lemma toWriter_loop_app str hs1 hs2 p :
  toWriter_loop str (hs1 ++ hs2) p =
  r ← toWriter_loop str hs1 p; let '(out1, p) := r in
  r ← toWriter_loop str hs2 p; let '(out2, p) := r in Some (out1 ++ out2, p).
Proof.
  revert p. induction hs1 as [|h hs1 IH]; intros p; cbn [toWriter_loop app].
  - cbn [mbind option_bind]. by destruct (toWriter_loop str hs2 p) as [[]|].
  - case_if; [done|]. rewrite IH. destruct (toWriter_loop str hs1 _) as [[o1 p1]|]; [|done].
    cbn [mbind option_bind]. destruct (toWriter_loop str hs2 p1) as [[o2 p2]|]; [|done].
    cbn [mbind option_bind]. by rewrite <- !app_assoc.
Qed.
Lemma toWriter_loop_renders s hs bs : renders s hs bs → ∀ str2, ∃ bs0 p,
  bs = bs0 ++ drop p s ∧ (p ≤ length s)%nat ∧ toWriter_loop (s ++ str2) hs 0 = Some (bs0, Z.of_nat p).
Proof.
  induction 1 as [|s hs bs b _ IH|s hs bs h R IH Ho]; intros str2.
  - by exists [], 0%nat.
  - destruct (IH (b ++ str2)) as (bs0 & p & -> & Hp & E). exists bs0, p. split_and!.
    + rewrite <- app_assoc. f_equal. by rewrite drop_app_le.
    + rewrite length_app. lia.
    + by rewrite <- app_assoc.
  - destruct (IH str2) as (bs0 & p & -> & Hp & E). rewrite toWriter_loop_app, E. cbn [mbind option_bind toWriter_loop].
    rewrite Ho. rewrite (proj2 (Z.ltb_ge _ _)) by (rewrite Zlen_app; pose proof (Zlen_nonneg str2); lia).
    assert ((if Zlen s - Z.of_nat p >? 0 then slice (Z.of_nat p) (Zlen s) (s ++ str2) else []) = drop p s) as ->.
    { case_if; [by apply drop_slice_full|]. symmetry. apply drop_ge. unfold Zlen in *. lia. }
    cbn [mbind option_bind]. exists (bs0 ++ drop p s ++ head_encode h), (length s). split_and!; [|lia|].
    + by rewrite drop_all, app_nil_r, app_assoc.
    + rewrite app_nil_r. do 2 f_equal. unfold Zlen. rewrite length_drop. lia.
Qed.
Lemma toWriter_renders w bs : renders (eb_str w) (lheads w) bs → toWriter w = Some bs.
Proof.
  intros R. unfold toWriter. destruct (toWriter_loop_renders _ _ _ R []) as (bs0 & p & -> & Hp & E).
  rewrite app_nil_r in E. rewrite E. cbn [mbind option_bind]. f_equal. f_equal. rewrite Nat2Z.id.
  case_if; [done|]. symmetry. apply drop_ge. unfold Zlen in *. lia.
Qed.

(** ** Values without an encoding *)

(** [runs m ok]: [m] returns, with an error exactly when not [ok], and forgets
    no list header. *)
Definition runs (m : W unit) (ok : bool) : Prop := ∀ w, ∃ w',
  m w = (w', if ok then Val tt else Err errNegativeBigInt) ∧ (length (lheads w) ≤ length (lheads w'))%nat.
Definition some {A} (o : option A) : bool := match o with Some _ => true | None => false end.

Lemma runs_bind m1 m2 ok1 ok2 : runs m1 ok1 → runs m2 ok2 → runs (m1;; m2) (ok1 && ok2).
Proof.
  intros H1 H2 w. destruct (H1 w) as (w1 & E1 & L1). unfold mbind, M_bind. rewrite E1. destruct ok1; [|by exists w1].
  destruct (H2 w1) as (w2 & E2 & L2). exists w2. split; [done|lia].
Qed.
Lemma runs_ret : runs (mret tt) true.
Proof. intros w. by exists w. Qed.
Lemma runs_Write b : runs (eb_Write b) true.
Proof. intros w. by eexists. Qed.
Lemma runs_encodeString b : runs (encodeString b) true.
Proof.
  unfold encodeString. case_if; [apply runs_Write|]. apply (runs_bind _ _ true true); [|apply runs_Write].
  unfold encodeStringHeader. case_if; apply runs_Write.
Qed.
Lemma runs_listEnd w1 w2 : (length (lheads (opened w1)) ≤ length (lheads w2))%nat →
  ∃ w3, eb_listEnd (length (lheads w1)) w2 = (w3, Val tt) ∧ (length (lheads w1) ≤ length (lheads w3))%nat.
Proof.
  intros Hl. unfold opened in Hl. simpl in Hl. rewrite length_app in Hl. simpl in Hl.
  unfold eb_listEnd. destruct (lheads w2 !! length (lheads w1)) eqn:E.
  - eexists. split; [done|]. simpl. rewrite length_insert. lia.
  - apply lookup_ge_None in E. lia.
Qed.
Lemma runs_enclosed m ok : runs m ok → runs (enclosed m) ok.
Proof.
  intros Hm w. destruct (Hm (opened w)) as (w2 & E2 & L2).
  unfold enclosed, mbind, M_bind, eb_list. fold (opened w). rewrite E2. destruct ok.
  - by apply runs_listEnd.
  - exists w2. split; [done|]. unfold opened in L2. simpl in L2. rewrite length_app in L2. lia.
Qed.
Lemma runs_deferred m ok : runs m ok → runs (deferred_list m) ok.
Proof.
  intros Hm w. destruct (Hm (opened w)) as (w2 & E2 & L2).
  unfold deferred_list, ended, mbind, M_bind, eb_list. fold (opened w). rewrite E2.
  destruct (runs_listEnd w w2 L2) as (w3 & E3 & L3). destruct ok; rewrite E3; by exists w3.
Qed.
Lemma runs_nilfunc t : runs (nilfunc t) true.
Proof.
  induction t; cbn [nilfunc]; first
    [ done | apply runs_Write | apply runs_ret | apply runs_encodeString
    | exact (runs_enclosed (mret tt) true runs_ret)
    | apply runs_deferred, runs_ret ].
Qed.
Lemma runs_writeUint i : runs (writeUint i) true.
Proof. unfold writeUint. repeat case_if; apply runs_Write. Qed.

Definition run_ok (v : value) : Prop := ∀ t, shaped t v → runs (writer t v) (some (enc t v)).
Lemma runs_elems t vs : Forall run_ok vs → Forall (shaped t) vs →
  runs (write_elems t vs) (some (mapM (enc t) vs)).
Proof.
  induction vs as [|v vs IH]; intros HP Hs; [apply runs_ret|].
  apply Forall_cons_iff in HP as [Hv HP], Hs as [Hsv Hs].
  replace (some (mapM (enc t) (v :: vs))) with (some (enc t v) && some (mapM (enc t) vs)).
  - apply runs_bind; auto.
  - cbn [mapM]. destruct (enc t v); [|done]. by destruct (mapM (enc t) vs).
Qed.
Lemma runs_fields ts vs : Forall run_ok vs → shaped_fields ts vs →
  runs (write_fields ts vs) (some (enc_fields ts vs)).
Proof.
  intros HP. revert ts. induction HP as [|v vs Hv _ IH]; intros [|t ts] Hs; try done; [apply runs_ret|].
  destruct Hs as [Hsv Hs].
  replace (some (enc_fields (t :: ts) (v :: vs))) with (some (enc t v) && some (enc_fields ts vs)).
  - apply runs_bind; auto.
  - cbn [enc_fields]. destruct (enc t v); [|done]. by destruct (enc_fields ts vs).
Qed.
Lemma some_fmap {A B} (f : A → B) (o : option A) : some (f <$> o) = some o.
Proof. by destruct o. Qed.
Lemma writer_runs v : run_ok v.
Proof.
  induction v as [z|b|z|b|vs IH| |v IH| |t' v IH] using value_ind'; intros t Hs;
    destruct t; try done; cbn [enc]; rewrite ?some_fmap.
  - apply runs_writeUint.
  - apply runs_Write.
  - destruct z as [z|]; [|apply runs_Write]. cbn [writer writeBigIntPtr]. unfold writeBigInt. rewrite big_Cmp_0.
    destruct (Z.ltb_spec z 0).
    + rewrite (proj2 (Z.eqb_eq (Z.sgn z) (-1))) by lia. intros w. by exists w.
    + rewrite (proj2 (Z.eqb_neq (Z.sgn z) (-1))) by lia. case_if; [apply runs_Write|apply runs_encodeString].
  - apply runs_encodeString.
  - apply runs_encodeString.
  - apply runs_encodeString.
  - apply runs_Write.
  - apply shaped_elems in Hs. rewrite writer_slice. by apply runs_deferred, runs_elems.
  - destruct Hs as [_ Hs%shaped_elems]. rewrite writer_array. by apply runs_deferred, runs_elems.
  - rewrite writer_struct. by apply runs_enclosed, runs_fields.
  - apply shaped_elems in Hs. rewrite writer_tail. by apply runs_elems.
  - apply runs_nilfunc.
  - apply runs_nilfunc.
  - by apply IH.
  - by apply IH.
  - apply runs_Write.
  - by apply IH.
Qed.

(** ** Encoding a value *)

Lemma encode_with_enc finish t v bs : shaped t v → enc t v = Some bs → Zlen bs < 2 ^ 64 →
  (∀ w, renders (eb_str w) (lheads w) bs → lhsize w = Zlen bs - Zlen (eb_str w) → finish w = Some bs) →
  encode_with finish t v = Val bs.
Proof.
  intros Hs He Hl Hf. destruct (writer_writes v t bs Hs He Hl new_encbuf) as (w & E & s & hs & R & ->).
  unfold encode_with. rewrite E. cbn [eb_str lheads lhsize new_encbuf app] in *.
  change (Zlen []) with 0. rewrite shift_0, Z.add_0_l. by rewrite Hf.
Qed.
Lemma encode_with_none finish t v : shaped t v → enc t v = None → encode_with finish t v = Err errNegativeBigInt.
Proof.
  intros Hs He. destruct (writer_runs v t Hs new_encbuf) as (w & E & _). unfold encode_with. rewrite E, He. done.
Qed.
Lemma Encode_ok t v bs : shaped t v → enc t v = Some bs → Zlen bs < 2 ^ 63 → EncodeToBytes t v = Val bs ∧ Encode t v = Val bs.
Proof.
  intros Hs He Hl. split; (apply encode_with_enc; [done|done|lia|]); intros w R Hw; [by apply toBytes_renders|by apply toWriter_renders].
Qed.
