(* ===== verification/RlpDecode.v ===== *)
(** * RLP: the decoder

    [src/common/rlp/decode.go]: the [Stream], a state machine over the input
    with a stack of enclosing lists, and the decoders [makeDecoder] builds for
    a type; and the splitting functions of [raw.go].  The input is a
    [bytes.Reader], as in [DecodeBytes]: [s_r] is what is left of it.  Decoders
    fill a fresh zero value. *)

From stdpp Require Import base tactics list numbers.
From S2P Require Import Prelude RlpEncode.

#[local] Open Scope Z_scope.

Module rlpd.
Import rlp.

Inductive Kind : Type := Byte | String | List.
#[global] Instance Kind_eq_dec : EqDecision Kind.
Proof. solve_decision. Defined.

(** ** Stream

    [s_kind] is [None] for -1, when the next value has not been looked at.  The
    head of [s_stack] is the innermost list. *)
Record listpos : Type := mkListpos { lp_pos : Z; lp_size : Z }.
Record Stream : Type := mkStream {
  s_r : list byte;
  s_remaining : Z;
  s_limited : bool;
  s_kind : option Kind;
  s_size : Z;
  s_byteval : byte;
  s_kinderr : option rlp_error;
  s_stack : list listpos }.

Definition set_r (r : list byte) (s : Stream) : Stream :=
  mkStream r (s_remaining s) (s_limited s) (s_kind s) (s_size s) (s_byteval s) (s_kinderr s) (s_stack s).
Definition set_remaining (n : Z) (s : Stream) : Stream :=
  mkStream (s_r s) n (s_limited s) (s_kind s) (s_size s) (s_byteval s) (s_kinderr s) (s_stack s).
Definition set_kind (k : option Kind) (s : Stream) : Stream :=
  mkStream (s_r s) (s_remaining s) (s_limited s) k (s_size s) (s_byteval s) (s_kinderr s) (s_stack s).
Definition set_size (n : Z) (s : Stream) : Stream :=
  mkStream (s_r s) (s_remaining s) (s_limited s) (s_kind s) n (s_byteval s) (s_kinderr s) (s_stack s).
Definition set_byteval (b : byte) (s : Stream) : Stream :=
  mkStream (s_r s) (s_remaining s) (s_limited s) (s_kind s) (s_size s) b (s_kinderr s) (s_stack s).
Definition set_kinderr (e : option rlp_error) (s : Stream) : Stream :=
  mkStream (s_r s) (s_remaining s) (s_limited s) (s_kind s) (s_size s) (s_byteval s) e (s_stack s).
Definition set_stack (l : list listpos) (s : Stream) : Stream :=
  mkStream (s_r s) (s_remaining s) (s_limited s) (s_kind s) (s_size s) (s_byteval s) (s_kinderr s) l.

Abbreviation D := (M Stream rlp_error).

(** [NewStream(bytes.NewReader(b), uint64(len(b)))]: without a limit of its
    own the stream takes the length of the reader. *)
Definition NewStream (b : list byte) (inputLimit : Z) : Stream :=
  mkStream b (if inputLimit >? 0 then inputLimit else Zlen b) true None 0 Byte.x00 None [].

(** A call whose error is looked at before it is passed on. *)
Definition attempt {A} (m : D A) : D (rlp_error + A) := λ s,
  match m s with
  | (s, Val a) => (s, Val (inr a))
  | (s, Err e) => (s, Val (inl e))
  | (s, Panic) => (s, Panic)
  | (s, NoFuel) => (s, NoFuel)
  end.

Definition willRead (n : Z) : D unit :=
  modify (set_kind None);;
  stack ← gets s_stack;
  match stack with
  | [] => mret tt
  | tos :: rest =>
      if n >? u64 (lp_size tos - lp_pos tos) then fail ErrElemTooLarge
      else modify (set_stack (mkListpos (u64 (lp_pos tos + n)) (lp_size tos) :: rest))
  end;;
  limited ← gets s_limited;
  if limited : bool then
    remaining ← gets s_remaining;
    if n >? remaining then fail ErrValueTooLarge
    else modify (set_remaining (u64 (remaining - n)))
  else mret tt.

Definition readByte : D byte :=
  willRead 1;;
  r ← gets s_r;
  match r with
  | [] => fail io_ErrUnexpectedEOF
  | b :: r => modify (set_r r);; mret b
  end.

(** [readFull] into a buffer of [n] bytes: the loop of reads ends with the
    buffer full or the reader empty. *)
Definition readFull (n : Z) : D (list byte) :=
  willRead n;;
  r ← gets s_r;
  modify (set_r (drop (Z.to_nat n) r));;
  if Zlen r <? n then fail io_ErrUnexpectedEOF
  else mret (take (Z.to_nat n) r).

(** [s.uintbuf\[start:\]] panics for more than eight bytes. *)
Definition readUint (size : Z) : D Z :=
  if size =? 0 then modify (set_kind None);; mret 0
  else if size =? 1 then b ← readByte; mret (byteZ b)
  else if size >? 8 then panic
  else
    b ← readFull size;
    match b with
    | [] => panic
    | b0 :: _ => if byteZ b0 =? 0 then fail ErrCanonSize else mret (SetBytes b)
    end.

(** A header with a separate size; the error is a result, next to kind and
    size. *)
Definition readSizedKind (k : Kind) (sizesize : Z) : D (Kind * Z * option rlp_error) :=
  r ← attempt (readUint sizesize);
  mret match r with
       | inl e => (k, 0, Some e)
       | inr size => (k, size, if size <? 56 then Some ErrCanonSize else None)
       end.

Definition readKind : D (Kind * Z * option rlp_error) :=
  r ← attempt readByte;
  match r with
  | inl err =>
      stack ← gets s_stack;
      mret (Byte, 0, Some
        match stack, err with
        | [], io_ErrUnexpectedEOF | [], ErrValueTooLarge => io_EOF
        | _, _ => err
        end)
  | inr b =>
      modify (set_byteval Byte.x00);;
      let b' := byteZ b in
      if b' <? 0x80 then modify (set_byteval b);; mret (Byte, 0, None)
      else if b' <? 0xB8 then mret (String, b' - 0x80, None)
      else if b' <? 0xC0 then readSizedKind String (b' - 0xB7)
      else if b' <? 0xF8 then mret (List, b' - 0xC0, None)
      else readSizedKind List (b' - 0xF7)
  end.

(** [Kind]: [tos] is a pointer to the innermost list, so the bytes [readKind]
    takes count when the size is checked. *)
Definition look : D unit :=
  kse ← readKind;
  let '(k, size, err) := kse in
  modify (λ s, set_kinderr err (set_size size (set_kind (Some k) s)));;
  match err with
  | Some _ => mret tt
  | None =>
      s ← gets (λ s, s);
      match s_stack s with
      | [] => if s_limited s && (size >? s_remaining s) then modify (set_kinderr (Some ErrValueTooLarge)) else mret tt
      | tos :: _ => if size >? u64 (lp_size tos - lp_pos tos) then modify (set_kinderr (Some ErrElemTooLarge)) else mret tt
      end
  end.
Definition look_ahead : D unit :=
  kind ← gets s_kind;
  match kind with
  | Some _ => mret tt
  | None =>
      modify (set_kinderr None);;
      stack ← gets s_stack;
      match stack with
      | tos :: _ => if lp_pos tos =? lp_size tos then fail EOL else look
      | [] => look
      end
  end.
Definition Kind_ : D (Kind * Z) :=
  look_ahead;;
  s ← gets (λ s, s);
  match s_kinderr s, s_kind s with
  | Some e, _ => fail e
  | None, Some k => mret (k, s_size s)
  | None, None => panic
  end.

Definition rearm : D unit := modify (set_kind None).

Definition Bytes : D (list byte) :=
  ks ← Kind_;
  match ks with
  | (Byte, _) => rearm;; b ← gets s_byteval; mret [b]
  | (String, size) =>
      b ← readFull size;
      match b with
      | [x] => if byteZ x <? 128 then fail ErrCanonSize else mret b
      | _ => mret b
      end
  | (List, _) => fail ErrExpectedString
  end.

(** [puthead] overwrites the first bytes of the buffer the content was read
    into. *)
Definition Raw : D (list byte) :=
  ks ← Kind_;
  match ks with
  | (Byte, _) => rearm;; b ← gets s_byteval; mret [b]
  | (k, size) =>
      content ← readFull size;
      let buf := zeros (headsize size) ++ content in
      or_panic (write_at 0 (match k with
                            | String => puthead 0x80 0xB7 size
                            | _ => puthead 0xC0 0xF7 size
                            end) buf)
  end.

Definition uint (maxbits : Z) : D Z :=
  ks ← Kind_;
  match ks with
  | (Byte, _) =>
      b ← gets s_byteval;
      if byteZ b =? 0 then fail ErrCanonInt else rearm;; mret (byteZ b)
  | (String, size) =>
      if size >? maxbits / 8 then fail errUintOverflow
      else
        r ← attempt (readUint size);
        match r with
        | inl ErrCanonSize => fail ErrCanonInt
        | inl e => fail e
        | inr v => if (size >? 0) && (v <? 128) then fail ErrCanonSize else mret v
        end
  | (List, _) => fail ErrExpectedString
  end.
Definition Uint : D Z := uint 64.
Definition Bool : D bool :=
  num ← uint 8;
  if num =? 0 then mret false else if num =? 1 then mret true else fail errInvalidBool.

Definition List_ : D Z :=
  ks ← Kind_;
  match ks with
  | (List, size) =>
      modify (λ s, set_size 0 (set_kind None (set_stack (mkListpos 0 size :: s_stack s) s)));;
      mret size
  | _ => fail ErrExpectedList
  end.
Definition ListEnd : D unit :=
  stack ← gets s_stack;
  match stack with
  | [] => fail errNotInList
  | tos :: rest =>
      if negb (lp_pos tos =? lp_size tos) then fail errNotAtEOL
      else
        let stack := match rest with
                     | [] => []
                     | up :: rest => mkListpos (u64 (lp_pos up + lp_size tos)) (lp_size up) :: rest
                     end in
        modify (λ s, set_size 0 (set_kind None (set_stack stack s)))
  end.

(** ** Decoders *)

Definition wrapStreamError (err : rlp_error) : rlp_error :=
  match err with
  | ErrCanonInt => decodeError MsgCanonInt
  | ErrCanonSize => decodeError MsgCanonSize
  | ErrExpectedList => decodeError MsgExpectedList
  | ErrExpectedString => decodeError MsgExpectedString
  | errUintOverflow => decodeError MsgUintOverflow
  | errNotAtEOL => decodeError MsgNotAtEOL
  | err => err
  end.
Definition wrapped {A} (m : D A) : D A :=
  r ← attempt m; match r with inl e => fail (wrapStreamError e) | inr a => mret a end.

Definition decodeUint (bits : Z) : D value := n ← wrapped (uint bits); mret (VUint n).
Definition decodeBool : D value := b ← wrapped Bool; mret (VBool b).
Definition decodeString : D value := b ← wrapped Bytes; mret (VBytes b).
Definition decodeByteSlice : D value := b ← wrapped Bytes; mret (VBytes b).
Definition decodeRawValue : D value := b ← Raw; mret (VBytes b).
Definition decodeBigInt : D value :=
  b ← wrapped Bytes;
  match b with
  | Byte.x00 :: _ => fail (wrapStreamError ErrCanonInt)
  | _ => mret (VBig (Some (SetBytes b)))
  end.

(** The error of [s.Uint()] is dropped. *)
Definition decodeByteArray (vlen : Z) : D value :=
  ks ← Kind_;
  match ks with
  | (Byte, _) =>
      if vlen =? 0 then fail (decodeError MsgTooLong)
      else if vlen >? 1 then fail (decodeError MsgTooShort)
      else
        bv ← attempt Uint;
        mret (VBytes [Zbyte (match bv with inl _ => 0 | inr v => v end)])
  | (String, size) =>
      if vlen <? size then fail (decodeError MsgTooLong)
      else if vlen >? size then fail (decodeError MsgTooShort)
      else
        slice ← readFull vlen;
        match slice with
        | [x] => if (size =? 1) && (byteZ x <? 128) then fail (wrapStreamError ErrCanonSize) else mret (VBytes slice)
        | _ => mret (VBytes slice)
        end
  | (List, _) => fail (wrapStreamError ErrExpectedString)
  end.

(** [decodeSliceElems]: reads elements until the end of the list. *)
Fixpoint elems_loop {A} (elemdec : D A) (fuel : nat) (acc : list A) : D (list A) :=
  match fuel with
  | O => λ s, (s, NoFuel)
  | S fuel' =>
      r ← attempt elemdec;
      match r with
      | inl EOL => mret acc
      | inl e => fail e
      | inr v => elems_loop elemdec fuel' (acc ++ [v])
      end
  end.
(** Every element takes at least a byte of the input. *)
Definition decodeSliceElems {A} (elemdec : D A) : D (list A) := λ s,
  elems_loop elemdec (S (length (s_r s))) [] s.

Definition decodeListSlice {A} (elemdec : D A) : D (list A) :=
  size ← wrapped List_;
  if size =? 0 then ListEnd;; mret []
  else
    vs ← decodeSliceElems elemdec;
    ListEnd;; mret vs.

Fixpoint array_loop (elemdec : D value) (n : nat) (acc : list value) : D (list value) :=
  match n with
  | O => mret acc
  | S n' =>
      r ← attempt elemdec;
      match r with
      | inl EOL => fail (decodeError MsgTooFew)
      | inl e => fail e
      | inr v => array_loop elemdec n' (acc ++ [v])
      end
  end.
Definition decodeListArray (vlen : Z) (elemdec : D value) : D (list value) :=
  wrapped List_;;
  vs ← array_loop elemdec (Z.to_nat vlen) [];
  wrapped ListEnd;; mret vs.

(** [decodeInterface] recurses into lists, at most as deep as the input is
    long. *)
Fixpoint decodeInterface_loop (fuel : nat) : D value :=
  match fuel with
  | O => λ s, (s, NoFuel)
  | S fuel' =>
      ks ← Kind_;
      match ks with
      | (List, _) =>
          vs ← decodeListSlice (decodeInterface_loop fuel');
          mret (VInterface (Some (TSlice TInterface, VList vs)))
      | _ => b ← Bytes; mret (VInterface (Some (TBytes, VBytes b)))
      end
  end.
Definition decodeInterface : D value := λ s, decodeInterface_loop (S (S (length (s_r s)))) s.

Definition optional_ptr (dec : D value) : D value :=
  r ← attempt Kind_;
  match r with
  | inl e => rearm;; fail e
  | inr (k, size) =>
      if (size =? 0) && negb (bool_decide (k = Byte)) then rearm;; mret (VPtr None)
      else v ← dec; mret (VPtr (Some v))
  end.

(** [makeDecoder]. *)
Fixpoint decoder (t : typ) : D value :=
  match t with
  | TRaw => decodeRawValue
  | TBigInt => decodeBigInt
  | TUint bits => decodeUint bits
  | TBool => decodeBool
  | TString => decodeString
  | TByteArray n => decodeByteArray n
  | TBytes => decodeByteSlice
  | TArray n t => vs ← decodeListArray n (decoder t); mret (VList vs)
  | TTail t => vs ← decodeSliceElems (decoder t); mret (VList vs)
  | TSlice t => vs ← decodeListSlice (decoder t); mret (VList vs)
  | TStruct ts =>
      wrapped List_;;
      vs ← (fix fields (ts : list typ) : D (list value) :=
              match ts with
              | [] => mret []
              | t :: ts =>
                  r ← attempt (decoder t);
                  match r with
                  | inl EOL => fail (decodeError MsgTooFew)
                  | inl e => fail e
                  | inr v => vs ← fields ts; mret (v :: vs)
                  end
              end) ts;
      wrapped ListEnd;; mret (VList vs)
  | TOptPtr t => optional_ptr (decoder t)
  | TPtr t => v ← decoder t; mret (VPtr (Some v))
  | TInterface => decodeInterface
  end.

(** [DecodeBytes]: exactly one value. *)
Definition DecodeBytes (b : list byte) (t : typ) : outcome rlp_error value :=
  match decoder t (NewStream b (Zlen b)) with
  | (s, Val v) => if Zlen (s_r s) >? 0 then Err ErrMoreThanOneValue else Val v
  | (_, o) => o
  end.

End rlpd.
