(* ===== verification/RlpStream.v ===== *)
(** * RLP: the stream

    The invariant of a [Stream] over a byte slice, and what its primitives do
    in terms of it: [skip n s] is [s] after [n] bytes were taken. *)

From stdpp Require Import base tactics list numbers.
From S2P Require Import Prelude RlpEncode RlpEncodeFacts RlpDecode.

#[local] Open Scope Z_scope.
Import rlp rlpd.

(** ** Invariant

    [fits rem k stack]: the innermost list has [size - pos - k] bytes left,
    which the input has; when it is finished its size counts for the list
    around it. *)
Fixpoint fits (rem k : Z) (stack : list listpos) : Prop :=
  match stack with
  | [] => 0 ≤ rem
  | tos :: rest =>
      0 ≤ lp_pos tos ∧ 0 ≤ k ∧ lp_pos tos + k ≤ lp_size tos < 2 ^ 63 ∧
      fits (rem - (lp_size tos - lp_pos tos - k)) (lp_size tos) rest
  end.
Record good (s : Stream) : Prop := {
  g_limited : s_limited s = true;
  g_remaining : s_remaining s = Zlen (s_r s);
  g_len : Zlen (s_r s) < 2 ^ 63;
  g_stack : fits (Zlen (s_r s)) 0 (s_stack s) }.
Definition ready (s : Stream) : Prop := good s ∧ s_kind s = None.

(** The bytes a value may take. *)
Definition avail (s : Stream) : Z :=
  match s_stack s with [] => Zlen (s_r s) | tos :: _ => lp_size tos - lp_pos tos end.
Definition at_end (s : Stream) : Prop := s_stack s ≠ [] ∧ avail s = 0.

Definition adv (n : Z) (stack : list listpos) : list listpos :=
  match stack with
  | [] => []
  | tos :: rest => mkListpos (lp_pos tos + n) (lp_size tos) :: rest
  end.
Definition skip (n : Z) (s : Stream) : Stream :=
  mkStream (drop (Z.to_nat n) (s_r s)) (s_remaining s - n) (s_limited s) None (s_size s) (s_byteval s)
    (s_kinderr s) (adv n (s_stack s)).

(** [s'] is [s] after [n] bytes, up to what is left over from the last header. *)
Record after (n : Z) (s s' : Stream) : Prop := {
  af_r : s_r s' = drop (Z.to_nat n) (s_r s);
  af_remaining : s_remaining s' = s_remaining s - n;
  af_limited : s_limited s' = s_limited s;
  af_kind : s_kind s' = None;
  af_stack : s_stack s' = adv n (s_stack s) }.

Lemma fits_nonneg rem k stack : fits rem k stack → 0 ≤ rem.
Proof. revert rem k. induction stack as [|tos rest IH]; intros rem k; [done|]. intros (? & ? & ? & H%IH). lia. Qed.
Lemma fits_adv rem n stack : 0 ≤ n → fits rem 0 stack →
  (match stack with [] => n ≤ rem | tos :: _ => n ≤ lp_size tos - lp_pos tos end) →
  fits (rem - n) 0 (adv n stack).
Proof.
  destruct stack as [|tos rest]; simpl; intros; [lia|]. destruct H0 as (? & ? & ? & H3). split_and!; try lia.
  eapply (eq_ind _ (λ x, fits x _ _)); [exact H3|]. lia.
Qed.

Lemma avail_le s : good s → 0 ≤ avail s ≤ Zlen (s_r s).
Proof.
  intros [_ _ _ Hf]. unfold avail. destruct (s_stack s) as [|tos rest]; [pose proof (Zlen_nonneg (s_r s)); lia|].
  destruct Hf as (? & ? & ? & ?%fits_nonneg). lia.
Qed.
Lemma Zlen_drop {A} n (l : list A) : 0 ≤ n ≤ Zlen l → Zlen (drop (Z.to_nat n) l) = Zlen l - n.
Proof. unfold Zlen. rewrite length_drop. lia. Qed.

Lemma after_good n s s' : good s → 0 ≤ n ≤ avail s → after n s s' → ready s'.
Proof.
  intros Hg Hn []. pose proof (avail_le s Hg) as Ha. destruct Hg as [Hl Hr Hlen Hf]. split; [|done].
  assert (Zlen (s_r s') = Zlen (s_r s) - n) as E by (rewrite af_r0; apply Zlen_drop; lia).
  split; [congruence|lia|lia|]. rewrite E, af_stack0. apply fits_adv; [lia|done|].
  unfold avail in Hn. by destruct (s_stack s); lia.
Qed.
Lemma after_avail n s s' : good s → 0 ≤ n ≤ avail s → after n s s' → avail s' = avail s - n.
Proof.
  intros Hg Hn []. pose proof (avail_le s Hg). unfold avail in *. rewrite af_stack0. destruct (s_stack s); simpl; [|lia].
  rewrite af_r0, Zlen_drop; lia.
Qed.
Lemma after_nonempty n s s' : after n s s' → s_stack s' ≠ [] ↔ s_stack s ≠ [].
Proof. intros []. rewrite af_stack0. by destruct (s_stack s). Qed.
Lemma after_skip n s : after n s (skip n s).
Proof. by split. Qed.
Lemma adv_adv n m stack : adv m (adv n stack) = adv (n + m) stack.
Proof. destruct stack; simpl; [done|]. do 2 f_equal. lia. Qed.
Lemma after_trans n m s1 s2 s3 : 0 ≤ n → 0 ≤ m → after n s1 s2 → after m s2 s3 → after (n + m) s1 s3.
Proof.
  intros Hn Hm [] []. split; [|lia|congruence|done|].
  - rewrite af_r1, af_r0, drop_drop. f_equal. lia.
  - by rewrite af_stack1, af_stack0, adv_adv.
Qed.
Lemma after_0 s s' : s_r s' = s_r s → s_remaining s' = s_remaining s → s_limited s' = s_limited s →
  s_kind s' = None → s_stack s' = s_stack s → after 0 s s'.
Proof.
  intros. split; [done|lia|done|done|]. rewrite H3. destruct (s_stack s) as [|[] ]; simpl; [done|].
  by rewrite Z.add_0_r.
Qed.

(** ** Reading bytes *)

Lemma u64_id z : 0 ≤ z < 2 ^ 64 → u64 z = z.
Proof. apply u64_small. Qed.

Definition took (n : Z) (s : Stream) : Stream :=
  mkStream (s_r s) (s_remaining s - n) (s_limited s) None (s_size s) (s_byteval s) (s_kinderr s) (adv n (s_stack s)).

Lemma willRead_ok n s : good s → 0 ≤ n ≤ avail s → willRead n s = (took n s, Val tt).
Proof.
  intros Hg Hn. pose proof (avail_le s Hg) as Ha. destruct Hg as [Hl Hr Hlen Hf].
  destruct s as [r rem lim k sz bv ke stack]. unfold avail in *. cbn in *. subst lim rem.
  unfold willRead, mbind, M_bind, gets, modify, took. cbn. destruct stack as [|tos rest]; cbn.
  - rewrite Z.gtb_ltb, (proj2 (Z.ltb_ge _ _)) by lia. cbn. by rewrite u64_id by lia.
  - cbn in Hf. destruct Hf as (? & ? & ? & _). rewrite u64_id, Z.gtb_ltb, (proj2 (Z.ltb_ge _ _)) by lia. cbn.
    rewrite Z.gtb_ltb, (proj2 (Z.ltb_ge _ _)) by lia. cbn. by rewrite !u64_id by lia.
Qed.
Lemma willRead_err n s : good s → avail s < n → ∃ e, willRead n s = (set_kind None s, Err e) ∧ e ≠ EOL.
Proof.
  intros Hg Hn. pose proof (avail_le s Hg) as Ha. destruct Hg as [Hl Hr Hlen Hf].
  destruct s as [r rem lim k sz bv ke stack]. unfold avail in *. cbn in *. subst lim rem.
  unfold willRead, mbind, M_bind, gets, modify. cbn. destruct stack as [|tos rest]; cbn.
  - rewrite Z.gtb_ltb, (proj2 (Z.ltb_lt _ _)) by lia. by exists ErrValueTooLarge.
  - cbn in Hf. destruct Hf as (? & ? & ? & _). rewrite u64_id, Z.gtb_ltb, (proj2 (Z.ltb_lt _ _)) by lia.
    by exists ErrElemTooLarge.
Qed.

Lemma readByte_ok s b r : good s → s_r s = b :: r → 1 ≤ avail s → readByte s = (skip 1 s, Val b).
Proof.
  intros Hg Hr Ha. unfold readByte, mbind, M_bind. rewrite willRead_ok by (done || lia).
  unfold gets, modify, skip. cbn [s_r took]. by rewrite Hr.
Qed.
Lemma readFull_ok n s : good s → 0 ≤ n ≤ avail s → readFull n s = (skip n s, Val (take (Z.to_nat n) (s_r s))).
Proof.
  intros Hg Hn. pose proof (avail_le s Hg). unfold readFull, mbind, M_bind. rewrite willRead_ok by done.
  unfold gets, modify. cbn [s_r took]. by rewrite (proj2 (Z.ltb_ge _ _)) by lia.
Qed.
Lemma readByte_err s : good s → avail s < 1 → ∃ e s', readByte s = (s', Err e) ∧ e ≠ EOL.
Proof.
  intros Hg Ha. destruct (willRead_err 1 s Hg Ha) as (e & E & He). exists e, (set_kind None s). split; [|done].
  unfold readByte, mbind, M_bind. by rewrite E.
Qed.
Lemma readFull_err n s : good s → avail s < n → ∃ e s', readFull n s = (s', Err e) ∧ e ≠ EOL.
Proof.
  intros Hg Ha. destruct (willRead_err n s Hg Ha) as (e & E & He). exists e, (set_kind None s). split; [|done].
  unfold readFull, mbind, M_bind. by rewrite E.
Qed.

(** ** Headers *)

(** [is_head k n b hd]: the bytes [hd] announce a value of kind [k] with [n]
    bytes of content; a single byte is its own header. *)
Inductive is_head : Kind → Z → byte → list byte → Prop :=
| head_byte b : byteZ b < 0x80 → is_head Byte 0 b [b]
| head_string n : 0 ≤ n < 2 ^ 64 → is_head String n Byte.x00 (head 0x80 0xB7 n)
| head_list n : 0 ≤ n < 2 ^ 64 → is_head List n Byte.x00 (head 0xC0 0xF7 n).

Lemma skip_skip n m s : 0 ≤ n → 0 ≤ m → skip m (skip n s) = skip (n + m) s.
Proof.
  intros. unfold skip. cbn. rewrite drop_drop, adv_adv. f_equal; [f_equal; lia|lia].
Qed.
Lemma skip_good n s : good s → 0 ≤ n ≤ avail s → good (skip n s).
Proof. intros Hg Hn. apply (after_good n s (skip n s) Hg Hn (after_skip n s)). Qed.
Lemma skip_avail n s : good s → 0 ≤ n ≤ avail s → avail (skip n s) = avail s - n.
Proof. intros Hg Hn. apply (after_avail n s (skip n s) Hg Hn (after_skip n s)). Qed.

(** The minimal big-endian form of an integer: no leading zero. *)
Definition leads (bs : list byte) : Prop := match bs with [] => True | b :: _ => byteZ b ≠ 0 end.
Lemma SetBytes_lead b bs : byteZ b ≠ 0 → 256 ^ Zlen bs ≤ SetBytes (b :: bs) < 256 ^ (Zlen bs + 1).
Proof.
  intros Hb. change (b :: bs) with ([b] ++ bs). rewrite SetBytes_app.
  change (SetBytes [b]) with (0 * 256 + byteZ b). pose proof (SetBytes_range bs). pose proof (byteZ_range b).
  rewrite Z.pow_add_r by (pose proof (Zlen_nonneg bs); lia). nia.
Qed.
Lemma big_Bytes_SetBytes bs : leads bs → big_Bytes (SetBytes bs) = bs.
Proof.
  destruct bs as [|b bs]; [done|]. intros Hb. pose proof (SetBytes_lead b bs Hb) as Hr.
  rewrite (big_Bytes_width _ (length bs)) by exact Hr. apply (be_bytes_SetBytes (b :: bs)).
Qed.
Lemma big_Bytes_leads n : 0 ≤ n → leads (big_Bytes n).
Proof.
  intros Hn. destruct (big_Bytes n) as [|b bs] eqn:E; [done|]. simpl. intros Hb.
  pose proof (be_bytes_big_Bytes n Hn) as Hs. rewrite E in Hs.
  assert (Zlen (big_Bytes n) = Zlen bs + 1) as Hl by (rewrite E; unfold Zlen; simpl; lia).
  assert (SetBytes (b :: bs) < 256 ^ Zlen bs) as Hlt.
  { change (b :: bs) with ([b] ++ bs). rewrite SetBytes_app. change (SetBytes [b]) with (0 * 256 + byteZ b).
    rewrite Hb. pose proof (SetBytes_range bs). lia. }
  unfold big_Bytes in Hl. unfold Zlen in Hl at 1. rewrite length_be_bytes in Hl.
  pose proof (BitLen_nonneg n). pose proof (Zlen_nonneg bs).
  rewrite Z2Nat.id in Hl by (apply Z.div_pos; lia).
  assert (BitLen n ≤ 8 * Zlen bs) as Hbl.
  { apply BitLen_le; [lia|]. rewrite Z.abs_eq, <- Hs, Z.pow_mul_r by lia. done. }
  pose proof (Z.div_mod (BitLen n + 7) 8 ltac:(lia)). pose proof (Z.mod_pos_bound (BitLen n + 7) 8 ltac:(lia)). lia.
Qed.

Lemma readUint_ok m bs rest s : good s → s_r s = bs ++ rest → Zlen bs = m → 1 ≤ m ≤ 8 → m ≤ avail s →
  m = 1 ∨ leads bs → readUint m s = (skip m s, Val (SetBytes bs)).
Proof.
  intros Hg Hr Hm Hm8 Ha Hl. unfold readUint. rewrite (proj2 (Z.eqb_neq m 0)) by lia. case_if.
  - destruct bs as [|b [|]]; unfold Zlen in Hm; simpl in Hm; try lia.
    unfold mbind, M_bind. rewrite (readByte_ok s b rest) by (done || lia). by rewrite E.
  - rewrite Z.gtb_ltb, (proj2 (Z.ltb_ge _ _)) by lia.
    unfold mbind, M_bind. rewrite readFull_ok by (done || lia).
    rewrite Hr, take_app_length' by (unfold Zlen in Hm; lia).
    destruct bs as [|b bs]; [unfold Zlen in Hm; simpl in Hm; lia|].
    destruct Hl as [|Hl]; [lia|]. simpl in Hl. by rewrite (proj2 (Z.eqb_neq (byteZ b) 0)).
Qed.

Lemma head_long small large n : 56 ≤ n → head small large n = Zbyte (large + Zlen (big_Bytes n)) :: big_Bytes n.
Proof. intros. unfold head. by rewrite (proj2 (Z.ltb_ge n 56)). Qed.
Lemma head_short small large n : n < 56 → head small large n = [Zbyte (small + n)].
Proof. intros. unfold head. by rewrite (proj2 (Z.ltb_lt n 56)). Qed.
Lemma big_Bytes_pos n : 0 < n < 2 ^ 64 → 1 ≤ Zlen (big_Bytes n) ≤ 8.
Proof.
  intros Hn. destruct (u64_width n Hn) as (k & Hk & Hr). rewrite (big_Bytes_width n k Hr).
  unfold Zlen. rewrite length_be_bytes. lia.
Qed.

Lemma readSizedKind_ok k n rest s : good s → 56 ≤ n < 2 ^ 64 → s_r s = big_Bytes n ++ rest →
  Zlen (big_Bytes n) ≤ avail s →
  readSizedKind k (Zlen (big_Bytes n)) s = (skip (Zlen (big_Bytes n)) s, Val (k, n, None)).
Proof.
  intros Hg Hn Hr Ha. pose proof (big_Bytes_pos n ltac:(lia)).
  unfold readSizedKind, attempt, mbind, M_bind.
  rewrite (readUint_ok _ (big_Bytes n) rest) by (done || lia || (right; apply big_Bytes_leads; lia)).
  rewrite be_bytes_big_Bytes by lia. cbn. by rewrite (proj2 (Z.ltb_ge n 56)) by lia.
Qed.

Lemma skip_byteval n b s : skip n (set_byteval b s) = set_byteval b (skip n s).
Proof. done. Qed.
Lemma byteval_good b s : good s → good (set_byteval b s).
Proof. intros []. by split. Qed.

(** Decides the comparisons of a header byte. *)
Ltac head_byte := rewrite ?Zbyte_small by lia;
  repeat first [rewrite (proj2 (Z.ltb_lt _ _)) by lia | rewrite (proj2 (Z.ltb_ge _ _)) by lia].

Lemma head_length_ge small large n : 1 ≤ Zlen (head small large n).
Proof. unfold head, Zlen. case_if; simpl; lia. Qed.
Lemma readKind_first hd b rest s : good s → s_r s = (b :: hd) ++ rest → Zlen (b :: hd) ≤ avail s →
  good (set_byteval Byte.x00 (skip 1 s)) ∧ s_r (skip 1 s) = hd ++ rest ∧
  Zlen hd ≤ avail (set_byteval Byte.x00 (skip 1 s)) ∧ readByte s = (skip 1 s, Val b).
Proof.
  intros Hg Hr Ha. pose proof (Zlen_nonneg hd). replace (Zlen (b :: hd)) with (1 + Zlen hd) in Ha by (unfold Zlen; simpl; lia).
  split_and!.
  - apply byteval_good, skip_good; [done|lia].
  - unfold skip. cbn. by rewrite Hr.
  - change (avail (set_byteval Byte.x00 (skip 1 s))) with (avail (skip 1 s)). rewrite skip_avail; [lia|done|lia].
  - apply (readByte_ok s b (hd ++ rest)); [done|done|lia].
Qed.
Lemma readKind_ok k n bv hd rest s : good s → is_head k n bv hd → s_r s = hd ++ rest → Zlen hd ≤ avail s →
  readKind s = (set_byteval bv (skip (Zlen hd) s), Val (k, n, None)).
Proof.
  intros Hg Hh Hr Ha. destruct Hh as [b Hb|n Hn|n Hn].
  - destruct (readKind_first [] b rest s Hg Hr Ha) as (_ & _ & _ & E).
    unfold readKind, attempt, mbind, M_bind. rewrite E. unfold modify. pose proof (byteZ_range b). by head_byte.
  - destruct (Z.lt_ge_cases n 56) as [Hs|Hs].
    + rewrite head_short in * by done.
      destruct (readKind_first [] _ rest s Hg Hr Ha) as (_ & _ & _ & E).
      unfold readKind, attempt, mbind, M_bind. rewrite E. unfold modify. head_byte. by replace (128 + n - 128) with n by lia.
    + rewrite head_long in * by done. pose proof (big_Bytes_pos n ltac:(lia)).
      destruct (readKind_first (big_Bytes n) _ rest s Hg Hr Ha) as (Hg1 & Hr1 & Ha1 & E).
      unfold readKind, attempt, mbind, M_bind. rewrite E. unfold modify. head_byte.
      replace (183 + _ - 183) with (Zlen (big_Bytes n)) by lia.
      rewrite (readSizedKind_ok _ n rest) by (done || lia). rewrite skip_byteval, skip_skip by lia.
      do 3 f_equal. unfold Zlen. simpl. lia.
  - destruct (Z.lt_ge_cases n 56) as [Hs|Hs].
    + rewrite head_short in * by done.
      destruct (readKind_first [] _ rest s Hg Hr Ha) as (_ & _ & _ & E).
      unfold readKind, attempt, mbind, M_bind. rewrite E. unfold modify. head_byte. by replace (192 + n - 192) with n by lia.
    + rewrite head_long in * by done. pose proof (big_Bytes_pos n ltac:(lia)).
      destruct (readKind_first (big_Bytes n) _ rest s Hg Hr Ha) as (Hg1 & Hr1 & Ha1 & E).
      unfold readKind, attempt, mbind, M_bind. rewrite E. unfold modify. head_byte.
      replace (247 + _ - 247) with (Zlen (big_Bytes n)) by lia.
      rewrite (readSizedKind_ok _ n rest) by (done || lia). rewrite skip_byteval, skip_skip by lia.
      do 3 f_equal. unfold Zlen. simpl. lia.
Qed.

(** A state right after a header. *)
Definition looked (k : Kind) (n : Z) (b : byte) (s : Stream) : Stream :=
  mkStream (s_r s) (s_remaining s) (s_limited s) (Some k) n b None (s_stack s).

Lemma Kind_ok k n bv hd rest s : ready s → is_head k n bv hd → s_r s = hd ++ rest → Zlen hd + n ≤ avail s →
  Kind_ s = (looked k n bv (skip (Zlen hd) s), Val (k, n)).
Proof.
  intros [Hg Hk] Hh Hr Ha.
  assert (0 ≤ n ∧ 1 ≤ Zlen hd) as [Hn Hlen].
  { destruct Hh; [done|split; [lia|apply head_length_ge]..]. }
  set (s0 := set_kinderr None s).
  assert (good s0) as Hg0 by (destruct Hg; by split).
  assert (avail s0 = avail s) as Ha0 by done.
  assert (look s0 = (looked k n bv (skip (Zlen hd) s), Val tt)) as E.
  { unfold look, mbind, M_bind. rewrite (readKind_ok k n bv hd rest s0) by (done || lia).
    unfold modify, gets. pose proof (skip_avail (Zlen hd) s0 Hg0 ltac:(lia)) as Hav.
    pose proof (skip_good (Zlen hd) s0 Hg0 ltac:(lia)) as [Hl2 Hr2 Hlen2 Hf2].
    unfold avail in Hav, Ha. cbn in *. destruct (adv (Zlen hd) (s_stack s)) as [|tos rest'] eqn:Est.
    - rewrite Z.gtb_ltb, (proj2 (Z.ltb_ge _ _)), andb_false_r by lia. done.
    - destruct Hf2 as (? & ? & ? & _). rewrite u64_id, Z.gtb_ltb, (proj2 (Z.ltb_ge _ _)) by lia. done. }
  assert (look_ahead s = look s0) as E1.
  { unfold look_ahead, gets, modify, mbind, M_bind. rewrite Hk. unfold avail in Ha. cbn [s_stack set_kinderr].
    destruct (s_stack s) as [|tos ?]; [done|]. by rewrite (proj2 (Z.eqb_neq _ _)) by lia. }
  unfold Kind_, mbind, M_bind. by rewrite E1, E.
Qed.

Ltac run_m := unfold wpg, mbind, M_bind, gets, modify, mret, M_ret, fail.

(** ** The same read backwards: what a successful read says about the input *)

Lemma wp_attempt {A} P N (m : D A) Q E s :
  wpg P N (attempt m) Q E s ↔ wpg P N m (λ a, Q (inr a)) (λ e, Q (inl e)) s.
Proof. unfold wpg, attempt. by destruct (m s) as [s' []]. Qed.

Lemma readByte_wp s : good s →
  wp False readByte (λ b s', ∃ r, s_r s = b :: r ∧ 1 ≤ avail s ∧ s' = skip 1 s) (λ e _, e ≠ EOL) s.
Proof.
  intros Hg. unfold wpg. destruct (Z.lt_ge_cases (avail s) 1) as [Ha|Ha].
  - by destruct (readByte_err s Hg Ha) as (e & s' & -> & He).
  - destruct (s_r s) as [|b r] eqn:Hr.
    + pose proof (avail_le s Hg) as Hl. rewrite Hr in Hl. unfold Zlen in Hl. simpl in Hl. lia.
    + rewrite (readByte_ok s b r) by done. by exists r.
Qed.
Lemma readFull_wp n s : good s → 0 ≤ n →
  wp False (readFull n) (λ b s', ∃ rest, s_r s = b ++ rest ∧ Zlen b = n ∧ n ≤ avail s ∧ s' = skip n s)
    (λ e _, e ≠ EOL) s.
Proof.
  intros Hg Hn. unfold wpg. destruct (Z.lt_ge_cases (avail s) n) as [Ha|Ha].
  - by destruct (readFull_err n s Hg Ha) as (e & s' & -> & He).
  - rewrite readFull_ok by done. exists (drop (Z.to_nat n) (s_r s)). rewrite take_drop. split_and!; try done.
    pose proof (avail_le s Hg). unfold Zlen in *. rewrite length_take. lia.
Qed.
Lemma readUint_wp m s : good s → 1 ≤ m ≤ 8 →
  wp False (readUint m)
    (λ n s', ∃ bs rest, s_r s = bs ++ rest ∧ Zlen bs = m ∧ m ≤ avail s ∧ n = SetBytes bs ∧
       (m = 1 ∨ leads bs) ∧ s' = skip m s)
    (λ e _, e ≠ EOL) s.
Proof.
  intros Hg Hm. unfold readUint. rewrite (proj2 (Z.eqb_neq m 0)) by lia. case_if.
  - apply wp_bind. eapply wp_mono; [by apply readByte_wp|done| |done].
    intros b s' (r & Hr & Ha & ->). exists [b], r. subst m. by split_and!; auto.
  - rewrite Z.gtb_ltb, (proj2 (Z.ltb_ge _ _)) by lia. apply wp_bind.
    eapply wp_mono; [apply readFull_wp; [done|lia]|done| |done]. intros b s' (rest & Hr & Hl & Ha & ->).
    destruct b as [|b0 b]; [unfold Zlen in Hl; simpl in Hl; lia|]. case_if; [done|].
    exists (b0 :: b), rest. by split_and!; auto.
Qed.

Lemma SetBytes_lead_big_Bytes m bs : Zlen bs = m → m = 1 ∨ leads bs → 56 ≤ SetBytes bs → big_Bytes (SetBytes bs) = bs.
Proof.
  intros Hl Hc Hs. apply big_Bytes_SetBytes. destruct Hc as [->|]; [|done].
  destruct bs as [|b [|]]; unfold Zlen in Hl; simpl in Hl; try lia. simpl. intros Hb.
  change (SetBytes [b]) with (0 * 256 + byteZ b) in Hs. lia.
Qed.

Lemma readSizedKind_wp k m s : good s → 1 ≤ m ≤ 8 →
  wp False (readSizedKind k m)
    (λ r s', let '(k', n, err) := r in k' = k ∧
       match err with
       | Some e => e ≠ EOL
       | None => 56 ≤ n < 2 ^ 64 ∧ Zlen (big_Bytes n) = m ∧ m ≤ avail s ∧ s' = skip m s ∧
           ∃ rest, s_r s = big_Bytes n ++ rest
       end) (λ _ _, False) s.
Proof.
  intros Hg Hm. unfold readSizedKind. apply wp_bind, wp_attempt.
  eapply wp_mono; [by apply readUint_wp|done| |].
  - intros n s' (bs & rest & Hr & Hl & Ha & -> & Hc & ->). split; [done|]. cbn.
    case_if; [done|]. rewrite (SetBytes_lead_big_Bytes m bs) by done. pose proof (SetBytes_range bs) as [_ Hu].
    split_and!; try done; [|by exists rest].
    eapply Z.lt_le_trans; [exact Hu|]. change (2 ^ 64) with (256 ^ 8). apply Z.pow_le_mono_r; lia.
  - intros e s' He. by split.
Qed.

Lemma readKind_wp s : good s →
  wp False readKind
    (λ r s', let '(k, n, err) := r in
       match err with
       | Some e => e ≠ EOL
       | None => ∃ bv hd rest, is_head k n bv hd ∧ s_r s = hd ++ rest ∧ Zlen hd ≤ avail s ∧
           s' = set_byteval bv (skip (Zlen hd) s)
       end) (λ _ _, False) s.
Proof.
  intros Hg. unfold readKind. apply wp_bind, wp_attempt. eapply wp_mono; [by apply readByte_wp|done| |].
  2:{ intros e s' He. run_m. destruct (s_stack s'), e; cbn in *; congruence. }
  intros b s' (r & Hr & Ha & ->). pose proof (byteZ_range b) as Hb.
  assert (good (set_byteval Byte.x00 (skip 1 s))) as Hg1 by (apply byteval_good, skip_good; [done|lia]).
  assert (avail (set_byteval Byte.x00 (skip 1 s)) = avail s - 1) as Ha1 by (apply skip_avail; [done|lia]).
  assert (s_r (skip 1 s) = r) as Hr1 by (unfold skip; cbn; by rewrite Hr).
  assert (∀ z, 0 ≤ z < 256 → z = byteZ b → Zbyte z = b) as Hz by (intros z _ ->; apply Zbyte_byteZ).
  apply wp_bind. cbn. case_if; [|case_if; [|case_if; [|case_if]]].
  - cbn. exists b, [b], r. by split_and!; [constructor| | |].
  - exists Byte.x00, (head 0x80 0xB7 (byteZ b - 0x80)), r. rewrite head_short, Hz by lia.
    split_and!; try done. rewrite <- (Hz (0x80 + (byteZ b - 0x80))) at 2 by lia.
    rewrite <- (head_short 0x80 0xB7) by lia. constructor. lia.
  - eapply wp_mono; [apply readSizedKind_wp; [done|lia]|done| |done].
    intros [[k n] err] s' [-> He]. destruct err; [done|]. destruct He as (Hn & Hl & Hav & -> & rest & Hrest).
    exists Byte.x00, (head 0x80 0xB7 n), rest. rewrite head_long by lia. rewrite Hz by lia.
    split_and!.
    + rewrite <- (Hz (0xB7 + Zlen (big_Bytes n))) by lia. rewrite <- (head_long 0x80 0xB7) by lia. constructor. lia.
    + rewrite Hr. simpl. f_equal. rewrite <- Hr1. exact Hrest.
    + unfold Zlen in *. simpl. lia.
    + rewrite skip_byteval, skip_skip by lia. do 2 f_equal. unfold Zlen in *. simpl. lia.
  - exists Byte.x00, (head 0xC0 0xF7 (byteZ b - 0xC0)), r. rewrite head_short, Hz by lia.
    split_and!; try done. rewrite <- (Hz (0xC0 + (byteZ b - 0xC0))) at 2 by lia.
    rewrite <- (head_short 0xC0 0xF7) by lia. constructor. lia.
  - eapply wp_mono; [apply readSizedKind_wp; [done|lia]|done| |done].
    intros [[k n] err] s' [-> He]. destruct err; [done|]. destruct He as (Hn & Hl & Hav & -> & rest & Hrest).
    exists Byte.x00, (head 0xC0 0xF7 n), rest. rewrite head_long by lia. rewrite Hz by lia.
    split_and!.
    + rewrite <- (Hz (0xF7 + Zlen (big_Bytes n))) by lia. rewrite <- (head_long 0xC0 0xF7) by lia. constructor. lia.
    + rewrite Hr. simpl. f_equal. rewrite <- Hr1. exact Hrest.
    + unfold Zlen in *. simpl. lia.
    + rewrite skip_byteval, skip_skip by lia. do 2 f_equal. unfold Zlen in *. simpl. lia.
Qed.

Lemma look_wp s : good s →
  wp False look
    (λ _ s', match s_kinderr s' with
             | Some e => e ≠ EOL
             | None => ∃ k n bv hd rest, is_head k n bv hd ∧ s_r s = hd ++ rest ∧ Zlen hd + n ≤ avail s ∧
                 s' = looked k n bv (skip (Zlen hd) s)
             end ∧ s_kind s' ≠ None) (λ _ _, False) s.
Proof.
  intros Hg. unfold look. apply wp_bind. eapply wp_mono; [by apply readKind_wp|done| |done].
  intros [[k n] err] s'. destruct err as [e|]; [intros He; by run_m|].
  intros (bv & hd & rest & Hh & Hr & Ha & ->). pose proof (Zlen_nonneg hd).
  pose proof (skip_avail (Zlen hd) s Hg ltac:(lia)) as Hav.
  pose proof (skip_good (Zlen hd) s Hg ltac:(lia)) as [Hl2 Hr2 Hlen2 Hf2].
  run_m. unfold avail in Hav. cbn in Hav, Hl2, Hr2, Hlen2, Hf2 |- *.
  destruct (adv (Zlen hd) (s_stack s)) as [|tos rest'] eqn:Est.
  - rewrite Hl2. simpl. case_if; simpl; [done|]. split; [|done]. exists k, n, bv, hd, rest.
    split_and!; try done. unfold avail. lia.
  - destruct Hf2 as (? & ? & ? & _). rewrite u64_id by lia. case_if; simpl; [done|]. split; [|done].
    exists k, n, bv, hd, rest. split_and!; try done. unfold avail. lia.
Qed.

Lemma Kind_wp s : ready s →
  wp False Kind_
    (λ r s', let '(k, n) := r in ∃ bv hd rest, is_head k n bv hd ∧ s_r s = hd ++ rest ∧
       Zlen hd + n ≤ avail s ∧ s' = looked k n bv (skip (Zlen hd) s))
    (λ e s', e = EOL → at_end s ∧ after 0 s s') s.
Proof.
  intros [Hg Hk]. unfold Kind_. apply wp_bind.
  assert (good (set_kinderr None s)) as Hg0 by (destruct Hg; by split).
  assert (wp False look (λ _ s', wp False (s ← gets (λ s, s);
      match s_kinderr s, s_kind s with
      | Some e, _ => fail e | None, Some k => mret (k, s_size s) | None, None => panic end)
      (λ r s', let '(k, n) := r in ∃ bv hd rest, is_head k n bv hd ∧ s_r s = hd ++ rest ∧
         Zlen hd + n ≤ avail s ∧ s' = looked k n bv (skip (Zlen hd) s))
      (λ e s', e = EOL → at_end s ∧ after 0 s s') s')
    (λ e s', e = EOL → at_end s ∧ after 0 s s') (set_kinderr None s)) as Hlook.
  { eapply wp_mono; [by apply look_wp|done| |done]. intros _ s' [Hc Hn]. run_m.
    destruct (s_kinderr s') as [e|] eqn:Ee; [by intros ->|].
    destruct Hc as (k & n & bv & hd & rest & Hh & Hr & Ha & ->). simpl. by exists bv, hd, rest. }
  unfold look_ahead, gets, modify, mbind, M_bind, wpg in Hlook |- *. rewrite Hk. cbn [s_stack set_kinderr].
  destruct (s_stack s) as [|tos rest] eqn:Est; [done|].
  destruct (Z.eqb_spec (lp_pos tos) (lp_size tos)) as [Heq|]; [|done]. intros _. split.
  - unfold at_end, avail. rewrite Est. split; [done|lia].
  - by apply after_0.
Qed.

(** A second look gives the same answer. *)
Lemma Kind_again s s1 k n : Kind_ s = (s1, Val (k, n)) → Kind_ s1 = (s1, Val (k, n)).
Proof.
  unfold Kind_. unfold mbind, M_bind, gets. destruct (look_ahead s) as [s2 [?| | |]] eqn:E; try done.
  destruct (s_kinderr s2) eqn:Ee; [done|]. destruct (s_kind s2) eqn:Ek; [|done]. intros [= -> -> <-].
  unfold look_ahead, mbind, M_bind, gets. rewrite Ek. cbn. by rewrite Ee, Ek.
Qed.
