(* ===== verification/RlpSound.v ===== *)
(** * RLP: the decoder accepts encodings only

    What a decoder returns is a value whose encoding is what it took from the
    input; decoders neither panic nor run forever.  [sound m R] states this for
    one decoder, with the relation [R] between the value and the bytes. *)

From stdpp Require Import base tactics list numbers.
From S2P Require Import Prelude RlpEncode RlpEncodeFacts RlpDecode RlpStream.

#[local] Open Scope Z_scope.
Import rlp rlpd.

Definition took_enc (s s' : Stream) (bs : list byte) : Prop :=
  s_r s = bs ++ s_r s' ∧ Zlen bs ≤ avail s ∧ after (Zlen bs) s s'.
Definition only_at_end (s : Stream) (e : rlp_error) (s' : Stream) : Prop := e = EOL → at_end s ∧ after 0 s s'.

(** ** States after a header *)

Lemma looked_good k n b s : good s → good (looked k n b s).
Proof. intros []. by split. Qed.
Lemma after_looked n k m b s s' : after n (looked k m b s) s' → after n s s'.
Proof. intros []. by split. Qed.
Lemma took_enc_app s s' hd rest (content : list byte) :
  good s → s_r s = hd ++ rest → s_r (skip (Zlen hd) s) = content ++ s_r s' → Zlen hd + Zlen content ≤ avail s →
  after (Zlen content) (skip (Zlen hd) s) s' → took_enc s s' (hd ++ content).
Proof.
  intros Hg Hr Hr1 Ha Haf. pose proof (Zlen_nonneg hd). pose proof (Zlen_nonneg content). split_and!.
  - rewrite <- app_assoc, <- Hr1. cbn. rewrite Hr. f_equal. by rewrite drop_app_length' by (unfold Zlen; lia).
  - rewrite Zlen_app. lia.
  - rewrite Zlen_app. eapply after_trans; [lia|lia|apply after_skip|done].
Qed.

(** A header and the content read after it. *)
Lemma took_content s k m bv hd rest n b rest' : good s → s_r s = hd ++ rest → Zlen hd + n ≤ avail s → Zlen b = n →
  s_r (looked k m bv (skip (Zlen hd) s)) = b ++ rest' →
  took_enc s (skip n (looked k m bv (skip (Zlen hd) s))) (hd ++ b).
Proof.
  intros Hg Hr Ha Hl Hr'. eapply took_enc_app; [done|done| |lia|].
  - cbn in Hr' |- *. rewrite Hr' at 1. f_equal. rewrite Hr'. by rewrite drop_app_length' by (unfold Zlen in Hl; lia).
  - rewrite Hl. apply (after_looked n k m bv), after_skip.
Qed.

(** A header without content. *)
Lemma took_head s k n b hd rest : s_r s = hd ++ rest → Zlen hd ≤ avail s →
  took_enc s (set_kind None (looked k n b (skip (Zlen hd) s))) hd.
Proof.
  intros Hr Ha. split_and!; [|done|by split]. cbn. rewrite Hr. f_equal. symmetry. apply drop_app_length'. unfold Zlen. lia.
Qed.

Lemma Bytes_wp s : ready s → wp False Bytes (λ b s', took_enc s s' (enc_str b)) (only_at_end s) s.
Proof.
  intros Hs. unfold Bytes. apply wp_bind. eapply wp_mono; [by apply Kind_wp|done| |done].
  intros [k n] s' (bv & hd & rest & Hh & Hr & Ha & ->). destruct Hs as [Hg Hk].
  destruct Hh as [b Hb|n Hn|n Hn]; [| |done].
  - run_m. cbn. unfold enc_str, is_single. rewrite (proj2 (Z.leb_le _ _)) by lia.
    eapply took_head; [done|lia].
  - pose proof (head_length_ge 0x80 0xB7 n). apply wp_bind.
    eapply wp_mono; [apply readFull_wp; [apply looked_good, skip_good; [done|lia]|lia]|done| |by intros ? ? ? ->].
    intros b s' (rest' & Hr' & Hl & Hav & ->).
    assert (took_enc s (skip n (looked String n Byte.x00 (skip (Zlen (head 128 183 n)) s))) (head 128 183 n ++ b)).
    { by eapply took_content. }
    assert (is_single b = false → took_enc s (skip n (looked String n Byte.x00 (skip (Zlen (head 128 183 n)) s))) (enc_str b))
      as Hfin by (intros E; unfold enc_str; by rewrite E, Hl).
    destruct b as [|x [|y b]]; [by apply Hfin| |by apply Hfin]. case_if; [done|]. apply Hfin.
    unfold is_single. apply Z.leb_gt. lia.
Qed.

Lemma uint_wp bits s : ready s → 8 ≤ bits ≤ 64 →
  wp False (uint bits) (λ v s', took_enc s s' (enc_str (big_Bytes v)) ∧ 0 ≤ v < 2 ^ bits) (only_at_end s) s.
Proof.
  intros Hs Hbits. unfold uint. apply wp_bind. eapply wp_mono; [by apply Kind_wp|done| |done].
  intros [k n] s' (bv & hd & rest & Hh & Hr & Ha & ->). destruct Hs as [Hg Hk].
  assert (2 ^ 8 ≤ 2 ^ bits) by (apply Z.pow_le_mono_r; lia).
  destruct Hh as [b Hb|n Hn|n Hn]; [| |done].
  - pose proof (byteZ_range b). run_m. cbn. case_if; [done|]. rewrite big_Bytes_single by lia. rewrite Zbyte_byteZ.
    unfold enc_str, is_single. rewrite (proj2 (Z.leb_le _ _)) by lia.
    split; [|lia]. eapply took_head; [done|lia].
  - case_if; [done|]. pose proof (head_length_ge 0x80 0xB7 n).
    assert (bits / 8 ≤ 8) by (apply Z.div_le_upper_bound; lia).
    apply wp_bind, wp_attempt. set (s1 := looked String n Byte.x00 (skip _ s)).
    assert (good s1) as Hg1 by (apply looked_good, skip_good; [done|lia]).
    destruct (Z.eq_dec n 0) as [->|Hn0].
    { unfold readUint. run_m. cbn. change (enc_str (big_Bytes 0)) with [Zbyte 128].
      split; [|lia]. eapply (took_head s String 0 Byte.x00 [Zbyte 128]); [exact Hr|done]. }
    eapply wp_mono; [apply readUint_wp; [done|lia]|done| |].
    2:{ intros e s' He. destruct e; try (run_m; done). }
    intros v s' (bs & rest' & Hr' & Hl & Hav & -> & Hc & ->). cbn.
    rewrite Z.gtb_ltb, (proj2 (Z.ltb_lt 0 n)) by lia. cbn. case_if; [done|]. run_m.
    assert (leads bs) as Hlead.
    { destruct Hc as [->|]; [|done]. destruct bs as [|b [|]]; unfold Zlen in Hl; simpl in Hl; try lia.
      simpl. change (SetBytes [b]) with (0 * 256 + byteZ b) in E0. lia. }
    rewrite big_Bytes_SetBytes by done. split.
    + unfold enc_str. assert (is_single bs = false) as ->.
      { destruct bs as [|b [|? ?]]; try done. change (SetBytes [b]) with (0 * 256 + byteZ b) in E0.
        unfold is_single. apply Z.leb_gt. lia. }
      rewrite Hl. by eapply took_content.
    + pose proof (SetBytes_range bs) as [? Hu]. split; [done|]. eapply Z.lt_le_trans; [exact Hu|].
      change 256 with (2 ^ 8). rewrite <- Z.pow_mul_r by lia. apply Z.pow_le_mono_r; [lia|].
      pose proof (Z.mul_div_le bits 8 ltac:(lia)). lia.
Qed.

(** ** Lists *)

(** [s1] is [s] inside a list with [n] bytes of content, after its header [hd]. *)
Record entered (hd : list byte) (n : Z) (s s1 : Stream) : Prop := {
  en_head : s_r s = hd ++ s_r s1;
  en_fits : Zlen hd + n ≤ avail s;
  en_remaining : s_remaining s1 = s_remaining s - Zlen hd;
  en_limited : s_limited s1 = s_limited s;
  en_kind : s_kind s1 = None;
  en_stack : s_stack s1 = mkListpos 0 n :: adv (Zlen hd) (s_stack s) }.

Lemma entered_ready hd n s s1 : good s → 0 ≤ n → entered hd n s s1 → ready s1 ∧ avail s1 = n ∧ s_stack s1 ≠ [].
Proof.
  intros Hg Hn [Hr Hf Hrem Hlim Hk Hst]. pose proof (Zlen_nonneg hd). pose proof (avail_le s Hg).
  assert (Zlen (s_r s1) = Zlen (s_r s) - Zlen hd) as Hl by (rewrite Hr, Zlen_app; lia).
  split; [split; [|done]|split; [unfold avail; rewrite Hst; simpl; lia|by rewrite Hst]].
  destruct Hg as [Hlim0 Hr0 Hlen Hfit]. split; [congruence|lia|lia|]. rewrite Hst, Hl. simpl.
  unfold avail in Hf. destruct (s_stack s) as [|tos rest]; simpl in *.
  - split_and!; lia.
  - destruct Hfit as (? & ? & ? & Hfit). split_and!; try lia.
    eapply (eq_ind _ (λ x, fits x _ _)); [exact Hfit|]. lia.
Qed.

Lemma List_wp s : ready s →
  wp False List_ (λ n s1, 0 ≤ n < 2 ^ 64 ∧ entered (head 0xC0 0xF7 n) n s s1) (only_at_end s) s.
Proof.
  intros Hs. unfold List_. apply wp_bind. eapply wp_mono; [by apply Kind_wp|done| |done].
  intros [k n] s' (bv & hd & rest & Hh & Hr & Ha & ->). destruct Hh as [b Hb|n Hn|n Hn]; [done|done|].
  run_m. split; [done|]. split; try done. cbn. rewrite Hr at 1. f_equal.
  symmetry. rewrite Hr. apply drop_app_length'. unfold Zlen. lia.
Qed.

(** At the end of a list [ListEnd] leaves it; the list counts as read. *)
Lemma ListEnd_wp hd n s s1 s2 bs : good s → 0 ≤ n → entered hd n s s1 → took_enc s1 s2 bs →
  wp False ListEnd (λ _ s3, Zlen bs = n ∧ took_enc s s3 (hd ++ bs)) (λ e _, e ≠ EOL) s2.
Proof.
  intros Hg Hn Hen (Hr & Ha & Haf). destruct (entered_ready _ _ _ _ Hg Hn Hen) as (_ & Hav & _).
  pose proof (avail_le s Hg) as Hale. pose proof (Zlen_nonneg bs). pose proof (Zlen_nonneg hd).
  destruct Hen as [Hr0 Hf Hrem Hlim Hk Hst]. destruct Haf as [Hr1 Hrem1 Hlim1 Hk1 Hst1].
  unfold ListEnd. run_m. rewrite Hst1, Hst. cbn. case_if; [done|]. split; [lia|].
  split_and!; cbn.
  - by rewrite Hr0, Hr, app_assoc.
  - rewrite Zlen_app. lia.
  - rewrite Zlen_app. split; cbn.
    + rewrite Hr0, Hr, app_assoc, drop_app_length'; [done|]. rewrite length_app. unfold Zlen. lia.
    + lia.
    + congruence.
    + done.
    + destruct Hg as [_ _ Hlen Hfit]. unfold avail in Hf. destruct (s_stack s) as [|tos rest]; [done|]. simpl in *.
      destruct Hfit as (? & ? & ? & _). rewrite u64_id by lia. do 2 f_equal. lia.
Qed.

Lemma wp_wrapped {A} P N (m : D A) Q E s :
  wpg P N m Q (λ e, E (wrapStreamError e)) s → wpg P N (wrapped m) Q E s.
Proof.
  intros H. unfold wrapped. apply wp_bind, wp_attempt. eapply wp_mono; [exact H|done| |]; by intros.
Qed.
Lemma wrap_EOL e : wrapStreamError e = EOL → e = EOL.
Proof. by destruct e. Qed.
Lemma only_at_end_wrap s e s' : only_at_end s e s' → only_at_end s (wrapStreamError e) s'.
Proof. intros H ?%wrap_EOL. by apply H. Qed.

(** ** Decoders *)

(** A value takes at least a byte; [EOL] is reported at the end of a list only. *)
Definition sound_at (m : D value) (R : value → list byte → Prop) (s : Stream) : Prop :=
  wp False m (λ v s', ∃ bs, R v bs ∧ 1 ≤ Zlen bs ∧ took_enc s s' bs) (only_at_end s) s.
Definition sound (m : D value) (R : value → list byte → Prop) : Prop := ∀ s, ready s → sound_at m R s.
Definition sound_upto (L : nat) (m : D value) (R : value → list byte → Prop) : Prop :=
  ∀ s, ready s → (length (s_r s) < L)%nat → sound_at m R s.

Lemma took_enc_nil s : s_kind s = None → 0 ≤ avail s → took_enc s s [].
Proof. intros. split_and!; [done|done|]. by apply after_0. Qed.
Lemma took_enc_trans s1 s2 s3 b1 b2 : good s1 → took_enc s1 s2 b1 → took_enc s2 s3 b2 → took_enc s1 s3 (b1 ++ b2).
Proof.
  intros Hg (Hr1 & Ha1 & H1) (Hr2 & Ha2 & H2). pose proof (Zlen_nonneg b1). pose proof (Zlen_nonneg b2).
  rewrite (after_avail (Zlen b1) s1 s2 Hg ltac:(lia) H1) in Ha2. split_and!.
  - by rewrite Hr1, Hr2, app_assoc.
  - rewrite Zlen_app. lia.
  - rewrite Zlen_app. by eapply after_trans.
Qed.
Lemma took_enc_ready s s' bs : good s → took_enc s s' bs → ready s'.
Proof. intros Hg (_ & Ha & Haf). eapply after_good; [done| |done]. pose proof (Zlen_nonneg bs). lia. Qed.
Lemma took_enc_after0 s s1 s2 bs : took_enc s s1 bs → after 0 s1 s2 → took_enc s s2 bs.
Proof.
  intros (Hr & Ha & Haf) H0. split_and!; [|done|].
  - destruct H0 as [Hr0 _ _ _ _]. by rewrite Hr0.
  - rewrite <- (Z.add_0_r (Zlen bs)). eapply after_trans; [apply Zlen_nonneg|done|done|done].
Qed.
Lemma took_enc_shorter s s' bs : took_enc s s' bs → 1 ≤ Zlen bs → (length (s_r s') < length (s_r s))%nat.
Proof. intros (Hr & _) Hl. rewrite Hr, length_app. unfold Zlen in Hl. lia. Qed.

Lemma elems_loop_wp L m R fuel : sound_upto L m R →
  ∀ acc s, ready s → (length (s_r s) < L)%nat → (length (s_r s) < fuel)%nat →
  wp False (elems_loop m fuel acc)
    (λ vs s', ∃ vs' bss, vs = acc ++ vs' ∧ Forall2 R vs' bss ∧ took_enc s s' (mjoin bss) ∧ at_end s')
    (λ e _, e ≠ EOL) s.
Proof.
  intros Hm. induction fuel as [|fuel IH]; intros acc s Hs HL Hl; [lia|]. cbn [elems_loop].
  apply wp_bind, wp_attempt. eapply wp_mono; [by apply Hm|done| |].
  - intros v s1 (bs & HR & Hbs & Htook). pose proof (took_enc_ready _ _ _ (proj1 Hs) Htook) as Hs1.
    pose proof (took_enc_shorter _ _ _ Htook Hbs).
    eapply wp_mono; [apply IH; [done|lia|lia]|done| |done].
    intros vs s' (vs' & bss & -> & HF & Ht & He). exists (v :: vs'), (bs :: bss). split_and!; [|by constructor| |done].
    + by rewrite <- app_assoc.
    + apply (took_enc_trans s s1 s' bs); [apply Hs|done|done].
  - intros e s1 He. destruct e; try done. destruct (He eq_refl) as [Hend Haf]. run_m. exists [], []. split_and!.
    + by rewrite app_nil_r.
    + constructor.
    + split_and!; [|apply avail_le, Hs|done]. by destruct Haf.
    + destruct Hs as [Hg _]. destruct Hend as [Hne Hav]. split; [by apply (after_nonempty 0 s s1)|].
      rewrite (after_avail 0 s s1 Hg); [lia|lia|done].
Qed.

Lemma at_end_took hd n s s1 s2 bs : good s → 0 ≤ n → entered hd n s s1 → took_enc s1 s2 bs → at_end s2 → Zlen bs = n.
Proof.
  intros Hg Hn Hen (_ & Ha & Haf) [_ He]. destruct (entered_ready _ _ _ _ Hg Hn Hen) as ([Hg1 _] & Hav & _).
  rewrite (after_avail (Zlen bs) s1 s2 Hg1 ltac:(pose proof (Zlen_nonneg bs); lia) Haf) in He. lia.
Qed.

Lemma entered_shorter hd n s s1 : entered hd n s s1 → 1 ≤ Zlen hd → (length (s_r s1) < length (s_r s))%nat.
Proof. intros [Hr _ _ _ _ _] Hl. rewrite Hr, length_app. unfold Zlen in Hl. lia. Qed.

Lemma decodeListSlice_wp L m R s : sound_upto L m R → ready s → (length (s_r s) ≤ L)%nat →
  wp False (decodeListSlice m)
    (λ vs s', ∃ bss, Forall2 R vs bss ∧ took_enc s s' (enc_list (mjoin bss))) (only_at_end s) s.
Proof.
  intros Hm Hs HL. unfold decodeListSlice. apply wp_bind, wp_wrapped.
  eapply wp_mono; [by apply List_wp|done| |intros; by apply only_at_end_wrap].
  intros n s1 [Hn Hen]. pose proof (entered_shorter _ _ _ _ Hen (head_length_ge _ _ _)). destruct (entered_ready _ n s s1 (proj1 Hs) ltac:(lia) Hen) as (Hs1 & Hav & Hne).
  case_if.
  - apply wp_bind. eapply wp_mono.
    + eapply (ListEnd_wp _ n s s1 s1 []); [apply Hs|lia|exact Hen|]. apply took_enc_nil; [apply Hs1|lia].
    + done.
    + intros _ s3 [_ Ht]. rewrite E in Ht. run_m. exists []. by split.
    + by intros ? ? ? ->.
  - apply wp_bind. unfold decodeSliceElems. eapply wp_mono; [apply (elems_loop_wp L m R _ Hm [] s1 Hs1); lia|done| |by intros ? ? ? ->].
    intros vs s2 (vs' & bss & -> & HF & Ht & He). apply wp_bind.
    eapply wp_mono; [eapply (ListEnd_wp _ n s s1 s2); [apply Hs|lia|exact Hen|exact Ht]|done| |by intros ? ? ? ->].
    intros _ s3 [Hl Ht3]. run_m. exists bss. split; [done|]. unfold enc_list. by rewrite Hl.
Qed.

Lemma array_loop_wp m R n : sound m R → ∀ acc s, ready s →
  wp False (array_loop m n acc)
    (λ vs s', ∃ vs' bss, vs = acc ++ vs' ∧ length vs' = n ∧ Forall2 R vs' bss ∧ took_enc s s' (mjoin bss))
    (λ e _, e ≠ EOL) s.
Proof.
  intros Hm. induction n as [|n IH]; intros acc s Hs.
  { run_m. exists [], []. split_and!; [by rewrite app_nil_r|done|constructor|]. apply took_enc_nil; [apply Hs|].
    pose proof (avail_le s (proj1 Hs)). cbn. lia. }
  cbn [array_loop]. apply wp_bind, wp_attempt. eapply wp_mono; [by apply Hm|done| |].
  - intros v s1 (bs & HR & Hbs & Htook). pose proof (took_enc_ready _ _ _ (proj1 Hs) Htook) as Hs1.
    eapply wp_mono; [by apply IH|done| |done].
    intros vs s' (vs' & bss & -> & Hlen & HF & Ht). exists (v :: vs'), (bs :: bss). split_and!.
    + by rewrite <- app_assoc.
    + simpl. lia.
    + by constructor.
    + apply (took_enc_trans s s1 s' bs); [apply Hs|done|done].
  - intros e s1 He. by destruct e.
Qed.
Lemma decodeListArray_wp m R n s : sound m R → ready s → 0 ≤ n →
  wp False (decodeListArray n m)
    (λ vs s', ∃ bss, Zlen vs = n ∧ Forall2 R vs bss ∧ took_enc s s' (enc_list (mjoin bss))) (only_at_end s) s.
Proof.
  intros Hm Hs Hn0. unfold decodeListArray. apply wp_bind, wp_wrapped.
  eapply wp_mono; [by apply List_wp|done| |intros; by apply only_at_end_wrap].
  intros k s1 [Hn Hen]. destruct (entered_ready _ k s s1 (proj1 Hs) ltac:(lia) Hen) as (Hs1 & Hav & Hne).
  apply wp_bind. eapply wp_mono; [by apply (array_loop_wp m R)|done| |by intros ? ? ? ->].
  intros vs s2 (vs' & bss & -> & Hlen & HF & Ht). apply wp_bind, wp_wrapped.
  eapply wp_mono; [eapply (ListEnd_wp _ k s s1 s2); [apply Hs|lia|exact Hen|exact Ht]|done| |by intros e ? ? ?%wrap_EOL].
  intros _ s3 [Hl Ht3]. run_m. exists bss. split_and!; [unfold Zlen; cbn; lia|done|]. unfold enc_list. by rewrite Hl.
Qed.

(** ** Every type *)

(** The types of the theorems.  A [tail] field is the last one of a struct.  Arrays of
    one byte are left out: [decodeByteArray] does not step over a zero byte
    there.  A [nil] pointer to an interface is left out too. *)
Fixpoint looks (t : typ) : bool :=
  match t with TInterface | TTail _ => false | TPtr t | TOptPtr t => looks t | _ => true end.
Fixpoint wf (t : typ) : bool :=
  match t with
  | TUint bits => (8 <=? bits) && (bits <=? 64)
  | TByteArray n => (0 <=? n) && negb (n =? 1)
  | TArray n t => (0 <=? n) && wf t
  | TSlice t | TPtr t => wf t
  | TOptPtr t => looks t && wf t
  | TStruct ts =>
      (fix fields (ts : list typ) : bool :=
         match ts with
         | [] => true
         | t :: ts =>
             match t with
             | TTail t => wf t && match ts with [] => true | _ => false end
             | _ => wf t
             end && fields ts
         end) ts
  | TTail _ => false
  | _ => true
  end.
Definition wf_field (t : typ) : bool := match t with TTail t => wf t | _ => wf t end.

(** The types with one encoding per value: an empty list and an empty string
    both stand for a nil pointer. *)
Fixpoint canonical (t : typ) : bool :=
  match t with
  | TOptPtr _ => false
  | TArray _ t | TSlice t | TPtr t | TTail t => canonical t
  | TStruct ts => (fix all (ts : list typ) : bool := match ts with [] => true | t :: ts => canonical t && all ts end) ts
  | _ => true
  end.
(** The types whose nil pointers are encoded as an empty value. *)
Fixpoint regular (t : typ) : bool :=
  match t with
  | TOptPtr t => (Zlen (enc_nil t) =? 1) && regular t
  | TArray _ t | TSlice t | TPtr t | TTail t => regular t
  | TStruct ts => (fix all (ts : list typ) : bool := match ts with [] => true | t :: ts => regular t && all ts end) ts
  | _ => true
  end.
(** The values of a type that decoding gives: no nil pointers but those of
    [nil] fields. *)
Fixpoint typed (t : typ) (v : value) : Prop :=
  match t, v with
  | TUint bits, VUint i => 0 ≤ i < 2 ^ bits
  | TBool, VBool _ | TString, VBytes _ | TBytes, VBytes _ | TRaw, VBytes _ => True
  | TBigInt, VBig (Some i) => 0 ≤ i
  | TByteArray n, VBytes b => Zlen b = n
  | TSlice t, VList vs | TTail t, VList vs =>
      (fix all (vs : list value) : Prop := match vs with [] => True | v :: vs => typed t v ∧ all vs end) vs
  | TArray n t, VList vs => Zlen vs = n ∧
      (fix all (vs : list value) : Prop := match vs with [] => True | v :: vs => typed t v ∧ all vs end) vs
  | TStruct ts, VList vs =>
      (fix fields (ts : list typ) (vs : list value) {struct vs} : Prop :=
         match vs, ts with
         | [], [] => True
         | v :: vs, t :: ts => typed t v ∧ fields ts vs
         | _, _ => False
         end) ts vs
  | TPtr t, VPtr (Some v) | TOptPtr t, VPtr (Some v) => typed t v
  | TOptPtr _, VPtr None => True
  | TInterface, VInterface (Some (t, v)) => shaped t v
  | _, _ => False
  end.
Fixpoint typed_fields (ts : list typ) (vs : list value) {struct vs} : Prop :=
  match vs, ts with
  | [], [] => True
  | v :: vs, t :: ts => typed t v ∧ typed_fields ts vs
  | _, _ => False
  end.
Lemma typed_elems t vs :
  (fix all (vs : list value) : Prop := match vs with [] => True | v :: vs => typed t v ∧ all vs end) vs
  ↔ Forall (typed t) vs.
Proof.
  induction vs as [|v vs IH]; [by split; [constructor|]|]. rewrite Forall_cons_iff. tauto.
Qed.

(** [v] was read from [bs]: its encoding is as long, and is [bs] for types with
    one encoding per value. *)
Definition reads_as (t : typ) (v : value) (bs : list byte) : Prop :=
  typed t v ∧ (regular t = true → shaped t v ∧ ∃ bs', enc t v = Some bs' ∧ Zlen bs' = Zlen bs ∧ (canonical t = true → bs' = bs)).
Lemma reads_as_exact t v bs : typed t v → enc t v = Some bs ∧ shaped t v → reads_as t v bs.
Proof. intros Ht [He Hs]. split; [done|]. intros _. split; [done|]. by exists bs. Qed.

Lemma typ_ind' (P : typ → Prop) :
  (∀ b, P (TUint b)) → P TBool → P TString → P TBigInt → P TBytes → (∀ n, P (TByteArray n)) → P TRaw →
  (∀ t, P t → P (TSlice t)) → (∀ n t, P t → P (TArray n t)) → (∀ ts, Forall P ts → P (TStruct ts)) →
  (∀ t, P t → P (TPtr t)) → (∀ t, P t → P (TOptPtr t)) → (∀ t, P t → P (TTail t)) → P TInterface →
  ∀ t, P t.
Proof.
  intros Hu Hb Hs Hz Hy Ha Hr Hl Hn Hst Hp Ho Ht Hi. fix IH 1.
  intros [b| | | | |n| |t|n t|ts|t|t|t|];
    [apply Hu|apply Hb|apply Hs|apply Hz|apply Hy|apply Ha|apply Hr|apply Hl, IH|apply Hn, IH| |apply Hp, IH
    |apply Ho, IH|apply Ht, IH|apply Hi].
  apply Hst. induction ts as [|t ts IHts]; constructor; [apply IH|apply IHts].
Qed.

Lemma canonical_regular t : canonical t = true → regular t = true.
Proof.
  induction t as [| | | | | | |t IH|n t IH|ts IH|t IH| |t IH|] using typ_ind'; cbn [canonical regular]; auto; [|done].
  induction IH as [|t ts Ht _ IHts]; [done|]. intros [H1 H2]%andb_true_iff. rewrite Ht by done. by apply IHts.
Qed.

Definition is_tail (t : typ) : bool := match t with TTail _ => true | _ => false end.
Lemma wf_struct t ts : wf (TStruct (t :: ts)) = true →
  wf_field t = true ∧ wf (TStruct ts) = true ∧ (is_tail t = true → ts = []).
Proof.
  intros [H1 H2]%andb_true_iff. destruct t; try done. apply andb_true_iff in H1 as [H1 H3]. split_and!; [done|done|].
  by destruct ts.
Qed.
Lemma canonical_struct t ts : canonical (TStruct (t :: ts)) = canonical t && canonical (TStruct ts).
Proof. reflexivity. Qed.

Lemma enc_str_pos b : 1 ≤ Zlen (enc_str b).
Proof.
  unfold enc_str. case_if; [|rewrite Zlen_app; pose proof (head_length_ge 0x80 0xB7 (Zlen b)); pose proof (Zlen_nonneg b); lia].
  by destruct b as [|? [|]].
Qed.
Lemma enc_list_pos p : 1 ≤ Zlen (enc_list p).
Proof. unfold enc_list. rewrite Zlen_app. pose proof (head_length_ge 0xC0 0xF7 (Zlen p)). pose proof (Zlen_nonneg p). lia. Qed.

Lemma Bool_wp s : ready s →
  wp False Bool (λ b s', took_enc s s' (enc_str (if b then [Byte.x01] else []))) (only_at_end s) s.
Proof.
  intros Hs. unfold Bool. apply wp_bind. eapply wp_mono; [apply (uint_wp 8); [done|lia]|done| |done].
  intros v s' [Ht _]. case_if; [subst; by run_m|]. case_if; [subst; by run_m|]. by run_m.
Qed.

Lemma Raw_wp s : ready s → wp False Raw (λ b s', 1 ≤ Zlen b ∧ took_enc s s' b) (only_at_end s) s.
Proof.
  intros Hs. unfold Raw. apply wp_bind. eapply wp_mono; [by apply Kind_wp|done| |done].
  intros [k n] s' (bv & hd & rest & Hh & Hr & Ha & ->). destruct Hs as [Hg Hk].
  assert (∀ k' small large, 0 ≤ n < 2 ^ 64 → hd = head small large n → 1 ≤ Zlen hd →
    wp False (content ← readFull n; or_panic (write_at 0 (puthead small large n) (zeros (headsize n) ++ content)))
      (λ b s', 1 ≤ Zlen b ∧ took_enc s s' b) (only_at_end s) (looked k' n bv (skip (Zlen hd) s))) as Hgen.
  { intros k' small large Hn -> Hl. apply wp_bind.
    eapply wp_mono; [apply readFull_wp; [apply looked_good, skip_good; [done|lia]|lia]|done| |by intros ? ? ? ->].
    intros b s' (rest' & Hr' & Hlb & Hav & ->). rewrite puthead_head by done.
    assert (length (head small large n) = length (zeros (headsize n))) as Hlen.
    { pose proof (head_length small large n Hn) as E. rewrite length_zeros, <- E. unfold Zlen. lia. }
    unfold or_panic, write_at, wpg. rewrite Z.add_0_l, (proj2 (Z.leb_le _ _)).
    2:{ rewrite Zlen_app. pose proof (Zlen_nonneg b). unfold Zlen in *. lia. }
    change (take (Z.to_nat 0) (zeros (headsize n) ++ b)) with (@nil byte). cbn [app].
    replace (Z.to_nat (Zlen (head small large n))) with (length (zeros (headsize n))) by (unfold Zlen; lia).
    rewrite drop_app_length. split; [rewrite Zlen_app; pose proof (Zlen_nonneg b); lia|].
    by eapply took_content. }
  destruct Hh as [b Hb|n Hn|n Hn].
  - run_m. cbn. split; [done|]. eapply took_head; [done|lia].
  - apply Hgen; [done|done|apply head_length_ge].
  - apply Hgen; [done|done|apply head_length_ge].
Qed.

Lemma decodeByteArray_wp n s : ready s → 0 ≤ n → n ≠ 1 →
  wp False (decodeByteArray n)
    (λ v s', ∃ b, v = VBytes b ∧ Zlen b = n ∧ took_enc s s' (enc_str b)) (only_at_end s) s.
Proof.
  intros Hs Hn Hn1. unfold decodeByteArray. apply wp_bind. eapply wp_mono; [by apply Kind_wp|done| |done].
  intros [k m] s' (bv & hd & rest & Hh & Hr & Ha & ->). destruct Hs as [Hg Hk].
  destruct Hh as [b Hb|m Hm|m Hm]; [|  |done].
  - case_if; [done|]. case_if; [done|lia].
  - case_if; [done|]. case_if; [done|]. pose proof (head_length_ge 0x80 0xB7 m). assert (m = n) as -> by lia.
    apply wp_bind.
    eapply wp_mono; [apply readFull_wp; [apply looked_good, skip_good; [done|lia]|lia]|done| |by intros ? ? ? ->].
    intros b s' (rest' & Hr' & Hl & Hav & ->).
    assert (is_single b = false) as Hsing by (destruct b as [|? [|? ?]]; [done|unfold Zlen in Hl; simpl in Hl; lia|done]).
    assert (took_enc s (skip n (looked String n Byte.x00 (skip (Zlen (head 128 183 n)) s))) (enc_str b)).
    { unfold enc_str. rewrite Hsing, Hl. by eapply took_content. }
    destruct b as [|x [|y b]]; [by eexists| |by eexists]. unfold Zlen in Hl. simpl in Hl. lia.
Qed.

Lemma sound_all L m R : sound m R → sound_upto L m R.
Proof. intros Hm s Hs _. by apply Hm. Qed.

(** Two looks in a row are one. *)
Lemma bind_again {A} (f : Kind * Z → D A) s s1 k n :
  Kind_ s = (s1, Val (k, n)) → (Kind_ ≫= f) s1 = (Kind_ ≫= f) s.
Proof. intros E. unfold mbind, M_bind. by rewrite (Kind_again s s1 k n E), E. Qed.
Lemma bind_eq {A B} (m : D A) (f : A → D B) s s1 : m s1 = m s → (m ≫= f) s1 = (m ≫= f) s.
Proof. intros E. unfold mbind, M_bind. by rewrite E. Qed.
Lemma wrapped_eq {A} (m : D A) s s1 : m s1 = m s → wrapped m s1 = wrapped m s.
Proof. intros E. unfold wrapped. apply bind_eq. unfold attempt. by rewrite E. Qed.

Lemma decoder_again t s s1 k n : looks t = true → Kind_ s = (s1, Val (k, n)) → decoder t s1 = decoder t s.
Proof.
  intros Hl E. induction t; try done; cbn [decoder looks] in *.
  - apply bind_eq, wrapped_eq. by eapply bind_again.
  - apply bind_eq, wrapped_eq. unfold Bool. apply bind_eq. by eapply bind_again.
  - apply bind_eq, wrapped_eq. by eapply bind_again.
  - apply bind_eq, wrapped_eq. by eapply bind_again.
  - apply bind_eq, wrapped_eq. by eapply bind_again.
  - by eapply bind_again.
  - apply bind_eq. by eapply bind_again.
  - apply bind_eq. unfold decodeListSlice. apply bind_eq, wrapped_eq. by eapply bind_again.
  - apply bind_eq. unfold decodeListArray. apply bind_eq, wrapped_eq. by eapply bind_again.
  - apply bind_eq, wrapped_eq. by eapply bind_again.
  - apply bind_eq. by apply IHt.
  - unfold optional_ptr, attempt, mbind, M_bind. by rewrite (Kind_again s s1 k n E), E.
Qed.

Lemma reads_elems t vs bss : Forall2 (reads_as t) vs bss → Forall (typed t) vs ∧
  (regular t = true → Forall (shaped t) vs ∧ ∃ bs', mjoin <$> mapM (enc t) vs = Some bs' ∧ Zlen bs' = Zlen (mjoin bss) ∧
     (canonical t = true → bs' = mjoin bss)).
Proof.
  intros HF. split.
  { induction HF as [|v bs vs bss [Hv _] _ IH]; by constructor. }
  intros Hreg. induction HF as [|v bs vs bss [_ HR] _ IH]; [by split; [|exists []]|].
  destruct IH as [IH1 (b2 & IH2 & IH3 & IH4)], (HR Hreg) as [Hsh (b1 & E & Hl & Hc)]. split; [by constructor|].
  exists (b1 ++ b2). cbn [mapM]. rewrite E. apply fmap_Some in IH2 as (l & -> & Hl2).
  change (mjoin (bs :: bss)) with (bs ++ mjoin bss). rewrite !Zlen_app. split_and!; [|lia|intros H; by rewrite Hc, IH4].
  by rewrite Hl2.
Qed.
Lemma enc_list_len b1 b2 : Zlen b1 = Zlen b2 → Zlen (enc_list b1) = Zlen (enc_list b2).
Proof. intros E. unfold enc_list. by rewrite !Zlen_app, E. Qed.
Lemma reads_list t t' vs bss : Forall2 (reads_as t) vs bss →
  (Forall (typed t) vs → typed t' (VList vs)) → (Forall (shaped t) vs → shaped t' (VList vs)) →
  (enc t' (VList vs) = enc_list <$> (mjoin <$> mapM (enc t) vs)) → regular t' = regular t → canonical t' = canonical t →
  reads_as t' (VList vs) (enc_list (mjoin bss)).
Proof.
  intros [Ht HR]%reads_elems Hty Hsh He Hr Hc. split; [by apply Hty|]. rewrite Hr, Hc, He. intros H.
  destruct (HR H) as [Hs (bs' & -> & Hl & Hcan)]. split; [by apply Hsh|]. exists (enc_list bs'). split_and!; [done|by apply enc_list_len|].
  intros E. by rewrite Hcan.
Qed.

Lemma interface_sound fuel : sound_upto fuel (decodeInterface_loop fuel) (reads_as TInterface).
Proof.
  induction fuel as [|fuel IH]; intros s Hs Hl; [lia|]. unfold sound_at. cbn [decodeInterface_loop].
  destruct (Kind_ s) as [s1 o] eqn:E.
  pose proof (Kind_wp s Hs) as Hk. unfold wpg in Hk. rewrite E in Hk.
  unfold wpg, mbind at 1, M_bind. rewrite E. destruct o as [[k n]|e| |]; try done.
  assert (∀ A (m : D A) Q Er, m s1 = m s → wp False m Q Er s → wp False m Q Er s1) as Hmove
    by (intros A m Q Er Em; unfold wpg; by rewrite Em).
  assert (wp False (b ← Bytes; mret (VInterface (Some (TBytes, VBytes b))))
    (λ v s', ∃ bs, reads_as TInterface v bs ∧ 1 ≤ Zlen bs ∧ took_enc s s' bs) (only_at_end s) s1) as Hbytes.
  { apply Hmove; [apply bind_eq; by eapply bind_again|]. apply wp_bind.
    eapply wp_mono; [by apply Bytes_wp|done| |done]. intros b s' Ht. run_m. exists (enc_str b).
    split_and!; [by apply reads_as_exact|apply enc_str_pos|done]. }
  destruct k; [exact Hbytes|exact Hbytes|].
  apply Hmove; [apply bind_eq; unfold decodeListSlice; apply bind_eq, wrapped_eq; by eapply bind_again|].
  apply wp_bind. eapply wp_mono; [apply (decodeListSlice_wp fuel); [done|done|lia]|done| |done].
  intros vs s' (bss & HF & Ht). run_m. exists (enc_list (mjoin bss)). split_and!; [|apply enc_list_pos|done].
  destruct (reads_elems TInterface vs bss HF) as [_ HR]. destruct (HR eq_refl) as [Hsh (bs' & Eb & _ & Hc)].
  apply reads_as_exact; cbn [enc shaped typed]; rewrite ?shaped_elems; [done|]. rewrite Eb, (Hc eq_refl). done.
Qed.

Fixpoint decode_fields (ts : list typ) : D (list value) :=
  match ts with
  | [] => mret []
  | t :: ts =>
      r ← attempt (decoder t);
      match r with
      | inl EOL => fail (decodeError MsgTooFew)
      | inl e => fail e
      | inr v => vs ← decode_fields ts; mret (v :: vs)
      end
  end.
Lemma decoder_struct ts :
  decoder (TStruct ts) = (wrapped List_;; vs ← decode_fields ts; wrapped ListEnd;; mret (VList vs)).
Proof. reflexivity. Qed.

(** A field: as [sound], but a [tail] may be empty. *)
Definition sound_field (t : typ) : Prop := ∀ s, ready s →
  wp False (decoder t) (λ v s', ∃ bs, reads_as t v bs ∧ took_enc s s' bs) (λ _ _, True) s.
Definition sound_typ (t : typ) : Prop :=
  (wf t = true → sound (decoder t) (reads_as t)) ∧ (wf_field t = true → sound_field t).

Definition reads_fields (ts : list typ) (vs : list value) (bs : list byte) : Prop :=
  typed_fields ts vs ∧ (regular (TStruct ts) = true → shaped_fields ts vs ∧
    ∃ bs', enc_fields ts vs = Some bs' ∧ Zlen bs' = Zlen bs ∧ (canonical (TStruct ts) = true → bs' = bs)).
Lemma reads_fields_cons t ts v vs b1 b2 : reads_as t v b1 → reads_fields ts vs b2 → reads_fields (t :: ts) (v :: vs) (b1 ++ b2).
Proof.
  intros [Ht1 H1] [Ht2 H2]. split; [done|]. intros [Hr1 Hr2]%andb_true_iff.
  destruct (H1 Hr1) as [Hs1 (c1 & E1 & Hl1 & Hc1)], (H2 Hr2) as [Hs2 (c2 & E2 & Hl2 & Hc2)]. split; [done|].
  exists (c1 ++ c2). cbn [enc_fields]. rewrite E1, E2, !Zlen_app, canonical_struct. split_and!; [done|lia|].
  intros [H3 H4]%andb_true_iff. by rewrite Hc1, Hc2.
Qed.

Lemma fields_wp ts : Forall sound_typ ts → wf (TStruct ts) = true → ∀ s, ready s →
  wp False (decode_fields ts)
    (λ vs s', ∃ bs, reads_fields ts vs bs ∧ took_enc s s' bs)
    (λ e _, e ≠ EOL) s.
Proof.
  induction 1 as [|t ts [_ Ht] _ IH]; intros Hwf s Hs.
  { run_m. exists []. split; [split; [done|]; intros _; split; [done|by exists []]|].
    apply took_enc_nil; [apply Hs|]. pose proof (avail_le s (proj1 Hs)). cbn. lia. }
  apply wf_struct in Hwf as (Hwt & Hwf & _). cbn [decode_fields].
  apply wp_bind, wp_attempt. eapply wp_mono; [by apply Ht|done| |intros e s' _; by destruct e].
  intros v s1 (bs & HR & Htook). apply wp_bind.
  eapply wp_mono; [apply IH; [done|by eapply took_enc_ready; [apply Hs|]]|done| |done].
  intros vs s2 (bs2 & HR2 & Htook2). run_m. exists (bs ++ bs2). split; [by apply reads_fields_cons|].
  by eapply took_enc_trans; [apply Hs|done|done].
Qed.

Lemma reads_struct ts vs bs : reads_fields ts vs bs → reads_as (TStruct ts) (VList vs) (enc_list bs).
Proof.
  intros [Hty HR]. split; [exact Hty|]. intros Hr. destruct (HR Hr) as [Hsh (bs' & E & Hle & Hc)]. split; [exact Hsh|].
  exists (enc_list bs'). rewrite enc_struct, E. split_and!; [done|by apply enc_list_len|]. intros H. by rewrite Hc.
Qed.
Lemma struct_wp ts s : Forall sound_typ ts → wf (TStruct ts) = true → ready s →
  wp False (decoder (TStruct ts)) (λ v s', ∃ bs, reads_as (TStruct ts) v (enc_list bs) ∧ took_enc s s' (enc_list bs)) (only_at_end s) s.
Proof.
  intros HF Hwf Hs. rewrite decoder_struct. apply wp_bind, wp_wrapped.
  eapply wp_mono; [by apply List_wp|done| |intros; by apply only_at_end_wrap].
  intros n s1 [Hn Hen]. destruct (entered_ready _ n s s1 (proj1 Hs) ltac:(lia) Hen) as (Hs1 & Hav & Hne).
  apply wp_bind. eapply wp_mono; [by apply fields_wp|done| |by intros ? ? ? ->].
  intros vs s2 (bs & HR & Ht). apply wp_bind, wp_wrapped.
  eapply wp_mono; [eapply (ListEnd_wp _ n s s1 s2); [apply Hs|lia|exact Hen|exact Ht]|done| |by intros e ? ? ?%wrap_EOL].
  intros _ s3 [Hl Ht3]. run_m. exists bs. split; [by apply reads_struct|]. unfold enc_list. by rewrite Hl.
Qed.
Lemma struct_sound ts : Forall sound_typ ts → wf (TStruct ts) = true → sound (decoder (TStruct ts)) (reads_as (TStruct ts)).
Proof.
  intros HF Hwf s Hs. eapply wp_mono; [by apply struct_wp|done| |done]. intros v s' (bs & HR & Ht).
  exists (enc_list bs). split_and!; [done|apply enc_list_pos|done].
Qed.

Lemma slice_sound t : sound (decoder t) (reads_as t) → sound (decoder (TSlice t)) (reads_as (TSlice t)).
Proof.
  intros Hm s Hs. unfold sound_at. cbn [decoder]. apply wp_bind.
  eapply wp_mono; [apply (decodeListSlice_wp (length (s_r s)) _ _ s (sound_all _ _ _ Hm) Hs); lia|done| |done].
  intros vs s' (bss & HF & Ht). run_m. exists (enc_list (mjoin bss)). split_and!; [|apply enc_list_pos|done].
  apply (reads_list t); [done| | |done|done|done]; cbn [typed shaped]; rewrite ?typed_elems, ?shaped_elems; done.
Qed.
Lemma array_sound n t : 0 ≤ n → sound (decoder t) (reads_as t) → sound (decoder (TArray n t)) (reads_as (TArray n t)).
Proof.
  intros Hn Hm s Hs. unfold sound_at. cbn [decoder]. apply wp_bind.
  eapply wp_mono; [by apply (decodeListArray_wp _ (reads_as t))|done| |done].
  intros vs s' (bss & Hlen & HF & Ht). run_m. exists (enc_list (mjoin bss)). split_and!; [|apply enc_list_pos|done].
  apply (reads_list t); [done| | |done|done|done]; cbn [typed shaped]; rewrite ?typed_elems, ?shaped_elems; done.
Qed.
Lemma tail_sound t : sound (decoder t) (reads_as t) → sound_field (TTail t).
Proof.
  intros Hm s Hs. cbn [decoder]. apply wp_bind. unfold decodeSliceElems.
  eapply wp_mono; [apply (elems_loop_wp (S (length (s_r s))) _ _ _ (sound_all _ _ _ Hm) [] s Hs); lia|done| |done].
  intros vs s' (vs' & bss & -> & HF & Ht & _). run_m. exists (mjoin bss). split; [|done].
  destruct (reads_elems t vs' bss HF) as [Hty HR]. split; cbn [typed shaped enc app]; rewrite ?typed_elems, ?shaped_elems; [done|].
  exact HR.
Qed.
Lemma opt_sound t : looks t = true → sound (decoder t) (reads_as t) → sound (decoder (TOptPtr t)) (reads_as (TOptPtr t)).
Proof.
  intros Hl Hm s Hs. unfold sound_at. cbn [decoder]. unfold optional_ptr. apply wp_bind, wp_attempt.
  pose proof (Kind_wp s Hs) as Hk. unfold wpg in *. destruct (Kind_ s) as [s1 o] eqn:E. destruct o as [[k n]|e| |]; try done.
  2:{ run_m. intros He. destruct (Hk He) as [Hend []]. split; [done|by split]. }
  destruct Hk as (bv & hd & rest & Hh & Hr & Ha & ->). case_if.
  - run_m. exists hd. assert (Zlen hd = 1) as Hl1.
    { match goal with H : n = 0 |- _ => rewrite H in Hh end. by inversion Hh. }
    split_and!; [split; [done|] | |].
    + intros [Hn%Z.eqb_eq _]%andb_true_iff. split; [done|]. exists (enc_nil t). split_and!; [done|lia|done].
    + lia.
    + eapply took_head; [done|]. lia.
  - unfold mbind, M_bind. rewrite (decoder_again t s _ k n Hl E). pose proof (Hm s Hs) as Hdec.
    unfold sound_at, wpg in Hdec. destruct (decoder t s) as [s2 [v|e| |]]; try done.
    run_m. destruct Hdec as (bs & [Hty HR] & ? & ?). exists bs. split_and!; [|done|done]. split; [done|].
    intros [_ Hreg]%andb_true_iff. destruct (HR Hreg) as [Hsh (bs' & He & Hl' & _)]. split; [done|]. by exists bs'.
Qed.

Lemma sound_is_field t : sound (decoder t) (reads_as t) → sound_field t.
Proof.
  intros Hm s Hs. eapply wp_mono; [by apply Hm|done| |done]. intros v s' (bs & ? & _ & ?). by exists bs.
Qed.

(** Leaf types: the bytes taken are the encoding of one string. *)
Lemma leaf_sound t m (f : value → list byte) :
  (∀ s, ready s → wp False m (λ v s', took_enc s s' (enc_str (f v)) ∧
     (enc t v = Some (enc_str (f v)) ∧ shaped t v) ∧ typed t v) (only_at_end s) s) →
  sound m (reads_as t).
Proof.
  intros H s Hs. eapply wp_mono; [by apply H|done| |done]. intros v s' (Ht & HR & Hty). exists (enc_str (f v)).
  split_and!; [by apply reads_as_exact|apply enc_str_pos|done].
Qed.

Lemma wrapped_wp {A} (m : D A) Q s : wp False m Q (only_at_end s) s → wp False (wrapped m) Q (only_at_end s) s.
Proof. intros H. apply wp_wrapped. eapply wp_mono; [exact H|done|done|]. intros. by apply only_at_end_wrap. Qed.

Definition bytes_of (v : value) : list byte := match v with VBytes b => b | _ => [] end.

Lemma decoder_sound t : sound_typ t.
Proof.
  assert (∀ t, (wf t = true → sound (decoder t) (reads_as t)) → wf t = wf_field t → sound_typ t) as Hplain.
  { intros t' H E. split; [done|]. intros Hw. apply sound_is_field, H. by rewrite E. }
  induction t as [bits| | | | |n| |t [IH _]|n t [IH _]|ts IH|t [IH _]|t [IH _]|t [IH _]|] using typ_ind';
    try (apply Hplain; [intros Hwf; cbn in Hwf|done]).
  - apply andb_true_iff in Hwf as [H1%Z.leb_le H2%Z.leb_le].
    apply (leaf_sound _ _ (λ v, match v with VUint i => big_Bytes i | _ => [] end)). intros s Hs. cbn [decoder].
    apply wp_bind, wrapped_wp. eapply wp_mono; [by apply uint_wp|done| |done]. intros v s' [Ht Hv]. by run_m.
  - apply (leaf_sound _ _ (λ v, match v with VBool true => [Byte.x01] | _ => [] end)). intros s Hs. cbn [decoder].
    apply wp_bind, wrapped_wp. eapply wp_mono; [by apply Bool_wp|done| |done]. intros [] s' Ht; by run_m.
  - apply (leaf_sound _ _ bytes_of). intros s Hs. cbn [decoder].
    apply wp_bind, wrapped_wp. eapply wp_mono; [by apply Bytes_wp|done| |done]. intros b s' Ht. by run_m.
  - apply (leaf_sound _ _ (λ v, match v with VBig (Some i) => big_Bytes i | _ => [] end)). intros s Hs. cbn [decoder].
    apply wp_bind, wrapped_wp. eapply wp_mono; [by apply Bytes_wp|done| |done]. intros b s' Ht.
    assert (leads b → took_enc s s' (enc_str (big_Bytes (SetBytes b))) ∧
      (enc TBigInt (VBig (Some (SetBytes b))) = Some (enc_str (big_Bytes (SetBytes b))) ∧ True) ∧ 0 ≤ SetBytes b) as Hb.
    { intros Hl. rewrite big_Bytes_SetBytes by done. split; [done|]. split; [|apply SetBytes_range]. split; [|done]. cbn [enc].
      rewrite (proj2 (Z.ltb_ge _ _)) by apply SetBytes_range. by rewrite big_Bytes_SetBytes. }
    destruct b as [|x b]; [run_m; by apply Hb|]. destruct (decide (x = Byte.x00)) as [->|Hx]; [by run_m|].
    assert (byteZ x ≠ 0) as Hx0 by (intros E; apply Hx; rewrite <- (Zbyte_byteZ x), E; done).
    destruct x; try done; run_m; by apply Hb.
  - apply (leaf_sound _ _ bytes_of). intros s Hs. cbn [decoder].
    apply wp_bind, wrapped_wp. eapply wp_mono; [by apply Bytes_wp|done| |done]. intros b s' Ht. by run_m.
  - apply andb_true_iff in Hwf as [H1%Z.leb_le H2%negb_true_iff%Z.eqb_neq].
    apply (leaf_sound _ _ bytes_of). intros s Hs. cbn [decoder].
    eapply wp_mono; [by apply decodeByteArray_wp|done| |done]. by intros v s' (b & -> & Hl & Ht).
  - intros s Hs. cbn [decoder]. apply wp_bind. eapply wp_mono; [by apply Raw_wp|done| |done].
    intros b s' [Hl Ht]. run_m. exists b. split_and!; [by apply reads_as_exact|done|done].
  - apply slice_sound. by apply IH.
  - apply andb_true_iff in Hwf as [H1%Z.leb_le H2]. apply array_sound; [done|by apply IH].
  - by apply struct_sound.
  - intros s Hs. cbn [decoder]. apply wp_bind. eapply wp_mono; [by apply IH|done| |done].
    intros v s' (bs & HR & Hl & Ht). run_m. by exists bs.
  - apply andb_true_iff in Hwf as [H1 H2]. apply opt_sound; [done|by apply IH].
  - split; [done|]. intros Hwf. apply tail_sound. by apply IH.
  - intros s Hs. cbn [decoder]. unfold decodeInterface. apply (interface_sound (S (S (length (s_r s))))); [done|lia].
Qed.

(** ** Input as a whole *)

Lemma NewStream_ready b : Zlen b < 2 ^ 63 → ready (NewStream b (Zlen b)).
Proof.
  intros Hl. pose proof (Zlen_nonneg b). split; [|done]. split; [done| |done|done]. cbn. by case_if.
Qed.
