(* ===== verification/RlpComplete.v ===== *)
(** * RLP: the decoder reads back what the encoder wrote

    [reads m bs a]: from any state with [bs] ahead, [m] returns [a] and has
    taken [bs]. *)

From stdpp Require Import base tactics list numbers.
From S2P Require Import Prelude RlpEncode RlpEncodeFacts RlpDecode RlpStream RlpSound.

#[local] Open Scope Z_scope.
Import rlp rlpd.

Definition reads {A} (m : D A) (bs : list byte) (a : A) : Prop := ∀ s rest, ready s →
  s_r s = bs ++ rest → Zlen bs ≤ avail s → ∃ s', m s = (s', Val a) ∧ after (Zlen bs) s s'.

Lemma reads_ret {A B} (m : D A) bs a (f : A → B) : reads m bs a → reads (x ← m; mret (f x)) bs (f a).
Proof.
  intros H s rest Hs Hr Ha. destruct (H s rest Hs Hr Ha) as (s' & E & Haf). exists s'. split; [|done].
  unfold mbind, M_bind. by rewrite E.
Qed.
Lemma reads_wrapped {A} (m : D A) bs a : reads m bs a → reads (wrapped m) bs a.
Proof.
  intros H s rest Hs Hr Ha. destruct (H s rest Hs Hr Ha) as (s' & E & Haf). exists s'. split; [|done].
  unfold wrapped, attempt, mbind, M_bind. by rewrite E.
Qed.

Lemma Zlen_take_app {A} (l r : list A) n : Zlen l = n → take (Z.to_nat n) (l ++ r) = l.
Proof. intros H. apply take_app_length'. unfold Zlen in H. lia. Qed.

(** The state after the header of a string or list. *)
Lemma looked_string k n bv hd content rest s : ready s → is_head k n bv hd →
  s_r s = (hd ++ content) ++ rest → Zlen content = n → Zlen (hd ++ content) ≤ avail s →
  Kind_ s = (looked k n bv (skip (Zlen hd) s), Val (k, n)) ∧
  readFull n (looked k n bv (skip (Zlen hd) s)) = (skip n (looked k n bv (skip (Zlen hd) s)), Val content) ∧
  after (Zlen (hd ++ content)) s (skip n (looked k n bv (skip (Zlen hd) s))).
Proof.
  intros Hs Hh Hr Hl Ha. rewrite Zlen_app in *. pose proof (Zlen_nonneg hd). pose proof (Zlen_nonneg content).
  rewrite <- app_assoc in Hr.
  assert (good (looked k n bv (skip (Zlen hd) s))) as Hg by (apply looked_good, skip_good; [apply Hs|lia]).
  split_and!.
  - eapply Kind_ok; [done|done|done|lia].
  - rewrite readFull_ok; [|done|].
    + do 2 f_equal. cbn. rewrite Hr, drop_app_length' by (unfold Zlen; lia). by apply Zlen_take_app.
    + change (avail (looked k n bv (skip (Zlen hd) s))) with (avail (skip (Zlen hd) s)).
      rewrite skip_avail; [lia|apply Hs|lia].
  - rewrite Hl. eapply after_trans; [lia|lia|apply after_skip|]. apply (after_looked n k n bv), after_skip.
Qed.

Lemma avail_u63 s n : ready s → n ≤ avail s → n < 2 ^ 64.
Proof. intros [Hg _] Hn. pose proof (avail_le s Hg). destruct Hg. lia. Qed.

Lemma after_rearm k n bv (hd : list byte) s : after (Zlen hd) s (set_kind None (looked k n bv (skip (Zlen hd) s))).
Proof. by split. Qed.

Lemma single_inv b : is_single b = true → ∃ x, b = [x] ∧ byteZ x < 128.
Proof. destruct b as [|x [|]]; try done. simpl. intros H%Z.leb_le. exists x. split; [done|lia]. Qed.

Lemma Bytes_reads b : reads Bytes (enc_str b) b.
Proof.
  intros s rest Hs Hr Ha. unfold enc_str in *. destruct (is_single b) eqn:Eb.
  - destruct (single_inv b Eb) as (x & -> & Hx).
    pose proof (Kind_ok Byte 0 x [x] rest s Hs (head_byte x Hx) Hr ltac:(lia)) as EK.
    exists (set_kind None (looked Byte 0 x (skip (Zlen [x]) s))). split; [|apply after_rearm].
    unfold Bytes, mbind, M_bind. by rewrite EK.
  - assert (0 ≤ Zlen b < 2 ^ 64) as Hb.
    { split; [apply Zlen_nonneg|]. eapply avail_u63; [done|]. rewrite Zlen_app in Ha.
      pose proof (Zlen_nonneg (head 128 183 (Zlen b))). lia. }
    destruct (looked_string String (Zlen b) Byte.x00 _ b rest s Hs (head_string _ Hb) Hr eq_refl Ha) as (EK & EF & Haf).
    eexists. split; [|exact Haf]. unfold Bytes, mbind, M_bind. rewrite EK, EF.
    destruct b as [|x [|y b]]; [done| |done]. simpl in Eb. apply Z.leb_gt in Eb.
    by rewrite (proj2 (Z.ltb_ge _ _)) by lia.
Qed.

Lemma uint_reads bits v : 8 ≤ bits ≤ 64 → bits mod 8 = 0 → 0 ≤ v < 2 ^ bits → reads (uint bits) (enc_str (big_Bytes v)) v.
Proof.
  intros Hbits Hmod Hv s rest Hs Hr Ha.
  assert (v < 2 ^ 64) by (eapply Z.lt_le_trans; [apply Hv|apply Z.pow_le_mono_r; lia]).
  unfold enc_str in *. destruct (is_single (big_Bytes v)) eqn:Eb.
  - destruct (single_inv _ Eb) as (x & Ex & Hx). rewrite Ex in *.
    assert (byteZ x = v) as Hxv.
    { pose proof (be_bytes_big_Bytes v ltac:(lia)) as E. rewrite Ex in E. exact E. }
    pose proof (Kind_ok Byte 0 x [x] rest s Hs (head_byte x Hx) Hr ltac:(lia)) as EK.
    exists (set_kind None (looked Byte 0 x (skip (Zlen [x]) s))). split; [|apply after_rearm].
    unfold uint, mbind, M_bind. rewrite EK. unfold gets, rearm, modify. cbn. rewrite Hxv.
    destruct (Z.eqb_spec v 0) as [->|]; [done|]. done.
  - set (n := Zlen (big_Bytes v)) in *.
    assert (Hn : n ≤ bits / 8).
    { unfold n, big_Bytes, Zlen. rewrite length_be_bytes. pose proof (BitLen_nonneg v).
      rewrite Z2Nat.id by (apply Z.div_pos; lia).
      assert (BitLen v ≤ bits) by (apply BitLen_le; lia).
      pose proof (Z.div_mod bits 8 ltac:(lia)). apply Z.lt_succ_r, Z.div_lt_upper_bound; lia. }
    assert (bits / 8 ≤ 8) by (apply Z.div_le_upper_bound; lia). pose proof (Zlen_nonneg (big_Bytes v)).
    destruct (looked_string String n Byte.x00 _ (big_Bytes v) rest s Hs (head_string n ltac:(lia)) Hr eq_refl Ha)
      as (EK & _ & Haf).
    eexists. split; [|exact Haf]. unfold uint, mbind, M_bind. rewrite EK.
    rewrite Z.gtb_ltb, (proj2 (Z.ltb_ge _ _)) by lia. unfold attempt.
    destruct (Z.eq_dec v 0) as [->|Hv0].
    { unfold n. cbn. unfold skip, looked, modify, mret, M_ret, set_kind. cbn. rewrite Z.sub_0_r.
      do 2 f_equal. unfold adv. destruct (s_stack s); simpl; [done|]. by rewrite Z.add_0_r. }
    assert (1 ≤ n) by (pose proof (big_Bytes_pos v ltac:(lia)); lia).
    assert (good (looked String n Byte.x00 (skip (Zlen (head 128 183 n)) s))) as Hg.
    { apply looked_good, skip_good; [apply Hs|]. rewrite Zlen_app in Ha. pose proof (Zlen_nonneg (head 128 183 n)). lia. }
    rewrite (readUint_ok n (big_Bytes v) rest); [|done| |done|lia| |right; apply big_Bytes_leads; lia].
    + rewrite be_bytes_big_Bytes by lia. rewrite Z.gtb_ltb, (proj2 (Z.ltb_lt 0 n)) by lia. cbn.
      rewrite (proj2 (Z.ltb_ge v 128)); [done|]. destruct (Z.lt_ge_cases v 128); [|lia].
      rewrite big_Bytes_single in Eb by lia. unfold is_single in Eb. rewrite Zbyte_small in Eb by lia.
      apply Z.leb_gt in Eb. lia.
    + cbn. rewrite Hr, <- app_assoc. apply drop_app_length'. unfold Zlen. lia.
    + change (n ≤ avail (skip (Zlen (head 128 183 n)) s)). rewrite Zlen_app in Ha.
      rewrite skip_avail; [unfold n in *; lia|apply Hs|]. pose proof (Zlen_nonneg (head 128 183 n)). lia.
Qed.
Lemma Bool_reads b : reads Bool (enc_str (if b : bool then [Byte.x01] else [])) b.
Proof.
  assert (enc_str (if b : bool then [Byte.x01] else []) = enc_str (big_Bytes (if b : bool then 1 else 0))) as -> by by destruct b.
  intros s rest Hs Hr Ha.
  destruct (uint_reads 8 (if b then 1 else 0) ltac:(lia) eq_refl ltac:(destruct b; lia) s rest Hs Hr Ha) as (s' & E & Haf).
  exists s'. split; [|done]. unfold Bool, mbind, M_bind. rewrite E. by destruct b.
Qed.

Lemma byte_array_reads b : Zlen b ≠ 1 → reads (decodeByteArray (Zlen b)) (enc_str b) (VBytes b).
Proof.
  intros Hb1 s rest Hs Hr Ha. unfold enc_str in *.
  assert (is_single b = false) as Eb by (destruct b as [|? [|]]; try done).
  rewrite Eb in *. assert (0 ≤ Zlen b < 2 ^ 64) as Hb.
  { split; [apply Zlen_nonneg|]. eapply avail_u63; [done|]. rewrite Zlen_app in Ha.
    pose proof (Zlen_nonneg (head 128 183 (Zlen b))). lia. }
  destruct (looked_string String (Zlen b) Byte.x00 _ b rest s Hs (head_string _ Hb) Hr eq_refl Ha) as (EK & EF & Haf).
  eexists. split; [|exact Haf]. unfold decodeByteArray, mbind, M_bind. rewrite EK.
  rewrite Z.gtb_ltb, Z.ltb_irrefl, EF. by destruct b as [|x [|y b]].
Qed.

(** A raw value is a header and its content. *)
Definition raw_value (b : list byte) : Prop :=
  ∃ k n bv hd content, is_head k n bv hd ∧ Zlen content = n ∧ b = hd ++ content.
Lemma Raw_reads b : raw_value b → reads Raw b b.
Proof.
  intros (k & n & bv & hd & content & Hh & Hl & ->) s rest Hs Hr Ha.
  destruct (looked_string k n bv hd content rest s Hs Hh Hr Hl Ha) as (EK & EF & Haf).
  assert (∀ small large, 0 ≤ n < 2 ^ 64 → hd = head small large n →
    write_at 0 (puthead small large n) (zeros (headsize n) ++ content) = Some (hd ++ content)) as Hput.
  { intros small large Hn ->. rewrite puthead_head by done. unfold write_at.
    pose proof (head_length small large n Hn) as E. unfold Zlen in E.
    rewrite (proj2 (Z.leb_le _ _)) by (rewrite Zlen_app; unfold Zlen; rewrite length_zeros; lia).
    change (take (Z.to_nat 0) (zeros (headsize n) ++ content)) with (@nil byte). cbn [app].
    rewrite Z.add_0_l, drop_app_length'; [done|]. rewrite length_zeros. unfold Zlen. lia. }
  destruct Hh as [b Hb|n Hn|n Hn].
  - destruct content; [|unfold Zlen in Hl; simpl in Hl; lia]. rewrite app_nil_r in *.
    eexists. split; [unfold Raw, mbind, M_bind; by rewrite EK|apply after_rearm].
  - eexists. split; [|exact Haf]. unfold Raw, mbind, M_bind. rewrite EK, EF. unfold or_panic.
    by rewrite (Hput 0x80 0xB7 Hn eq_refl).
  - eexists. split; [|exact Haf]. unfold Raw, mbind, M_bind. rewrite EK, EF. unfold or_panic.
    by rewrite (Hput 0xC0 0xF7 Hn eq_refl).
Qed.

(** ** The end of a list *)

Definition ends {A} (m : D A) : Prop := ∀ s, ready s → at_end s → ∃ s', m s = (s', Err EOL) ∧ after 0 s s'.

Lemma Kind_end s : ready s → at_end s → Kind_ s = (set_kinderr None s, Err EOL).
Proof.
  intros [Hg Hk] [Hne Ha]. unfold Kind_, look_ahead, mbind, M_bind, gets, modify. rewrite Hk. cbn.
  unfold avail in Ha. destruct (s_stack s) as [|tos ?]; [done|]. by rewrite (proj2 (Z.eqb_eq _ _)) by lia.
Qed.
Lemma after_kinderr s : s_kind s = None → after 0 s (set_kinderr None s).
Proof. intros. by apply after_0. Qed.

Lemma decoder_ends t : wf t = true → ends (decoder t).
Proof.
  intros Hwf s Hs He. pose proof (Kind_end s Hs He) as EK. pose proof (after_kinderr s (proj2 Hs)) as Haf.
  induction t; try done; cbn [decoder wf] in *;
    try (exists (set_kinderr None s); split; [|done];
         unfold decodeUint, decodeBool, decodeString, decodeByteSlice, decodeBigInt, decodeRawValue,
           decodeByteArray, decodeListSlice, decodeListArray, decodeInterface, decodeInterface_loop,
           wrapped, Bool, uint, Bytes, Raw, List_, attempt, mbind, M_bind;
         by rewrite EK).
  - destruct (IHt Hwf) as (s' & E & Haf'). exists s'. split; [|done]. unfold mbind, M_bind. by rewrite E.
  - exists (set_kind None (set_kinderr None s)). split; [|by apply after_0].
    unfold optional_ptr, attempt, mbind, M_bind. by rewrite EK.
Qed.

(** ** Lists *)

Lemma List_reads n s rest : ready s → 0 ≤ n < 2 ^ 64 → s_r s = head 0xC0 0xF7 n ++ rest →
  Zlen (head 0xC0 0xF7 n) + n ≤ avail s →
  ∃ s1, List_ s = (s1, Val n) ∧ entered (head 0xC0 0xF7 n) n s s1 ∧ s_r s1 = rest.
Proof.
  intros Hs Hn Hr Ha. pose proof (Kind_ok List n Byte.x00 _ rest s Hs (head_list n Hn) Hr Ha) as EK.
  unfold List_, mbind, M_bind. rewrite EK. unfold modify.
  assert (drop (Z.to_nat (Zlen (head 192 247 n))) (s_r s) = rest) as Hd
    by (rewrite Hr; apply drop_app_length'; unfold Zlen; lia).
  eexists. split; [done|]. split; [|exact Hd]. split; try done. cbn. by rewrite Hd.
Qed.
Lemma ListEnd_reads hd n s s1 s2 bs : good s → 0 ≤ n → entered hd n s s1 → took_enc s1 s2 bs → Zlen bs = n →
  ∃ s3, ListEnd s2 = (s3, Val tt) ∧ after (Zlen (hd ++ bs)) s s3.
Proof.
  intros Hg Hn Hen Ht Hl. pose proof (ListEnd_wp hd n s s1 s2 bs Hg Hn Hen Ht) as H. unfold wpg in H.
  assert (∃ s3, ListEnd s2 = (s3, Val tt)) as [s3 E].
  { destruct (entered_ready _ _ _ _ Hg Hn Hen) as (Hs1 & Hav & Hne). destruct Hen as [_ _ _ _ _ Hst].
    destruct Ht as (_ & _ & [_ _ _ _ Hst2]). unfold ListEnd, mbind, M_bind, gets, modify. rewrite Hst2, Hst. cbn.
    rewrite Hl, Z.eqb_refl. cbn. eauto. }
  rewrite E in H. destruct H as [_ (_ & _ & Haf)]. by exists s3.
Qed.

(** What is read when all elements are read one after the other. *)
Lemma reads_took {A} (m : D A) bs a s rest : reads m bs a → ready s → s_r s = bs ++ rest → Zlen bs ≤ avail s →
  ∃ s', m s = (s', Val a) ∧ took_enc s s' bs ∧ ready s' ∧ s_r s' = rest.
Proof.
  intros H Hs Hr Ha. destruct (H s rest Hs Hr Ha) as (s' & E & Haf). exists s'.
  assert (s_r s' = rest) as Hr'.
  { destruct Haf as [-> _ _ _ _]. rewrite Hr. apply drop_app_length'. unfold Zlen. lia. }
  split_and!; [done| | |done].
  - split_and!; [by rewrite Hr'|done|done].
  - eapply after_good; [apply Hs| |done]. pose proof (Zlen_nonneg bs). lia.
Qed.

Lemma elems_reads {A} (m : D A) vs bss : ends m → Forall2 (λ v bs, reads m bs v ∧ 1 ≤ Zlen bs) vs bss →
  ∀ fuel acc s rest, ready s → s_stack s ≠ [] → s_r s = mjoin bss ++ rest → avail s = Zlen (mjoin bss) →
  (length vs < fuel)%nat →
  ∃ s', elems_loop m fuel acc s = (s', Val (acc ++ vs)) ∧ took_enc s s' (mjoin bss).
Proof.
  intros Hend HF. induction HF as [|v bs vs bss [Hv Hl] _ IH]; intros fuel acc s rest Hs Hne Hr Ha Hf;
    (destruct fuel as [|fuel]; [simpl in Hf; lia|]); cbn [elems_loop]; unfold attempt, mbind, M_bind.
  - destruct (Hend s Hs) as (s' & -> & Haf); [by split|]. exists s'. rewrite app_nil_r. split; [done|].
    split_and!; [by destruct Haf as [-> _ _ _ _]|rewrite Ha; done|done].
  - change (mjoin (bs :: bss)) with (bs ++ mjoin bss) in *. rewrite <- app_assoc in Hr. rewrite Zlen_app in Ha.
    pose proof (Zlen_nonneg (mjoin bss)).
    destruct (reads_took m bs v s _ Hv Hs Hr ltac:(lia)) as (s1 & -> & Ht & Hs1 & Hr1).
    destruct (IH fuel (acc ++ [v]) s1 rest) as (s' & -> & Ht').
    + done.
    + destruct Ht as (_ & _ & Haf). by apply (after_nonempty _ _ _ Haf).
    + done.
    + destruct Ht as (_ & _ & Haf). rewrite (after_avail (Zlen bs) s s1 (proj1 Hs) ltac:(lia) Haf). lia.
    + simpl in Hf. lia.
    + exists s'. rewrite <- app_assoc. split; [done|]. by eapply took_enc_trans; [apply Hs|done|done].
Qed.

Lemma Forall2_length_le {A} (P : A → list byte → Prop) vs bss : Forall2 (λ v bs, P v bs ∧ 1 ≤ Zlen bs) vs bss →
  (length vs ≤ length (mjoin bss))%nat.
Proof.
  induction 1 as [|v bs vs bss [_ Hl] _ IH]; [simpl; lia|]. change (mjoin (bs :: bss)) with (bs ++ mjoin bss).
  rewrite length_app. unfold Zlen in Hl. simpl. lia.
Qed.

Lemma slice_reads {A} (m : D A) vs bss : ends m → Forall2 (λ v bs, reads m bs v ∧ 1 ≤ Zlen bs) vs bss →
  reads (decodeListSlice m) (enc_list (mjoin bss)) vs.
Proof.
  intros Hend HF s rest Hs Hr Ha. unfold enc_list in *. set (p := mjoin bss) in *.
  rewrite Zlen_app in Ha. rewrite <- app_assoc in Hr. pose proof (Zlen_nonneg p).
  assert (0 ≤ Zlen p < 2 ^ 64) as Hp.
  { split; [done|]. eapply avail_u63; [done|]. pose proof (Zlen_nonneg (head 192 247 (Zlen p))). lia. }
  destruct (List_reads (Zlen p) s _ Hs Hp Hr Ha) as (s1 & EL & Hen & Hr1).
  destruct (entered_ready _ _ _ _ (proj1 Hs) ltac:(done) Hen) as (Hs1 & Hav & Hne).
  unfold decodeListSlice, wrapped, attempt, mbind, M_bind. rewrite EL. unfold mret, M_ret. cbv beta iota.
  destruct (Z.eqb_spec (Zlen p) 0) as [E0|].
  - assert (p = []) as Ep by (destruct p; [done|unfold Zlen in E0; simpl in E0; lia]).
    assert (vs = []) as ->.
    { pose proof (Forall2_length_le _ _ _ HF) as Hle. fold p in Hle. rewrite Ep in Hle. destruct vs; [done|simpl in Hle; lia]. }
    destruct (ListEnd_reads _ _ s s1 s1 [] (proj1 Hs) ltac:(done) Hen) as (s3 & E3 & Haf).
    + apply took_enc_nil; [apply Hs1|lia].
    + by rewrite E0.
    + rewrite E3. exists s3. split; [done|]. by rewrite Ep in *.
  - unfold decodeSliceElems.
    destruct (elems_reads m vs bss Hend HF (S (length (s_r s1))) [] s1 rest Hs1 Hne Hr1 Hav) as (s2 & E2 & Ht2).
    { rewrite Hr1, length_app. pose proof (Forall2_length_le _ _ _ HF) as Hle. fold p in Hle. lia. }
    rewrite E2. destruct (ListEnd_reads _ _ s s1 s2 p (proj1 Hs) ltac:(done) Hen Ht2 eq_refl) as (s3 & E3 & Haf).
    rewrite E3. by exists s3.
Qed.

Lemma array_loop_reads m vs bss : Forall2 (λ v bs, reads m bs v) vs bss →
  ∀ acc s rest, ready s → s_r s = mjoin bss ++ rest → Zlen (mjoin bss) ≤ avail s →
  ∃ s', array_loop m (length vs) acc s = (s', Val (acc ++ vs)) ∧ took_enc s s' (mjoin bss).
Proof.
  induction 1 as [|v bs vs bss Hv _ IH]; intros acc s rest Hs Hr Ha; cbn [array_loop length].
  - exists s. rewrite app_nil_r. split; [done|]. apply took_enc_nil; [apply Hs|done].
  - change (mjoin (bs :: bss)) with (bs ++ mjoin bss) in *. rewrite <- app_assoc in Hr. rewrite Zlen_app in Ha.
    pose proof (Zlen_nonneg (mjoin bss)). pose proof (Zlen_nonneg bs).
    destruct (reads_took m bs v s _ Hv Hs Hr ltac:(lia)) as (s1 & E1 & Ht & Hs1 & Hr1).
    unfold attempt, mbind, M_bind. rewrite E1.
    destruct (IH (acc ++ [v]) s1 rest Hs1 Hr1) as (s' & -> & Ht').
    + destruct Ht as (_ & _ & Haf). rewrite (after_avail (Zlen bs) s s1 (proj1 Hs) ltac:(lia) Haf). lia.
    + exists s'. rewrite <- app_assoc. split; [done|]. by eapply took_enc_trans; [apply Hs|done|done].
Qed.

(** A list whose elements [m] reads from inside the list. *)
Definition reads_inside {A} (m : D A) (bs : list byte) (a : A) : Prop := ∀ s rest, ready s → s_stack s ≠ [] →
  s_r s = bs ++ rest → avail s = Zlen bs → ∃ s', m s = (s', Val a) ∧ took_enc s s' bs.
Lemma enclosed_reads {A B} (m : D A) p a (f : A → B) : reads_inside m p a →
  reads (wrapped List_;; x ← m; wrapped ListEnd;; mret (f x)) (enc_list p) (f a).
Proof.
  intros Hm s rest Hs Hr Ha. unfold enc_list in *. rewrite Zlen_app in Ha. rewrite <- app_assoc in Hr.
  pose proof (Zlen_nonneg p).
  assert (0 ≤ Zlen p < 2 ^ 64) as Hp.
  { split; [done|]. eapply avail_u63; [done|]. pose proof (Zlen_nonneg (head 192 247 (Zlen p))). lia. }
  destruct (List_reads (Zlen p) s _ Hs Hp Hr Ha) as (s1 & EL & Hen & Hr1).
  destruct (entered_ready _ _ _ _ (proj1 Hs) ltac:(done) Hen) as (Hs1 & Hav & Hne).
  destruct (Hm s1 rest Hs1 Hne Hr1 Hav) as (s2 & E2 & Ht2).
  destruct (ListEnd_reads _ _ s s1 s2 p (proj1 Hs) ltac:(done) Hen Ht2 eq_refl) as (s3 & E3 & Haf).
  exists s3. split; [|done]. unfold wrapped, attempt, mbind, M_bind. rewrite EL. unfold mret, M_ret. cbv beta iota.
  rewrite E2. by rewrite E3.
Qed.

Lemma enclosed_reads_array m vs bss : Forall2 (λ v bs, reads m bs v) vs bss →
  reads (decodeListArray (Zlen vs) m) (enc_list (mjoin bss)) vs.
Proof.
  intros HF. unfold decodeListArray. replace (Z.to_nat (Zlen vs)) with (length vs) by (unfold Zlen; lia).
  pose proof (enclosed_reads (A := list value) (array_loop m (length vs) []) (mjoin bss) vs VList) as H.
  assert (reads_inside (array_loop m (length vs) []) (mjoin bss) vs) as Hin.
  { intros s rest Hs _ Hr Ha. destruct (array_loop_reads m vs bss HF [] s rest Hs Hr ltac:(lia)) as (s' & E & Ht). by exists s'. }
  intros s rest Hs Hr Ha. destruct (H Hin s rest Hs Hr Ha) as (s' & E & Haf). exists s'. split; [|done].
  revert E. unfold mbind, M_bind. destruct (wrapped List_ s) as [s1 []]; try done.
  destruct (array_loop m (length vs) [] s1) as [s2 []]; try done. destruct (wrapped ListEnd s2) as [s3 []]; try done.
  by intros [= -> ->].
Qed.

(** ** Interfaces *)

(** Looking at the next value first changes nothing. *)
Lemma reads_look {A} (m : D A) (f : Kind * Z → D A) bs a k n bv hd tl :
  is_head k n bv hd → bs = hd ++ tl → Zlen tl = n →
  (∀ s s1, Kind_ s = (s1, Val (k, n)) → f (k, n) s1 = m s) → reads m bs a → reads (Kind_ ≫= f) bs a.
Proof.
  intros Hh -> Hl Hf Hm s rest Hs Hr Ha. destruct (Hm s rest Hs Hr Ha) as (s' & E & Haf). exists s'. split; [|done].
  rewrite <- app_assoc in Hr. rewrite Zlen_app in Ha.
  pose proof (Kind_ok k n bv hd _ s Hs Hh Hr ltac:(lia)) as EK. unfold mbind, M_bind. rewrite EK, <- E. by apply Hf.
Qed.
Lemma enc_str_head b : Zlen b < 2 ^ 64 → ∃ k n bv hd tl, k ≠ List ∧ is_head k n bv hd ∧ Zlen tl = n ∧ enc_str b = hd ++ tl.
Proof.
  intros Hb. unfold enc_str. destruct (is_single b) eqn:E.
  - destruct (single_inv b E) as (x & -> & Hx). exists Byte, 0, x, [x], []. split_and!; [done|by constructor|done|done].
  - exists String, (Zlen b), Byte.x00, (head 0x80 0xB7 (Zlen b)), b. split_and!; [done| |done|done].
    constructor. pose proof (Zlen_nonneg b). lia.
Qed.
Lemma enc_list_raw p : Zlen p < 2 ^ 64 → raw_value (enc_list p).
Proof.
  intros Hp. exists List, (Zlen p), Byte.x00, (head 0xC0 0xF7 (Zlen p)), p. split_and!; [|done|done].
  constructor. pose proof (Zlen_nonneg p). lia.
Qed.

(** ** Values that come back *)

(** What the encoding keeps: no nil pointers but those of [nil] fields, whose
    values are not encoded as nothing; byte strings and lists inside
    interfaces; raw values that are values. *)
Definition nothing (bs : list byte) : Prop := bs = [Zbyte 0x80] ∨ bs = [Zbyte 0xC0].
Fixpoint plain (t : typ) (v : value) : Prop :=
  match t, v with
  | TUint bits, VUint i => 0 ≤ i < 2 ^ bits ∧ bits mod 8 = 0
  | TBool, VBool _ | TString, VBytes _ | TBytes, VBytes _ => True
  | TBigInt, VBig (Some i) => 0 ≤ i
  | TByteArray n, VBytes b => Zlen b = n
  | TRaw, VBytes b => raw_value b
  | TSlice t, VList vs | TTail t, VList vs =>
      (fix all (vs : list value) : Prop := match vs with [] => True | v :: vs => plain t v ∧ all vs end) vs
  | TArray n t, VList vs => Zlen vs = n ∧
      (fix all (vs : list value) : Prop := match vs with [] => True | v :: vs => plain t v ∧ all vs end) vs
  | TStruct ts, VList vs =>
      (fix fields (ts : list typ) (vs : list value) {struct vs} : Prop :=
         match vs, ts with
         | [], [] => True
         | v :: vs, t :: ts => plain t v ∧ fields ts vs
         | _, _ => False
         end) ts vs
  | TPtr t, VPtr (Some v) => plain t v
  | TOptPtr t, VPtr None => nothing (enc_nil t)
  | TOptPtr t, VPtr (Some v) => plain t v ∧ ∀ bs, enc t v = Some bs → ¬ nothing bs
  | TInterface, VInterface (Some (t, v)) =>
      match t with TBytes | TSlice TInterface => plain t v | _ => False end
  | _, _ => False
  end.
Fixpoint plain_fields (ts : list typ) (vs : list value) {struct vs} : Prop :=
  match vs, ts with
  | [], [] => True
  | v :: vs, t :: ts => plain t v ∧ plain_fields ts vs
  | _, _ => False
  end.
Lemma plain_elems t vs :
  (fix all (vs : list value) : Prop := match vs with [] => True | v :: vs => plain t v ∧ all vs end) vs
  ↔ Forall (plain t) vs.
Proof.
  induction vs as [|v vs IH]; [by split; [constructor|]|]. rewrite Forall_cons_iff. tauto.
Qed.

Lemma interface_reads fuel : ∀ v bs, plain TInterface v → enc TInterface v = Some bs → Zlen bs < 2 ^ 64 →
  (length bs < fuel)%nat → reads (decodeInterface_loop fuel) bs v ∧ 1 ≤ Zlen bs.
Proof.
  induction fuel as [|fuel IH]; intros v bs Hp He H64 Hl; [lia|]. cbn [decodeInterface_loop].
  destruct v as [| | | | | |[[t v]|]]; try done. destruct t as [| | | | | | |t| | | | | |]; try done.
  - destruct v as [| | |b| | |]; try done. injection He as <-. split; [|apply enc_str_pos].
    pose proof (enc_str_length b). destruct (enc_str_head b ltac:(lia)) as (k & n & bv & hd & tl & Hk & Hh & Htl & E).
    eapply reads_look; [done|done|done| |apply (reads_ret Bytes _ b (λ b, VInterface (Some (TBytes, VBytes b)))), Bytes_reads].
    intros s s1 EK. destruct k; try done; apply bind_eq; by eapply bind_again.
  - destruct t; try done. destruct v as [| | | |vs| |]; try done. cbn [enc] in He. cbn [plain] in Hp. rewrite plain_elems in Hp.
    apply fmap_Some in He as (p & He & ->). apply fmap_Some in He as (bss & Hm%mapM_Some & ->).
    split; [|apply enc_list_pos]. pose proof (enc_list_length (mjoin bss)).
    assert (Hlt : (length (mjoin bss) < length (enc_list (mjoin bss)))%nat).
    { unfold enc_list. rewrite length_app. pose proof (head_length_ge 0xC0 0xF7 (Zlen (mjoin bss))). unfold Zlen in *. lia. }
    assert (0 ≤ Zlen (mjoin bss) < 2 ^ 64) as Hz64 by (split; [apply Zlen_nonneg|lia]).
    assert (reads (decodeListSlice (decodeInterface_loop fuel)) (enc_list (mjoin bss)) vs) as Hrd.
    { apply slice_reads.
      - intros s Hs Hend. exists (set_kinderr None s). split; [|by apply after_kinderr, Hs].
        destruct fuel; [lia|]. cbn [decodeInterface_loop]. unfold mbind, M_bind. by rewrite Kind_end.
      - assert (length (mjoin bss) < fuel)%nat as Hf by lia. assert (Zlen (mjoin bss) < 2 ^ 64) as Hz by lia.
        clear -IH Hm Hp Hf Hz. induction Hm as [|v bs vs bss Hv _ IHm]; constructor.
        + apply Forall_cons_iff in Hp as [Hpv _]. change (mjoin (bs :: bss)) with (bs ++ mjoin bss) in *.
          rewrite length_app in Hf. rewrite Zlen_app in Hz. pose proof (Zlen_nonneg (mjoin bss)). apply IH; [done|done|lia|lia].
        + apply Forall_cons_iff in Hp as [_ Hp]. change (mjoin (bs :: bss)) with (bs ++ mjoin bss) in *.
          rewrite length_app in Hf. rewrite Zlen_app in Hz. pose proof (Zlen_nonneg bs). apply IHm; [done|lia|lia]. }
    eapply reads_look; [by apply (head_list (Zlen (mjoin bss)))|done|done| |].
    2: apply (reads_ret (decodeListSlice (decodeInterface_loop fuel)) _ vs
                (λ vs, VInterface (Some (TSlice TInterface, VList vs))) Hrd).
    intros s s1 EK. apply bind_eq. unfold decodeListSlice. apply bind_eq, wrapped_eq. by eapply bind_again.
Qed.

(** ** Every type *)

Definition comes_back (v : value) : Prop := ∀ t bs, plain t v → enc t v = Some bs → Zlen bs < 2 ^ 64 →
  (wf t = true → reads (decoder t) bs v ∧ raw_value bs) ∧
  (is_tail t = true → wf_field t = true → reads_inside (decoder t) bs v).

Lemma reads_is_inside {A} (m : D A) bs a : reads m bs a → reads_inside m bs a.
Proof.
  intros H s rest Hs _ Hr Ha. destruct (reads_took m bs a s rest H Hs Hr) as (s' & ? & ? & _); [lia|]. by exists s'.
Qed.

Lemma enc_str_raw b : Zlen b < 2 ^ 64 → raw_value (enc_str b).
Proof. intros Hb. destruct (enc_str_head b Hb) as (k & n & bv & hd & tl & _ & ? & ? & ?). by exists k, n, bv, hd, tl. Qed.
Lemma raw_pos b : raw_value b → 1 ≤ Zlen b.
Proof.
  intros (k & n & bv & hd & tl & Hh & _ & ->). rewrite Zlen_app. pose proof (Zlen_nonneg tl).
  assert (1 ≤ Zlen hd) by (destruct Hh; [done|apply head_length_ge..]). lia.
Qed.

Lemma elems_come_back t vs bss : wf t = true → Forall comes_back vs → Forall (plain t) vs →
  Forall2 (λ v bs, enc t v = Some bs) vs bss → Zlen (mjoin bss) < 2 ^ 64 →
  Forall2 (λ v bs, reads (decoder t) bs v ∧ 1 ≤ Zlen bs) vs bss.
Proof.
  intros Hwf Hcb Hp HF Hz. induction HF as [|v bs vs bss Hv _ IH]; constructor;
    apply Forall_cons_iff in Hcb as [Hcv Hcb], Hp as [Hpv Hp];
    change (mjoin (bs :: bss)) with (bs ++ mjoin bss) in *; rewrite Zlen_app in Hz;
    pose proof (Zlen_nonneg (mjoin bss)); pose proof (Zlen_nonneg bs).
  - destruct (Hcv t bs Hpv Hv ltac:(lia)) as [Hr _]. destruct (Hr Hwf). split; [done|by apply raw_pos].
  - apply IH; [done|done|lia].
Qed.

Lemma fields_come_back ts vs bs : wf (TStruct ts) = true → Forall comes_back vs → plain_fields ts vs →
  enc_fields ts vs = Some bs → Zlen bs < 2 ^ 64 → reads_inside (decode_fields ts) bs vs.
Proof.
  intros Hwf Hcb. revert ts bs Hwf. induction Hcb as [|v vs Hv _ IH]; intros [|t ts] bs Hwf Hp He Hz; try done.
  { injection He as <-. intros s rest Hs _ Hr Ha. exists s. split; [done|]. apply took_enc_nil; [apply Hs|rewrite Ha; done]. }
  destruct Hp as [Hpv Hp]. apply wf_struct in Hwf as (Hwt & Hwf & Htail). cbn [enc_fields] in He.
  destruct (enc t v) as [b1|] eqn:E1; [|done]. destruct (enc_fields ts vs) as [b2|] eqn:E2; [|done].
  injection He as <-. rewrite Zlen_app in Hz. pose proof (Zlen_nonneg b1). pose proof (Zlen_nonneg b2).
  destruct (Hv t b1 Hpv E1 ltac:(lia)) as [Hplain Htl].
  intros s rest Hs Hne Hr Ha. rewrite <- app_assoc in Hr. rewrite Zlen_app in Ha.
  assert (∃ s1, decoder t s = (s1, Val v) ∧ took_enc s s1 b1) as (s1 & E & Ht).
  { destruct (is_tail t) eqn:Et.
    - rewrite (Htail eq_refl) in E2. assert (b2 = []) as -> by (destruct vs; by injection E2).
      apply (Htl eq_refl Hwt s ([] ++ rest)); [done|done|done|]. change (Zlen []) with 0 in Ha. lia.
    - destruct (reads_took (decoder t) b1 v s (b2 ++ rest)) as (s1 & ? & ? & _); [|done|done|lia|by exists s1].
      apply Hplain. by destruct t. }
  pose proof (took_enc_ready _ _ _ (proj1 Hs) Ht) as Hs1. destruct Ht as (Hr1 & Ha1 & Haf).
  destruct (IH ts b2 Hwf Hp E2 ltac:(lia) s1 rest Hs1) as (s2 & E' & Ht2).
  - by apply (after_nonempty _ _ _ Haf).
  - rewrite Hr in Hr1. by apply app_inv_head in Hr1.
  - rewrite (after_avail (Zlen b1) s s1 (proj1 Hs) ltac:(lia) Haf). lia.
  - exists s2. split; [|by eapply took_enc_trans; [apply Hs|done|done]].
    cbn [decode_fields]. unfold attempt, mbind, M_bind. rewrite E. by rewrite E'.
Qed.

Lemma opt_reads t v bs : looks t = true → raw_value bs → ¬ nothing bs → reads (decoder t) bs v →
  reads (optional_ptr (decoder t)) bs (VPtr (Some v)).
Proof.
  intros Hl (k & n & bv & hd & tl & Hh & Htl & ->) Hno Hm s rest Hs Hr Ha.
  destruct (Hm s rest Hs Hr Ha) as (s' & E & Haf). exists s'. split; [|done].
  rewrite <- app_assoc in Hr. rewrite Zlen_app in Ha.
  pose proof (Kind_ok k n bv hd _ s Hs Hh Hr ltac:(lia)) as EK.
  unfold optional_ptr, attempt, mbind, M_bind. rewrite EK.
  assert ((n =? 0) && negb (bool_decide (k = Byte)) = false) as ->.
  { destruct (Z.eqb_spec n 0) as [->|]; [|done]. destruct tl; [|unfold Zlen in Htl; simpl in Htl; lia].
    rewrite app_nil_r in Hno. inversion Hh; subst; [done| |]; exfalso; apply Hno; [by left|by right]. }
  rewrite (decoder_again t s _ k n Hl EK). by rewrite E.
Qed.
Lemma opt_reads_nil t bs : nothing bs → reads (optional_ptr (decoder t)) bs (VPtr None) ∧ raw_value bs.
Proof.
  intros Hno.
  assert (∃ k, k ≠ Byte ∧ is_head k 0 Byte.x00 bs) as (k & Hk & Hh).
  { destruct Hno as [-> | ->]; [exists String|exists List]; (split; [done|]).
    - by apply (head_string 0).
    - by apply (head_list 0). }
  split; [|exists k, 0, Byte.x00, bs, []; by rewrite app_nil_r].
  intros s rest Hs Hr Ha. pose proof (Kind_ok k 0 Byte.x00 bs rest s Hs Hh Hr ltac:(lia)) as EK.
  eexists. split; [|apply after_rearm]. unfold optional_ptr, attempt, mbind, M_bind. rewrite EK.
  rewrite bool_decide_eq_false_2 by done. done.
Qed.

(** Case analysis on the type of a value: the types of another shape are
    excluded by [plain]. *)
Ltac by_type Hp He t :=
  destruct t; try done; cbn [enc] in He; rewrite ?enc_struct in He; cbn [decoder];
  (split; [intros Hwf; cbn in Hwf; try done|intros Ht Hwf; try done]); try (injection He as <-).

Lemma VBytes_comes_back b : comes_back (VBytes b).
Proof.
  intros t bs Hp He Hz. by_type Hp He t; try (pose proof (enc_str_length b); split; [|apply enc_str_raw; lia]).
  - apply (reads_ret _ _ _ VBytes), reads_wrapped, Bytes_reads.
  - apply (reads_ret _ _ _ VBytes), reads_wrapped, Bytes_reads.
  - cbn in Hp. subst len. apply byte_array_reads. by apply andb_true_iff in Hwf as [_ H2%negb_true_iff%Z.eqb_neq].
  - split; [|done]. by apply (reads_ret _ _ _ VBytes), Raw_reads.
Qed.
Lemma VBig_comes_back z : comes_back (VBig z).
Proof.
  intros t bs Hp He Hz. by_type Hp He t. destruct z as [z|]; [|done].
  cbn in Hp. rewrite (proj2 (Z.ltb_ge z 0)) in He by lia. injection He as <-.
  pose proof (enc_str_length (big_Bytes z)). split; [|apply enc_str_raw; lia].
  intros s rest Hs Hr Ha. destruct (reads_wrapped _ _ _ (Bytes_reads (big_Bytes z)) s rest Hs Hr Ha) as (s' & E & Haf).
  exists s'. split; [|done]. unfold decodeBigInt, mbind, M_bind. rewrite E.
  pose proof (big_Bytes_leads z Hp) as Hlead. pose proof (be_bytes_big_Bytes z Hp) as Hval.
  destruct (big_Bytes z) as [|x l]; [by rewrite Hval|]. rewrite Hval. by destruct x.
Qed.
Lemma VList_comes_back vs : Forall comes_back vs → comes_back (VList vs).
Proof.
  intros IH t bs Hp He Hz. by_type Hp He t.
  - apply fmap_Some in He as (p & He & ->). apply fmap_Some in He as (bss & Hm%mapM_Some & ->).
    cbn [plain] in Hp. rewrite plain_elems in Hp. pose proof (enc_list_length (mjoin bss)).
    assert (Zlen (mjoin bss) < 2 ^ 64) by lia. split; [|by apply enc_list_raw].
    apply (reads_ret _ _ _ VList). apply slice_reads; [by apply decoder_ends|by apply elems_come_back].
  - apply fmap_Some in He as (p & He & ->). apply fmap_Some in He as (bss & Hm%mapM_Some & ->).
    cbn [plain] in Hp. rewrite plain_elems in Hp. destruct Hp as [Hlen Hp]. pose proof (enc_list_length (mjoin bss)).
    assert (Zlen (mjoin bss) < 2 ^ 64) by lia. split; [|by apply enc_list_raw].
    apply andb_true_iff in Hwf as [_ Hwf]. pose proof (elems_come_back _ _ _ Hwf IH Hp Hm ltac:(done)) as Hel.
    subst len. apply (reads_ret (decodeListArray _ _) _ _ VList), enclosed_reads_array.
    eapply Forall2_impl; [|exact Hel]. by intros ? ? [? _].
  - apply fmap_Some in He as (p & He & ->). pose proof (enc_list_length p). split; [|apply enc_list_raw; lia].
    apply (enclosed_reads (decode_fields fields) p vs VList). apply fields_come_back; [done|done|done|done|lia].
  - apply fmap_Some in He as (bss & Hm%mapM_Some & ->). cbn [plain] in Hp. rewrite plain_elems in Hp. cbn in Hwf.
    intros s rest Hs Hne Hr Ha. pose proof (elems_come_back _ _ _ Hwf IH Hp Hm Hz) as Hel.
    destruct (elems_reads (decoder t) vs bss (decoder_ends t Hwf) Hel (S (length (s_r s))) [] s rest Hs Hne Hr Ha)
      as (s' & E & Htk).
    { rewrite Hr, length_app. pose proof (Forall2_length_le _ _ _ Hel). lia. }
    exists s'. split; [|done]. unfold decodeSliceElems, mbind, M_bind. by rewrite E.
Qed.
Lemma VInterface_comes_back t' v : comes_back (VInterface (Some (t', v))).
Proof.
  intros t bs Hp He Hz. by_type Hp He t. split.
  - intros s rest Hs Hr Ha. unfold decodeInterface.
    apply (interface_reads (S (S (length (s_r s)))) (VInterface (Some (t', v))) bs Hp He Hz) with rest; try done.
    rewrite Hr, length_app. lia.
  - cbn [plain] in Hp. destruct t'; try done; destruct v; try done; cbn [enc] in He.
    + injection He as <-. pose proof (enc_str_length b). apply enc_str_raw. lia.
    + destruct t'; try done. apply fmap_Some in He as (p & _ & ->). pose proof (enc_list_length p). apply enc_list_raw. lia.
Qed.

Lemma value_comes_back v : comes_back v.
Proof.
  induction v as [z|b|z|b|vs IH| |v IH| |t' v IH] using value_ind';
    [|  |apply VBig_comes_back|apply VBytes_comes_back|by apply VList_comes_back| | | |apply VInterface_comes_back];
    intros t bs Hp He Hz; by_type Hp He t.
  - destruct Hp as [Hz' Hm]. apply andb_true_iff in Hwf as [H1%Z.leb_le H2%Z.leb_le].
    pose proof (enc_str_length (big_Bytes z)). split; [|apply enc_str_raw; lia].
    by apply (reads_ret _ _ _ VUint), reads_wrapped, uint_reads.
  - split; [|destruct b; by apply enc_str_raw]. apply (reads_ret _ _ _ VBool), reads_wrapped, Bool_reads.
  - by apply opt_reads_nil.
  - destruct (IH t bs Hp He Hz) as [Hr _]. destruct (Hr Hwf). split; [|done]. by apply (reads_ret _ _ _ (λ v, VPtr (Some v))).
  - apply andb_true_iff in Hwf as [Hl Hwf]. destruct Hp as [Hp Hno]. destruct (IH t bs Hp He Hz) as [Hr _].
    destruct (Hr Hwf). split; [|done]. apply opt_reads; [done|done|by apply Hno|done].
Qed.
