(* ===== verification/RlpRaw.v ===== *)
(** * RLP: splitting encoded values

    [src/common/rlp/raw.go], which takes values apart without decoding them,
    as the trie does with its nodes; and what splitting means: the input is an
    encoding followed by the rest. *)

From stdpp Require Import base tactics list numbers.
From S2P Require Import Prelude RlpEncode RlpEncodeFacts RlpDecode RlpStream RlpSound RlpComplete.

#[local] Open Scope Z_scope.

Module raw.
Import rlp rlpd.

(** The eight cases of [readSize]: the bytes shifted and or-ed together. *)
Definition or_bytes (b : list byte) : Z := foldl (λ s x, Z.lor (Z.shiftl s 8) (byteZ x)) 0 b.
Definition readSize (b : list byte) (slen : Z) : outcome rlp_error Z :=
  if slen >? Zlen b then Err io_ErrUnexpectedEOF
  else
    let s := or_bytes (take (Z.to_nat slen) b) in
    match b with
    | [] => Panic
    | b0 :: _ => if (s <? 56) || (byteZ b0 =? 0) then Err ErrCanonSize else Val s
    end.

(** Kind, tag size and content size. *)
Definition check_size (buf : list byte) (k : Kind) (tagsize contentsize : Z) : outcome rlp_error (Kind * Z * Z) :=
  if contentsize >? u64 (Zlen buf - tagsize) then Err ErrValueTooLarge else Val (k, tagsize, contentsize).
Definition sized (buf : list byte) (k : Kind) (tagsize : Z) (size : outcome rlp_error Z) : outcome rlp_error (Kind * Z * Z) :=
  match size with
  | Val n => check_size buf k tagsize n
  | Err e => Err e
  | Panic => Panic
  | NoFuel => NoFuel
  end.
Definition readKind (buf : list byte) : outcome rlp_error (Kind * Z * Z) :=
  match buf with
  | [] => Err io_ErrUnexpectedEOF
  | b :: tl =>
      let b' := byteZ b in
      if b' <? 0x80 then check_size buf Byte 0 1
      else if b' <? 0xB8 then
        let contentsize := b' - 0x80 in
        if contentsize =? 1 then
          match tl with
          | [] => Panic
          | x :: _ => if byteZ x <? 128 then Err ErrCanonSize else check_size buf String 1 contentsize
          end
        else check_size buf String 1 contentsize
      else if b' <? 0xC0 then sized buf String (b' - 0xB7 + 1) (readSize tl (b' - 0xB7))
      else if b' <? 0xF8 then check_size buf List 1 (b' - 0xC0)
      else sized buf List (b' - 0xF7 + 1) (readSize tl (b' - 0xF7))
  end.

Definition Split (b : list byte) : outcome rlp_error (Kind * list byte * list byte) :=
  match readKind b with
  | Val (k, ts, cs) => Val (k, slice ts (ts + cs) b, drop (Z.to_nat (ts + cs)) b)
  | Err e => Err e
  | Panic => Panic
  | NoFuel => NoFuel
  end.
Definition SplitString (b : list byte) : outcome rlp_error (list byte * list byte) :=
  match Split b with
  | Val (List, _, _) => Err ErrExpectedString
  | Val (_, content, rest) => Val (content, rest)
  | Err e => Err e
  | Panic => Panic
  | NoFuel => NoFuel
  end.
Definition SplitList (b : list byte) : outcome rlp_error (list byte * list byte) :=
  match Split b with
  | Val (List, content, rest) => Val (content, rest)
  | Val _ => Err ErrExpectedList
  | Err e => Err e
  | Panic => Panic
  | NoFuel => NoFuel
  end.

(** Every value takes at least a byte. *)
Fixpoint CountValues_loop (fuel : nat) (b : list byte) (i : Z) : outcome rlp_error Z :=
  match fuel with
  | O => NoFuel
  | S fuel' =>
      match b with
      | [] => Val i
      | _ =>
          match readKind b with
          | Val (_, tagsize, size) => CountValues_loop fuel' (drop (Z.to_nat (tagsize + size)) b) (i + 1)
          | Err e => Err e
          | Panic => Panic
          | NoFuel => NoFuel
          end
      end
  end.
Definition CountValues (b : list byte) : outcome rlp_error Z := CountValues_loop (S (length b)) b 0.

End raw.

Import rlp rlpd.

Lemma lor_shiftl_add x y n : 0 ≤ n → 0 ≤ y < 2 ^ n → Z.lor (Z.shiftl x n) y = x * 2 ^ n + y.
Proof.
  intros Hn Hy. assert (Z.land (Z.shiftl x n) y = 0) as Hland.
  { apply Z.bits_inj'. intros i Hi. rewrite Z.land_spec, Z.bits_0. destruct (Z.lt_ge_cases i n).
    - by rewrite Z.shiftl_spec_low.
    - rewrite <- (Z.mod_small y (2 ^ n)), Z.mod_pow2_bits_high by lia. apply andb_false_r. }
  rewrite <- Z.lxor_lor, <- Z.add_nocarry_lxor, Z.shiftl_mul_pow2 by done. done.
Qed.
Lemma or_bytes_SetBytes b : raw.or_bytes b = SetBytes b.
Proof.
  unfold raw.or_bytes, SetBytes. generalize 0. induction b as [|x b IH]; intros acc; [done|]. simpl. rewrite IH. f_equal.
  apply (lor_shiftl_add acc (byteZ x) 8); [lia|apply byteZ_range].
Qed.

(** ** Splitting is taking an encoding off the input *)

(** The encoding whose content [Split] returns. *)
Definition split_enc (k : Kind) (content : list byte) : list byte :=
  match k with
  | Byte => content
  | String => head 0x80 0xB7 (Zlen content) ++ content
  | List => enc_list content
  end.
Definition split_ok (k : Kind) (content : list byte) : Prop :=
  match k with Byte => is_single content = true | String => is_single content = false | List => True end.

Lemma check_size_ok buf k ts cs : 0 ≤ ts → 0 ≤ cs → ts + cs ≤ Zlen buf < 2 ^ 63 →
  raw.check_size buf k ts cs = Val (k, ts, cs).
Proof. intros. unfold raw.check_size. rewrite u64_id, Z.gtb_ltb, (proj2 (Z.ltb_ge _ _)) by lia. done. Qed.
Lemma check_size_inv buf k ts cs r : 0 ≤ ts ≤ Zlen buf → Zlen buf < 2 ^ 63 →
  raw.check_size buf k ts cs = Val r → r = (k, ts, cs) ∧ ts + cs ≤ Zlen buf.
Proof. intros Hts Hl. unfold raw.check_size. rewrite u64_id by lia. case_if; [done|]. intros [= <-]. split; [done|lia]. Qed.

Lemma readSize_ok n rest : 56 ≤ n < 2 ^ 64 → raw.readSize (big_Bytes n ++ rest) (Zlen (big_Bytes n)) = Val n.
Proof.
  intros Hn. pose proof (big_Bytes_pos n ltac:(lia)). pose proof (big_Bytes_leads n ltac:(lia)) as Hl.
  unfold raw.readSize. rewrite Z.gtb_ltb, (proj2 (Z.ltb_ge _ _)) by (rewrite Zlen_app; pose proof (Zlen_nonneg rest); lia).
  rewrite Zlen_take_app, or_bytes_SetBytes, be_bytes_big_Bytes by (done || lia).
  destruct (big_Bytes n) as [|b bs]; [unfold Zlen in *; simpl in *; lia|]. simpl in Hl |- *.
  rewrite (proj2 (Z.ltb_ge n 56)), (proj2 (Z.eqb_neq _ _)) by (done || lia). done.
Qed.
Lemma readSize_inv tl m n : 1 ≤ m ≤ 8 → raw.readSize tl m = Val n →
  56 ≤ n < 2 ^ 64 ∧ Zlen (big_Bytes n) = m ∧ ∃ rest, tl = big_Bytes n ++ rest.
Proof.
  intros Hm. unfold raw.readSize. case_if; [done|]. rewrite or_bytes_SetBytes.
  set (b := take (Z.to_nat m) tl). assert (Zlen b = m) as Hb by (subst b; unfold Zlen in *; rewrite length_take; lia).
  destruct tl as [|b0 tl']; [done|]. destruct ((SetBytes b <? 56) || (byteZ b0 =? 0)) eqn:Ec; [done|].
  apply orb_false_iff in Ec as [E1%Z.ltb_ge E2%Z.eqb_neq]. intros [= <-].
  assert (leads b) as Hl.
  { subst b. replace (Z.to_nat m) with (S (Z.to_nat (m - 1))) by lia. done. }
  rewrite big_Bytes_SetBytes by done. pose proof (SetBytes_range b) as [_ Hu]. split_and!; try done.
  - eapply Z.lt_le_trans; [exact Hu|]. change (2 ^ 64) with (256 ^ 8). apply Z.pow_le_mono_r; lia.
  - exists (drop (Z.to_nat m) (b0 :: tl')). subst b. by rewrite take_drop.
Qed.
Lemma readSize_not_panic tl m : 1 ≤ m → raw.readSize tl m ≠ Panic ∧ raw.readSize tl m ≠ NoFuel.
Proof.
  intros Hm. unfold raw.readSize. case_if; [done|]. destruct tl; [unfold Zlen in *; simpl in *; lia|]. by case_if.
Qed.

Lemma slice_mid {A} (hd mid rest : list A) : slice (Zlen hd) (Zlen hd + Zlen mid) (hd ++ mid ++ rest) = mid.
Proof.
  unfold slice. replace (Zlen hd + Zlen mid - Zlen hd) with (Zlen mid) by lia.
  rewrite drop_app_length' by (unfold Zlen; lia). by apply Zlen_take_app.
Qed.
Lemma drop_mid {A} (hd mid rest : list A) : drop (Z.to_nat (Zlen hd + Zlen mid)) (hd ++ mid ++ rest) = rest.
Proof. rewrite app_assoc. apply drop_app_length'. rewrite length_app. unfold Zlen. lia. Qed.
Lemma Split_of_readKind k hd mid rest : raw.readKind (hd ++ mid ++ rest) = Val (k, Zlen hd, Zlen mid) →
  raw.Split (hd ++ mid ++ rest) = Val (k, mid, rest).
Proof. intros E. unfold raw.Split. by rewrite E, slice_mid, drop_mid. Qed.

(** The header of a string or list, short or long. *)
Lemma readKind_sized_ok k (small large : Z) content rest :
  (k = String ∧ small = 0x80 ∧ large = 0xB7) ∨ (k = List ∧ small = 0xC0 ∧ large = 0xF7) →
  (k = String → is_single content = false) →
  Zlen (head small large (Zlen content) ++ content ++ rest) < 2 ^ 63 →
  raw.readKind (head small large (Zlen content) ++ content ++ rest) =
    Val (k, Zlen (head small large (Zlen content)), Zlen content).
Proof.
  intros Hk Hsing Hlen. rewrite !Zlen_app in Hlen. set (n := Zlen content) in *.
  pose proof (Zlen_nonneg content). pose proof (Zlen_nonneg rest).
  pose proof (Zlen_nonneg (head small large n)). fold n in H.
  assert (∀ tag, Zlen (head small large n) = tag →
    raw.check_size (head small large n ++ content ++ rest) k tag n = Val (k, Zlen (head small large n), n)) as Hchk.
  { intros tag <-. apply check_size_ok; [lia|lia|]. rewrite !Zlen_app. fold n. lia. }
  destruct (Z.lt_ge_cases n 56).
  - rewrite head_short in * by done. specialize (Hchk 1 eq_refl). unfold raw.readKind. cbn [app] in *.
    destruct Hk as [(-> & -> & ->)|(-> & -> & ->)]; head_byte.
    + replace (128 + n - 128) with n by lia. rewrite Hchk. case_if; [|done].
      specialize (Hsing eq_refl). subst n. destruct content as [|x [|]]; unfold Zlen in E; simpl in E; try lia.
      apply Z.leb_gt in Hsing. cbn [app]. by rewrite (proj2 (Z.ltb_ge _ _)) by lia.
    + by replace (192 + n - 192) with n by lia.
  - rewrite head_long in * by done. pose proof (big_Bytes_pos n ltac:(lia)).
    assert (raw.check_size (Zbyte (large + Zlen (big_Bytes n)) :: big_Bytes n ++ content ++ rest) k (Zlen (big_Bytes n) + 1) n =
      Val (k, Zlen (Zbyte (large + Zlen (big_Bytes n)) :: big_Bytes n), n)) as Hchk'.
    { apply Hchk. unfold Zlen. simpl. lia. }
    unfold raw.readKind. cbn [app].
    destruct Hk as [(-> & -> & ->)|(-> & -> & ->)]; head_byte;
      [replace (183 + _ - 183) with (Zlen (big_Bytes n)) by lia|replace (247 + _ - 247) with (Zlen (big_Bytes n)) by lia];
      rewrite readSize_ok by lia; exact Hchk'.
Qed.

(** An encoding followed by anything is split there. *)
Lemma Split_ok k content rest : split_ok k content → Zlen (split_enc k content ++ rest) < 2 ^ 63 →
  raw.Split (split_enc k content ++ rest) = Val (k, content, rest).
Proof.
  intros Hok Hlen. destruct k; cbn [split_enc split_ok] in *; unfold enc_list in *.
  - destruct (single_inv content Hok) as (x & -> & Hx). apply (Split_of_readKind Byte [] [x] rest).
    cbn. rewrite (proj2 (Z.ltb_lt _ _)) by done. apply (check_size_ok (x :: rest) Byte 0 1); [lia|lia|].
    split; [|done]. unfold Zlen. simpl. lia.
  - rewrite <- app_assoc in *. apply Split_of_readKind, readKind_sized_ok; [auto|done|done].
  - rewrite <- app_assoc in *. apply Split_of_readKind, readKind_sized_ok; [auto|done|done].
Qed.

(** What [readKind] accepts is a header with its content. *)
Definition splits (b : list byte) (k : Kind) (ts cs : Z) : Prop :=
  ∃ hd content rest, b = hd ++ content ++ rest ∧ Zlen hd = ts ∧ Zlen content = cs ∧
    split_ok k content ∧ hd ++ content = split_enc k content.

Lemma splits_sized b k small large hd tl n :
  (k = String ∧ small = 0x80 ∧ large = 0xB7) ∨ (k = List ∧ small = 0xC0 ∧ large = 0xF7) →
  b = hd ++ tl → hd = head small large n → 0 ≤ n ≤ Zlen tl →
  (k = String → is_single (take (Z.to_nat n) tl) = false) → splits b k (Zlen hd) n.
Proof.
  intros Hk -> -> Hn Hsing.
  assert (Zlen (take (Z.to_nat n) tl) = n) as Hl by (unfold Zlen in *; rewrite length_take; lia).
  exists (head small large n), (take (Z.to_nat n) tl), (drop (Z.to_nat n) tl). rewrite take_drop.
  split_and!; [done|done|done|destruct Hk as [(-> & _)|(-> & _)]; [by apply Hsing|done]|].
  destruct Hk as [(-> & -> & ->)|(-> & -> & ->)]; cbn [split_enc]; unfold enc_list; by rewrite Hl.
Qed.

Lemma not_single n tl : 0 ≤ n ≤ Zlen tl → n ≠ 1 → is_single (take (Z.to_nat n) tl) = false.
Proof.
  intros Hn H1. destruct (take (Z.to_nat n) tl) as [|? [|]] eqn:Et; try done.
  apply (f_equal length) in Et. rewrite length_take in Et. unfold Zlen in *. simpl in Et. lia.
Qed.

Lemma readKind_inv b k ts cs : Zlen b < 2 ^ 63 → raw.readKind b = Val (k, ts, cs) → splits b k ts cs.
Proof.
  intros Hlen. destruct b as [|x tl]; [done|]. pose proof (byteZ_range x) as Hx. pose proof (Zlen_nonneg tl).
  assert (Zlen (x :: tl) = 1 + Zlen tl) as Hl1 by (unfold Zlen; simpl; lia).
  assert (∀ z, z = byteZ x → Zbyte z = x) as Hz by (intros z ->; apply Zbyte_byteZ).
  unfold raw.readKind. case_if; [|case_if; [|case_if; [|case_if]]].
  - intros [[= -> -> ->] _]%check_size_inv; [|lia|done]. exists [], [x], tl. split_and!; try done.
    simpl. apply Z.leb_le. lia.
  - intros Hr. assert (raw.check_size (x :: tl) String 1 (byteZ x - 128) = Val (k, ts, cs) ∧
      (byteZ x - 128 = 1 → is_single (take 1 tl) = false)) as [Hck Hone].
    { revert Hr. case_if; [|intros Hr; split; [done|lia]]. destruct tl as [|y tl]; [done|]. case_if; [done|].
      intros ->. split; [done|]. intros _. simpl. apply Z.leb_gt. lia. }
    apply check_size_inv in Hck as [[= -> -> ->] Hc]; [|lia|done].
    apply (splits_sized _ String 0x80 0xB7 [x] tl); [by left|done| |lia|].
    + rewrite head_short, Hz by lia. done.
    + intros _. destruct (Z.eq_dec (byteZ x - 128) 1) as [E1|]; [rewrite E1; by apply Hone|]. apply not_single; lia.
  - destruct (raw.readSize tl (byteZ x - 183)) as [n| | |] eqn:Er; try done. simpl.
    destruct (readSize_inv tl (byteZ x - 183) n ltac:(lia) Er) as (Hn & Hl & rest & ->). rewrite Zlen_app in *. pose proof (Zlen_nonneg rest).
    intros [[= -> -> ->] Hc]%check_size_inv; [|lia|done].
    replace (byteZ x - 183 + 1) with (Zlen (x :: big_Bytes n)) by (unfold Zlen in *; simpl; lia).
    apply (splits_sized _ String 0x80 0xB7 (x :: big_Bytes n) rest); [by left|done| |lia|].
    + rewrite head_long, Hz by lia. done.
    + intros _. apply not_single; lia.
  - intros [[= -> -> ->] Hc]%check_size_inv; [|lia|done].
    apply (splits_sized _ List 0xC0 0xF7 [x] tl); [by right|done| |lia|done]. rewrite head_short, Hz by lia. done.
  - destruct (raw.readSize tl (byteZ x - 247)) as [n| | |] eqn:Er; try done. simpl.
    destruct (readSize_inv tl (byteZ x - 247) n ltac:(lia) Er) as (Hn & Hl & rest & ->). rewrite Zlen_app in *. pose proof (Zlen_nonneg rest).
    intros [[= -> -> ->] Hc]%check_size_inv; [|lia|done].
    replace (byteZ x - 247 + 1) with (Zlen (x :: big_Bytes n)) by (unfold Zlen in *; simpl; lia).
    apply (splits_sized _ List 0xC0 0xF7 (x :: big_Bytes n) rest); [by right|done| |lia|done].
    rewrite head_long, Hz by lia. done.
Qed.

(** Encodings are uniquely decodable: one ends where the next begins. *)
Lemma Split_enc_str c rest : Zlen (enc_str c ++ rest) < 2 ^ 63 →
  raw.Split (enc_str c ++ rest) = Val (if is_single c then Byte else String, c, rest).
Proof.
  intros Hl. assert (enc_str c = split_enc (if is_single c then Byte else String) c) as E by (unfold enc_str; by destruct (is_single c) eqn:Es; cbn; rewrite ?Es).
  rewrite E in *. apply Split_ok; [|done]. unfold split_ok. by destruct (is_single c) eqn:Es.
Qed.
Lemma enc_str_app_inj c1 c2 r1 r2 : Zlen (enc_str c1 ++ r1) < 2 ^ 63 → enc_str c1 ++ r1 = enc_str c2 ++ r2 → c1 = c2 ∧ r1 = r2.
Proof.
  intros Hl E. pose proof (Split_enc_str c1 r1 Hl) as H1. rewrite E in Hl. pose proof (Split_enc_str c2 r2 Hl) as H2.
  rewrite E, H2 in H1. by injection H1 as _ -> ->.
Qed.
Lemma enc_list_app_inj c1 c2 r1 r2 : Zlen (enc_list c1 ++ r1) < 2 ^ 63 → enc_list c1 ++ r1 = enc_list c2 ++ r2 → c1 = c2 ∧ r1 = r2.
Proof.
  intros Hl E. pose proof (Split_ok List c1 r1 I Hl) as H1. rewrite E in Hl. pose proof (Split_ok List c2 r2 I Hl) as H2.
  cbn [split_enc] in H1, H2. rewrite E, H2 in H1. by injection H1 as -> ->.
Qed.

Lemma Split_inv b k content rest : Zlen b < 2 ^ 63 → raw.Split b = Val (k, content, rest) →
  split_ok k content ∧ b = split_enc k content ++ rest.
Proof.
  intros Hl. unfold raw.Split. destruct (raw.readKind b) as [[[k' ts] cs]| | |] eqn:E; try done.
  destruct (readKind_inv b k' ts cs Hl E) as (hd & c & r & -> & <- & <- & Hok & Henc).
  rewrite slice_mid, drop_mid. intros [= -> <- <-]. split; [done|]. by rewrite app_assoc, Henc.
Qed.

Lemma check_size_not_panic b k ts cs : raw.check_size b k ts cs ≠ Panic.
Proof. unfold raw.check_size. by case_if. Qed.
Lemma readKind_panic b : raw.readKind b = Panic ↔ b = [Zbyte 0x81].
Proof.
  destruct b as [|x tl]; [done|]. pose proof (byteZ_range x) as Hx. unfold raw.readKind. split.
  - case_if; [by intros ?%check_size_not_panic|]. case_if.
    { case_if; [|by intros ?%check_size_not_panic]. destruct tl as [|y tl].
      - intros _. f_equal. rewrite <- (Zbyte_byteZ x). f_equal. lia.
      - case_if; [done|]. by intros ?%check_size_not_panic. }
    case_if.
    { destruct (readSize_not_panic tl (byteZ x - 183) ltac:(lia)). unfold raw.sized.
      destruct (raw.readSize tl (byteZ x - 183)); try done. by intros ?%check_size_not_panic. }
    case_if; [by intros ?%check_size_not_panic|].
    destruct (readSize_not_panic tl (byteZ x - 247) ltac:(lia)). unfold raw.sized.
    destruct (raw.readSize tl (byteZ x - 247)); try done. by intros ?%check_size_not_panic.
  - by intros [= -> ->].
Qed.

(** A sequence of encodings, by kind and content. *)
Definition split_encs (l : list (Kind * list byte)) : list byte := mjoin ((λ '(k, c), split_enc k c) <$> l).
Lemma split_encs_cons k c l : split_encs ((k, c) :: l) = split_enc k c ++ split_encs l.
Proof. done. Qed.
Lemma split_enc_pos k c : split_ok k c → 1 ≤ Zlen (split_enc k c).
Proof.
  destruct k; cbn; intros H.
  - destruct (single_inv c H) as (x & -> & _). done.
  - rewrite Zlen_app. pose proof (head_length_ge 0x80 0xB7 (Zlen c)). pose proof (Zlen_nonneg c). lia.
  - apply enc_list_pos.
Qed.
Lemma CountValues_loop_ok l fuel i : Forall (λ '(k, c), split_ok k c) l → Zlen (split_encs l) < 2 ^ 63 →
  (length (split_encs l) < fuel)%nat → raw.CountValues_loop fuel (split_encs l) i = Val (i + Zlen l).
Proof.
  intros HF. revert fuel i. induction HF as [|[k c] l Hok _ IH]; intros fuel i Hlen Hf; (destruct fuel; [lia|]).
  { cbn. f_equal. unfold Zlen. simpl. lia. }
  rewrite split_encs_cons in *. cbn [raw.CountValues_loop].
  pose proof (Split_ok k c (split_encs l) Hok Hlen) as HS. pose proof (split_enc_pos k c Hok) as Hpos.
  rewrite Zlen_app in Hlen. pose proof (Zlen_nonneg (split_encs l)). rewrite length_app in Hf.
  destruct (split_enc k c ++ split_encs l) as [|x b] eqn:Eb.
  { apply (f_equal Zlen) in Eb. rewrite Zlen_app in Eb. change (Zlen []) with 0 in Eb. lia. }
  unfold raw.Split in HS. destruct (raw.readKind (x :: b)) as [[[k' ts] cs]| | |]; try done.
  injection HS as -> _ ->. rewrite IH; [|lia|unfold Zlen in *; lia]. f_equal. unfold Zlen. simpl. lia.
Qed.
Lemma CountValues_ok l : Forall (λ '(k, c), split_ok k c) l → Zlen (split_encs l) < 2 ^ 63 →
  raw.CountValues (split_encs l) = Val (Zlen l).
Proof. intros. unfold raw.CountValues. rewrite CountValues_loop_ok by (done || lia). f_equal. Qed.
(** A list of strings of a known length. *)
Definition enc_strs (l : list (list byte)) : list byte := concat (enc_str <$> l).
Lemma enc_strs_inj l1 l2 : length l1 = length l2 → Zlen (enc_strs l1) < 2 ^ 63 → enc_strs l1 = enc_strs l2 → l1 = l2.
Proof.
  revert l2. induction l1 as [|c1 l1 IH]; intros [|c2 l2] Hn Hl E; try done. injection Hn as Hn.
  change (enc_strs (?c :: ?l)) with (enc_str c ++ enc_strs l) in *. apply enc_str_app_inj in E as [-> E]; [|done].
  f_equal. apply IH; [done| |done]. rewrite Zlen_app in Hl. pose proof (Zlen_nonneg (enc_str c2)). lia.
Qed.
