(* ===== verification/RlpRecord.v ===== *)
(** * Records with an RLP encoding

    A Go type with an encoding is an instance of [RlpRecord]: the type as the
    encoder sees it, and the translation of its values.  The laws say that the
    translation keeps the value; round trip and uniqueness follow for every
    instance. *)

From stdpp Require Import base tactics list numbers.
From S2P Require Import Prelude RlpEncode RlpEncodeFacts RlpDecode RlpStream RlpSound RlpComplete RlpRaw.

#[local] Open Scope Z_scope.
Import rlp rlpd.

(** ** From values to encodings *)

Definition encodable (v : value) : Prop := ∀ t, wf_field t = true → plain t v → shaped t v ∧ is_Some (enc t v).
Lemma elems_encodable t vs : wf t = true → Forall encodable vs → Forall (plain t) vs →
  Forall (shaped t) vs ∧ is_Some (mapM (enc t) vs).
Proof.
  intros Hwf IH Hp. assert (wf_field t = true) as Hf by by destruct t.
  induction vs as [|v vs IHvs]; [by split; [|eexists]|].
  apply Forall_cons_iff in IH as [IHv IH], Hp as [Hpv Hp].
  destruct (IHv t Hf Hpv) as [? [b E]], (IHvs IH Hp) as [? [bs E']]. split; [by constructor|].
  cbn [mapM]. rewrite E, E'. by eexists.
Qed.
Lemma fields_encodable ts vs : wf (TStruct ts) = true → Forall encodable vs → plain_fields ts vs →
  shaped_fields ts vs ∧ is_Some (enc_fields ts vs).
Proof.
  intros Hwf IH. revert ts Hwf. induction IH as [|v vs Hv _ IHvs]; intros [|t ts] Hwf Hp; try done.
  apply wf_struct in Hwf as (Hwt & Hwf & _). destruct Hp as [Hpv Hp].
  destruct (Hv t Hwt Hpv) as [? [b E]], (IHvs ts Hwf Hp) as [? [l E']]. split; [done|].
  cbn [enc_fields]. rewrite E, E'. by eexists.
Qed.
Lemma plain_encodable v : encodable v.
Proof.
  induction v as [z|b|z|b|vs IH| |v IH| |t' v IH] using value_ind'; intros t Hwf Hp;
    destruct t as [bits| | | | |n| |elem|n elem|fields|elem|elem|elem|]; try done; cbn in Hwf; try (by split; [|eexists]).
  - apply andb_true_iff in Hwf as [H1%Z.leb_le H2%Z.leb_le]. destruct Hp. by split; [|eexists].
  - destruct z as [z|]; [|done]. cbn in Hp. split; [done|]. cbn. rewrite (proj2 (Z.ltb_ge z 0)) by lia. by eexists.
  - cbn [plain] in Hp. rewrite plain_elems in Hp. destruct (elems_encodable elem vs Hwf IH Hp) as [? [l E]].
    cbn [shaped enc]. rewrite shaped_elems, E. split; [done|by eexists].
  - cbn [plain] in Hp. rewrite plain_elems in Hp. destruct Hp as [Hl Hp]. apply andb_true_iff in Hwf as [_ Hwf].
    destruct (elems_encodable elem vs Hwf IH Hp) as [? [l E]]. cbn [shaped enc]. rewrite shaped_elems, E.
    split; [done|by eexists].
  - destruct (fields_encodable fields vs Hwf IH Hp) as [? [l E]]. split; [done|].
    rewrite enc_struct, E. by eexists.
  - cbn [plain] in Hp. rewrite plain_elems in Hp. destruct (elems_encodable elem vs Hwf IH Hp) as [? [l E]].
    cbn [shaped enc]. rewrite shaped_elems, E. split; [done|by eexists].
  - apply IH; [|done]. by destruct elem.
  - destruct Hp as [Hp _]. apply andb_true_iff in Hwf as [_ Hwf]. apply IH; [|done]. by destruct elem.
  - cbn [plain] in Hp. destruct t'; try done; [by apply (IH TBytes)|]. destruct t'; try done. by apply (IH (TSlice TInterface)).
Qed.

(** ** Custom decoders

    What a type's own [DecodeRLP] is built from. *)

(** [rlp.DecodeBytes] into a type with decoder [m]. *)
Definition decode_all {A} (m : D A) (b : list byte) : outcome rlp_error A :=
  match m (NewStream b (Zlen b)) with
  | (s, Val a) => if Zlen (s_r s) >? 0 then Err ErrMoreThanOneValue else Val a
  | (_, o) => o
  end.
(** [_, size, _ := s.Kind()] before the value is decoded. *)
Definition sized {A} (m : D A) : D (A * Z) :=
  ks ← attempt Kind_;
  a ← m;
  mret (a, match ks with inr (_, size) => size | inl _ => 0 end).
(** A field of a struct. *)
Definition field {A} (m : D A) : D A :=
  r ← attempt m;
  match r with
  | inl EOL => fail (decodeError MsgTooFew)
  | inl e => fail e
  | inr a => mret a
  end.

Lemma decode_all_reads {A} (m : D A) bs a : Zlen bs < 2 ^ 63 → reads m bs a → decode_all m bs = Val a.
Proof.
  intros Hl Hrd. pose proof (NewStream_ready bs Hl) as Hs0.
  destruct (Hrd (NewStream bs (Zlen bs)) [] Hs0) as (s' & E & Haf); [by rewrite app_nil_r|done|].
  unfold decode_all. rewrite E. destruct Haf as [-> _ _ _ _]. cbn.
  rewrite drop_ge by (unfold Zlen; lia). done.
Qed.

Lemma decode_all_wp {A} (m : D A) (Q : A → list byte → Prop) Er b : Zlen b < 2 ^ 63 →
  wp False m (λ a s', ∃ bs, Q a bs ∧ took_enc (NewStream b (Zlen b)) s' bs) Er (NewStream b (Zlen b)) →
  (∃ a, decode_all m b = Val a ∧ Q a b) ∨ ∃ e, decode_all m b = Err e.
Proof.
  intros Hl. unfold wpg, decode_all. destruct (m (NewStream b (Zlen b))) as [s' [a|e| |]]; try done; [|by right; exists e].
  intros (bs & HQ & Hr & _). case_if; [by right; eexists|]. left. exists a. split; [done|]. cbn in Hr.
  assert (s_r s' = []) as Hnil by (destruct (s_r s'); [done|unfold Zlen in E; simpl in E; lia]).
  by rewrite Hnil, app_nil_r in Hr; subst.
Qed.

(** Decoders that look at the kind of the value first. *)
Definition looks_first {A} (m : D A) : Prop := ∀ s s1 k n, Kind_ s = (s1, Val (k, n)) → m s1 = m s.
Lemma looks_decoder t : looks t = true → looks_first (decoder t).
Proof. intros Ht s s1 k n. by apply decoder_again. Qed.
Lemma looks_bind {A B} (m : D A) (f : A → D B) : looks_first m → looks_first (m ≫= f).
Proof. intros Hm s s1 k n E. by eapply bind_eq, Hm. Qed.
Lemma looks_List : looks_first (wrapped List_).
Proof. intros s s1 k n E. apply wrapped_eq. by eapply bind_again. Qed.

Lemma sized_reads {A} (m : D A) p a : looks_first m → Zlen p < 2 ^ 64 → reads m (enc_list p) a →
  reads (sized m) (enc_list p) (a, Zlen p).
Proof.
  intros Hf Hp Hm s rest Hs Hr Ha. destruct (Hm s rest Hs Hr Ha) as (s' & E & Haf). exists s'. split; [|done].
  assert (is_head List (Zlen p) Byte.x00 (head 0xC0 0xF7 (Zlen p))) as Hh by (constructor; pose proof (Zlen_nonneg p); lia).
  unfold enc_list in Hr, Ha. rewrite <- app_assoc in Hr. rewrite Zlen_app in Ha.
  pose proof (Kind_ok List _ _ _ _ s Hs Hh Hr ltac:(lia)) as EK.
  unfold sized, attempt, mbind, M_bind. rewrite EK, (Hf _ _ _ _ EK), E. done.
Qed.
Lemma sized_looks {A} (m : D A) : looks_first (sized m).
Proof. intros s s1 k n E. unfold sized, attempt, mbind, M_bind. by rewrite (Kind_again s s1 k n E), E. Qed.
Lemma readKind_no_err s s1 e : readKind s ≠ (s1, Err e).
Proof.
  unfold readKind, readSizedKind, attempt, mbind, M_bind, gets, modify, mret, M_ret.
  repeat (case_match; try done).
Qed.
Lemma look_no_err s s1 e : look s ≠ (s1, Err e).
Proof.
  unfold look, mbind, M_bind, gets, modify, mret, M_ret. destruct (readKind s) as [s2 [[[k n] o]|e'| |]] eqn:E; try done.
  - repeat (case_match; try done).
  - by apply readKind_no_err in E.
Qed.
(** So does a second look that fails. *)
Lemma Kind_again_err s s1 e : s_kind s = None → Kind_ s = (s1, Err e) → Kind_ s1 = (s1, Err e).
Proof.
  intros Hk. unfold Kind_ at 1, mbind, M_bind, gets. destruct (look_ahead s) as [s2 o] eqn:E. destruct o as [[]|e'| |]; try done.
  - destruct (s_kinderr s2) as [e'|] eqn:Ee; [|by destruct (s_kind s2)]. intros [= -> ->].
    assert (is_Some (s_kind s1)) as [k Ek].
    { revert E. unfold look_ahead, mbind, M_bind, gets, modify. rewrite Hk. cbn [set_kinderr s_stack].
      assert (∀ s2, look s2 = (s1, Val tt) → is_Some (s_kind s1)) as Hlook.
      { intros s2. unfold look, mbind, M_bind, gets, modify, mret, M_ret. destruct (readKind s2) as [s3 [[[k n] o]|?| |]]; try done.
        repeat (case_match; try done); intros [= <-]; by eexists. }
      destruct (s_stack s); [by apply Hlook|]. case_match; [done|by apply Hlook]. }
    unfold Kind_, look_ahead, mbind, M_bind, gets. rewrite Ek. cbn. by rewrite Ee.
  - intros [= -> ->]. revert E. unfold look_ahead, mbind, M_bind, gets, modify. rewrite Hk. cbn [set_kinderr s_stack].
    destruct (s_stack s) as [|tos st] eqn:Es; [by intros E%look_no_err|]. case_match eqn:Ep; [|by intros E%look_no_err].
    intros [= <- <-]. unfold Kind_, look_ahead, mbind, M_bind, gets, modify. cbn. rewrite Hk. cbn. by rewrite Es, Ep.
Qed.
Lemma ListSize_enc p : Zlen (enc_list p) < 2 ^ 64 → ListSize (Zlen p) = Zlen (enc_list p).
Proof.
  unfold enc_list. rewrite Zlen_app. intros H. pose proof (Zlen_nonneg p). pose proof (Zlen_nonneg (head 0xC0 0xF7 (Zlen p))).
  unfold ListSize. rewrite <- (head_length 0xC0 0xF7) by lia. by rewrite u64_small by (unfold is_u64; lia).
Qed.

(** Fields one after the other inside a list. *)
Lemma field_inside {A B} (m : D A) (f : A → D B) b1 b2 a b :
  reads m b1 a → reads_inside (f a) b2 b → reads_inside (field m ≫= f) (b1 ++ b2) b.
Proof.
  intros Hm Hf s rest Hs Hne Hr Ha. rewrite <- app_assoc in Hr. rewrite Zlen_app in Ha. pose proof (Zlen_nonneg b2).
  destruct (reads_took m b1 a s (b2 ++ rest) Hm Hs Hr ltac:(lia)) as (s1 & E & Ht & Hs1 & Hr1).
  destruct Ht as (Hb & Hle & Haf) eqn:Ht'. pose proof (Zlen_nonneg b1).
  destruct (Hf s1 rest Hs1) as (s2 & E2 & Ht2); [by apply (after_nonempty _ _ _ Haf)|done| |].
  { rewrite (after_avail (Zlen b1) s s1 (proj1 Hs) ltac:(lia) Haf). lia. }
  exists s2. split; [|by eapply took_enc_trans; [apply Hs| |done]].
  unfold field, attempt, mbind, M_bind. rewrite E. done.
Qed.
Lemma ret_inside {A} (a : A) : reads_inside (mret a) [] a.
Proof. intros s rest Hs _ Hr Ha. exists s. split; [done|]. apply took_enc_nil; [apply Hs|rewrite Ha; done]. Qed.

Lemma plain_reads t v : wf t = true → plain t v → ∃ bs, enc t v = Some bs ∧ shaped t v ∧ (Zlen bs < 2 ^ 64 → reads (decoder t) bs v ∧ 1 ≤ Zlen bs).
Proof.
  intros Hwf Hp. destruct (plain_encodable v t) as [Hs [bs He]]; [by destruct t|done|]. exists bs. split_and!; [done|done|].
  intros Hl. destruct (value_comes_back v t bs Hp He ltac:(lia)) as [Hr _]. destruct (Hr Hwf) as [Hrd Hraw]. split; [done|by apply raw_pos].
Qed.
Lemma roundtrip t v : wf t = true → plain t v →
  ∃ bs, enc t v = Some bs ∧ (Zlen bs < 2 ^ 63 → EncodeToBytes t v = Val bs ∧ Encode t v = Val bs ∧ DecodeBytes bs t = Val v).
Proof.
  intros Hwf Hp. destruct (plain_reads t v Hwf Hp) as (bs & He & Hs & Hrd). exists bs. split; [done|].
  intros Hl. split_and!; [by apply Encode_ok|by apply Encode_ok|].
  change (DecodeBytes bs t) with (decode_all (decoder t) bs). apply decode_all_reads; [done|]. apply Hrd. lia.
Qed.

(** ** Records *)

Class RlpRecord (A : Type) : Type := {
  rec_typ : typ;
  to_value : A → value;
  of_value : value → option A }.
#[global] Arguments rec_typ A {_}.

(** [ok]: the values of the Go type. *)
Class RlpRecordLaws (A : Type) {rec : RlpRecord A} (ok : A → Prop) : Prop := {
  rec_wf : wf (rec_typ A) = true;
  rec_plain a : ok a → plain (rec_typ A) (to_value a);
  of_to_value a : ok a → of_value (to_value a) = Some a;
  rec_regular : regular (rec_typ A) = true;
  of_typed v : typed (rec_typ A) v → ∃ a, of_value v = Some a ∧ ok a ∧ to_value a = v }.

(** A struct value that is well typed, field by field. *)
Ltac typed_cases H v := destruct v as [?z|?b|[?z|]|?b|?l|[?w|]|[[?t ?w]|]]; try (exfalso; exact H).
Ltac typed_struct H v :=
  destruct v as [| | | |?vs| |]; try (exfalso; exact H);
  repeat match type of H with
  | typed (TStruct (?t :: ?ts)) (VList ?vs) =>
      destruct vs as [|?v vs]; [exfalso; exact H|];
      let H1 := fresh "Hf" in destruct H as [H1 H]; change (typed (TStruct ts) (VList vs)) in H;
      match type of H1 with typed _ ?w => typed_cases H1 w end
  | typed (TStruct []) (VList ?vs) => destruct vs; [|exfalso; exact H]; clear H
  end.

Section records.
Context {A : Type} {rec : RlpRecord A}.

(** [rlp.EncodeToBytes(a)], [rlp.Encode(w, a)] and [rlp.DecodeBytes(b, &a)]. *)
Definition rec_EncodeToBytes (a : A) : outcome rlp_error (list byte) := EncodeToBytes (rec_typ A) (to_value a).
Definition rec_Encode (a : A) : outcome rlp_error (list byte) := Encode (rec_typ A) (to_value a).
Definition rec_DecodeBytes (b : list byte) : outcome rlp_error A :=
  v ← DecodeBytes b (rec_typ A);
  match of_value v with Some a => Val a | None => Panic end.

(** The encoding as a function of the value. *)
Definition rec_enc (a : A) : list byte := default [] (enc (rec_typ A) (to_value a)).

Definition rec_decode : D A := v ← decoder (rec_typ A); or_panic (of_value v).

Context {ok : A → Prop} {laws : RlpRecordLaws A ok}.
Lemma rec_roundtrip a : ok a → Zlen (rec_enc a) < 2 ^ 63 →
  rec_EncodeToBytes a = Val (rec_enc a) ∧ rec_Encode a = Val (rec_enc a) ∧ rec_DecodeBytes (rec_enc a) = Val a.
Proof.
  intros Ha. destruct (roundtrip (rec_typ A) (to_value a) rec_wf (rec_plain a Ha)) as (bs & He & H).
  unfold rec_enc, rec_EncodeToBytes, rec_Encode, rec_DecodeBytes. rewrite He.
  cbn [default from_option id]. intros Hl.
  destruct (H Hl) as (-> & -> & ->). cbn. by rewrite of_to_value.
Qed.
Lemma rec_reads a : ok a → Zlen (rec_enc a) < 2 ^ 64 → reads rec_decode (rec_enc a) a ∧ 1 ≤ Zlen (rec_enc a).
Proof.
  intros Ha. destruct (plain_reads (rec_typ A) (to_value a) rec_wf (rec_plain a Ha)) as (bs & He & _ & H).
  unfold rec_enc. rewrite He. cbn [default from_option id]. intros Hl. destruct (H Hl) as [Hr H1]. split; [|done].
  intros s rest Hs E Hav. destruct (Hr s rest Hs E Hav) as (s' & E' & Haf). exists s'. split; [|done].
  unfold rec_decode, mbind, M_bind. rewrite E'. by rewrite of_to_value.
Qed.
Lemma enc_struct_list ts v bs : enc (TStruct ts) v = Some bs → ∃ q, bs = enc_list q.
Proof. destruct v; try done. rewrite enc_struct. intros (q & _ & ->)%fmap_Some. by exists q. Qed.
Lemma sized_rec_reads ts a : rec_typ A = TStruct ts → ok a → Zlen (rec_enc a) < 2 ^ 63 →
  ∃ n, reads (sized rec_decode) (rec_enc a) (a, n) ∧ ListSize n = Zlen (rec_enc a).
Proof.
  intros Et Ha Hl. destruct (rec_reads a Ha) as [Hr _]; [lia|].
  destruct (plain_reads _ _ rec_wf (rec_plain a Ha)) as (bs & He & _). unfold rec_enc in *. rewrite He in *.
  cbn [default from_option id] in *. rewrite Et in He. apply enc_struct_list in He as [q ->]. exists (Zlen q).
  pose proof (enc_list_length q). split; [|apply ListSize_enc; lia]. apply sized_reads; [|lia|done].
  apply looks_bind, looks_decoder. by rewrite Et.
Qed.
(** What any input decodes to: a value of the type whose encoding is as long
    as the input, or an error. *)
Lemma rec_wp s : ready s → wp False rec_decode
  (λ a s', ok a ∧ ∃ bs, Zlen (rec_enc a) = Zlen bs ∧ (canonical (rec_typ A) = true → rec_enc a = bs) ∧ 1 ≤ Zlen bs ∧ took_enc s s' bs)
  (only_at_end s) s.
Proof.
  intros Hs. apply wp_bind. eapply wp_mono; [by apply (proj1 (decoder_sound (rec_typ A)) rec_wf)|done| |done].
  intros v s' (bs & [Hty HR] & Hl & Ht). destruct (of_typed v Hty) as (a & E & Ha & Ev).
  destruct (HR rec_regular) as [_ (bs' & He & Hle & Hc)]. rewrite E. unfold wpg, or_panic. split; [done|].
  exists bs. unfold rec_enc. rewrite Ev, He. cbn. by split_and!.
Qed.
Lemma sized_wp s ts : rec_typ A = TStruct ts → ready s → wp False (sized rec_decode)
  (λ r s', ok r.1 ∧ ∃ bs, Zlen (rec_enc r.1) = Zlen bs ∧ (canonical (rec_typ A) = true → rec_enc r.1 = bs) ∧ ListSize r.2 = Zlen bs ∧
     1 ≤ Zlen bs ∧ took_enc s s' bs)
  (only_at_end s) s.
Proof.
  intros Et Hs. unfold sized. apply wp_bind, wp_attempt. unfold wpg at 1. destruct (Kind_ s) as [s1 o] eqn:E.
  pose proof (Kind_wp s Hs) as Hk. unfold wpg in Hk. rewrite E in Hk.
  assert (looks_first rec_decode) as Hf by (apply looks_bind, looks_decoder; by rewrite Et).
  destruct o as [[k n]|e| |]; [| |done|done].
  - unfold wpg, mbind, M_bind. rewrite (Hf _ _ _ _ E). pose proof (struct_wp ts s) as Hw.
    unfold rec_decode, mbind, M_bind, wpg in *. rewrite Et in *. pose proof rec_wf as Hwf. rewrite Et in Hwf.
    specialize (Hw ltac:(apply Forall_forall; intros; apply decoder_sound) Hwf Hs).
    destruct (decoder (TStruct ts) s) as [s2 [v|e| |]]; try done. destruct Hw as (q & [Hty HR] & Ht).
    rewrite <- Et in Hty, HR. destruct (of_typed v Hty) as (a & -> & Ha & Ev). destruct (HR rec_regular) as [_ (bs' & He & Hle & Hc)].
    cbn [or_panic mret M_ret fst snd]. split; [done|]. exists (enc_list q). unfold rec_enc. rewrite Ev, He. cbn [default from_option id].
    pose proof Ht as (Hr & Hav & _). pose proof (avail_u63 s _ Hs Hav) as H64. pose proof (enc_list_length q) as Hq.
    assert (is_head List (Zlen q) Byte.x00 (head 0xC0 0xF7 (Zlen q))) as Hh by (constructor; pose proof (Zlen_nonneg q); lia).
    unfold enc_list in Hr, Hav. rewrite <- app_assoc in Hr. rewrite Zlen_app in Hav.
    rewrite (Kind_ok List _ _ _ _ s Hs Hh Hr ltac:(lia)) in E. injection E as _ _ <-.
    split_and!; [done|by rewrite <- Et|by apply ListSize_enc|apply enc_list_pos|done].
  - pose proof (Kind_again_err s s1 e (proj2 Hs) E) as E'.
    unfold wpg, rec_decode, mbind, M_bind. rewrite Et, decoder_struct. unfold wrapped, attempt, List_, mbind, M_bind. rewrite E'.
    cbn. by apply only_at_end_wrap.
Qed.
Lemma rec_enc_inj a b : ok a → ok b → Zlen (rec_enc a) < 2 ^ 63 → rec_enc a = rec_enc b → a = b.
Proof.
  intros Ha Hb Hl E. destruct (rec_roundtrip a Ha Hl) as (_ & _ & H1). rewrite E in Hl, H1.
  destruct (rec_roundtrip b Hb Hl) as (_ & _ & H2). rewrite H1 in H2. by injection H2.
Qed.
End records.
