(* ===== verification/RlpCodec.v ===== *)
(** * Codecs of record types

    A codec translates the values of a Go type to the values the encoder sees.
    Codecs are put together from those of the fields; the laws of a record
    type's codec follow from the laws of the pieces. *)

From stdpp Require Import base tactics list numbers.
From S2P Require Import Prelude RlpEncode RlpEncodeFacts RlpDecode RlpStream RlpSound RlpComplete RlpRaw RlpRecord.

#[local] Open Scope Z_scope.
Import rlp rlpd.

Record codec (A : Type) : Type := Codec {
  c_typ : typ;
  c_to : A → value;
  c_of : value → option A;
  c_ok : A → Prop }.
#[global] Arguments Codec {A}.
#[global] Arguments c_typ {A}.
#[global] Arguments c_to {A}.
#[global] Arguments c_of {A}.
#[global] Arguments c_ok {A}.

(** The fields of a struct. *)
Record fields (A : Type) : Type := Fields {
  f_typs : list typ;
  f_to : A → list value;
  f_of : list value → option A;
  f_ok : A → Prop }.
#[global] Arguments Fields {A}.
#[global] Arguments f_typs {A}.
#[global] Arguments f_to {A}.
#[global] Arguments f_of {A}.
#[global] Arguments f_ok {A}.

Definition c_uint (bits : Z) : codec Z :=
  Codec (TUint bits) VUint (λ v, match v with VUint z => Some z | _ => None end) (λ z, 0 ≤ z < 2 ^ bits).
Definition c_big : codec Z :=
  Codec TBigInt (VBig ∘ Some) (λ v, match v with VBig z => z | _ => None end) (λ z, 0 ≤ z).
Definition c_bytes : codec (list byte) := Codec TBytes VBytes (λ v, match v with VBytes b => Some b | _ => None end) (λ _, True).
Definition c_string : codec (list byte) := Codec TString VBytes (λ v, match v with VBytes b => Some b | _ => None end) (λ _, True).
(** An array of [n] bytes as the number they denote. *)
Definition c_array (n : nat) : codec Z :=
  Codec (TByteArray (Z.of_nat n)) (λ z, VBytes (be_bytes n z)) (λ v, match v with VBytes b => Some (SetBytes b) | _ => None end)
    (λ z, 0 ≤ z < 256 ^ Z.of_nat n).
(** An array of [n] bytes as bytes. *)
Definition c_raw_array (n : Z) : codec (list byte) :=
  Codec (TByteArray n) VBytes (λ v, match v with VBytes b => Some b | _ => None end) (λ b, Zlen b = n).
Definition c_list {A} (c : codec A) : codec (list A) :=
  Codec (TSlice (c_typ c)) (λ l, VList (c_to c <$> l)) (λ v, match v with VList vs => mapM (c_of c) vs | _ => None end) (Forall (c_ok c)).
Definition c_ptr {A} (c : codec A) : codec A :=
  Codec (TPtr (c_typ c)) (VPtr ∘ Some ∘ c_to c) (λ v, match v with VPtr (Some v) => c_of c v | _ => None end) (c_ok c).
Definition c_struct {A} (f : fields A) : codec A :=
  Codec (TStruct (f_typs f)) (VList ∘ f_to f) (λ v, match v with VList vs => f_of f vs | _ => None end) (f_ok f).
Definition c_iso {A B} (to : B → A) (back : A → B) (c : codec A) : codec B :=
  Codec (c_typ c) (c_to c ∘ to) (λ v, back <$> c_of c v) (c_ok c ∘ to).

Definition f_last {A} (c : codec A) : fields A :=
  Fields [c_typ c] (λ a, [c_to c a]) (λ vs, match vs with [v] => c_of c v | _ => None end) (c_ok c).
Definition f_cons {A B} (c : codec A) (f : fields B) : fields (A * B) :=
  Fields (c_typ c :: f_typs f) (λ '(a, b), c_to c a :: f_to f b)
    (λ vs, match vs with v :: vs => a ← c_of c v; b ← f_of f vs; Some (a, b) | _ => None end)
    (λ '(a, b), c_ok c a ∧ f_ok f b).

Class CodecLaws {A} (c : codec A) : Prop := {
  c_wf : wf (c_typ c) = true;
  c_plain a : c_ok c a → plain (c_typ c) (c_to c a);
  c_of_to a : c_ok c a → c_of c (c_to c a) = Some a;
  c_regular : regular (c_typ c) = true;
  c_typed v : typed (c_typ c) v → ∃ a, c_of c v = Some a ∧ c_ok c a ∧ c_to c a = v }.
Class FieldsLaws {A} (f : fields A) : Prop := {
  f_wf : wf (TStruct (f_typs f)) = true;
  f_plain a : f_ok f a → plain_fields (f_typs f) (f_to f a);
  f_of_to a : f_ok f a → f_of f (f_to f a) = Some a;
  f_regular : regular (TStruct (f_typs f)) = true;
  f_typed vs : typed (TStruct (f_typs f)) (VList vs) → ∃ a, f_of f vs = Some a ∧ f_ok f a ∧ f_to f a = vs }.

#[global] Instance c_uint_laws bits : TCEq ((8 <=? bits) && (bits <=? 64) && (bits mod 8 =? 0)) true → CodecLaws (c_uint bits).
Proof.
  intros [[H1 H2]%andb_true_iff H3%Z.eqb_eq]%TCEq_eq%andb_true_iff.
  split; [by cbn; rewrite H1|done|done|done|]. intros v Hv. typed_cases Hv v. by eexists.
Qed.
#[global] Instance c_big_laws : CodecLaws c_big.
Proof. split; [done|done|done|done|]. intros v Hv. typed_cases Hv v. by eexists. Qed.
#[global] Instance c_bytes_laws : CodecLaws c_bytes.
Proof. split; [done|done|done|done|]. intros v Hv. typed_cases Hv v. by eexists. Qed.
#[global] Instance c_string_laws : CodecLaws c_string.
Proof. split; [done|done|done|done|]. intros v Hv. typed_cases Hv v. by eexists. Qed.
#[global] Instance c_array_laws n : TCEq (n =? 1)%nat false → CodecLaws (c_array n).
Proof.
  intros H%TCEq_eq%Nat.eqb_neq. split; [|  | |done|].
  - cbn. rewrite (proj2 (Z.leb_le _ _)), (proj2 (Z.eqb_neq _ _)) by lia. done.
  - intros z Hz. cbn. unfold Zlen. by rewrite length_be_bytes.
  - intros z Hz. cbn. by rewrite SetBytes_be_bytes, Z.mod_small.
  - intros v Hv. typed_cases Hv v. eexists. split; [done|]. change (Zlen b = Z.of_nat n) in Hv. pose proof (SetBytes_range b) as Hr.
    rewrite Hv in Hr. split; [done|]. cbn. unfold Zlen in Hv. replace n with (length b) by lia. by rewrite be_bytes_SetBytes.
Qed.
#[global] Instance c_raw_array_laws n : TCEq ((0 <=? n) && negb (n =? 1)) true → CodecLaws (c_raw_array n).
Proof. intros H%TCEq_eq. split; [done|done|done|done|]. intros v Hv. typed_cases Hv v. by eexists. Qed.

Section combinators.
Context {A : Type} (c : codec A) {lc : CodecLaws c}.
#[global] Instance c_ptr_laws : CodecLaws (c_ptr c).
Proof.
  split; [apply (c_wf (c:=c))|apply (c_plain (c:=c))|apply (c_of_to (c:=c))|apply (c_regular (c:=c))|].
  intros v Hv. destruct v as [| | | | |[v|]|]; try (exfalso; exact Hv). destruct (c_typed v Hv) as (a & ? & ? & <-). by exists a.
Qed.
#[global] Instance c_list_laws : CodecLaws (c_list c).
Proof.
  split; [apply (c_wf (c:=c))| | |apply (c_regular (c:=c))|].
  - intros l Hl. cbn [c_typ c_to c_list plain]. rewrite plain_elems. induction Hl; constructor; [by apply (c_plain (c:=c))|done].
  - intros l Hl. cbn [c_of c_to c_list]. induction Hl as [|a l Ha _ IH]; [done|]. cbn [fmap list_fmap mapM]. rewrite c_of_to by done.
    cbn. cbn in IH. by rewrite IH.
  - intros v Hv. destruct v as [| | | |vs| |]; try (exfalso; exact Hv). cbn [c_typ c_list typed] in Hv. rewrite typed_elems in Hv.
    cbn [c_of c_list c_ok c_to]. induction Hv as [|v vs Hv _ (l & El & Hl & Eto)]; [by exists []|].
    destruct (c_typed v Hv) as (a & Ea & Ha & Eav). exists (a :: l). cbn [mapM]. rewrite Ea, El. split; [done|]. split; [by constructor|].
    cbn. injection Eto as Eto. by rewrite Eav, Eto.
Qed.
#[global] Instance f_last_laws : TCEq (is_tail (c_typ c)) false → FieldsLaws (f_last c).
Proof.
  intros Ht%TCEq_eq. split.
  - pose proof (c_wf (c:=c)) as H. cbn. destruct (c_typ c); try done; by rewrite H.
  - intros a Ha. split; [by apply (c_plain (c:=c))|done].
  - intros a Ha. by apply (c_of_to (c:=c)).
  - cbn. by rewrite (c_regular (c:=c)).
  - intros vs Hv. destruct vs as [|v [|]]; [exfalso; exact Hv| |exfalso; exact (proj2 Hv)]. destruct Hv as [Hv _].
    destruct (c_typed v Hv) as (a & ? & ? & <-). by exists a.
Qed.
#[global] Instance f_cons_laws {B} (f : fields B) {lf : FieldsLaws f} : TCEq (is_tail (c_typ c)) false → FieldsLaws (f_cons c f).
Proof.
  intros Ht%TCEq_eq. split.
  - pose proof (c_wf (c:=c)) as H. pose proof (f_wf (f:=f)) as Hf. cbn [f_typs f_cons]. change (wf (TStruct (c_typ c :: f_typs f)))
      with (match c_typ c with TTail t => wf t && match f_typs f with [] => true | _ => false end | _ => wf (c_typ c) end && wf (TStruct (f_typs f))).
    destruct (c_typ c); try done; by rewrite H, Hf.
  - intros [a b] [Ha Hb]. split; [by apply (c_plain (c:=c))|by apply (f_plain (f:=f))].
  - intros [a b] [Ha Hb]. cbn. by rewrite c_of_to, f_of_to.
  - cbn [f_typs f_cons]. change (regular (TStruct (c_typ c :: f_typs f))) with (regular (c_typ c) && regular (TStruct (f_typs f))).
    by rewrite c_regular, f_regular.
  - intros vs Hv. destruct vs as [|v vs]; [exfalso; exact Hv|]. destruct Hv as [Hv Hvs]. destruct (c_typed v Hv) as (a & Ea & Ha & <-).
    destruct (f_typed vs Hvs) as (b & Eb & Hb & <-). exists (a, b). cbn. rewrite Ea. cbn. by rewrite Eb.
Qed.
Lemma c_iso_laws {B} (to : B → A) (back : A → B) : (∀ b, back (to b) = b) → (∀ a, to (back a) = a) → CodecLaws (c_iso to back c).
Proof.
  intros H1 H2. split; [apply (c_wf (c:=c))|intros b; apply (c_plain (c:=c))| |apply (c_regular (c:=c))|].
  - intros b Hb. cbn. rewrite c_of_to by done. cbn. by rewrite H1.
  - intros v Hv. destruct (c_typed (c:=c) v Hv) as (a & Ea & Ha & Ev). exists (back a). cbn. rewrite Ea, H2. done.
Qed.
End combinators.
#[global] Instance c_struct_laws {A} (f : fields A) {lf : FieldsLaws f} : CodecLaws (c_struct f).
Proof.
  split; [apply (f_wf (f:=f))|intros a Ha; by apply (f_plain (f:=f))|apply (f_of_to (f:=f))|apply (f_regular (f:=f))|].
  intros v Hv. destruct v as [| | | |vs| |]; try (exfalso; exact Hv). destruct (f_typed vs Hv) as (a & ? & ? & <-). by exists a.
Qed.

(** A type with a codec is a record type. *)
Definition codec_rlp {A} (c : codec A) : RlpRecord A := {| rec_typ := c_typ c; to_value := c_to c; of_value := c_of c |}.
Lemma codec_laws {A} (c : codec A) {lc : CodecLaws c} : @RlpRecordLaws A (codec_rlp c) (c_ok c).
Proof. split; [apply (c_wf (c:=c))|apply (c_plain (c:=c))|apply (c_of_to (c:=c))|apply (c_regular (c:=c))|apply c_typed]. Qed.
