(* ===== verification/RlpProps.v ===== *)
(** * Properties of RLP

    Round trip, canonicity, equivalence with the reference encoding, totality,
    and two places where the code departs from them. *)

From stdpp Require Import base tactics list numbers.
From S2P Require Import Prelude RlpEncode RlpEncodeFacts RlpDecode RlpStream RlpSound RlpComplete RlpRaw RlpRecord.

#[local] Open Scope Z_scope.
Import rlp rlpd.

(** The encoder, which collects strings and list headers in separate
    buffers and merges them at the end, produces the RLP encoding defined on
    the value, whether it returns bytes or writes to a buffer; it fails on
    negative integers only. *)
Theorem EncodeToBytes_enc t v : shaped t v →
  match enc t v with
  | Some bs => Zlen bs < 2 ^ 63 → EncodeToBytes t v = Val bs ∧ Encode t v = Val bs
  | None => EncodeToBytes t v = Err errNegativeBigInt ∧ Encode t v = Err errNegativeBigInt
  end.
Proof.
  intros Hs. destruct (enc t v) as [bs|] eqn:E.
  - intros Hl. by apply Encode_ok.
  - split; by apply encode_with_none.
Qed.



(** Decoding returns for every input: a value or an error, no panic and no
    endless loop. *)
Theorem DecodeBytes_total t b : wf t = true → Zlen b < 2 ^ 63 →
  (∃ v, DecodeBytes b t = Val v) ∨ (∃ e, DecodeBytes b t = Err e).
Proof.
  intros Hwf Hl. unfold DecodeBytes. pose proof (NewStream_ready b Hl) as Hs.
  pose proof (proj1 (decoder_sound t) Hwf _ Hs) as H. unfold sound_at, wpg in H.
  destruct (decoder t (NewStream b (Zlen b))) as [s' [v|e| |]]; try done; [case_if|]; eauto.
Qed.

(** [Split] takes exactly one encoding off the input, short and long
    headers alike, and rejects everything else; on the single byte 0x81 it
    panics, for the content is looked at before its length is checked. *)
Theorem Split_exact b k content rest : Zlen b < 2 ^ 63 →
  (raw.Split b = Val (k, content, rest) ↔ split_ok k content ∧ b = split_enc k content ++ rest) ∧
  (raw.Split b = Panic ↔ b = [Zbyte 0x81]).
Proof.
  intros Hl. split.
  - split; [by apply Split_inv|]. intros [Hok ->]. by apply Split_ok.
  - rewrite <- readKind_panic. unfold raw.Split. by destruct (raw.readKind b) as [[[] ]| | |].
Qed.

(** ** Arrays of one byte *)

(** The list 0xc1 0x00 after its header. *)
Definition one_zero_byte : Stream := (List_ (NewStream [Zbyte 0xC1; Byte.x00] 2)).1.
Lemma stuck_loops s : decodeByteArray 1 s = (s, Val (VBytes [Byte.x00])) →
  ∀ fuel acc, (elems_loop (decodeByteArray 1) fuel acc s).2 = NoFuel.
Proof.
  intros E fuel. induction fuel as [|fuel IH]; intros acc; [done|].
  cbn [elems_loop]. unfold mbind, M_bind, attempt. rewrite E. apply IH.
Qed.

(** A zero byte in an array of one byte is never taken off the stream: the
    error of [s.Uint()] is dropped and the kind stays cached.  A struct with
    such an array does not decode from its own encoding, and decoding a slice
    of such arrays does not end, however many steps it is given. *)
Theorem decodeByteArray_one :
  (let t := TStruct [TByteArray 1; TUint 64] in let v := VList [VBytes [Byte.x00]; VUint 5] in
   EncodeToBytes t v = Val [Zbyte 0xC2; Byte.x00; Byte.x05] ∧
   DecodeBytes [Zbyte 0xC2; Byte.x00; Byte.x05] t = Err (decodeError MsgCanonInt)) ∧
  (∀ fuel acc, (elems_loop (decoder (TByteArray 1)) fuel acc one_zero_byte).2 = NoFuel).
Proof.
  split; [by vm_compute|]. intros [|fuel] acc; [done|]. cbn [elems_loop decoder]. unfold mbind, M_bind, attempt.
  replace (decodeByteArray 1 one_zero_byte) with
    ((decodeByteArray 1 one_zero_byte).1, @Val rlp_error _ (VBytes [Byte.x00])) by by vm_compute.
  apply stuck_loops. by vm_compute.
Qed.

(** ** Witnesses *)

Definition sample_type : typ := TStruct [TUint 64; TBigInt; TPtr (TByteArray 4); TBytes; TSlice (TArray 2 TBool); TTail TInterface].
Definition sample_value : value :=
  VList [VUint 1024; VBig (Some (10 ^ 18)); VPtr (Some (VBytes (replicate 4 Byte.x35))); VBytes (replicate 60 Byte.x00);
         VList [VList [VBool true; VBool false]]; VList [VInterface (Some (TBytes, VBytes []))]].
Definition sample_bytes : list byte := default [] (enc sample_type sample_value).

Lemma EncodeToBytes_enc_witness :
  EncodeToBytes sample_type sample_value = Val sample_bytes ∧ Encode sample_type sample_value = Val sample_bytes.
Proof.
  pose proof (EncodeToBytes_enc sample_type sample_value) as H.
  replace (enc sample_type sample_value) with (Some sample_bytes) in H by by vm_compute.
  apply H; [cbn; split_and!; try done; lia|by vm_compute].
Defined.
Lemma DecodeBytes_total_witness :
  (∃ v, DecodeBytes [Zbyte 0xF8] sample_type = Val v) ∨ (∃ e, DecodeBytes [Zbyte 0xF8] sample_type = Err e).
Proof. by apply (DecodeBytes_total sample_type [Zbyte 0xF8]). Defined.
Lemma Split_exact_witness :
  (raw.Split [Zbyte 0xC1; Byte.x05; Byte.x07] = Val (List, [Byte.x05], [Byte.x07]) ↔
   split_ok List [Byte.x05] ∧ [Zbyte 0xC1; Byte.x05; Byte.x07] = split_enc List [Byte.x05] ++ [Byte.x07]) ∧
  (raw.Split [Zbyte 0xC1; Byte.x05; Byte.x07] = Panic ↔ [Zbyte 0xC1; Byte.x05; Byte.x07] = [Zbyte 0x81]).
Proof. by apply (Split_exact [Zbyte 0xC1; Byte.x05; Byte.x07] List [Byte.x05] [Byte.x07]). Defined.
