(* ===== verification/Keccak.v ===== *)
(** * Keccak: [src/common/crypto/sha3] and the hash functions of [src/common/crypto/crypto.go]

    The permutation as [keccakf.go] has it, four rounds unrolled that work in
    place, and the sponge of [sha3.go] around it.  The 25 lanes are a list of
    64-bit words. *)

From stdpp Require Import base tactics list numbers.
From S2P Require Import Prelude GoMath RlpEncode.

#[local] Open Scope Z_scope.

Module keccak.

Declare Scope keccak_scope.
Infix "⊕" := Z.lxor (at level 50, left associativity) : keccak_scope.
#[local] Open Scope keccak_scope.

(** [a[i]]; the indices are constants below 25. *)
Definition lane (i : nat) (a : list Z) : Z := nth i a 0.
Notation "a .[ i ]" := (lane i%nat a) (at level 2, left associativity, format "a .[ i ]") : keccak_scope.
Definition set_lane (i : nat) (v : Z) (a : list Z) : list Z := <[i := v]> a.

(** [x<<n | x>>(64-n)] *)
Definition rotl (n : Z) (x : Z) : Z := Z.lor (u64 (Z.shiftl x n)) (Z.shiftr x (64 - n)).

(** ** keccakf.go *)

Definition rc : list Z :=
  [0x0000000000000001; 0x0000000000008082; 0x800000000000808A; 0x8000000080008000;
   0x000000000000808B; 0x0000000080000001; 0x8000000080008081; 0x8000000000008009;
   0x000000000000008A; 0x0000000000000088; 0x0000000080008009; 0x000000008000000A;
   0x000000008000808B; 0x800000000000008B; 0x8000000000008089; 0x8000000000008003;
   0x8000000000008002; 0x8000000000000080; 0x000000000000800A; 0x800000008000000A;
   0x8000000080008081; 0x8000000000008080; 0x0000000080000001; 0x8000000080008008].

Definition round1 (rci : Z) (a : list Z) : list Z :=
  let bc0 := a.[0] ⊕ a.[5] ⊕ a.[10] ⊕ a.[15] ⊕ a.[20] in
  let bc1 := a.[1] ⊕ a.[6] ⊕ a.[11] ⊕ a.[16] ⊕ a.[21] in
  let bc2 := a.[2] ⊕ a.[7] ⊕ a.[12] ⊕ a.[17] ⊕ a.[22] in
  let bc3 := a.[3] ⊕ a.[8] ⊕ a.[13] ⊕ a.[18] ⊕ a.[23] in
  let bc4 := a.[4] ⊕ a.[9] ⊕ a.[14] ⊕ a.[19] ⊕ a.[24] in
  let d0 := bc4 ⊕ rotl 1 bc1 in
  let d1 := bc0 ⊕ rotl 1 bc2 in
  let d2 := bc1 ⊕ rotl 1 bc3 in
  let d3 := bc2 ⊕ rotl 1 bc4 in
  let d4 := bc3 ⊕ rotl 1 bc0 in
  let bc0 := a.[0] ⊕ d0 in
  let t := a.[6] ⊕ d1 in
  let bc1 := rotl 44 t in
  let t := a.[12] ⊕ d2 in
  let bc2 := rotl 43 t in
  let t := a.[18] ⊕ d3 in
  let bc3 := rotl 21 t in
  let t := a.[24] ⊕ d4 in
  let bc4 := rotl 14 t in
  let a := set_lane 0 (bc0 ⊕ Z.ldiff bc2 bc1 ⊕ rci) a in
  let a := set_lane 6 (bc1 ⊕ Z.ldiff bc3 bc2) a in
  let a := set_lane 12 (bc2 ⊕ Z.ldiff bc4 bc3) a in
  let a := set_lane 18 (bc3 ⊕ Z.ldiff bc0 bc4) a in
  let a := set_lane 24 (bc4 ⊕ Z.ldiff bc1 bc0) a in
  let t := a.[10] ⊕ d0 in
  let bc2 := rotl 3 t in
  let t := a.[16] ⊕ d1 in
  let bc3 := rotl 45 t in
  let t := a.[22] ⊕ d2 in
  let bc4 := rotl 61 t in
  let t := a.[3] ⊕ d3 in
  let bc0 := rotl 28 t in
  let t := a.[9] ⊕ d4 in
  let bc1 := rotl 20 t in
  let a := set_lane 10 (bc0 ⊕ Z.ldiff bc2 bc1) a in
  let a := set_lane 16 (bc1 ⊕ Z.ldiff bc3 bc2) a in
  let a := set_lane 22 (bc2 ⊕ Z.ldiff bc4 bc3) a in
  let a := set_lane 3 (bc3 ⊕ Z.ldiff bc0 bc4) a in
  let a := set_lane 9 (bc4 ⊕ Z.ldiff bc1 bc0) a in
  let t := a.[20] ⊕ d0 in
  let bc4 := rotl 18 t in
  let t := a.[1] ⊕ d1 in
  let bc0 := rotl 1 t in
  let t := a.[7] ⊕ d2 in
  let bc1 := rotl 6 t in
  let t := a.[13] ⊕ d3 in
  let bc2 := rotl 25 t in
  let t := a.[19] ⊕ d4 in
  let bc3 := rotl 8 t in
  let a := set_lane 20 (bc0 ⊕ Z.ldiff bc2 bc1) a in
  let a := set_lane 1 (bc1 ⊕ Z.ldiff bc3 bc2) a in
  let a := set_lane 7 (bc2 ⊕ Z.ldiff bc4 bc3) a in
  let a := set_lane 13 (bc3 ⊕ Z.ldiff bc0 bc4) a in
  let a := set_lane 19 (bc4 ⊕ Z.ldiff bc1 bc0) a in
  let t := a.[5] ⊕ d0 in
  let bc1 := rotl 36 t in
  let t := a.[11] ⊕ d1 in
  let bc2 := rotl 10 t in
  let t := a.[17] ⊕ d2 in
  let bc3 := rotl 15 t in
  let t := a.[23] ⊕ d3 in
  let bc4 := rotl 56 t in
  let t := a.[4] ⊕ d4 in
  let bc0 := rotl 27 t in
  let a := set_lane 5 (bc0 ⊕ Z.ldiff bc2 bc1) a in
  let a := set_lane 11 (bc1 ⊕ Z.ldiff bc3 bc2) a in
  let a := set_lane 17 (bc2 ⊕ Z.ldiff bc4 bc3) a in
  let a := set_lane 23 (bc3 ⊕ Z.ldiff bc0 bc4) a in
  let a := set_lane 4 (bc4 ⊕ Z.ldiff bc1 bc0) a in
  let t := a.[15] ⊕ d0 in
  let bc3 := rotl 41 t in
  let t := a.[21] ⊕ d1 in
  let bc4 := rotl 2 t in
  let t := a.[2] ⊕ d2 in
  let bc0 := rotl 62 t in
  let t := a.[8] ⊕ d3 in
  let bc1 := rotl 55 t in
  let t := a.[14] ⊕ d4 in
  let bc2 := rotl 39 t in
  let a := set_lane 15 (bc0 ⊕ Z.ldiff bc2 bc1) a in
  let a := set_lane 21 (bc1 ⊕ Z.ldiff bc3 bc2) a in
  let a := set_lane 2 (bc2 ⊕ Z.ldiff bc4 bc3) a in
  let a := set_lane 8 (bc3 ⊕ Z.ldiff bc0 bc4) a in
  let a := set_lane 14 (bc4 ⊕ Z.ldiff bc1 bc0) a in
  a.

Definition round2 (rci : Z) (a : list Z) : list Z :=
  let bc0 := a.[0] ⊕ a.[5] ⊕ a.[10] ⊕ a.[15] ⊕ a.[20] in
  let bc1 := a.[1] ⊕ a.[6] ⊕ a.[11] ⊕ a.[16] ⊕ a.[21] in
  let bc2 := a.[2] ⊕ a.[7] ⊕ a.[12] ⊕ a.[17] ⊕ a.[22] in
  let bc3 := a.[3] ⊕ a.[8] ⊕ a.[13] ⊕ a.[18] ⊕ a.[23] in
  let bc4 := a.[4] ⊕ a.[9] ⊕ a.[14] ⊕ a.[19] ⊕ a.[24] in
  let d0 := bc4 ⊕ rotl 1 bc1 in
  let d1 := bc0 ⊕ rotl 1 bc2 in
  let d2 := bc1 ⊕ rotl 1 bc3 in
  let d3 := bc2 ⊕ rotl 1 bc4 in
  let d4 := bc3 ⊕ rotl 1 bc0 in
  let bc0 := a.[0] ⊕ d0 in
  let t := a.[16] ⊕ d1 in
  let bc1 := rotl 44 t in
  let t := a.[7] ⊕ d2 in
  let bc2 := rotl 43 t in
  let t := a.[23] ⊕ d3 in
  let bc3 := rotl 21 t in
  let t := a.[14] ⊕ d4 in
  let bc4 := rotl 14 t in
  let a := set_lane 0 (bc0 ⊕ Z.ldiff bc2 bc1 ⊕ rci) a in
  let a := set_lane 16 (bc1 ⊕ Z.ldiff bc3 bc2) a in
  let a := set_lane 7 (bc2 ⊕ Z.ldiff bc4 bc3) a in
  let a := set_lane 23 (bc3 ⊕ Z.ldiff bc0 bc4) a in
  let a := set_lane 14 (bc4 ⊕ Z.ldiff bc1 bc0) a in
  let t := a.[20] ⊕ d0 in
  let bc2 := rotl 3 t in
  let t := a.[11] ⊕ d1 in
  let bc3 := rotl 45 t in
  let t := a.[2] ⊕ d2 in
  let bc4 := rotl 61 t in
  let t := a.[18] ⊕ d3 in
  let bc0 := rotl 28 t in
  let t := a.[9] ⊕ d4 in
  let bc1 := rotl 20 t in
  let a := set_lane 20 (bc0 ⊕ Z.ldiff bc2 bc1) a in
  let a := set_lane 11 (bc1 ⊕ Z.ldiff bc3 bc2) a in
  let a := set_lane 2 (bc2 ⊕ Z.ldiff bc4 bc3) a in
  let a := set_lane 18 (bc3 ⊕ Z.ldiff bc0 bc4) a in
  let a := set_lane 9 (bc4 ⊕ Z.ldiff bc1 bc0) a in
  let t := a.[15] ⊕ d0 in
  let bc4 := rotl 18 t in
  let t := a.[6] ⊕ d1 in
  let bc0 := rotl 1 t in
  let t := a.[22] ⊕ d2 in
  let bc1 := rotl 6 t in
  let t := a.[13] ⊕ d3 in
  let bc2 := rotl 25 t in
  let t := a.[4] ⊕ d4 in
  let bc3 := rotl 8 t in
  let a := set_lane 15 (bc0 ⊕ Z.ldiff bc2 bc1) a in
  let a := set_lane 6 (bc1 ⊕ Z.ldiff bc3 bc2) a in
  let a := set_lane 22 (bc2 ⊕ Z.ldiff bc4 bc3) a in
  let a := set_lane 13 (bc3 ⊕ Z.ldiff bc0 bc4) a in
  let a := set_lane 4 (bc4 ⊕ Z.ldiff bc1 bc0) a in
  let t := a.[10] ⊕ d0 in
  let bc1 := rotl 36 t in
  let t := a.[1] ⊕ d1 in
  let bc2 := rotl 10 t in
  let t := a.[17] ⊕ d2 in
  let bc3 := rotl 15 t in
  let t := a.[8] ⊕ d3 in
  let bc4 := rotl 56 t in
  let t := a.[24] ⊕ d4 in
  let bc0 := rotl 27 t in
  let a := set_lane 10 (bc0 ⊕ Z.ldiff bc2 bc1) a in
  let a := set_lane 1 (bc1 ⊕ Z.ldiff bc3 bc2) a in
  let a := set_lane 17 (bc2 ⊕ Z.ldiff bc4 bc3) a in
  let a := set_lane 8 (bc3 ⊕ Z.ldiff bc0 bc4) a in
  let a := set_lane 24 (bc4 ⊕ Z.ldiff bc1 bc0) a in
  let t := a.[5] ⊕ d0 in
  let bc3 := rotl 41 t in
  let t := a.[21] ⊕ d1 in
  let bc4 := rotl 2 t in
  let t := a.[12] ⊕ d2 in
  let bc0 := rotl 62 t in
  let t := a.[3] ⊕ d3 in
  let bc1 := rotl 55 t in
  let t := a.[19] ⊕ d4 in
  let bc2 := rotl 39 t in
  let a := set_lane 5 (bc0 ⊕ Z.ldiff bc2 bc1) a in
  let a := set_lane 21 (bc1 ⊕ Z.ldiff bc3 bc2) a in
  let a := set_lane 12 (bc2 ⊕ Z.ldiff bc4 bc3) a in
  let a := set_lane 3 (bc3 ⊕ Z.ldiff bc0 bc4) a in
  let a := set_lane 19 (bc4 ⊕ Z.ldiff bc1 bc0) a in
  a.

Definition round3 (rci : Z) (a : list Z) : list Z :=
  let bc0 := a.[0] ⊕ a.[5] ⊕ a.[10] ⊕ a.[15] ⊕ a.[20] in
  let bc1 := a.[1] ⊕ a.[6] ⊕ a.[11] ⊕ a.[16] ⊕ a.[21] in
  let bc2 := a.[2] ⊕ a.[7] ⊕ a.[12] ⊕ a.[17] ⊕ a.[22] in
  let bc3 := a.[3] ⊕ a.[8] ⊕ a.[13] ⊕ a.[18] ⊕ a.[23] in
  let bc4 := a.[4] ⊕ a.[9] ⊕ a.[14] ⊕ a.[19] ⊕ a.[24] in
  let d0 := bc4 ⊕ rotl 1 bc1 in
  let d1 := bc0 ⊕ rotl 1 bc2 in
  let d2 := bc1 ⊕ rotl 1 bc3 in
  let d3 := bc2 ⊕ rotl 1 bc4 in
  let d4 := bc3 ⊕ rotl 1 bc0 in
  let bc0 := a.[0] ⊕ d0 in
  let t := a.[11] ⊕ d1 in
  let bc1 := rotl 44 t in
  let t := a.[22] ⊕ d2 in
  let bc2 := rotl 43 t in
  let t := a.[8] ⊕ d3 in
  let bc3 := rotl 21 t in
  let t := a.[19] ⊕ d4 in
  let bc4 := rotl 14 t in
  let a := set_lane 0 (bc0 ⊕ Z.ldiff bc2 bc1 ⊕ rci) a in
  let a := set_lane 11 (bc1 ⊕ Z.ldiff bc3 bc2) a in
  let a := set_lane 22 (bc2 ⊕ Z.ldiff bc4 bc3) a in
  let a := set_lane 8 (bc3 ⊕ Z.ldiff bc0 bc4) a in
  let a := set_lane 19 (bc4 ⊕ Z.ldiff bc1 bc0) a in
  let t := a.[15] ⊕ d0 in
  let bc2 := rotl 3 t in
  let t := a.[1] ⊕ d1 in
  let bc3 := rotl 45 t in
  let t := a.[12] ⊕ d2 in
  let bc4 := rotl 61 t in
  let t := a.[23] ⊕ d3 in
  let bc0 := rotl 28 t in
  let t := a.[9] ⊕ d4 in
  let bc1 := rotl 20 t in
  let a := set_lane 15 (bc0 ⊕ Z.ldiff bc2 bc1) a in
  let a := set_lane 1 (bc1 ⊕ Z.ldiff bc3 bc2) a in
  let a := set_lane 12 (bc2 ⊕ Z.ldiff bc4 bc3) a in
  let a := set_lane 23 (bc3 ⊕ Z.ldiff bc0 bc4) a in
  let a := set_lane 9 (bc4 ⊕ Z.ldiff bc1 bc0) a in
  let t := a.[5] ⊕ d0 in
  let bc4 := rotl 18 t in
  let t := a.[16] ⊕ d1 in
  let bc0 := rotl 1 t in
  let t := a.[2] ⊕ d2 in
  let bc1 := rotl 6 t in
  let t := a.[13] ⊕ d3 in
  let bc2 := rotl 25 t in
  let t := a.[24] ⊕ d4 in
  let bc3 := rotl 8 t in
  let a := set_lane 5 (bc0 ⊕ Z.ldiff bc2 bc1) a in
  let a := set_lane 16 (bc1 ⊕ Z.ldiff bc3 bc2) a in
  let a := set_lane 2 (bc2 ⊕ Z.ldiff bc4 bc3) a in
  let a := set_lane 13 (bc3 ⊕ Z.ldiff bc0 bc4) a in
  let a := set_lane 24 (bc4 ⊕ Z.ldiff bc1 bc0) a in
  let t := a.[20] ⊕ d0 in
  let bc1 := rotl 36 t in
  let t := a.[6] ⊕ d1 in
  let bc2 := rotl 10 t in
  let t := a.[17] ⊕ d2 in
  let bc3 := rotl 15 t in
  let t := a.[3] ⊕ d3 in
  let bc4 := rotl 56 t in
  let t := a.[14] ⊕ d4 in
  let bc0 := rotl 27 t in
  let a := set_lane 20 (bc0 ⊕ Z.ldiff bc2 bc1) a in
  let a := set_lane 6 (bc1 ⊕ Z.ldiff bc3 bc2) a in
  let a := set_lane 17 (bc2 ⊕ Z.ldiff bc4 bc3) a in
  let a := set_lane 3 (bc3 ⊕ Z.ldiff bc0 bc4) a in
  let a := set_lane 14 (bc4 ⊕ Z.ldiff bc1 bc0) a in
  let t := a.[10] ⊕ d0 in
  let bc3 := rotl 41 t in
  let t := a.[21] ⊕ d1 in
  let bc4 := rotl 2 t in
  let t := a.[7] ⊕ d2 in
  let bc0 := rotl 62 t in
  let t := a.[18] ⊕ d3 in
  let bc1 := rotl 55 t in
  let t := a.[4] ⊕ d4 in
  let bc2 := rotl 39 t in
  let a := set_lane 10 (bc0 ⊕ Z.ldiff bc2 bc1) a in
  let a := set_lane 21 (bc1 ⊕ Z.ldiff bc3 bc2) a in
  let a := set_lane 7 (bc2 ⊕ Z.ldiff bc4 bc3) a in
  let a := set_lane 18 (bc3 ⊕ Z.ldiff bc0 bc4) a in
  let a := set_lane 4 (bc4 ⊕ Z.ldiff bc1 bc0) a in
  a.

Definition round4 (rci : Z) (a : list Z) : list Z :=
  let bc0 := a.[0] ⊕ a.[5] ⊕ a.[10] ⊕ a.[15] ⊕ a.[20] in
  let bc1 := a.[1] ⊕ a.[6] ⊕ a.[11] ⊕ a.[16] ⊕ a.[21] in
  let bc2 := a.[2] ⊕ a.[7] ⊕ a.[12] ⊕ a.[17] ⊕ a.[22] in
  let bc3 := a.[3] ⊕ a.[8] ⊕ a.[13] ⊕ a.[18] ⊕ a.[23] in
  let bc4 := a.[4] ⊕ a.[9] ⊕ a.[14] ⊕ a.[19] ⊕ a.[24] in
  let d0 := bc4 ⊕ rotl 1 bc1 in
  let d1 := bc0 ⊕ rotl 1 bc2 in
  let d2 := bc1 ⊕ rotl 1 bc3 in
  let d3 := bc2 ⊕ rotl 1 bc4 in
  let d4 := bc3 ⊕ rotl 1 bc0 in
  let bc0 := a.[0] ⊕ d0 in
  let t := a.[1] ⊕ d1 in
  let bc1 := rotl 44 t in
  let t := a.[2] ⊕ d2 in
  let bc2 := rotl 43 t in
  let t := a.[3] ⊕ d3 in
  let bc3 := rotl 21 t in
  let t := a.[4] ⊕ d4 in
  let bc4 := rotl 14 t in
  let a := set_lane 0 (bc0 ⊕ Z.ldiff bc2 bc1 ⊕ rci) a in
  let a := set_lane 1 (bc1 ⊕ Z.ldiff bc3 bc2) a in
  let a := set_lane 2 (bc2 ⊕ Z.ldiff bc4 bc3) a in
  let a := set_lane 3 (bc3 ⊕ Z.ldiff bc0 bc4) a in
  let a := set_lane 4 (bc4 ⊕ Z.ldiff bc1 bc0) a in
  let t := a.[5] ⊕ d0 in
  let bc2 := rotl 3 t in
  let t := a.[6] ⊕ d1 in
  let bc3 := rotl 45 t in
  let t := a.[7] ⊕ d2 in
  let bc4 := rotl 61 t in
  let t := a.[8] ⊕ d3 in
  let bc0 := rotl 28 t in
  let t := a.[9] ⊕ d4 in
  let bc1 := rotl 20 t in
  let a := set_lane 5 (bc0 ⊕ Z.ldiff bc2 bc1) a in
  let a := set_lane 6 (bc1 ⊕ Z.ldiff bc3 bc2) a in
  let a := set_lane 7 (bc2 ⊕ Z.ldiff bc4 bc3) a in
  let a := set_lane 8 (bc3 ⊕ Z.ldiff bc0 bc4) a in
  let a := set_lane 9 (bc4 ⊕ Z.ldiff bc1 bc0) a in
  let t := a.[10] ⊕ d0 in
  let bc4 := rotl 18 t in
  let t := a.[11] ⊕ d1 in
  let bc0 := rotl 1 t in
  let t := a.[12] ⊕ d2 in
  let bc1 := rotl 6 t in
  let t := a.[13] ⊕ d3 in
  let bc2 := rotl 25 t in
  let t := a.[14] ⊕ d4 in
  let bc3 := rotl 8 t in
  let a := set_lane 10 (bc0 ⊕ Z.ldiff bc2 bc1) a in
  let a := set_lane 11 (bc1 ⊕ Z.ldiff bc3 bc2) a in
  let a := set_lane 12 (bc2 ⊕ Z.ldiff bc4 bc3) a in
  let a := set_lane 13 (bc3 ⊕ Z.ldiff bc0 bc4) a in
  let a := set_lane 14 (bc4 ⊕ Z.ldiff bc1 bc0) a in
  let t := a.[15] ⊕ d0 in
  let bc1 := rotl 36 t in
  let t := a.[16] ⊕ d1 in
  let bc2 := rotl 10 t in
  let t := a.[17] ⊕ d2 in
  let bc3 := rotl 15 t in
  let t := a.[18] ⊕ d3 in
  let bc4 := rotl 56 t in
  let t := a.[19] ⊕ d4 in
  let bc0 := rotl 27 t in
  let a := set_lane 15 (bc0 ⊕ Z.ldiff bc2 bc1) a in
  let a := set_lane 16 (bc1 ⊕ Z.ldiff bc3 bc2) a in
  let a := set_lane 17 (bc2 ⊕ Z.ldiff bc4 bc3) a in
  let a := set_lane 18 (bc3 ⊕ Z.ldiff bc0 bc4) a in
  let a := set_lane 19 (bc4 ⊕ Z.ldiff bc1 bc0) a in
  let t := a.[20] ⊕ d0 in
  let bc3 := rotl 41 t in
  let t := a.[21] ⊕ d1 in
  let bc4 := rotl 2 t in
  let t := a.[22] ⊕ d2 in
  let bc0 := rotl 62 t in
  let t := a.[23] ⊕ d3 in
  let bc1 := rotl 55 t in
  let t := a.[24] ⊕ d4 in
  let bc2 := rotl 39 t in
  let a := set_lane 20 (bc0 ⊕ Z.ldiff bc2 bc1) a in
  let a := set_lane 21 (bc1 ⊕ Z.ldiff bc3 bc2) a in
  let a := set_lane 22 (bc2 ⊕ Z.ldiff bc4 bc3) a in
  let a := set_lane 23 (bc3 ⊕ Z.ldiff bc0 bc4) a in
  let a := set_lane 24 (bc4 ⊕ Z.ldiff bc1 bc0) a in
  a.

(** The body of the loop, and the loop for [i = 0, 4, ..., 20]. *)
Definition rounds4 (i : nat) (a : list Z) : list Z :=
  round4 (rc.[i + 3]) (round3 (rc.[i + 2]) (round2 (rc.[i + 1]) (round1 (rc.[i]) a))).
Definition keccakF1600 (a : list Z) : list Z :=
  foldl (λ a i, rounds4 i a) a [0; 4; 8; 12; 16; 20]%nat.

(** ** xor_generic.go, xor_unaligned.go *)

(** [binary.LittleEndian.Uint64] and [PutUint64]. *)
Definition le_Uint64 (b : list byte) : Z := SetBytes (reverse (take 8 b)).
Definition le_PutUint64 (v : Z) : list byte := reverse (be_bytes 8 v).

Fixpoint xorIn_loop (n i : nat) (a : list Z) (buf : list byte) : list Z :=
  match n with
  | O => a
  | S n => xorIn_loop n (S i) (set_lane i (a.[i] ⊕ le_Uint64 buf) a) (drop 8 buf)
  end.
Definition xorInGeneric (a : list Z) (buf : list byte) : list Z := xorIn_loop (length buf / 8) 0 a buf.

Fixpoint copyOut_loop (n i : nat) (a : list Z) : list byte :=
  match n with
  | O => []
  | S n => le_PutUint64 (a.[i]) ++ copyOut_loop n (S i) a
  end.
(** The buffer has [len] bytes, a multiple of 8. *)
Definition copyOutGeneric (len : nat) (a : list Z) : list byte := copyOut_loop (len / 8) 0 a.

(** [d.a[i] ^= bw[i]] for a range of lanes, with the buffer as words. *)
Definition xor_words (from to : nat) (buf : list byte) (a : list Z) : list Z :=
  foldl (λ a i, set_lane i (a.[i] ⊕ le_Uint64 (drop (8 * i) buf)) a) a (seq from (to - from)).
Definition xorInUnaligned (a : list Z) (buf : list byte) : list Z :=
  let n := length buf in
  let a := if (72 <=? n)%nat then xor_words 0 9 buf a else a in
  let a := if (104 <=? n)%nat then xor_words 9 13 buf a else a in
  let a := if (136 <=? n)%nat then xor_words 13 17 buf a else a in
  let a := if (144 <=? n)%nat then xor_words 17 18 buf a else a in
  if (168 <=? n)%nat then xor_words 18 21 buf a else a.

(** ** sha3.go *)

Inductive spongeDirection : Type := spongeAbsorbing | spongeSqueezing.

(** [buf] is the part of [storage] in use. *)
Record state : Type := mkState {
  lanes : list Z;
  buf : list byte;
  rate : nat;
  dsbyte : byte;
  outputLen : nat;
  direction : spongeDirection }.

Definition set_lanes (a : list Z) (d : state) : state := mkState a (buf d) (rate d) (dsbyte d) (outputLen d) (direction d).
Definition set_buf (b : list byte) (d : state) : state := mkState (lanes d) b (rate d) (dsbyte d) (outputLen d) (direction d).
Definition set_direction (r : spongeDirection) (d : state) : state := mkState (lanes d) (buf d) (rate d) (dsbyte d) (outputLen d) r.

Definition Reset (d : state) : state := mkState (replicate 25 0) [] (rate d) (dsbyte d) (outputLen d) spongeAbsorbing.

Definition permute (d : state) : state :=
  match direction d with
  | spongeAbsorbing => set_lanes (keccakF1600 (xorInGeneric (lanes d) (buf d))) (set_buf [] d)
  | spongeSqueezing =>
      let d := set_lanes (keccakF1600 (lanes d)) d in
      set_buf (copyOutGeneric (rate d) (lanes d)) d
  end.

(** [b[i] ^= 0x80] *)
Definition flip_last (b : list byte) : list byte :=
  match reverse b with
  | [] => []
  | x :: r => reverse (Zbyte (byteZ x ⊕ 0x80) :: r)
  end.
Definition padAndPermute (ds : byte) (d : state) : state :=
  let b := buf d ++ [ds] in
  let b := b ++ replicate (rate d - length b) Byte.x00 in
  let d := permute (set_buf (flip_last b) d) in
  let d := set_direction spongeSqueezing d in
  set_buf (copyOutGeneric (rate d) (lanes d)) d.

(** Every round takes a byte of the input at least. *)
Fixpoint Write_loop (fuel : nat) (p : list byte) (d : state) : outcome unit state :=
  match fuel with
  | O => NoFuel
  | S fuel =>
      match p with
      | [] => Val d
      | _ =>
          if (length (buf d) =? 0)%nat && (rate d <=? length p)%nat then
            Write_loop fuel (drop (rate d) p)
              (set_lanes (keccakF1600 (xorInGeneric (lanes d) (take (rate d) p))) d)
          else
            let todo := Nat.min (rate d - length (buf d)) (length p) in
            let d := set_buf (buf d ++ take todo p) d in
            Write_loop fuel (drop todo p) (if (length (buf d) =? rate d)%nat then permute d else d)
      end
  end.
(** A write after a read panics. *)
Definition Write (p : list byte) (d : state) : outcome unit state :=
  match direction d with
  | spongeAbsorbing => Write_loop (S (length p)) p d
  | spongeSqueezing => Panic
  end.

Fixpoint Read_loop (fuel len : nat) (d : state) : outcome unit (state * list byte) :=
  match fuel with
  | O => NoFuel
  | S fuel =>
      match len with
      | O => Val (d, [])
      | _ =>
          let out := take len (buf d) in
          let d := set_buf (drop (length out) (buf d)) d in
          let d := if (length (buf d) =? 0)%nat then permute d else d in
          r ← Read_loop fuel (len - length out) d;
          Val (r.1, out ++ r.2)
      end
  end.
Definition Read (len : nat) (d : state) : outcome unit (state * list byte) :=
  let d := match direction d with spongeAbsorbing => padAndPermute (dsbyte d) d | spongeSqueezing => d end in
  Read_loop (S len) len d.

(** [Sum] reads from a clone. *)
Definition Sum (in_ : list byte) (d : state) : outcome unit (list byte) :=
  r ← Read (outputLen d) d; Val (in_ ++ r.2).

(** ** hashes.go, shake.go *)

Definition new_state (r : nat) (n : nat) (ds : Z) : state := mkState (replicate 25 0) [] r (Zbyte ds) n spongeAbsorbing.
Definition NewKeccak256 : state := new_state 136 32 0x01.
Definition NewKeccak512 : state := new_state 72 64 0x01.
Definition New224 : state := new_state 144 28 0x06.
Definition New256 : state := new_state 136 32 0x06.
Definition New384 : state := new_state 104 48 0x06.
Definition New512 : state := new_state 72 64 0x06.
Definition NewShake128 : state := new_state 168 0 0x1f.
Definition NewShake256 : state := new_state 136 0 0x1f.

Definition Sum224 (data : list byte) : outcome unit (list byte) := d ← Write data New224; Sum [] d.
Definition Sum256 (data : list byte) : outcome unit (list byte) := d ← Write data New256; Sum [] d.
Definition Sum384 (data : list byte) : outcome unit (list byte) := d ← Write data New384; Sum [] d.
Definition Sum512 (data : list byte) : outcome unit (list byte) := d ← Write data New512; Sum [] d.
Definition ShakeSum128 (len : nat) (data : list byte) : outcome unit (list byte) := d ← Write data NewShake128; r ← Read len d; Val r.2.
Definition ShakeSum256 (len : nat) (data : list byte) : outcome unit (list byte) := d ← Write data NewShake256; r ← Read len d; Val r.2.

(** ** crypto.go *)

Fixpoint Write_all (data : list (list byte)) (d : state) : outcome unit state :=
  match data with
  | [] => Val d
  | b :: data => d ← Write b d; Write_all data d
  end.
Definition Keccak256 (data : list (list byte)) : outcome unit (list byte) := d ← Write_all data NewKeccak256; Sum [] d.
Definition Keccak256Hash (data : list (list byte)) : outcome unit Hash :=
  d ← Write_all data NewKeccak256; h ← Sum [] d; Val (BytesToHash h).
Definition Keccak512 (data : list (list byte)) : outcome unit (list byte) := d ← Write_all data NewKeccak512; Sum [] d.

(** The hash as a value: hashing always returns. *)
Definition hash256 (m : list byte) : list byte := match Keccak256 [m] with Val h => h | _ => [] end.

(** The list [[]interface{}{b, nonce}]. *)
Definition create_preimage (b : Address) (nonce : Z) : rlp.value :=
  rlp.VList [rlp.VInterface (Some (rlp.TByteArray 20, rlp.VBytes (Address_Bytes b))); rlp.VInterface (Some (rlp.TUint 64, rlp.VUint nonce))].
Definition CreateAddress (b : Address) (nonce : Z) : outcome unit Address :=
  let data := match rlp.EncodeToBytes (rlp.TSlice rlp.TInterface) (create_preimage b nonce) with Val data => data | _ => [] end in
  h ← Keccak256 [data]; Val (BytesToAddress (drop 12 h)).
End keccak.
