(* ===== verification/KeccakFacts.v ===== *)
(** * Keccak: the reference permutation and the sponge

    The permutation by its five step mappings, as the standard (FIPS 202)
    defines them, and that the unrolled rounds compute it; the sponge as a
    function of the whole message, and that the buffered writes and reads
    compute it. *)

From stdpp Require Import base tactics list numbers.
From S2P Require Import Prelude GoMath RlpEncode Keccak.

#[local] Open Scope Z_scope.
Import keccak.
#[local] Open Scope keccak_scope.

(** ** The step mappings

    Lane [(x, y)] is at [x + 5 * y]. *)

Definition at_ (a : list Z) (x y : nat) : Z := lane (x mod 5 + 5 * (y mod 5)) a.
Definition table (f : nat → nat → Z) : list Z := map (λ i, f (i mod 5)%nat (i / 5)%nat) (seq 0 25).

Definition theta (a : list Z) : list Z :=
  let c x := at_ a x 0 ⊕ at_ a x 1 ⊕ at_ a x 2 ⊕ at_ a x 3 ⊕ at_ a x 4 in
  table (λ x y, at_ a x y ⊕ (c (x + 4)%nat ⊕ rotl 1 (c (x + 1)%nat))).

(** The offsets of [rho], along the walk [(x, y) := (y, 2x + 3y)] from
    [(1, 0)]. *)
Fixpoint rho_walk (n t u v x y : nat) : Z :=
  match n with
  | O => 0
  | S n => if (u =? x)%nat && (v =? y)%nat then Z.of_nat ((t + 1) * (t + 2) / 2) mod 64
           else rho_walk n (S t) v ((2 * u + 3 * v) mod 5) x y
  end.
Definition rho_offset (x y : nat) : Z := rho_walk 24 0 1 0 x y.
Definition rho (a : list Z) : list Z := table (λ x y, rotl (rho_offset x y) (at_ a x y)).
Definition pi (a : list Z) : list Z := table (λ x y, at_ a (x + 3 * y) x).
Definition chi (a : list Z) : list Z := table (λ x y, at_ a x y ⊕ Z.ldiff (at_ a (x + 2) y) (at_ a (x + 1) y)).
Definition iota (c : Z) (a : list Z) : list Z := set_lane 0 (lane 0 a ⊕ c) a.
Definition keccak_round (c : Z) (a : list Z) : list Z := iota c (chi (pi (rho (theta a)))).

(** The round constants come from a shift register. *)
Fixpoint lfsr (n : nat) (r : Z) : Z :=
  match n with
  | O => r
  | S n => lfsr n (let r := Z.shiftl r 1 in if Z.testbit r 8 then r ⊕ 0x171 else r)
  end.
Definition rc_bit (t : nat) : bool := Z.testbit (lfsr (t mod 255) 1) 0.
Definition round_constant (k : nat) : Z :=
  foldl (λ c j, if rc_bit (j + 7 * k) then Z.lor c (Z.shiftl 1 (2 ^ Z.of_nat j - 1)) else c) 0 (seq 0 7).
Definition keccak_f (a : list Z) : list Z := foldl (λ a k, keccak_round (round_constant k) a) a (seq 0 24).

Lemma rc_ok : rc = map round_constant (seq 0 24).
Proof. vm_compute. reflexivity. Qed.

(** ** The unrolled rounds *)

(** Where the rounds keep the lanes: each one moves lane [(x, y)] to row
    [x + 2y] of its column. *)
Definition place (a : list Z) : list Z := table (λ x r, at_ a x (2 * x + 3 * r)).

Definition words (a : list Z) : Prop := length a = 25%nat ∧ Forall is_u64 a.
Lemma words_cases (P : list Z → Prop) :
  (∀ a0 a1 a2 a3 a4 a5 a6 a7 a8 a9 a10 a11 a12 a13 a14 a15 a16 a17 a18 a19 a20 a21 a22 a23 a24,
     P [a0; a1; a2; a3; a4; a5; a6; a7; a8; a9; a10; a11; a12; a13; a14; a15; a16; a17; a18; a19; a20; a21; a22; a23; a24]) →
  ∀ a, length a = 25%nat → P a.
Proof. intros H a Hl. do 25 (destruct a as [|? a]; [done|]). destruct a; [apply H|done]. Qed.


Lemma is_u64_bits x : is_u64 x ↔ 0 ≤ x ∧ ∀ n, 64 ≤ n → Z.testbit x n = false.
Proof.
  unfold is_u64. split.
  - intros Hx. split; [lia|]. intros n Hn. apply Z.bits_above_log2; [lia|]. destruct (decide (x = 0)) as [->|]; [cbn; lia|].
    pose proof (Z.log2_lt_pow2 x 64). lia.
  - intros [H0 Hb]. split; [done|]. destruct (decide (x = 0)) as [->|]; [lia|]. apply Z.log2_lt_pow2; [lia|].
    destruct (Z.lt_ge_cases (Z.log2 x) 64) as [|Hge]; [done|]. pose proof (Z.bit_log2 x). rewrite Hb in *; [|done]. intuition (lia || done).
Qed.
Lemma lxor_u64 x y : is_u64 x → is_u64 y → is_u64 (x ⊕ y).
Proof.
  rewrite !is_u64_bits. intros [? Hx] [? Hy]. split; [by apply Z.lxor_nonneg|]. intros n Hn. by rewrite Z.lxor_spec, Hx, Hy.
Qed.
Lemma ldiff_u64 x y : is_u64 x → is_u64 (Z.ldiff x y).
Proof. rewrite !is_u64_bits. intros [? Hx]. split; [apply Z.ldiff_nonneg; by left|]. intros n Hn. by rewrite Z.ldiff_spec, Hx. Qed.
Lemma rotl_u64 n x : 0 ≤ n < 64 → is_u64 x → is_u64 (rotl n x).
Proof.
  intros Hn Hx. unfold rotl. assert (is_u64 (u64 (Z.shiftl x n))) as Hl by apply u64_range.
  revert Hl Hx. rewrite !is_u64_bits. intros [? Hl] [? Hx]. split; [apply Z.lor_nonneg; split; [done|by apply Z.shiftr_nonneg]|].
  intros k Hk. rewrite Z.lor_spec, Hl, Z.shiftr_spec by lia. apply Hx. lia.
Qed.
Lemma rotl_0 x : is_u64 x → rotl 0 x = x.
Proof.
  intros Hx. unfold rotl. rewrite Z.shiftl_0_r. unfold u64. rewrite Z.mod_small by done. rewrite Z.shiftr_div_pow2, Z.div_small by done.
  apply Z.lor_0_r.
Qed.
Create HintDb u64.
#[local] Hint Resolve lxor_u64 rotl_u64 ldiff_u64 : u64.
#[local] Hint Extern 1 (0 ≤ _ < 64) => lia : u64.

Lemma xor5 a b c d e a' b' c' d' e' : [a; b; c; d; e] ≡ₚ [a'; b'; c'; d'; e'] →
  a ⊕ b ⊕ c ⊕ d ⊕ e = a' ⊕ b' ⊕ c' ⊕ d' ⊕ e'.
Proof.
  intros H. assert (∀ l l', l ≡ₚ l' → foldr Z.lxor 0 l = foldr Z.lxor 0 l') as Hf.
  { induction 1; cbn; [done|congruence| |congruence]. by rewrite <- !Z.lxor_assoc, (Z.lxor_comm x). }
  specialize (Hf _ _ H). cbn in Hf. by rewrite !Z.lxor_0_r, <- !Z.lxor_assoc in Hf.
Qed.

(** Both sides as expressions over the 25 lanes. *)
Ltac lane_by_lane :=
  intros [Hl Hw]; revert Hw; pattern_lanes;
  intros * Hw; repeat (apply Forall_cons_iff in Hw as [? Hw]);
  cbv -[Z.lxor rotl Z.ldiff]; rewrite ?rotl_0 by auto 30 with u64
with pattern_lanes :=
  match goal with Hl : length ?a = _ |- _ => revert a Hl; refine (words_cases _ _) end.

Lemma round1_ok c a : words a → round1 c a = place (keccak_round c a).
Proof. lane_by_lane. reflexivity. Qed.
Lemma round2_ok c a : words a → round2 c (place a) = place (place (keccak_round c a)).
Proof.
  lane_by_lane.
  rewrite (xor5 a0 a15 a5 a20 a10 a0 a5 a10 a15 a20) by solve_Permutation.
  rewrite (xor5 a11 a1 a16 a6 a21 a1 a6 a11 a16 a21) by solve_Permutation.
  rewrite (xor5 a22 a12 a2 a17 a7 a2 a7 a12 a17 a22) by solve_Permutation.
  rewrite (xor5 a8 a23 a13 a3 a18 a3 a8 a13 a18 a23) by solve_Permutation.
  rewrite (xor5 a19 a9 a24 a14 a4 a4 a9 a14 a19 a24) by solve_Permutation.
  reflexivity.
Qed.
Lemma round3_ok c a : words a → round3 c (place (place a)) = place (place (place (keccak_round c a))).
Proof.
  lane_by_lane.
  rewrite (xor5 a0 a20 a15 a10 a5 a0 a5 a10 a15 a20) by solve_Permutation.
  rewrite (xor5 a16 a11 a6 a1 a21 a1 a6 a11 a16 a21) by solve_Permutation.
  rewrite (xor5 a7 a2 a22 a17 a12 a2 a7 a12 a17 a22) by solve_Permutation.
  rewrite (xor5 a23 a18 a13 a8 a3 a3 a8 a13 a18 a23) by solve_Permutation.
  rewrite (xor5 a14 a9 a4 a24 a19 a4 a9 a14 a19 a24) by solve_Permutation.
  reflexivity.
Qed.
Lemma round4_ok c a : words a → round4 c (place (place (place a))) = keccak_round c a.
Proof.
  lane_by_lane.
  rewrite (xor5 a0 a10 a20 a5 a15 a0 a5 a10 a15 a20) by solve_Permutation.
  rewrite (xor5 a6 a16 a1 a11 a21 a1 a6 a11 a16 a21) by solve_Permutation.
  rewrite (xor5 a12 a22 a7 a17 a2 a2 a7 a12 a17 a22) by solve_Permutation.
  rewrite (xor5 a18 a3 a13 a23 a8 a3 a8 a13 a18 a23) by solve_Permutation.
  rewrite (xor5 a24 a9 a19 a4 a14 a4 a9 a14 a19 a24) by solve_Permutation.
  reflexivity.
Qed.

Lemma lane_u64 a i : Forall is_u64 a → is_u64 (lane i a).
Proof.
  intros Ha. unfold lane. destruct (nth_in_or_default i a 0) as [H| ->]; [|done]. rewrite Forall_forall in Ha. by apply Ha.
Qed.
Lemma at_u64 a x y : words a → is_u64 (at_ a x y).
Proof. intros [_ Ha]. by apply lane_u64. Qed.
Lemma table_words f : (∀ x y, is_u64 (f x y)) → words (table f).
Proof. intros H. split; [unfold table; by rewrite length_map|]. apply Forall_forall. intros v (i & <- & _)%in_map_iff. apply H. Qed.
Lemma rho_walk_range n x y : ∀ t u v, 0 ≤ rho_walk n t u v x y < 64.
Proof.
  induction n as [|n IH]; intros t u v; [done|]. cbn [rho_walk].
  destruct ((u =? x)%nat && (v =? y)%nat); [by apply Z.mod_pos_bound|apply IH].
Qed.
Lemma rho_offset_range x y : 0 ≤ rho_offset x y < 64.
Proof. apply rho_walk_range. Qed.
#[local] Hint Resolve at_u64 : u64.
Lemma keccak_round_words c a : is_u64 c → words a → words (keccak_round c a).
Proof.
  intros Hc Ha. unfold keccak_round, iota.
  assert (words (theta a)) as H1 by (apply table_words; intros; cbn zeta beta; auto 20 with u64).
  assert (words (rho (theta a))) as H2 by (apply table_words; intros; apply rotl_u64; [apply rho_offset_range|auto with u64]).
  assert (words (pi (rho (theta a)))) as H3 by (apply table_words; intros; auto with u64).
  assert (words (chi (pi (rho (theta a))))) as H4 by (apply table_words; intros; auto with u64).
  destruct H4 as [Hl Hw]. split; [unfold set_lane; by rewrite length_insert|]. apply Forall_insert; [done|].
  apply lxor_u64; [by apply lane_u64|done].
Qed.
Lemma round_constant_u64 k : (k < 24)%nat → is_u64 (round_constant k).
Proof.
  intros Hk. assert (Forall is_u64 rc) as H by (unfold rc; repeat (constructor; [done|]); constructor).
  rewrite rc_ok, Forall_forall in H. apply H, in_map, in_seq. lia.
Qed.
Lemma rc_lane k : (k < 24)%nat → lane k rc = round_constant k.
Proof.
  intros Hk. unfold lane. rewrite rc_ok, (nth_indep _ 0 (round_constant 0)) by (by rewrite length_map, length_seq).
  rewrite map_nth, seq_nth by done. done.
Qed.
Lemma rounds4_ok i a : (i + 3 < 24)%nat → words a →
  rounds4 i a = foldl (λ a k, keccak_round (round_constant k) a) a (seq i 4).
Proof.
  intros Hi Ha. unfold rounds4. rewrite !rc_lane by lia.
  assert (∀ k b, (k < 24)%nat → words b → words (keccak_round (round_constant k) b)) as Hw
    by (intros; apply keccak_round_words; [by apply round_constant_u64|done]).
  rewrite round1_ok, round2_ok, round3_ok, round4_ok by (repeat apply Hw; (lia || done)).
  cbn [seq foldl]. by replace (i + 1)%nat with (S i) by lia; replace (i + 2)%nat with (S (S i)) by lia; replace (i + 3)%nat with (S (S (S i))) by lia.
Qed.
Lemma rounds_words l a : Forall (λ k, k < 24)%nat l → words a → words (foldl (λ a k, keccak_round (round_constant k) a) a l).
Proof.
  intros Hl. revert a. induction Hl as [|k l Hk _ IH]; intros a Ha; [done|]. cbn [foldl]. apply IH, keccak_round_words; [by apply round_constant_u64|done].
Qed.
Lemma loop_ok l : Forall (λ i, i + 3 < 24)%nat l → ∀ a, words a →
  foldl (λ a i, rounds4 i a) a l = foldl (λ a k, keccak_round (round_constant k) a) a (concat (map (λ i, seq i 4) l)).
Proof.
  induction 1 as [|i l Hi _ IH]; intros a Ha; [reflexivity|]. cbn [map concat foldl]. rewrite foldl_app, <- (rounds4_ok i a) by assumption.
  apply IH. rewrite rounds4_ok by assumption. apply rounds_words; [|assumption]. apply Forall_forall. intros k. rewrite in_seq. lia.
Qed.
Lemma keccakF1600_ok a : words a → keccakF1600 a = keccak_f a ∧ words (keccak_f a).
Proof.
  intros Ha. unfold keccakF1600, keccak_f. split; [|apply rounds_words; [apply Forall_forall; intros k; rewrite in_seq; lia|assumption]].
  rewrite loop_ok; [reflexivity| |assumption]. repeat (constructor; [lia|]). constructor.
Qed.

(** ** Blocks and bytes *)

Definition word (b : list byte) (i : nat) : Z := le_Uint64 (drop (8 * i) b).
Definition xor_block (a : list Z) (b : list byte) : list Z := imap (λ i v, v ⊕ word b i) a.
Definition lane_bytes (r : nat) (a : list Z) : list byte := take r (concat (map le_PutUint64 a)).
Definition rate_ok (r : nat) : Prop := ∃ k, r = (8 * k)%nat ∧ (0 < k ≤ 21)%nat.

Lemma le_Uint64_u64 b : is_u64 (le_Uint64 b).
Proof.
  unfold le_Uint64, is_u64. pose proof (SetBytes_range (reverse (take 8 b))) as H. split; [apply H|].
  eapply Z.lt_le_trans; [apply H|]. change (2 ^ 64) with (256 ^ 8). apply Z.pow_le_mono_r; [done|].
  unfold Zlen. rewrite length_reverse, length_take. lia.
Qed.
Lemma word_nil b i : (length b ≤ 8 * i)%nat → word b i = 0.
Proof. intros H. unfold word. rewrite drop_ge by done. done. Qed.

Lemma xorIn_loop_lookup n : ∀ i a b j, (i + n ≤ length a)%nat → 
  xorIn_loop n i a b !! j = if decide (i ≤ j < i + n)%nat then (λ v, v ⊕ le_Uint64 (drop (8 * (j - i)) b)) <$> a !! j else a !! j.
Proof.
  induction n as [|n IH]; intros i a b j Hl; cbn [xorIn_loop].
  { rewrite decide_False by lia. done. }
  rewrite IH by (unfold set_lane; rewrite length_insert; lia). unfold set_lane. repeat case_decide; try lia.
  - rewrite list_lookup_insert_ne by lia. rewrite drop_drop. by replace (8 + 8 * (j - S i))%nat with (8 * (j - i))%nat by lia.
  - assert (j = i) as -> by lia. destruct (lookup_lt_is_Some_2 a i ltac:(lia)) as [v E].
    rewrite list_lookup_insert_eq, E by lia. unfold lane. rewrite (nth_lookup_Some _ _ _ _ E). by rewrite Nat.sub_diag.
  - by rewrite list_lookup_insert_ne by lia.
Qed.
Lemma xorInGeneric_ok a b k : length a = 25%nat → length b = (8 * k)%nat → (k ≤ 25)%nat → xorInGeneric a b = xor_block a b.
Proof.
  intros Ha Hb Hk. unfold xorInGeneric. replace (length b / 8)%nat with k by (rewrite Hb, Nat.mul_comm, Nat.div_mul; lia).
  apply list_eq. intros j. rewrite xorIn_loop_lookup by lia. unfold xor_block. rewrite list_lookup_imap. case_decide as E.
  - by rewrite Nat.sub_0_r.
  - destruct (a !! j) as [v|] eqn:Ej; [|done]. cbn [fmap option_fmap option_map]. rewrite word_nil by lia. by rewrite Z.lxor_0_r.
Qed.
(** The version for machines with unaligned little-endian words. *)
Lemma xor_words_lookup n b : ∀ i a j, (i + n ≤ length a)%nat →
  foldl (λ a i, set_lane i (lane i a ⊕ word b i) a) a (seq i n) !! j =
    if decide (i ≤ j < i + n)%nat then (λ v, v ⊕ word b j) <$> a !! j else a !! j.
Proof.
  induction n as [|n IH]; intros i a j Hl; cbn [seq foldl].
  { by rewrite decide_False by lia. }
  rewrite IH by (unfold set_lane; rewrite length_insert; lia). unfold set_lane. repeat case_decide; try lia.
  - by rewrite list_lookup_insert_ne by lia.
  - assert (j = i) as -> by lia. destruct (lookup_lt_is_Some_2 a i ltac:(lia)) as [v E].
    rewrite list_lookup_insert_eq, E by lia. unfold lane. by rewrite (nth_lookup_Some _ _ _ _ E).
  - by rewrite list_lookup_insert_ne by lia.
Qed.
Lemma xor_words_length from to b a : length (xor_words from to b a) = length a.
Proof.
  unfold xor_words. generalize (seq from (to - from)). intros l. revert a. induction l as [|i l IH]; intros a; [done|].
  cbn [foldl]. rewrite IH. apply length_insert.
Qed.
Lemma xor_words_split from mid to b a : (from ≤ mid ≤ to)%nat → xor_words mid to b (xor_words from mid b a) = xor_words from to b a.
Proof.
  intros H. unfold xor_words. rewrite <- foldl_app. f_equal. replace (to - from)%nat with ((mid - from) + (to - mid))%nat by lia.
  rewrite seq_app. do 2 f_equal. lia.
Qed.
Lemma xorInUnaligned_ok a b : length a = 25%nat → length b ∈ [72; 104; 136; 144; 168]%nat → xorInUnaligned a b = xor_block a b.
Proof.
  intros Ha Hb. assert (∃ k, length b = (8 * k)%nat ∧ (k ≤ 25)%nat ∧ xorInUnaligned a b = xor_words 0 k b a) as (k & Hk & H25 & ->).
  { unfold xorInUnaligned. rewrite !elem_of_cons, elem_of_nil in Hb. destruct Hb as [E|[E|[E|[E|[E|[]]]]]]; rewrite E;
      [exists 9%nat|exists 13%nat|exists 17%nat|exists 18%nat|exists 21%nat]; (split; [done|split; [lia|]]); cbn [Nat.leb];
      by rewrite ?(xor_words_split 0) by lia. }
  change (xor_words 0 k b a) with (foldl (λ a i, set_lane i (lane i a ⊕ word b i) a) a (seq 0 (k - 0))).
  apply list_eq. intros j. rewrite xor_words_lookup by lia. unfold xor_block. rewrite list_lookup_imap. case_decide; [done|].
  destruct (a !! j) as [v|] eqn:Ej; [|done]. cbn [fmap option_fmap option_map]. rewrite word_nil by lia. by rewrite Z.lxor_0_r.
Qed.
Lemma xor_block_words a b : words a → words (xor_block a b).
Proof.
  intros [Hl Ha]. split; [unfold xor_block; by rewrite length_imap|]. apply Forall_lookup. intros i v.
  unfold xor_block. rewrite list_lookup_imap. intros (w & E & ->)%fmap_Some. rewrite Forall_lookup in Ha.
  apply lxor_u64; [by eapply Ha|apply le_Uint64_u64].
Qed.

Lemma copyOut_loop_ok n : ∀ i a, (i + n ≤ length a)%nat → copyOut_loop n i a = concat (map le_PutUint64 (take n (drop i a))).
Proof.
  induction n as [|n IH]; intros i a Hl; [done|]. cbn [copyOut_loop].
  destruct (lookup_lt_is_Some_2 a i ltac:(lia)) as [v E]. rewrite (drop_S a v i E). cbn [take map concat].
  unfold lane. rewrite (nth_lookup_Some _ _ _ _ E), IH by lia. done.
Qed.
Lemma le_PutUint64_length v : length (le_PutUint64 v) = 8%nat.
Proof. unfold le_PutUint64. by rewrite length_reverse, length_be_bytes. Qed.
Lemma words_bytes_length a : length (concat (map le_PutUint64 a)) = (8 * length a)%nat.
Proof. induction a as [|v a IH]; [done|]. cbn [map concat length]. rewrite length_app, IH, le_PutUint64_length. lia. Qed.
Lemma copyOutGeneric_ok r a : rate_ok r → length a = 25%nat → copyOutGeneric r a = lane_bytes r a ∧ length (lane_bytes r a) = r.
Proof.
  intros (k & -> & Hk) Ha. unfold copyOutGeneric, lane_bytes. rewrite (Nat.mul_comm 8 k), Nat.div_mul by lia.
  rewrite copyOut_loop_ok by lia. rewrite drop_0. split.
  - rewrite <- (take_drop k a) at 2. rewrite map_app, concat_app, take_app_length'; [done|].
    rewrite words_bytes_length, length_take. lia.
  - rewrite length_take, words_bytes_length. lia.
Qed.

(** ** The sponge *)

Definition absorb_block (a : list Z) (b : list byte) : list Z := keccak_f (xor_block a b).
Fixpoint chunks (r n : nat) (m : list byte) : list (list byte) :=
  match n with
  | O => []
  | S n => take r m :: chunks r n (drop r m)
  end.
(** The message with the domain bits, zeros and the last bit, up to the next
    multiple of the rate. *)
Definition pad (r : nat) (ds : byte) (m : list byte) : list byte :=
  let q := (r - length m mod r)%nat in
  if decide (q = 1)%nat then m ++ [Zbyte (byteZ ds ⊕ 0x80)]
  else m ++ ds :: replicate (q - 2) Byte.x00 ++ [Zbyte 0x80].
Definition absorb (r : nat) (ds : byte) (m : list byte) : list Z :=
  let p := pad r ds m in foldl absorb_block (replicate 25 0) (chunks r (length p / r) p).
Fixpoint stream (r k : nat) (a : list Z) : list byte :=
  match k with
  | O => []
  | S k => lane_bytes r a ++ stream r k (keccak_f a)
  end.
Definition sponge (r : nat) (ds : byte) (n : nat) (m : list byte) : list byte := take n (stream r (n / r + 1) (absorb r ds m)).

Lemma absorb_block_words a b : words a → words (absorb_block a b).
Proof. intros Ha. by apply keccakF1600_ok, xor_block_words. Qed.
Lemma absorb_blocks_words bs : ∀ a, words a → words (foldl absorb_block a bs).
Proof. induction bs as [|b bs IH]; intros a Ha; [assumption|]. cbn [foldl]. by apply IH, absorb_block_words. Qed.
Lemma permute_block r a b : rate_ok r → words a → length b = r → keccakF1600 (xorInGeneric a b) = absorb_block a b.
Proof.
  intros (k & -> & Hk) Ha Hb. rewrite (xorInGeneric_ok a b k); [|apply Ha|done|lia]. by apply keccakF1600_ok, xor_block_words.
Qed.
Lemma zero_words : words (replicate 25 0).
Proof. split; [done|]. by apply Forall_replicate. Qed.

Record absorbed (r : nat) (ds : byte) (n : nat) (m : list byte) (d : state) : Prop := {
  ab_rate : rate d = r;
  ab_ds : dsbyte d = ds;
  ab_len : outputLen d = n;
  ab_dir : direction d = spongeAbsorbing;
  ab_blocks : ∃ bs, Forall (λ b, length b = r) bs ∧ m = concat bs ++ buf d ∧ lanes d = foldl absorb_block (replicate 25 0) bs;
  ab_buf : (length (buf d) < r)%nat }.
#[local] Opaque keccak_f keccakF1600.

(** One more block. *)
Lemma absorbed_block r ds n m d b d' : rate_ok r → absorbed r ds n m d → length (buf d ++ b) = r →
  rate d' = r → dsbyte d' = ds → outputLen d' = n → direction d' = spongeAbsorbing → buf d' = [] →
  lanes d' = keccakF1600 (xorInGeneric (lanes d) (buf d ++ b)) → absorbed r ds n (m ++ b) d'.
Proof.
  intros Hr [_ _ _ _ (bs & HF & Em & El) _] Hb E1 E2 E3 E4 E5 E6. split; try assumption.
  - exists (bs ++ [buf d ++ b]). split_and!.
    + apply Forall_app. split; [assumption|]. by constructor.
    + rewrite Em, E5, concat_app, app_nil_r. cbn. by rewrite app_nil_r, app_assoc.
    + rewrite E6, foldl_app, El. cbn [foldl]. apply (permute_block r); [assumption| |assumption].
      apply absorb_blocks_words, zero_words.
  - rewrite E5. cbn. destruct Hr as (k & -> & ?). lia.
Qed.
Lemma absorbed_buffer r ds n m d b : absorbed r ds n m d → (length (buf d ++ b) < r)%nat → absorbed r ds n (m ++ b) (set_buf (buf d ++ b) d).
Proof.
  intros [H1 H2 H3 H4 (bs & HF & Em & El) _] Hb. split; try assumption. exists bs. split_and!; [assumption| |assumption].
  cbn. by rewrite Em, app_assoc.
Qed.
Lemma Write_loop_ok r ds n fuel : rate_ok r → ∀ p m d, (length p < fuel)%nat → absorbed r ds n m d →
  ∃ d', Write_loop fuel p d = Val d' ∧ absorbed r ds n (m ++ p) d'.
Proof.
  intros Hr. assert (0 < r)%nat as Hr0 by (destruct Hr as (? & -> & ?); lia).
  induction fuel as [|fuel IH]; intros p m d Hp Ha; [lia|]. cbn [Write_loop]. destruct p as [|x p0] eqn:Ep.
  { exists d. by rewrite app_nil_r. }
  rewrite <- Ep in *. assert (0 < length p)%nat as Hp0 by (subst; cbn; lia). clear x p0 Ep. pose proof Ha as [E1 E2 E3 E4 _ E6]. rewrite E1.
  destruct ((length (buf d) =? 0)%nat && (r <=? length p)%nat) eqn:Ec.
  - apply andb_true_iff in Ec as [Eb%Nat.eqb_eq El%Nat.leb_le]. apply nil_length_inv in Eb.
    set (d1 := set_lanes _ d). assert (absorbed r ds n (m ++ take r p) d1) as Ha1.
    { eapply (absorbed_block r ds n m d (take r p)); try done; rewrite Eb; cbn; [rewrite length_take; lia|done]. }
    destruct (IH (drop r p) (m ++ take r p) d1) as (d' & E & Ha'); [rewrite length_drop; lia|done|].
    exists d'. split; [exact E|]. by rewrite <- app_assoc, take_drop in Ha'.
  - set (todo := Nat.min (r - length (buf d)) (length p)). assert (0 < todo ≤ length p)%nat as Ht by lia.
    assert (length (take todo p) = todo) as Hl by (rewrite length_take; lia).
    cbn zeta. set (d1 := set_buf _ d). set (d2 := if (length (buf d1) =? rate d1)%nat then permute d1 else d1). assert (absorbed r ds n (m ++ take todo p) d2) as Ha2.
    { unfold d2. assert (length (buf d1) = length (buf d) + todo)%nat as Eb by (cbn; rewrite length_app; lia). change (rate d1) with (rate d). rewrite Eb, E1. destruct (_ =? r)%nat eqn:Ef.
      - apply Nat.eqb_eq in Ef. unfold permute, d1. cbn [direction set_buf]. rewrite E4.
        eapply (absorbed_block r ds n m d (take todo p)); try done. by rewrite length_app, Hl.
      - apply Nat.eqb_neq in Ef. apply absorbed_buffer; [done|]. rewrite length_app. lia. }
    destruct (IH (drop todo p) (m ++ take todo p) d2) as (d' & E & Ha'); [rewrite length_drop; lia|done|].
    exists d'. split; [exact E|]. by rewrite <- app_assoc, take_drop in Ha'.
Qed.

(** Padding. *)
Lemma flip_last_snoc b x : flip_last (b ++ [x]) = b ++ [Zbyte (byteZ x ⊕ 0x80)].
Proof. unfold flip_last. rewrite reverse_snoc, reverse_cons, reverse_involutive. done. Qed.
Lemma pad_block r ds n m d : rate_ok r → absorbed r ds n m d → ∃ bs b, Forall (λ b, length b = r) bs ∧ length b = r ∧
  lanes d = foldl absorb_block (replicate 25 0) bs ∧ pad r ds m = concat bs ++ b ∧
  b = flip_last ((buf d ++ [ds]) ++ replicate (r - length (buf d ++ [ds])) Byte.x00).
Proof.
  intros Hr [_ _ _ _ (bs & HF & -> & El) Hb]. set (b0 := buf d) in *.
  assert (length (concat bs) mod r = 0)%nat as Em.
  { clear -HF Hb. induction HF as [|b bs Hl _ IH]; cbn; [apply Nat.Div0.mod_0_l|]. rewrite length_app, Hl.
    rewrite <- Nat.Div0.add_mod_idemp_r, IH. rewrite Nat.add_0_r. apply Nat.Div0.mod_same. }
  assert (length (concat bs ++ b0) mod r = length b0)%nat as El'.
  { rewrite length_app, <- Nat.Div0.add_mod_idemp_l, Em. cbn. by apply Nat.mod_small. }
  exists bs. unfold pad. rewrite El', length_app. cbn [length]. case_decide as Eq.
  - exists (b0 ++ [Zbyte (byteZ ds ⊕ 0x80)]). split_and!; try done.
    + rewrite length_app. cbn. lia.
    + by rewrite app_assoc.
    + replace (r - (length b0 + 1))%nat with 0%nat by lia. cbn [replicate]. by rewrite app_nil_r, flip_last_snoc.
  - exists (b0 ++ ds :: replicate (r - length b0 - 2) Byte.x00 ++ [Zbyte 0x80]). split_and!; try done.
    + rewrite length_app. cbn. rewrite length_app, length_replicate. cbn. lia.
    + by rewrite app_assoc.
    + replace (r - (length b0 + 1))%nat with (S (r - length b0 - 2)) by lia.
      rewrite replicate_S_end, app_assoc, flip_last_snoc, <- !app_assoc. done.
Qed.
Lemma chunks_concat r bs : Forall (λ b, length b = r) bs → chunks r (length bs) (concat bs) = bs.
Proof.
  induction 1 as [|b bs Hl _ IH]; [done|]. cbn. rewrite take_app_length', drop_app_length' by done. by rewrite IH.
Qed.
Lemma concat_length r bs : Forall (λ b : list byte, length b = r) bs → length (concat bs) = (length bs * r)%nat.
Proof. induction 1 as [|b bs Hl _ IH]; [done|]. cbn. rewrite length_app, Hl, IH. done. Qed.
Lemma padAndPermute_ok r ds n m d : rate_ok r → absorbed r ds n m d →
  let d' := padAndPermute ds d in lanes d' = absorb r ds m ∧ buf d' = lane_bytes r (lanes d') ∧ rate d' = r ∧ direction d' = spongeSqueezing.
Proof.
  intros Hr Ha. destruct (pad_block r ds n m d Hr Ha) as (bs & b & HF & Hl & El & Ep & Eb). pose proof Ha as [E1 E2 E3 E4 _ E6].
  unfold padAndPermute. rewrite E1, <- Eb. unfold permute. cbn [direction set_buf]. rewrite E4. cbn [lanes buf rate set_buf set_lanes set_direction direction].
  assert (words (lanes d)) as Hw by (rewrite El; apply absorb_blocks_words, zero_words).
  rewrite (permute_block r) by assumption. assert (absorb_block (lanes d) b = absorb r ds m) as ->.
  { unfold absorb. assert (Forall (λ b, length b = r) (bs ++ [b])) as HF' by (apply Forall_app; split; [done|by constructor]).
    replace (pad r ds m) with (concat (bs ++ [b])) by (rewrite Ep, concat_app; cbn; by rewrite app_nil_r).
    rewrite (concat_length r), Nat.div_mul, chunks_concat, foldl_app, El; [done|done|destruct Hr as (? & -> & ?); lia|done]. }
  split_and!; [done| |done|done]. rewrite E1. apply copyOutGeneric_ok; [done|].
  assert (words (absorb r ds m)) as [H _] by (apply absorb_blocks_words, zero_words). done.
Qed.

(** Squeezing. *)
Lemma Read_loop_ok r fuel : rate_ok r → ∀ len k d, (len < fuel)%nat → rate d = r → direction d = spongeSqueezing → words (lanes d) →
  (0 < length (buf d))%nat → (len ≤ length (buf d) + k * r)%nat →
  ∃ d', Read_loop fuel len d = Val (d', take len (buf d ++ stream r k (keccak_f (lanes d)))).
Proof.
  intros Hr. assert (0 < r)%nat as Hr0 by (destruct Hr as (? & -> & ?); lia).
  induction fuel as [|fuel IH]; intros len k d Hlen E1 E2 Hw Hb Hk; [lia|]. cbn [Read_loop].
  destruct len as [|len0] eqn:El; [by exists d|]. rewrite <- El in *. assert (0 < len)%nat as H0 by lia. clear len0 El. cbn zeta.
  set (d1 := set_buf _ d). rewrite length_take in *. destruct (decide (len < length (buf d))%nat) as [Hlt|Hge].
  - assert (length (buf d1) = length (buf d) - len)%nat as Eb by (cbn; rewrite length_drop, length_take; lia).
    rewrite Eb, (proj2 (Nat.eqb_neq _ 0)) by lia. replace (len - (len `min` length (buf d)))%nat with 0%nat by lia.
    destruct (IH 0%nat 0%nat d1) as (d' & E); [lia|done|done|done|lia|lia|]. rewrite E. cbn [mbind outcome_bind fst snd]. exists d'.
    rewrite take_0, app_nil_r, take_app_le by lia. done.
  - rewrite (Nat.min_r len) by lia. assert (buf d1 = []) as Eb by (cbn; rewrite drop_ge; [done|rewrite length_take; lia]). rewrite Eb. cbn [length Nat.eqb].
    assert (words (keccak_f (lanes d))) as Hw' by (by apply keccakF1600_ok).
    assert (permute d1 = mkState (keccak_f (lanes d)) (lane_bytes r (keccak_f (lanes d))) r (dsbyte d) (outputLen d) spongeSqueezing) as ->.
    { unfold permute, d1, set_lanes, set_buf. cbn [direction lanes rate dsbyte outputLen buf]. rewrite E2, E1. cbn [direction lanes rate dsbyte outputLen buf].
      rewrite (proj1 (keccakF1600_ok (lanes d) Hw)), (proj1 (copyOutGeneric_ok r _ Hr (proj1 Hw'))). done. }
    destruct k as [|k].
    + replace (len - length (buf d))%nat with 0%nat by lia. destruct fuel; [lia|]. cbn. eexists. rewrite !app_nil_r. by rewrite !take_ge by lia.
    + edestruct (IH (len - length (buf d))%nat k) as (d' & E); [| | | | | |rewrite E]; [lia|done|done|done| | |].
      * cbn. rewrite (proj2 (copyOutGeneric_ok r _ Hr (proj1 Hw'))). done.
      * cbn. rewrite (proj2 (copyOutGeneric_ok r _ Hr (proj1 Hw'))). lia.
      * cbn [mbind outcome_bind fst snd buf lanes]. exists d'. rewrite (take_ge (buf d)) by lia. cbn [stream].
        rewrite (take_app_ge (buf d)) by lia. done.
Qed.
Lemma Read_ok r ds n len m d : rate_ok r → absorbed r ds n m d → ∃ d', Read len d = Val (d', sponge r ds len m).
Proof.
  intros Hr Ha. pose proof Ha as [E1 E2 E3 E4 _ _]. unfold Read. rewrite E4, E2.
  destruct (padAndPermute_ok r ds n m d Hr Ha) as (H1 & H2 & H3 & H4). set (d1 := padAndPermute ds d) in *.
  assert (words (lanes d1)) as Hw by (rewrite H1; apply absorb_blocks_words, zero_words).
  assert (length (buf d1) = r) as Hb by (rewrite H2; apply copyOutGeneric_ok; [done|apply Hw]).
  assert (0 < r)%nat as Hr0 by (destruct Hr as (? & -> & ?); lia). pose proof (Nat.div_mod_eq len r). pose proof (Nat.mod_upper_bound len r).
  destruct (Read_loop_ok r (S len) Hr len (len / r) d1) as (d' & E); [lia|done|done|done|lia|lia|]. exists d'. rewrite E.
  unfold sponge. rewrite Nat.add_comm. cbn [Nat.add stream]. by rewrite H2, H1.
Qed.
Lemma new_absorbed r n ds : (0 < r)%nat → absorbed r (Zbyte ds) n [] (new_state r n ds).
Proof. intros Hr. split; try done. by exists []. Qed.
Lemma Write_ok r ds n m p d : rate_ok r → absorbed r ds n m d → ∃ d', Write p d = Val d' ∧ absorbed r ds n (m ++ p) d'.
Proof. intros Hr Ha. unfold Write. rewrite (ab_dir _ _ _ _ _ Ha). apply Write_loop_ok; [done|lia|done]. Qed.
Lemma Write_all_ok r ds n data : rate_ok r → ∀ m d, absorbed r ds n m d →
  ∃ d', Write_all data d = Val d' ∧ absorbed r ds n (m ++ concat data) d'.
Proof.
  intros Hr. induction data as [|p data IH]; intros m d Ha; cbn [Write_all concat].
  { exists d. by rewrite app_nil_r. }
  destruct (Write_ok r ds n m p d Hr Ha) as (d1 & -> & Ha1). cbn [mbind outcome_bind].
  rewrite app_assoc. by apply IH.
Qed.
Lemma sponge_length r ds n m : rate_ok r → length (sponge r ds n m) = n.
Proof.
  intros Hr. assert (0 < r)%nat as Hr0 by (destruct Hr as (? & -> & ?); lia).
  assert (∀ k a, words a → length (stream r k a) = k * r)%nat as Hs.
  { induction k as [|k IH]; intros a Ha; [done|]. cbn [stream]. rewrite length_app, IH by (by apply keccakF1600_ok).
    rewrite (proj2 (copyOutGeneric_ok r a Hr (proj1 Ha))). done. }
  unfold sponge. rewrite length_take, Hs by (apply absorb_blocks_words, zero_words).
  pose proof (Nat.div_mod_eq n r). pose proof (Nat.mod_upper_bound n r). lia.
Qed.
