(* ===== verification/Trie.v ===== *)
(** * Merkle Patricia tries

    [src/common/trie]: key encodings ([encoding.go]), nodes and their decoding
    ([node.go]), the operations of a trie over a database ([trie.go]), the
    hasher that collapses and stores nodes ([hasher.go]), Merkle proofs
    ([proof.go]) and tries with hashed keys ([secure_trie.go]).  Nodes are
    immutable in the code once they are part of a trie: every change copies
    them, so they are values here. *)

From stdpp Require Import base tactics list numbers gmap.
From S2P Require Import Prelude RlpEncode RlpDecode RlpRaw.

#[local] Open Scope Z_scope.
#[local] Set Warnings "-register-all".

Module trie.
Import rlp.

(** ** encoding.go *)

Definition terminator : byte := Byte.x10.

Definition hasTerm (s : list byte) : bool :=
  match last s with Some b => bool_decide (b = terminator) | None => false end.

(** [hex[:len(hex)-1]] where the terminator was seen. *)
Definition without_last (s : list byte) : list byte := take (length s - 1) s.

Fixpoint keybytesToHex (str : list byte) : list byte :=
  match str with
  | [] => [terminator]
  | b :: str => Zbyte (byteZ b / 16) :: Zbyte (byteZ b mod 16) :: keybytesToHex str
  end.

(** The bytes [decodeNibbles] writes; an odd number of nibbles is an index out
    of range. *)
Fixpoint decodeNibbles (nibbles : list byte) : option (list byte) :=
  match nibbles with
  | [] => Some []
  | [_] => None
  | hi :: lo :: nibbles =>
      bytes ← decodeNibbles nibbles;
      Some (Zbyte (Z.lor (Z.shiftl (byteZ hi) 4) (byteZ lo)) :: bytes)
  end.

Definition hexToCompact (hex : list byte) : option (list byte) :=
  let term := hasTerm hex in
  let hex := if term then without_last hex else hex in
  let flag := Z.shiftl (if term then 1 else 0) 5 in
  match (Zlen hex) mod 2 =? 1, hex with
  | true, h0 :: hex =>
      bytes ← decodeNibbles hex;
      Some (Zbyte (Z.lor (Z.lor flag (Z.shiftl 1 4)) (byteZ h0)) :: bytes)
  | _, _ =>
      bytes ← decodeNibbles hex;
      Some (Zbyte flag :: bytes)
  end.

(** [base[0]] panics on an empty key. *)
Definition compactToHex (compact : list byte) : option (list byte) :=
  let base := without_last (keybytesToHex compact) in
  match base with
  | [] => None
  | b0 :: _ =>
      let base := if byteZ b0 >=? 2 then base ++ [terminator] else base in
      Some (drop (Z.to_nat (2 - Z.land (byteZ b0) 1)) base)
  end.

Definition hexToKeybytes (hex : list byte) : option (list byte) :=
  let hex := if hasTerm hex then without_last hex else hex in
  if negb (Zlen hex mod 2 =? 0) then None else decodeNibbles hex.

Fixpoint prefixLen (a b : list byte) : nat :=
  match a, b with
  | x :: a, y :: b => if bool_decide (x = y) then S (prefixLen a b) else O
  | _, _ => O
  end.

(** ** node.go *)

Record nodeFlag : Type := mkFlag {
  flag_hash : option (list byte);
  flag_gen : Z;
  flag_dirty : bool }.

(** [Nil] is the nil interface. *)
Inductive node : Type :=
| Nil
| shortNode (Key : list byte) (child : node) (flags : nodeFlag)
| fullNode (Children : list node) (flags : nodeFlag)
| hashNode (hash : list byte)
| valueNode (value : list byte).

(** [uint16] differences wrap around. *)
Definition canUnload (fl : nodeFlag) (cachegen cachelimit : Z) : bool :=
  negb (flag_dirty fl) && ((cachegen - flag_gen fl) mod 2 ^ 16 >=? cachelimit).

(** The methods [cache] and [canUnload] of a node; the flags of value and hash
    nodes. *)
Definition node_flags (n : node) : nodeFlag :=
  match n with
  | shortNode _ _ fl | fullNode _ fl => fl
  | _ => mkFlag None 0 true
  end.

Inductive trie_error : Type :=
| MissingNodeError (NodeHash Path : list byte)
| rlp_err (e : rlp_error)
| invalid_count (c : Z)
| oversized_embedded (size : Z)
| invalid_string_size (size : Z)
| bad_proof_hash (i : nat)
| bad_proof_node (i : nat) (e : trie_error)
| key_mismatch (i : nat)
| additional_nodes
| unexpected_end_of_proof
| db_failure.

(** An RLP function that fails or panics makes its caller do so. *)
Definition from_rlp {A} (o : outcome rlp_error A) : outcome trie_error A :=
  match o with
  | Val a => Val a
  | Err e => Err (rlp_err e)
  | Panic => Panic
  | NoFuel => NoFuel
  end.

Definition hashLen : Z := 32.

(** The value of [CountValues] with its error dropped. *)
Definition count_or_zero (elems : list byte) : outcome trie_error Z :=
  match raw.CountValues elems with
  | Val c => Val c
  | Err _ => Val 0
  | Panic => Panic
  | NoFuel => NoFuel
  end.

Section decode.
(** [decodeNode] on an embedded node. *)
Variable decode_embedded : list byte → outcome trie_error node.

Definition decodeRef (buf : list byte) : outcome trie_error (node * list byte) :=
  kcr ← from_rlp (raw.Split buf);
  match kcr with
  | (rlpd.List, _, rest) =>
      let size := Zlen buf - Zlen rest in
      if size >? hashLen then Err (oversized_embedded size)
      else n ← decode_embedded buf; Val (n, rest)
  | (rlpd.String, val, rest) =>
      if Zlen val =? 0 then Val (Nil, rest)
      else if Zlen val =? 32 then Val (hashNode val, rest)
      else Err (invalid_string_size (Zlen val))
  | (rlpd.Byte, val, _) => Err (invalid_string_size (Zlen val))
  end.

Definition decodeShort (hash : option (list byte)) (elems : list byte) (cachegen : Z) : outcome trie_error node :=
  kr ← from_rlp (raw.SplitString elems);
  let '(kbuf, rest) := kr in
  let flag := mkFlag hash cachegen false in
  key ← val_or_panic (compactToHex kbuf);
  if hasTerm key then
    vr ← from_rlp (raw.SplitString rest);
    Val (shortNode key (valueNode vr.1) flag)
  else
    rr ← decodeRef rest;
    Val (shortNode key rr.1 flag).

(** The first sixteen children, and what is left of the elements. *)
Fixpoint decodeFull_loop (k : nat) (elems : list byte) : outcome trie_error (list node * list byte) :=
  match k with
  | O => Val ([], elems)
  | S k =>
      cr ← decodeRef elems;
      csr ← decodeFull_loop k cr.2;
      Val (cr.1 :: csr.1, csr.2)
  end.
Definition decodeFull (hash : option (list byte)) (elems : list byte) (cachegen : Z) : outcome trie_error node :=
  cse ← decodeFull_loop 16 elems;
  vr ← from_rlp (raw.SplitString cse.2);
  let value := if Zlen vr.1 >? 0 then valueNode vr.1 else Nil in
  Val (fullNode (cse.1 ++ [value]) (mkFlag hash cachegen false)).
End decode.

(** An embedded node is part of the content of the list that is decoded, so
    it is shorter. *)
Fixpoint decodeNode_loop (fuel : nat) (cachegen : Z) (hash : option (list byte)) (buf : list byte)
    : outcome trie_error node :=
  match fuel with
  | O => NoFuel
  | S fuel =>
      if Zlen buf =? 0 then Err (rlp_err io_ErrUnexpectedEOF)
      else
        er ← from_rlp (raw.SplitList buf);
        c ← count_or_zero er.1;
        let embedded := decodeNode_loop fuel cachegen None in
        if c =? 2 then decodeShort embedded hash er.1 cachegen
        else if c =? 17 then decodeFull embedded hash er.1 cachegen
        else Err (invalid_count c)
  end.
Definition decodeNode (hash : option (list byte)) (buf : list byte) (cachegen : Z) : outcome trie_error node :=
  decodeNode_loop (S (length buf)) cachegen hash buf.
Definition mustDecodeNode (hash : option (list byte)) (buf : list byte) (cachegen : Z) : outcome trie_error node :=
  match decodeNode hash buf cachegen with
  | Err _ => Panic
  | o => o
  end.

(** What [rlp.Encode] sees of a node: its Go type and value.  A short node is a
    pointer to a struct with the exported fields [Key] and [Val], a full node
    encodes its array of children, the other kinds are byte slices. *)
Fixpoint node_rlp (n : node) : option (typ * value) :=
  match n with
  | Nil => None
  | shortNode key child _ =>
      Some (TPtr (TStruct [TBytes; TInterface]), VPtr (Some (VList [VBytes key; VInterface (node_rlp child)])))
  | fullNode cs _ => Some (TArray 17 TInterface, VList ((λ c, VInterface (node_rlp c)) <$> cs))
  | hashNode b | valueNode b => Some (TBytes, VBytes b)
  end.

(** ** trie.go *)

(** The interface [Database]: [Get] fails or finds nothing with [None]. *)
Class Database (DB : Type) : Type := {
  db_Get : list byte → DB → option (list byte);
  db_Put : list byte → list byte → M DB trie_error unit }.

(** 56e81f171bcc55a6ff8345e692c0f86e5b48e01b996cadc001622fb5e363b421 *)
Definition emptyRoot : list byte :=
  be_bytes 32 0x56e81f171bcc55a6ff8345e692c0f86e5b48e01b996cadc001622fb5e363b421.

(** [common.BytesToHash]. *)
Definition BytesToHash (b : list byte) : list byte :=
  if Zlen b >? 32 then drop (length b - 32) b else zeros (32 - Zlen b) ++ b.

Section trie.
Context {DB : Type} {database : Database DB}.
(** Keccak-256. *)
Variable sha3 : list byte → list byte.

Record Trie : Type := mkTrie {
  root : node;
  tdb : option DB;
  originalRoot : list byte;
  cachegen : Z;
  cachelimit : Z }.

Definition set_root (n : node) (t : Trie) : Trie := mkTrie n (tdb t) (originalRoot t) (cachegen t) (cachelimit t).
Definition set_db (db : option DB) (t : Trie) : Trie := mkTrie (root t) db (originalRoot t) (cachegen t) (cachelimit t).
Definition SetCacheLimit (l : Z) (t : Trie) : Trie := mkTrie (root t) (tdb t) (originalRoot t) (cachegen t) l.

Definition newFlag (t : Trie) : nodeFlag := mkFlag None (cachegen t) true.

(** Without a database the call of [Get] is one on a nil interface. *)
Definition resolveHash (t : Trie) (h prefix : list byte) : outcome trie_error node :=
  match tdb t with
  | None => Panic
  | Some db =>
      match db_Get h db with
      | None => Err (MissingNodeError (BytesToHash h) prefix)
      | Some enc => mustDecodeNode (Some h) enc (cachegen t)
      end
  end.
Definition resolve (t : Trie) (n : node) (prefix : list byte) : outcome trie_error node :=
  match n with hashNode h => resolveHash t h prefix | _ => Val n end.

Definition zero_hash : list byte := zeros 32.

Definition New (root : list byte) (db : option DB) : outcome trie_error Trie :=
  let t := mkTrie Nil db root 0 0 in
  if negb (bool_decide (root = zero_hash)) && negb (bool_decide (root = emptyRoot)) then
    match db with
    | None => Panic
    | Some _ => rootnode ← resolveHash t root []; Val (set_root rootnode t)
    end
  else Val t.

(** An element of [Children]; the index is a byte of the key. *)
Definition child_at (cs : list node) (i : byte) : option node := cs !! Z.to_nat (byteZ i).
Definition set_child (cs : list node) (i : byte) (n : node) : option (list node) :=
  if byteZ i <? Zlen cs then Some (<[Z.to_nat (byteZ i) := n]> cs) else None.

Definition touched (t : Trie) (fl : nodeFlag) : nodeFlag := mkFlag (flag_hash fl) (cachegen t) (flag_dirty fl).

(** The value, the node with what was loaded put in, and whether anything was
    loaded. *)
Fixpoint tryGet (fuel : nat) (t : Trie) (origNode : node) (key : list byte) (pos : nat)
    : outcome trie_error (option (list byte) * node * bool) :=
  match fuel with
  | O => NoFuel
  | S fuel =>
      match origNode with
      | Nil => Val (None, Nil, false)
      | valueNode v => Val (Some v, valueNode v, false)
      | shortNode nkey nval fl =>
          if (Zlen key - Z.of_nat pos <? Zlen nkey) ||
             negb (bool_decide (nkey = take (length nkey) (drop pos key)))
          then Val (None, origNode, false)
          else
            r ← tryGet fuel t nval key (pos + length nkey);
            let '(value, newnode, didResolve) := r in
            Val (value, if didResolve : bool then shortNode nkey newnode (touched t fl) else origNode, didResolve)
      | fullNode cs fl =>
          i ← val_or_panic (key !! pos);
          c ← val_or_panic (child_at cs i);
          r ← tryGet fuel t c key (pos + 1);
          let '(value, newnode, didResolve) := r in
          if didResolve : bool then
            cs' ← val_or_panic (set_child cs i newnode);
            Val (value, fullNode cs' (touched t fl), true)
          else Val (value, origNode, false)
      | hashNode h =>
          child ← resolveHash t h (take pos key);
          r ← tryGet fuel t child key pos;
          let '(value, newnode, _) := r in
          Val (value, newnode, true)
      end
  end.

(** A step down the trie takes a nibble of the key or loads a node, and a
    loaded node is not a hash. *)
Definition path_fuel (key : list byte) : nat := 2 * length key + 2.

Definition TryGet (key : list byte) (t : Trie) : Trie * outcome trie_error (option (list byte)) :=
  let key := keybytesToHex key in
  match tryGet (path_fuel key) t (root t) key 0 with
  | Val (value, newroot, didResolve) => (if didResolve : bool then set_root newroot t else t, Val value)
  | Err e => (t, Err e)
  | Panic => (t, Panic)
  | NoFuel => (t, NoFuel)
  end.

Definition empty_children : list node := replicate 17 Nil.

Fixpoint insert (fuel : nat) (t : Trie) (n : node) (prefix key : list byte) (value : node)
    : outcome trie_error (bool * node) :=
  match fuel with
  | O => NoFuel
  | S fuel =>
      match key with
      | [] =>
          match n, value with
          | valueNode v, valueNode v' => Val (negb (bool_decide (v = v')), value)
          | valueNode _, _ => Panic
          | _, _ => Val (true, value)
          end
      | k0 :: krest =>
          match n with
          | shortNode nkey nval fl =>
              let matchlen := prefixLen key nkey in
              if (matchlen =? length nkey)%nat then
                r ← insert fuel t nval (prefix ++ take matchlen key) (drop matchlen key) value;
                let '(dirty, nn) := r in
                if negb dirty then Val (false, n) else Val (true, shortNode nkey nn (newFlag t))
              else
                i ← val_or_panic (nkey !! matchlen);
                r1 ← insert fuel t Nil (prefix ++ take (matchlen + 1) nkey) (drop (matchlen + 1) nkey) nval;
                cs ← val_or_panic (set_child empty_children i r1.2);
                j ← val_or_panic (key !! matchlen);
                r2 ← insert fuel t Nil (prefix ++ take (matchlen + 1) key) (drop (matchlen + 1) key) value;
                cs ← val_or_panic (set_child cs j r2.2);
                let branch := fullNode cs (newFlag t) in
                if (matchlen =? 0)%nat then Val (true, branch)
                else Val (true, shortNode (take matchlen key) branch (newFlag t))
          | fullNode cs fl =>
              c ← val_or_panic (child_at cs k0);
              r ← insert fuel t c (prefix ++ [k0]) krest value;
              let '(dirty, nn) := r in
              if negb dirty then Val (false, n)
              else
                cs' ← val_or_panic (set_child cs k0 nn);
                Val (true, fullNode cs' (newFlag t))
          | Nil => Val (true, shortNode key value (newFlag t))
          | hashNode h =>
              rn ← resolveHash t h prefix;
              r ← insert fuel t rn prefix key value;
              let '(dirty, nn) := r in
              if negb dirty then Val (false, rn) else Val (true, nn)
          | valueNode _ => Panic
          end
      end
  end.

(** [pos] at the end of the loop over the children of a full node: the index of
    the only child, -2 for more than one, -1 for none. *)
Fixpoint single_child (i : Z) (pos : Z) (cs : list node) : Z :=
  match cs with
  | [] => pos
  | Nil :: cs => single_child (i + 1) pos cs
  | _ :: cs => if pos =? -1 then single_child (i + 1) i cs else -2
  end.

(** The one child that is left takes the place of the full node. *)
Definition reduce_full (t : Trie) (cs : list node) (prefix : list byte) : outcome trie_error node :=
  let pos := single_child 0 (-1) cs in
  if pos >=? 0 then
    c ← val_or_panic (cs !! Z.to_nat pos);
    let one_nibble := shortNode [Zbyte pos] c (newFlag t) in
    if negb (pos =? 16) then
      cnode ← resolve t c prefix;
      match cnode with
      | shortNode ckey cval _ => Val (shortNode (Zbyte pos :: ckey) cval (newFlag t))
      | _ => Val one_nibble
      end
    else Val one_nibble
  else Val (fullNode cs (newFlag t)).

Fixpoint delete (fuel : nat) (t : Trie) (n : node) (prefix key : list byte)
    : outcome trie_error (bool * node) :=
  match fuel with
  | O => NoFuel
  | S fuel =>
      match n with
      | shortNode nkey nval fl =>
          let matchlen := prefixLen key nkey in
          if (matchlen <? length nkey)%nat then Val (false, n)
          else if (matchlen =? length key)%nat then Val (true, Nil)
          else
            r ← delete fuel t nval (prefix ++ take (length nkey) key) (drop (length nkey) key);
            let '(dirty, child) := r in
            if negb dirty then Val (false, n)
            else
              match child with
              | shortNode ckey cval _ => Val (true, shortNode (nkey ++ ckey) cval (newFlag t))
              | _ => Val (true, shortNode nkey child (newFlag t))
              end
      | fullNode cs fl =>
          match key with
          | [] => Panic
          | k0 :: krest =>
              c ← val_or_panic (child_at cs k0);
              r ← delete fuel t c (prefix ++ [k0]) krest;
              let '(dirty, nn) := r in
              if negb dirty then Val (false, n)
              else
                cs' ← val_or_panic (set_child cs k0 nn);
                n' ← reduce_full t cs' prefix;
                Val (true, n')
          end
      | valueNode _ => Val (true, Nil)
      | Nil => Val (false, Nil)
      | hashNode h =>
          rn ← resolveHash t h prefix;
          r ← delete fuel t rn prefix key;
          let '(dirty, nn) := r in
          if negb dirty then Val (false, rn) else Val (true, nn)
      end
  end.

(** The root is replaced when there was no error, dirty or not. *)
Definition replace_root (t : Trie) (r : outcome trie_error (bool * node)) : Trie * outcome trie_error unit :=
  match r with
  | Val (_, n) => (set_root n t, Val tt)
  | Err e => (t, Err e)
  | Panic => (t, Panic)
  | NoFuel => (t, NoFuel)
  end.
Definition TryDelete (key : list byte) (t : Trie) : Trie * outcome trie_error unit :=
  let k := keybytesToHex key in
  replace_root t (delete (path_fuel k) t (root t) [] k).
Definition TryUpdate (key value : list byte) (t : Trie) : Trie * outcome trie_error unit :=
  let k := keybytesToHex key in
  if negb (Zlen value =? 0) then replace_root t (insert (path_fuel k) t (root t) [] k (valueNode value))
  else replace_root t (delete (path_fuel k) t (root t) [] k).

(** [Get], [Update] and [Delete] log an error and go on. *)
Definition log_error {A} (a : A) (r : Trie * outcome trie_error A) : Trie * outcome trie_error A :=
  match r with (t, Err _) => (t, Val a) | r => r end.
Definition Get (key : list byte) (t : Trie) : Trie * outcome trie_error (option (list byte)) :=
  log_error None (TryGet key t).
Definition Update (key value : list byte) (t : Trie) : Trie * outcome trie_error unit :=
  log_error tt (TryUpdate key value t).
Definition Delete (key : list byte) (t : Trie) : Trie * outcome trie_error unit :=
  log_error tt (TryDelete key t).

(** ** hasher.go

    The state is the [DatabaseWriter], [None] for nil; [w] says which. *)
Abbreviation W := (M (option DB) trie_error).

Definition put (key value : list byte) : W unit := λ db,
  match db with
  | None => (None, Panic)
  | Some db => let '(db, o) := db_Put key value db in (Some db, o)
  end.

Definition set_cache (w : bool) (hash : option (list byte)) (fl : nodeFlag) : nodeFlag :=
  mkFlag hash (flag_gen fl) (if w then false else flag_dirty fl).

Definition store (w force : bool) (n : node) : W node :=
  match n with
  | Nil | hashNode _ => mret n
  | _ =>
      match node_rlp n with
      | None => panic
      | Some (ty, v) =>
          match Encode ty v with
          | Val tmp =>
              if (Zlen tmp <? 32) && negb force then mret n
              else
                let hash := default (sha3 tmp) (flag_hash (node_flags n)) in
                if w then put hash tmp;; mret (hashNode hash) else mret (hashNode hash)
          | _ => panic
          end
      end
  end.

(** Nil children are encoded as empty strings. *)
Definition nil_to_empty (c : node) : node := match c with Nil => valueNode [] | _ => c end.

Section children.
(** [h.hash] on a child, not forced. *)
Variable hash_child : node → W (node * node).

(** The loop over the first [k] children, and the value slot after them. *)
Fixpoint hash_kids (k : nat) (cs : list node) : W (list node * list node) :=
  match k, cs with
  | S k, c :: cs =>
      cc ← match c with Nil => mret (valueNode [], Nil) | _ => hash_child c end;
      ccs ← hash_kids k cs;
      mret (cc.1 :: ccs.1, cc.2 :: ccs.2)
  | _, _ => mret (nil_to_empty <$> cs, cs)
  end.

(** The collapsed node and the one that stays in memory. *)
Definition hashChildren (original : node) : W (node * node) :=
  match original with
  | shortNode key nval fl =>
      ckey ← or_panic (hexToCompact key);
      cc ← match nval with valueNode _ => mret (nval, nval) | _ => hash_child nval end;
      mret (shortNode ckey (nil_to_empty cc.1) fl, shortNode key cc.2 fl)
  | fullNode cs fl =>
      ccs ← hash_kids 16 cs;
      mret (fullNode ccs.1 fl, fullNode ccs.2 fl)
  | _ => mret (original, original)
  end.
End children.

Definition hash_of (n : node) : option (list byte) := match n with hashNode h => Some h | _ => None end.

(** The part of [hash] after the cache was of no use. *)
Definition hash_walk (w force : bool) (hash_child : node → W (node * node)) (n : node) : W (node * node) :=
  cc ← hashChildren hash_child n;
  hashed ← store w force cc.1;
  let cached := match cc.2 with
                | shortNode key c fl => shortNode key c (set_cache w (hash_of hashed) fl)
                | fullNode cs fl => fullNode cs (set_cache w (hash_of hashed) fl)
                | c => c
                end in
  mret (hashed, cached).

(** A method call on the nil interface panics. *)
Fixpoint hash (w : bool) (cachegen cachelimit : Z) (force : bool) (n : node) : W (node * node) :=
  match n, flag_hash (node_flags n) with
  | Nil, _ => panic
  | _, Some h =>
      if negb w then mret (hashNode h, n)
      else if canUnload (node_flags n) cachegen cachelimit then mret (hashNode h, hashNode h)
      else if negb (flag_dirty (node_flags n)) then mret (hashNode h, n)
      else hash_walk w force (hash w cachegen cachelimit false) n
  | _, None => hash_walk w force (hash w cachegen cachelimit false) n
  end.

(** ** Hash and commit *)

Definition hashRoot (w : bool) (t : Trie) : W (node * node) :=
  match root t with
  | Nil => mret (hashNode emptyRoot, Nil)
  | n => hash w (cachegen t) (cachelimit t) true n
  end.

(** The root as a [common.Hash]; the type assertion fails on other nodes. *)
Definition root_hash (n : node) : outcome trie_error (list byte) :=
  match n with hashNode h => Val (BytesToHash h) | _ => Panic end.

Definition Hash (t : Trie) : Trie * outcome trie_error (list byte) :=
  match hashRoot false t None with
  | (_, Val (h, cached)) => (set_root cached t, root_hash h)
  | (_, Err e) => (t, Err e)
  | (_, Panic) => (t, Panic)
  | (_, NoFuel) => (t, NoFuel)
  end.

Definition Root (t : Trie) : Trie * outcome trie_error (list byte) := Hash t.

Definition CommitTo (t : Trie) : W (Trie * list byte) :=
  w ← gets (λ db : option DB, match db with Some _ => true | None => false end);
  hc ← hashRoot w t;
  let t := mkTrie hc.2 (tdb t) (originalRoot t) ((cachegen t + 1) mod 2 ^ 16) (cachelimit t) in
  match root_hash hc.1 with
  | Val h => mret (t, h)
  | _ => panic
  end.

(** [Commit]: to the database of the trie. *)
Definition Commit (t : Trie) : Trie * outcome trie_error (list byte) :=
  match tdb t with
  | None => (t, Panic)
  | Some db =>
      match CommitTo t (Some db) with
      | (db, Val (t, h)) => (set_db db t, Val h)
      | (db, Err e) => (set_db db t, Err e)
      | (_, Panic) => (t, Panic)
      | (_, NoFuel) => (t, NoFuel)
      end
  end.

(** ** proof.go *)

(** The nodes on the path to the key.  An error ends the search with no
    proof. *)
Fixpoint Prove_loop (fuel : nat) (t : Trie) (tn : node) (key : list byte) (nodes : list node)
    : outcome trie_error (list node) :=
  match fuel with
  | O => NoFuel
  | S fuel =>
      match key with
      | [] => Val nodes
      | k0 :: krest =>
          match tn with
          | Nil => Val nodes
          | shortNode nkey nval _ =>
              if (Zlen key <? Zlen nkey) || negb (bool_decide (nkey = take (length nkey) key))
              then Prove_loop fuel t Nil key (nodes ++ [tn])
              else Prove_loop fuel t nval (drop (length nkey) key) (nodes ++ [tn])
          | fullNode cs _ =>
              c ← val_or_panic (child_at cs k0);
              Prove_loop fuel t c krest (nodes ++ [tn])
          | hashNode h =>
              tn ← resolveHash t h [];
              Prove_loop fuel t tn key nodes
          | valueNode _ => Panic
          end
      end
  end.

(** The encoding of a node, with its children hashed, when it is a proof
    element: when it is stored under its hash, or the root. *)
Definition proof_element (i : nat) (n : node) : W (option (list byte)) :=
  cc ← hashChildren (hash false 0 0 false) n;
  hn ← store false false cc.1;
  match hn, i with
  | hashNode _, _ | _, O =>
      match node_rlp cc.1 with
      | None => panic
      | Some (ty, v) => match EncodeToBytes ty v with Val enc => mret (Some enc) | Err _ => mret (Some []) | _ => panic end
      end
  | _, _ => mret None
  end.
Fixpoint proof_elements (i : nat) (nodes : list node) : W (list (list byte)) :=
  match nodes with
  | [] => mret []
  | n :: nodes =>
      e ← proof_element i n;
      es ← proof_elements (S i) nodes;
      mret (match e with Some enc => enc :: es | None => es end)
  end.
Definition Prove (key : list byte) (t : Trie) : outcome trie_error (list (list byte)) :=
  let key := keybytesToHex key in
  match Prove_loop (path_fuel key + 1) t (root t) key [] with
  | Val nodes => (proof_elements 0 nodes None).2
  | Err _ => Val []
  | Panic => Panic
  | NoFuel => NoFuel
  end.
End trie.

(** [get] of proof.go: down an in-memory node, to a hash or a value. *)
Fixpoint get (tn : node) (key : list byte) : outcome trie_error (list byte * node) :=
  match tn with
  | shortNode nkey nval _ =>
      if (Zlen key <? Zlen nkey) || negb (bool_decide (nkey = take (length nkey) key)) then Val ([], Nil)
      else get nval (drop (length nkey) key)
  | fullNode cs _ =>
      match key with
      | [] => Panic
      | k0 :: krest =>
          (fix pick (cs : list node) (i : nat) : outcome trie_error (list byte * node) :=
             match cs, i with
             | [], _ => Panic
             | c :: _, O => get c krest
             | _ :: cs, S i => pick cs i
             end) cs (Z.to_nat (byteZ k0))
      end
  | hashNode _ => Val (key, tn)
  | Nil => Val (key, Nil)
  | valueNode _ => Val ([], tn)
  end.

Section verify.
Variable sha3 : list byte → list byte.
Fixpoint VerifyProof_loop (i : nat) (key wantHash : list byte) (proof : list (list byte))
    : outcome trie_error (option (list byte)) :=
  match proof with
  | [] => Err unexpected_end_of_proof
  | buf :: proof =>
      if negb (bool_decide (sha3 buf = wantHash)) then Err (bad_proof_hash i)
      else
        match decodeNode (Some wantHash) buf 0 with
        | Err e => Err (bad_proof_node i e)
        | Panic => Panic
        | NoFuel => NoFuel
        | Val n =>
            kc ← get n key;
            match kc with
            | (_, Nil) => match proof with [] => Val None | _ => Err (key_mismatch i) end
            | (keyrest, hashNode h) => VerifyProof_loop (S i) keyrest h proof
            | (_, valueNode v) => match proof with [] => Val (Some v) | _ => Err additional_nodes end
            | _ => VerifyProof_loop (S i) key wantHash proof
            end
        end
  end.
Definition VerifyProof (rootHash key : list byte) (proof : list (list byte))
    : outcome trie_error (option (list byte)) :=
  VerifyProof_loop 0 (keybytesToHex key) rootHash proof.
End verify.
End trie.
