(* ===== verification/KeccakProps.v ===== *)
(** * Properties of the hash functions *)

From stdpp Require Import base tactics list numbers.
From S2P Require Import Prelude GoMath RlpEncode RlpEncodeFacts RlpRaw Keccak KeccakFacts Trie.

#[local] Open Scope Z_scope.
Import keccak.
#[local] Open Scope keccak_scope.

(** C31: The unrolled permutation, which combines the steps of a round, keeps
    the lanes in places that change from round to round, and has its round
    constants in a table, is Keccak-f[1600] of the standard: 24 rounds of theta,
    rho, pi, chi and iota with the constants of the shift register. *)
Theorem keccakF1600_reference a : length a = 25%nat → Forall is_u64 a → keccakF1600 a = keccak_f a.
Proof. intros Hl Ha. by apply keccakF1600_ok. Qed.

(** The two ways to add a block to the state, word by word from the bytes and
    as unaligned words in the five block sizes, agree. *)
Theorem xorIn_agree a b : length a = 25%nat → length b ∈ [72; 104; 136; 144; 168]%nat → xorInUnaligned a b = xorInGeneric a b.
Proof.
  intros Ha Hb. rewrite xorInUnaligned_ok by done. symmetry. rewrite !elem_of_cons, elem_of_nil in Hb.
  assert (∃ k, length b = (8 * k)%nat ∧ (k ≤ 25)%nat) as (k & Hk & H25); [|by apply (xorInGeneric_ok a b k)].
  destruct Hb as [E|[E|[E|[E|[E|[]]]]]]; [exists 9%nat|exists 13%nat|exists 17%nat|exists 18%nat|exists 21%nat]; rewrite E; (split; [done|lia]).
Qed.

(** C32: A hash depends on the concatenation of what was written only, however it
    was cut into writes: for every rate and domain byte the writes return, and
    [Sum] returns the sponge of the whole message, padded, and as many bytes
    of it as asked for. *)
Theorem Sum_sponge r n ds data in_ : rate_ok r → ∃ d, Write_all data (new_state r n ds) = Val d ∧
  Sum in_ d = Val (in_ ++ sponge r (Zbyte ds) n (concat data)) ∧ length (sponge r (Zbyte ds) n (concat data)) = n.
Proof.
  intros Hr. destruct (Write_all_ok r (Zbyte ds) n data Hr [] (new_state r n ds)) as (d & E & Ha).
  { apply new_absorbed. destruct Hr as (? & -> & ?). lia. }
  exists d. split; [done|]. split; [|by apply sponge_length]. unfold Sum. rewrite (ab_len _ _ _ _ _ Ha).
  destruct (Read_ok r (Zbyte ds) n n (concat data) d Hr Ha) as (d' & ->). done.
Qed.

Definition keccak256 (m : list byte) : list byte := sponge 136 (Zbyte 0x01) 32 m.
Lemma Keccak256_ok data : Keccak256 data = Val (keccak256 (concat data)).
Proof.
  assert (rate_ok 136) as Hr by (exists 17%nat; lia). unfold Keccak256, NewKeccak256.
  destruct (Write_all_ok 136 (Zbyte 1) 32 data Hr [] (new_state 136 32 1)) as (d & -> & Ha); [apply new_absorbed; lia|].
  cbn [mbind outcome_bind]. unfold Sum. rewrite (ab_len _ _ _ _ _ Ha).
  destruct (Read_ok 136 (Zbyte 1) 32 32 (concat data) d Hr Ha) as (d' & ->). done.
Qed.
(** The hash that the trie and the state have as a parameter. *)
Lemma keccak256_length m : Zlen (keccak256 m) = 32.
Proof. unfold Zlen, keccak256. rewrite sponge_length; [done|]. exists 17%nat. lia. Qed.
Lemma keccak256_eval m h : Keccak256 [m] = Val h → keccak256 m = h.
Proof. rewrite Keccak256_ok. cbn [concat]. rewrite app_nil_r. by intros [= ->]. Qed.
Lemma keccak256_emptyRoot : keccak256 [Zbyte 0x80] = trie.emptyRoot.
Proof. apply keccak256_eval. vm_compute. reflexivity. Qed.

(** Contract addresses: the address of the contract that [b] creates with
    [nonce] is the last 20 bytes of the hash of a string that [b] and [nonce]
    determine and that determines them. *)
Theorem CreateAddress_preimage b nonce : 0 ≤ b < 2 ^ 160 → is_u64 nonce → ∃ data,
  enc (rlp.TSlice rlp.TInterface) (create_preimage b nonce) = Some data ∧
  CreateAddress b nonce = Val (SetBytes (drop 12 (keccak256 data))) ∧
  ∀ b' nonce', 0 ≤ b' < 2 ^ 160 → is_u64 nonce' →
    enc (rlp.TSlice rlp.TInterface) (create_preimage b' nonce') = Some data → b' = b ∧ nonce' = nonce.
Proof.
  intros Hb Hn. set (data b nonce := enc_list (enc_str (Address_Bytes b) ++ enc_str (big_Bytes nonce) ++ [])).
  assert (∀ b nonce, enc (rlp.TSlice rlp.TInterface) (create_preimage b nonce) = Some (data b nonce)) as He by done.
  assert (Zlen (Address_Bytes b) = 20) as Ha by (unfold Zlen, Address_Bytes; by rewrite length_be_bytes).
  pose proof (big_Bytes_length nonce Hn) as Hn8. pose proof (enc_length_le (Address_Bytes b) ltac:(lia)) as [L1 _].
  pose proof (enc_length_le (big_Bytes nonce) ltac:(lia)) as [L2 _].
  assert (Zlen (enc_str (Address_Bytes b) ++ enc_str (big_Bytes nonce) ++ []) < 64) as L3 by (rewrite !Zlen_app; change (Zlen []) with 0; lia).
  assert (Zlen (data b nonce) < 128) as Hl
    by (pose proof (proj2 (enc_length_le (enc_str (Address_Bytes b) ++ enc_str (big_Bytes nonce) ++ []) ltac:(lia))); unfold data; lia).
  exists (data b nonce). split; [done|]. split.
  - unfold CreateAddress. rewrite (proj1 (Encode_ok (rlp.TSlice rlp.TInterface) (create_preimage b nonce) (data b nonce) ltac:(by split_and!) (He b nonce) ltac:(lia))).
    rewrite Keccak256_ok. cbn [concat mbind outcome_bind]. rewrite app_nil_r. f_equal. rewrite BytesToAddress_spec. apply Z.mod_small.
    pose proof (SetBytes_range (drop 12 (keccak256 (data b nonce)))) as Hr. pose proof (keccak256_length (data b nonce)) as Hk.
    unfold Zlen in *. rewrite length_drop in Hr. replace (Z.of_nat (length (keccak256 (data b nonce)) - 12)) with 20 in Hr by lia. done.
  - intros b' nonce' Hb' Hn' E. rewrite He in E. injection E as E. symmetry in E.
    rewrite <- (app_nil_r (data b nonce)), <- (app_nil_r (data b' nonce')) in E.
    apply enc_list_app_inj in E as [E _]; [|fold (data b nonce); rewrite Zlen_app; change (Zlen []) with 0; lia]. apply enc_str_app_inj in E as [E1 E]; [|lia].
    apply enc_str_app_inj in E as [E2 _]; [|rewrite Zlen_app; change (Zlen []) with 0; lia].
    apply (f_equal SetBytes) in E1, E2. rewrite !be_bytes_big_Bytes in E2 by (unfold is_u64 in *; lia).
    unfold Address_Bytes in E1. rewrite !SetBytes_be_bytes, !Z.mod_small in E1 by done. done.
Qed.

Lemma Sum_sponge_witness : ∃ d, Write_all [[Zbyte 1; Zbyte 2]; []; [Zbyte 3]] NewKeccak256 = Val d ∧
  Sum [] d = Val (sponge 136 (Zbyte 0x01) 32 [Zbyte 1; Zbyte 2; Zbyte 3]) ∧ length (sponge 136 (Zbyte 0x01) 32 [Zbyte 1; Zbyte 2; Zbyte 3]) = 32%nat.
Proof. apply (Sum_sponge 136 32 0x01 [[Zbyte 1; Zbyte 2]; []; [Zbyte 3]] []). exists 17%nat. lia. Defined.
Lemma keccakF1600_reference_witness : keccakF1600 (replicate 25 7) = keccak_f (replicate 25 7).
Proof. apply (keccakF1600_reference (replicate 25 7)); [reflexivity|]. repeat (constructor; [done|]). constructor. Defined.
Lemma CreateAddress_preimage_witness : ∃ data,
  enc (rlp.TSlice rlp.TInterface) (create_preimage 0x6ac7ea33f8831ea9dcc53393aaa88b25a785dbf0 1) = Some data ∧
  CreateAddress 0x6ac7ea33f8831ea9dcc53393aaa88b25a785dbf0 1 = Val (SetBytes (drop 12 (keccak256 data))) ∧
  ∀ b' nonce', 0 ≤ b' < 2 ^ 160 → is_u64 nonce' → enc (rlp.TSlice rlp.TInterface) (create_preimage b' nonce') = Some data →
    b' = 0x6ac7ea33f8831ea9dcc53393aaa88b25a785dbf0 ∧ nonce' = 1.
Proof. apply (CreateAddress_preimage 0x6ac7ea33f8831ea9dcc53393aaa88b25a785dbf0 1); [lia|done]. Defined.
