(* ===== verification/Bitutil.v ===== *)
(** * Bit operations on byte slices

    [src/common/bitutil/bitutil.go] and [compress.go]: the bulk operations
    with their two implementations, and the compression of sparse data. *)

From stdpp Require Import base tactics list numbers.
From S2P Require Import Prelude Keccak.

#[local] Open Scope Z_scope.

Module bitutil.

(** ** bitutil.go

    The operations differ in the operator only.  [a] may be the destination
    itself: every index is read before it is written, once. *)

Definition wordSize : nat := 8.

Section bulk.
Context (op : Z → Z → Z).

Definition byte_op (x y : byte) : byte := Zbyte (op (byteZ x) (byteZ y)).
(** [todo] rounds from [i]. *)
Fixpoint byte_loop (todo i : nat) (dst a b : list byte) : outcome unit (list byte) :=
  match todo with
  | O => Val dst
  | S todo =>
      x ← val_or_panic (a !! i);
      y ← val_or_panic (b !! i);
      if (i <? length dst)%nat then byte_loop todo (S i) (<[i := byte_op x y]> dst) a b else Panic
  end.
(** Word [i] of a slice is read and written without a check. *)
Definition get_word (i : nat) (l : list byte) : Z := keccak.le_Uint64 (drop (wordSize * i) l).
Definition put_word (i : nat) (v : Z) (l : list byte) : list byte :=
  take (wordSize * i) l ++ keccak.le_PutUint64 v ++ drop (wordSize * i + wordSize) l.
Fixpoint word_loop (todo i : nat) (dst a b : list byte) : list byte :=
  match todo with
  | O => dst
  | S todo => word_loop todo (S i) (put_word i (op (get_word i a) (get_word i b)) dst) a b
  end.

Definition safeBytes (dst a b : list byte) : outcome unit (list byte * Z) :=
  let n := if (length b <? length a)%nat then length b else length a in
  dst ← byte_loop n 0 dst a b;
  Val (dst, Z.of_nat n).
Definition fastBytes (dst a b : list byte) : outcome unit (list byte * Z) :=
  let n := if (length b <? length a)%nat then length b else length a in
  let w := (n / wordSize)%nat in
  let dst := if (0 <? w)%nat then word_loop w 0 dst a b else dst in
  dst ← byte_loop (n mod wordSize) (n - n mod wordSize) dst a b;
  Val (dst, Z.of_nat n).
End bulk.

Definition safeXORBytes := safeBytes Z.lxor.
Definition fastXORBytes := fastBytes Z.lxor.
Definition safeANDBytes := safeBytes Z.land.
Definition fastANDBytes := fastBytes Z.land.
Definition safeORBytes := safeBytes Z.lor.
Definition fastORBytes := fastBytes Z.lor.

Definition safeTestBytes (p : list byte) : bool := existsb (λ x, negb (byteZ x =? 0)) p.
Definition fastTestBytes (p : list byte) : bool :=
  let n := length p in
  let w := (n / wordSize)%nat in
  existsb (λ i, negb (get_word i p =? 0)) (seq 0 w) ||
  existsb (λ x, negb (byteZ x =? 0)) (drop (n - n mod wordSize) p).

(** [supportsUnaligned] is a constant of the architecture. *)
Section arch.
Context (supportsUnaligned : bool).
Definition XORBytes : list byte → list byte → list byte → outcome unit (list byte * Z) := if supportsUnaligned then fastXORBytes else safeXORBytes.
Definition ANDBytes : list byte → list byte → list byte → outcome unit (list byte * Z) := if supportsUnaligned then fastANDBytes else safeANDBytes.
Definition ORBytes : list byte → list byte → list byte → outcome unit (list byte * Z) := if supportsUnaligned then fastORBytes else safeORBytes.
Definition TestBytes : list byte → bool := if supportsUnaligned then fastTestBytes else safeTestBytes.
End arch.

(** ** compress.go *)

Inductive comp_error : Type := errMissingData | errUnreferencedData | errExceededTarget | errZeroContent.

(** Bit [i] of a vector, the most significant bit of a byte first; the callers
    stay inside the vector. *)
Definition bit_at (l : list byte) (i : nat) : bool :=
  match l !! (i / 8)%nat with
  | Some x => negb (Z.land (byteZ x) (Z.shiftl 1 (7 - Z.of_nat i mod 8)) =? 0)
  | None => false
  end.
Definition set_bit (i : nat) (l : list byte) : list byte :=
  alter (λ x, Zbyte (Z.lor (byteZ x) (Z.shiftl 1 (7 - Z.of_nat i mod 8)))) (i / 8)%nat l.

(** The loop over the data: the bitset of set bytes and the bytes. *)
Fixpoint gather (i : nat) (data nonZeroBitset nonZeroBytes : list byte) : list byte * list byte :=
  match data with
  | [] => (nonZeroBitset, nonZeroBytes)
  | b :: data =>
      if negb (byteZ b =? 0) then gather (S i) data (set_bit i nonZeroBitset) (nonZeroBytes ++ [b])
      else gather (S i) data nonZeroBitset nonZeroBytes
  end.
Fixpoint bitsetEncode (fuel : nat) (data : list byte) : outcome unit (list byte) :=
  match fuel with
  | O => NoFuel
  | S fuel =>
      match data with
      | [] => Val []
      | [b] => Val (if byteZ b =? 0 then [] else data)
      | _ =>
          let '(nonZeroBitset, nonZeroBytes) := gather 0 data (replicate ((length data + 7) / 8) Byte.x00) [] in
          match nonZeroBytes with
          | [] => Val []
          | _ => out ← bitsetEncode fuel nonZeroBitset; Val (out ++ nonZeroBytes)
          end
      end
  end.
(** Each level is shorter than the one before. *)
Definition bitsetEncodeBytes (data : list byte) : outcome unit (list byte) := bitsetEncode (S (length data)) data.
Definition CompressBytes (data : list byte) : outcome unit (list byte) :=
  out ← bitsetEncodeBytes data;
  Val (if (length out <? length data)%nat then out else data).

(** The loop that distributes the bytes, [todo] rounds from bit [i]. *)
Fixpoint distribute (todo i : nat) (nonZeroBitset data decomp : list byte) (ptr : nat) : outcome comp_error (list byte * nat) :=
  match todo with
  | O => Val (decomp, ptr)
  | S todo =>
      if bit_at nonZeroBitset i then
        if (length data <=? ptr)%nat then Err errMissingData
        else if (length decomp <=? i)%nat then Err errExceededTarget
        else
          b ← val_or_panic (data !! ptr);
          if byteZ b =? 0 then Err errZeroContent
          else distribute todo (S i) nonZeroBitset data (<[i := b]> decomp) (S ptr)
      else distribute todo (S i) nonZeroBitset data decomp ptr
  end.
Fixpoint bitsetDecodePartial (fuel : nat) (data : list byte) (target : nat) : outcome comp_error (list byte * nat) :=
  match fuel with
  | O => NoFuel
  | S fuel =>
      match target, data with
      | O, _ => Val ([], O)
      | _, [] => Val (replicate target Byte.x00, O)
      | 1%nat, b :: _ => Val ([b], if byteZ b =? 0 then O else 1%nat)
      | _, _ =>
          '(nonZeroBitset, ptr) ← bitsetDecodePartial fuel data ((target + 7) / 8);
          distribute (8 * length nonZeroBitset) 0 nonZeroBitset data (replicate target Byte.x00) ptr
      end
  end.
Definition bitsetDecodePartialBytes (data : list byte) (target : nat) : outcome comp_error (list byte * nat) :=
  bitsetDecodePartial (S target) data target.
Definition bitsetDecodeBytes (data : list byte) (target : nat) : outcome comp_error (list byte) :=
  '(out, size) ← bitsetDecodePartialBytes data target;
  if negb (size =? length data)%nat then Err errUnreferencedData else Val out.
Definition DecompressBytes (data : list byte) (target : Z) : outcome comp_error (list byte) :=
  if Zlen data >? target then Err errExceededTarget
  else if Zlen data =? target then Val data
  else bitsetDecodeBytes data (Z.to_nat target).
End bitutil.
