(* ===== verification/BitutilProps.v ===== *)
(** * Properties of the bit operations *)

From stdpp Require Import base tactics list numbers.
From S2P Require Import Prelude Keccak Bitutil.

#[local] Open Scope Z_scope.
Import bitutil.

(** ** Bulk operations *)

(** An operator that works bit by bit and has no carry. *)
Class Bitwise (op : Z → Z → Z) : Prop := {
  bitwise_bits : ∃ f, f false false = false ∧ ∀ x y n, 0 ≤ n → Z.testbit (op x y) n = f (Z.testbit x n) (Z.testbit y n);
  bitwise_nonneg x y : 0 ≤ x → 0 ≤ y → 0 ≤ op x y }.
#[global] Instance lxor_bitwise : Bitwise Z.lxor.
Proof. split; [exists xorb; split; [done|]; intros; apply Z.lxor_spec|]. intros. by apply Z.lxor_nonneg. Qed.
#[global] Instance land_bitwise : Bitwise Z.land.
Proof. split; [exists andb; split; [done|]; intros; apply Z.land_spec|]. intros. apply Z.land_nonneg. by left. Qed.
#[global] Instance lor_bitwise : Bitwise Z.lor.
Proof. split; [exists orb; split; [done|]; intros; apply Z.lor_spec|]. intros. by apply Z.lor_nonneg. Qed.

Lemma testbit_byte hi lo n : 0 ≤ lo < 256 → 0 ≤ n → Z.testbit (hi * 256 + lo) n = if n <? 8 then Z.testbit lo n else Z.testbit hi (n - 8).
Proof.
  intros Hlo Hn. case_if.
  - rewrite <- (Z.mod_pow2_bits_low (hi * 256 + lo) 8 n) by lia. change (2 ^ 8) with 256. by rewrite Z.add_comm, Z.mod_add, Z.mod_small by lia.
  - replace n with (n - 8 + 8) at 1 by lia. rewrite <- Z.div_pow2_bits by lia. change (2 ^ 8) with 256. by rewrite Z.div_add_l, Z.div_small, Z.add_0_r by lia.
Qed.
Lemma byte_range z : 0 ≤ z → (∀ n, 8 ≤ n → Z.testbit z n = false) → z < 256.
Proof.
  intros Hz H. destruct (Z.lt_ge_cases z 256) as [|Hge]; [done|]. assert (0 < z) as Hp by lia.
  pose proof (Z.bit_log2 z Hp) as Hb. rewrite H in Hb; [done|]. change 8 with (Z.log2 256). by apply Z.log2_le_mono.
Qed.
Lemma byte_high lo n : 0 ≤ lo < 256 → 8 ≤ n → Z.testbit lo n = false.
Proof. intros Hlo Hn. pose proof (testbit_byte 0 lo n Hlo ltac:(lia)) as H. rewrite Z.mul_0_l, Z.add_0_l in H. rewrite H. case_if; [lia|]. apply Z.testbit_0_l. Qed.

Section bulk.
Context (op : Z → Z → Z) `{!Bitwise op}.

Lemma op_byte x y : 0 ≤ x < 256 → 0 ≤ y < 256 → 0 ≤ op x y < 256.
Proof.
  intros Hx Hy. destruct bitwise_bits as (f & Hf & Hb). split; [apply bitwise_nonneg; lia|]. apply byte_range; [apply bitwise_nonneg; lia|].
  intros n Hn. rewrite Hb by lia. by rewrite !byte_high by lia.
Qed.
Lemma byteZ_op x y : byteZ (byte_op op x y) = op (byteZ x) (byteZ y).
Proof. unfold byte_op. rewrite byteZ_Zbyte. apply Z.mod_small, op_byte; apply byteZ_range. Qed.
Lemma op_cons h1 l1 h2 l2 : 0 ≤ l1 < 256 → 0 ≤ l2 < 256 → op (h1 * 256 + l1) (h2 * 256 + l2) = op h1 h2 * 256 + op l1 l2.
Proof.
  intros H1 H2. apply Z.bits_inj'. intros n Hn. pose proof (op_byte l1 l2 H1 H2). destruct bitwise_bits as (f & Hf & Hb).
  rewrite Hb, !testbit_byte by lia. case_if; rewrite Hb by lia; done.
Qed.
Lemma op_SetBytes a : ∀ b, length a = length b → op (SetBytes a) (SetBytes b) = SetBytes (zip_with (byte_op op) a b).
Proof.
  induction a as [|x a IH] using rev_ind; intros b Hl.
  - destruct b; [|done]. destruct bitwise_bits as (f & Hf & Hb). apply Z.bits_inj'. intros n Hn. rewrite Hb by done. cbn [zip_with]. change (SetBytes []) with 0. by rewrite Z.testbit_0_l.
  - destruct b as [|y b _] using rev_ind; [rewrite length_app in Hl; cbn in Hl; lia|]. rewrite !length_app in Hl. cbn in Hl.
    rewrite zip_with_app by lia. cbn [zip_with]. rewrite !SetBytes_snoc, byteZ_op, <- IH by lia. apply op_cons; apply byteZ_range.
Qed.
Lemma op_word a b : length a = 8%nat → length b = 8%nat →
  keccak.le_PutUint64 (op (SetBytes (reverse a)) (SetBytes (reverse b))) = zip_with (byte_op op) a b.
Proof.
  intros Ha Hb. unfold keccak.le_PutUint64. rewrite op_SetBytes by (rewrite !length_reverse; lia).
  assert (length (zip_with (byte_op op) (reverse a) (reverse b)) = 8%nat) as Hl by (rewrite length_zip_with, !length_reverse; lia).
  rewrite <- Hl at 1. rewrite be_bytes_SetBytes. apply (inj reverse). rewrite reverse_involutive. clear Hl.
  assert (length a = length b) as E by lia. clear Ha Hb. revert b E. induction a as [|x a IH]; intros [|y b] E; try done.
  cbn [zip_with]. rewrite !reverse_cons, <- IH by (cbn in E; lia). rewrite zip_with_app by (rewrite !length_reverse; cbn in E; lia). done.
Qed.

(** The result after [k] bytes. *)
Definition bulk (k : nat) (a b dst : list byte) : list byte := zip_with (byte_op op) (take k a) (take k b) ++ drop k dst.
Lemma bulk_length k (a b : list byte) : (k ≤ length a)%nat → (k ≤ length b)%nat → length (zip_with (byte_op op) (take k a) (take k b)) = k.
Proof. intros. rewrite length_zip_with, !length_take. lia. Qed.
Lemma bulk_step k a b dst x y : (k < length dst)%nat → a !! k = Some x → b !! k = Some y →
  <[k := byte_op op x y]> (bulk k a b dst) = bulk (S k) a b dst.
Proof.
  intros Hd Ea Eb. pose proof (lookup_lt_Some _ _ _ Ea). pose proof (lookup_lt_Some _ _ _ Eb). unfold bulk.
  pose proof (bulk_length k a b ltac:(lia) ltac:(lia)) as Hl.
  rewrite insert_app_r_alt by lia. rewrite Hl, Nat.sub_diag.
  destruct (lookup_lt_is_Some_2 dst k Hd) as [z Ez]. rewrite (drop_S dst z k Ez). cbn [insert list_insert].
  rewrite (take_S_r a k x Ea), (take_S_r b k y Eb), zip_with_app by (rewrite !length_take; lia). cbn [zip_with]. by rewrite <- app_assoc.
Qed.
Lemma byte_loop_ok todo : ∀ k a b dst, (k + todo ≤ length dst)%nat → (k + todo ≤ length a)%nat → (k + todo ≤ length b)%nat →
  byte_loop op todo k (bulk k a b dst) a b = Val (bulk (k + todo) a b dst).
Proof.
  induction todo as [|todo IH]; intros k a b dst Hd Ha Hb; cbn [byte_loop]; [by rewrite Nat.add_0_r|].
  destruct (lookup_lt_is_Some_2 a k ltac:(lia)) as [x Ex], (lookup_lt_is_Some_2 b k ltac:(lia)) as [y Ey]. rewrite Ex, Ey. cbn [val_or_panic mbind outcome_bind].
  assert (length (bulk k a b dst) = length dst) as -> by (unfold bulk; rewrite length_app, bulk_length, length_drop by (done || lia); lia).
  rewrite (proj2 (Nat.ltb_lt _ _)) by lia. rewrite (bulk_step k a b dst x y) by (done || lia). rewrite IH by lia. f_equal. f_equal. lia.
Qed.
Lemma word_step i a b dst : (8 * i + 8 ≤ length dst)%nat → (8 * i + 8 ≤ length a)%nat → (8 * i + 8 ≤ length b)%nat →
  put_word i (op (get_word i a) (get_word i b)) (bulk (8 * i) a b dst) = bulk (8 * S i) a b dst.
Proof.
  intros Hd Ha Hb. unfold put_word, get_word, keccak.le_Uint64, wordSize. rewrite op_word by (rewrite length_take, length_drop; lia). unfold bulk.
  pose proof (bulk_length (8 * i) a b ltac:(lia) ltac:(lia)) as Hl.
  rewrite take_app_le, take_ge, drop_app_ge by lia. rewrite Hl. replace (8 * i + 8 - 8 * i)%nat with 8%nat by lia. rewrite drop_drop.
  replace (8 * S i)%nat with (8 * i + 8)%nat by lia. rewrite app_assoc. f_equal.
  rewrite <- zip_with_app by (rewrite !length_take; lia). by rewrite !take_take_drop.
Qed.
Lemma word_loop_ok todo : ∀ i a b dst, (8 * (i + todo) ≤ length dst)%nat → (8 * (i + todo) ≤ length a)%nat → (8 * (i + todo) ≤ length b)%nat →
  word_loop op todo i (bulk (8 * i) a b dst) a b = bulk (8 * (i + todo)) a b dst.
Proof.
  induction todo as [|todo IH]; intros i a b dst Hd Ha Hb; cbn [word_loop]; [by rewrite Nat.add_0_r|].
  rewrite word_step by lia. rewrite IH by lia. f_equal. lia.
Qed.

Lemma bulk_0 a b dst : bulk 0 a b dst = dst.
Proof. done. Qed.
Lemma bulk_ok dst a b : (length a `min` length b ≤ length dst)%nat →
  let r := Val (bulk (length a `min` length b) a b dst, Z.of_nat (length a `min` length b)) in
  safeBytes op dst a b = r ∧ fastBytes op dst a b = r.
Proof.
  intros Hd. cbv zeta. unfold safeBytes, fastBytes.
  assert ((if (length b <? length a)%nat then length b else length a) = (length a `min` length b)%nat) as ->
    by (destruct (Nat.ltb_spec (length b) (length a)); lia).
  set (n := (length a `min` length b)%nat) in *. split.
  - rewrite <- (bulk_0 a b dst) at 1. rewrite byte_loop_ok by lia. done.
  - pose proof (Nat.div_mod n 8 ltac:(lia)) as Hn. unfold wordSize.
    assert ((if (0 <? n / 8)%nat then word_loop op (n / 8) 0 dst a b else dst) = bulk (8 * (n / 8)) a b dst) as ->.
    { destruct (Nat.ltb_spec 0 (n / 8)); [|by replace (n / 8)%nat with 0%nat by lia].
      change (8 * (n / 8))%nat with (8 * (0 + n / 8))%nat. rewrite <- (bulk_0 a b dst) at 1. apply (word_loop_ok _ 0); lia. }
    replace (n - n mod 8)%nat with (8 * (n / 8))%nat by lia. rewrite byte_loop_ok by lia. cbn [mbind outcome_bind]. by rewrite <- Hn.
Qed.
End bulk.

Definition nonzero (x : byte) : bool := negb (byteZ x =? 0).
Lemma nonzero_x00 : nonzero Byte.x00 = false.
Proof. done. Qed.
Lemma nonzero_false x : nonzero x = false ↔ x = Byte.x00.
Proof.
  split; [|by intros ->]. unfold nonzero. intros H. zbool. rewrite <- (Zbyte_byteZ x), H. done.
Qed.
Lemma SetBytes_nonzero l : negb (SetBytes l =? 0) = existsb nonzero l.
Proof.
  induction l as [|x l IH] using rev_ind; [done|]. rewrite SetBytes_snoc, existsb_app, <- IH. cbn [existsb]. rewrite orb_false_r.
  pose proof (SetBytes_range l) as [Hr _]. pose proof (byteZ_range x). unfold nonzero.
  destruct (Z.eqb_spec (SetBytes l) 0), (Z.eqb_spec (byteZ x) 0), (Z.eqb_spec (SetBytes l * 256 + byteZ x) 0); cbn; try done; nia.
Qed.
Lemma existsb_reverse {A} (f : A → bool) l : existsb f (reverse l) = existsb f l.
Proof. induction l as [|x l IH]; [done|]. rewrite reverse_cons, existsb_app, IH. cbn. destruct (f x), (existsb f l); done. Qed.
Lemma words_nonzero w p : ∀ i, (8 * (i + w) ≤ length p)%nat →
  existsb (λ i, negb (get_word i p =? 0)) (seq i w) = existsb nonzero (take (8 * w) (drop (8 * i) p)).
Proof.
  induction w as [|w IH]; intros i Hl; [done|]. cbn [seq existsb]. rewrite IH by lia. unfold get_word, keccak.le_Uint64, wordSize.
  rewrite SetBytes_nonzero, existsb_reverse, <- existsb_app. f_equal.
  replace (8 * S i)%nat with (8 * i + 8)%nat by lia. rewrite <- drop_drop. rewrite take_take_drop. f_equal. lia.
Qed.
Lemma TestBytes_ok p : fastTestBytes p = existsb nonzero p ∧ safeTestBytes p = existsb nonzero p.
Proof.
  split; [|done]. unfold fastTestBytes. pose proof (Nat.div_mod (length p) 8 ltac:(lia)) as Hn. unfold wordSize.
  rewrite words_nonzero by lia. rewrite drop_0, <- existsb_app. replace (length p - length p mod 8)%nat with (8 * (length p / 8))%nat by lia. by rewrite take_drop.
Qed.

(** The bulk operations are the bytewise ones: whatever the architecture,
    XOR, AND and OR of two slices replace as many bytes of a destination that
    is long enough as the shorter slice has, and [TestBytes] finds a byte that
    is not zero. *)
Theorem bulk_operations arch dst a b p : (length a `min` length b ≤ length dst)%nat →
  let n := (length a `min` length b)%nat in
  let r (op : Z → Z → Z) := Val (zip_with (λ x y, Zbyte (op (byteZ x) (byteZ y))) (take n a) (take n b) ++ drop n dst, Z.of_nat n) in
  XORBytes arch dst a b = r Z.lxor ∧ ANDBytes arch dst a b = r Z.land ∧ ORBytes arch dst a b = r Z.lor ∧
  (TestBytes arch p = true ↔ ∃ x, x ∈ p ∧ x ≠ Byte.x00).
Proof.
  intros Hd. cbv zeta. split_and!; [destruct arch; apply (bulk_ok _ dst a b Hd)..|].
  assert (TestBytes arch p = existsb nonzero p) as -> by (destruct arch; apply TestBytes_ok).
  rewrite existsb_exists. split; intros (x & Hx & Hn); exists x; (split; [by apply list_elem_of_In|]).
  - intros ->. by rewrite nonzero_x00 in Hn.
  - destruct (nonzero x) eqn:E; [done|]. by apply nonzero_false in E.
Qed.

(** ** Bits *)

Lemma mask_testbit x n : 0 ≤ n → negb (Z.land x (Z.shiftl 1 n) =? 0) = Z.testbit x n.
Proof.
  intros Hn. rewrite Z.shiftl_1_l. destruct (Z.testbit x n) eqn:E.
  - apply negb_true_iff, Z.eqb_neq. intros H. apply (f_equal (λ z, Z.testbit z n)) in H. rewrite Z.land_spec, E, Z.pow2_bits_true, Z.testbit_0_l in H by lia. done.
  - apply negb_false_iff, Z.eqb_eq, Z.bits_inj'. intros k Hk. rewrite Z.land_spec, Z.testbit_0_l, Z.pow2_bits_eqb by lia.
    destruct (Z.eqb_spec n k) as [<-|]; [by rewrite E|apply andb_false_r].
Qed.
Lemma bit_at_testbit l i : bit_at l i = match l !! (i / 8)%nat with Some x => Z.testbit (byteZ x) (7 - Z.of_nat i mod 8) | None => false end.
Proof.
  unfold bit_at. destruct (l !! (i / 8)%nat) as [x|]; [|done]. pose proof (Z.mod_pos_bound (Z.of_nat i) 8 ltac:(lia)) as Hm. apply mask_testbit. lia.
Qed.
Lemma set_bit_length i l : length (set_bit i l) = length l.
Proof. apply length_alter. Qed.
Lemma bit_at_set i j l : (i < 8 * length l)%nat → bit_at (set_bit i l) j = (i =? j)%nat || bit_at l j.
Proof.
  intros Hi. rewrite !bit_at_testbit. unfold set_bit. pose proof (Z.mod_pos_bound (Z.of_nat i) 8 ltac:(lia)) as Hmi.
  pose proof (Z.mod_pos_bound (Z.of_nat j) 8 ltac:(lia)) as Hmj. pose proof (Nat.div_mod i 8 ltac:(lia)) as Di. pose proof (Nat.div_mod j 8 ltac:(lia)) as Dj.
  assert ((i / 8 < length l)%nat) as Hl by (apply Nat.Div0.div_lt_upper_bound; lia). destruct (decide (i / 8 = j / 8)%nat) as [E|E].
  - rewrite <- E, list_lookup_alter_eq. destruct (lookup_lt_is_Some_2 l (i / 8) Hl) as [x Ex]. rewrite Ex. cbn [fmap option_fmap option_map].
    rewrite byteZ_Zbyte. change 256 with (2 ^ 8). rewrite Z.mod_pow2_bits_low, Z.lor_spec, Z.shiftl_1_l, Z.pow2_bits_eqb by lia. rewrite orb_comm. f_equal.
    pose proof (Nat2Z.inj_mod i 8). pose proof (Nat2Z.inj_mod j 8).
    destruct (Z.eqb_spec (7 - Z.of_nat i mod 8) (7 - Z.of_nat j mod 8)) as [Em|Em], (Nat.eqb_spec i j); try done; lia.
  - rewrite list_lookup_alter_ne by done. destruct (Nat.eqb_spec i j) as [->|]; [done|reflexivity].
Qed.
Lemma bit_at_beyond l i : (8 * length l ≤ i)%nat → bit_at l i = false.
Proof. intros H. unfold bit_at. rewrite lookup_ge_None_2; [done|]. apply Nat.div_le_lower_bound; lia. Qed.
Lemma bit_at_zeros n i : bit_at (replicate n Byte.x00) i = false.
Proof. rewrite bit_at_testbit. destruct (_ !! _) as [x|] eqn:E; [|done]. apply lookup_replicate in E as [-> _]. apply Z.testbit_0_l. Qed.
(** A vector is its bits. *)
Lemma bit_at_ext l1 l2 : length l1 = length l2 → (∀ i, bit_at l1 i = bit_at l2 i) → l1 = l2.
Proof.
  intros Hl H. apply (list_eq_same_length _ _ (length l2)); [done|done|]. intros k x y Hk Ex Ey. rewrite <- (Zbyte_byteZ x), <- (Zbyte_byteZ y). f_equal.
  apply Z.bits_inj'. intros n Hn. destruct (Z.lt_ge_cases n 8) as [H8|H8]; [|by rewrite !byte_high by (apply byteZ_range || done)].
  specialize (H (8 * k + (7 - Z.to_nat n))%nat). rewrite !bit_at_testbit in H.
  assert (((8 * k + (7 - Z.to_nat n)) / 8)%nat = k) as Ek by (rewrite Nat.mul_comm, Nat.div_add_l, Nat.div_small by lia; lia). rewrite Ek, Ex, Ey in H.
  replace (7 - Z.of_nat (8 * k + (7 - Z.to_nat n)) mod 8) with n in H; [done|].
  rewrite Nat2Z.inj_add, Nat2Z.inj_mul, Z.add_comm, Z.mul_comm, Z.mod_add, Z.mod_small by lia. lia.
Qed.

(** ** Compression *)

Definition nz_at (l : list byte) (j : nat) : bool := match l !! j with Some x => nonzero x | None => false end.
Definition nz (l : list byte) : list byte := List.filter nonzero l.
Definition bitset_of (data : list byte) : list byte := (gather 0 data (replicate ((length data + 7) / 8) Byte.x00) []).1.

Lemma gather_ok data : ∀ i bs acc, (i + length data ≤ 8 * length bs)%nat →
  ∃ bs', gather i data bs acc = (bs', acc ++ nz data) ∧ length bs' = length bs ∧
    ∀ j, bit_at bs' j = bit_at bs j || (i <=? j)%nat && nz_at data (j - i).
Proof.
  induction data as [|b data IH]; intros i bs acc Hl; cbn [gather length] in *.
  { exists bs. unfold nz, nz_at. cbn. rewrite app_nil_r. split_and!; [done|done|]. intros j. by rewrite lookup_nil, andb_false_r, orb_false_r. }
  fold (nonzero b). unfold nz. cbn [List.filter]. fold (nz data).
  assert (∀ j, (i <=? j)%nat && nz_at (b :: data) (j - i) = (i =? j)%nat && nonzero b || (S i <=? j)%nat && nz_at data (j - S i)) as Hcons.
  { intros j. destruct (Nat.eqb_spec i j) as [->|Hne].
    - rewrite Nat.sub_diag, Nat.leb_refl, (proj2 (Nat.leb_gt (S j) j)) by lia. cbn. by rewrite orb_false_r.
    - destruct (Nat.leb_spec i j), (Nat.leb_spec (S i) j); try lia; try done. by replace (j - i)%nat with (S (j - S i)) by lia. }
  destruct (nonzero b) eqn:Eb.
  - destruct (IH (S i) (set_bit i bs) (acc ++ [b])) as (bs' & E & Hl' & Hb); [rewrite set_bit_length; lia|]. exists bs'.
    rewrite E, set_bit_length in *. split_and!; [by rewrite <- app_assoc|done|]. intros j. rewrite Hb, bit_at_set, Hcons by lia.
    destruct (i =? j)%nat, (bit_at bs j); done.
  - destruct (IH (S i) bs acc) as (bs' & E & Hl' & Hb); [lia|]. exists bs'. split_and!; [done|done|]. intros j. rewrite Hb, Hcons. by rewrite andb_false_r.
Qed.
Lemma bitset_room n : (n ≤ 8 * ((n + 7) / 8))%nat.
Proof. pose proof (Nat.div_mod (n + 7) 8 ltac:(lia)). pose proof (Nat.mod_upper_bound (n + 7) 8 ltac:(lia)). lia. Qed.
Lemma bitset_of_ok data : gather 0 data (replicate ((length data + 7) / 8) Byte.x00) [] = (bitset_of data, nz data) ∧
  length (bitset_of data) = ((length data + 7) / 8)%nat ∧ ∀ j, bit_at (bitset_of data) j = nz_at data j.
Proof.
  destruct (gather_ok data 0 (replicate ((length data + 7) / 8) Byte.x00) []) as (bs & E & Hl & Hb).
  { rewrite length_replicate. apply bitset_room. }
  unfold bitset_of. rewrite E. rewrite length_replicate in Hl. split_and!; [done|done|]. intros j. cbn [fst]. rewrite Hb, bit_at_zeros. by rewrite Nat.sub_0_r.
Qed.
Lemma nz_nil data : nz data = [] ↔ existsb nonzero data = false.
Proof.
  unfold nz. induction data as [|b data IH]; cbn; [done|]. destruct (nonzero b); [done|exact IH].
Qed.
Lemma existsb_nz_at data : existsb nonzero data = true ↔ ∃ j, nz_at data j = true.
Proof.
  rewrite existsb_exists. unfold nz_at. split.
  - intros (x & Hx%list_elem_of_In & Hn). apply list_elem_of_lookup in Hx as [j Ej]. exists j. by rewrite Ej.
  - intros [j Hj]. destruct (data !! j) as [x|] eqn:Ej; [|done]. exists x. split; [|done]. apply list_elem_of_In. by eapply list_elem_of_lookup_2.
Qed.
Lemma bit_at_nonzero l i : bit_at l i = true → existsb nonzero l = true.
Proof.
  rewrite bit_at_testbit. intros H. destruct (l !! (i / 8)%nat) as [x|] eqn:E; [|done]. apply existsb_nz_at. exists (i / 8)%nat. unfold nz_at. rewrite E.
  destruct (nonzero x) eqn:Ex; [done|]. apply nonzero_false in Ex as ->. by rewrite Z.testbit_0_l in H.
Qed.
Lemma bitset_of_nonzero data : existsb nonzero data = true → existsb nonzero (bitset_of data) = true.
Proof. intros [j Hj]%existsb_nz_at. rewrite <- (proj2 (proj2 (bitset_of_ok data))) in Hj. by eapply bit_at_nonzero. Qed.
Lemma all_zero data : existsb nonzero data = false → data = replicate (length data) Byte.x00.
Proof.
  induction data as [|b data IH]; cbn; [done|]. intros [Hb H]%orb_false_iff. apply nonzero_false in Hb as ->. by rewrite <- IH.
Qed.

(** What the algorithm gives, level by level. *)
Inductive encodes : list byte → list byte → Prop :=
| enc_zero data : existsb nonzero data = false → encodes data []
| enc_one b : nonzero b = true → encodes [b] [b]
| enc_more data out : (2 ≤ length data)%nat → existsb nonzero data = true → encodes (bitset_of data) out → encodes data (out ++ nz data).

Lemma half_lt n : (2 ≤ n → (n + 7) / 8 < n)%nat.
Proof. intros. apply Nat.Div0.div_lt_upper_bound. lia. Qed.
Lemma encodes_total data : ∃ out, encodes data out.
Proof.
  induction data as [data IH] using (well_founded_induction (well_founded_ltof _ length)). unfold ltof in IH.
  destruct (existsb nonzero data) eqn:En; [|exists []; by constructor].
  destruct data as [|b [|c data]]; [done| |].
  - exists [b]. constructor. cbn in En. by rewrite orb_false_r in En.
  - destruct (IH (bitset_of (b :: c :: data))) as [out Ho]; [|exists (out ++ nz (b :: c :: data)); constructor; [cbn; lia|done|done]].
    rewrite (proj1 (proj2 (bitset_of_ok _))). apply half_lt. cbn. lia.
Qed.
Lemma bitsetEncode_ok data out : encodes data out → ∀ fuel, (length data < fuel)%nat → bitsetEncode fuel data = Val out.
Proof.
  induction 1 as [data Hz|b Hb|data out Hl Hn He IH]; intros [|fuel] Hf; try lia; cbn [bitsetEncode].
  - destruct data as [|b [|c data]]; [done| |].
    + cbn in Hz. rewrite orb_false_r in Hz. apply nonzero_false in Hz as ->. done.
    + destruct (bitset_of_ok (b :: c :: data)) as [-> _]. apply nz_nil in Hz. by rewrite Hz.
  - unfold nonzero in Hb. by destruct (byteZ b =? 0).
  - destruct data as [|b [|c data]]; [cbn in Hl; lia..|]. destruct (bitset_of_ok (b :: c :: data)) as (E & Hlb & _). rewrite E.
    destruct (nz (b :: c :: data)) as [|z zs] eqn:Ez; [apply nz_nil in Ez; congruence|].
    rewrite IH; [done|]. rewrite Hlb. pose proof (half_lt _ Hl). lia.
Qed.
Lemma encodes_iff data out : bitsetEncodeBytes data = Val out ↔ encodes data out.
Proof.
  unfold bitsetEncodeBytes. split; [|intros H; apply (bitsetEncode_ok _ _ H); lia].
  destruct (encodes_total data) as [out' H]. rewrite (bitsetEncode_ok _ _ H) by lia. by intros [= <-].
Qed.

Lemma distribute_none todo bs data d ptr : ∀ i, (∀ j, bit_at bs (i + j) = false) → distribute todo i bs data d ptr = Val (d, ptr).
Proof.
  induction todo as [|todo IH]; intros i H; cbn [distribute]; [done|]. pose proof (H 0%nat) as H0. rewrite Nat.add_0_r in H0. rewrite H0. apply IH. intros j. by rewrite Nat.add_succ_comm.
Qed.
Lemma distribute_complete bs data rest d2 : ∀ todo i d1 ptr, length d1 = i → (∀ j, bit_at bs (i + j) = nz_at d2 j) → (length d2 ≤ todo)%nat →
  drop ptr data = nz d2 ++ rest → distribute todo i bs data (d1 ++ replicate (length d2) Byte.x00) ptr = Val (d1 ++ d2, ptr + length (nz d2))%nat.
Proof.
  induction d2 as [|b d2 IH]; intros todo i d1 ptr Hi Hb Ht Hd.
  - rewrite distribute_none by done. cbn. by rewrite Nat.add_0_r.
  - destruct todo as [|todo]; [cbn in Ht; lia|]. cbn [distribute length replicate]. pose proof (Hb 0%nat) as H0. rewrite Nat.add_0_r in H0. rewrite H0.
    cbn [nz_at lookup list_lookup nz List.filter] in *. assert (∀ j, bit_at bs (S i + j) = nz_at d2 j) as Hb' by (intros j; rewrite Nat.add_succ_comm; apply (Hb (S j))).
    destruct (nonzero b) eqn:Eb.
    + assert (data !! ptr = Some b) as Ep by (apply (f_equal (λ l, l !! 0%nat)) in Hd; rewrite lookup_drop, Nat.add_0_r in Hd; done).
      pose proof (lookup_lt_Some _ _ _ Ep) as Hp. rewrite (proj2 (Nat.leb_gt _ _)) by lia.
      rewrite (proj2 (Nat.leb_gt _ _)) by (rewrite length_app; cbn; rewrite length_replicate; lia). rewrite Ep. cbn [val_or_panic mbind outcome_bind].
      unfold nonzero in Eb. apply negb_true_iff in Eb. rewrite Eb. rewrite insert_app_r_alt, Hi, Nat.sub_diag by lia. cbn [insert list_insert].
      rewrite cons_middle, app_assoc. rewrite (IH todo (S i) (d1 ++ [b]) (S ptr)); [|rewrite length_app; cbn; lia|done|cbn in Ht; lia|].
      * f_equal. f_equal; [by rewrite <- app_assoc|]. cbn. unfold nz. lia.
      * apply (f_equal (drop 1)) in Hd. rewrite drop_drop, Nat.add_1_r in Hd. exact Hd.
    + apply nonzero_false in Eb as ->. rewrite cons_middle, app_assoc. rewrite (IH todo (S i) (d1 ++ [Byte.x00]) ptr); [by rewrite <- app_assoc|rewrite length_app; cbn; lia|done|cbn in Ht; lia|done].
Qed.
Lemma distribute_end todo bs data d ptr out ptr' : ∀ i, distribute todo i bs data d ptr = Val (out, ptr') → (length d ≤ i)%nat →
  out = d ∧ ptr' = ptr ∧ ∀ j, (j < todo)%nat → bit_at bs (i + j) = false.
Proof.
  induction todo as [|todo IH]; intros i E Hi; cbn [distribute] in E; [injection E as <- <-; split_and!; [done|done|intros; lia]|].
  destruct (bit_at bs i) eqn:Eb.
  - rewrite (proj2 (Nat.leb_le (length d) i)) in E by lia. by destruct (length data <=? ptr)%nat.
  - destruct (IH (S i) E ltac:(lia)) as (-> & -> & Hb). split_and!; [done|done|]. intros [|j] Hj; [by rewrite Nat.add_0_r|]. rewrite <- Nat.add_succ_comm. apply Hb. lia.
Qed.
Lemma distribute_sound bs data out ptr' k : ∀ todo i d1 ptr, distribute todo i bs data (d1 ++ replicate k Byte.x00) ptr = Val (out, ptr') →
  length d1 = i → (k ≤ todo)%nat → (ptr ≤ length data)%nat →
  ∃ d2, out = d1 ++ d2 ∧ length d2 = k ∧ (ptr' ≤ length data)%nat ∧ take ptr' data = take ptr data ++ nz d2 ∧
    ∀ j, (j < todo)%nat → bit_at bs (i + j) = nz_at d2 j.
Proof.
  induction k as [|k IH]; intros todo i d1 ptr E Hi Hk Hp.
  - apply distribute_end in E as (-> & -> & Hb); [|rewrite length_app; cbn; lia]. exists []. split_and!; [done|done|done|by rewrite app_nil_r|]. intros j Hj. by rewrite Hb.
  - destruct todo as [|todo]; [lia|]. cbn [distribute] in E.
    assert (∃ b ptr1, distribute todo (S i) bs data ((d1 ++ [b]) ++ replicate k Byte.x00) ptr1 = Val (out, ptr') ∧ bit_at bs i = nonzero b ∧
      (ptr1 ≤ length data)%nat ∧ take ptr1 data = take ptr data ++ nz [b]) as (b & ptr1 & E1 & Eb & Hp1 & Et).
    { destruct (bit_at bs i) eqn:Eb; [|exists Byte.x00, ptr; rewrite <- app_assoc; split_and!; try done; cbn; by rewrite app_nil_r].
      destruct (Nat.leb_spec (length data) ptr) as [|Hlt]; [done|]. rewrite (proj2 (Nat.leb_gt _ i)) in E by (rewrite length_app, length_replicate; lia).
      destruct (lookup_lt_is_Some_2 data ptr Hlt) as [b Ep]. rewrite Ep in E. cbn [val_or_panic mbind outcome_bind] in E.
      destruct (byteZ b =? 0) eqn:E0; [done|]. exists b, (S ptr). assert (nonzero b = true) as En by (unfold nonzero; by rewrite E0).
      rewrite insert_app_r_alt, Hi, Nat.sub_diag in E by lia. rewrite <- app_assoc. split_and!; [done|done|lia|]. unfold nz. cbn [List.filter]. rewrite En. by apply take_S_r. }
    destruct (IH todo (S i) (d1 ++ [b]) ptr1 E1) as (d2 & -> & Hl & Hp' & Et' & Hb); [rewrite length_app; cbn; lia|lia|done|].
    exists (b :: d2). split_and!; [by rewrite <- app_assoc|cbn; lia|done|rewrite Et', Et, <- app_assoc; unfold nz; by rewrite <- List.filter_app|].
    intros [|j] Hj; [by rewrite Nat.add_0_r|]. rewrite <- Nat.add_succ_comm. rewrite Hb by lia. done.
Qed.
Definition returns {E A} (o : outcome E A) : Prop := match o with Val _ | Err _ => True | _ => False end.
Lemma distribute_returns todo bs data : ∀ i d ptr, returns (distribute todo i bs data d ptr).
Proof.
  induction todo as [|todo IH]; intros i d ptr; cbn [distribute]; [done|]. destruct (bit_at bs i); [|apply IH].
  destruct (Nat.leb_spec (length data) ptr) as [|Hlt]; [done|]. destruct (length d <=? i)%nat; [done|]. destruct (lookup_lt_is_Some_2 data ptr Hlt) as [b ->].
  cbn [val_or_panic mbind outcome_bind]. destruct (byteZ b =? 0); [done|apply IH].
Qed.

Lemma decode_returns fuel data : ∀ target, (target < fuel)%nat → returns (bitsetDecodePartial fuel data target).
Proof.
  induction fuel as [|fuel IH]; intros target Hf; [lia|]. cbn [bitsetDecodePartial]. destruct target as [|[|target]]; [done|by destruct data|]. destruct data as [|b data]; [done|].
  pose proof (IH ((S (S target) + 7) / 8)%nat ltac:(pose proof (half_lt (S (S target))); lia)) as H.
  destruct (bitsetDecodePartial fuel (b :: data) _) as [[bs ptr]| | |]; try done. apply distribute_returns.
Qed.
Lemma decode_step fuel inp target : (2 ≤ target)%nat → inp ≠ [] → bitsetDecodePartial (S fuel) inp target =
  ('(bs, ptr) ← bitsetDecodePartial fuel inp ((target + 7) / 8); distribute (8 * length bs) 0 bs inp (replicate target Byte.x00) ptr).
Proof. intros Ht Hi. destruct target as [|[|target]]; [lia..|]. by destruct inp. Qed.
Lemma decode_complete data out : encodes data out → ∀ fuel rest, (length data < fuel)%nat → existsb nonzero data = true ∨ rest = [] →
  bitsetDecodePartial fuel (out ++ rest) (length data) = Val (data, length out).
Proof.
  induction 1 as [data Hz|b Hb|data out Hl Hn He IH]; intros [|fuel] rest Hf Hr; try lia.
  - destruct Hr as [Hr| ->]; [congruence|]. rewrite (all_zero data Hz) at 2. by destruct data as [|b [|c data]].
  - cbn. unfold nonzero in Hb. apply negb_true_iff in Hb. by rewrite Hb.
  - destruct (bitset_of_ok data) as (_ & Hlb & Hbits). pose proof (half_lt _ Hl).
    specialize (IH fuel (nz data ++ rest) ltac:(lia) (or_introl (bitset_of_nonzero _ Hn))). rewrite Hlb, app_assoc in IH.
    rewrite decode_step, IH; [|done|]; cbn [mbind outcome_bind].
    + rewrite Hlb, length_app. apply (distribute_complete _ _ rest data _ 0 []); [done|done|apply bitset_room|]. by rewrite <- app_assoc, drop_app_length.
    + intros [[_ E]%app_nil _]%app_nil. apply nz_nil in E. congruence.
Qed.
Lemma encodes_zero data out : encodes data out → existsb nonzero data = false → out = [].
Proof. destruct 1 as [|b Hb|]; [done| |congruence]. cbn. by rewrite Hb. Qed.
Lemma replicate_zero n : existsb nonzero (replicate n Byte.x00) = false.
Proof. by induction n. Qed.
Lemma bitset_of_zero data : existsb nonzero data = false → existsb nonzero (bitset_of data) = false.
Proof.
  intros Hz. destruct (bitset_of_ok data) as (_ & Hl & Hb). rewrite (bit_at_ext (bitset_of data) (replicate (length (bitset_of data)) Byte.x00)).
  - apply replicate_zero.
  - by rewrite length_replicate.
  - intros i. rewrite Hb, bit_at_zeros. destruct (nz_at data i) eqn:E; [|done]. rewrite (proj2 (existsb_nz_at data)) in Hz; [done|by exists i].
Qed.
Lemma decode_sound fuel inp : ∀ target out ptr, bitsetDecodePartial fuel inp target = Val (out, ptr) →
  length out = target ∧ (ptr ≤ length inp)%nat ∧ encodes out (take ptr inp).
Proof.
  induction fuel as [|fuel IH]; intros target out ptr E; [done|].
  destruct (decide (inp = [])) as [->|Hi]; [destruct target as [|[|t]]; injection E as <- <-; (split_and!; [cbn; rewrite ?length_replicate; done|done|]); constructor; cbn; try done; apply replicate_zero|].
  destruct (decide (target ≤ 1)%nat) as [Ht|Ht].
  - destruct target as [|[|t]], inp as [|b inp]; try lia; try done; injection E as <- <-; [split_and!; [done|lia|by constructor]|].
    destruct (byteZ b =? 0) eqn:Eb; (split_and!; [done|cbn; lia|]); cbn; constructor; cbn; unfold nonzero; by rewrite Eb.
  - rewrite decode_step in E by (done || lia). destruct (bitsetDecodePartial fuel inp _) as [[bs ptr1]| | |] eqn:E1; try done.
    apply IH in E1 as (Hl1 & Hp1 & He1). cbn [mbind outcome_bind] in E. pose proof (bitset_room target) as Hroom. rewrite <- Hl1 in Hroom.
    apply (distribute_sound _ _ _ _ target _ 0 []) in E as (d2 & -> & Hl & Hp & Et & Hb); [|done|lia|done]. cbn [app]. split_and!; [done|done|].
    destruct (bitset_of_ok d2) as (_ & Hlb & Hbits). assert (bs = bitset_of d2) as ->.
    { apply bit_at_ext; [by rewrite Hl1, Hlb, Hl|]. intros j. rewrite Hbits. destruct (Nat.lt_ge_cases j (8 * length bs)) as [|Hj]; [by apply Hb|].
      rewrite bit_at_beyond by lia. unfold nz_at. rewrite lookup_ge_None_2 by lia. done. }
    rewrite Et. destruct (existsb nonzero d2) eqn:En; [constructor; [lia|done|done]|].
    rewrite (proj2 (nz_nil d2) En), app_nil_r, (encodes_zero _ _ He1 (bitset_of_zero _ En)). by constructor.
Qed.

(** The bitset decoder always returns, and accepts exactly the encodings: a
    string decodes to the data of the target length whose encoding it is, and
    is refused if there is none. *)
Theorem bitsetDecode_inverts data target :
  (∃ out, bitsetDecodeBytes data target = Val out ∧ length out = target ∧ bitsetEncodeBytes out = Val data) ∨
  (∃ e, bitsetDecodeBytes data target = Err e ∧ ∀ out, length out = target → bitsetEncodeBytes out ≠ Val data).
Proof.
  unfold bitsetDecodeBytes, bitsetDecodePartialBytes. pose proof (decode_returns (S target) data target ltac:(lia)) as Hret.
  assert (∀ out, length out = target → encodes out data → bitsetDecodePartial (S target) data target = Val (out, length data)) as Hc.
  { intros out <- He. pose proof (decode_complete out data He (S (length out)) [] ltac:(lia) (or_intror eq_refl)) as H. by rewrite app_nil_r in H. }
  destruct (bitsetDecodePartial (S target) data target) as [[out ptr]|e| |] eqn:E; try done; cbn [mbind outcome_bind].
  - pose proof E as (Hl & Hp & He)%decode_sound. destruct (Nat.eqb_spec ptr (length data)) as [->|Hne]; cbn [negb].
    + left. exists out. rewrite take_ge in He by lia. split_and!; [done|done|by apply encodes_iff].
    + right. eexists. split; [done|]. intros out' Hl' He'%encodes_iff. specialize (Hc out' Hl' He'). congruence.
  - right. exists e. split; [done|]. intros out' Hl' He'%encodes_iff. specialize (Hc out' Hl' He'). congruence.
Qed.

Lemma Compress_ok data : ∃ out, CompressBytes data = Val out ∧ Zlen out ≤ Zlen data ∧ DecompressBytes out (Zlen data) = Val data.
Proof.
  destruct (encodes_total data) as [out He]. unfold CompressBytes. rewrite (proj2 (encodes_iff _ _) He). cbn [mbind outcome_bind]. eexists. split; [done|]. unfold DecompressBytes, Zlen.
  destruct (Nat.ltb_spec (length out) (length data)) as [Hlt|Hge]; [split; [lia|]|split; [lia|by rewrite Z.gtb_ltb, Z.ltb_irrefl, Z.eqb_refl]].
  rewrite Z.gtb_ltb, (proj2 (Z.ltb_ge _ _)), (proj2 (Z.eqb_neq _ _)) by lia. unfold bitsetDecodeBytes, bitsetDecodePartialBytes. rewrite Nat2Z.id.
  pose proof (decode_complete data out He (S (length data)) [] ltac:(lia) (or_intror eq_refl)) as H. rewrite app_nil_r in H. rewrite H. cbn [mbind outcome_bind]. by rewrite Nat.eqb_refl.
Qed.

(** Decompression inverts compression, and compressed data is never longer. *)
Theorem Compress_roundtrip data :
  ∃ out, CompressBytes data = Val out ∧ Zlen out ≤ Zlen data ∧ DecompressBytes out (Zlen data) = Val data.
Proof. apply Compress_ok. Qed.

Lemma bulk_operations_witness :
  let a := be_bytes 9 0x0102030405060708ff in let b := be_bytes 9 0x1111111111111111ff in
  XORBytes true (zeros 10) a b = Val (be_bytes 9 0x101312151417161900 ++ [Byte.x00], 9) ∧ TestBytes true (zeros 10) = false.
Proof.
  cbv zeta. assert (9 ≤ 10)%nat as Hl by lia.
  destruct (bulk_operations true (zeros 10) (be_bytes 9 0x0102030405060708ff) (be_bytes 9 0x1111111111111111ff) [] Hl) as (H & _). split; [rewrite H|]; vm_compute; reflexivity.
Defined.
