(* ===== verification/TxTypes.v ===== *)
(** * Transactions and their signatures

    [src/blockchain/types/transaction.go], [src/blockchain/types/tx_signer.go],
    and the signature functions of [src/common/crypto] down to the C library.
    A transaction has mutable caches, so its methods are computations on the
    transaction.  The integers of a transaction are never nil: every
    constructor and decoder allocates them. *)

From stdpp Require Import base tactics list numbers.
From S2P Require Import Prelude GoMath RlpEncode RlpDecode RlpEncodeFacts RlpStream RlpSound RlpComplete RlpRaw RlpRecord Keccak.

#[local] Open Scope Z_scope.

(** ** secp256k1/secp256.go *)

(** The C functions: key verification, signing with a deterministic nonce, and
    recovery of the public key; [ScalarBaseMult] of the curve. *)
Class Secp256k1 : Type := {
  ec_seckey_verify : list byte → bool;
  ecdsa_sign_recoverable : list byte → list byte → option (list byte * Z);
  ecdsa_recover_pubkey : list byte → list byte → option (list byte);
  ScalarBaseMult : list byte → Z * Z }.

Module types.
Import rlp rlpd keccak.

Inductive sig_error : Type :=
| ErrInvalidMsgLen | ErrInvalidSignatureLen | ErrInvalidRecoveryID | ErrInvalidKey | ErrSignFailed | ErrRecoverFailed
| ErrKeyLength | ErrHashLength
| ErrInvalidSig | ErrInvalidChainId | ErrInvalidPubkey.

(** ** transaction.go: data *)

(** [JHash] is for JSON only and not part of the encoding. *)
Record txdata : Type := mkTxdata {
  AccountNonce : Z;
  Price : Z;
  GasLimit : Z;
  Recipient : option Address;
  Amount : Z;
  Payload : list byte;
  sig_V : Z;
  sig_R : Z;
  sig_S : Z;
  JHash : option Hash }.

Definition set_signature (r s v : Z) (d : txdata) : txdata :=
  mkTxdata (AccountNonce d) (Price d) (GasLimit d) (Recipient d) (Amount d) (Payload d) v r s (JHash d).
Definition set_JHash (h : option Hash) (d : txdata) : txdata :=
  mkTxdata (AccountNonce d) (Price d) (GasLimit d) (Recipient d) (Amount d) (Payload d) (sig_V d) (sig_R d) (sig_S d) h.

#[global] Instance txdata_rlp : RlpRecord txdata := {|
  rec_typ := TStruct [TUint 64; TBigInt; TBigInt; TOptPtr (TByteArray 20); TBigInt; TBytes; TBigInt; TBigInt; TBigInt];
  to_value d := VList [VUint (AccountNonce d); VBig (Some (Price d)); VBig (Some (GasLimit d));
    VPtr (VBytes ∘ Address_Bytes <$> Recipient d); VBig (Some (Amount d)); VBytes (Payload d);
    VBig (Some (sig_V d)); VBig (Some (sig_R d)); VBig (Some (sig_S d))];
  of_value v :=
    match v with
    | VList [VUint nonce; VBig (Some price); VBig (Some gas); VPtr to; VBig (Some amount); VBytes data; VBig (Some v); VBig (Some r); VBig (Some s)] =>
        match to with
        | None => Some (mkTxdata nonce price gas None amount data v r s None)
        | Some (VBytes a) => Some (mkTxdata nonce price gas (Some (SetBytes a)) amount data v r s None)
        | _ => None
        end
    | _ => None
    end |}.

(** The signer of EIP 155; it is the only [Signer]. *)
Record BoeSigner : Type := mkSigner { chainId : Z; chainIdMul : Z }.
Definition NewBoeSigner (id : option Z) : BoeSigner :=
  let chainId := default 0 id in mkSigner chainId (chainId * 2).
Definition Equal (s s2 : BoeSigner) : bool := big_Cmp (chainId s2) (chainId s) =? 0.

(** What [from] holds: an address put there by [SetFrom], or a [sigCache]. *)
Inductive from_cache : Type :=
| FromAddress (a : Address)
| FromSig (signer : BoeSigner) (from : Address).

Record Transaction : Type := mkTransaction {
  data : txdata;
  c_hash : option Hash;
  c_size : option Z;
  c_from : option from_cache;
  fromP2P : bool }.
(** [&Transaction{data: d}] *)
Definition fresh (d : txdata) : Transaction := mkTransaction d None None None false.
Definition store_hash (h : Hash) (t : Transaction) : Transaction := mkTransaction (data t) (Some h) (c_size t) (c_from t) (fromP2P t).
Definition store_size (n : Z) (t : Transaction) : Transaction := mkTransaction (data t) (c_hash t) (Some n) (c_from t) (fromP2P t).
Definition put_from (c : from_cache) (t : Transaction) : Transaction := mkTransaction (data t) (c_hash t) (c_size t) (Some c) (fromP2P t).

Definition newTransaction (nonce : Z) (to : option Address) (amount gasLimit gasPrice : option Z) (dat : list byte) : Transaction :=
  fresh (mkTxdata nonce (default 0 gasPrice) (default 0 gasLimit) to (default 0 amount) dat 0 0 0 None).
Definition NewTransaction (nonce : Z) (to : Address) (amount gasLimit gasPrice : option Z) (dat : list byte) : Transaction :=
  newTransaction nonce (Some to) amount gasLimit gasPrice dat.
Definition NewContractCreation (nonce : Z) (amount gasLimit gasPrice : option Z) (dat : list byte) : Transaction :=
  newTransaction nonce None amount gasLimit gasPrice dat.

(** ** Chain ids *)

(** The subtraction wraps. *)
Definition deriveChainId (v : Z) : Z :=
  if BitLen v <=? 64 then
    let v := big_Uint64 v in
    if (v =? 27) || (v =? 28) then 0 else u64 (v - 35) / 2
  else big_Div (v - 35) 2.
Definition deriveSigner (v : Z) : BoeSigner := NewBoeSigner (Some (deriveChainId v)).
Definition isProtectedV (v : Z) : bool :=
  if BitLen v <=? 8 then let v := big_Uint64 v in negb (v =? 27) && negb (v =? 28) else true.
Definition ChainId (tx : Transaction) : Z := deriveChainId (sig_V (data tx)).
Definition Protected (tx : Transaction) : bool := isProtectedV (sig_V (data tx)).

(** ** Hashes and sizes *)

(** An encoding error is ignored: nothing is written then. *)
Definition rlpHash (t : typ) (v : value) : Hash :=
  BytesToHash (hash256 match Encode t v with Val enc => enc | _ => [] end).

Abbreviation X := (M Transaction sig_error).

Definition Transaction_Hash : X Hash :=
  c ← gets c_hash;
  match c with
  | Some h => mret h
  | None =>
      d ← gets data;
      let v := rlpHash (rec_typ txdata) (to_value d) in
      modify (store_hash v);;
      mret v
  end.

(** [writeCounter] counts the bytes. *)
Definition Size : X Z :=
  c ← gets c_size;
  match c with
  | Some n => mret n
  | None =>
      d ← gets data;
      let c := match rec_Encode d with Val enc => Zlen enc | _ => 0 end in
      modify (store_size c);;
      mret c
  end.

Definition EncodeRLP (tx : Transaction) : outcome rlp_error (list byte) := rec_Encode (data tx).
(** The size the stream announces is cached. *)
Definition DecodeRLP : D Transaction :=
  r ← sized rec_decode;
  mret (store_size (ListSize r.2) (fresh r.1)).

Definition Cost (tx : Transaction) : Z := Price (data tx) * GasLimit (data tx) + Amount (data tx).
Definition To (tx : Transaction) : option Address := Recipient (data tx).

(** Storing a value of another type in an [atomic.Value] panics. *)
Definition store_from (c : from_cache) : X unit :=
  old ← gets c_from;
  match old, c with
  | None, _ | Some (FromAddress _), FromAddress _ | Some (FromSig _ _), FromSig _ _ => modify (put_from c)
  | _, _ => panic
  end.
Definition SetFrom (from : Address) : X unit := store_from (FromAddress from).

(** ** crypto.go, signature_cgo.go *)

Definition secp256k1_N : Z := 0xfffffffffffffffffffffffffffffffebaaedce6af48a03bbfd25e8cd0364141.
Definition secp256k1_halfN : Z := big_Div secp256k1_N 2.

(** [byte] arithmetic wraps, so [v] is any byte. *)
Definition ValidateSignatureValues (v r s : Z) (homestead : bool) : bool :=
  if (big_Cmp r 1 <? 0) || (big_Cmp s 1 <? 0) then false
  else if homestead && (big_Cmp s secp256k1_halfN >? 0) then false
  else (big_Cmp r secp256k1_N <? 0) && (big_Cmp s secp256k1_N <? 0) && ((v =? 0) || (v =? 1)).

Record PrivateKey : Type := mkKey { key_D : Z; key_X : Z; key_Y : Z }.

Section signatures.
Context {secp : Secp256k1}.

Definition secp256k1_Sign (msg seckey : list byte) : outcome sig_error (list byte) :=
  if negb (Zlen msg =? 32) then Err ErrInvalidMsgLen
  else if negb (Zlen seckey =? 32) then Err ErrInvalidKey
  else if negb (ec_seckey_verify seckey) then Err ErrInvalidKey
  else match ecdsa_sign_recoverable msg seckey with
       | None => Err ErrSignFailed
       | Some (rs, recid) => Val (rs ++ [Zbyte recid])
       end.

Definition checkSignature (sig : list byte) : outcome sig_error unit :=
  if negb (Zlen sig =? 65) then Err ErrInvalidSignatureLen
  else if byteZ (nth 64 sig Byte.x00) >=? 4 then Err ErrInvalidRecoveryID
  else Val tt.
Definition RecoverPubkey (msg sig : list byte) : outcome sig_error (list byte) :=
  if negb (Zlen msg =? 32) then Err ErrInvalidMsgLen
  else
    checkSignature sig;;
    match ecdsa_recover_pubkey sig msg with
    | None => Err ErrRecoverFailed
    | Some pubkey => Val pubkey
    end.

Definition toECDSA (d : list byte) (strict : bool) : outcome sig_error PrivateKey :=
  if strict && negb (8 * Zlen d =? 256) then Err ErrKeyLength
  else let '(x, y) := ScalarBaseMult d in Val (mkKey (SetBytes d) x y).
Definition ToECDSA (d : list byte) : outcome sig_error PrivateKey := toECDSA d true.
Definition FromECDSA (priv : option PrivateKey) : list byte :=
  match priv with None => [] | Some priv => PaddedBigBytes (key_D priv) 32 end.
(** [elliptic.Marshal] *)
Definition FromECDSAPub (p : PrivateKey) : list byte := Zbyte 4 :: be_bytes 32 (key_X p) ++ be_bytes 32 (key_Y p).
Definition PubkeyToAddress (p : PrivateKey) : Address :=
  let pubBytes := FromECDSAPub p in BytesToAddress (drop 12 (hash256 (drop 1 pubBytes))).

Definition Sign (hash : list byte) (prv : PrivateKey) : outcome sig_error (list byte) :=
  if negb (Zlen hash =? 32) then Err ErrHashLength
  else let seckey := PaddedBigBytes (key_D prv) 32 in secp256k1_Sign hash seckey.
Definition Ecrecover (hash sig : list byte) : outcome sig_error (list byte) := RecoverPubkey hash sig.

(** ** tx_signer.go *)

(** The list [[]interface{}{...}] that is signed. *)
Definition sign_fields (s : BoeSigner) (d : txdata) : list (typ * value) :=
  [(TUint 64, VUint (AccountNonce d)); (TBigInt, VBig (Some (Price d))); (TBigInt, VBig (Some (GasLimit d)));
   (TPtr (TByteArray 20), VPtr (VBytes ∘ Address_Bytes <$> Recipient d));
   (TBigInt, VBig (Some (Amount d))); (TBytes, VBytes (Payload d));
   (TBigInt, VBig (Some (chainId s))); (TUint 64, VUint 0); (TUint 64, VUint 0)].
Definition Hash (s : BoeSigner) (tx : Transaction) : Hash :=
  rlpHash (TSlice TInterface) (VList (VInterface ∘ Some <$> sign_fields s (data tx))).

(** [copy(sig\[32-len(r):32\], r)]: a longer [r] would make the index
    negative, which the range check excludes. *)
Definition left_pad (n : nat) (b : list byte) : option (list byte) :=
  if (n <? length b)%nat then None else Some (replicate (n - length b) Byte.x00 ++ b).
Definition recoverPlain (sighash : Z) (R S Vb : Z) : outcome sig_error Address :=
  if BitLen Vb >? 8 then Err ErrInvalidSig
  else
    let v := (big_Uint64 Vb - 27) mod 256 in
    if negb (ValidateSignatureValues v R S true) then Err ErrInvalidSig
    else
      r ← val_or_panic (left_pad 32 (big_Bytes R));
      s ← val_or_panic (left_pad 32 (big_Bytes S));
      let sig := r ++ s ++ [Zbyte v] in
      pub ← Ecrecover (Hash_Bytes sighash) sig;
      match pub with
      | [] => Err ErrInvalidPubkey
      | p0 :: pub1 =>
          if negb (byteZ p0 =? 4) then Err ErrInvalidPubkey
          else Val (BytesToAddress (drop 12 (hash256 pub1)))
      end.

(** [BoeSigner.Sender]; the test for protection has an empty body. *)
Definition signer_Sender (s : BoeSigner) (tx : Transaction) : outcome sig_error Address :=
  if negb (big_Cmp (ChainId tx) (chainId s) =? 0) then Err ErrInvalidChainId
  else
    let v := sig_V (data tx) - chainIdMul s in
    let v := v - 8 in
    recoverPlain (Hash s tx) (sig_R (data tx)) (sig_S (data tx)) v.

Definition SignatureValues (s : BoeSigner) (sig : list byte) : outcome sig_error (Z * Z * Z) :=
  if negb (Zlen sig =? 65) then Panic
  else
    let r := SetBytes (take 32 sig) in
    let s' := SetBytes (take 32 (drop 32 sig)) in
    let v := (byteZ (nth 64 sig Byte.x00) + 27) mod 256 in
    let v := if negb (big_Sign (chainId s) =? 0) then (byteZ (nth 64 sig Byte.x00) + 35) mod 256 + chainIdMul s else v in
    Val (r, s', v).
Definition WithSignature (tx : Transaction) (signer : BoeSigner) (sig : list byte) : outcome sig_error Transaction :=
  rsv ← SignatureValues signer sig;
  let '(r, s, v) := rsv in Val (fresh (set_signature r s v (data tx))).

Definition SignTx (tx : Transaction) (s : BoeSigner) (prv : PrivateKey) : outcome sig_error Transaction :=
  sig ← Sign (Hash_Bytes (Hash s tx)) prv;
  WithSignature tx s sig.

(** The cached address is used when the signer is the same. *)
Definition Sender (signer : BoeSigner) : X Address :=
  sc ← gets c_from;
  let derive :=
    tx ← gets (λ tx, tx);
    match signer_Sender signer tx with
    | Val addr => store_from (FromSig signer addr);; mret addr
    | Err e => fail e
    | Panic => panic
    | NoFuel => λ s, (s, NoFuel)
    end in
  match sc with
  | Some (FromAddress _) => panic
  | Some (FromSig cached from) => if Equal cached signer then mret from else derive
  | None => derive
  end.

(** [UnmarshalJSON] after the fields are parsed. *)
Definition UnmarshalJSON (dec : txdata) : outcome sig_error Transaction :=
  let v :=
    if isProtectedV (sig_V dec) then
      let chainId := big_Uint64 (deriveChainId (sig_V dec)) in (big_Uint64 (sig_V dec) - 35 - 2 * chainId) mod 256
    else (big_Uint64 (sig_V dec) - 27) mod 256 in
  if negb (ValidateSignatureValues v (sig_R dec) (sig_S dec) false) then Err ErrInvalidSig
  else Val (fresh dec).
End signatures.

(** ** Sets of transactions *)

(** [TxDifference]: the transactions of [a] whose hash no transaction of [b]
    has.  Hashing fills the caches. *)
Definition tx_hash (tx : Transaction) : Z := default (rlpHash (rec_typ txdata) (to_value (data tx))) (c_hash tx).
Definition TxDifference (a b : list Transaction) : list Transaction :=
  let remove := tx_hash <$> b in
  filter (λ tx, tx_hash tx ∉ remove) a.
End types.
