(* ===== verification/TxFacts.v ===== *)
(** * Facts about transactions and signatures *)

From stdpp Require Import base tactics list numbers.
From S2P Require Import Prelude GoMath RlpEncode RlpDecode RlpEncodeFacts RlpStream RlpSound RlpComplete RlpRaw RlpRecord Keccak KeccakFacts KeccakProps TxTypes.

#[local] Open Scope Z_scope.
Import rlp rlpd types.

(** ** Hashing *)

Lemma hash256_ok m : keccak.hash256 m = keccak256 m.
Proof. unfold keccak.hash256. rewrite Keccak256_ok. cbn [concat]. by rewrite app_nil_r. Qed.
#[local] Opaque keccak.hash256 keccak256.
(** Two messages with one hash. *)
Definition collision (m1 m2 : list byte) : Prop := m1 ≠ m2 ∧ keccak256 m1 = keccak256 m2.

Lemma BytesToHash_keccak m : BytesToHash (keccak256 m) = SetBytes (keccak256 m).
Proof.
  rewrite BytesToHash_spec. apply Z.mod_small. pose proof (SetBytes_range (keccak256 m)) as H. by rewrite keccak256_length in H.
Qed.
Lemma keccak256_hash m : Hash_Bytes (BytesToHash (keccak256 m)) = keccak256 m.
Proof.
  rewrite BytesToHash_keccak. unfold Hash_Bytes. pose proof (keccak256_length m) as H. unfold Zlen in H.
  replace 32%nat with (length (keccak256 m)) by lia. apply be_bytes_SetBytes.
Qed.
Lemma BytesToHash_collision m1 m2 : BytesToHash (keccak256 m1) = BytesToHash (keccak256 m2) → m1 = m2 ∨ collision m1 m2.
Proof.
  intros E. destruct (decide (m1 = m2)) as [->|Hne]; [by left|right]. split; [done|].
  by rewrite <- (keccak256_hash m1), E, keccak256_hash.
Qed.

(** ** Encoding of the data *)

(** The values the Go types can have. *)
Record tx_ok (d : txdata) : Prop := {
  ok_nonce : is_u64 (AccountNonce d);
  ok_price : 0 ≤ Price d;
  ok_gas : 0 ≤ GasLimit d;
  ok_to : ∀ a, Recipient d = Some a → 0 ≤ a < 2 ^ 160;
  ok_amount : 0 ≤ Amount d;
  ok_V : 0 ≤ sig_V d;
  ok_R : 0 ≤ sig_R d;
  ok_S : 0 ≤ sig_S d }.

Lemma Address_Bytes_length a : Zlen (Address_Bytes a) = 20.
Proof. unfold Zlen, Address_Bytes. by rewrite length_be_bytes. Qed.
Lemma SetBytes_Address a : 0 ≤ a < 2 ^ 160 → SetBytes (Address_Bytes a) = a.
Proof. intros H. unfold Address_Bytes. rewrite SetBytes_be_bytes. by apply Z.mod_small. Qed.

Lemma plain_recipient to : plain (TOptPtr (TByteArray 20)) (VPtr (VBytes ∘ Address_Bytes <$> to)).
Proof.
  destruct to as [a|]; [|by left]. split; [apply Address_Bytes_length|]. intros bs E Hno.
  assert (bs = enc_str (Address_Bytes a)) as -> by (by injection E).
  pose proof (enc_str_length (Address_Bytes a)) as Hl. rewrite Address_Bytes_length in Hl.
  destruct Hno as [H|H]; rewrite H in Hl; done.
Qed.

#[global] Instance txdata_laws : RlpRecordLaws txdata (λ d, tx_ok d ∧ JHash d = None).
Proof.
  split; [done| | |done|].
  - intros d [[Hn Hp Hg Ht Ha HV HR HS] _].
    change (plain_fields [TUint 64; TBigInt; TBigInt; TOptPtr (TByteArray 20); TBigInt; TBytes; TBigInt; TBigInt; TBigInt]
      [VUint (AccountNonce d); VBig (Some (Price d)); VBig (Some (GasLimit d)); VPtr (VBytes ∘ Address_Bytes <$> Recipient d);
       VBig (Some (Amount d)); VBytes (Payload d); VBig (Some (sig_V d)); VBig (Some (sig_R d)); VBig (Some (sig_S d))]).
    pose proof (plain_recipient (Recipient d)) as Hto. cbn [plain_fields]. split_and!; try done; by destruct Hn.
  - intros [n p g [a|] am pl v r s j] [[Hn Hp Hg Ht Ha HV HR HS] E]; cbn [JHash Recipient] in *; subst; [|done].
    cbn [of_value to_value txdata_rlp AccountNonce Price GasLimit Recipient Amount Payload sig_V sig_R sig_S fmap option_fmap option_map compose].
    by rewrite SetBytes_Address by (by apply Ht).
  - intros v Hv. cbn [rec_typ txdata_rlp] in Hv. typed_struct Hv v.
    + typed_cases Hf2 w. eexists. split; [reflexivity|]. pose proof (SetBytes_range b0) as Ha. change (Zlen b0 = 20) in Hf2. rewrite Hf2 in Ha.
      split; [split; [|done]; split; try done; by intros ? [= <-]|].
      cbn [to_value txdata_rlp AccountNonce Price GasLimit Recipient Amount Payload sig_V sig_R sig_S fmap option_fmap option_map compose].
      unfold Address_Bytes. unfold Zlen in Hf2. replace 20%nat with (length b0) by lia. by rewrite be_bytes_SetBytes.
    + eexists. split; [reflexivity|]. by split.
Qed.

(** ** Chain ids *)

Definition signer_ok (s : BoeSigner) : Prop := 0 ≤ chainId s ∧ chainIdMul s = 2 * chainId s.
Lemma NewBoeSigner_ok id : 0 ≤ default 0 id → signer_ok (NewBoeSigner id).
Proof. intros H. split; [done|]. cbn. lia. Qed.

Lemma deriveChainId_EIP155 c id : 0 ≤ c → id = 0 ∨ id = 1 → deriveChainId (2 * c + 35 + id) = c.
Proof.
  intros Hc Hid. unfold deriveChainId. destruct (Z.leb_spec (BitLen (2 * c + 35 + id)) 64) as [H|H].
  - rewrite BitLen_le, Z.abs_eq in H by lia. rewrite big_Uint64_small by (unfold is_u64; lia).
    rewrite (proj2 (Z.eqb_neq _ 27)), (proj2 (Z.eqb_neq _ 28)) by lia. cbn [orb].
    rewrite u64_small by (unfold is_u64; lia). symmetry. apply (Z.div_unique _ _ _ id); lia.
  - unfold big_Div. change (Z.sgn 2) with 1. change (Z.abs 2) with 2. symmetry. rewrite Z.mul_1_l. apply (Z.div_unique _ _ _ id); lia.
Qed.
(** No other [v] near the chain id passes. *)
Lemma deriveChainId_inv v : 0 ≤ v → let c := deriveChainId v in
  v = 2 * c + 35 ∨ v = 2 * c + 36 ∨ c = 0 ∧ (v = 27 ∨ v = 28) ∨ v < 35 ∧ 2 ^ 63 - 18 ≤ c.
Proof.
  intros Hv. unfold deriveChainId. destruct (Z.leb_spec (BitLen v) 64) as [H|H].
  - rewrite BitLen_le, Z.abs_eq in H by lia. rewrite big_Uint64_small by (unfold is_u64; lia).
    destruct (Z.eqb_spec v 27); [cbn; lia|]. destruct (Z.eqb_spec v 28); [cbn; lia|]. cbn [orb].
    pose proof (Z.div_mod (u64 (v - 35)) 2 ltac:(lia)). pose proof (Z.mod_pos_bound (u64 (v - 35)) 2 ltac:(lia)).
    destruct (Z.le_gt_cases 35 v).
    + rewrite u64_small in * by (unfold is_u64; lia). lia.
    + assert (u64 (v - 35) = v - 35 + 2 ^ 64) as E by (unfold u64; symmetry; apply (Z.mod_unique _ _ (-1)); lia).
      rewrite E in *. lia.
  - unfold big_Div. change (Z.sgn 2) with 1. change (Z.abs 2) with 2. rewrite Z.mul_1_l.
    pose proof (Z.div_mod (v - 35) 2 ltac:(lia)). pose proof (Z.mod_pos_bound (v - 35) 2 ltac:(lia)). lia.
Qed.

(** ** Signature values *)

Lemma big_Cmp_lt x y : (big_Cmp x y <? 0) = (x <? y).
Proof. unfold big_Cmp. destruct (Z.compare_spec x y); cbn; symmetry; [apply Z.ltb_ge|apply Z.ltb_lt|apply Z.ltb_ge]; lia. Qed.
Lemma big_Cmp_gt x y : (big_Cmp x y >? 0) = (y <? x).
Proof. unfold big_Cmp. destruct (Z.compare_spec x y); cbn; symmetry; [apply Z.ltb_ge|apply Z.ltb_ge|apply Z.ltb_lt]; lia. Qed.
Lemma big_Cmp_eq x y : (big_Cmp x y =? 0) = (x =? y).
Proof. unfold big_Cmp. destruct (Z.compare_spec x y); cbn; symmetry; [apply Z.eqb_eq|apply Z.eqb_neq|apply Z.eqb_neq]; lia. Qed.

Definition sig_range (r s : Z) : Prop := 1 ≤ r < secp256k1_N ∧ 1 ≤ s ≤ secp256k1_halfN.
Lemma Validate_homestead v r s : ValidateSignatureValues v r s true = true ↔ sig_range r s ∧ (v = 0 ∨ v = 1).
Proof.
  unfold ValidateSignatureValues. rewrite !big_Cmp_lt, big_Cmp_gt. unfold sig_range.
  assert (secp256k1_halfN < secp256k1_N) by done. cbn [andb].
  destruct (Z.ltb_spec r 1); cbn [orb]; [split; [done|lia]|]. destruct (Z.ltb_spec s 1); [split; [done|lia]|].
  destruct (Z.ltb_spec secp256k1_halfN s); [split; [done|lia]|].
  rewrite !andb_true_iff, orb_true_iff, !Z.ltb_lt, !Z.eqb_eq. lia.
Qed.
Lemma left_pad_word r : 0 ≤ r < 2 ^ 256 → left_pad 32 (big_Bytes r) = Some (be_bytes 32 r).
Proof.
  intros Hr. unfold left_pad. assert (length (big_Bytes r) ≤ 32)%nat as Hl.
  { unfold big_Bytes. rewrite length_be_bytes. assert (BitLen r ≤ 256) by (apply BitLen_le; [lia|rewrite Z.abs_eq; lia]).
    assert ((BitLen r + 7) / 8 < 33) by (apply Z.div_lt_upper_bound; lia). lia. }
  rewrite (proj2 (Nat.ltb_ge _ _)) by lia. f_equal.
  pose proof (be_bytes_SetBytes (replicate (32 - length (big_Bytes r)) Byte.x00 ++ big_Bytes r)) as E.
  rewrite length_app, length_replicate, Nat.sub_add, SetBytes_app, be_bytes_big_Bytes in E by lia. rewrite <- E. f_equal.
  replace (replicate (32 - length (big_Bytes r)) Byte.x00) with (zeros (Z.of_nat (32 - length (big_Bytes r)))) by (unfold zeros; by rewrite Nat2Z.id).
  by rewrite SetBytes_zeros.
Qed.
Lemma secp256k1_N_word : secp256k1_N < 2 ^ 256.
Proof. done. Qed.

(** The address of a recovered public key. *)
Definition recovered (h sig : list byte) (a : Address) `{Secp256k1} : Prop :=
  ∃ pub, Ecrecover h sig = Val (Zbyte 4 :: pub) ∧ a = BytesToAddress (drop 12 (keccak256 pub)).
Lemma byteZ_4 p : byteZ p = 4 → p = Zbyte 4.
Proof. intros H. rewrite <- (Zbyte_byteZ p). by rewrite H. Qed.

Section sender.
Context `{secp : Secp256k1}.

Lemma recoverPlain_iff h r s vb a : recoverPlain h r s vb = Val a ↔
  ∃ id, (id = 0 ∨ id = 1) ∧ Z.abs vb = 27 + id ∧ sig_range r s ∧
    recovered (Hash_Bytes h) (be_bytes 32 r ++ be_bytes 32 s ++ [Zbyte id]) a.
Proof.
  unfold recoverPlain. pose proof secp256k1_N_word as HN. assert (secp256k1_halfN < secp256k1_N) as Hh by done.
  destruct (Z.gtb_spec (BitLen vb) 8) as [Hb|Hb].
  { split; [done|]. intros (id & ? & E & _). assert (BitLen vb ≤ 8); [|lia]. apply BitLen_le; lia. }
  apply (BitLen_le vb 8) in Hb; [|lia]. unfold big_Uint64. rewrite u64_small by (unfold is_u64; lia).
  destruct (ValidateSignatureValues ((Z.abs vb - 27) mod 256) r s true) eqn:Ev; cbn [negb].
  - apply Validate_homestead in Ev as [Hrs Hv]. pose proof Hrs as [Hr Hs].
    rewrite !left_pad_word by lia. cbn [val_or_panic mbind outcome_bind].
    assert (Z.abs vb = 27 + (Z.abs vb - 27) mod 256) as Hid.
    { pose proof (Z.div_mod (Z.abs vb - 27) 256 ltac:(lia)). destruct Hv as [E|E]; rewrite E in *; nia. }
    split.
    + destruct (Ecrecover _ _) as [[|p0 pub]| | |] eqn:Ee; cbn [mbind outcome_bind]; try discriminate. destruct (Z.eqb_spec (byteZ p0) 4) as [E4|]; [|done].
      intros [= <-]. eexists. split_and!; [exact Hv|exact Hid|exact Hrs|]. exists pub. rewrite <- (byteZ_4 p0 E4). split; [done|]. by rewrite hash256_ok.
    + intros (id & Hid' & E & _ & pub & Ee & ->). replace ((Z.abs vb - 27) mod 256) with id by lia. rewrite Ee. cbn. by rewrite hash256_ok.
  - split; [done|]. intros (id & Hid & E & Hr & _). replace (Z.abs vb - 27) with id in Ev by lia.
    rewrite Z.mod_small in Ev by lia. by rewrite (proj2 (Validate_homestead id r s) (conj Hr Hid)) in Ev.
Qed.

Lemma signer_Sender_iff s tx a : signer_ok s → 0 ≤ sig_V (data tx) →
  signer_Sender s tx = Val a ↔
  ∃ id, (id = 0 ∨ id = 1) ∧ sig_V (data tx) = 2 * chainId s + 35 + id ∧ sig_range (sig_R (data tx)) (sig_S (data tx)) ∧
    recovered (Hash_Bytes (types.Hash s tx)) (be_bytes 32 (sig_R (data tx)) ++ be_bytes 32 (sig_S (data tx)) ++ [Zbyte id]) a.
Proof.
  intros [Hc Hm] HV. unfold signer_Sender, ChainId. rewrite big_Cmp_eq. destruct (Z.eqb_spec (deriveChainId (sig_V (data tx))) (chainId s)) as [E|E]; cbn [negb].
  - rewrite recoverPlain_iff, Hm. pose proof (deriveChainId_inv _ HV) as Hi. cbv zeta in Hi. rewrite E in Hi.
    apply exist_proper. intros id. split; intros (Hid & H & Hrest); (split_and!; [done| |apply Hrest|apply Hrest]); lia.
  - split; [done|]. intros (id & Hid & EV & _). by rewrite EV, deriveChainId_EIP155 in E.
Qed.
End sender.

(** ** What is signed *)

Definition to_bytes (to : option Address) : list byte := match to with Some a => Address_Bytes a | None => [] end.
Lemma to_bytes_inj t1 t2 : (∀ a, t1 = Some a → 0 ≤ a < 2 ^ 160) → (∀ a, t2 = Some a → 0 ≤ a < 2 ^ 160) →
  to_bytes t1 = to_bytes t2 → t1 = t2.
Proof.
  intros H1 H2 E. destruct t1 as [a|], t2 as [b|]; cbn [to_bytes] in E; [| | |done].
  - f_equal. by rewrite <- (SetBytes_Address a), <- (SetBytes_Address b), E by auto.
  - by apply (f_equal length) in E; unfold Address_Bytes in E; rewrite length_be_bytes in E.
  - by apply (f_equal length) in E; unfold Address_Bytes in E; rewrite length_be_bytes in E.
Qed.
Definition sign_strings (c : Z) (d : txdata) : list (list byte) :=
  [big_Bytes (AccountNonce d); big_Bytes (Price d); big_Bytes (GasLimit d); to_bytes (Recipient d); big_Bytes (Amount d); Payload d;
   big_Bytes c; []; []].
Definition sign_data (c : Z) (d : txdata) : list byte := enc_list (enc_strs (sign_strings c d)).

Lemma enc_big z : 0 ≤ z → enc TBigInt (VBig (Some z)) = Some (enc_str (big_Bytes z)).
Proof. intros H. cbn [enc]. by rewrite (proj2 (Z.ltb_ge z 0)). Qed.
Lemma Hash_sign_data s tx : signer_ok s → tx_ok (data tx) → Zlen (sign_data (chainId s) (data tx)) < 2 ^ 63 →
  types.Hash s tx = BytesToHash (keccak256 (sign_data (chainId s) (data tx))).
Proof.
  intros [Hc _] [Hn Hp Hg Ht Ha HV HR HS] Hl. unfold types.Hash, rlpHash. set (v := VList _).
  assert (shaped (TSlice TInterface) v) as Hsh.
  { destruct Hn. cbn. split_and!; try done. destruct (Recipient (data tx)); [apply Address_Bytes_length|done]. }
  assert (enc (TSlice TInterface) v = Some (sign_data (chainId s) (data tx))) as He.
  { assert (enc (TPtr (TByteArray 20)) (VPtr (VBytes ∘ Address_Bytes <$> Recipient (data tx))) = Some (enc_str (to_bytes (Recipient (data tx))))) as Hto
      by (by destruct (Recipient (data tx))).
    unfold v, sign_fields. cbn [enc fmap list_fmap compose mapM]. cbn [enc] in Hto. rewrite Hto.
    rewrite !(proj2 (Z.ltb_ge _ 0)) by done. reflexivity. }
  by rewrite (proj2 (Encode_ok _ v _ Hsh He Hl)), hash256_ok.
Qed.

Lemma big_Bytes_inj x y : 0 ≤ x → 0 ≤ y → big_Bytes x = big_Bytes y → x = y.
Proof. intros Hx Hy E. by rewrite <- (be_bytes_big_Bytes x Hx), E, be_bytes_big_Bytes. Qed.

(** The fields that are signed. *)
Definition same_content (d1 d2 : txdata) : Prop :=
  AccountNonce d1 = AccountNonce d2 ∧ Price d1 = Price d2 ∧ GasLimit d1 = GasLimit d2 ∧ Recipient d1 = Recipient d2 ∧
  Amount d1 = Amount d2 ∧ Payload d1 = Payload d2.
Lemma sign_data_inj c1 c2 d1 d2 : 0 ≤ c1 → 0 ≤ c2 → tx_ok d1 → tx_ok d2 → Zlen (sign_data c1 d1) < 2 ^ 63 →
  sign_data c1 d1 = sign_data c2 d2 → c1 = c2 ∧ same_content d1 d2.
Proof.
  intros Hc1 Hc2 [[Hn1 _] Hp1 Hg1 Ht1 Ha1 _ _ _] [[Hn2 _] Hp2 Hg2 Ht2 Ha2 _ _ _] Hl E. unfold sign_data in *.
  assert (Zlen (enc_strs (sign_strings c1 d1)) < 2 ^ 63) as Hl' by (pose proof (enc_list_length (enc_strs (sign_strings c1 d1))); lia).
  rewrite <- (app_nil_r (enc_list _)), <- (app_nil_r (enc_list (enc_strs (sign_strings c2 d2)))) in E.
  apply enc_list_app_inj in E as [E _]; [|by rewrite app_nil_r]. apply enc_strs_inj in E; [|done|done].
  injection E as E1 E2 E3 E4 E5 E6 E7. split; [by apply big_Bytes_inj|].
  split_and!; [by apply big_Bytes_inj| by apply big_Bytes_inj|by apply big_Bytes_inj|by apply to_bytes_inj|by apply big_Bytes_inj|done].
Qed.

(** ** Decoding *)

Lemma tx_is_struct : ∃ ts, rec_typ txdata = TStruct ts.
Proof. by eexists. Qed.
Lemma DecodeRLP_wp s : ready s → wp False DecodeRLP
  (λ tx s', ∃ bs, (tx = store_size (Zlen bs) (fresh (data tx)) ∧ tx_ok (data tx) ∧ JHash (data tx) = None ∧ Zlen (rec_enc (data tx)) = Zlen bs) ∧ took_enc s s' bs)
  (only_at_end s) s.
Proof.
  intros Hs. destruct tx_is_struct as [ts Et]. apply wp_bind. eapply wp_mono; [by eapply (sized_wp s ts)|done| |done].
  intros [d n] s' ([Hok Hj] & bs & Hl & _ & Hn & _ & Ht). exists bs. cbn [fst snd] in *. rewrite Hn. by split_and!.
Qed.
Lemma DecodeRLP_reads d : tx_ok d → JHash d = None → Zlen (rec_enc d) < 2 ^ 63 →
  reads DecodeRLP (rec_enc d) (store_size (Zlen (rec_enc d)) (fresh d)).
Proof.
  intros Hok Hj Hl. destruct tx_is_struct as [ts Et]. destruct (sized_rec_reads ts d Et (conj Hok Hj) Hl) as (n & Hr & <-).
  by apply (reads_ret _ _ _ (λ r, store_size (ListSize r.2) (fresh r.1))) in Hr.
Qed.
