(* ===== verification/TxProps.v ===== *)
(** * Properties of transactions and signatures *)

From stdpp Require Import base tactics list numbers.
From S2P Require Import Prelude GoMath RlpEncode RlpDecode RlpEncodeFacts RlpStream RlpSound RlpComplete RlpRaw RlpRecord Keccak KeccakFacts KeccakProps TxTypes TxFacts.

#[local] Open Scope Z_scope.
Import rlp rlpd types.
#[local] Opaque keccak.hash256 keccak256.

(** ** Wire format *)

(** Transactions survive the wire: the encoding of a transaction decodes to
    the same data, with nothing left over, and the size the decoder takes from
    the header is the size of the encoding. *)
Theorem Transaction_roundtrip tx : tx_ok (data tx) → JHash (data tx) = None → Zlen (rec_enc (data tx)) < 2 ^ 63 →
  ∃ b, EncodeRLP tx = Val b ∧ decode_all DecodeRLP b = Val (store_size (Zlen b) (fresh (data tx))).
Proof.
  intros Hok Hj Hl. exists (rec_enc (data tx)). split; [by apply rec_roundtrip|].
  apply decode_all_reads; [done|]. by apply DecodeRLP_reads.
Qed.

(** C25: Whatever bytes arrive, decoding a transaction returns: an error, or a
    transaction all of whose fields are in the range of their types, with no
    cached hash or sender, whose encoding is as long as the input. *)
Theorem Transaction_decode_typed b : Zlen b < 2 ^ 63 →
  (∃ tx, decode_all DecodeRLP b = Val tx ∧ tx = store_size (Zlen b) (fresh (data tx)) ∧ tx_ok (data tx) ∧
     EncodeRLP tx = Val (rec_enc (data tx)) ∧ Zlen (rec_enc (data tx)) = Zlen b) ∨
  (∃ e, decode_all DecodeRLP b = Err e).
Proof.
  intros Hl. pose proof (NewStream_ready b Hl) as Hs.
  destruct (decode_all_wp DecodeRLP _ _ b Hl (DecodeRLP_wp _ Hs)) as [(tx & E & Etx & Hok & Hj & Hlen)|He]; [left|by right].
  exists tx. split_and!; try done. apply rec_roundtrip; [done|lia].
Qed.

(** ** Caches *)

Section caches.
Context `{secp : Secp256k1}.

Definition caches_ok (tx : Transaction) : Prop :=
  (∀ h, c_hash tx = Some h → h = rlpHash (rec_typ txdata) (to_value (data tx))) ∧
  (∀ n, c_size tx = Some n → n = Zlen (rec_enc (data tx))) ∧
  match c_from tx with
  | None => True
  | Some (FromAddress _) => False
  | Some (FromSig s a) => signer_ok s ∧ signer_Sender s tx = Val a
  end.
Definition tx_inv (tx : Transaction) : Prop := tx_ok (data tx) ∧ Zlen (rec_enc (data tx)) < 2 ^ 63 ∧ caches_ok tx.

(** The transactions a node has: made, decoded or signed, and then hashed,
    measured and asked for their sender, in any order. *)
Inductive tx_reach : Transaction → Prop :=
| reach_new d : tx_ok d → Zlen (rec_enc d) < 2 ^ 63 → tx_reach (fresh d)
| reach_decode b tx : Zlen b < 2 ^ 63 → decode_all DecodeRLP b = Val tx → tx_reach tx
| reach_hash tx : tx_reach tx → tx_reach (Transaction_Hash tx).1
| reach_size tx : tx_reach tx → tx_reach (Size tx).1
| reach_sender s tx : signer_ok s → tx_reach tx → tx_reach (Sender s tx).1
| reach_sign s sig tx tx' : tx_reach tx → signer_ok s → WithSignature tx s sig = Val tx' →
    Zlen (rec_enc (data tx')) < 2 ^ 63 → tx_reach tx'.

Lemma rec_enc_ok (d : txdata) : tx_ok d → Zlen (rec_enc d) < 2 ^ 63 → rec_Encode d = Val (rec_enc d).
Proof.
  intros Hok Hl. change (rec_enc d) with (rec_enc (set_JHash None d)). change (rec_Encode d) with (rec_Encode (set_JHash None d)).
  apply rec_roundtrip; [|done]. split; [|done]. destruct Hok. by split.
Qed.
Lemma Equal_same s1 s2 : signer_ok s1 → signer_ok s2 → Equal s1 s2 = true → s1 = s2.
Proof.
  destruct s1 as [c1 m1], s2 as [c2 m2]. intros [_ E1] [_ E2]. unfold Equal. rewrite big_Cmp_eq. cbn in *. intros E%Z.eqb_eq. subst. done.
Qed.

Lemma Hash_ok tx : tx_inv tx → (Transaction_Hash tx).2 = Val (rlpHash (rec_typ txdata) (to_value (data tx))) ∧ tx_inv (Transaction_Hash tx).1.
Proof.
  intros Hi. pose proof Hi as (Hok & Hl & Hh & Hn & Hf). unfold Transaction_Hash, mbind, M_bind, gets, modify. destruct (c_hash tx) as [h|] eqn:E; cbn [mret M_ret fst snd].
  - split; [by rewrite (Hh h)|done].
  - split; [done|]. split; [done|]. split; [done|]. split; [by intros ? [= <-]|by split].
Qed.
Lemma Size_ok tx : tx_inv tx → (Size tx).2 = Val (Zlen (rec_enc (data tx))) ∧ tx_inv (Size tx).1.
Proof.
  intros Hi. pose proof Hi as (Hok & Hl & Hh & Hn & Hf). unfold Size, mbind, M_bind, gets, modify. destruct (c_size tx) as [n|] eqn:E; cbn [mret M_ret fst snd].
  - split; [by rewrite (Hn n)|done].
  - rewrite rec_enc_ok by done. split; [done|]. split; [done|]. split; [done|]. split; [done|]. split; [by intros ? [= <-]|done].
Qed.
Lemma Sender_ok s tx : signer_ok s → tx_inv tx → (Sender s tx).2 = signer_Sender s tx ∧ tx_inv (Sender s tx).1.
Proof.
  intros Hs Hi. pose proof Hi as (Hok & Hl & Hh & Hn & Hf).
  assert (∀ a, signer_Sender s tx = Val a → tx_inv (put_from (FromSig s a) tx)) as Hput
    by (intros a Ea; split; [done|]; split; [done|]; split; [done|]; split; [done|by split]).
  unfold Sender, store_from, mbind, M_bind, gets, modify. destruct (c_from tx) as [[a|cached from]|] eqn:E; [done| |].
  - destruct Hf as [Hc Hf]. destruct (Equal cached s) eqn:Eq; cbn [mret M_ret fst snd].
    + by rewrite <- (Equal_same cached s).
    + destruct (signer_Sender s tx) as [a|e| |] eqn:Es; cbn; rewrite ?E; cbn; (split; [done|]); by first [apply Hput|exact Hi].
  - destruct (signer_Sender s tx) as [a|e| |] eqn:Es; cbn; rewrite ?E; cbn; (split; [done|]); by first [apply Hput|exact Hi].
Qed.
Lemma SignatureValues_nonneg s sig r s' v : signer_ok s → SignatureValues s sig = Val (r, s', v) → 0 ≤ r ∧ 0 ≤ s' ∧ 0 ≤ v.
Proof.
  intros [Hc Hm]. unfold SignatureValues. case_match; [done|]. intros [= <- <- <-]. split_and!; [apply SetBytes_range|apply SetBytes_range|].
  pose proof (Z.mod_pos_bound (byteZ (nth 64 sig Byte.x00) + 27) 256 ltac:(lia)).
  pose proof (Z.mod_pos_bound (byteZ (nth 64 sig Byte.x00) + 35) 256 ltac:(lia)). case_match; lia.
Qed.
Lemma reach_inv tx : tx_reach tx → tx_inv tx.
Proof.
  induction 1 as [d Hd Hl|b tx Hb E|tx _ IH|tx _ IH|s tx Hs _ IH|s sig tx tx' _ IH Hs E Hl].
  - split; [done|]. split; [done|]. by split_and!.
  - destruct (decode_all_wp DecodeRLP _ _ b Hb (DecodeRLP_wp _ (NewStream_ready b Hb))) as [(tx' & E' & Etx & Hok & Hj & Hlen)|[e He]]; [|congruence].
    assert (tx' = tx) as <- by congruence. 
    assert (c_hash tx' = None ∧ c_size tx' = Some (Zlen b) ∧ c_from tx' = None) as (E1 & E2 & E3) by (by rewrite Etx).
    split; [done|]. split; [lia|]. unfold caches_ok. rewrite E1, E2, E3, Hlen. split_and!; [done| |done]. by intros ? [= <-].
  - by apply Hash_ok.
  - by apply Size_ok.
  - by apply Sender_ok.
  - destruct IH as (Hok & _ & _). unfold WithSignature in E. destruct (SignatureValues s sig) as [[[r s'] v]|e| |] eqn:Es; try done.
    injection E as <-. destruct (SignatureValues_nonneg _ _ _ _ _ Hs Es) as (? & ? & ?). split; [destruct Hok; by split|]. split; [done|]. by split_and!.
Qed.

(** C24: The caches of a transaction are never seen: in every transaction a node
    can have, whatever was asked before and with which signers, [Hash] is the
    hash of the encoding, [Size] its length, and [Sender] what the signature
    says for the signer that is asked. *)
Theorem caches_transparent tx s : tx_reach tx → signer_ok s → tx_ok (data tx) ∧
  (Transaction_Hash tx).2 = Val (BytesToHash (keccak256 (rec_enc (data tx)))) ∧
  (Size tx).2 = Val (Zlen (rec_enc (data tx))) ∧
  (Sender s tx).2 = signer_Sender s tx.
Proof.
  intros Hr%reach_inv Hs. pose proof Hr as (Hok & Hl & _). split; [done|].
  split; [|by split; [apply Size_ok|apply Sender_ok]]. rewrite (proj1 (Hash_ok tx Hr)). unfold rlpHash.
  pose proof (rec_enc_ok _ Hok Hl) as E. unfold rec_Encode in E. by rewrite E, hash256_ok.
Qed.
End caches.

(** ** Signatures *)

(** What the C library documents: a signature is made of 64 bytes and a
    recovery id 0 or 1, has its values in range with [s] in the lower half,
    and recovers to the public key of the key it was made with. *)
Class Secp256k1Laws {secp : Secp256k1} : Prop :=
  sign_recovers msg key rs recid : Zlen msg = 32 → Zlen key = 32 → ec_seckey_verify key = true →
    ecdsa_sign_recoverable msg key = Some (rs, recid) →
    Zlen rs = 64 ∧ (recid = 0 ∨ recid = 1) ∧ sig_range (SetBytes (take 32 rs)) (SetBytes (drop 32 rs)) ∧
    ecdsa_recover_pubkey (rs ++ [Zbyte recid]) msg = Some (Zbyte 4 :: be_bytes 32 (ScalarBaseMult key).1 ++ be_bytes 32 (ScalarBaseMult key).2).
#[global] Arguments Secp256k1Laws : clear implicits.

Section signatures.
Context `{secp : Secp256k1}.

(** [Sender] accepts exactly the signatures of EIP 155 for its chain: [V]
    encodes the chain id and a recovery id 0 or 1, [R] and [S] are in range
    with [S] in the lower half, the public key is recovered from the hash of
    the content and the chain id, and its hash gives the address. *)
Theorem Sender_accepts s tx a : signer_ok s → tx_ok (data tx) → Zlen (sign_data (chainId s) (data tx)) < 2 ^ 63 →
  signer_Sender s tx = Val a ↔
  ∃ id, (id = 0 ∨ id = 1) ∧ sig_V (data tx) = 2 * chainId s + 35 + id ∧ sig_range (sig_R (data tx)) (sig_S (data tx)) ∧
    ∃ pub, Ecrecover (keccak256 (sign_data (chainId s) (data tx))) (be_bytes 32 (sig_R (data tx)) ++ be_bytes 32 (sig_S (data tx)) ++ [Zbyte id]) = Val (Zbyte 4 :: pub) ∧
      a = BytesToAddress (drop 12 (keccak256 pub)).
Proof.
  intros Hs Hok Hl. rewrite signer_Sender_iff by (done || apply (ok_V _ Hok)). rewrite Hash_sign_data by done. rewrite keccak256_hash. reflexivity.
Qed.

Lemma other_chain s s' tx a : signer_ok s → signer_ok s' → 0 ≤ sig_V (data tx) → chainId s' ≠ chainId s → signer_Sender s tx = Val a →
  signer_Sender s' tx = Err ErrInvalidChainId.
Proof.
  intros Hs Hs' HV Hne (id & Hid & EV & _)%signer_Sender_iff; [|done|done]. unfold signer_Sender, ChainId.
  rewrite EV, deriveChainId_EIP155, big_Cmp_eq by (done || apply Hs). by rewrite (proj2 (Z.eqb_neq _ _)).
Qed.

(** C19: A signature is good for one chain and has one form: a transaction that a
    signer accepts is refused by the signer of every other chain, and the same
    content with the mirrored signature, [N - S] for [S] and whatever [V], is
    refused by every signer. *)
Theorem signature_not_malleable s tx a : signer_ok s → tx_ok (data tx) → signer_Sender s tx = Val a →
  (∀ s', signer_ok s' → chainId s' ≠ chainId s → signer_Sender s' tx = Err ErrInvalidChainId) ∧
  (∀ s' v b, signer_ok s' → 0 ≤ v →
     signer_Sender s' (fresh (set_signature (sig_R (data tx)) (secp256k1_N - sig_S (data tx)) v (data tx))) ≠ Val b).
Proof.
  intros Hs Hok Ha. split; [intros s' Hs' Hne; by eapply other_chain; [apply Hs| |apply (ok_V _ Hok)| |]|].
  apply signer_Sender_iff in Ha as (_ & _ & _ & [_ HS] & _); [|done|apply (ok_V _ Hok)]. intros s' v b Hs' Hv Hb.
  apply signer_Sender_iff in Hb as (_ & _ & _ & [_ HS'] & _); [|done|done]. cbn [data fresh set_signature sig_S] in HS'.
  assert (secp256k1_N = 2 * secp256k1_halfN + 1) by reflexivity. lia.
Qed.

Lemma Zlen_hash h : Zlen (Hash_Bytes h) = 32.
Proof. unfold Zlen, Hash_Bytes. by rewrite length_be_bytes. Qed.

Context {laws : Secp256k1Laws secp}.

(** The signature that [Sign] makes with a 32-byte key. *)
Lemma Sign_ok h d key : Zlen h = 32 → ToECDSA d = Val key →
  Sign h key = if ec_seckey_verify d then match ecdsa_sign_recoverable h d with Some (rs, recid) => Val (rs ++ [Zbyte recid]) | None => Err ErrSignFailed end
               else Err ErrInvalidKey.
Proof.
  intros Hh. unfold ToECDSA, toECDSA. destruct (Z.eqb_spec (8 * Zlen d) 256) as [Hd|]; [|done]. cbn [andb negb].
  destruct (ScalarBaseMult d) as [x y] eqn:Exy. intros [= <-]. unfold Sign, secp256k1_Sign. cbn [key_D]. rewrite Hh.
  pose proof (SetBytes_range d) as Hr. replace (Zlen d) with 32 in Hr by lia.
  assert (PaddedBigBytes (SetBytes d) 32 = d) as ->.
  { rewrite PaddedBigBytes_be by (done || lia). unfold Zlen in Hd. replace (Z.to_nat 32) with (length d) by lia. apply be_bytes_SetBytes. }
  replace (Zlen d) with 32 by lia. by destruct (ec_seckey_verify d).
Qed.

Lemma Sign_signature h d key sig : Zlen h = 32 → ToECDSA d = Val key → Sign h key = Val sig → ∃ r s id,
  (id = 0 ∨ id = 1) ∧ sig_range r s ∧ sig = be_bytes 32 r ++ be_bytes 32 s ++ [Zbyte id] ∧
  recovered h sig (PubkeyToAddress key).
Proof.
  intros Hh Hk. rewrite (Sign_ok h d key Hh Hk). destruct (ec_seckey_verify d) eqn:Ev; [|done].
  destruct (ecdsa_sign_recoverable h d) as [[rs recid]|] eqn:Es; [|done]. intros [= <-].
  unfold ToECDSA, toECDSA in Hk. destruct (Z.eqb_spec (8 * Zlen d) 256) as [Hd|]; [|done]. cbn [andb negb] in Hk.
  destruct (sign_recovers h d rs recid Hh ltac:(lia) Ev Es) as (Hl & Hid & Hr & Hrec).
  destruct (ScalarBaseMult d) as [x y]. injection Hk as <-. cbn [fst snd] in Hrec. unfold Zlen in Hl.
  exists (SetBytes (take 32 rs)), (SetBytes (drop 32 rs)), recid. split_and!; [done|done| |].
  - pose proof (be_bytes_SetBytes (take 32 rs)) as E1. pose proof (be_bytes_SetBytes (drop 32 rs)) as E2.
    rewrite length_take, Nat.min_l in E1 by lia. rewrite length_drop in E2. replace (length rs - 32)%nat with 32%nat in E2 by lia.
    rewrite E1, E2, app_assoc. by rewrite take_drop.
  - exists (be_bytes 32 x ++ be_bytes 32 y). split.
    + unfold Ecrecover, RecoverPubkey, checkSignature. rewrite Hh. cbn [Z.eqb Pos.eqb negb].
      rewrite (proj2 (Z.eqb_eq _ _)) by (rewrite Zlen_app; unfold Zlen; cbn; lia). cbn [negb].
      rewrite app_nth2 by lia. replace (64 - length rs)%nat with 0%nat by lia. cbn [nth]. rewrite byteZ_Zbyte, Z.mod_small by lia.
      rewrite Z.geb_leb, (proj2 (Z.leb_gt _ _)) by lia. cbn [mbind outcome_bind]. by rewrite Hrec.
    + unfold PubkeyToAddress, FromECDSAPub. cbn [key_X key_Y drop]. by rewrite hash256_ok.
Qed.
Lemma SignatureValues_sig s r s' id : (id = 0 ∨ id = 1) → sig_range r s' →
  SignatureValues s (be_bytes 32 r ++ be_bytes 32 s' ++ [Zbyte id]) =
  Val (r, s', if chainId s =? 0 then 27 + id else 35 + id + chainIdMul s).
Proof.
  intros Hid [Hr Hs]. pose proof secp256k1_N_word. assert (secp256k1_halfN < secp256k1_N) by done. unfold SignatureValues.
  rewrite (proj2 (Z.eqb_eq _ 65)) by (rewrite !Zlen_app; unfold Zlen; by rewrite !length_be_bytes). cbn [negb].
  rewrite app_nth2, app_nth2 by (rewrite ?length_be_bytes; lia). rewrite !length_be_bytes. cbn [Nat.sub nth].
  rewrite byteZ_Zbyte, (Z.mod_small id) by lia.
  rewrite take_app_length' by (by rewrite length_be_bytes). rewrite drop_app_length' by (by rewrite length_be_bytes).
  rewrite take_app_length' by (by rewrite length_be_bytes). rewrite !SetBytes_be_bytes, !Z.mod_small by lia.
  unfold big_Sign. rewrite big_Cmp_eq. destruct (chainId s =? 0); cbn [negb]; do 2 f_equal; lia.
Qed.

(** C18: Signing and recovery: a transaction that [SignTx] signs for a chain with
    a key keeps its content, and has the address of the key as its sender on that
    chain; [SignTx] fails only if the C library refuses the key or cannot
    sign. *)
Theorem SignTx_Sender tx c d key : 0 < c → tx_ok (data tx) → ToECDSA d = Val key →
  let s := NewBoeSigner (Some c) in
  (∃ tx', SignTx tx s key = Val tx' ∧ same_content (data tx') (data tx) ∧ (Sender s tx').2 = Val (PubkeyToAddress key)) ∨
  (SignTx tx s key = Err ErrInvalidKey ∧ ec_seckey_verify d = false) ∨
  (SignTx tx s key = Err ErrSignFailed ∧ ecdsa_sign_recoverable (Hash_Bytes (types.Hash s tx)) d = None).
Proof.
  intros Hc Hok Hk s. assert (signer_ok s) as Hs by (split; cbn; lia).
  unfold SignTx. pose proof (Sign_ok _ d key (Zlen_hash (types.Hash s tx)) Hk) as Es.
  destruct (ec_seckey_verify d) eqn:Ev; [|right; left; by rewrite Es].
  destruct (ecdsa_sign_recoverable _ d) as [[rs recid]|] eqn:Ec; [|right; right; by rewrite Es].
  left. destruct (Sign_signature _ d key _ (Zlen_hash (types.Hash s tx)) Hk Es) as (r & s' & id & Hid & Hr & Esig & Hrec).
  rewrite Es, Esig. cbn [mbind outcome_bind]. unfold WithSignature. rewrite SignatureValues_sig by done.
  rewrite (proj2 (Z.eqb_neq _ 0)) by (cbn; lia). cbn [mbind outcome_bind]. eexists. split; [done|]. split; [by split_and!|].
  set (tx' := fresh _). assert (signer_Sender s tx' = Val (PubkeyToAddress key)) as Hsend.
  { apply signer_Sender_iff; [done|cbn; lia|]. exists id. split; [done|]. split; [cbn; lia|]. split; [done|].
    change (recovered (Hash_Bytes (types.Hash s tx)) (be_bytes 32 r ++ be_bytes 32 s' ++ [Zbyte id]) (PubkeyToAddress key)). by rewrite <- Esig. }
  unfold Sender, mbind, M_bind, gets. cbn [c_from tx' fresh]. by rewrite Hsend.
Qed.

(** The signer of chain id 0 does not accept its own signatures: it puts the
    recovery id plus 27 into [V] but subtracts 8 more when it recovers. *)
Theorem SignTx_chain0 tx d key tx' : ToECDSA d = Val key → SignTx tx (NewBoeSigner (Some 0)) key = Val tx' →
  (Sender (NewBoeSigner (Some 0)) tx').2 = Err ErrInvalidSig.
Proof.
  intros Hk. unfold SignTx. set (s := NewBoeSigner (Some 0)).
  destruct (Sign _ key) as [sig| | |] eqn:Es; try done. cbn [mbind outcome_bind].
  destruct (Sign_signature _ d key _ (Zlen_hash (types.Hash s tx)) Hk Es) as (r & s' & id & Hid & Hr & -> & _).
  unfold WithSignature. rewrite SignatureValues_sig by done. cbn [chainId s NewBoeSigner default from_option Z.eqb mbind outcome_bind].
  intros [= <-]. set (tx' := fresh _). assert (signer_Sender s tx' = Err ErrInvalidSig) as Hsend;
    [|unfold Sender, mbind, M_bind, gets; cbn [c_from tx' fresh]; by rewrite Hsend].
  assert (∀ v, v = 248 ∨ v = 249 → ValidateSignatureValues v r s' true = false) as Hv.
  { intros v Hv. destruct (ValidateSignatureValues v r s' true) eqn:E; [|done]. apply Validate_homestead in E as [_ E]. lia. }
  assert (signer_Sender s tx' = recoverPlain (types.Hash s tx') r s' (19 + id)) as -> by (by destruct Hid as [-> | ->]).
  unfold recoverPlain. destruct Hid as [-> | ->]; cbn; by rewrite Hv by (vm_compute; auto).
Qed.
End signatures.

(** ** Examples *)

(** A stand-in for the library: the signature holds the key. *)
#[local] Instance toy_secp : Secp256k1 := {|
  ec_seckey_verify k := (1 <=? SetBytes k) && (SetBytes k <? secp256k1_N);
  ecdsa_sign_recoverable msg k := Some (k ++ be_bytes 32 1, 0);
  ecdsa_recover_pubkey sig msg := Some (Zbyte 4 :: take 32 sig ++ be_bytes 32 0);
  ScalarBaseMult k := (SetBytes k, 0) |}.
#[local] Instance toy_laws : Secp256k1Laws toy_secp.
Proof.
  intros msg key rs recid _ Hk [H1%Z.leb_le H2%Z.ltb_lt]%andb_true_iff [= <- <-]. cbn [ScalarBaseMult ecdsa_recover_pubkey toy_secp fst snd].
  unfold Zlen in Hk. rewrite take_app_length', drop_app_length' by lia. split_and!; [|by left|by split|].
  - unfold Zlen. rewrite length_app, Nat2Z.inj_add, Hk. reflexivity.
  - rewrite <- app_assoc, take_app_length' by lia. do 3 f_equal. replace 32%nat with (length key) by lia. by rewrite be_bytes_SetBytes.
Qed.
Definition toy_key : list byte := be_bytes 32 7.
Definition toy_tx : Transaction := NewTransaction 3 0x1234 (Some 10) (Some 21000) (Some 1) [Zbyte 1; Zbyte 2].
(** Its signature for chain 1. *)
Definition toy_signed : Transaction := fresh (set_signature 7 1 37 (data toy_tx)).
Lemma toy_tx_ok : tx_ok (data toy_tx).
Proof. split; try done. by intros a [= <-]. Qed.
Lemma toy_signed_ok : tx_ok (data toy_signed).
Proof. split; try done. by intros a [= <-]. Qed.

Lemma Transaction_roundtrip_witness :
  ∃ b, EncodeRLP toy_tx = Val b ∧ decode_all DecodeRLP b = Val (store_size (Zlen b) (fresh (data toy_tx))).
Proof. apply Transaction_roundtrip; [apply toy_tx_ok|done|done]. Defined.
Lemma Transaction_decode_typed_witness :
  let b := [Zbyte 0xC0] in
  (∃ tx, decode_all DecodeRLP b = Val tx ∧ tx = store_size (Zlen b) (fresh (data tx)) ∧ tx_ok (data tx) ∧
     EncodeRLP tx = Val (rec_enc (data tx)) ∧ Zlen (rec_enc (data tx)) = Zlen b) ∨
  (∃ e, decode_all DecodeRLP b = Err e).
Proof. apply Transaction_decode_typed. done. Defined.
Lemma caches_transparent_witness :
  let tx := (Size (Sender (NewBoeSigner (Some 1)) toy_signed).1).1 in
  tx_ok (data tx) ∧ (Transaction_Hash tx).2 = Val (BytesToHash (keccak256 (rec_enc (data tx)))) ∧
  (Size tx).2 = Val (Zlen (rec_enc (data tx))) ∧ (Sender (NewBoeSigner (Some 2)) tx).2 = signer_Sender (NewBoeSigner (Some 2)) tx.
Proof.
  apply caches_transparent; [|by apply NewBoeSigner_ok]. apply reach_size, reach_sender; [by apply NewBoeSigner_ok|].
  apply (reach_new (data toy_signed)); [apply toy_signed_ok|by vm_compute].
Defined.
Lemma Sender_accepts_witness : let tx := toy_signed in let s := NewBoeSigner (Some 1) in
  signer_Sender s tx = Val 5 ↔
  ∃ id, (id = 0 ∨ id = 1) ∧ sig_V (data tx) = 2 * chainId s + 35 + id ∧ sig_range (sig_R (data tx)) (sig_S (data tx)) ∧
    ∃ pub, Ecrecover (keccak256 (sign_data (chainId s) (data tx))) (be_bytes 32 (sig_R (data tx)) ++ be_bytes 32 (sig_S (data tx)) ++ [Zbyte id]) = Val (Zbyte 4 :: pub) ∧
      5 = BytesToAddress (drop 12 (keccak256 pub)).
Proof. apply Sender_accepts; [by apply NewBoeSigner_ok|apply toy_signed_ok|by vm_compute]. Defined.
Lemma signature_not_malleable_witness :
  (∀ s', signer_ok s' → chainId s' ≠ 1 → signer_Sender s' toy_signed = Err ErrInvalidChainId) ∧
  (∀ s' v b, signer_ok s' → 0 ≤ v → signer_Sender s' (fresh (set_signature 7 (secp256k1_N - 1) v (data toy_signed))) ≠ Val b).
Proof.
  apply (signature_not_malleable (NewBoeSigner (Some 1)) toy_signed 1426801035812897900498011333220285683220263365931);
    [by apply NewBoeSigner_ok|apply toy_signed_ok|vm_compute; reflexivity].
Defined.
Definition toy_PrivateKey : PrivateKey := mkKey 7 7 0.
Lemma SignTx_Sender_witness : let s := NewBoeSigner (Some 1) in
  (∃ tx', SignTx toy_tx s toy_PrivateKey = Val tx' ∧ same_content (data tx') (data toy_tx) ∧ (Sender s tx').2 = Val (PubkeyToAddress toy_PrivateKey)) ∨
  (SignTx toy_tx s toy_PrivateKey = Err ErrInvalidKey ∧ ec_seckey_verify toy_key = false) ∨
  (SignTx toy_tx s toy_PrivateKey = Err ErrSignFailed ∧ ecdsa_sign_recoverable (Hash_Bytes (types.Hash s toy_tx)) toy_key = None).
Proof. apply SignTx_Sender; [lia|apply toy_tx_ok|vm_compute; reflexivity]. Defined.
Lemma SignTx_chain0_witness :
  (Sender (NewBoeSigner (Some 0)) (fresh (set_signature 7 1 27 (data toy_tx)))).2 = Err ErrInvalidSig.
Proof. apply (SignTx_chain0 toy_tx toy_key toy_PrivateKey); vm_compute; reflexivity. Defined.

(** A contract creation has two encodings: the missing recipient is an empty
    string or an empty list. *)
Example two_encodings : ∃ b1 b2 tx, b1 ≠ b2 ∧ decode_all DecodeRLP b1 = Val tx ∧ decode_all DecodeRLP b2 = Val tx.
Proof.
  exists (map Zbyte [0xC9; 3; 1; 1; 0x80; 1; 1; 1; 1; 1]), (map Zbyte [0xC9; 3; 1; 1; 0xC0; 1; 1; 1; 1; 1]).
  eexists. split; [done|]. split; vm_compute; reflexivity.
Qed.
(** An address that was set by hand is not a cached signature. *)
Example SetFrom_Sender s a tx : c_from tx = None → (Sender s (SetFrom a tx).1).2 = Panic.
Proof. intros E. unfold SetFrom, store_from, Sender, mbind, M_bind, gets, modify. rewrite E. done. Qed.
