(* ===== verification/TxList.v ===== *)
(** * Lists of transactions by nonce

    [src/txpool/tx_list.go]: the transactions of one account, kept in a map
    with a heap of their nonces and a cache of the sorted list.  A transaction
    is a value here: the caches inside a transaction do not matter to the
    list.  The order in which Go ranges over a map is unspecified; it is the
    argument [GoRange].  Then [TransactionsByPriceAndNonce] of
    [src/blockchain/types/transaction.go], which gives the transactions of
    many accounts to the miner. *)

From stdpp Require Import base tactics list numbers gmap sorting.
From S2P Require Import Prelude GoMath GoHeap RlpEncode RlpDecode RlpRecord Keccak TxTypes.

#[local] Open Scope Z_scope.

Class GoRange : Type := go_range : ∀ {A : Type}, gmap Z A → list (Z * A).

Module txlist.
Import types.

Definition Nonce (tx : Transaction) : Z := AccountNonce (data tx).
Definition GasPrice (tx : Transaction) : Z := Price (data tx).
Definition Gas (tx : Transaction) : Z := GasLimit (data tx).

(** ** txSortedMap *)

Record txSortedMap : Type := mkSortedMap {
  items : gmap Z Transaction;
  index : list Z;
  cache : option (list Transaction) }.
Definition newTxSortedMap : txSortedMap := mkSortedMap ∅ [] None.
Definition set_cache (c : option (list Transaction)) (m : txSortedMap) : txSortedMap := mkSortedMap (items m) (index m) c.

(** [sort.Sort] by nonces, which are distinct. *)
#[global] Instance nonce_le_dec : RelDecision (λ x y : Transaction, Nonce x ≤ Nonce y).
Proof. intros x y. apply _. Defined.
Definition sort_nonces (l : list Z) : list Z := merge_sort Z.le l.
Definition sort_txs (l : list Transaction) : list Transaction := merge_sort (λ x y, Nonce x ≤ Nonce y) l.

Abbreviation S := (M txSortedMap unit).

Section sortedmap.
Context {rng : GoRange}.

Definition Get (nonce : Z) (m : txSortedMap) : option Transaction := items m !! nonce.
Definition Put (tx : Transaction) (m : txSortedMap) : txSortedMap :=
  let nonce := Nonce tx in
  let index := match items m !! nonce with None => Push Z.ltb nonce (index m) | Some _ => index m end in
  mkSortedMap (<[nonce := tx]> (items m)) index None.

(** The transaction with a nonce of the index; a nil one would be
    dereferenced by the callers. *)
Definition take_item (nonce : Z) : S Transaction :=
  its ← gets items;
  tx ← or_panic (its !! nonce);
  modify (λ m, mkSortedMap (delete nonce (items m)) (index m) (cache m));;
  mret tx.
Definition set_index (l : list Z) : S unit := modify (λ m, mkSortedMap (items m) l (cache m)).

(** Each round takes a nonce off the index. *)
Fixpoint forward_loop (fuel : nat) (threshold : Z) : S (list Transaction) :=
  match fuel with
  | O => λ m, (m, NoFuel)
  | Datatypes.S fuel =>
      idx ← gets index;
      match idx with
      | [] => mret []
      | n0 :: _ =>
          if n0 <? threshold then
            '(nonce, idx) ← or_panic (Pop Z.ltb idx);
            set_index idx;;
            tx ← take_item nonce;
            rest ← forward_loop fuel threshold;
            mret (tx :: rest)
          else mret []
      end
  end.
Definition Forward (threshold : Z) : S (list Transaction) :=
  n ← gets (length ∘ index);
  removed ← forward_loop (Datatypes.S n) threshold;
  c ← gets cache;
  match c with
  | Some c => if (length c <? length removed)%nat then panic else modify (set_cache (Some (drop (length removed) c)))
  | None => mret tt
  end;;
  mret removed.

Definition Filter (f : Transaction → bool) : S (list Transaction) := λ m,
  let its := go_range (items m) in
  let removed := filter (λ tx, f tx = true) (snd <$> its) in
  let items' := foldl (λ its kv, if f kv.2 then delete kv.1 its else its) (items m) its in
  if Zlen removed >? 0 then (mkSortedMap items' (Init Z.ltb (fst <$> go_range items')) None, Val removed)
  else (mkSortedMap items' (index m) (cache m), Val removed).

(** From position [n] of the sorted index down to [threshold]. *)
Fixpoint cap_loop (n : nat) (threshold : nat) (idx : list Z) : S (list Transaction) :=
  match n with
  | O => mret []
  | Datatypes.S n =>
      if (threshold <? Datatypes.S n)%nat then
        nonce ← or_panic (idx !! n);
        tx ← take_item nonce;
        rest ← cap_loop n threshold idx;
        mret (tx :: rest)
      else mret []
  end.
(** A negative threshold runs into the index -1. *)
Definition Cap (threshold : Z) : S (list Transaction) :=
  n ← gets (size ∘ items);
  if Z.of_nat n <=? threshold then mret []
  else if threshold <? 0 then panic
  else
    idx ← gets (sort_nonces ∘ index);
    drops ← cap_loop n (Z.to_nat threshold) idx;
    set_index (Init Z.ltb (take (Z.to_nat threshold) idx));;
    c ← gets cache;
    match c with
    | Some c => if (length c <? length drops)%nat then panic else modify (set_cache (Some (take (length c - length drops) c)))
    | None => mret tt
    end;;
    mret drops.

Fixpoint find_nonce (nonce : Z) (i : nat) (l : list Z) : option nat :=
  match l with
  | [] => None
  | x :: l => if x =? nonce then Some i else find_nonce nonce (Datatypes.S i) l
  end.
Definition Remove (nonce : Z) : S bool := λ m,
  match items m !! nonce with
  | None => (m, Val false)
  | Some _ =>
      match find_nonce nonce 0 (index m) with
      | None => (mkSortedMap (delete nonce (items m)) (index m) None, Val true)
      | Some i =>
          match GoHeap.Remove Z.ltb i (index m) with
          | Some (_, idx) => (mkSortedMap (delete nonce (items m)) idx None, Val true)
          | None => (m, Panic)
          end
      end
  end.

Fixpoint ready_loop (fuel : nat) (next : Z) : S (list Transaction) :=
  match fuel with
  | O => λ m, (m, NoFuel)
  | Datatypes.S fuel =>
      idx ← gets index;
      match idx with
      | [] => mret []
      | n0 :: _ =>
          if n0 =? next then
            tx ← take_item next;
            '(_, idx) ← or_panic (Pop Z.ltb idx);
            set_index idx;;
            rest ← ready_loop fuel (u64 (next + 1));
            mret (tx :: rest)
          else mret []
      end
  end.
Definition Ready (start : Z) : S (list Transaction) :=
  idx ← gets index;
  match idx with
  | [] => mret []
  | n0 :: _ =>
      if n0 >? start then mret []
      else
        ready ← ready_loop (Datatypes.S (length idx)) n0;
        modify (set_cache None);;
        mret ready
  end.

Definition Len (m : txSortedMap) : Z := Z.of_nat (size (items m)).
Definition Flatten : S (list Transaction) := λ m,
  let c := match cache m with Some c => c | None => sort_txs (snd <$> go_range (items m)) end in
  (set_cache (Some c) m, Val c).
End sortedmap.

(** ** txList *)

Record txList : Type := mkTxList {
  strict : bool;
  txs : txSortedMap;
  costcap : Z;
  gascap : Z }.
Definition newTxList (strict : bool) : txList := mkTxList strict newTxSortedMap 0 0.
Definition set_txs (m : txSortedMap) (l : txList) : txList := mkTxList (strict l) m (costcap l) (gascap l).
Abbreviation L := (M txList unit).
Definition on_txs {A} (f : S A) : L A := λ l, let '(m, r) := f (txs l) in (set_txs m l, r).

Section txlist.
Context {rng : GoRange}.

Definition Overlaps (tx : Transaction) (l : txList) : bool := bool_decide (is_Some (Get (Nonce tx) (txs l))).
Definition Add (tx : Transaction) (priceBump : Z) (l : txList) : txList * (bool * option Transaction) :=
  let old := Get (Nonce tx) (txs l) in
  let refused :=
    match old with
    | Some old => big_Cmp (big_Div (GasPrice old * i64 (100 + i64 priceBump)) 100) (GasPrice tx) >=? 0
    | None => false
    end in
  if refused then (l, (false, None))
  else
    let costcap := if big_Cmp (costcap l) (Cost tx) <? 0 then Cost tx else costcap l in
    let gascap := if big_Cmp (gascap l) (Gas tx) <? 0 then Gas tx else gascap l in
    (mkTxList (strict l) (Put tx (txs l)) costcap gascap, (true, old)).
Definition list_Forward (threshold : Z) : L (list Transaction) := on_txs (Forward threshold).
Definition list_Filter (costLimit gasLimit : Z) : L (list Transaction * list Transaction) :=
  l ← gets (λ l, l);
  if (big_Cmp (costcap l) costLimit <=? 0) && (big_Cmp (gascap l) gasLimit <=? 0) then mret ([], [])
  else
    modify (λ l, mkTxList (strict l) (txs l) costLimit gasLimit);;
    removed ← on_txs (Filter (λ tx, (big_Cmp (Cost tx) costLimit >? 0) || (big_Cmp (Gas tx) gasLimit >? 0)));
    if strict l && (Zlen removed >? 0) then
      let lowest := foldl (λ lowest tx, if lowest >? Nonce tx then Nonce tx else lowest) MaxUint64 removed in
      invalids ← on_txs (Filter (λ tx, Nonce tx >? lowest));
      mret (removed, invalids)
    else mret (removed, []).
Definition list_Cap (threshold : Z) : L (list Transaction) := on_txs (Cap threshold).
Definition list_Remove (tx : Transaction) : L (bool * list Transaction) :=
  let nonce := Nonce tx in
  removed ← on_txs (Remove nonce);
  if negb removed then mret (false, [])
  else
    s ← gets strict;
    if s : bool then invalids ← on_txs (Filter (λ tx, Nonce tx >? nonce)); mret (true, invalids)
    else mret (true, []).
Definition list_Ready (start : Z) : L (list Transaction) := on_txs (Ready start).
Definition list_Len (l : txList) : Z := Len (txs l).
Definition Empty (l : txList) : bool := list_Len l =? 0.
Definition list_Flatten : L (list Transaction) := on_txs Flatten.
End txlist.
End txlist.

(** ** TransactionsByPriceAndNonce *)

Module byprice.
Import types txlist.

(** [TxByPrice.Less] *)
Definition price_less (x y : Transaction) : bool := big_Cmp (GasPrice x) (GasPrice y) >? 0.

Record TransactionsByPriceAndNonce : Type := mkByPrice {
  acc_txs : gmap Address (list Transaction);
  heads : list Transaction;
  bp_signer : BoeSigner }.
Abbreviation B := (M TransactionsByPriceAndNonce unit).
Definition set_heads (h : list Transaction) (t : TransactionsByPriceAndNonce) : TransactionsByPriceAndNonce := mkByPrice (acc_txs t) h (bp_signer t).
Definition set_acc_txs (m : gmap Address (list Transaction)) (t : TransactionsByPriceAndNonce) : TransactionsByPriceAndNonce := mkByPrice m (heads t) (bp_signer t).

Section byprice.
Context {secp : Secp256k1} {rng : GoRange}.

(** [acc, _ := Sender(signer, tx)] *)
Definition acc_of (signer : BoeSigner) (tx : Transaction) : outcome unit Address :=
  match (Sender signer tx).2 with
  | Val a => Val a
  | Err _ => Val 0
  | Panic => Panic
  | NoFuel => NoFuel
  end.

(** The range reads the entry when it comes to it.  An entry added under the
    sender's address, where that is not the key, is not visited. *)
Fixpoint heads_loop (signer : BoeSigner) (keys : list Address) (txs : gmap Address (list Transaction)) (heads : list Transaction)
    : outcome unit (gmap Address (list Transaction) * list Transaction) :=
  match keys with
  | [] => Val (txs, heads)
  | k :: keys =>
      match default [] (txs !! k) with
      | [] => Panic
      | tx :: rest => acc ← acc_of signer tx; heads_loop signer keys (<[acc := rest]> txs) (heads ++ [tx])
      end
  end.
Definition NewTransactionsByPriceAndNonce (signer : BoeSigner) (txs : gmap Address (list Transaction)) : outcome unit TransactionsByPriceAndNonce :=
  '(txs, heads) ← heads_loop signer (go_range txs).*1 txs [];
  Val (mkByPrice txs (Init price_less heads) signer).

Definition Peek (t : TransactionsByPriceAndNonce) : option Transaction := head (heads t).
Definition Pop : B unit :=
  h ← gets heads;
  '(_, h) ← or_panic (GoHeap.Pop price_less h);
  modify (set_heads h).
Definition Shift : B unit :=
  t ← gets (λ t, t);
  tx ← or_panic (head (heads t));
  acc ← (λ t, (t, acc_of (bp_signer t) tx));
  match acc_txs t !! acc with
  | Some (next :: rest) =>
      modify (set_acc_txs (<[acc := rest]> (acc_txs t)));;
      modify (set_heads (Fix price_less (<[0%nat := next]> (heads t)) 0))
  | _ => Pop
  end.
End byprice.
End byprice.
