(* ===== verification/TxListProps.v ===== *)
(** * Properties of the lists of transactions *)

From stdpp Require Import base tactics list numbers gmap sorting.
From S2P Require Import Prelude GoMath GoHeap RlpEncode RlpDecode RlpRecord Keccak TxTypes TxList.

#[local] Open Scope Z_scope.
Import types txlist.

(** Ranging over a map visits every entry once. *)
Class GoRangeLaws (rng : GoRange) : Prop := go_range_perm : ∀ {A} (m : gmap Z A), go_range m ≡ₚ map_to_list m.

#[global] Instance ltb_order : HeapOrder Z.ltb.
Proof. split; intros; zbool; lia. Qed.

(** ** Sorted lists and the map of their nonces *)

Definition nonce_lt (x y : Transaction) : Prop := Nonce x < Nonce y.
Abbreviation sorted := (StronglySorted nonce_lt).
Definition keyed (l : list Transaction) : list (Z * Transaction) := (λ tx, (Nonce tx, tx)) <$> l.
Definition of_list (l : list Transaction) : gmap Z Transaction := list_to_map (keyed l).

Lemma keyed_fst l : (keyed l).*1 = Nonce <$> l.
Proof. unfold keyed. rewrite <- list_fmap_compose. done. Qed.
Lemma keyed_snd l : (keyed l).*2 = l.
Proof. unfold keyed. rewrite <- list_fmap_compose. apply list_fmap_id. Qed.
Lemma sorted_nodup l : sorted l → NoDup (Nonce <$> l).
Proof.
  induction 1 as [|tx l Hl IH Hf]; [constructor|]. cbn. constructor; [|done]. intros (y & Hy & Hin)%list_elem_of_fmap. rewrite Forall_forall in Hf. specialize (Hf y Hin). unfold nonce_lt in Hf. lia.
Qed.
Lemma of_list_lookup l n tx : sorted l → of_list l !! n = Some tx ↔ tx ∈ l ∧ Nonce tx = n.
Proof.
  intros Hs. unfold of_list. rewrite <- elem_of_list_to_map by (rewrite keyed_fst; by apply sorted_nodup). unfold keyed. rewrite list_elem_of_fmap. split; [intros (y & [= -> ->] & Hy); done|]. intros [Hin <-]. by exists tx.
Qed.
Lemma of_list_size l : sorted l → size (of_list l) = length l.
Proof. intros Hs. unfold of_list. rewrite <- length_map_to_list, map_to_list_to_map by (rewrite keyed_fst; by apply sorted_nodup). apply length_fmap. Qed.
Lemma of_list_to_list l : sorted l → map_to_list (of_list l) ≡ₚ keyed l.
Proof. intros Hs. apply map_to_list_to_map. rewrite keyed_fst. by apply sorted_nodup. Qed.
Lemma of_list_ext l1 l2 : sorted l1 → sorted l2 → (∀ tx, tx ∈ l1 ↔ tx ∈ l2) → of_list l1 = of_list l2.
Proof. intros H1 H2 H. apply map_eq. intros n. apply option_eq. intros tx. rewrite !of_list_lookup by done. by rewrite H. Qed.
Lemma of_list_insert l l' tx : sorted l → sorted l' → (∀ x, x ∈ l' ↔ x = tx ∨ (x ∈ l ∧ Nonce x ≠ Nonce tx)) → of_list l' = <[Nonce tx := tx]> (of_list l).
Proof.
  intros H1 H2 H. apply map_eq. intros n. apply option_eq. intros x. rewrite of_list_lookup, H by done. destruct (decide (n = Nonce tx)) as [->|Hne].
  - rewrite lookup_insert_eq. split; [intros [[->|[_ Hx]] Hn]; [done|congruence]|]. intros [= ->]. split; [by left|done].
  - rewrite lookup_insert_ne, of_list_lookup by done. split; [intros [[->|[Hin _]] Hn]; [congruence|done]|]. intros [Hin <-]. split; [by right|done].
Qed.
Lemma of_list_delete l l' n : sorted l → sorted l' → (∀ x, x ∈ l' ↔ x ∈ l ∧ Nonce x ≠ n) → delete n (of_list l) = of_list l'.
Proof.
  intros H1 H2 H. apply map_eq. intros k. apply option_eq. intros x. rewrite of_list_lookup, H by done. destruct (decide (k = n)) as [->|Hne].
  - rewrite lookup_delete_eq. split; [done|]. intros [[_ Hn] Hk]. done.
  - rewrite lookup_delete_ne, of_list_lookup by done. split; [intros [Hin <-]; done|]. by intros [[Hin _] <-].
Qed.
Lemma sorted_filter (P : Transaction → Prop) `{!∀ x, Decision (P x)} l : sorted l → sorted (filter P l).
Proof.
  induction 1 as [|tx l Hl IH Hf]; [constructor|]. rewrite filter_cons. case_decide; [|done]. constructor; [done|]. apply Forall_forall. intros y [_ Hy]%list_elem_of_filter. rewrite Forall_forall in Hf. by apply Hf.
Qed.
Lemma sorted_app l1 l2 : sorted (l1 ++ l2) → sorted l1 ∧ sorted l2 ∧ ∀ x y, x ∈ l1 → y ∈ l2 → Nonce x < Nonce y.
Proof.
  induction l1 as [|a l1 IH]; cbn; [intros H; split_and!; [constructor|done|by intros x y ?%elem_of_nil]|]. intros H. apply StronglySorted_inv in H as [H Hf]. destruct (IH H) as (H1 & H2 & H3).
  rewrite Forall_app in Hf. destruct Hf as [Hf1 Hf2]. split_and!; [by constructor|done|]. intros x y [->|Hx]%elem_of_cons Hy; [|by apply H3]. rewrite Forall_forall in Hf2. by apply Hf2.
Qed.
Lemma sorted_perm l1 l2 : sorted l1 → sorted l2 → l1 ≡ₚ l2 → l1 = l2.
Proof.
  intros H1. revert l2. induction H1 as [|x l1 H1 IH Hf]; intros l2 H2 Hp; [by apply Permutation_nil_l in Hp|].
  destruct H2 as [|y l2 H2 Hf2]; [by apply Permutation_nil_r in Hp|]. rewrite Forall_forall in Hf. rewrite Forall_forall in Hf2.
  assert (x = y) as ->; [|f_equal; apply IH; [done|by apply Permutation_cons_inv in Hp]].
  assert (x ∈ y :: l2) as Hx by (rewrite <- Hp; by left). assert (y ∈ x :: l1) as Hy by (rewrite Hp; by left).
  apply elem_of_cons in Hx as [->|Hx]; [done|]. apply elem_of_cons in Hy as [->|Hy]; [done|]. specialize (Hf y Hy). specialize (Hf2 x Hx). unfold nonce_lt in *. lia.
Qed.

(** ** A sorted map holds a sorted list *)

Definition core (its : gmap Z Transaction) (idx : list Z) (l : list Transaction) : Prop :=
  sorted l ∧ Forall (λ tx, is_u64 (Nonce tx)) l ∧ its = of_list l ∧ heap_ok Z.ltb idx ∧ idx ≡ₚ Nonce <$> l.
(** The list is the one the map stands for; the cache, if any, is that list. *)
Definition repr (m : txSortedMap) (l : list Transaction) : Prop :=
  core (items m) (index m) l ∧ (cache m = None ∨ cache m = Some l).

Lemma core_root its n0 idx l : core its (n0 :: idx) l → ∃ tx l', l = tx :: l' ∧ Nonce tx = n0.
Proof.
  intros (Hs & _ & _ & Hh & Hp). destruct l as [|tx l]; [by apply Permutation_nil_r in Hp|]. exists tx, l. split; [done|].
  assert (n0 ∈ Nonce <$> tx :: l) as Hin by (rewrite <- Hp; by left). assert (Nonce tx ∈ n0 :: idx) as Htx by (rewrite Hp; by left).
  pose proof (heap_least Z.ltb _ n0 _ Hh eq_refl Htx) as Hle. apply list_elem_of_fmap in Hin as (y & -> & [->|Hy]%elem_of_cons); [done|].
  apply StronglySorted_inv in Hs as [_ Hf]. rewrite Forall_forall in Hf. specialize (Hf y Hy). unfold nonce_lt in Hf. zbool. lia.
Qed.
Lemma core_nil its idx l : core its idx l → idx = [] ↔ l = [].
Proof. intros (_ & _ & _ & _ & Hp). split; intros ->; [apply Permutation_nil_l in Hp; by destruct l|by apply Permutation_nil_r in Hp]. Qed.
Lemma core_tail its idx idx' tx l : core its idx (tx :: l) → heap_ok Z.ltb idx' → idx ≡ₚ Nonce tx :: idx' → core (delete (Nonce tx) its) idx' l.
Proof.
  intros (Hs & Hu & -> & _ & Hp) Hh' Hp'. apply StronglySorted_inv in Hs as Hs'. destruct Hs' as [Hsl Hf]. apply Forall_cons_iff in Hu as [_ Hu]. split_and!; [done|done| |done|].
  - apply of_list_delete; [done|done|]. intros x. rewrite elem_of_cons. rewrite Forall_forall in Hf. split.
    + intros Hx. split; [by right|]. specialize (Hf x Hx). unfold nonce_lt in Hf. lia.
    + intros [[->|Hx] Hne]; done.
  - rewrite Hp' in Hp. by apply Permutation_cons_inv in Hp.
Qed.
Lemma core_pop its idx tx l : core its idx (tx :: l) → ∃ idx', Pop Z.ltb idx = Some (Nonce tx, idx') ∧ core (delete (Nonce tx) its) idx' l ∧ its !! Nonce tx = Some tx.
Proof.
  intros Hc. pose proof Hc as (Hs & _ & Hi & Hh & _). destruct idx as [|n0 idx]; [apply core_nil in Hc as [Hc _]; by specialize (Hc eq_refl)|].
  destruct (core_root _ _ _ _ Hc) as (tx' & l' & [= <- <-] & Hn). destruct (Pop_ok Z.ltb (n0 :: idx) ltac:(done) Hh) as (x & idx' & Ep & [= <-] & Hh' & Hp).
  exists idx'. rewrite Hn. split; [done|]. rewrite <- Hn in *. split; [by eapply core_tail|]. rewrite Hi. apply of_list_lookup; [done|]. split; [by left|done].
Qed.
Lemma take_item_ok n tx m : items m !! n = Some tx → take_item n m = (mkSortedMap (delete n (items m)) (index m) (cache m), Val tx).
Proof. intros H. unfold take_item, gets, or_panic, modify, mbind, M_bind. by rewrite H. Qed.

Lemma below_none t tx l : sorted (tx :: l) → t ≤ Nonce tx → filter (λ x, Nonce x < t) (tx :: l) = [] ∧ filter (λ x, t ≤ Nonce x) (tx :: l) = tx :: l.
Proof.
  intros Hs Ht. apply StronglySorted_inv in Hs as [_ Hf]. assert (Forall (λ x, t ≤ Nonce x) (tx :: l)) as Ha by (constructor; [done|]; eapply List.Forall_impl with (2 := Hf); intros x Hx; unfold nonce_lt in Hx; lia).
  split.
  - induction Ha as [|x xs Hx _ IH]; [done|]. rewrite filter_cons_False; [done|lia].
  - induction Ha as [|x xs Hx _ IH]; [done|]. rewrite filter_cons_True by done. by f_equal.
Qed.
Lemma forward_loop_ok t fuel : ∀ l m, core (items m) (index m) l → (length l < fuel)%nat →
  ∃ m', forward_loop fuel t m = (m', Val (filter (λ x, Nonce x < t) l)) ∧ core (items m') (index m') (filter (λ x, t ≤ Nonce x) l) ∧ cache m' = cache m.
Proof.
  induction fuel as [|fuel IH]; intros l m Hc Hf; [lia|]. cbn [forward_loop]. unfold gets at 1, mbind at 1, M_bind at 1. destruct (index m) as [|n0 idx] eqn:Ei.
  - destruct (core_nil _ _ _ Hc) as [Hl _]. rewrite (Hl eq_refl) in *. exists m. rewrite Ei. done.
  - destruct (core_root _ _ _ _ Hc) as (tx & l' & -> & <-). pose proof Hc as (Hs & _). destruct (Z.ltb_spec (Nonce tx) t) as [Hlt|Hge].
    + destruct (core_pop _ _ _ _ Hc) as (idx' & Ep & Hc' & Elk). rewrite Ep. cbn [or_panic]. rewrite (bind_val _ _ _ m (Nonce tx, idx')) by done. cbv beta iota.
      rewrite (bind_val (set_index idx') _ m (mkSortedMap (items m) idx' (cache m)) tt) by done.
      rewrite (bind_val _ _ _ (mkSortedMap (delete (Nonce tx) (items m)) idx' (cache m)) tx) by (by rewrite (take_item_ok _ tx)).
      destruct (IH l' (mkSortedMap (delete (Nonce tx) (items m)) idx' (cache m))) as (m' & E & Hc'' & Hcache); [done|cbn in Hf; lia|]. rewrite (bind_val _ _ _ _ _ E).
      exists m'. rewrite filter_cons_True by done. rewrite (filter_cons_False (λ x, t ≤ Nonce x)) by lia. done.
    + destruct (below_none t tx l' Hs Hge) as [-> ->]. exists m. rewrite Ei. done.
Qed.
Lemma filter_split t l : sorted l → l = filter (λ x, Nonce x < t) l ++ filter (λ x, t ≤ Nonce x) l.
Proof.
  intros Hs. induction l as [|x l IH]; [done|]. destruct (Z.lt_ge_cases (Nonce x) t) as [Hlt|Hge].
  - rewrite filter_cons_True by done. rewrite (filter_cons_False (λ x, t ≤ Nonce x)) by lia. cbn. f_equal. apply IH. by apply StronglySorted_inv in Hs as [? _].
  - by destruct (below_none t x l Hs Hge) as [-> ->].
Qed.
Lemma Forward_ok t m l : repr m l → ∃ m', Forward t m = (m', Val (filter (λ x, Nonce x < t) l)) ∧ repr m' (filter (λ x, t ≤ Nonce x) l).
Proof.
  intros [Hc Hcache]. unfold Forward. rewrite (bind_val (gets _) _ m m (length (index m))) by done.
  destruct (forward_loop_ok t (Datatypes.S (length (index m))) l m Hc) as (m1 & E & Hc1 & Hcache1); [destruct Hc as (_ & _ & _ & _ & Hp); rewrite Hp, length_fmap; lia|].
  rewrite (bind_val _ _ _ _ _ E). rewrite (bind_val (gets cache) _ m1 m1 (cache m)) by (unfold gets; by rewrite Hcache1). pose proof (filter_split t l (proj1 Hc)) as Hsplit.
  destruct Hcache as [Ec|Ec]; rewrite Ec in *.
  - exists m1. split; [done|]. split; [done|]. by left.
  - pose proof (f_equal length Hsplit) as Hl. rewrite length_app in Hl. rewrite (proj2 (Nat.ltb_ge _ _)) by lia. eexists. split; [done|]. split; [done|]. right. cbn [cache set_cache]. f_equal. rewrite Hsplit at 2. by rewrite drop_app_length.
Qed.

Section laws.
Context {rng : GoRange} {laws : GoRangeLaws rng}.

(** Removing the entries of a predicate while ranging. *)
Lemma filter_loop (f : Transaction → bool) (l : list (Z * Transaction)) (its : gmap Z Transaction) : (∀ n tx, (n, tx) ∈ l → Nonce tx = n) → (∀ n tx, its !! n = Some tx → Nonce tx = n) → NoDup l.*1 → (∀ n tx, (n, tx) ∈ l → its !! n = Some tx) →
  ∀ n tx, foldl (λ its kv, if f kv.2 then delete kv.1 its else its) its l !! n = Some tx ↔ its !! n = Some tx ∧ ¬ ((n, tx) ∈ l ∧ f tx = true).
Proof.
  revert its. induction l as [|[k x] l IH]; intros its Hl Hi Hd Hin n tx; cbn [foldl fst snd].
  - split; [intros H; split; [done|]; by intros [?%elem_of_nil _]|by intros [? _]].
  - apply NoDup_cons in Hd as [Hk Hd]. cbn [fst] in Hk. rewrite IH.
    + destruct (f x) eqn:Ef.
      * rewrite lookup_delete_Some, elem_of_cons. split.
        -- intros [[Hne Hlk] Hno]. split; [done|]. intros [[[= -> ->]|H1] H2]; [done|by apply Hno].
        -- intros [Hlk Hno]. split; [split; [intros ->; apply Hno; split; [|]|done]|]. 
           ++ left. f_equal. rewrite (Hin n x) in Hlk by (by left). congruence.
           ++ rewrite (Hin n x) in Hlk by (by left). injection Hlk as <-. done.
           ++ intros [H1 H2]. apply Hno. split; [by right|done].
      * rewrite elem_of_cons. split; [intros [Hlk Hno]; split; [done|]; intros [[[= -> ->]|H1] H2]; [congruence|by apply Hno]|].
        intros [Hlk Hno]. split; [done|]. intros [H1 H2]. apply Hno. split; [by right|done].
    + intros n' tx' H. apply Hl. by right.
    + intros n' tx' H. apply Hi. destruct (f x); [by apply lookup_delete_Some in H as [_ ?]|done].
    + done.
    + intros n' tx' H. destruct (f x); [|apply Hin; by right]. apply lookup_delete_Some. split; [|apply Hin; by right]. intros ->. apply Hk. apply list_elem_of_fmap. by exists (n', tx').
Qed.
Lemma range_of_list l : sorted l → go_range (of_list l) ≡ₚ keyed l.
Proof. intros Hs. rewrite go_range_perm. by apply of_list_to_list. Qed.
Lemma Filter_ok f m l : repr m l → ∃ m' removed, Filter f m = (m', Val removed) ∧ removed ≡ₚ filter (λ x, f x = true) l ∧ repr m' (filter (λ x, f x = false) l).
Proof.
  intros [(Hs & Hu & Hi & Hh & Hp) Hcache]. unfold Filter. rewrite Hi. set (removed := filter _ _). set (its' := foldl _ _ _).
  pose proof (range_of_list l Hs) as Hr. assert (removed ≡ₚ filter (λ x, f x = true) l) as Hrem.
  { unfold removed. rewrite Hr. fold (keyed l).*2. by rewrite keyed_snd. }
  assert (sorted (filter (λ x, f x = false) l)) as Hs' by by apply sorted_filter.
  assert (its' = of_list (filter (λ x, f x = false) l)) as Hits.
  { apply map_eq. intros n. apply option_eq. intros tx. unfold its'. rewrite filter_loop.
    - rewrite !of_list_lookup by done. rewrite list_elem_of_filter. assert ((n, tx) ∈ go_range (of_list l) ↔ tx ∈ l ∧ Nonce tx = n) as ->.
      { rewrite Hr. unfold keyed. rewrite list_elem_of_fmap. split; [intros (y & [= -> ->] & Hy); done|]. intros [Hin <-]. by exists tx. }
      destruct (f tx); naive_solver.
    - intros n' x Hx. rewrite Hr in Hx. unfold keyed in Hx. by apply list_elem_of_fmap in Hx as (y & [= -> ->] & _).
    - intros n' x Hx. by apply of_list_lookup in Hx as [_ ?].
    - rewrite Hr. rewrite keyed_fst. by apply sorted_nodup.
    - intros n' x Hx. rewrite Hr in Hx. unfold keyed in Hx. apply list_elem_of_fmap in Hx as (y & [= -> ->] & Hy). by apply of_list_lookup. }
  assert (Forall (λ x, is_u64 (Nonce x)) (filter (λ x, f x = false) l)) as Hu'.
  { apply Forall_forall. intros x [_ Hx]%list_elem_of_filter. rewrite Forall_forall in Hu. by apply Hu. }
  destruct (Z.gtb_spec (Zlen removed) 0) as [Hgt|Hle].
  - eexists _, removed. split; [done|]. split; [done|]. split; [|by left]. split_and!; [done|done|done|apply Init_ok, _|]. cbn [index]. rewrite (proj2 (Init_ok Z.ltb _)). rewrite Hits. rewrite (range_of_list _ Hs'). by rewrite keyed_fst.
  - eexists _, removed. split; [done|]. split; [done|]. assert (removed = []) as E0 by (destruct removed; [done|]; unfold Zlen in Hle; cbn in Hle; lia).
    assert (filter (λ x, f x = false) l = l) as El.
    { rewrite E0 in Hrem. symmetry in Hrem. apply Permutation_nil_r in Hrem. clear -Hrem. induction l as [|x l IH]; [done|]. rewrite filter_cons in *. destruct (f x) eqn:Ef; [done|]. cbn in *. by f_equal; apply IH. }
    rewrite El in *. by split.
Qed.

(** The sorted index is the nonces in order. *)
Lemma sort_nonces_ok idx l : sorted l → idx ≡ₚ Nonce <$> l → sort_nonces idx = Nonce <$> l.
Proof.
  intros Hs Hp. unfold sort_nonces. apply (StronglySorted_unique Z.le).
  - apply StronglySorted_merge_sort; apply _.
  - clear Hp. induction Hs as [|x l Hs IH Hf]; [constructor|]. cbn. constructor; [done|]. apply Forall_fmap. eapply List.Forall_impl with (2 := Hf). intros y Hy. unfold nonce_lt in Hy. cbn. lia.
  - by rewrite merge_sort_Permutation.
Qed.
Lemma sort_txs_ok (l0 l : list Transaction) : sorted l → l0 ≡ₚ l → sort_txs l0 = l.
Proof.
  intros Hs Hp. unfold sort_txs. pose proof (merge_sort_Permutation (λ x y, Nonce x ≤ Nonce y) l0) as Hm.
  assert (StronglySorted (λ x y, Nonce x ≤ Nonce y) (merge_sort (λ x y, Nonce x ≤ Nonce y) l0)) as Hss.
  { refine (StronglySorted_merge_sort _ _); intros x y; [intros z|]; cbn; lia. }
  apply sorted_perm; [|done|by rewrite Hm]. assert (NoDup (Nonce <$> merge_sort (λ x y, Nonce x ≤ Nonce y) l0)) as Hd by (rewrite Hm, Hp; by apply sorted_nodup).
  revert Hss Hd. generalize (merge_sort (λ x y, Nonce x ≤ Nonce y) l0). clear. intros l1. induction 1 as [|x xs Hss IH Hf]; intros Hd; [constructor|]. cbn in Hd. apply NoDup_cons in Hd as [Hx Hd]. constructor; [by apply IH|].
  apply Forall_forall. intros y Hy. rewrite Forall_forall in Hf. specialize (Hf y Hy). unfold nonce_lt. cut (Nonce x ≠ Nonce y); [lia|]. intros E. apply Hx. rewrite E. by apply list_elem_of_fmap_2.
Qed.
Lemma sorted_snoc_delete l tx : sorted (l ++ [tx]) → delete (Nonce tx) (of_list (l ++ [tx])) = of_list l ∧ of_list (l ++ [tx]) !! Nonce tx = Some tx.
Proof.
  intros Hs. destruct (sorted_app _ _ Hs) as (H1 & _ & H3). split; [apply of_list_delete; [done|done|]|apply of_list_lookup; [done|]; split; [|done]; apply elem_of_app; right; by left].
  intros x. rewrite elem_of_app, list_elem_of_singleton. split; [intros Hx; split; [by left|]; specialize (H3 x tx Hx ltac:(by left)); lia|]. by intros [[Hx| ->] Hne].
Qed.
Lemma cap_loop_ok k rest idx0 c : ∀ l, sorted (l ++ rest) → ∀ its idx, its = of_list l → (k ≤ length l)%nat → idx0 = Nonce <$> (l ++ rest) →
  cap_loop (length l) k idx0 (mkSortedMap its idx c) = (mkSortedMap (of_list (take k l)) idx c, Val (reverse (drop k l))).
Proof.
  intros l. revert rest. induction l as [|tx l IH] using rev_ind; intros rest Hs its idx -> Hk Hidx; [by destruct k|].
  rewrite length_app, Nat.add_1_r. cbn [cap_loop]. rewrite length_app in Hk. cbn [length] in Hk. destruct (Nat.ltb_spec k (Datatypes.S (length l))) as [Hlt|Hge].
  - assert (idx0 !! length l = Some (Nonce tx)) as El by (rewrite Hidx, <- app_assoc, fmap_app, lookup_app_r by (by rewrite length_fmap); rewrite length_fmap, Nat.sub_diag; done).
    rewrite El. cbn [or_panic]. rewrite (bind_val _ _ _ (mkSortedMap (of_list (l ++ [tx])) idx c) (Nonce tx)) by done.
    destruct (sorted_snoc_delete l tx) as [Hdel Hlk]; [by apply sorted_app in Hs as [? _]|].
    rewrite (bind_val _ _ _ (mkSortedMap (of_list l) idx c) tx) by (rewrite (take_item_ok _ tx) by done; cbn [items index cache]; by rewrite Hdel).
    rewrite <- app_assoc in Hs, Hidx. rewrite (bind_val _ _ _ _ _ (IH ([tx] ++ rest) Hs _ idx eq_refl ltac:(lia) Hidx)).
    rewrite take_app_le, drop_app_le, reverse_app by lia. done.
  - rewrite take_ge, drop_ge by (rewrite length_app; cbn; lia). done.
Qed.
Lemma Cap_ok k m l : repr m l → 0 ≤ k → ∃ m', Cap k m = (m', Val (reverse (drop (Z.to_nat k) l))) ∧ repr m' (take (Z.to_nat k) l).
Proof.
  intros Hr Hk. pose proof Hr as [(Hs & Hu & Hi & Hh & Hp) Hcache]. unfold Cap. rewrite (bind_val (gets _) _ m m (length l)) by (unfold gets, compose; by rewrite Hi, of_list_size).
  destruct (Z.leb_spec (Z.of_nat (length l)) k) as [Hle|Hgt]; [exists m; by rewrite take_ge, drop_ge by lia|]. rewrite (proj2 (Z.ltb_ge _ _)) by lia.
  rewrite (bind_val (gets _) _ m m (Nonce <$> l)) by (unfold gets, compose; by rewrite (sort_nonces_ok _ l)).
  assert (cap_loop (length l) (Z.to_nat k) (Nonce <$> l) m = (mkSortedMap (of_list (take (Z.to_nat k) l)) (index m) (cache m), Val (reverse (drop (Z.to_nat k) l)))) as E.
  { destruct m as [its idx c]. apply (cap_loop_ok _ []); [by rewrite app_nil_r|done|lia|by rewrite app_nil_r]. }
  rewrite (bind_val _ _ _ _ _ E). set (m1 := mkSortedMap (of_list (take (Z.to_nat k) l)) (Init Z.ltb (take (Z.to_nat k) (Nonce <$> l))) (cache m)).
  rewrite (bind_val _ _ _ m1 tt) by done. rewrite (bind_val (gets cache) _ m1 m1 (cache m)) by done.
  assert (sorted (take (Z.to_nat k) l)) as Hs' by (rewrite <- (take_drop (Z.to_nat k) l) in Hs; by apply sorted_app in Hs as [? _]).
  assert (core (of_list (take (Z.to_nat k) l)) (Init Z.ltb (take (Z.to_nat k) (Nonce <$> l))) (take (Z.to_nat k) l)) as Hc.
  { split_and!; [done|by apply Forall_take|done|apply Init_ok, _|]. rewrite (proj2 (Init_ok Z.ltb _)). by rewrite fmap_take. }
  destruct Hcache as [Ec|Ec]; rewrite Ec.
  - exists m1. split; [done|]. split; [done|]. by left.
  - rewrite length_reverse, length_drop, (proj2 (Nat.ltb_ge _ _)) by lia. eexists. split; [done|]. split; [done|]. right. cbn [cache set_cache]. f_equal. f_equal. lia.
Qed.

(** Sorted insertion: the transaction with the same nonce is replaced. *)
Fixpoint insert_tx (tx : Transaction) (l : list Transaction) : list Transaction :=
  match l with
  | [] => [tx]
  | x :: l' => if Nonce tx <? Nonce x then tx :: l else if Nonce tx =? Nonce x then tx :: l' else x :: insert_tx tx l'
  end.
Lemma insert_tx_in tx l : sorted l → ∀ x, x ∈ insert_tx tx l ↔ x = tx ∨ (x ∈ l ∧ Nonce x ≠ Nonce tx).
Proof.
  induction 1 as [|y l Hl IH Hf]; intros x; cbn [insert_tx]; [rewrite list_elem_of_singleton, elem_of_nil; tauto|].
  assert (x ∈ l → Nonce y < Nonce x) as Hyx by (rewrite Forall_forall in Hf; apply Hf).
  destruct (Z.ltb_spec (Nonce tx) (Nonce y)) as [Hlt|Hge]; [|destruct (Z.eqb_spec (Nonce tx) (Nonce y)) as [He|Hne]]; rewrite ?elem_of_cons, ?IH.
  - split; [intros [->|[->|Hx]]; [by left| |]; right|]; [split; [by left|lia]|split; [by right|specialize (Hyx Hx); lia]|intros [->|[[->|Hx] Hn]]; tauto].
  - split; [intros [->|Hx]; [by left|right; split; [by right|specialize (Hyx Hx); lia]]|]. intros [->|[[->|Hx] Hn]]; [by left|lia|by right].
  - split; [intros [->|[->|[Hx Hn]]]; [|by left|]; right; (split; [tauto|lia])|]. intros [->|[[->|Hx] Hn]]; tauto.
Qed.
Lemma insert_tx_sorted tx l : sorted l → sorted (insert_tx tx l).
Proof.
  induction 1 as [|y l Hl IH Hf]; cbn [insert_tx]; [repeat constructor|].
  destruct (Z.ltb_spec (Nonce tx) (Nonce y)) as [Hlt|Hge]; [|destruct (Z.eqb_spec (Nonce tx) (Nonce y)) as [He|Hne]].
  - constructor; [by constructor|]. constructor; [done|]. eapply List.Forall_impl with (2 := Hf). unfold nonce_lt. intros x. lia.
  - constructor; [done|]. eapply List.Forall_impl with (2 := Hf). unfold nonce_lt. intros x. lia.
  - constructor; [done|]. apply Forall_forall. intros x [->|[Hx _]]%insert_tx_in; [unfold nonce_lt; lia| |done]. rewrite Forall_forall in Hf. by apply Hf.
Qed.
Lemma insert_tx_nonces tx l : sorted l →
  Nonce <$> insert_tx tx l ≡ₚ match of_list l !! Nonce tx with None => Nonce tx :: (Nonce <$> l) | Some _ => Nonce <$> l end.
Proof.
  intros Hs. apply NoDup_Permutation; [by apply sorted_nodup, insert_tx_sorted| |].
  - destruct (of_list l !! Nonce tx) as [y|] eqn:El; [by apply sorted_nodup|]. constructor; [|by apply sorted_nodup].
    intros (y & Hy & Hin)%list_elem_of_fmap. assert (of_list l !! Nonce tx = Some y) by (by apply of_list_lookup). congruence.
  - intros n. rewrite list_elem_of_fmap. setoid_rewrite insert_tx_in; [|done]. destruct (of_list l !! Nonce tx) as [y|] eqn:El.
    + apply of_list_lookup in El as [Hy Hn]; [|done]. rewrite list_elem_of_fmap. split.
      * intros (x & -> & [->|[Hx _]]); [by exists y|by exists x].
      * intros (x & -> & Hx). destruct (decide (Nonce x = Nonce tx)) as [E|E]; [exists tx; by split; [|left]|exists x; by split; [|right]].
    + rewrite elem_of_cons, list_elem_of_fmap. split.
      * intros (x & -> & [->|[Hx _]]); [by left|right; by exists x].
      * intros [->|(x & -> & Hx)]; [exists tx; by split; [|left]|]. destruct (decide (Nonce x = Nonce tx)) as [E|E]; [exists tx; by split; [|left]|exists x; by split; [|right]].
Qed.
Lemma Put_ok tx m l : is_u64 (Nonce tx) → repr m l → repr (Put tx m) (insert_tx tx l).
Proof.
  intros Htx [(Hs & Hu & Hi & Hh & Hp) _]. split; [|by left]. pose proof (insert_tx_sorted tx l Hs) as Hs'. split_and!; [done| |cbn [Put items]; rewrite Hi; symmetry; apply of_list_insert; [done|done|by apply insert_tx_in]| |]; cbn [Put items index].
  - apply Forall_forall. intros x [->|[Hx _]]%insert_tx_in; [done| |done]. rewrite Forall_forall in Hu. by apply Hu.
  - destruct (items m !! Nonce tx); [done|]. exact (proj1 (Push_ok Z.ltb _ _ Hh)).
  - rewrite insert_tx_nonces, <- Hi by done. destruct (items m !! Nonce tx); [done|]. rewrite (proj2 (Push_ok Z.ltb _ _ Hh)). by rewrite Hp.
Qed.

Lemma find_nonce_ok n l : ∀ i j, find_nonce n i l = Some j → ∃ k, j = (i + k)%nat ∧ l !! k = Some n.
Proof.
  induction l as [|x l IH]; intros i j; cbn [find_nonce]; [done|]. destruct (Z.eqb_spec x n) as [->|_]; [intros [= <-]; exists 0%nat; split; [lia|done]|].
  intros (k & -> & Hk)%IH. exists (Datatypes.S k). split; [lia|done].
Qed.
Lemma find_nonce_some n l : n ∈ l → ∀ i, is_Some (find_nonce n i l).
Proof. induction l as [|x l IH]; intros Hin i; [by apply elem_of_nil in Hin|]. cbn [find_nonce]. destruct (Z.eqb_spec x n) as [->|Hne]; [done|]. apply IH. apply elem_of_cons in Hin as [->|?]; done. Qed.
Lemma Remove_txs_ok n m l : repr m l → ∃ m', Remove n m = (m', Val (bool_decide (n ∈ Nonce <$> l))) ∧ repr m' (filter (λ x, Nonce x ≠ n) l).
Proof.
  intros Hr. pose proof Hr as [(Hs & Hu & Hi & Hh & Hp) Hc]. unfold Remove. rewrite Hi. destruct (of_list l !! n) as [tx|] eqn:El.
  - apply of_list_lookup in El as [Hin Hn]; [|done]. assert (n ∈ Nonce <$> l) as Hnl by (rewrite <- Hn; by apply list_elem_of_fmap_2). rewrite bool_decide_true by done.
    destruct (find_nonce_some n (index m)) with (i := 0%nat) as [j Ej]; [by rewrite Hp|]. rewrite Ej. apply find_nonce_ok in Ej as (k & -> & Ek).
    destruct (GoHeap.Remove_ok Z.ltb (index m) k n Hh Ek) as (idx' & Er & Hh' & Hp'). cbn [Nat.add]. rewrite Er. eexists. split; [done|]. split; [|by left].
    assert (sorted (filter (λ x, Nonce x ≠ n) l)) as Hs' by (by apply sorted_filter).
    split_and!; [done| |by apply of_list_delete; [..|intros x; rewrite list_elem_of_filter; tauto]|done|].
    + apply Forall_forall. intros x [_ Hx]%list_elem_of_filter. rewrite Forall_forall in Hu. by apply Hu.
    + cbn [index]. apply NoDup_Permutation; [|by apply sorted_nodup|].
      * assert (NoDup (n :: idx')) as Hd by (rewrite <- Hp', Hp; by apply sorted_nodup). by apply NoDup_cons in Hd as [_ ?].
      * intros k'. assert (NoDup (n :: idx')) as Hd by (rewrite <- Hp', Hp; by apply sorted_nodup). apply NoDup_cons in Hd as [Hni _].
        assert (k' ∈ n :: idx' ↔ k' ∈ Nonce <$> l) as Hk by (by rewrite <- Hp', Hp). rewrite elem_of_cons in Hk. rewrite !list_elem_of_fmap in *. setoid_rewrite list_elem_of_filter.
        split; [intros Hx; destruct (proj1 Hk (or_intror Hx)) as (y & -> & Hy); exists y; split; [done|]; split; [|done]; by intros <-|].
        intros (y & -> & Hne & Hy). destruct (proj2 Hk) as [?|?]; [by exists y|done|done].
  - assert (n ∉ Nonce <$> l) as Hnl. { intros (y & -> & Hy)%list_elem_of_fmap. assert (of_list l !! Nonce y = Some y) by (by apply of_list_lookup). congruence. }
    rewrite bool_decide_false by done. exists m. split; [done|]. assert (filter (λ x, Nonce x ≠ n) l = l) as ->; [|done].
    clear -Hnl. induction l as [|x l IH]; [done|]. cbn in Hnl. apply not_elem_of_cons in Hnl as [Hx Hl]. rewrite filter_cons_True by (intros E; by apply Hx). by rewrite IH.
Qed.

(** The run of consecutive nonces from [next] on. *)
Fixpoint run_from (next : Z) (l : list Transaction) : list Transaction :=
  match l with
  | [] => []
  | tx :: l' => if Nonce tx =? next then tx :: run_from (next + 1) l' else []
  end.
Definition ready_of (start : Z) (l : list Transaction) : list Transaction :=
  match l with [] => [] | tx :: _ => if Nonce tx >? start then [] else run_from (Nonce tx) l end.
Lemma ready_loop_ok fuel : ∀ next l m, core (items m) (index m) l → (length l < fuel)%nat → Forall (λ x, next ≤ Nonce x) l → 0 ≤ next →
  ∃ m', ready_loop fuel (u64 next) m = (m', Val (run_from next l)) ∧ core (items m') (index m') (drop (length (run_from next l)) l).
Proof.
  induction fuel as [|fuel IH]; intros next l m Hc Hf Hge H0; [lia|]. cbn [ready_loop]. unfold gets at 1, mbind at 1, M_bind at 1. destruct (index m) as [|n0 idx] eqn:Ei.
  - destruct (core_nil _ _ _ Hc) as [Hl _]. rewrite (Hl eq_refl) in *. exists m. rewrite Ei. done.
  - destruct (core_root _ _ _ _ Hc) as (tx & l' & -> & <-). pose proof Hc as (Hs & Hu & _). apply Forall_cons_iff in Hge as [Hge _]. apply Forall_cons_iff in Hu as [Hu _].
    cbn [run_from]. assert ((Nonce tx =? u64 next) = (Nonce tx =? next)) as ->.
    { rewrite u64_small; [done|]. unfold is_u64 in *. lia. }
    destruct (Z.eqb_spec (Nonce tx) next) as [En|Hne]; [|exists m; cbn [length drop]; by rewrite Ei].
    rewrite <- En. rewrite (u64_small (Nonce tx)) by done. destruct (core_pop _ _ _ _ Hc) as (idx' & Ep & Hc' & Elk).
    rewrite (bind_val _ _ _ (mkSortedMap (delete (Nonce tx) (items m)) (Nonce tx :: idx) (cache m)) tx) by (rewrite (take_item_ok _ tx) by done; by rewrite Ei).
    rewrite Ep. rewrite (bind_val _ _ _ (mkSortedMap (delete (Nonce tx) (items m)) (Nonce tx :: idx) (cache m)) (Nonce tx, idx')) by done. cbv beta iota.
    rewrite (bind_val (set_index idx') _ _ (mkSortedMap (delete (Nonce tx) (items m)) idx' (cache m)) tt) by done.
    destruct (IH (Nonce tx + 1) l' (mkSortedMap (delete (Nonce tx) (items m)) idx' (cache m))) as (m' & E & Hc''); [done|cbn in Hf; lia| |lia|].
    { apply StronglySorted_inv in Hs as [_ Hf']. eapply List.Forall_impl with (2 := Hf'). unfold nonce_lt. intros x. lia. }
    rewrite (bind_val _ _ _ _ _ E). exists m'. done.
Qed.
Lemma Ready_ok start m l : repr m l → ∃ m', Ready start m = (m', Val (ready_of start l)) ∧ repr m' (drop (length (ready_of start l)) l).
Proof.
  intros Hr. pose proof Hr as [Hc Hcache]. unfold Ready. rewrite (bind_val (gets _) _ m m (index m)) by done. destruct (index m) as [|n0 idx] eqn:Ei.
  - destruct (core_nil _ _ _ Hc) as [Hl _]. rewrite (Hl eq_refl) in *. by exists m.
  - destruct (core_root _ _ _ _ Hc) as (tx & l' & -> & <-). cbn [ready_of]. destruct (Z.gtb_spec (Nonce tx) start) as [Hgt|Hle]; [by exists m|].
    pose proof Hc as (Hs & Hu & _ & _ & Hp). apply Forall_cons_iff in Hu as [Hu _]. rewrite <- Ei in Hc.
    destruct (ready_loop_ok (Datatypes.S (length (Nonce tx :: idx))) (Nonce tx) (tx :: l') m Hc) as (m1 & E & Hc1).
    { rewrite Hp, length_fmap. lia. } { apply StronglySorted_inv in Hs as [_ Hf']. constructor; [done|]. eapply List.Forall_impl with (2 := Hf'). unfold nonce_lt. intros x. lia. } { unfold is_u64 in Hu. lia. }
    rewrite (u64_small (Nonce tx)) in E by done. rewrite (bind_val _ _ _ _ _ E). eexists. split; [done|]. split; [done|by left].
Qed.
Lemma Flatten_ok m l : repr m l → Flatten m = (set_cache (Some l) m, Val l) ∧ repr (set_cache (Some l) m) l.
Proof.
  intros [Hc Hcache]. split; [|split; [done|by right]]. unfold Flatten. pose proof Hc as (Hs & _ & Hi & _). destruct Hcache as [-> | ->]; [|done].
  rewrite (sort_txs_ok _ l); [done|done|]. rewrite Hi. rewrite (range_of_list l Hs). by rewrite keyed_snd.
Qed.
Lemma repr_Len m l : repr m l → Len m = Zlen l.
Proof. intros [(Hs & _ & Hi & _) _]. unfold Len, Zlen. by rewrite Hi, of_list_size. Qed.
Lemma repr_Get m l n : repr m l → Get n m = List.find (λ x, Nonce x =? n) l.
Proof.
  intros [(Hs & _ & Hi & _) _]. unfold Get. rewrite Hi. destruct (List.find _ l) as [tx|] eqn:Ef.
  - apply List.find_some in Ef as [Hin Hn]. apply of_list_lookup; [done|]. zbool. split; [by apply list_elem_of_In|done].
  - destruct (of_list l !! n) as [tx|] eqn:El; [|done]. apply of_list_lookup in El as [Hin Hn]; [|done]. apply list_elem_of_In in Hin. pose proof (List.find_none _ _ Ef _ Hin) as H. cbn in H. by rewrite Hn, Z.eqb_refl in H.
Qed.
Lemma repr_new : repr newTxSortedMap [].
Proof. split; [|by left]. split_and!; [constructor|constructor|done|by intros ?; cbn; lia|done]. Qed.
End laws.

(** ** The lists of an account *)

Inductive op : Type :=
  | OAdd (tx : Transaction) (priceBump : Z)
  | OForward (threshold : Z)
  | OFilter (costLimit gasLimit : Z)
  | OCap (threshold : Z)
  | ORemove (tx : Transaction)
  | OReady (start : Z)
  | OFlatten.
Inductive result : Type :=
  | RAdd (inserted : bool) (old : option Transaction)
  | RTxs (l : list Transaction)
  | RFilter (removed invalids : list Transaction)
  | RRemove (found : bool) (invalids : list Transaction).
(** Results that differ in the order of the transactions a map range found. *)
Definition same_result (r1 r2 : result) : Prop :=
  match r1, r2 with
  | RFilter x1 y1, RFilter x2 y2 => x1 ≡ₚ x2 ∧ y1 ≡ₚ y2
  | RRemove b1 x1, RRemove b2 x2 => b1 = b2 ∧ x1 ≡ₚ x2
  | _, _ => r1 = r2
  end.

Section lists.
Context {rng : GoRange}.

Definition exec (o : op) : L result :=
  match o with
  | OAdd tx bump => λ l, let '(l', (b, old)) := Add tx bump l in (l', Val (RAdd b old))
  | OForward t => r ← list_Forward t; mret (RTxs r)
  | OFilter c g => '(removed, invalids) ← list_Filter c g; mret (RFilter removed invalids)
  | OCap k => r ← list_Cap k; mret (RTxs r)
  | ORemove tx => '(b, invalids) ← list_Remove tx; mret (RRemove b invalids)
  | OReady s => r ← list_Ready s; mret (RTxs r)
  | OFlatten => r ← list_Flatten; mret (RTxs r)
  end.
Fixpoint exec_all (ops : list op) (l : txList) : list (outcome unit result) :=
  match ops with
  | [] => []
  | o :: ops => let '(l', r) := exec o l in r :: exec_all ops l'
  end.
End lists.

(** The same operations on a list of transactions in the order of their nonces. *)
Definition affordable (cost gas : Z) (tx : Transaction) : bool := (Cost tx <=? cost) && (Gas tx <=? gas).
Fixpoint prefix_of (f : Transaction → bool) (l : list Transaction) : list Transaction :=
  match l with [] => [] | x :: l => if f x then x :: prefix_of f l else [] end.
Definition spec (strict : bool) (o : op) (l : list Transaction) : list Transaction * result :=
  match o with
  | OAdd tx bump =>
      let old := List.find (λ x, Nonce x =? Nonce tx) l in
      if match old with Some old => GasPrice tx <=? GasPrice old * (100 + bump) / 100 | None => false end then (l, RAdd false None)
      else (insert_tx tx l, RAdd true old)
  | OForward t => (filter (λ x, t ≤ Nonce x) l, RTxs (filter (λ x, Nonce x < t) l))
  | OFilter c g =>
      let removed := filter (λ x, affordable c g x = false) l in
      if strict then (prefix_of (affordable c g) l, RFilter removed (filter (λ x, affordable c g x = true) (drop (length (prefix_of (affordable c g) l)) l)))
      else (filter (λ x, affordable c g x = true) l, RFilter removed [])
  | OCap k => (take (Z.to_nat k) l, RTxs (reverse (drop (Z.to_nat k) l)))
  | ORemove tx =>
      let n := Nonce tx in
      if bool_decide (n ∈ Nonce <$> l) then
        if strict then (filter (λ x, Nonce x < n) l, RRemove true (filter (λ x, n < Nonce x) l)) else (filter (λ x, Nonce x ≠ n) l, RRemove true [])
      else (l, RRemove false [])
  | OReady s => (drop (length (ready_of s l)) l, RTxs (ready_of s l))
  | OFlatten => (l, RTxs l)
  end.
Fixpoint spec_all (strict : bool) (ops : list op) (l : list Transaction) : list result :=
  match ops with
  | [] => []
  | o :: ops => let '(l', r) := spec strict o l in r :: spec_all strict ops l'
  end.
(** What the pool passes: nonces of 64 bits, a price bump that is a small
    percentage, a limit that is not negative. *)
Definition valid_op (o : op) : Prop :=
  match o with
  | OAdd tx bump => is_u64 (Nonce tx) ∧ 0 ≤ bump < 2 ^ 62
  | OCap k => 0 ≤ k
  | _ => True
  end.

(** *** The lowest unaffordable transaction *)
Lemma Cmp_gt x y : (big_Cmp x y >? 0) = (y <? x).
Proof. unfold big_Cmp. destruct (Z.compare_spec x y); cbn; symmetry; [apply Z.ltb_ge|apply Z.ltb_ge|apply Z.ltb_lt]; lia. Qed.
Lemma Cmp_le x y : (big_Cmp x y <=? 0) = (x <=? y).
Proof. unfold big_Cmp. destruct (Z.compare_spec x y); cbn; symmetry; [apply Z.leb_le|apply Z.leb_le|apply Z.leb_gt]; lia. Qed.
Lemma Cmp_ge x y : (big_Cmp x y >=? 0) = (y <=? x).
Proof. unfold big_Cmp. destruct (Z.compare_spec x y); cbn; symmetry; [apply Z.leb_le|apply Z.leb_gt|apply Z.leb_le]; lia. Qed.
Lemma Cmp_max x y : (if big_Cmp x y <? 0 then y else x) = Z.max x y.
Proof. unfold big_Cmp. destruct (Z.compare_spec x y); cbn; lia. Qed.
Lemma over_affordable c g tx : (big_Cmp (Cost tx) c >? 0) || (big_Cmp (Gas tx) g >? 0) = negb (affordable c g tx).
Proof. rewrite !Cmp_gt. unfold affordable. rewrite negb_andb, !Z.leb_antisym. by rewrite !negb_involutive. Qed.

Lemma lowest_ok l : ∀ a, let m := foldl (λ lowest tx, if lowest >? Nonce tx then Nonce tx else lowest) a l in
  m ≤ a ∧ (∀ x, x ∈ l → m ≤ Nonce x) ∧ (m = a ∨ ∃ x, x ∈ l ∧ m = Nonce x).
Proof.
  induction l as [|y l IH]; intros a; cbn [foldl]; [split_and!; [lia|by intros x ?%elem_of_nil|by left]|].
  destruct (IH (if a >? Nonce y then Nonce y else a)) as (H1 & H2 & H3). destruct (Z.gtb_spec a (Nonce y)) as [Hgt|Hle]; split_and!; try lia.
  - intros x [->|Hx]%elem_of_cons; [lia|by apply H2].
  - destruct H3 as [->|(x & Hx & ->)]; right; [exists y; split; [by left|done]|exists x; split; [by right|done]].
  - intros x [->|Hx]%elem_of_cons; [lia|by apply H2].
  - destruct H3 as [->|(x & Hx & ->)]; [by left|right; exists x; split; [by right|done]].
Qed.
(** A list is a prefix that satisfies [f], and what follows the first element that does not. *)
Lemma run_split f l : (prefix_of f l = l ∧ Forall (λ x, f x = true) l) ∨
  ∃ r q, l = prefix_of f l ++ r :: q ∧ Forall (λ x, f x = true) (prefix_of f l) ∧ f r = false.
Proof.
  induction l as [|x l IH]; [by left|]. cbn. destruct (f x) eqn:Ef; [|right; by exists x, l]. destruct IH as [[-> Hl]|(r & q & E & Hf & Hr)]; [left; split; [done|by constructor]|].
  right. exists r, q. split; [cbn; by f_equal|]. split; [by constructor|done].
Qed.
Lemma filter_all (P : Transaction → Prop) `{!∀ x, Decision (P x)} l : Forall P l → filter P l = l.
Proof. induction 1 as [|x l Hx _ IH]; [done|]. rewrite filter_cons_True by done. by rewrite IH. Qed.
Lemma filter_none (P : Transaction → Prop) `{!∀ x, Decision (P x)} l : Forall (λ x, ¬ P x) l → filter P l = [].
Proof. induction 1 as [|x l Hx _ IH]; [done|]. by rewrite filter_cons_False. Qed.
Lemma lowest_first f l r q removed : sorted l → Forall (λ x, is_u64 (Nonce x)) l → l = prefix_of f l ++ r :: q → Forall (λ x, f x = true) (prefix_of f l) → f r = false →
  removed ≡ₚ filter (λ x, f x = false) l → foldl (λ lowest tx, if lowest >? Nonce tx then Nonce tx else lowest) MaxUint64 removed = Nonce r.
Proof.
  intros Hs Hu E Hf Hr Hrem. destruct (lowest_ok removed MaxUint64) as (H1 & H2 & H3). set (m := foldl _ _ _) in *.
  assert (r ∈ removed) as Hin by (rewrite Hrem; apply list_elem_of_filter; split; [done|]; rewrite E; apply elem_of_app; right; by left). specialize (H2 r Hin).
  assert (is_u64 (Nonce r)) as Hur by (rewrite Forall_forall in Hu; apply Hu; rewrite E; apply elem_of_app; right; by left). unfold is_u64, MaxUint64 in *.
  destruct H3 as [H3|(x & Hx & H3)]; [lia|]. rewrite Hrem in Hx. apply list_elem_of_filter in Hx as [Hfx Hx]. rewrite E in Hx, Hs. apply sorted_app in Hs as (_ & Hs & _).
  apply elem_of_app in Hx as [Hx|[->|Hx]%elem_of_cons]; [rewrite Forall_forall in Hf; specialize (Hf x Hx); cbn in Hf; congruence|done|].
  apply StronglySorted_inv in Hs as [_ Hq]. rewrite Forall_forall in Hq. specialize (Hq x Hx). unfold nonce_lt in Hq. lia.
Qed.
Lemma above_first (f : Transaction → bool) l r q : sorted l → l = prefix_of f l ++ r :: q → Forall (λ x, f x = true) (prefix_of f l) → f r = false →
  filter (λ x, (Nonce x >? Nonce r) = true) (filter (λ x, negb (f x) = false) l) = filter (λ x, f x = true) (drop (length (prefix_of f l)) l) ∧
  filter (λ x, (Nonce x >? Nonce r) = false) (filter (λ x, negb (f x) = false) l) = prefix_of f l.
Proof.
  intros Hs E Hf Hr. set (p := prefix_of f l) in *. clearbody p. subst l. rewrite drop_app_length. destruct (sorted_app _ _ Hs) as (_ & Hq & Hpq). apply StronglySorted_inv in Hq as [_ Hq].
  assert (filter (λ x, negb (f x) = false) (p ++ r :: q) = p ++ filter (λ x, f x = true) q) as ->.
  { rewrite filter_app, filter_cons_False by (by rewrite Hr). f_equal; [apply filter_all; eapply List.Forall_impl with (2 := Hf); intros x Hx; by rewrite Hx|].
    clear. induction q as [|x q IH]; [done|]. rewrite !filter_cons. destruct (f x); cbn; by rewrite IH. }
  rewrite !filter_app, (filter_cons_False _ r) by (by rewrite Hr). split.
  - rewrite (filter_none _ p), (filter_all _ (filter _ q)); [done| |].
    + apply Forall_forall. intros x [_ Hx]%list_elem_of_filter. rewrite Forall_forall in Hq. specialize (Hq x Hx). unfold nonce_lt in Hq. zbool. lia.
    + apply Forall_forall. intros x Hx. specialize (Hpq x r Hx ltac:(by left)). zbool. lia.
  - rewrite (filter_all _ p), (filter_none _ (filter _ q)); [by rewrite app_nil_r| |].
    + apply Forall_forall. intros x [_ Hx]%list_elem_of_filter. rewrite Forall_forall in Hq. specialize (Hq x Hx). unfold nonce_lt in Hq. zbool. lia.
    + apply Forall_forall. intros x Hx. specialize (Hpq x r Hx ltac:(by left)). zbool. lia.
Qed.

(** *** A list keeps its caps above its transactions *)
Definition capped (c g : Z) (l : list Transaction) : Prop := Forall (λ x, affordable c g x = true) l.
Definition lrepr (s : bool) (t : txList) (l : list Transaction) : Prop :=
  repr (txs t) l ∧ capped (costcap t) (gascap t) l ∧ strict t = s.

Section refines.
Context {rng : GoRange} {laws : GoRangeLaws rng}.

Lemma capped_filter c g (P : Transaction → Prop) `{!∀ x, Decision (P x)} l : capped c g l → capped c g (filter P l).
Proof. intros Hcl. apply Forall_forall. intros x [_ Hx]%list_elem_of_filter. unfold capped in Hcl. rewrite Forall_forall in Hcl. by apply Hcl. Qed.
Lemma capped_drop c g k l : capped c g l → capped c g (drop k l).
Proof. apply Forall_drop. Qed.
Lemma capped_prefix c g l : capped c g (prefix_of (affordable c g) l).
Proof. induction l as [|x l IH]; [constructor|]. cbn. destruct (affordable c g x) eqn:E; [by constructor|constructor]. Qed.
Lemma affordable_le c g c' g' x : c ≤ c' → g ≤ g' → affordable c g x = true → affordable c' g' x = true.
Proof. unfold affordable. intros H1 H2 [Ha Hb]%andb_true_iff. zbool. apply andb_true_iff. split; zbool; lia. Qed.
Lemma capped_le c g c' g' l : c ≤ c' → g ≤ g' → capped c g l → capped c' g' l.
Proof. intros H1 H2 H. eapply List.Forall_impl with (2 := H). intros x. by apply affordable_le. Qed.

(** An operation of the sorted map that removes transactions. *)
Lemma on_txs_ok {A} (f : S A) s t l m' l' v : lrepr s t l → f (txs t) = (m', Val v) → repr m' l' → capped (costcap t) (gascap t) l' →
  on_txs f t = (set_txs m' t, Val v) ∧ lrepr s (set_txs m' t) l'.
Proof. intros (_ & _ & Hst) E Hr Hc. unfold on_txs. rewrite E. done. Qed.

Lemma Add_ok s t l tx bump : lrepr s t l → is_u64 (Nonce tx) → 0 ≤ bump < 2 ^ 62 →
  ∃ t', exec (OAdd tx bump) t = (t', Val (spec s (OAdd tx bump) l).2) ∧ lrepr s t' (spec s (OAdd tx bump) l).1.
Proof.
  intros (Hr & Hc & Hst) Hu Hb. cbn [exec spec]. unfold Add. rewrite (repr_Get _ l) by done. rewrite (i64_small bump), i64_small by lia.
  assert (match List.find (λ x, Nonce x =? Nonce tx) l with Some old => big_Cmp (big_Div (GasPrice old * (100 + bump)) 100) (GasPrice tx) >=? 0 | None => false end =
    match List.find (λ x, Nonce x =? Nonce tx) l with Some old => GasPrice tx <=? GasPrice old * (100 + bump) / 100 | None => false end) as ->.
  { destruct (List.find _ l); [|done]. rewrite Cmp_ge. unfold big_Div. change (Z.sgn 100) with 1. change (Z.abs 100) with 100. by rewrite Z.mul_1_l. }
  destruct (match List.find _ l with Some _ => _ | None => _ end); [by exists t|]. rewrite !Cmp_max. eexists. split; [done|]. split; [|split; [|done]]; cbn [txs costcap gascap fst].
  - by apply Put_ok.
  - pose proof Hr as [(Hs & _) _]. apply Forall_forall. intros x [->|[Hx _]]%insert_tx_in; [unfold affordable; apply andb_true_iff; split; zbool; lia| |done].
    unfold capped in Hc. rewrite Forall_forall in Hc. specialize (Hc x Hx). eapply affordable_le; [..|exact Hc]; lia.
Qed.
Lemma list_Filter_ok s t l c g : lrepr s t l →
  ∃ t' removed invalids, list_Filter c g t = (t', Val (removed, invalids)) ∧ same_result (RFilter removed invalids) (spec s (OFilter c g) l).2 ∧ lrepr s t' (spec s (OFilter c g) l).1.
Proof.
  intros (Hr & Hc & Hst). unfold list_Filter. rewrite (bind_val (gets _) _ t t t) by done. rewrite !Cmp_le. pose proof Hr as [(Hs & Hu & _) _]. destruct (_ && _) eqn:Ecap.
  - exists t, [], []. split; [done|]. apply andb_true_iff in Ecap as [E1 E2]. zbool. assert (capped c g l) as Hcl by (by eapply capped_le).
    assert (prefix_of (affordable c g) l = l) as Ep. { clear -Hcl. induction Hcl as [|x l Hx _ IH]; [done|]. cbn. rewrite Hx. by f_equal. }
    cbn [spec]. rewrite Ep, drop_all, (filter_all (λ x, affordable c g x = true) l) by done. rewrite (filter_none (λ x, affordable c g x = false) l) by (eapply List.Forall_impl with (2 := Hcl); intros x Hx; by rewrite Hx). by destruct s.
  - rewrite (bind_val (modify _) _ t (mkTxList (strict t) (txs t) c g) tt) by done.
    destruct (Filter_ok (λ tx, (big_Cmp (Cost tx) c >? 0) || (big_Cmp (Gas tx) g >? 0)) _ _ Hr) as (m1 & removed & E1 & Hrem & Hr1).
    rewrite (bind_val _ _ _ (mkTxList (strict t) m1 c g) removed) by (unfold on_txs; cbn [txs]; by rewrite E1).
    assert (filter (λ x, (big_Cmp (Cost x) c >? 0) || (big_Cmp (Gas x) g >? 0) = true) l = filter (λ x, affordable c g x = false) l) as Ef.
    { clear. induction l as [|x l IH]; [done|]. rewrite !filter_cons, IH. rewrite over_affordable. by destruct (affordable c g x). }
    assert (filter (λ x, (big_Cmp (Cost x) c >? 0) || (big_Cmp (Gas x) g >? 0) = false) l = filter (λ x, negb (affordable c g x) = false) l) as Ef'.
    { clear. induction l as [|x l IH]; [done|]. rewrite !filter_cons, IH. by rewrite over_affordable. }
    assert (filter (λ x, negb (affordable c g x) = false) l = filter (λ x, affordable c g x = true) l) as Ef2.
    { clear. induction l as [|x l IH]; [done|]. rewrite !filter_cons, IH. by destruct (affordable c g x). }
    rewrite Ef in Hrem. rewrite Ef' in Hr1. rewrite Hst. cbn [spec]. destruct s; cbn [andb].
    + destruct (run_split (affordable c g) l) as [[Ep Hall]|(r & q & E & Hp & Hrf)].
      * rewrite filter_none in Hrem by (eapply List.Forall_impl with (2 := Hall); intros x Hx; by rewrite Hx). apply Permutation_nil_r in Hrem as ->. eexists _, [], []. split; [done|].
        rewrite Ep, drop_all, filter_none by (eapply List.Forall_impl with (2 := Hall); intros x Hx; by rewrite Hx). rewrite Ef2, filter_all in Hr1 by done. done.
      * assert (Zlen removed >? 0 = true) as ->.
        { assert (r ∈ removed) as Hin by (rewrite Hrem; apply list_elem_of_filter; split; [done|]; rewrite E; apply elem_of_app; right; by left). destruct removed; [by apply elem_of_nil in Hin|]. done. }
        rewrite (lowest_first (affordable c g) l r q removed) by done. destruct (above_first (affordable c g) l r q Hs E Hp Hrf) as [Ea Eb].
        destruct (Filter_ok (λ tx, Nonce tx >? Nonce r) _ _ Hr1) as (m2 & invalids & E2 & Hinv & Hr2). rewrite Ea in Hinv. rewrite Eb in Hr2.
        rewrite (bind_val _ _ _ (mkTxList true m2 c g) invalids) by (unfold on_txs; cbn [txs]; by rewrite E2).
        eexists _, removed, invalids. split; [done|]. split; [done|]. split; [done|]. split; [apply capped_prefix|done].
    + eexists _, removed, []. split; [done|]. split; [done|]. split; [by rewrite <- Ef2|]. split; [|done]. apply Forall_forall. by intros x [Hx _]%list_elem_of_filter.
Qed.
Lemma list_Remove_ok s t l tx : lrepr s t l →
  ∃ t' b invalids, list_Remove tx t = (t', Val (b, invalids)) ∧ same_result (RRemove b invalids) (spec s (ORemove tx) l).2 ∧ lrepr s t' (spec s (ORemove tx) l).1.
Proof.
  intros Hl. pose proof Hl as (Hr & Hc & Hst). destruct (Remove_txs_ok (Nonce tx) _ _ Hr) as (m1 & E1 & Hr1). destruct (on_txs_ok _ _ _ _ _ _ _ Hl E1 Hr1 (capped_filter _ _ _ _ Hc)) as [E1' Hl1].
  unfold list_Remove. rewrite (bind_val _ _ _ _ _ E1'). cbn [spec]. case_bool_decide as Hin; cbn [negb].
  - rewrite (bind_val (gets strict) _ _ (set_txs m1 t) s) by (unfold gets; by cbn; rewrite Hst). destruct s; [|by eexists _, _, _].
    destruct (Filter_ok (λ x, Nonce x >? Nonce tx) _ _ Hr1) as (m2 & invalids & E2 & Hinv & Hr2). destruct (on_txs_ok _ _ _ _ _ _ _ Hl1 E2 Hr2 (capped_filter _ _ _ _ (capped_filter _ _ _ _ Hc))) as [E2' Hl2].
    rewrite (bind_val _ _ _ _ _ E2'). eexists _, _, _. split; [done|]. rewrite list_filter_filter in Hinv. rewrite list_filter_filter in Hl2.
    split; [split; [done|]|].
    + etransitivity; [exact Hinv|]. apply reflexive_eq, list_filter_iff. intros x. zbool. lia.
    + eapply eq_rect; [exact Hl2|]. apply list_filter_iff. intros x. zbool. lia.
  - eexists _, _, _. split; [done|]. split; [done|]. cbn [fst]. rewrite (filter_all _ l) in Hl1; [done|]. apply Forall_forall. intros x Hx E. apply Hin. rewrite <- E. by apply list_elem_of_fmap_2.
Qed.
Lemma exec_ok s o t l : valid_op o → lrepr s t l →
  ∃ t' r, exec o t = (t', Val r) ∧ same_result r (spec s o l).2 ∧ lrepr s t' (spec s o l).1.
Proof.
  intros Hv Hl. pose proof Hl as (Hr & Hc & Hst). destruct o as [tx bump|n|c g|k|tx|n|]; cbn [exec valid_op] in *.
  - destruct (Add_ok s t l tx bump Hl (proj1 Hv) (proj2 Hv)) as (t' & E & Hl'). exists t', (spec s (OAdd tx bump) l).2. split; [done|]. split; [|done]. cbn [spec]. by case_match.
  - destruct (Forward_ok n _ _ Hr) as (m' & E & Hr'). destruct (on_txs_ok _ _ _ _ _ _ _ Hl E Hr' (capped_filter _ _ _ _ Hc)) as [E' Hl']. unfold list_Forward. rewrite (bind_val _ _ _ _ _ E'). by eexists _, _.
  - destruct (list_Filter_ok s t l c g Hl) as (t' & removed & invalids & E & Hs & Hl'). rewrite (bind_val _ _ _ _ _ E). by eexists _, _.
  - destruct (Cap_ok k _ _ Hr Hv) as (m' & E & Hr'). destruct (on_txs_ok _ _ _ _ _ _ _ Hl E Hr' (Forall_take _ _ _ Hc)) as [E' Hl']. unfold list_Cap. rewrite (bind_val _ _ _ _ _ E'). by eexists _, _.
  - destruct (list_Remove_ok s t l tx Hl) as (t' & b & invalids & E & Hs & Hl'). rewrite (bind_val _ _ _ _ _ E). by eexists _, _.
  - destruct (Ready_ok n _ _ Hr) as (m' & E & Hr'). destruct (on_txs_ok _ _ _ _ _ _ _ Hl E Hr' (capped_drop _ _ _ _ Hc)) as [E' Hl']. unfold list_Ready. rewrite (bind_val _ _ _ _ _ E'). by eexists _, _.
  - destruct (Flatten_ok _ _ Hr) as [E Hr']. destruct (on_txs_ok _ _ _ _ _ _ _ Hl E Hr' Hc) as [E' Hl']. unfold list_Flatten. rewrite (bind_val _ _ _ _ _ E'). by eexists _, _.
Qed.
Lemma exec_all_ok s ops : Forall valid_op ops → ∀ t l, lrepr s t l → Forall2 (λ o r, ∃ v, o = Val v ∧ same_result v r) (exec_all ops t) (spec_all s ops l).
Proof.
  induction 1 as [|o ops Ho _ IH]; intros t l Hl; [constructor|]. cbn [exec_all spec_all]. destruct (exec_ok s o t l Ho Hl) as (t' & r & E & Hs & Hl'). rewrite E. destruct (spec s o l) as [l' r'].
  constructor; [by exists r|]. by apply IH.
Qed.
(** C12: Any sequence of operations on the list of an account ([Add] with the
    price bump, [Forward], [Filter], [Cap], [Remove], [Ready], [Flatten])
    returns what the same operations return on a plain list sorted by nonce:
    the map, the heap of nonces and the cached order never disagree, the cost
    and gas caps never hide an unaffordable transaction, no operation panics,
    and a strict list loses everything after the first gap.  Only the order
    of the transactions [Filter] and [Remove] report is that of the map. *)
Theorem txList_refines s ops : Forall valid_op ops →
  Forall2 (λ o r, ∃ v, o = Val v ∧ same_result v r) (exec_all ops (newTxList s)) (spec_all s ops []).
Proof. intros Hv. apply exec_all_ok; [done|]. split; [apply repr_new|]. split; [constructor|done]. Qed.
End refines.

(** A range in the order of the representation, and a transaction to spare. *)
Definition in_order : GoRange := λ A m, map_to_list m.
#[global] Instance in_order_laws : GoRangeLaws in_order.
Proof. intros A m. done. Qed.
Definition transfer_at (nonce price : Z) : Transaction := NewTransaction nonce 1 (Some 5) (Some 21000) (Some price) [].
Definition some_ops : list op :=
  [OAdd (transfer_at 3 10) 10; OAdd (transfer_at 1 10) 10; OAdd (transfer_at 1 11) 10; OAdd (transfer_at 1 12) 10; OFlatten; OFilter 220000 21000; OReady 5].

Lemma txList_refines_witness : Forall valid_op some_ops ∧ spec_all true some_ops [] = [
    RAdd true None; RAdd true None; RAdd false None; RAdd true (Some (transfer_at 1 10)); RTxs [transfer_at 1 12; transfer_at 3 10];
    RFilter [transfer_at 1 12] [transfer_at 3 10]; RTxs []] ∧
  Forall2 (λ o r, ∃ v, o = Val v ∧ same_result v r) (exec_all (rng := in_order) some_ops (newTxList true)) (spec_all true some_ops []).
Proof.
  assert (Forall valid_op some_ops) as Hv by (repeat constructor; done).
  split; [done|]. split; [by vm_compute|]. exact (txList_refines true some_ops Hv).
Defined.

(** ** The order for the miner *)

Import byprice.
Section byprice.
Context {secp : Secp256k1} {rng : GoRange} {laws : GoRangeLaws rng} (sg : BoeSigner).
Implicit Types (R : gmap Address (list Transaction)).

Definition from (tx : Transaction) : Address := match (Sender sg tx).2 with Val a => a | _ => 0 end.

#[local] Instance price_order : HeapOrder price_less.
Proof.
  split.
  - intros x y. unfold price_less, big_Cmp. destruct (Z.compare_spec (GasPrice x) (GasPrice y)), (Z.compare_spec (GasPrice y) (GasPrice x)); cbn; done || lia.
  - intros x y z. unfold price_less, big_Cmp. destruct (Z.compare_spec (GasPrice x) (GasPrice y)), (Z.compare_spec (GasPrice y) (GasPrice z)), (Z.compare_spec (GasPrice x) (GasPrice z)); cbn; done || lia.
Qed.
Lemma price_less_false x y : price_less x y = false ↔ GasPrice x ≤ GasPrice y.
Proof. unfold price_less, big_Cmp. destruct (Z.compare_spec (GasPrice x) (GasPrice y)); cbn; split; done || lia. Qed.

(** The transactions of every account that has some, all sent by it. *)
Definition owned (a : Address) (l : list Transaction) : Prop := Forall (λ tx, (Sender sg tx).2 = Val a) l.
Definition grouped R : Prop := map_Forall (λ a l, l ≠ [] ∧ owned a l) R.
Definition first (l : list Transaction) : list Transaction := take 1 l.
Definition firsts R : list Transaction := map_to_list R ≫= λ kv, first kv.2.

(** The set [t] still has [R] to give. *)
Record gives (t : TransactionsByPriceAndNonce) R : Prop := {
  gv_signer : bp_signer t = sg;
  gv_grouped : grouped R;
  gv_heap : heap_ok price_less (heads t);
  gv_heads : heads t ≡ₚ firsts R;
  gv_rest a l : R !! a = Some l → acc_txs t !! a = Some (tail l) }.

Lemma firsts_delete R a x r : R !! a = Some (x :: r) → firsts R ≡ₚ x :: firsts (delete a R).
Proof. intros H. unfold firsts. rewrite <- (map_to_list_delete R a (x :: r)) by done. done. Qed.
Lemma firsts_insert R a x r : R !! a = None → firsts (<[a := x :: r]> R) ≡ₚ x :: firsts R.
Proof. intros H. unfold firsts. rewrite map_to_list_insert by done. done. Qed.
Lemma firsts_elem R x : x ∈ firsts R ↔ ∃ a r, R !! a = Some (x :: r).
Proof.
  unfold firsts. rewrite list_elem_of_bind. split.
  - intros ([a l] & Hx & Hin%elem_of_map_to_list). destruct l as [|y r]; cbn in Hx; [by apply elem_of_nil in Hx|]. apply list_elem_of_singleton in Hx as ->. by exists a, r.
  - intros (a & r & H). exists (a, x :: r). split; [by left|]. by apply elem_of_map_to_list.
Qed.

Lemma acc_of_ok tx a : (Sender sg tx).2 = Val a → acc_of sg tx = Val a.
Proof. unfold acc_of. by intros ->. Qed.
Lemma heads_loop_ok R : ∀ keys m hs, NoDup keys → (∀ k, k ∈ keys → m !! k = R !! k ∧ ∃ x r, R !! k = Some (x :: r) ∧ (Sender sg x).2 = Val k) →
  ∃ m' hs', heads_loop sg keys m hs = Val (m', hs ++ hs') ∧ hs' = keys ≫= (λ k, first (default [] (R !! k))) ∧
    (∀ k, k ∈ keys → m' !! k = tail <$> R !! k) ∧ ∀ k, k ∉ keys → m' !! k = m !! k.
Proof.
  induction keys as [|k keys IH]; intros m hs Hd Hk; cbn [heads_loop].
  - exists m, []. split; [by rewrite app_nil_r|]. split; [done|]. split; [by intros k ?%elem_of_nil|done].
  - apply NoDup_cons in Hd as [Hn Hd]. destruct (Hk k ltac:(by left)) as (Em & x & r & Ek & Hs). rewrite Em, Ek. cbn [default from_option id]. rewrite (acc_of_ok _ _ Hs). cbn [mbind outcome_bind].
    destruct (IH (<[k := r]> m) (hs ++ [x]) Hd) as (m' & hs' & E & Eh & Hin & Hout).
    + intros k' Hk'. rewrite lookup_insert_ne by (by intros ->). apply Hk. by right.
    + exists m', (x :: hs'). rewrite E, <- app_assoc. split; [done|]. split; [cbn; by rewrite Ek, Eh|]. split.
      * intros k' [->|Hk']%elem_of_cons; [rewrite Hout, lookup_insert_eq, Ek by done; done|by apply Hin].
      * intros k' [Hne Hk']%not_elem_of_cons. by rewrite Hout, lookup_insert_ne.
Qed.
Lemma New_gives R : grouped R → ∃ t, NewTransactionsByPriceAndNonce sg R = Val t ∧ gives t R.
Proof.
  intros HR. assert (NoDup (go_range R).*1) as Hd by (rewrite go_range_perm; apply NoDup_fst_map_to_list).
  assert (∀ k, k ∈ (go_range R).*1 ↔ is_Some (R !! k)) as Hkeys. { intros k. rewrite list_elem_of_fmap. split; [intros ([k' l] & -> & H); rewrite go_range_perm in H; apply elem_of_map_to_list in H; by exists l|intros [l H]; exists (k, l); split; [done|]; rewrite go_range_perm; by apply elem_of_map_to_list]. }
  destruct (heads_loop_ok R (go_range R).*1 R [] Hd) as (m' & hs' & E & Eh & Hin & _).
  { intros k [l Hl]%Hkeys. split; [done|]. destruct (HR k l Hl) as [Hne Ho]. destruct l as [|x r]; [done|]. exists x, r. split; [done|]. by apply Forall_cons_iff in Ho as [? _]. }
  unfold NewTransactionsByPriceAndNonce. rewrite E. cbn. eexists. split; [done|]. destruct (Init_ok price_less hs') as [Hok Hp].
  split; [done|done|done| |].
  - cbn [heads]. rewrite Hp, Eh. unfold firsts. rewrite <- (go_range_perm R). assert (∀ a l, (a, l) ∈ go_range R → R !! a = Some l) as Hl by (intros a l H; rewrite go_range_perm in H; by apply elem_of_map_to_list).
    clear E Eh Hd Hkeys Hin Hok Hp. revert Hl. generalize (go_range R). intros l. induction l as [|[a x] l IH]; intros Hl; [done|]. cbn. rewrite (Hl a x) by (by left). cbn. f_equiv. apply IH. intros b y Hb. apply Hl. by right.
  - intros a l Ha. cbn [acc_txs]. rewrite Hin, Ha by (apply Hkeys; by exists l). done.
Qed.

(** What the transaction on top is. *)
Definition best R (x : Transaction) : Prop := ∃ r, R !! from x = Some (x :: r) ∧ ∀ a y r', R !! a = Some (y :: r') → GasPrice y ≤ GasPrice x.
Lemma Peek_none t R : gives t R → Peek t = None → R = ∅.
Proof.
  intros Ht Hp. apply map_empty. intros a. destruct (R !! a) as [l|] eqn:E; [exfalso|done]. destruct (gv_grouped _ _ Ht a l E) as [Hne _]. destruct l as [|x r]; [done|].
  unfold Peek in Hp. destruct (heads t) eqn:Eh; [|done]. pose proof (gv_heads _ _ Ht) as H. rewrite Eh in H. assert (x ∈ firsts R) as Hx by (apply firsts_elem; by exists a, r). rewrite <- H in Hx. by apply elem_of_nil in Hx.
Qed.
Lemma Peek_best t R x : gives t R → Peek t = Some x → best R x ∧ (Sender sg x).2 = Val (from x).
Proof.
  intros Ht Hp. unfold Peek in Hp. destruct (heads t) as [|x' h] eqn:Eh; [done|]. injection Hp as ->.
  assert (x ∈ firsts R) as (a & r & Ha)%firsts_elem by (rewrite <- (gv_heads _ _ Ht), Eh; by left). destruct (gv_grouped _ _ Ht a _ Ha) as [_ Ho]. apply Forall_cons_iff in Ho as [Hs _].
  assert (from x = a) as Hfr by (unfold from; by rewrite Hs). split; [|by rewrite Hfr]. exists r. rewrite Hfr. split; [done|]. intros b y r' Hb. apply price_less_false. apply (heap_least price_less (heads t) x y); [apply Ht|by rewrite Eh|]. rewrite (gv_heads _ _ Ht). apply firsts_elem. by exists b, r'.
Qed.
Lemma Pop_gives t R x : gives t R → Peek t = Some x → ∃ t', Pop t = (t', Val tt) ∧ gives t' (delete (from x) R).
Proof.
  intros Ht Hp. destruct (Peek_best t R x Ht Hp) as [(r & Hr & _) _]. unfold Peek in Hp. assert (heads t ≠ []) as Hne by (by intros E; rewrite E in Hp).
  destruct (Pop_ok price_less (heads t) Hne (gv_heap _ _ Ht)) as (y & h' & E & Hy & Hok & Hperm). assert (y = x) as -> by (destruct (heads t); cbn in *; congruence).
  unfold Pop. erewrite (bind_val (gets _)) by done. rewrite E. erewrite (bind_val (or_panic _)) by done. eexists. split; [done|]. split; [apply Ht| |done| |].
  - apply map_Forall_delete, Ht.
  - cbn [heads set_heads]. pose proof (gv_heads _ _ Ht) as Hh. rewrite Hperm, (firsts_delete R (from x) x r) in Hh by done. by apply Permutation_cons_inv in Hh.
  - intros a l [Ha Hl]%lookup_delete_Some. by apply (gv_rest _ _ Ht).
Qed.
(** What is left of an account when its first transaction was taken. *)
Definition advance R (x : Transaction) : gmap Address (list Transaction) :=
  match tail (default [] (R !! from x)) with [] => delete (from x) R | r => <[from x := r]> R end.
Lemma Shift_gives t R x : gives t R → Peek t = Some x → ∃ t', Shift t = (t', Val tt) ∧ gives t' (advance R x).
Proof.
  intros Ht Hp. destruct (Peek_best t R x Ht Hp) as [(r & Hr & _) Hs]. destruct (Pop_gives t R x Ht Hp) as (tp & Ep & Hpop).
  unfold Shift, advance. erewrite (bind_val (gets _)) by done. unfold Peek in Hp. rewrite Hp. erewrite (bind_val (or_panic _)) by done. erewrite bind_val by (rewrite (gv_signer _ _ Ht), (acc_of_ok _ _ Hs); done).
  rewrite (gv_rest _ _ Ht _ _ Hr), Hr. cbn [tail default from_option id]. destruct r as [|y r]; [by exists tp|].
  assert (heads t ≠ []) as Hne by (by intros E; rewrite E in Hp). destruct (Fix_ok price_less (heads t) y Hne (gv_heap _ _ Ht)) as [Hok Hperm].
  eexists. split; [done|]. destruct (gv_grouped _ _ Ht _ _ Hr) as [_ Ho]. apply Forall_cons_iff in Ho as [_ Ho]. split; [apply Ht| |done| |].
  - apply map_Forall_insert_2; [by split|apply Ht].
  - cbn [heads set_heads]. rewrite Hperm. pose proof (gv_heads _ _ Ht) as Hh. destruct (heads t) as [|x' h]; [done|]. injection Hp as ->. cbn. rewrite (firsts_delete R (from x) x (y :: r)) in Hh by done. apply Permutation_cons_inv in Hh.
    rewrite <- insert_delete_eq, firsts_insert by apply lookup_delete_eq. by f_equiv.
  - intros a l. cbn [acc_txs set_heads set_acc_txs]. destruct (decide (a = from x)) as [->|Ha]; [rewrite !lookup_insert_eq; by intros [= <-]|rewrite !lookup_insert_ne by done; apply (gv_rest _ _ Ht)].
Qed.

(** ** Taking them all *)

(** A client that takes the transactions in turn, and goes on with the next of
    the account or drops the account. *)
Fixpoint drain (keep : Transaction → bool) (fuel : nat) : B (list Transaction) :=
  match fuel with
  | O => λ t, (t, NoFuel)
  | Datatypes.S fuel =>
      o ← gets Peek;
      match o with
      | None => mret []
      | Some x => (if keep x then Shift else Pop);; l ← drain keep fuel; mret (x :: l)
      end
  end.
Definition every R : list Transaction := map_to_list R ≫= snd.
(** What is to come from an account whose transactions are [l]. *)
Fixpoint taken (keep : Transaction → bool) (l : list Transaction) : list Transaction :=
  match l with [] => [] | x :: r => x :: if keep x then taken keep r else [] end.
(** What is left of the transactions [l] of [a] when [done] were taken. *)
Definition left_over (keep : Transaction → bool) (a : Address) (l : list Transaction) (done : list Transaction) : list Transaction :=
  foldl (λ l x, if bool_decide (from x = a) then (if keep x then tail l else []) else l) l done.
Definition next (keep : Transaction → bool) R (x : Transaction) := if keep x then advance R x else delete (from x) R.

Lemma every_delete R a l : R !! a = Some l → every R ≡ₚ l ++ every (delete a R).
Proof. intros H. unfold every. rewrite <- (map_to_list_delete R a l) by done. done. Qed.
Lemma every_insert R a l : R !! a = None → every (<[a := l]> R) ≡ₚ l ++ every R.
Proof. intros H. unfold every. rewrite map_to_list_insert by done. done. Qed.
Lemma next_every keep R x r : R !! from x = Some (x :: r) → (length (every (next keep R x)) < length (every R))%nat.
Proof.
  intros H. rewrite (every_delete R _ _ H), length_app. unfold next, advance. rewrite H. cbn [default from_option id tail]. destruct (keep x); cbn [length]; [|lia]. destruct r as [|y r]; [lia|].
  rewrite <- insert_delete_eq, every_insert by apply lookup_delete_eq. rewrite length_app. cbn [length]. lia.
Qed.
Lemma next_left keep R x r a : R !! from x = Some (x :: r) → default [] (next keep R x !! a) = left_over keep a (default [] (R !! a)) [x].
Proof.
  intros H. unfold next, advance, left_over. cbn [foldl]. rewrite H. cbn [default from_option id tail]. case_bool_decide as Ha.
  - subst a. rewrite H. cbn. destruct (keep x); [|by rewrite lookup_delete_eq]. destruct r; [by rewrite lookup_delete_eq|by rewrite lookup_insert_eq].
  - destruct (keep x); [|by rewrite lookup_delete_ne]. destruct r; [by rewrite lookup_delete_ne|by rewrite lookup_insert_ne].
Qed.

Lemma drain_ok keep : ∀ fuel t R, gives t R → (length (every R) < fuel)%nat → ∃ t' l, drain keep fuel t = (t', Val l) ∧
  (∀ a, filter (λ x, from x = a) l = taken keep (default [] (R !! a))) ∧
  ∀ l1 x l2 a y r, l = l1 ++ x :: l2 → left_over keep a (default [] (R !! a)) l1 = y :: r → GasPrice y ≤ GasPrice x.
Proof.
  induction fuel as [|fuel IH]; intros t R Ht Hf; [lia|]. cbn [drain]. erewrite (bind_val (gets _)) by done. destruct (Peek t) as [x|] eqn:Ep.
  2:{ exists t, []. split; [done|]. rewrite (Peek_none t R Ht Ep). split; [done|]. by intros [] ? ? ? ? ?. }
  destruct (Peek_best t R x Ht Ep) as [(r & Hr & Hbest) _]. assert (∃ t1, (if keep x then Shift else Pop) t = (t1, Val tt) ∧ gives t1 (next keep R x)) as (t1 & E1 & H1) by (unfold next; destruct (keep x); [by apply Shift_gives|by apply Pop_gives]).
  rewrite (bind_val _ _ _ _ _ E1). destruct (IH t1 _ H1) as (t' & l & E & Hfil & Hgr); [pose proof (next_every keep R x r Hr); lia|]. rewrite (bind_val _ _ _ _ _ E). exists t', (x :: l). split; [done|]. split.
  - intros a. rewrite filter_cons, Hfil, (next_left keep R x r a Hr). unfold left_over. cbn [foldl]. case_decide as Ha; [subst a; rewrite bool_decide_true by done; rewrite Hr; cbn; by destruct (keep x)|by rewrite bool_decide_false].
  - intros [|z l1] x' l2 a y r' Hl Hleft.
    + injection Hl as <- <-. unfold left_over in Hleft. cbn [foldl] in Hleft. apply (Hbest a y r'). destruct (R !! a); cbn in Hleft; congruence.
    + injection Hl as <- ->. apply (Hgr l1 x' l2 a y r' eq_refl). rewrite (next_left keep R x r a Hr). exact Hleft.
Qed.

(** C16: The set of transactions for a block gives the miner every account's
    transactions in the order of the pool, up to the first one after which the
    miner drops the account, and each time one with the highest price among
    the accounts' next transactions; it is empty after that. *)
Theorem by_price_order keep R : grouped R → ∃ t t' l, NewTransactionsByPriceAndNonce sg R = Val t ∧
  drain keep (Datatypes.S (length (every R))) t = (t', Val l) ∧
  (∀ a, filter (λ x, from x = a) l = taken keep (default [] (R !! a))) ∧
  ∀ l1 x l2 a y r, l = l1 ++ x :: l2 → left_over keep a (default [] (R !! a)) l1 = y :: r → GasPrice y ≤ GasPrice x.
Proof.
  intros HR. destruct (New_gives R HR) as (t & E & Ht). destruct (drain_ok keep (Datatypes.S (length (every R))) t R Ht ltac:(lia)) as (t' & l & Ed & H). by exists t, t', l.
Qed.
End byprice.

(** Every signature is refused; the transactions below know their sender. *)
Definition no_secp : Secp256k1 := {|
  ec_seckey_verify _ := false;
  ecdsa_sign_recoverable _ _ := None;
  ecdsa_recover_pubkey _ _ := None;
  ScalarBaseMult _ := (0, 0) |}.
(** Account 7 has a cheap transaction in front of a dear one. *)
Definition sent (a nonce price : Z) : Transaction := put_from (FromSig (mkSigner 1 2) a) (transfer_at nonce price).
Definition two_senders : gmap Address (list Transaction) := {[ 7 := [sent 7 0 5; sent 7 1 50]; 8 := [sent 8 0 10; sent 8 1 1] ]}.
Lemma by_price_order_witness : grouped (secp := no_secp) (mkSigner 1 2) two_senders ∧
  ∃ t t' l, NewTransactionsByPriceAndNonce (secp := no_secp) (rng := in_order) (mkSigner 1 2) two_senders = Val t ∧
    drain (secp := no_secp) (λ _, true) 5 t = (t', Val l) ∧ filter (λ x, from (secp := no_secp) (mkSigner 1 2) x = 7) l = [sent 7 0 5; sent 7 1 50] ∧
    GasPrice <$> l = [10; 5; 50; 1].
Proof.
  assert (grouped (secp := no_secp) (mkSigner 1 2) two_senders) as Hg.
  { unfold grouped, two_senders. apply map_Forall_insert_2; [split; [done|by repeat constructor]|]. apply map_Forall_singleton. split; [done|by repeat constructor]. }
  split; [exact Hg|]. destruct (by_price_order (secp := no_secp) (rng := in_order) (mkSigner 1 2) (λ _, true) two_senders Hg) as (t & t' & l & E & Ed & Hf & _).
  exists t, t', l. split; [exact E|]. split; [exact Ed|]. split; [exact (Hf 7)|]. change (drain (secp := no_secp) (λ _, true) 5 t = (t', Val l)) in Ed.
  apply (f_equal (λ o, match o with Val t => (drain (secp := no_secp) (λ _, true) 5 t).2 | _ => Panic end)) in E. cbv beta iota in E. rewrite Ed in E. cbn [snd] in E.
  apply (f_equal (λ o, match o with Val l => GasPrice <$> l | _ => [] end)) in E. cbv beta iota in E. rewrite <- E. vm_compute. reflexivity.
Defined.
