(* ===== verification/TrieKeys.v ===== *)
(** * Tries: key encodings

    Hex keys are lists of nibbles, with the terminator at the end where the
    node at the key has a value. *)

From stdpp Require Import base tactics list numbers gmap.
From S2P Require Import Prelude RlpEncode RlpEncodeFacts RlpDecode RlpRaw Trie.

#[local] Open Scope Z_scope.
Import trie.

#[global] Instance byteZ_inj : Inj (=) (=) byteZ.
Proof. intros b1 b2 E. by rewrite <- (Zbyte_byteZ b1), E, Zbyte_byteZ. Qed.

Definition nibble (b : byte) : Prop := byteZ b < 16.
Definition nibbles : list byte → Prop := Forall nibble.
Definition hexkey (k : list byte) : Prop := ∃ ns, k = ns ++ [terminator] ∧ nibbles ns.

Lemma nibble_terminator b : nibble b → b ≠ terminator.
Proof. intros H ->. unfold nibble in H. vm_compute in H. done. Qed.
Lemma nibble_Zbyte z : 0 ≤ z < 16 → nibble (Zbyte z).
Proof. intros H. unfold nibble. rewrite Zbyte_small; lia. Qed.

Lemma hasTerm_app ns : hasTerm (ns ++ [terminator]) = true.
Proof. unfold hasTerm. by rewrite last_snoc. Qed.
Lemma hasTerm_nibbles ns : nibbles ns → hasTerm ns = false.
Proof.
  intros H. unfold hasTerm. destruct (last ns) as [b|] eqn:E; [|done].
  apply bool_decide_eq_false, nibble_terminator.
  rewrite last_lookup in E. by eapply Forall_lookup in E.
Qed.
Lemma without_last_app ns b : without_last (ns ++ [b]) = ns.
Proof. unfold without_last. rewrite length_app. cbn. rewrite Nat.add_sub. apply take_app_length. Qed.

(** ** Keys of bytes *)

Fixpoint hex_nibbles (key : list byte) : list byte :=
  match key with
  | [] => []
  | b :: key => Zbyte (byteZ b / 16) :: Zbyte (byteZ b mod 16) :: hex_nibbles key
  end.
Lemma keybytesToHex_nibbles key : keybytesToHex key = hex_nibbles key ++ [terminator].
Proof. induction key as [|b key IH]; [done|]. cbn. by rewrite IH. Qed.
Lemma hex_nibbles_ok key : nibbles (hex_nibbles key).
Proof.
  induction key as [|b key IH]; [constructor|]. pose proof (byteZ_range b).
  constructor; [|constructor; [|done]]; apply nibble_Zbyte.
  - split; [apply Z.div_pos; lia|apply Z.div_lt_upper_bound; lia].
  - apply Z.mod_pos_bound. lia.
Qed.
Lemma keybytesToHex_hexkey key : hexkey (keybytesToHex key).
Proof. exists (hex_nibbles key). split; [apply keybytesToHex_nibbles|apply hex_nibbles_ok]. Qed.
Lemma keybytesToHex_length key : length (keybytesToHex key) = (2 * length key + 1)%nat.
Proof. induction key as [|b key IH]; [done|]. cbn. rewrite IH. lia. Qed.

Lemma join_nibbles hi lo : nibble hi → nibble lo →
  byteZ (Zbyte (Z.lor (Z.shiftl (byteZ hi) 4) (byteZ lo))) = 16 * byteZ hi + byteZ lo.
Proof.
  unfold nibble. intros. pose proof (byteZ_range hi). pose proof (byteZ_range lo).
  rewrite lor_shiftl_add by lia. rewrite Zbyte_small; lia.
Qed.

(** A proof that steps through a list by two. *)
Lemma list_pair_ind {A} (P : list A → Prop) : P [] → (∀ x, P [x]) → (∀ x y l, P l → P (x :: y :: l)) → ∀ l, P l.
Proof.
  intros H0 H1 H2 l. cut (P l ∧ ∀ x, P (x :: l)); [by intros []|].
  induction l as [|a l [IH1 IH2]]; split; auto.
Qed.

Lemma decodeNibbles_hex ns : nibbles ns → Nat.Even (length ns) →
  ∃ bs, decodeNibbles ns = Some bs ∧ hex_nibbles bs = ns.
Proof.
  induction ns as [|x|hi lo ns IH] using list_pair_ind; intros Hn He.
  - by exists [].
  - destruct He as [m He]. cbn in He. lia.
  - apply Forall_cons_iff in Hn as [Hhi [Hlo Hn]%Forall_cons_iff].
    destruct IH as (bs & E & Hbs); [done|destruct He as [m He]; exists (m - 1)%nat; cbn in He; lia|].
    eexists. cbn. rewrite E. split; [done|]. cbn. rewrite join_nibbles, Hbs by done.
    pose proof (byteZ_range lo). unfold nibble in *.
    rewrite <- (Z.div_unique (16 * byteZ hi + byteZ lo) 16 (byteZ hi) (byteZ lo)) by lia.
    rewrite <- (Z.mod_unique (16 * byteZ hi + byteZ lo) 16 (byteZ hi) (byteZ lo)) by lia.
    by rewrite !Zbyte_byteZ.
Qed.
Lemma decodeNibbles_hex_nibbles key : decodeNibbles (hex_nibbles key) = Some key.
Proof.
  induction key as [|b key IH]; [done|]. cbn [hex_nibbles decodeNibbles]. rewrite IH. cbn. do 2 f_equal.
  pose proof (byteZ_range b).
  assert (nibble (Zbyte (byteZ b / 16)) ∧ nibble (Zbyte (byteZ b mod 16))) as [H1 H2].
  { pose proof (hex_nibbles_ok [b]) as Hn. apply Forall_cons_iff in Hn as [? [? _]%Forall_cons_iff]. done. }
  apply (inj byteZ). rewrite join_nibbles by done.
  pose proof (Z.mod_pos_bound (byteZ b) 16 ltac:(lia)). pose proof (Z.div_pos (byteZ b) 16 ltac:(lia) ltac:(lia)).
  pose proof (Z.div_lt_upper_bound (byteZ b) 16 16 ltac:(lia) ltac:(lia)).
  rewrite !Zbyte_small by lia. symmetry. apply Z.div_mod. lia.
Qed.
Lemma hex_nibbles_length key : length (hex_nibbles key) = (2 * length key)%nat.
Proof. induction key as [|b key IH]; [done|]. cbn. rewrite IH. lia. Qed.

Lemma hexToKeybytes_keybytesToHex key : hexToKeybytes (keybytesToHex key) = Some key.
Proof.
  unfold hexToKeybytes. rewrite keybytesToHex_nibbles, hasTerm_app, without_last_app.
  unfold Zlen. rewrite hex_nibbles_length. replace (Z.of_nat (2 * length key)) with (Z.of_nat (length key) * 2) by lia.
  rewrite Z.mod_mul by lia. cbn. apply decodeNibbles_hex_nibbles.
Qed.
#[global] Instance keybytesToHex_inj : Inj (=) (=) keybytesToHex.
Proof.
  intros k1 k2 E. apply (f_equal hexToKeybytes) in E. rewrite !hexToKeybytes_keybytesToHex in E. congruence.
Qed.

(** ** Compact keys *)

Definition term_of (t : bool) : list byte := if t then [terminator] else [].

(** Both kinds of hex keys at once: nibbles, and the terminator or not. *)
Lemma hexToCompact_ok ns (t : bool) : nibbles ns →
  ∃ c, hexToCompact (ns ++ term_of t) = Some c ∧ compactToHex c = Some (ns ++ term_of t) ∧
    Zlen c = Zlen ns / 2 + 1.
Proof.
  intros Hn. unfold hexToCompact.
  assert (hasTerm (ns ++ term_of t) = t) as ->.
  { destruct t; cbn [term_of]; [apply hasTerm_app|rewrite app_nil_r; by apply hasTerm_nibbles]. }
  assert ((if t then without_last (ns ++ term_of t) else ns ++ term_of t) = ns) as ->.
  { destruct t; cbn [term_of]; [apply without_last_app|by rewrite app_nil_r]. }
  destruct (Nat.Even_or_Odd (length ns)) as [He|[m Ho]].
  - destruct (decodeNibbles_hex ns Hn He) as (bs & E & Hbs). destruct He as [m He].
    assert (Zlen ns mod 2 = 0) as Hz by (unfold Zlen; rewrite He, Nat2Z.inj_mul, Z.mul_comm; by apply Z.mod_mul).
    rewrite Hz. cbn [Z.eqb]. rewrite E. eexists. split; [by destruct ns|]. split.
    + unfold compactToHex. cbn [keybytesToHex]. rewrite keybytesToHex_nibbles, Hbs.
      rewrite app_comm_cons, app_comm_cons, without_last_app. destruct t; [reflexivity|]. cbn [term_of]. rewrite app_nil_r. reflexivity.
    + unfold Zlen. cbn [length]. rewrite <- Hbs, hex_nibbles_length.
      replace (Z.of_nat (2 * length bs)) with (Z.of_nat (length bs) * 2) by lia. rewrite Z.div_mul by lia. lia.
  - destruct ns as [|h0 ns]; [cbn in Ho; lia|]. apply Forall_cons_iff in Hn as [Hh Hn].
    destruct (decodeNibbles_hex ns Hn) as (bs & E & Hbs); [exists m; cbn in Ho; lia|].
    assert (Zlen (h0 :: ns) mod 2 = 1) as ->.
    { unfold Zlen. rewrite Ho. replace (Z.of_nat (2 * m + 1)) with (1 + Z.of_nat m * 2) by lia. by rewrite Z.mod_add. }
    cbn [Z.eqb]. rewrite E. eexists. split; [done|]. split.
    + pose proof (byteZ_range h0). unfold nibble in Hh.
      assert (Z.lor (Z.lor (Z.shiftl (if t then 1 else 0) 5) (Z.shiftl 1 4)) (byteZ h0)
              = (if t then 3 else 1) * 16 + byteZ h0) as ->.
      { replace (Z.lor _ (Z.shiftl 1 4)) with (Z.shiftl (if t then 3 else 1) 4) by by destruct t.
        rewrite lor_shiftl_add by lia. lia. }
      unfold compactToHex. cbn [keybytesToHex]. rewrite keybytesToHex_nibbles, Hbs.
      rewrite app_comm_cons, app_comm_cons, without_last_app.
      rewrite (Zbyte_small ((if t then 3 else 1) * 16 + byteZ h0)) by (destruct t; lia).
      rewrite <- (Z.div_unique _ 16 (if t then 3 else 1) (byteZ h0)) by lia.
      rewrite <- (Z.mod_unique _ 16 (if t then 3 else 1) (byteZ h0)) by lia.
      rewrite Zbyte_byteZ. destruct t; [reflexivity|]. cbn [term_of]. rewrite app_nil_r. reflexivity.
    + unfold Zlen. cbn [length]. rewrite <- Hbs, hex_nibbles_length.
      replace (Z.of_nat (S (2 * length bs))) with (1 + Z.of_nat (length bs) * 2) by lia.
      rewrite Z.div_add by lia. change (1 / 2) with 0. lia.
Qed.

(** ** Common prefixes *)

Lemma prefixLen_le a b : (prefixLen a b ≤ length a ∧ prefixLen a b ≤ length b)%nat.
Proof.
  revert b. induction a as [|x a IH]; intros [|y b]; cbn; try lia. case_bool_decide; [|lia].
  specialize (IH b). lia.
Qed.
Lemma prefixLen_take a b : take (prefixLen a b) a = take (prefixLen a b) b.
Proof.
  revert b. induction a as [|x a IH]; intros [|y b]; try done. cbn. case_bool_decide; [|done]. subst. cbn. by rewrite IH.
Qed.
Lemma prefixLen_differ a b x y : a !! prefixLen a b = Some x → b !! prefixLen a b = Some y → x ≠ y.
Proof.
  revert b. induction a as [|x' a IH]; intros [|y' b]; cbn; try done. case_bool_decide; [apply IH|].
  cbn. by intros [= ->] [= ->].
Qed.
Lemma prefixLen_full a b : prefixLen a b = length b ↔ b `prefix_of` a.
Proof.
  split.
  - intros E. exists (drop (length b) a). rewrite <- E, <- (take_drop (prefixLen a b) a) at 1.
    by rewrite prefixLen_take, E, firstn_all.
  - intros [r ->]. induction b as [|y b IH]; [by destruct r|]. cbn. case_bool_decide; [|done]. by rewrite IH.
Qed.
