(* ===== verification/TriePure.v ===== *)
(** * Tries: the tree without caches

    [ptrie] is a trie with every node in memory.  A well-formed one holds a
    finite map and is the only one that holds it.  Its encoding and hash are
    the reference for the hasher. *)

From stdpp Require Import base tactics list numbers gmap.
From S2P Require Import Prelude RlpEncode RlpEncodeFacts RlpDecode RlpRaw Trie TrieKeys.

#[local] Open Scope Z_scope.
#[local] Set Warnings "-register-all".
Import trie.

Inductive ptrie : Type :=
| PNil
| PVal (v : list byte)
| PShort (k : list byte) (t : ptrie)
| PFull (ts : list ptrie).

Lemma ptrie_ind' (P : ptrie → Prop) :
  P PNil → (∀ v, P (PVal v)) → (∀ k t, P t → P (PShort k t)) → (∀ ts, Forall P ts → P (PFull ts)) → ∀ t, P t.
Proof.
  intros Hn Hv Hs Hf. fix IH 1. intros [|v|k t|ts]; [apply Hn|apply Hv|apply Hs, IH|].
  apply Hf. induction ts as [|t ts IHts]; constructor; [apply IH|apply IHts].
Qed.

#[global] Instance ptrie_nil_dec t : Decision (t = PNil).
Proof. destruct t; first [left; reflexivity | right; discriminate]. Defined.

Definition nib (b : byte) : nat := Z.to_nat (byteZ b).
#[global] Instance nib_inj : Inj (=) (=) nib.
Proof.
  intros b1 b2 E. apply (inj byteZ). unfold nib in E. pose proof (byteZ_range b1). pose proof (byteZ_range b2). lia.
Qed.
Lemma nib_terminator : nib terminator = 16%nat.
Proof. reflexivity. Qed.
Lemma nib_16 b : nib b = 16%nat → b = terminator.
Proof. rewrite <- nib_terminator. apply (inj nib). Qed.
Lemma nibble_nib b : nibble b ↔ (nib b < 16)%nat.
Proof. unfold nibble, nib. pose proof (byteZ_range b). lia. Qed.
Lemma nib_Zbyte i : (i < 256)%nat → nib (Zbyte (Z.of_nat i)) = i.
Proof. intros. unfold nib. rewrite Zbyte_small; lia. Qed.

(** ** Content *)

Fixpoint strip (k key : list byte) : option (list byte) :=
  match k, key with
  | [], _ => Some key
  | a :: k, b :: key => if bool_decide (a = b) then strip k key else None
  | _, [] => None
  end.
Lemma strip_Some k key r : strip k key = Some r ↔ key = k ++ r.
Proof.
  revert key. induction k as [|a k IH]; intros [|b key]; cbn; try (by split; [intros [= ->]|intros ->]); [done|].
  case_bool_decide; [subst; rewrite IH; split; [by intros ->|by intros [= ->]]|].
  split; [done|]. intros [= -> ->]. done.
Qed.
Lemma strip_app k r : strip k (k ++ r) = Some r.
Proof. by apply strip_Some. Qed.
Lemma strip_same k : strip k k = Some [].
Proof. apply strip_Some. by rewrite app_nil_r. Qed.
Lemma strip_None k key : strip k key = None ↔ ¬ k `prefix_of` key.
Proof.
  split.
  - intros E [r ->]. by rewrite strip_app in E.
  - intros H. destruct (strip k key) as [r|] eqn:E; [|done]. apply strip_Some in E. destruct H. by exists r.
Qed.

Fixpoint pget (t : ptrie) (key : list byte) : option (list byte) :=
  match t with
  | PNil => None
  | PVal v => match key with [] => Some v | _ => None end
  | PShort k t => match strip k key with Some rest => pget t rest | None => None end
  | PFull ts =>
      match key with
      | [] => None
      | b :: key =>
          (fix pick (ts : list ptrie) (i : nat) : option (list byte) :=
             match ts, i with
             | [], _ => None
             | t :: _, O => pget t key
             | _ :: ts, S i => pick ts i
             end) ts (nib b)
      end
  end.
Definition kid (ts : list ptrie) (b : byte) : ptrie := default PNil (ts !! nib b).
Lemma pget_full ts b key : pget (PFull ts) (b :: key) = pget (kid ts b) key.
Proof.
  unfold kid. cbn. generalize (nib b). induction ts as [|t ts IH]; intros [|i]; try done.
Qed.
Lemma pget_short k t key : pget (PShort k t) key = match strip k key with Some rest => pget t rest | None => None end.
Proof. reflexivity. Qed.

(** ** Well-formed tries

    Short nodes lead to values with a terminated key, or to full nodes; a full
    node has at least two children; values are not empty.  The bounds on keys
    and values are those of slices in memory. *)
Definition val_ok (v : list byte) : Prop := 0 < Zlen v < 2 ^ 62.
Definition key_ok (k : list byte) : Prop := Zlen k < 2 ^ 60.
Definition slot_ok (t : ptrie) : Prop := match t with PNil => True | PVal v => val_ok v | _ => False end.
Definition two_kids (ts : list ptrie) : Prop :=
  ∃ b1 b2, b1 ≠ b2 ∧ kid ts b1 ≠ PNil ∧ kid ts b2 ≠ PNil.

Fixpoint wf_node (t : ptrie) : Prop :=
  match t with
  | PShort k t' =>
      key_ok k ∧
      match t' with
      | PVal v => hexkey k ∧ val_ok v
      | PFull _ => k ≠ [] ∧ nibbles k ∧ wf_node t'
      | _ => False
      end
  | PFull ts =>
      length ts = 17%nat ∧ two_kids ts ∧
      (fix kids (i : nat) (ts : list ptrie) : Prop :=
         match ts with
         | [] => True
         | t :: ts => (if (i =? 16)%nat then slot_ok t else t = PNil ∨ wf_node t) ∧ kids (S i) ts
         end) O ts
  | _ => False
  end.
(** What may stand below nibble [b] of a full node. *)
Definition kid_ok (b : byte) (t : ptrie) : Prop :=
  if bool_decide (b = terminator) then slot_ok t else t = PNil ∨ wf_node t.
Definition wf_trie (t : ptrie) : Prop := t = PNil ∨ wf_node t.

Lemma kids_lookup ts i : (fix kids (i : nat) (ts : list ptrie) : Prop :=
         match ts with
         | [] => True
         | t :: ts => (if (i =? 16)%nat then slot_ok t else t = PNil ∨ wf_node t) ∧ kids (S i) ts
         end) i ts ↔
  ∀ j t, ts !! j = Some t → if (i + j =? 16)%nat then slot_ok t else t = PNil ∨ wf_node t.
Proof.
  revert i. induction ts as [|t ts IH]; intros i; [by split|]. rewrite IH. split.
  - intros [H1 H2] [|j] t' E; cbn in E; [injection E as <-; by rewrite Nat.add_0_r|].
    specialize (H2 j t' E). by rewrite <- Nat.add_succ_comm.
  - intros H. split; [by specialize (H O t eq_refl); rewrite Nat.add_0_r in H|].
    intros j t' E. specialize (H (S j) t' E). by rewrite <- Nat.add_succ_comm in H.
Qed.
Lemma kid_nil ts b : (length ts ≤ nib b)%nat → kid ts b = PNil.
Proof. intros H. unfold kid. by rewrite lookup_ge_None_2. Qed.
Lemma wf_full ts : wf_node (PFull ts) ↔ length ts = 17%nat ∧ two_kids ts ∧ ∀ b, kid_ok b (kid ts b).
Proof.
  cbn [wf_node]. rewrite kids_lookup. split; intros (Hl & H2 & H); (split; [done|split; [done|]]).
  - intros b. unfold kid_ok. destruct (ts !! nib b) as [t|] eqn:E.
    + unfold kid. rewrite E. cbn. specialize (H _ _ E). cbn [Nat.add] in H.
      case_bool_decide as Hb; [by subst|]. destruct (Nat.eqb_spec (nib b) 16); [by destruct Hb; apply nib_16|done].
    + unfold kid. rewrite E. cbn. case_bool_decide; [done|by left].
  - intros j t E. cbn [Nat.add]. assert (j < 17)%nat as Hj by (apply lookup_lt_Some in E; lia).
    specialize (H (Zbyte (Z.of_nat j))). unfold kid_ok, kid in H. rewrite nib_Zbyte, E in H by lia. cbn in H.
    case_bool_decide as Hb; destruct (Nat.eqb_spec j 16) as [->|]; try done.
    apply (f_equal nib) in Hb. by rewrite nib_Zbyte in Hb by lia.
Qed.

Lemma kid_ok_nil b : kid_ok b PNil.
Proof. unfold kid_ok. case_bool_decide; [done|by left]. Qed.
Lemma kid_ok_term t : kid_ok terminator t ↔ slot_ok t.
Proof. unfold kid_ok. by rewrite bool_decide_eq_true_2. Qed.
Lemma kid_ok_nibble b t : nibble b → kid_ok b t ↔ wf_trie t.
Proof. intros H%nibble_terminator. unfold kid_ok. by rewrite bool_decide_eq_false_2. Qed.
Lemma kid_ok_cases b t : kid_ok b t → t ≠ PNil →
  (b = terminator ∧ ∃ v, t = PVal v ∧ val_ok v) ∨ (b ≠ terminator ∧ wf_node t).
Proof.
  unfold kid_ok. case_bool_decide; intros H1 H2; [left|right].
  - split; [done|]. destruct t; try done. eauto.
  - split; [done|]. by destruct H1.
Qed.

(** ** Keys of a trie *)

Lemma wf_short_inv k t : wf_node (PShort k t) → key_ok k ∧
  ((∃ v, t = PVal v ∧ hexkey k ∧ val_ok v) ∨ (∃ ts, t = PFull ts ∧ k ≠ [] ∧ nibbles k ∧ wf_node t)).
Proof. intros [Hk H]. split; [done|]. destruct t as [|v| |ts]; try done; [left|right]; by eexists. Qed.

Lemma pget_hexkey t k v : wf_node t → pget t k = Some v → hexkey k.
Proof.
  revert k. induction t as [| |nk t IH|ts IH] using ptrie_ind'; intros k Hwf Hg; try done.
  - apply wf_short_inv in Hwf as [_ [(w & -> & Hk & _)|(ts & -> & _ & Hk & Hwf)]]; rewrite pget_short in Hg;
      destruct (strip nk k) as [r|] eqn:E; try done; apply strip_Some in E as ->.
    + destruct r; [|done]. by rewrite app_nil_r.
    + destruct (IH r Hwf Hg) as (ns & -> & Hns). exists (nk ++ ns). split; [by rewrite app_assoc|by apply Forall_app].
  - apply wf_full in Hwf as (Hl & _ & Hkids). destruct k as [|b k]; [done|]. rewrite pget_full in Hg.
    destruct (decide (kid ts b = PNil)) as [E|Hn]; [by rewrite E in Hg|].
    destruct (kid_ok_cases b _ (Hkids b) Hn) as [[-> (w & E & _)]|[Hb Hwf]].
    + rewrite E in Hg. destruct k; [|done]. exists []. split; [done|constructor].
    + unfold kid in *. destruct (ts !! nib b) as [t|] eqn:E; [|done]. cbn in *.
      rewrite Forall_lookup in IH. destruct (IH _ _ E k Hwf Hg) as (ns & -> & Hns). exists (b :: ns). split; [done|].
      constructor; [|done]. apply nibble_nib. apply lookup_lt_Some in E.
      destruct (decide (nib b = 16%nat)) as [H16|]; [|lia]. by apply nib_16 in H16.
Qed.

(** Every node has a value below it, and a full node two that part at once. *)
Lemma wf_inhabited t : wf_node t → ∃ k v, pget t k = Some v.
Proof.
  induction t as [| |nk t IH|ts IH] using ptrie_ind'; intros Hwf; try done.
  - apply wf_short_inv in Hwf as [_ [(w & -> & Hk & _)|(ts & -> & _ & Hk & Hwf)]].
    + exists nk, w. by rewrite pget_short, strip_same.
    + destruct (IH Hwf) as (k & v & E). exists (nk ++ k), v. by rewrite pget_short, strip_app.
  - apply wf_full in Hwf as (Hl & (b & _ & _ & Hb & _) & Hkids).
    destruct (kid_ok_cases b _ (Hkids b) Hb) as [[-> (w & E & _)]|[Hbt Hwf]].
    + exists [terminator], w. by rewrite pget_full, E.
    + unfold kid in *. destruct (ts !! nib b) as [t|] eqn:E; [|done]. cbn [default from_option id] in *.
      rewrite Forall_lookup in IH. destruct (IH _ _ E Hwf) as (k & v & Hg). exists (b :: k), v.
      rewrite pget_full. unfold kid. by rewrite E.
Qed.
Lemma kid_inhabited ts b : wf_node (PFull ts) → kid ts b ≠ PNil → ∃ k v, pget (PFull ts) (b :: k) = Some v.
Proof.
  intros (_ & _ & Hkids)%wf_full Hb.
  destruct (kid_ok_cases b _ (Hkids b) Hb) as [[-> (w & E & _)]|[Hbt Hwf]].
  - exists [], w. by rewrite pget_full, E.
  - destruct (wf_inhabited _ Hwf) as (k & v & E). exists k, v. by rewrite pget_full.
Qed.
Lemma full_parts ts : wf_node (PFull ts) → ∃ b1 k1 v1 b2 k2 v2, b1 ≠ b2 ∧
  pget (PFull ts) (b1 :: k1) = Some v1 ∧ pget (PFull ts) (b2 :: k2) = Some v2.
Proof.
  intros Hwf. pose proof (proj1 (wf_full ts) Hwf) as (_ & (b1 & b2 & Hne & H1 & H2) & _).
  destruct (kid_inhabited ts b1 Hwf H1) as (k1 & v1 & E1), (kid_inhabited ts b2 Hwf H2) as (k2 & v2 & E2).
  by exists b1, k1, v1, b2, k2, v2.
Qed.

(** ** One trie per content *)

Definition same_keys (t1 t2 : ptrie) : Prop := ∀ k, pget t1 k = pget t2 k.

(** All keys of a short node start with its key. *)
Lemma short_prefix k t key v : pget (PShort k t) key = Some v → k `prefix_of` key.
Proof.
  rewrite pget_short. destruct (strip k key) as [r|] eqn:E; [|done]. apply strip_Some in E as ->. by exists r.
Qed.
Lemma common_prefix (n b1 b2 : list byte) x y (p : list byte) : p `prefix_of` n ++ x :: b1 → p `prefix_of` n ++ y :: b2 → x ≠ y →
  p `prefix_of` n.
Proof.
  revert n. induction p as [|a p IH]; intros n H1 H2 Hne; [apply prefix_nil|]. destruct n as [|c n].
  - cbn in *. apply prefix_cons_inv_1 in H1 as ->, H2 as ->. done.
  - cbn in *. pose proof (prefix_cons_inv_1 _ _ _ _ H1) as ->. apply prefix_cons, IH; [| |done].
    + by apply prefix_cons_inv_2 in H1.
    + by apply prefix_cons_inv_2 in H2.
Qed.
Lemma short_full_differ k t ts : wf_node (PShort k t) → wf_node (PFull ts) → same_keys (PShort k t) (PFull ts) → False.
Proof.
  intros H1 H2 Hs. destruct (full_parts ts H2) as (b1 & k1 & v1 & b2 & k2 & v2 & Hne & E1 & E2).
  rewrite <- (Hs (b1 :: k1)) in E1. rewrite <- (Hs (b2 :: k2)) in E2. apply short_prefix in E1, E2.
  pose proof (common_prefix [] k1 k2 b1 b2 k E1 E2 Hne) as Hk%prefix_nil_inv.
  apply wf_short_inv in H1 as [_ [(v & _ & (ns & -> & _) & _)|(ts' & _ & ? & _)]]; [|done]. by destruct ns.
Qed.
Lemma leaf_ext_differ k v k' ts : wf_node (PShort k (PVal v)) → wf_node (PShort k' (PFull ts)) →
  same_keys (PShort k (PVal v)) (PShort k' (PFull ts)) → False.
Proof.
  intros _ (_ & [(? & ? & _)|(? & _ & _ & _ & H2)])%wf_short_inv Hs; [done|].
  destruct (full_parts ts H2) as (b1 & k1 & v1 & b2 & k2 & v2 & Hne & E1 & E2).
  assert (∀ b r w, pget (PFull ts) (b :: r) = Some w → k' ++ b :: r = k) as Hk.
  { intros b r w E. specialize (Hs (k' ++ b :: r)). rewrite !pget_short, strip_app, E in Hs.
    destruct (strip k (k' ++ b :: r)) as [[|]|] eqn:E'; try done. apply strip_Some in E'. by rewrite app_nil_r in E'. }
  pose proof (Hk _ _ _ E1) as A1. rewrite <- (Hk _ _ _ E2) in A1. apply app_inv_head in A1. congruence.
Qed.
Lemma ext_prefix k1 ts1 k2 ts2 : wf_node (PFull ts1) → same_keys (PShort k1 (PFull ts1)) (PShort k2 (PFull ts2)) →
  k2 `prefix_of` k1.
Proof.
  intros H1 Hs. destruct (full_parts ts1 H1) as (b1 & r1 & v1 & b2 & r2 & v2 & Hne & E1 & E2).
  assert (∀ b r w, pget (PFull ts1) (b :: r) = Some w → k2 `prefix_of` k1 ++ b :: r) as Hk.
  { intros b r w E. apply (short_prefix k2 (PFull ts2) _ w). by rewrite <- Hs, pget_short, strip_app. }
  by apply (common_prefix k1 r1 r2 b1 b2 k2 (Hk _ _ _ E1) (Hk _ _ _ E2)).
Qed.
Lemma same_keys_sym t1 t2 : same_keys t1 t2 → same_keys t2 t1.
Proof. intros H k. by rewrite H. Qed.
Lemma kid_lookup ts i t : length ts = 17%nat → ts !! i = Some t → kid ts (Zbyte (Z.of_nat i)) = t.
Proof.
  intros Hl E. assert (i < 17)%nat by (apply lookup_lt_Some in E; lia). unfold kid. rewrite nib_Zbyte by lia. by rewrite E.
Qed.

Lemma ptrie_unique t1 : ∀ t2, wf_node t1 → wf_node t2 → same_keys t1 t2 → t1 = t2.
Proof.
  induction t1 as [| |k1 c1 IH|ts1 IH] using ptrie_ind'; intros t2 H1 H2 Hs; try done.
  - destruct t2 as [| |k2 c2|ts2]; try done; [|by destruct (short_full_differ k1 c1 ts2)].
    pose proof H1 as [_ C1]%wf_short_inv. pose proof H2 as [_ C2]%wf_short_inv.
    destruct C1 as [(v1 & -> & _)|(ts1 & -> & _ & _ & F1)], C2 as [(v2 & -> & _)|(ts2 & -> & _ & _ & F2)].
    + specialize (Hs k1). rewrite !pget_short, strip_same in Hs.
      destruct (strip k2 k1) as [[|]|] eqn:E; try done. apply strip_Some in E as ->. rewrite app_nil_r.
      by injection Hs as ->.
    + by destruct (leaf_ext_differ k1 v1 k2 ts2).
    + by destruct (leaf_ext_differ k2 v2 k1 ts1); [| |apply same_keys_sym].
    + assert (k1 = k2) as <-.
      { apply (anti_symm prefix); eapply ext_prefix; [exact F2|by apply same_keys_sym|exact F1|done]. }
      f_equal. apply IH; [done|done|]. intros k. specialize (Hs (k1 ++ k)). by rewrite !pget_short, strip_app in Hs.
  - destruct t2 as [| |k2 c2|ts2]; try done; [by destruct (short_full_differ k2 c2 ts1); [| |apply same_keys_sym]|].
    pose proof H1 as (L1 & _ & K1)%wf_full. pose proof H2 as (L2 & _ & K2)%wf_full. f_equal.
    apply (list_eq_same_length _ _ 17); [lia|lia|]. intros i t1 t2 Hi E1 E2.
    set (b := Zbyte (Z.of_nat i)).
    assert (kid ts1 b = t1 ∧ kid ts2 b = t2) as [D1 D2] by by split; apply kid_lookup.
    assert (same_keys t1 t2) as Hk. { intros k. specialize (Hs (b :: k)). by rewrite !pget_full, D1, D2 in Hs. }
    specialize (K1 b). specialize (K2 b). rewrite D1 in K1. rewrite D2 in K2.
    destruct (decide (t1 = PNil)) as [->|N1], (decide (t2 = PNil)) as [->|N2]; [done| | |].
    + destruct (kid_ok_cases b _ K2 N2) as [(_ & v & -> & _)|[_ W2]]; [by specialize (Hk [])|].
      destruct (wf_inhabited _ W2) as (k & v & E). by rewrite <- Hk in E.
    + destruct (kid_ok_cases b _ K1 N1) as [(_ & v & -> & _)|[_ W2]]; [by specialize (Hk [])|].
      destruct (wf_inhabited _ W2) as (k & v & E). by rewrite Hk in E.
    + rewrite Forall_lookup in IH.
      destruct (kid_ok_cases b _ K1 N1) as [(Hb & v1 & -> & _)|[Hb W1]], (kid_ok_cases b _ K2 N2) as [(Hb' & v2 & -> & _)|[Hb' W2]];
        try done; [specialize (Hk []); cbn in Hk; by injection Hk as ->|by eapply IH].
Qed.
Lemma wf_trie_unique t1 t2 : wf_trie t1 → wf_trie t2 → same_keys t1 t2 → t1 = t2.
Proof.
  intros [->|W1] [->|W2] Hs; [done| | |by apply ptrie_unique].
  - destruct (wf_inhabited _ W2) as (k & v & E). by rewrite <- Hs in E.
  - destruct (wf_inhabited _ W1) as (k & v & E). by rewrite Hs in E.
Qed.

(** ** Reference encoding *)

Section enc.
Variable sha3 : list byte → list byte.

Definition compact (k : list byte) : list byte := default [] (hexToCompact k).

(** How a parent refers to a child with encoding [e]. *)
Definition ref_of (t : ptrie) (e : list byte) : list byte :=
  match t with
  | PNil | PVal _ => e
  | _ => if Zlen e <? 32 then e else enc_str (sha3 e)
  end.
Fixpoint penc (t : ptrie) : list byte :=
  match t with
  | PNil => enc_str []
  | PVal v => enc_str v
  | PShort k t => enc_list (enc_str (compact k) ++ ref_of t (penc t))
  | PFull ts => enc_list (mjoin ((λ t, ref_of t (penc t)) <$> ts))
  end.
Definition pref (t : ptrie) : list byte := ref_of t (penc t).
Definition phash (t : ptrie) : list byte := match t with PNil => emptyRoot | _ => sha3 (penc t) end.

Lemma penc_short k t : penc (PShort k t) = enc_list (enc_str (compact k) ++ pref t).
Proof. reflexivity. Qed.
Lemma penc_full ts : penc (PFull ts) = enc_list (mjoin (pref <$> ts)).
Proof. reflexivity. Qed.

Definition big (t : ptrie) : bool := 32 <=? Zlen (penc t).
Lemma pref_node t : wf_node t → pref t = if big t then enc_str (sha3 (penc t)) else penc t.
Proof.
  intros H. unfold pref, big. destruct t as [| |k t|ts]; try done; unfold ref_of;
    destruct (Z.ltb_spec (Zlen (penc (PShort k t))) 32) || destruct (Z.ltb_spec (Zlen (penc (PFull ts))) 32);
    destruct (Z.leb_spec 32 (Zlen (penc (PShort k t)))) || destruct (Z.leb_spec 32 (Zlen (penc (PFull ts)))); done || lia.
Qed.
End enc.
