(* ===== verification/TrieNode.v ===== *)
(** * Tries: nodes and their encodings

    [decodeNode] is the inverse of the encoding of a node, with children that
    are referred to by hash, embedded, or absent. *)

From stdpp Require Import base tactics list numbers gmap.
From S2P Require Import Prelude RlpEncode RlpEncodeFacts RlpDecode RlpStream RlpSound RlpRaw Trie TrieKeys TriePure.

#[local] Open Scope Z_scope.
#[local] Set Warnings "-register-all".
Import rlp trie.

(** ** What the encoder makes of a node *)

Lemma node_ind' (P : node → Prop) :
  P Nil → (∀ k c fl, P c → P (shortNode k c fl)) → (∀ cs fl, Forall P cs → P (fullNode cs fl)) →
  (∀ h, P (hashNode h)) → (∀ v, P (valueNode v)) → ∀ n, P n.
Proof.
  intros Hn Hs Hf Hh Hv. fix IH 1. intros [|k c fl|cs fl|h|v]; [apply Hn|apply Hs, IH| |apply Hh|apply Hv].
  apply Hf. induction cs as [|c cs IHcs]; constructor; [apply IH|apply IHcs].
Qed.

Fixpoint nenc (n : node) : list byte :=
  match n with
  | Nil => enc_list []
  | shortNode k c _ => enc_list (enc_str k ++ nenc c)
  | fullNode cs _ => enc_list (mjoin (nenc <$> cs))
  | hashNode b | valueNode b => enc_str b
  end.
Fixpoint arity (n : node) : Prop :=
  match n with
  | shortNode _ c _ => arity c
  | fullNode cs _ => length cs = 17%nat ∧ (fix all (cs : list node) : Prop := match cs with [] => True | c :: cs => arity c ∧ all cs end) cs
  | _ => True
  end.
Lemma arity_full cs fl : arity (fullNode cs fl) ↔ length cs = 17%nat ∧ Forall arity cs.
Proof.
  cbn. apply and_iff_compat_l. induction cs as [|c cs IH]; [by split|]. rewrite Forall_cons_iff. tauto.
Qed.

Lemma mapM_iface cs : Forall (λ n, enc TInterface (VInterface (node_rlp n)) = Some (nenc n)) cs →
  mapM (enc TInterface) ((λ c, VInterface (node_rlp c)) <$> cs) = Some (nenc <$> cs).
Proof. induction 1 as [|c cs Hc _ IH]; [done|]. rewrite !fmap_cons. cbn [mapM]. by rewrite Hc, IH. Qed.
Lemma node_iface n : enc TInterface (VInterface (node_rlp n)) = Some (nenc n).
Proof.
  induction n as [|k c fl IH|cs fl IH| |] using node_ind'; try done.
  - cbn [node_rlp enc nenc]. cbn [enc] in IH. rewrite IH. cbn. by rewrite app_nil_r.
  - cbn [node_rlp enc nenc]. by rewrite mapM_iface.
Qed.
Lemma shaped_iface n : arity n → shaped TInterface (VInterface (node_rlp n)).
Proof.
  induction n as [|k c fl IH|cs fl IH| |] using node_ind'; intros Ha; try done.
  - cbn. split; [done|]. split; [|done]. by apply IH.
  - apply arity_full in Ha as [Hl Ha]. cbn [node_rlp shaped]. rewrite shaped_elems. split; [unfold Zlen; rewrite length_fmap; lia|].
    apply Forall_fmap. rewrite Forall_forall in *. intros n Hn. apply IH; auto.
Qed.
Lemma node_Encode n ty v : node_rlp n = Some (ty, v) → arity n → Zlen (nenc n) < 2 ^ 63 →
  Encode ty v = Val (nenc n) ∧ EncodeToBytes ty v = Val (nenc n).
Proof.
  intros E Ha Hl. pose proof (node_iface n) as He. pose proof (shaped_iface n Ha) as Hs. rewrite E in He, Hs.
  cbn [enc shaped] in He, Hs. by destruct (Encode_ok ty v (nenc n) Hs He Hl).
Qed.

(** ** Lengths *)

Lemma enc_list_length_le p : Zlen p < 2 ^ 64 → 1 ≤ Zlen (enc_list p) ≤ Zlen p + 9 ∧ Zlen p < Zlen (enc_list p).
Proof.
  intros Hp. unfold enc_list. rewrite Zlen_app. pose proof (Zlen_nonneg p).
  pose proof (head_length_le 0xC0 0xF7 (Zlen p) ltac:(lia)). lia.
Qed.
Lemma enc_str_length_le b : Zlen b < 2 ^ 64 → 1 ≤ Zlen (enc_str b) ≤ Zlen b + 9.
Proof.
  intros Hb. unfold enc_str. pose proof (Zlen_nonneg b). destruct (is_single b) eqn:E.
  - destruct b as [|x [|]]; done.
  - rewrite Zlen_app. pose proof (head_length_le 0x80 0xB7 (Zlen b) ltac:(lia)). lia.
Qed.
Lemma enc_str_32 b : Zlen b = 32 → enc_str b = Zbyte 0xA0 :: b.
Proof.
  intros Hb. unfold enc_str. rewrite Hb. assert (is_single b = false) as -> by by destruct b as [|? [|]].
  reflexivity.
Qed.

Section nodes.
Context (sha3 : list byte → list byte) (sha3_length : ∀ b, Zlen (sha3 b) = 32).

Lemma compact_ok k : nibbles k ∨ hexkey k → key_ok k →
  hexToCompact k = Some (compact k) ∧ compactToHex (compact k) = Some k ∧ Zlen (compact k) < 2 ^ 60.
Proof.
  intros Hk Hl. unfold key_ok in Hl.
  assert (∃ ns t, k = ns ++ term_of t ∧ nibbles ns) as (ns & t & -> & Hns).
  { destruct Hk as [Hn|(ns & -> & Hn)]; [exists k, false; by rewrite app_nil_r|by exists ns, true]. }
  destruct (hexToCompact_ok ns t Hns) as (c & E1 & E2 & Hc). unfold compact. rewrite E1. cbn. split_and!; [done|done|].
  rewrite Zlen_app in Hl. pose proof (Zlen_nonneg (term_of t)). pose proof (Zlen_nonneg ns).
  rewrite Hc. pose proof (Z.div_lt_upper_bound (Zlen ns) 2 (2 ^ 59 + 1)). lia.
Qed.

Lemma pref_small t : wf_trie t → 1 ≤ Zlen (pref sha3 t) ≤ 33.
Proof.
  intros [->|H]; [by vm_compute|]. rewrite pref_node by done. unfold big. destruct (Z.leb_spec 32 (Zlen (penc sha3 t))).
  - rewrite enc_str_32 by done. unfold Zlen in *. cbn [length]. rewrite Nat2Z.inj_succ, sha3_length. lia.
  - split; [|lia]. destruct t; try done; apply enc_list_pos.
Qed.
Lemma pref_slot t : slot_ok t → 1 ≤ Zlen (pref sha3 t) < 2 ^ 62 + 9.
Proof.
  destruct t as [|v| |]; try done; intros H. unfold pref. cbn. unfold slot_ok, val_ok in H.
  pose proof (enc_str_length_le v ltac:(lia)). lia.
Qed.
Lemma kid_pref b t : kid_ok b t → 1 ≤ Zlen (pref sha3 t) ≤ (if bool_decide (b = terminator) then 2 ^ 62 + 9 else 33).
Proof.
  unfold kid_ok. case_bool_decide; intros H'; [pose proof (pref_slot t H'); lia|by apply pref_small].
Qed.

Lemma kids_split ts : length ts = 17%nat → (∀ b, kid_ok b (kid ts b)) →
  ∃ cs v, ts = cs ++ [v] ∧ length cs = 16%nat ∧ Forall wf_trie cs ∧ slot_ok v.
Proof.
  intros Hl Hk. destruct ts as [|v cs _] using rev_ind; [done|]. rewrite length_app in Hl. cbn in Hl.
  exists cs, v. split_and!; [done|lia| |].
  - apply Forall_lookup. intros i t E. assert (i < 16)%nat by (apply lookup_lt_Some in E; lia).
    apply (kid_ok_nibble (Zbyte (Z.of_nat i))); [apply nibble_Zbyte; lia|].
    rewrite <- (kid_lookup (cs ++ [v]) i t); [apply Hk|rewrite length_app; cbn; lia|]. by apply lookup_app_l_Some.
  - apply (proj1 (kid_ok_term v)). replace v with (kid (cs ++ [v]) terminator); [apply Hk|]. unfold kid. rewrite nib_terminator.
    rewrite list_lookup_middle; [done|lia].
Qed.
Lemma mjoin_length_le (l : list (list byte)) B : Forall (λ x, Zlen x ≤ B) l → Zlen (mjoin l) ≤ B * Zlen l.
Proof.
  induction 1 as [|x l Hx _ IH]; [unfold Zlen; cbn; lia|].
  change (mjoin (x :: l)) with (x ++ mjoin l). rewrite Zlen_app. unfold Zlen in *. cbn [length]. lia.
Qed.
Lemma mjoin_snoc (l : list (list byte)) x : mjoin (l ++ [x]) = mjoin l ++ x.
Proof. rewrite join_app. cbn. by rewrite app_nil_r. Qed.

(** The payload of a node. *)
Definition payload (t : ptrie) : list byte :=
  match t with
  | PShort k t => enc_str (compact k) ++ pref sha3 t
  | PFull ts => mjoin (pref sha3 <$> ts)
  | _ => []
  end.
Lemma penc_payload t : wf_node t → penc sha3 t = enc_list (payload t).
Proof. by destruct t. Qed.
Lemma payload_length t : wf_node t → Zlen (payload t) < 2 ^ 63 - 9.
Proof.
  intros Hwf. destruct t as [| |k t|ts]; try done; cbn [payload].
  - apply wf_short_inv in Hwf as [Hk [(v & -> & Hx & Hv)|(ts & -> & _ & Hn & Hwf)]]; rewrite Zlen_app.
    + destruct (compact_ok k (or_intror Hx) Hk) as (_ & _ & Hc). pose proof (enc_str_length_le (compact k) ltac:(lia)).
      pose proof (pref_slot (PVal v) Hv). lia.
    + destruct (compact_ok k (or_introl Hn) Hk) as (_ & _ & Hc). pose proof (enc_str_length_le (compact k) ltac:(lia)).
      pose proof (pref_small (PFull ts) (or_intror Hwf)). lia.
  - apply wf_full in Hwf as (Hl & _ & Hk). destruct (kids_split ts Hl Hk) as (cs & v & -> & Hcs & HF & Hv).
    rewrite fmap_app. cbn [fmap list_fmap]. rewrite mjoin_snoc, Zlen_app. pose proof (pref_slot v Hv).
    assert (Zlen (pref sha3 <$> cs) = 16) as H16 by (unfold Zlen; rewrite length_fmap; lia).
    assert (Zlen (mjoin (pref sha3 <$> cs)) ≤ 33 * 16); [|lia].
    rewrite <- H16. apply mjoin_length_le, Forall_fmap. eapply Forall_impl; [exact HF|]. intros t Ht. apply pref_small. done.
Qed.
Lemma penc_length t : wf_node t → 1 ≤ Zlen (penc sha3 t) < 2 ^ 63.
Proof.
  intros Hwf. rewrite penc_payload by done. pose proof (payload_length t Hwf).
  pose proof (enc_list_length_le (payload t) ltac:(lia)). lia.
Qed.

(** ** Decoding *)

Lemma enc_str_split b : ∃ k, k ≠ rlpd.List ∧ split_ok k b ∧ enc_str b = split_enc k b.
Proof.
  unfold enc_str. destruct (is_single b) eqn:E; [by exists rlpd.Byte|by exists rlpd.String].
Qed.
Lemma SplitString_enc b rest : Zlen (enc_str b ++ rest) < 2 ^ 63 → raw.SplitString (enc_str b ++ rest) = Val (b, rest).
Proof.
  destruct (enc_str_split b) as (k & Hk & Hok & ->). intros Hl. unfold raw.SplitString. rewrite Split_ok by done.
  by destruct k.
Qed.
Lemma Split_list p rest : Zlen (enc_list p ++ rest) < 2 ^ 63 → raw.Split (enc_list p ++ rest) = Val (rlpd.List, p, rest).
Proof. apply (Split_ok rlpd.List p rest I). Qed.
Lemma SplitList_enc p rest : Zlen (enc_list p ++ rest) < 2 ^ 63 → raw.SplitList (enc_list p ++ rest) = Val (p, rest).
Proof. intros Hl. unfold raw.SplitList. by rewrite Split_list. Qed.

Definition ref_node_of (t : ptrie) (embedded : node) : node :=
  match t with
  | PNil | PVal _ => embedded
  | _ => if big sha3 t then hashNode (sha3 (penc sha3 t)) else embedded
  end.
Fixpoint topnode (g : Z) (h : option (list byte)) (t : ptrie) : node :=
  match t with
  | PNil => Nil
  | PVal v => valueNode v
  | PShort k t => shortNode k (ref_node_of t (topnode g None t)) (mkFlag h g false)
  | PFull ts => fullNode ((λ t, ref_node_of t (topnode g None t)) <$> ts) (mkFlag h g false)
  end.
Definition refnode (g : Z) (t : ptrie) : node := ref_node_of t (topnode g None t).

Lemma pref_split t : wf_trie t ∨ slot_ok t → ∃ k c, split_ok k c ∧ pref sha3 t = split_enc k c.
Proof.
  assert (∀ b, ∃ k c, split_ok k c ∧ enc_str b = split_enc k c) as Hstr.
  { intros b. destruct (enc_str_split b) as (k & _ & Hok & E). by exists k, b. }
  intros H. destruct (decide (t = PNil)) as [->|Hn]; [apply (Hstr [])|].
  destruct H as [[?|H]|H]; [done| |destruct t; try done; apply Hstr].
  rewrite pref_node by done. destruct (big sha3 t); [apply Hstr|]. exists rlpd.List, (payload t).
  by rewrite penc_payload.
Qed.
Lemma decodeRef_ok dec g t rest : wf_trie t → Zlen (pref sha3 t ++ rest) < 2 ^ 63 →
  (wf_node t → pref sha3 t = penc sha3 t → dec (penc sha3 t ++ rest) = Val (topnode g None t)) →
  decodeRef dec (pref sha3 t ++ rest) = Val (refnode g t, rest).
Proof.
  intros Hwf Hl Hdec. unfold decodeRef. destruct Hwf as [->|Hwf].
  { change (pref sha3 PNil) with (split_enc rlpd.String []). by rewrite Split_ok. }
  assert (refnode g t = if big sha3 t then hashNode (sha3 (penc sha3 t)) else topnode g None t) as -> by by destruct t.
  rewrite pref_node in * by done. unfold big in *. destruct (Z.leb_spec 32 (Zlen (penc sha3 t))).
  - assert (enc_str (sha3 (penc sha3 t)) = split_enc rlpd.String (sha3 (penc sha3 t))) as E.
    { unfold enc_str. cbn. pose proof (sha3_length (penc sha3 t)). by destruct (sha3 (penc sha3 t)) as [|? [|]]. }
    rewrite E in *. rewrite Split_ok; [|cbn|done].
    + cbn. by rewrite sha3_length.
    + pose proof (sha3_length (penc sha3 t)). by destruct (sha3 (penc sha3 t)) as [|? [|]].
  - specialize (Hdec Hwf eq_refl). rewrite penc_payload in * by done. rewrite Split_list by done. cbn. rewrite Zlen_app.
    replace (Zlen (enc_list (payload t)) + Zlen rest - Zlen rest) with (Zlen (enc_list (payload t))) by lia.
    rewrite Z.gtb_ltb, (proj2 (Z.ltb_ge hashLen _)) by (unfold hashLen; lia).
    by rewrite Hdec.
Qed.

(** [dec] decodes [t] when it is embedded in at most [L] bytes. *)
Definition embeds (dec : list byte → outcome trie_error node) (g : Z) (L : Z) (t : ptrie) : Prop :=
  wf_node t → ∀ rest, Zlen (penc sha3 t ++ rest) ≤ L → dec (penc sha3 t ++ rest) = Val (topnode g None t).
Lemma decodeFull_loop_ok dec g L cs rest : Forall wf_trie cs → Forall (embeds dec g L) cs →
  Zlen (mjoin (pref sha3 <$> cs) ++ rest) ≤ L → L < 2 ^ 63 →
  decodeFull_loop dec (length cs) (mjoin (pref sha3 <$> cs) ++ rest) = Val (refnode g <$> cs, rest).
Proof.
  intros HF HE HL HL63. induction HF as [|t cs Ht _ IH]; [done|]. apply Forall_cons_iff in HE as [He HE].
  rewrite fmap_cons in *. change (mjoin (pref sha3 t :: (pref sha3 <$> cs))) with (pref sha3 t ++ mjoin (pref sha3 <$> cs)) in *.
  rewrite <- app_assoc in *. cbn [length decodeFull_loop].
  rewrite (decodeRef_ok dec g t); [|done|lia|intros Hw E; apply He; [done|by rewrite <- E]]. cbn [mbind outcome_bind fst snd].
  rewrite IH; [done|done|]. rewrite Zlen_app in HL. pose proof (Zlen_nonneg (pref sha3 t)). lia.
Qed.

Lemma kids_items ts : Forall wf_trie ts → ∃ l, pref sha3 <$> ts = (λ '(k, c), split_enc k c) <$> l ∧ Forall (λ '(k, c), split_ok k c) l.
Proof.
  induction 1 as [|t ts Ht _ (l & E & HF)]; [by exists []|]. destruct (pref_split t (or_introl Ht)) as (k & c & Hok & Et).
  exists ((k, c) :: l). rewrite !fmap_cons, E, Et. split; [done|by constructor].
Qed.
Lemma count_split (bs : list byte) l n : bs = split_encs l → Forall (λ '(k, c), split_ok k c) l → Zlen bs < 2 ^ 63 → length l = n →
  count_or_zero bs = Val (Z.of_nat n).
Proof. intros -> HF Hl <-. unfold count_or_zero. by rewrite CountValues_ok. Qed.
Lemma count_payload t : wf_node t → count_or_zero (payload t) = Val (match t with PShort _ _ => 2 | _ => 17 end).
Proof.
  intros Hwf. pose proof (payload_length t Hwf) as Hl. destruct t as [| |k t|ts]; try done; cbn [payload] in *.
  - destruct (enc_str_split (compact k)) as (kk & _ & Hok & Ek).
    destruct (pref_split t) as (kt & c & Hokt & Et).
    { apply wf_short_inv in Hwf as [_ [(v & -> & _ & Hv)|(ts & -> & _ & _ & Hwf)]]; [by right|by left; right]. }
    apply (count_split _ [(kk, compact k); (kt, c)] 2); [|by repeat constructor|lia|done].
    rewrite Ek, Et. unfold split_encs. cbn. by rewrite app_nil_r.
  - apply wf_full in Hwf as (Hlen & _ & Hk). destruct (kids_split ts Hlen Hk) as (cs & v & -> & Hcs & HF & Hv).
    destruct (kids_items cs HF) as (l & E & HFl). destruct (pref_split v (or_intror Hv)) as (kv & c & Hokv & Ev).
    apply (count_split _ (l ++ [(kv, c)]) 17); [|by apply Forall_app; split; [|repeat constructor]|lia|].
    + rewrite fmap_app, E. unfold split_encs. rewrite fmap_app. cbn. by rewrite Ev.
    + apply (f_equal length) in E. rewrite !length_fmap in E. rewrite length_app. cbn. lia.
Qed.

Lemma SplitString_slot v : slot_ok v → ∃ b, raw.SplitString (pref sha3 v) = Val (b, []) ∧
  (if Zlen b >? 0 then valueNode b else Nil) = refnode 0 v ∧ (∀ w, v = PVal w → b = w).
Proof.
  intros Hv. destruct v as [|w| |]; try done.
  - exists []. split_and!; [|done|done]. rewrite <- (app_nil_r (pref sha3 PNil)). by apply SplitString_enc.
  - exists w. unfold slot_ok, val_ok in Hv. split_and!; [| |congruence].
    + rewrite <- (app_nil_r (pref sha3 (PVal w))). apply SplitString_enc. rewrite app_nil_r.
      pose proof (enc_str_length_le w ltac:(lia)). lia.
    + by rewrite Z.gtb_ltb, (proj2 (Z.ltb_lt _ _)) by lia.
Qed.
Lemma refnode_slot g v : slot_ok v → refnode g v = refnode 0 v.
Proof. by destruct v. Qed.

Lemma decodeShort_ok dec g h k t : wf_node (PShort k t) → embeds dec g (Zlen (payload (PShort k t))) t →
  decodeShort dec h (payload (PShort k t)) g = Val (topnode g h (PShort k t)).
Proof.
  intros Hwf He. pose proof (payload_length _ Hwf) as Hl. cbn [payload topnode] in *. unfold decodeShort.
  rewrite SplitString_enc by lia. cbn [from_rlp mbind outcome_bind].
  apply wf_short_inv in Hwf as [Hk [(v & -> & Hx & Hv)|(ts & -> & _ & Hn & Hwf)]].
  - destruct (compact_ok k (or_intror Hx) Hk) as (_ & -> & _). cbn [val_or_panic mbind outcome_bind].
    destruct Hx as (ns & -> & _). rewrite hasTerm_app.
    destruct (SplitString_slot (PVal v) Hv) as (b & -> & _ & Hb). by rewrite (Hb v).
  - destruct (compact_ok k (or_introl Hn) Hk) as (_ & -> & _). cbn [val_or_panic mbind outcome_bind].
    rewrite hasTerm_nibbles by done. rewrite Zlen_app in Hl, He. pose proof (Zlen_nonneg (enc_str (compact k))).
    rewrite <- (app_nil_r (pref sha3 (PFull ts))). rewrite (decodeRef_ok dec g); [done|by right|rewrite app_nil_r; lia|].
    intros _ E. apply He; [done|]. rewrite app_nil_r, <- E. lia.
Qed.
Lemma decodeFull_ok dec g h ts : wf_node (PFull ts) → Forall (embeds dec g (Zlen (payload (PFull ts)))) ts →
  decodeFull dec h (payload (PFull ts)) g = Val (topnode g h (PFull ts)).
Proof.
  intros Hwf He. pose proof (payload_length _ Hwf) as Hl. cbn [payload topnode] in *. unfold decodeFull.
  apply wf_full in Hwf as (Hlen & _ & Hk). destruct (kids_split ts Hlen Hk) as (cs & v & -> & Hcs & HF & Hv).
  apply Forall_app in He as [He _]. rewrite fmap_app in *. cbn [fmap list_fmap] in *. rewrite mjoin_snoc in *.
  rewrite <- Hcs. rewrite (decodeFull_loop_ok dec g _ cs _ HF He (Z.le_refl _)) by lia. cbn [mbind outcome_bind].
  destruct (SplitString_slot v Hv) as (b & E & Hb & _). cbn [fst snd]. rewrite E. cbn [from_rlp mbind outcome_bind fst].
  rewrite Hb, <- (refnode_slot g) by done. by rewrite fmap_app.
Qed.

Lemma decodeNode_loop_ok t : ∀ fuel g h rest, wf_node t → (length (penc sha3 t ++ rest) < fuel)%nat →
  Zlen (penc sha3 t ++ rest) < 2 ^ 63 → decodeNode_loop fuel g h (penc sha3 t ++ rest) = Val (topnode g h t).
Proof.
  induction t as [| |k t IH|ts IH] using ptrie_ind'; intros fuel g h rest Hwf Hf Hl; try done;
    (destruct fuel as [|fuel]; [lia|]); cbn [decodeNode_loop].
  all: rewrite penc_payload in Hf, Hl |- * by done; pose proof (payload_length _ Hwf) as Hp;
    pose proof (enc_list_length_le _ (Z.lt_trans _ _ (2 ^ 64) Hp eq_refl)) as [Hp1 Hp2]; rewrite Zlen_app in *;
    pose proof (Zlen_nonneg rest); rewrite (proj2 (Z.eqb_neq _ 0)) by lia; rewrite SplitList_enc by (rewrite Zlen_app; lia);
    cbn [from_rlp mbind outcome_bind fst]; rewrite count_payload by done; cbn [mbind outcome_bind Z.eqb Pos.eqb].
  - apply decodeShort_ok; [done|]. intros Ht r Hr. apply IH; [done|unfold Zlen in *; rewrite length_app in *; lia|lia].
  - apply decodeFull_ok; [done|]. eapply Forall_impl; [exact IH|]. intros t IHt Ht r Hr.
    apply IHt; [done|unfold Zlen in *; rewrite length_app in *; lia|lia].
Qed.
Lemma decodeNode_ok g h t : wf_node t → decodeNode h (penc sha3 t) g = Val (topnode g h t).
Proof.
  intros Hwf. unfold decodeNode. pose proof (penc_length t Hwf). rewrite <- (app_nil_r (penc sha3 t)) at 2.
  apply decodeNode_loop_ok; [done|rewrite app_nil_r; lia|rewrite app_nil_r; lia].
Qed.
End nodes.
