(* ===== verification/TrieOps.v ===== *)
(** * Tries: the operations

    [unfolds r n t]: the node [n], parts of which may be in the database only,
    stands for the tree [t]; [r] says whether it is the root, whose hash is
    cached however short its encoding.  Lookup, insertion and deletion act on
    [t] as on a finite map and never fail. *)

From stdpp Require Import base tactics list numbers gmap.
From S2P Require Import Prelude RlpEncode RlpEncodeFacts RlpDecode RlpRaw Trie TrieKeys TriePure TrieNode.

#[local] Open Scope Z_scope.
#[local] Set Warnings "-register-all".
Import trie.

(** ** Children by nibble *)

Lemma kid_insert ts b b' t : length ts = 17%nat → (nib b < 17)%nat →
  kid (<[nib b := t]> ts) b' = if bool_decide (b' = b) then t else kid ts b'.
Proof.
  intros Hl Hb. unfold kid. case_bool_decide as E; [subst; by rewrite list_lookup_insert_eq by lia|].
  rewrite list_lookup_insert_ne; [done|]. intros H%(inj nib). congruence.
Qed.
Definition no_kids : list ptrie := replicate 17 PNil.
Lemma kid_no_kids b : kid no_kids b = PNil.
Proof. unfold kid, no_kids. destruct (replicate 17 PNil !! nib b) eqn:E; [|done]. by apply lookup_replicate in E as [-> _]. Qed.

Lemma hexkey_cons b k : hexkey (b :: k) → (b = terminator ∧ k = []) ∨ (nibble b ∧ hexkey k).
Proof.
  intros (ns & E & Hn). destruct ns as [|x ns]; [left; by injection E as -> ->|right].
  injection E as -> ->. apply Forall_cons_iff in Hn as [Hx Hn]. split; [done|by exists ns].
Qed.
Lemma hexkey_nib b k : hexkey (b :: k) → (nib b < 17)%nat.
Proof. intros [[-> _]|[H _]]%hexkey_cons; [by vm_compute; lia|]. apply nibble_nib in H. lia. Qed.
Lemma hexkey_nil : ¬ hexkey [].
Proof. intros (ns & E & _). by destruct ns. Qed.
Lemma hexkey_app ns k : nibbles ns → hexkey (ns ++ k) ↔ hexkey k.
Proof.
  intros Hn. induction Hn as [|b ns Hb Hn IH]; [done|]. cbn. rewrite <- IH. split.
  - intros [[-> _]|[_ H]]%hexkey_cons; [by apply nibble_terminator in Hb|done].
  - intros (ns' & -> & H). exists (b :: ns'). split; [done|by constructor].
Qed.
(** No hex key is a proper prefix of another, or of a list of nibbles. *)
Lemma hexkey_prefix k r : hexkey k → (hexkey (k ++ r) → r = []) ∧ ¬ nibbles (k ++ r).
Proof.
  intros (ns & -> & Hn). rewrite <- app_assoc. split.
  - rewrite hexkey_app by done. intros [[_ H]|[H _]]%hexkey_cons; [done|by apply nibble_terminator in H].
  - intros [_ [H _]%Forall_cons_iff]%Forall_app. by apply nibble_terminator in H.
Qed.

(** A key and the trie it is looked up in. *)
Definition sub_ok (key : list byte) (t : ptrie) : Prop :=
  (key = [] ∧ slot_ok t) ∨ (hexkey key ∧ wf_trie t).
Lemma sub_ok_kid ts b key : wf_node (PFull ts) → hexkey (b :: key) → sub_ok key (kid ts b).
Proof.
  intros (_ & _ & Hk)%wf_full Hx. specialize (Hk b). apply hexkey_cons in Hx as [[-> ->]|[Hb Hx]]; [left|right].
  - by rewrite kid_ok_term in Hk.
  - split; [done|]. by apply kid_ok_nibble in Hk.
Qed.
Lemma kid_ok_sub b key t : hexkey (b :: key) → sub_ok key t → kid_ok b t.
Proof.
  intros [[-> ->]|[Hb Hx]]%hexkey_cons [[H1 H2]|[H1 H2]].
  - by apply kid_ok_term.
  - by apply hexkey_nil in H1.
  - subst. by apply hexkey_nil in Hx.
  - by apply kid_ok_nibble.
Qed.
Lemma sub_ok_short key k t : sub_ok key (PShort k t) → hexkey key ∧ wf_node (PShort k t).
Proof. intros [[_ []]|[H [?|?]]]; done. Qed.
Lemma sub_ok_full key ts : sub_ok key (PFull ts) → hexkey key ∧ wf_node (PFull ts).
Proof. intros [[_ []]|[H [?|?]]]; done. Qed.
Lemma sub_ok_below k t r : wf_node (PShort k t) → hexkey (k ++ r) → sub_ok r t.
Proof.
  intros [_ [(v & -> & Hk & Hv)|(ts & -> & _ & Hn & Hw)]]%wf_short_inv Hx; [left|right].
  - by destruct (hexkey_prefix k r Hk) as [-> _].
  - split; [by apply (hexkey_app k)|by right].
Qed.

(** ** Forks *)

Definition pshort (k : list byte) (t : ptrie) : ptrie := match k with [] => t | _ => PShort k t end.
Lemma pget_pshort p t k : pget (pshort p t) k = match strip p k with Some r => pget t r | None => None end.
Proof. by destruct p. Qed.

Definition fork (a : byte) (t1 : ptrie) (b : byte) (t2 : ptrie) : list ptrie := <[nib b := t2]> (<[nib a := t1]> no_kids).
Lemma fork_kid a t1 b t2 x : (nib a < 17)%nat → (nib b < 17)%nat →
  kid (fork a t1 b t2) x = if bool_decide (x = b) then t2 else if bool_decide (x = a) then t1 else PNil.
Proof.
  intros Ha Hb. unfold fork. rewrite kid_insert; [|by rewrite length_insert|done].
  case_bool_decide; [done|]. rewrite kid_insert by done. by rewrite kid_no_kids.
Qed.
Lemma fork_wf a t1 b t2 : a ≠ b → (nib a < 17)%nat → (nib b < 17)%nat → kid_ok a t1 → kid_ok b t2 → t1 ≠ PNil → t2 ≠ PNil →
  wf_node (PFull (fork a t1 b t2)).
Proof.
  intros Hne Ha Hb H1 H2 N1 N2. apply wf_full. split_and!.
  - unfold fork. by rewrite !length_insert.
  - exists a, b. rewrite !fork_kid by done. rewrite (bool_decide_eq_false_2 (a = b)), !bool_decide_eq_true_2 by done. done.
  - intros x. rewrite fork_kid by done. repeat case_bool_decide; subst; [done|done|apply kid_ok_nil].
Qed.

Lemma hexkey_app_inv p b k : hexkey (p ++ b :: k) → nibbles p ∧ hexkey (b :: k).
Proof.
  revert b k. induction p as [|x p IH]; intros b k H; [by split; [constructor|]|].
  apply hexkey_cons in H as [[_ E]|[Hx H]]; [by destruct p|]. destruct (IH _ _ H). split; [by constructor|done].
Qed.
Lemma app_cons_not_nil {A} (p : list A) b k : p ++ b :: k ≠ [].
Proof. by destruct p. Qed.

(** The two keys at the point where they part. *)
Lemma prefix_split key nkey : hexkey key → (hexkey nkey ∨ nibbles nkey) → prefixLen key nkey ≠ length nkey →
  ∃ p a na b nb, key = p ++ b :: nb ∧ nkey = p ++ a :: na ∧ a ≠ b ∧ prefixLen key nkey = length p.
Proof.
  intros Hx Hn Hm. set (m := prefixLen key nkey) in *. destruct (prefixLen_le key nkey) as [L1 L2].
  pose proof (prefixLen_take key nkey) as Ht. fold m in L1, L2, Ht.
  destruct (lookup_lt_is_Some_2 nkey m) as [a Ea]; [lia|]. pose proof (take_drop_middle nkey m a Ea) as En.
  destruct (key !! m) as [b|] eqn:Eb.
  - exists (take m key), a, (drop (S m) nkey), b, (drop (S m) key). split_and!.
    + by rewrite take_drop_middle.
    + by rewrite Ht.
    + intros <-. by apply (prefixLen_differ key nkey a a).
    + rewrite length_take. lia.
  - exfalso. apply lookup_ge_None in Eb. rewrite <- En, <- Ht, firstn_all2 in Hn by done.
    destruct (hexkey_prefix key (a :: drop (S m) nkey) Hx) as [H1 H2]. destruct Hn as [Hn|Hn]; [by apply H1 in Hn|done].
Qed.

(** The part of a short node below its first nibbles. *)
Lemma short_tail p a na c : wf_node (PShort (p ++ a :: na) c) →
  nibbles p ∧ (nib a < 17)%nat ∧ kid_ok a (pshort na c) ∧ pshort na c ≠ PNil.
Proof.
  intros [Hk [(v & -> & Hx & Hv)|(ts & -> & Hn & Hnib & Hwf)]]%wf_short_inv.
  - apply hexkey_app_inv in Hx as [Hp Hx]. split_and!; [done|by eapply hexkey_nib| |by destruct na].
    apply hexkey_cons in Hx as [[-> ->]|[Ha Hx]]; [by apply kid_ok_term|]. apply kid_ok_nibble; [done|]. right.
    destruct na; [by apply hexkey_nil in Hx|]. split; [|done].
    unfold key_ok in *. rewrite Zlen_app in Hk. unfold Zlen in *. cbn [length] in *. lia.
  - apply Forall_app in Hnib as [Hp [Ha Hna]%Forall_cons_iff]. pose proof (proj1 (nibble_nib a) Ha).
    split_and!; [done|lia| |by destruct na]. apply kid_ok_nibble; [done|]. right. destruct na; [done|].
    split; [|by split_and!]. unfold key_ok in *. rewrite Zlen_app in Hk. unfold Zlen in *. cbn [length] in *. lia.
Qed.
(** A value below a key. *)
Lemma leaf_tail p b nb v : hexkey (p ++ b :: nb) → key_ok (p ++ b :: nb) → val_ok v →
  (nib b < 17)%nat ∧ kid_ok b (pshort nb (PVal v)) ∧ pshort nb (PVal v) ≠ PNil.
Proof.
  intros Hx Hk Hv. destruct (short_tail p b nb (PVal v)) as (_ & H1 & H2 & H3); [by split|done].
Qed.
Lemma ext_wf p ts : nibbles p → key_ok p → wf_node (PFull ts) → wf_node (pshort p (PFull ts)).
Proof. intros Hp Hk Hw. destruct p; [done|]. by split_and!. Qed.
Lemma key_ok_app p k : key_ok (p ++ k) → key_ok p ∧ key_ok k.
Proof. unfold key_ok. rewrite Zlen_app. pose proof (Zlen_nonneg p). pose proof (Zlen_nonneg k). lia. Qed.

(** What a fork holds. *)
Lemma fork_content p a na c b nb v k : a ≠ b → (nib a < 17)%nat → (nib b < 17)%nat →
  pget (pshort p (PFull (fork a (pshort na c) b (pshort nb (PVal v))))) k =
  if bool_decide (k = p ++ b :: nb) then Some v else pget (PShort (p ++ a :: na) c) k.
Proof.
  intros Hne Ha Hb. rewrite pget_pshort, pget_short. destruct (strip p k) as [r|] eqn:E.
  - apply strip_Some in E as ->.
    assert (∀ l, strip (p ++ a :: na) (p ++ l) = strip (a :: na) l) as -> by (induction p; [done|]; cbn; by rewrite bool_decide_eq_true_2).
    assert (bool_decide (p ++ r = p ++ b :: nb) = bool_decide (r = b :: nb)) as ->.
    { apply bool_decide_ext. split; [by intros ?%app_inv_head|by intros ->]. }
    destruct r as [|x r]; [by rewrite bool_decide_eq_false_2|]. rewrite pget_full, fork_kid by done. cbn [strip].
    destruct (decide (x = b)) as [->|Hxb].
    + rewrite (bool_decide_eq_true_2 (b = b)), (bool_decide_eq_false_2 (a = b)) by done. rewrite pget_pshort.
      destruct (strip nb r) as [[|]|] eqn:E; [| |].
      * apply strip_Some in E as ->. rewrite app_nil_r. by rewrite bool_decide_eq_true_2.
      * apply strip_Some in E as ->. rewrite bool_decide_eq_false_2; [done|]. intros [= E]. apply (f_equal length) in E. rewrite length_app in E. cbn in E. lia.
      * rewrite bool_decide_eq_false_2; [done|]. intros [= ->]. by rewrite strip_same in E.
    + rewrite (bool_decide_eq_false_2 (x = b)), (bool_decide_eq_false_2 (x :: r = b :: nb)) by congruence.
      destruct (decide (x = a)) as [->|]; [by rewrite !bool_decide_eq_true_2, pget_pshort by done|].
      rewrite !bool_decide_eq_false_2 by done. done.
  - apply strip_None in E. rewrite bool_decide_eq_false_2 by (intros ->; apply E; by eexists).
    destruct (strip (p ++ a :: na) k) as [r|] eqn:E'; [|done]. apply strip_Some in E' as ->.
    destruct E. rewrite <- app_assoc. by eexists.
Qed.

#[global] Instance node_nil_dec n : Decision (n = Nil).
Proof. destruct n; first [left; reflexivity | right; discriminate]. Defined.

Section ops.
Context {DB : Type} {database : Database DB}.
Context (sha3 : list byte → list byte) (sha3_length : ∀ b, Zlen (sha3 b) = 32).

(** ** What a node stands for *)

Definition sget (db : option DB) (h : list byte) : option (list byte) := db ≫= db_Get h.

(** The tree is in the database: every node that is referred to by its hash,
    and itself when it is referred to or is the root. *)
Fixpoint stored (db : option DB) (r : bool) (t : ptrie) : Prop :=
  match t with
  | PNil | PVal _ => True
  | PShort k c =>
      (r || big sha3 t = true → sget db (sha3 (penc sha3 t)) = Some (penc sha3 t)) ∧ stored db false c
  | PFull ts =>
      (r || big sha3 t = true → sget db (sha3 (penc sha3 t)) = Some (penc sha3 t)) ∧
      (fix all (ts : list ptrie) : Prop := match ts with [] => True | t :: ts => stored db false t ∧ all ts end) ts
  end.
Lemma stored_full db r ts : stored db r (PFull ts) ↔
  (r || big sha3 (PFull ts) = true → sget db (sha3 (penc sha3 (PFull ts))) = Some (penc sha3 (PFull ts))) ∧ Forall (stored db false) ts.
Proof.
  cbn [stored]. apply and_iff_compat_l. induction ts as [|t ts IH]; [by split|]. rewrite Forall_cons_iff. tauto.
Qed.
Lemma stored_get db r t : wf_node t → stored db r t → r || big sha3 t = true →
  sget db (sha3 (penc sha3 t)) = Some (penc sha3 t).
Proof. destruct t; try done; intros _ [H _]; done. Qed.

(** A node is clean without a hash only when it is embedded in its parent. *)
Definition flag_ok (db : option DB) (r : bool) (t : ptrie) (fl : nodeFlag) : Prop :=
  match flag_hash fl with
  | None => flag_dirty fl = false → r || big sha3 t = false
  | Some h => h = sha3 (penc sha3 t) ∧ r || big sha3 t = true ∧ (flag_dirty fl = false → stored db r t)
  end.

Fixpoint unfolds (db : option DB) (r : bool) (n : node) (t : ptrie) : Prop :=
  match n, t with
  | Nil, PNil => True
  | valueNode v, PVal v' => v = v'
  | shortNode k c fl, PShort k' t' => k = k' ∧ flag_ok db r t fl ∧ unfolds db false c t'
  | fullNode cs fl, PFull ts => flag_ok db r t fl ∧
      (fix all (cs : list node) (ts : list ptrie) : Prop :=
         match cs, ts with
         | [], [] => True
         | c :: cs, t :: ts => unfolds db false c t ∧ all cs ts
         | _, _ => False
         end) cs ts
  | hashNode h, _ => wf_node t ∧ h = sha3 (penc sha3 t) ∧ r || big sha3 t = true ∧ stored db r t
  | _, _ => False
  end.
Lemma unfolds_full db r cs fl ts : unfolds db r (fullNode cs fl) (PFull ts) ↔
  flag_ok db r (PFull ts) fl ∧ Forall2 (unfolds db false) cs ts.
Proof.
  cbn [unfolds]. apply and_iff_compat_l. revert ts. induction cs as [|c cs IH]; intros [|t ts]; try (by split; [|inversion 1]).
  rewrite Forall2_cons, IH. done.
Qed.

Lemma unfolds_nil db r n : unfolds db r n PNil ↔ n = Nil.
Proof. split; [|by intros ->]. destruct n; try done. by intros (? & _). Qed.
Lemma unfolds_val db r n v : unfolds db r n (PVal v) ↔ n = valueNode v.
Proof. split; [|by intros ->]. destruct n; try done; [by intros (? & _)|by intros ->]. Qed.
Lemma unfolds_Nil db r t : unfolds db r Nil t → t = PNil.
Proof. by destruct t. Qed.

Lemma flag_ok_new db r t tr : flag_ok db r t (newFlag (DB:=DB) tr).
Proof. done. Qed.
Lemma flag_ok_touched db r t (tr : Trie (DB:=DB)) fl : flag_ok db r t fl → flag_ok db r t (touched tr fl).
Proof. done. Qed.

(** Nodes as they are loaded: with their hash unless they are embedded. *)
Definition own_hash (r : bool) (t : ptrie) : option (list byte) := if r || big sha3 t then Some (sha3 (penc sha3 t)) else None.
Lemma flag_ok_loaded db r t g : stored db r t → flag_ok db r t (mkFlag (own_hash r t) g false).
Proof. intros Hs. unfold flag_ok, own_hash. cbn [flag_hash flag_dirty]. by destruct (r || big sha3 t). Qed.
Lemma unfolds_topnode db g t : ∀ r, wf_node t → stored db r t → unfolds db r (topnode sha3 g (own_hash r t) t) t.
Proof.
  assert (∀ c, (∀ r, wf_node c → stored db r c → unfolds db r (topnode sha3 g (own_hash r c) c) c) →
      wf_trie c ∨ slot_ok c → stored db false c → unfolds db false (refnode sha3 g c) c) as Href.
  { intros c IH Hc Hs. destruct (decide (c = PNil)) as [->|Hn]; [done|]. destruct Hc as [[?|Hc]|Hc]; [done| |by destruct c].
    assert (refnode sha3 g c = if big sha3 c then hashNode (sha3 (penc sha3 c)) else topnode sha3 g None c) as -> by by destruct c.
    specialize (IH false Hc Hs). unfold own_hash in IH. cbn [orb] in IH. destruct (big sha3 c) eqn:E; [by split_and!|done]. }
  induction t as [| |k t IH|ts IH] using ptrie_ind'; intros r Hwf Hs; try done.
  - cbn [topnode unfolds]. split_and!; [done|by apply flag_ok_loaded|]. apply Href; [done| |by destruct Hs].
    apply wf_short_inv in Hwf as [_ [(v & -> & _ & Hv)|(ts & -> & _ & _ & Hwf)]]; [by right|by left; right].
  - cbn [topnode]. apply unfolds_full. split; [by apply flag_ok_loaded|]. apply stored_full in Hs as [_ Hs].
    apply wf_full in Hwf as (Hl & _ & Hk). apply Forall2_fmap_l, Forall2_same_length_lookup. split; [done|].
    intros i c c' E E'. assert (c' = c) as -> by congruence. rewrite Forall_lookup in IH, Hs.
    apply Href; [by eapply IH| |by eapply Hs]. specialize (Hk (Zbyte (Z.of_nat i))).
    rewrite (kid_lookup ts i c Hl E) in Hk. unfold kid_ok in Hk. case_bool_decide; [by right|by left].
Qed.

(** ** Loading *)

Variable tr : Trie (DB:=DB).
Abbreviation db := (tdb tr).

Lemma resolveHash_ok r h t prefix : unfolds db r (hashNode h) t →
  resolveHash tr h prefix = Val (topnode sha3 (cachegen tr) (Some h) t) ∧
  unfolds db r (topnode sha3 (cachegen tr) (Some h) t) t.
Proof.
  intros (Hwf & -> & Hb & Hs). split; [|pose proof (unfolds_topnode (tdb tr) (cachegen tr) t r Hwf Hs) as H; unfold own_hash in H; by rewrite Hb in H].
  pose proof (stored_get _ _ _ Hwf Hs Hb) as Hg. unfold sget in Hg. unfold resolveHash. destruct (tdb tr) as [d|]; [|done].
  cbn in Hg. rewrite Hg. unfold mustDecodeNode. by rewrite decodeNode_ok.
Qed.

Definition is_hash (n : node) : bool := match n with hashNode _ => true | _ => false end.
(** Enough fuel for a node and what is left of the key. *)
Definition enough (fuel : nat) (n : node) (key : list byte) : Prop :=
  (2 * length key + (if is_hash n then 2 else 1) ≤ fuel)%nat.
Lemma enough_step fuel n c key key' : enough (S fuel) n key → is_hash n = false → (length key' < length key)%nat → enough fuel c key'.
Proof. unfold enough. intros H E Hl. rewrite E in H. destruct (is_hash c); lia. Qed.
Lemma enough_load fuel h g t key : enough (S fuel) (hashNode h) key → wf_node t → enough fuel (topnode sha3 g (Some h) t) key.
Proof. unfold enough. cbn. intros H Hwf. destruct t; try done; cbn; lia. Qed.
Lemma enough_pos fuel n key : enough fuel n key → ∃ f, fuel = S f.
Proof. unfold enough. destruct fuel; [destruct (is_hash n); lia|eauto]. Qed.

Lemma child_at_ok cs ts b : Forall2 (unfolds db false) cs ts → (nib b < length ts)%nat →
  ∃ c, child_at cs b = Some c ∧ unfolds db false c (kid ts b).
Proof.
  intros HF Hb. unfold child_at, kid. fold (nib b). destruct (lookup_lt_is_Some_2 ts _ Hb) as [t E].
  destruct (Forall2_lookup_r _ _ _ _ _ HF E) as (c & Ec & Hc). exists c. by rewrite E.
Qed.
Lemma set_child_ok cs ts b c t : Forall2 (unfolds db false) cs ts → (nib b < length ts)%nat → unfolds db false c t →
  ∃ cs', set_child cs b c = Some cs' ∧ Forall2 (unfolds db false) cs' (<[nib b := t]> ts).
Proof.
  intros HF Hb Hc. unfold set_child. pose proof (Forall2_length _ _ _ HF) as Hl.
  rewrite (proj2 (Z.ltb_lt (byteZ b) (Zlen cs))) by (unfold nib, Zlen in *; pose proof (byteZ_range b); lia).
  eexists. split; [done|]. by apply Forall2_insert.
Qed.

(** ** Lookup *)

Lemma prefix_test (nkey key : list byte) : (Zlen key <? Zlen nkey) || negb (bool_decide (nkey = take (length nkey) key))
  = match strip nkey key with Some _ => false | None => true end.
Proof.
  destruct (strip nkey key) as [r|] eqn:E.
  - apply strip_Some in E as ->. rewrite take_app_length, bool_decide_eq_true_2 by done. rewrite Zlen_app.
    pose proof (Zlen_nonneg r). rewrite (proj2 (Z.ltb_ge _ _)) by lia. done.
  - rewrite bool_decide_eq_false_2; [by rewrite orb_true_r|]. intros H. apply strip_None in E. apply E.
    rewrite H. apply prefix_take.
Qed.
Lemma short_test nkey key pos : (pos ≤ length key)%nat →
  (Zlen key - Z.of_nat pos <? Zlen nkey) || negb (bool_decide (nkey = take (length nkey) (drop pos key)))
  = match strip nkey (drop pos key) with Some _ => false | None => true end.
Proof.
  intros Hp. rewrite <- prefix_test. do 2 f_equal. unfold Zlen. rewrite length_drop. lia.
Qed.

Lemma tryGet_ok fuel : ∀ n t key pos r, unfolds db r n t → sub_ok (drop pos key) t → (pos ≤ length key)%nat →
  enough fuel n (drop pos key) →
  ∃ n' b, tryGet fuel tr n key pos = Val (pget t (drop pos key), n', b) ∧ unfolds db r n' t.
Proof.
  induction fuel as [|fuel IH]; intros n t key pos r Hu Hok Hpos Hf; [by apply enough_pos in Hf as [? ?]|].
  cbn [tryGet]. destruct n as [|nkey c fl|cs fl|h|v].
  - apply unfolds_Nil in Hu as ->. by eexists _, _.
  - destruct t as [| |k t|]; try done. destruct Hu as (<- & Hfl & Hu). apply sub_ok_short in Hok as [Hx Hwf].
    rewrite short_test, pget_short by done. destruct (strip nkey (drop pos key)) as [rest|] eqn:E; [|by eexists _, _].
    apply strip_Some in E.
    assert (drop (pos + length nkey) key = rest) as Hrest.
    { rewrite <- drop_drop, E. by apply drop_app_length. }
    destruct (IH c t key (pos + length nkey)%nat false Hu) as (n' & b & -> & Hu').
    + rewrite Hrest. apply (sub_ok_below nkey); [done|by rewrite <- E].
    + apply (f_equal length) in E. rewrite length_drop, length_app in E. lia.
    + rewrite Hrest. eapply enough_step; [exact Hf|done|]. rewrite E, length_app.
      apply wf_short_inv in Hwf as [_ [(v & _ & Hk & _)|(ts & _ & Hk & _)]]; [destruct nkey; [by apply hexkey_nil in Hk|cbn; lia]|].
      destruct nkey; [done|cbn; lia].
    + rewrite Hrest. cbn [mbind outcome_bind]. eexists _, _. split; [done|]. destruct b; [by split_and!|done].
  - destruct t as [| | |ts]; try done. apply unfolds_full in Hu as [Hfl HF]. apply sub_ok_full in Hok as [Hx Hwf].
    destruct (drop pos key) as [|b rest] eqn:E; [by apply hexkey_nil in Hx|].
    assert (key !! pos = Some b) as Hb by (rewrite <- (Nat.add_0_r pos), <- lookup_drop, E; done).
    assert (drop (pos + 1) key = rest) as Hrest by (rewrite <- drop_drop, E; done).
    pose proof (proj1 (wf_full ts) Hwf) as (Hl & _). pose proof (hexkey_nib b rest Hx) as Hnb.
    rewrite Hb. cbn [val_or_panic mbind outcome_bind].
    destruct (child_at_ok cs ts b HF ltac:(lia)) as (c & -> & Hc). cbn [val_or_panic mbind outcome_bind].
    destruct (IH c (kid ts b) key (pos + 1)%nat false Hc) as (n' & did & -> & Hu').
    + rewrite Hrest. by apply sub_ok_kid.
    + apply lookup_lt_Some in Hb. lia.
    + rewrite Hrest. eapply enough_step; [exact Hf|done|cbn; lia].
    + rewrite Hrest, pget_full. cbn [mbind outcome_bind]. destruct did; [|by eexists _, _; split; [|apply unfolds_full]].
      destruct (set_child_ok cs ts b n' (kid ts b) HF ltac:(lia) Hu') as (cs' & -> & HF').
      cbn [val_or_panic mbind outcome_bind]. eexists _, _. split; [done|]. apply unfolds_full. split; [done|].
      rewrite list_insert_id in HF'; [done|]. unfold kid. destruct (lookup_lt_is_Some_2 ts (nib b)) as [t Et]; [lia|]. by rewrite Et.
  - destruct (resolveHash_ok r h t (take pos key) Hu) as [-> Hu']. cbn [mbind outcome_bind].
    assert (wf_node t) as Hwf by apply Hu.
    destruct (IH _ t key pos r Hu' Hok Hpos (enough_load _ _ _ _ _ Hf Hwf)) as (n' & b & -> & Hn'). by eexists _, _.
  - destruct t as [|v'| |]; try done. cbn in Hu. subst v'. destruct Hok as [[-> _]|[Hx [?|?]]]; try done. by eexists _, _.
Qed.

(** ** Insertion *)

Definition at_key (k key : list byte) (new old : option (list byte)) : option (list byte) := if bool_decide (k = key) then new else old.

Lemma at_key_iff k key k' key' a b : (k = key ↔ k' = key') → at_key k key a b = at_key k' key' a b.
Proof. intros H. unfold at_key. by rewrite (bool_decide_ext _ _ H). Qed.
Lemma at_key_ne k key a b : k ≠ key → at_key k key a b = b.
Proof. intros H. unfold at_key. by rewrite bool_decide_eq_false_2. Qed.
Lemma at_key_eq key a b : at_key key key a b = a.
Proof. unfold at_key. by rewrite bool_decide_eq_true_2. Qed.

(** The result stands for a tree that differs at the key only. *)
Definition inserted (r : bool) (t : ptrie) (key v : list byte) (dn : bool * node) : Prop := ∃ t',
  unfolds db r dn.2 t' ∧ sub_ok key t' ∧ (∀ k, pget t' k = at_key k key (Some v) (pget t k)) ∧ (dn.1 = false → t' = t).

Lemma insert_Nil fuel prefix key value : (0 < fuel)%nat →
  insert fuel tr Nil prefix key value = Val (true, match key with [] => value | _ => shortNode key value (newFlag tr) end).
Proof. intros. destruct fuel; [lia|]. by destruct key. Qed.
Lemma unfolds_pshort key n t : unfolds db false n t →
  unfolds db false (match key with [] => n | _ => shortNode key n (newFlag tr) end) (pshort key t).
Proof. intros H. destruct key; [done|]. by split_and!. Qed.
Lemma empty_children_ok : Forall2 (unfolds db false) empty_children no_kids.
Proof. unfold empty_children, no_kids. repeat constructor. Qed.

Lemma fork_ok cs a n1 t1 b n2 t2 : set_child empty_children a n1 = Some cs →
  (nib a < 17)%nat → (nib b < 17)%nat → unfolds db false n1 t1 → unfolds db false n2 t2 →
  ∃ cs', set_child cs b n2 = Some cs' ∧ Forall2 (unfolds db false) cs' (fork a t1 b t2).
Proof.
  intros E Ha Hb H1 H2. destruct (set_child_ok empty_children no_kids a n1 t1 empty_children_ok Ha H1) as (cs1 & E1 & F1).
  rewrite E in E1. injection E1 as <-. apply set_child_ok; [done|by rewrite length_insert|done].
Qed.

Lemma insert_fork fuel r nkey c fl ct prefix key v : unfolds db r (shortNode nkey c fl) (PShort nkey ct) →
  wf_node (PShort nkey ct) → hexkey key → key_ok key → val_ok v → prefixLen key nkey ≠ length nkey → (0 < fuel)%nat →
  ∃ dn, insert (S fuel) tr (shortNode nkey c fl) prefix key (valueNode v) = Val dn ∧ inserted r (PShort nkey ct) key v dn.
Proof.
  intros (_ & _ & Hc) Hwf Hx Hk Hv Hm Hf.
  assert (hexkey nkey ∨ nibbles nkey) as Hn.
  { apply wf_short_inv in Hwf as [_ [(? & _ & ? & _)|(? & _ & _ & ? & _)]]; auto. }
  destruct (prefix_split key nkey Hx Hn Hm) as (p & a & na & b & nb & Ek & En & Hne & Hlen).
  destruct key as [|k0 krest] eqn:Ekey; [by apply hexkey_nil in Hx|]. cbn [insert]. rewrite <- Ekey in *. clear Ekey.
  rewrite (proj2 (Nat.eqb_neq _ _) Hm), Hlen.
  assert (∀ (l : list byte) x l', l = p ++ x :: l' → l !! length p = Some x ∧ drop (length p + 1) l = l' ∧ take (length p) l = p) as Hat.
  { intros l x l' ->. rewrite list_lookup_middle, take_app_length by done. rewrite <- drop_drop, drop_app_length. done. }
  destruct (Hat _ _ _ En) as (Ea & Da & _), (Hat _ _ _ Ek) as (Eb & Db & Tb).
  rewrite Ea. cbn [val_or_panic mbind outcome_bind]. rewrite Da, (insert_Nil fuel _ na c) by done. cbn [mbind outcome_bind snd].
  rewrite En in Hwf. destruct (short_tail _ _ _ _ Hwf) as (Hp & Ha & Ka & Na).
  rewrite Ek in Hx, Hk. destruct (leaf_tail _ _ _ v Hx Hk Hv) as (Hb & Kb & Nb).
  destruct (set_child_ok empty_children no_kids a _ _ empty_children_ok Ha (unfolds_pshort na c ct Hc)) as (cs1 & E1 & _).
  rewrite E1. cbn [val_or_panic mbind outcome_bind]. rewrite Eb. cbn [val_or_panic mbind outcome_bind].
  rewrite Db, (insert_Nil fuel _ nb) by done. cbn [mbind outcome_bind snd].
  destruct (fork_ok cs1 a _ _ b _ _ E1 Ha Hb (unfolds_pshort na c ct Hc) (unfolds_pshort nb (valueNode v) (PVal v) eq_refl)) as (cs2 & E2 & HF).
  rewrite E2. cbn [val_or_panic mbind outcome_bind]. rewrite Tb.
  set (ts := fork a (pshort na ct) b (pshort nb (PVal v))) in *.
  assert (wf_node (PFull ts)) as Hfull by by apply fork_wf.
  exists (true, match p with [] => fullNode cs2 (newFlag tr) | _ => shortNode p (fullNode cs2 (newFlag tr)) (newFlag tr) end).
  split; [by destruct p|]. exists (pshort p (PFull ts)). split_and!.
  - assert (∀ r, unfolds db r (fullNode cs2 (newFlag tr)) (PFull ts)) as Hu by (intros r'; by apply unfolds_full).
    destruct p; [apply Hu|]. split_and!; [done|done|apply Hu].
  - rewrite Ek. right. split; [done|]. right. apply ext_wf; [done|by apply key_ok_app in Hk as [? _]|done].
  - intros k. rewrite Ek, En. by apply fork_content.
  - done.
Qed.

(** A tree with two keys that part at the first nibble is a full node. *)
Lemma stays_full ts t' : wf_node (PFull ts) → wf_trie t' → (∀ k, is_Some (pget (PFull ts) k) → is_Some (pget t' k)) →
  ∃ ts', t' = PFull ts' ∧ wf_node t'.
Proof.
  intros Hw Hw' Hget. destruct (full_parts ts Hw) as (b1 & k1 & v1 & b2 & k2 & v2 & Hne & E1 & E2).
  destruct (Hget (b1 :: k1)) as [w1 G1]; [by eexists|]. destruct (Hget (b2 :: k2)) as [w2 G2]; [by eexists|].
  destruct Hw' as [->|Hw']; [done|]. destruct t' as [| |k c|ts']; try done; [|by eexists].
  apply short_prefix in G1, G2. pose proof (common_prefix [] k1 k2 b1 b2 k G1 G2 Hne) as Hk%prefix_nil_inv. subst k.
  apply wf_short_inv in Hw' as [_ [(? & _ & H & _)|(? & _ & H & _)]]; [by apply hexkey_nil in H|done].
Qed.
(** Replacing what is below a short node. *)
Lemma short_below nkey c rest t' v : wf_node (PShort nkey c) → sub_ok rest c → sub_ok rest t' →
  (∀ k, pget t' k = at_key k rest (Some v) (pget c k)) → wf_node (PShort nkey t').
Proof.
  intros [Hk [(w & -> & Hx & _)|(ts & -> & Hn & Hnib & Hwf)]]%wf_short_inv Hc Ht' Hget; (split; [done|]).
  - destruct Hc as [[-> _]|[_ [?|?]]]; [|done|done]. destruct Ht' as [[_ Ht']|[Ht' _]]; [|by apply hexkey_nil in Ht'].
    specialize (Hget []). rewrite at_key_eq in Hget. by destruct t'.
  - destruct Ht' as [[-> _]|[_ Ht']]; [destruct Hc as [[_ []]|[H _]]; by apply hexkey_nil in H|].
    destruct (stays_full ts t' Hwf Ht') as (ts' & -> & Hw'); [|done].
    intros k [w E]. rewrite Hget. unfold at_key. rewrite E. case_bool_decide; by eexists.
Qed.

Lemma insert_ok fuel : ∀ n t prefix key v r, unfolds db r n t → sub_ok key t → key_ok key → val_ok v → enough fuel n key →
  ∃ dn, insert fuel tr n prefix key (valueNode v) = Val dn ∧ inserted r t key v dn.
Proof.
  induction fuel as [|fuel IH]; intros n t prefix key v r Hu Hok Hk Hv Hf; [by apply enough_pos in Hf as [? ?]|].
  assert (∀ t', unfolds db r (valueNode v) t' → t' = PVal v) as Hval by by intros [] ?; cbn in *; try done; subst.
  destruct key as [|k0 krest].
  { destruct Hok as [[_ Hs]|[Hx _]]; [|by apply hexkey_nil in Hx]. cbn [insert].
    destruct t as [|w| |]; try done.
    - apply unfolds_nil in Hu as ->. eexists. split; [done|]. exists (PVal v). split_and!; [done|by left|by intros []|done].
    - apply unfolds_val in Hu as ->. eexists. split; [done|]. exists (PVal v). split_and!; [done|by left|by intros []|].
      intros E%negb_false_iff%bool_decide_eq_true. by subst. }
  destruct n as [|nkey c fl|cs fl|h|w].
  - apply unfolds_Nil in Hu as ->. destruct Hok as [[? _]|[Hx _]]; [done|]. eexists. split; [done|].
    exists (PShort (k0 :: krest) (PVal v)). split_and!; [by cbn|by right; split; [|right; split]| |done].
    intros k. rewrite pget_short. unfold at_key. case_bool_decide as E; [subst; by rewrite strip_same|].
    destruct (strip (k0 :: krest) k) as [[|]|] eqn:E'; [|done|done]. apply strip_Some in E'. by rewrite app_nil_r in E'.
  - destruct t as [| |nkey' ct|]; try done. destruct Hu as (<- & Hfl & Hc). apply sub_ok_short in Hok as [Hx Hwf].
    destruct (decide (prefixLen (k0 :: krest) nkey = length nkey)) as [E|E].
    2: { apply insert_fork; [by split_and!|done|done|done|done|done|]. unfold enough in Hf. cbn in Hf. lia. }
    cbn [insert]. rewrite E, Nat.eqb_refl. apply prefixLen_full in E as [rest E]. rewrite E in *.
    rewrite take_app_length, drop_app_length. apply key_ok_app in Hk as [_ Hk].
    destruct (IH c ct (prefix ++ nkey) rest v false Hc) as ([d n'] & -> & t' & Hu' & Hok' & Hget & Hd);
      [by apply (sub_ok_below nkey)|done|done| |].
    { eapply enough_step; [exact Hf|done|]. rewrite length_app.
      apply wf_short_inv in Hwf as [_ [(? & _ & H & _)|(? & _ & H & _)]]; (destruct nkey; [|cbn; lia]); [by apply hexkey_nil in H|done]. }
    cbn [mbind outcome_bind]. exists (d, if d then shortNode nkey n' (newFlag tr) else shortNode nkey c fl).
    split; [by destruct d|]. exists (PShort nkey t'). cbn [fst snd] in *. split_and!.
    + destruct d; cbn; [by split_and!|]. rewrite Hd by done. by split_and!.
    + right. split; [done|]. right. eapply short_below; [exact Hwf|by apply (sub_ok_below nkey)|done|done].
    + intros k. rewrite !pget_short. destruct (strip nkey k) as [kr|] eqn:Ek.
      * apply strip_Some in Ek as ->. rewrite Hget. apply at_key_iff. split; [by intros ->|by intros ?%app_inv_head].
      * rewrite at_key_ne; [done|]. intros ->. by rewrite strip_app in Ek.
    + intros ->. by rewrite Hd.
  - destruct t as [| | |ts]; try done. apply unfolds_full in Hu as [Hfl HF]. apply sub_ok_full in Hok as [Hx Hwf].
    pose proof (proj1 (wf_full ts) Hwf) as (Hl & H2 & Hkids). pose proof (hexkey_nib k0 krest Hx) as Hnb. cbn [insert].
    destruct (child_at_ok cs ts k0 HF ltac:(lia)) as (c & -> & Hc). cbn [val_or_panic mbind outcome_bind].
    destruct (IH c (kid ts k0) (prefix ++ [k0]) krest v false Hc) as ([d n'] & -> & t' & Hu' & Hok' & Hget & Hd);
      [by apply sub_ok_kid|by apply (key_ok_app [k0]) in Hk as [_ ?]|done|eapply enough_step; [exact Hf|done|cbn; lia]|].
    cbn [mbind outcome_bind fst snd] in *. destruct (set_child_ok cs ts k0 n' t' HF ltac:(lia) Hu') as (cs' & Es & HF').
    exists (d, if d then fullNode cs' (newFlag tr) else fullNode cs fl). split; [destruct d; cbn; [by rewrite Es|done]|].
    exists (PFull (<[nib k0 := t']> ts)).
    assert (∀ b, kid (<[nib k0 := t']> ts) b = if bool_decide (b = k0) then t' else kid ts b) as Hkid by (intros; by apply kid_insert).
    assert (t' ≠ PNil) as Hn'. { intros ->. specialize (Hget krest). by rewrite at_key_eq in Hget. }
    assert (d = false → <[nib k0 := t']> ts = ts) as Hsame.
    { intros ->. rewrite Hd by done. apply list_insert_id. unfold kid. destruct (lookup_lt_is_Some_2 ts (nib k0)) as [t0 Et]; [lia|]. by rewrite Et. }
    split_and!.
    + cbn [snd]. destruct d; apply unfolds_full; [done|]. by rewrite Hsame.
    + right. split; [done|]. right. apply wf_full. split_and!; [by rewrite length_insert| |].
      * destruct H2 as (b1 & b2 & Hne & N1 & N2). exists b1, b2. rewrite !Hkid. split; [done|]. split; by case_bool_decide.
      * intros b. rewrite Hkid. case_bool_decide; [subst; by eapply kid_ok_sub|done].
    + intros [|b k]; [done|]. rewrite !pget_full, Hkid. case_bool_decide as Hb; [|by rewrite at_key_ne by congruence].
      subst b. rewrite Hget. apply at_key_iff. split; [by intros ->|by intros [= ->]].
    + intros Hd'. by rewrite Hsame.
  - destruct (resolveHash_ok r h t prefix Hu) as [Hr Hu']. cbn [insert]. rewrite Hr. cbn [mbind outcome_bind].
    assert (wf_node t) as Hwf by apply Hu.
    destruct (IH _ t prefix (k0 :: krest) v r Hu' Hok Hk Hv (enough_load _ _ _ _ _ Hf Hwf)) as ([d n'] & -> & t' & H1 & H2 & H3 & H4).
    exists (d, if d then n' else topnode sha3 (cachegen tr) (Some h) t). split; [by destruct d|].
    exists t'. destruct d; [done|]. cbn [fst snd] in *. split_and!; try done. by rewrite H4.
  - destruct t as [|w'| |]; try done. destruct Hok as [[? _]|[_ [?|?]]]; done.
Qed.

(** ** Deletion *)

Lemma single_child_rest cs i pos : 0 ≤ pos →
  (Forall (λ c, c = Nil) cs ∧ single_child i pos cs = pos) ∨ (∃ j c, cs !! j = Some c ∧ c ≠ Nil ∧ single_child i pos cs = -2).
Proof.
  intros Hp. revert i. induction cs as [|c cs IH]; intros i; [by left|].
  destruct c as [| | | |]; [|right; exists O; eexists; (split; [done|]; split; [done|]; cbn; by rewrite (proj2 (Z.eqb_neq pos (-1))) by lia)..].
  destruct (IH (i + 1)) as [[HF E]|(j & c & E & Hn & H)]; [left|right]; [by split; [constructor|]|by exists (S j), c].
Qed.
Lemma single_child_cases cs i : 0 ≤ i →
  (Forall (λ c, c = Nil) cs ∧ single_child i (-1) cs = -1) ∨
  (∃ j c, cs !! j = Some c ∧ c ≠ Nil ∧ (∀ j' c', cs !! j' = Some c' → j' ≠ j → c' = Nil) ∧ single_child i (-1) cs = i + Z.of_nat j) ∨
  (∃ j1 j2 c1 c2, j1 ≠ j2 ∧ cs !! j1 = Some c1 ∧ c1 ≠ Nil ∧ cs !! j2 = Some c2 ∧ c2 ≠ Nil ∧ single_child i (-1) cs = -2).
Proof.
  revert i. induction cs as [|c cs IH]; intros i Hi; [by left|].
  destruct (decide (c = Nil)) as [->|Hc].
  - destruct (IH (i + 1)) as [[HF E]|[(j & c & E & Hn & Ho & H)|(j1 & j2 & c1 & c2 & Hne & E1 & N1 & E2 & N2 & H)]]; [lia|left|right; left|right; right].
    + by split; [constructor|].
    + exists (S j), c. split_and!; [done|done| |cbn; rewrite H; lia].
      intros [|j'] c' E' Hj'; cbn in E'; [congruence|]. apply (Ho j' c' E'). congruence.
    + exists (S j1), (S j2), c1, c2. split_and!; try done. congruence.
  - right. assert (single_child i (-1) (c :: cs) = single_child (i + 1) i cs) as -> by by destruct c.
    destruct (single_child_rest cs (i + 1) i Hi) as [[HF E]|(j & c' & E & Hn & H)]; [left|right].
    + exists O, c. split_and!; [done|done| |rewrite E; lia]. intros [|j'] c' E' Hj'; [done|]. by rewrite Forall_lookup in HF; apply (HF j').
    + exists O, (S j), c, c'. by split_and!.
Qed.

Definition bounded (t : ptrie) : Prop := ∀ k v, pget t k = Some v → Zlen k < 2 ^ 60.
Lemma bounded_kid ts b : bounded (PFull ts) → bounded (kid ts b).
Proof.
  intros H k v E. specialize (H (b :: k) v). rewrite pget_full in H. specialize (H E). unfold Zlen in *. cbn [length] in H. lia.
Qed.
Lemma bounded_below k t : bounded (PShort k t) → bounded t.
Proof.
  intros H r v E. specialize (H (k ++ r) v). rewrite pget_short, strip_app in H. specialize (H E).
  rewrite Zlen_app in H. pose proof (Zlen_nonneg k). lia.
Qed.
Lemma bounded_key p k c : wf_node (PShort k c) → bounded (PShort (p ++ k) c) → key_ok (p ++ k).
Proof.
  intros Hwf Hb. destruct (wf_inhabited _ Hwf) as (r & v & E). rewrite pget_short in E.
  destruct (strip k r) as [r'|] eqn:Er; [|done]. specialize (Hb ((p ++ k) ++ r') v).
  rewrite pget_short, strip_app in Hb. specialize (Hb E). rewrite Zlen_app in Hb. pose proof (Zlen_nonneg r'). unfold key_ok. lia.
Qed.
(** Nibbles put in front of the key of a short node. *)
Lemma extend_short p k c : nibbles p → wf_node (PShort k c) → bounded (PShort (p ++ k) c) → wf_node (PShort (p ++ k) c).
Proof.
  intros Hp Hwf Hb. pose proof (bounded_key _ _ _ Hwf Hb) as Hk. split; [done|].
  apply wf_short_inv in Hwf as [_ [(v & -> & Hx & Hv)|(ts & -> & Hn & Hnib & Hw)]].
  - split; [by apply hexkey_app|done].
  - split_and!; [by destruct p|by apply Forall_app|done].
Qed.
Lemma same_bounded t t' : same_keys t t' → bounded t' → bounded t.
Proof. intros Hs Hb k v E. rewrite Hs in E. by eapply Hb. Qed.

(** A short node over the only child of a full node. *)
Lemma only_kid_keys ts b t k : kid ts b = t → (∀ b', b' ≠ b → kid ts b' = PNil) → pget (PShort [b] t) k = pget (PFull ts) k.
Proof.
  intros Hb Ho. rewrite pget_short. destruct k as [|x k]; [done|]. rewrite pget_full. cbn [strip].
  case_bool_decide as E; [by subst|]. rewrite Ho; [done|congruence].
Qed.
Lemma short_short_keys p k c key : pget (PShort p (PShort k c)) key = pget (PShort (p ++ k) c) key.
Proof.
  rewrite !pget_short. destruct (strip p key) as [r|] eqn:E.
  - apply strip_Some in E as ->. rewrite pget_short.
    assert (strip (p ++ k) (p ++ r) = strip k r) as -> by (induction p; [done|]; cbn; by rewrite bool_decide_eq_true_2).
    done.
  - destruct (strip (p ++ k) key) as [r|] eqn:E'; [|done]. apply strip_Some in E' as ->. rewrite <- app_assoc, strip_app in E. done.
Qed.

Lemma reduce_full_ok r cs ts prefix : Forall2 (unfolds db false) cs ts → length ts = 17%nat → (∀ b, kid_ok b (kid ts b)) →
  (∃ b, kid ts b ≠ PNil) → bounded (PFull ts) →
  ∃ n' t', reduce_full tr cs prefix = Val n' ∧ unfolds db r n' t' ∧ wf_node t' ∧ same_keys t' (PFull ts) ∧ is_hash n' = false.
Proof.
  intros HF Hl Hk [b0 Hb0] Hbd. unfold reduce_full. pose proof (Forall2_length _ _ _ HF) as Hcl.
  assert (∀ j c, cs !! j = Some c → unfolds db false c (kid ts (Zbyte (Z.of_nat j))) ∧ (j < 17)%nat) as Hlook.
  { intros j c E. destruct (Forall2_lookup_l _ _ _ _ _ HF E) as (t & Et & Hu). rewrite (kid_lookup ts j t Hl Et).
    split; [done|]. apply lookup_lt_Some in Et. lia. }
  destruct (single_child_cases cs 0 ltac:(lia)) as [[Hn _]|[(j & c & E & Hc & Ho & ->)|(j1 & j2 & c1 & c2 & Hne & E1 & N1 & E2 & N2 & ->)]].
  - exfalso. apply Hb0. unfold kid. destruct (ts !! nib b0) as [t|] eqn:Et; [|done].
    destruct (Forall2_lookup_r _ _ _ _ _ HF Et) as (c & Ec & Hu). rewrite Forall_lookup in Hn. rewrite (Hn _ _ Ec) in Hu.
    by apply unfolds_Nil in Hu.
  - rewrite Z.add_0_l, Z.geb_leb, (proj2 (Z.leb_le 0 _)), Nat2Z.id, E by lia. cbn [val_or_panic mbind outcome_bind].
    destruct (Hlook j c E) as [Hu Hj]. set (b := Zbyte (Z.of_nat j)) in *. set (t := kid ts b) in *.
    assert (∀ b', b' ≠ b → kid ts b' = PNil) as Hothers.
    { intros b' Hb'. unfold kid. destruct (ts !! nib b') as [t'|] eqn:Et; [|done].
      destruct (Forall2_lookup_r _ _ _ _ _ HF Et) as (c' & Ec & Hu'). rewrite (Ho _ _ Ec) in Hu'; [by apply unfolds_Nil in Hu'|].
      intros Hnj. apply Hb', (inj nib). unfold b. rewrite nib_Zbyte; lia. }
    assert (t ≠ PNil) as Ht. { intros Ht. rewrite Ht in Hu. apply unfolds_nil in Hu. done. }
    assert (same_keys (PShort [b] t) (PFull ts)) as Hsame by (intros k; by apply only_kid_keys).
    specialize (Hk b). fold t in Hk.
    destruct (kid_ok_cases b t Hk Ht) as [(Hb & v & Ev & Hv)|[Hb Hw]].
    + assert (Z.of_nat j = 16) as ->.
      { apply (f_equal nib) in Hb. unfold b in Hb. rewrite nib_Zbyte, nib_terminator in Hb by lia. lia. }
      cbn [Z.eqb Pos.eqb negb]. rewrite Ev in *. eexists _, (PShort [terminator] (PVal v)).
      split_and!; [done|split_and!; [by rewrite Hb|done|done]| |by rewrite <- Hb|done].
      split; [done|]. split; [|done]. exists []. split; [done|constructor].
    + assert (Z.of_nat j ≠ 16) as Hj16.
      { intros Hj16. apply Hb. unfold b. by rewrite Hj16. }
      rewrite (proj2 (Z.eqb_neq _ _) Hj16). cbn [negb].
      assert (nibble b) as Hnb by (apply nibble_Zbyte; lia).
      assert (∃ cn, resolve tr c prefix = Val cn ∧ unfolds db false cn t ∧ is_hash cn = false) as (cn & -> & Hcn & Hnh).
      { unfold resolve. destruct c; try (by eexists; split_and!). destruct (resolveHash_ok false hash0 t prefix Hu) as [-> Hu'].
        eexists. split_and!; [done|done|]. by destruct t. }
      cbn [mbind outcome_bind]. fold b. destruct t as [| |ck ct|cts]; try done.
      * destruct cn as [|ck' cv cfl| | |]; try done. destruct Hcn as (<- & _ & Hcv).
        assert (same_keys (PShort (b :: ck') ct) (PFull ts)) as Hs2.
        { intros k. rewrite <- Hsame. symmetry. apply (short_short_keys [b]). }
        eexists _, (PShort (b :: ck') ct). split_and!; [done|split_and!; [done|done|done]| |done|done].
        apply (extend_short [b]); [by constructor|done|by eapply same_bounded].
      * exists (shortNode [b] c (newFlag tr)), (PShort [b] (PFull cts)). split_and!.
        -- by destruct cn.
        -- by split_and!.
        -- split; [done|]. split_and!; [done|by constructor|done].
        -- done.
        -- done.
  - cbn. eexists _, (PFull ts). split_and!; [done|by apply unfolds_full| |done|done]. apply wf_full. split_and!; [done| |done].
    destruct (Hlook _ _ E1) as [U1 J1], (Hlook _ _ E2) as [U2 J2].
    exists (Zbyte (Z.of_nat j1)), (Zbyte (Z.of_nat j2)). split_and!.
    + intros H%(f_equal nib). rewrite !nib_Zbyte in H by lia. done.
    + intros H. rewrite H in U1. by apply unfolds_nil in U1.
    + intros H. rewrite H in U2. by apply unfolds_nil in U2.
Qed.

Definition deleted (r : bool) (t : ptrie) (key : list byte) (dn : bool * node) : Prop := ∃ t',
  unfolds db r dn.2 t' ∧ sub_ok key t' ∧ (∀ k, pget t' k = at_key k key None (pget t k)) ∧
  (dn.1 = false → t' = t) ∧ (dn.1 = true → is_hash dn.2 = false).

Lemma unchanged r t key n : unfolds db r n t → sub_ok key t → pget t key = None → deleted r t key (false, n).
Proof.
  intros Hu Hok Hn. exists t. split_and!; try done. intros k. unfold at_key. case_bool_decide; [by subst|done].
Qed.

(** Below a short node over a full node there is always something left. *)
Lemma delete_short nkey ts t' rest n' : wf_node (PShort nkey (PFull ts)) → bounded (PShort nkey (PFull ts)) →
  wf_trie t' → unfolds db false n' t' → is_hash n' = false →
  (∀ k, pget t' k = at_key k rest None (pget (PFull ts) k)) →
  ∃ t'', wf_node t'' ∧ (∀ k, pget t'' k = pget (PShort nkey t') k) ∧
    ∀ r, unfolds db r (match n' with
      | shortNode ckey cval _ => shortNode (nkey ++ ckey) cval (newFlag tr)
      | _ => shortNode nkey n' (newFlag tr)
      end) t''.
Proof.
  intros Hwf Hb Ht' Hu Hh Hget. pose proof Hwf as [Hk [(? & ? & _)|(? & _ & Hn & Hnib & Hw)]]%wf_short_inv; [done|].
  destruct Ht' as [->|Hw'].
  { exfalso. destruct (full_parts ts Hw) as (b1 & k1 & v1 & b2 & k2 & v2 & Hne & E1 & E2).
    pose proof (Hget (b1 :: k1)) as H1. pose proof (Hget (b2 :: k2)) as H2. rewrite E1 in H1. rewrite E2 in H2.
    cbn [pget] in H1, H2. unfold at_key in H1, H2. repeat case_bool_decide; congruence. }
  destruct t' as [| |ck cc|cts]; try done.
  - destruct n' as [|ck' cv fl| | |]; try done. destruct Hu as (-> & _ & Hcv). exists (PShort (nkey ++ ck) cc).
    assert (∀ k, pget (PShort (nkey ++ ck) cc) k = pget (PShort nkey (PShort ck cc)) k) as Hsame.
    { intros k. symmetry. apply short_short_keys. }
    split_and!; [|done|by intros r; split_and!]. apply extend_short; [done|done|]. intros k v. rewrite Hsame, pget_short.
    destruct (strip nkey k) as [kr|] eqn:E; [|done]. rewrite Hget. unfold at_key. case_bool_decide; [done|].
    intros Hg. apply (Hb k v). by rewrite pget_short, E.
  - exists (PShort nkey (PFull cts)). split_and!; [|done|by intros r; destruct n'; try done; split_and!]. by split_and!.
Qed.

Lemma delete_ok fuel : ∀ n t prefix key r, unfolds db r n t → sub_ok key t → bounded t → enough fuel n key →
  ∃ dn, delete fuel tr n prefix key = Val dn ∧ deleted r t key dn.
Proof.
  induction fuel as [|fuel IH]; intros n t prefix key r Hu Hok Hbd Hf; [by apply enough_pos in Hf as [? ?]|].
  destruct n as [|nkey c fl|cs fl|h|w]; cbn [delete].
  - apply unfolds_Nil in Hu as ->. eexists. split; [done|]. by apply unchanged.
  - destruct t as [| |nkey' ct|]; try done. pose proof Hu as (<- & Hfl & Hc). pose proof Hok as [Hx Hwf]%sub_ok_short.
    destruct (prefixLen_le key nkey) as [L1 L2]. destruct (Nat.ltb_spec (prefixLen key nkey) (length nkey)) as [Hlt|Hge].
    { eexists. split; [done|]. apply unchanged; [done|done|]. rewrite pget_short. destruct (strip nkey key) as [r'|] eqn:E; [|done].
      apply strip_Some in E. assert (nkey `prefix_of` key) as Hp%prefixLen_full by by exists r'. lia. }
    assert (prefixLen key nkey = length nkey) as E by lia. rewrite E. apply prefixLen_full in E as [rest ->].
    rewrite length_app, drop_app_length. destruct rest as [|x rest].
    + rewrite app_nil_r in *. cbn [length]. rewrite Nat.add_0_r, Nat.eqb_refl. eexists. split; [done|]. exists PNil.
      split_and!; [done|by right; split; [|left]| |done|done]. intros k. unfold at_key. case_bool_decide as Hk; [done|].
      rewrite pget_short. destruct (strip nkey k) as [kr|] eqn:E; [|done].
      apply wf_short_inv in Hwf as [_ [(v & -> & _)|(ts & -> & _ & Hn & _)]].
      * destruct kr; [|done]. apply strip_Some in E. by rewrite app_nil_r in E.
      * destruct (hexkey_prefix nkey [] Hx) as [_ H]. by rewrite app_nil_r in H.
    + rewrite (proj2 (Nat.eqb_neq _ _)) by (cbn; lia).
      pose proof (sub_ok_below _ _ _ Hwf Hx) as Hsub. pose proof Hwf as [_ [(v & -> & Hkx & _)|(ts & -> & Hn & Hnib & Hw)]]%wf_short_inv.
      { destruct (hexkey_prefix nkey (x :: rest) Hkx) as [H _]. by specialize (H Hx). }
      destruct (IH c (PFull ts) (prefix ++ take (length nkey) (nkey ++ x :: rest)) (x :: rest) false Hc Hsub)
        as ([d n'] & -> & t' & Hu' & Hok' & Hget & Hd & Hh); [by eapply bounded_below| |].
      { eapply enough_step; [exact Hf|done|]. rewrite length_app. destruct nkey; [done|cbn; lia]. }
      cbn [mbind outcome_bind fst snd] in *. destruct d; cbn [negb].
      * assert (wf_trie t') as Ht' by (destruct Hok' as [[? _]|[_ ?]]; done).
        destruct (delete_short nkey ts t' (x :: rest) n' Hwf Hbd Ht' Hu' (Hh eq_refl) Hget) as (t'' & Hw'' & Hsame & Hu'').
        exists (true, match n' with
                | shortNode ckey cval _ => shortNode (nkey ++ ckey) cval (newFlag tr)
                | _ => shortNode nkey n' (newFlag tr)
                end).
        split; [by destruct n'|]. exists t''. split_and!; [|by right; split; [|right]| |done|].
        -- apply Hu''.
        -- intros k. rewrite Hsame, !pget_short. destruct (strip nkey k) as [kr|] eqn:E.
           ++ apply strip_Some in E as ->. rewrite Hget. apply at_key_iff. split; [by intros ->|by intros ?%app_inv_head].
           ++ rewrite at_key_ne; [done|]. intros ->. by rewrite strip_app in E.
        -- by destruct n'.
      * eexists. split; [done|]. apply unchanged; [done|done|]. rewrite pget_short, strip_app.
        rewrite <- (Hd eq_refl), Hget. apply at_key_eq.
  - destruct t as [| | |ts]; try done. pose proof Hu as [Hfl HF]%unfolds_full. pose proof Hok as [Hx Hwf]%sub_ok_full.
    destruct key as [|k0 krest]; [by apply hexkey_nil in Hx|].
    pose proof (proj1 (wf_full ts) Hwf) as (Hl & (b1 & b2 & Hne & N1 & N2) & Hkids). pose proof (hexkey_nib k0 krest Hx) as Hnb.
    destruct (child_at_ok cs ts k0 HF ltac:(lia)) as (c & -> & Hc). cbn [val_or_panic mbind outcome_bind].
    destruct (IH c (kid ts k0) (prefix ++ [k0]) krest false Hc) as ([d n'] & -> & t' & Hu' & Hok' & Hget & Hd & Hh);
      [by apply sub_ok_kid|by apply bounded_kid|eapply enough_step; [exact Hf|done|cbn; lia]|].
    cbn [mbind outcome_bind fst snd] in *. destruct d; cbn [negb].
    2: { eexists. split; [done|]. apply unchanged; [done|done|]. rewrite pget_full, <- (Hd eq_refl), Hget. apply at_key_eq. }
    destruct (set_child_ok cs ts k0 n' t' HF ltac:(lia) Hu') as (cs' & -> & HF'). cbn [val_or_panic mbind outcome_bind].
    assert (∀ b, kid (<[nib k0 := t']> ts) b = if bool_decide (b = k0) then t' else kid ts b) as Hkid by (intros; by apply kid_insert).
    assert (∀ k, pget (PFull (<[nib k0 := t']> ts)) k = at_key k (k0 :: krest) None (pget (PFull ts) k)) as Hcont.
    { intros [|b k]; [done|]. rewrite !pget_full, Hkid. case_bool_decide as Hb; [|by rewrite at_key_ne by congruence].
      subst b. rewrite Hget. apply at_key_iff. split; [by intros ->|by intros [= ->]]. }
    destruct (reduce_full_ok r cs' _ prefix HF') as (n'' & t'' & -> & Hu'' & Hw'' & Hsame & Hh'').
    + by rewrite length_insert.
    + intros b. rewrite Hkid. case_bool_decide; [subst; by eapply kid_ok_sub|done].
    + destruct (decide (b1 = k0)) as [->|Hb1]; [exists b2|exists b1]; rewrite Hkid, bool_decide_eq_false_2; congruence.
    + intros k v. rewrite Hcont. unfold at_key. case_bool_decide; [done|]. apply Hbd.
    + cbn [mbind outcome_bind]. eexists. split; [done|]. exists t''. split_and!; [done|by right; split; [|right]| |done|done].
      intros k. by rewrite Hsame, Hcont.
  - destruct (resolveHash_ok r h t prefix Hu) as [-> Hu']. cbn [mbind outcome_bind]. assert (wf_node t) as Hwf by apply Hu.
    destruct (IH _ t prefix key r Hu' Hok Hbd (enough_load _ _ _ _ _ Hf Hwf)) as ([d n'] & -> & t' & H1 & H2 & H3 & H4 & H5).
    cbn [mbind outcome_bind fst snd] in *. exists (d, if d then n' else topnode sha3 (cachegen tr) (Some h) t). split; [by destruct d|].
    exists t'. destruct d; [done|]. cbn [fst snd] in *. split_and!; try done. by rewrite H4.
  - destruct t as [|w'| |]; try done. destruct Hok as [[-> _]|[_ [?|?]]]; try done. eexists. split; [done|]. exists PNil.
    split_and!; [done|by left| |done|done]. by intros [].
Qed.
End ops.
