(* ===== verification/TrieHash.v ===== *)
(** * Tries: the hasher

    The hasher returns the reference hash of the tree whatever is cached,
    loaded or dirty, leaves a node that stands for the same tree, and with a
    database to write to, leaves the tree in it. *)

From stdpp Require Import base tactics list numbers gmap.
From S2P Require Import Prelude RlpEncode RlpEncodeFacts RlpDecode RlpRaw Trie TrieKeys TriePure TrieNode TrieOps.

#[local] Open Scope Z_scope.
Import trie.

(** What the trie relies on from its database. *)
Class DatabaseLaws (DB : Type) {database : Database DB} : Prop := {
  db_Put_ok k v (db : DB) : match db_Put k v db with
    | (db', Val _) => ∀ k', db_Get k' db' = if bool_decide (k' = k) then Some v else db_Get k' db
    | (db', Err _) => ∀ k', db_Get k' db' = db_Get k' db
    | _ => False
    end }.

Section hasher.
Context {DB : Type} {database : Database DB} {db_laws : DatabaseLaws DB}.
Context (sha3 : list byte → list byte) (sha3_length : ∀ b, Zlen (sha3 b) = 32).
(** The byte strings that are ever stored.  Writing them must not overwrite
    another one, so there must be no collision among them. *)
Context (known : list byte → Prop).
Definition no_collisions : Prop := ∀ x y, known x → known y → sha3 x = sha3 y → x = y.

Abbreviation unfolds := (unfolds sha3).
Abbreviation stored := (stored sha3).
Abbreviation penc := (penc sha3).
Abbreviation pref := (pref sha3).

Fixpoint all_known (t : ptrie) : Prop :=
  match t with
  | PNil | PVal _ => True
  | PShort k c => known (penc t) ∧ all_known c
  | PFull ts => known (penc t) ∧
      (fix all (ts : list ptrie) : Prop := match ts with [] => True | t :: ts => all_known t ∧ all ts end) ts
  end.
Lemma all_known_full ts : all_known (PFull ts) ↔ known (penc (PFull ts)) ∧ Forall all_known ts.
Proof.
  cbn [all_known]. apply and_iff_compat_l. induction ts as [|t ts IH]; [by split|]. rewrite Forall_cons_iff. tauto.
Qed.
Lemma all_known_top t : wf_node t → all_known t → known (penc t).
Proof. destruct t; try done; intros _ [H _]; done. Qed.

(** ** Databases that only grow *)

(** The trees that were stored still are; and nothing but hashes is written. *)
Definition keeps (s s' : option DB) : Prop := ∀ t r, all_known t → stored s r t → stored s' r t.
Definition extends (s s' : option DB) : Prop := keeps s s' ∧ ∀ k, Zlen k ≠ 32 → sget s' k = sget s k.
#[local] Instance extends_refl : Reflexive extends.
Proof. intros s. split; [by intros t r|done]. Qed.
#[local] Instance extends_trans : Transitive extends.
Proof.
  intros s1 s2 s3 [H1 F1] [H2 F2]. split; [intros t r Hk Hs; by apply H2, H1|]. intros k Hk. by rewrite F2, F1.
Qed.
Lemma extends_stored s s' t r : extends s s' → all_known t → stored s r t → stored s' r t.
Proof. intros [H _]. apply H. Qed.

Lemma stored_mono s s' t : (∀ e, known e → sget s (sha3 e) = Some e → sget s' (sha3 e) = Some e) →
  ∀ r, all_known t → stored s r t → stored s' r t.
Proof.
  intros H. induction t as [| |k t IH|ts IH] using ptrie_ind'; intros r Hk Hs; try done.
  - destruct Hk as [Hk Hkt], Hs as [Hg Hs]. split; [auto|by apply IH].
  - apply all_known_full in Hk as [Hk Hkt]. apply stored_full in Hs as [Hg Hs]. apply stored_full. split; [auto|].
    rewrite Forall_forall in *. intros t Ht. apply IH; auto.
Qed.
Lemma same_view s s' : (∀ h, sget s' h = sget s h) → extends s s'.
Proof. intros H. split; [|by intros k _]. intros t r. apply stored_mono. intros e _ He. by rewrite H. Qed.

Lemma flag_ok_keeps s s' r t fl : keeps s s' → all_known t → flag_ok sha3 s r t fl → flag_ok sha3 s' r t fl.
Proof.
  unfold flag_ok. destruct (flag_hash fl); [|done]. intros He Hk (? & ? & Hs). split_and!; [done|done|]. intros Hd.
  apply He; auto.
Qed.
Lemma flag_ok_mono s s' r t fl : extends s s' → all_known t → flag_ok sha3 s r t fl → flag_ok sha3 s' r t fl.
Proof. intros [H _]. by apply flag_ok_keeps. Qed.
Lemma unfolds_keeps s s' n : keeps s s' → ∀ r t, all_known t → unfolds s r n t → unfolds s' r n t.
Proof.
  intros He. induction n as [|k c fl IH|cs fl IH|h|v] using node_ind'; intros r t Hk Hu; destruct t as [|w|k' t|ts]; try done.
  - destruct Hu as (-> & Hfl & Hu). split_and!; [done|by eapply flag_ok_keeps|]. apply IH; [by destruct Hk|done].
  - apply TrieOps.unfolds_full in Hu as [Hfl HF]. apply TrieOps.unfolds_full. split; [by eapply flag_ok_keeps|].
    apply all_known_full in Hk as [_ Hk]. apply Forall2_same_length_lookup. split; [by eapply Forall2_length|].
    intros i c t Ec Et. rewrite Forall_lookup in IH. rewrite Forall_lookup in Hk. apply (IH _ _ Ec); [by eapply Hk|].
    by eapply Forall2_lookup_lr.
  - destruct Hu as (? & ? & ? & Hs). split_and!; try done. by apply He.
  - destruct Hu as (? & ? & ? & Hs). split_and!; try done. by apply He.
Qed.
Lemma unfolds_mono s s' n : extends s s' → ∀ r t, all_known t → unfolds s r n t → unfolds s' r n t.
Proof. intros [H _]. by apply unfolds_keeps. Qed.

Lemma unfolds_kids_mono s s' cs ts : extends s s' → Forall all_known ts →
  Forall2 (unfolds s false) cs ts → Forall2 (unfolds s' false) cs ts.
Proof.
  intros He Hk HF. induction HF as [|c t cs ts Hc _ IH]; [done|]. apply Forall_cons_iff in Hk as [Hkt Hk].
  constructor; [by eapply unfolds_mono|by apply IH].
Qed.

(** ** Storing *)

Definition put_fails : Prop := ∃ k v (db : DB) e, (db_Put k v db).2 = Err e.
Lemma put_wp e (s : option DB) : no_collisions → known e → is_Some s →
  wp False (put (sha3 e) e) (λ _ s', extends s s' ∧ is_Some s' ∧ sget s' (sha3 e) = Some e)
    (λ _ s', extends s s' ∧ is_Some s' ∧ put_fails) s.
Proof.
  intros Hnc Hk [d ->]. unfold put, wpg. pose proof (db_Put_ok (sha3 e) e d) as H.
  destruct (db_Put (sha3 e) e d) as [d' [u|er| |]] eqn:Ep; try done.
  - split_and!; [|by eexists|cbn; by rewrite H, bool_decide_eq_true_2].
    split; [|intros k Hlen; cbn; rewrite H; case_bool_decide; [by subst; destruct (Hlen (sha3_length e))|done]].
    intros t r. apply stored_mono. intros e' Hk' He. cbn in *. rewrite H. case_bool_decide as E; [|done].
    f_equal. symmetry. by apply Hnc.
  - split_and!; [by apply same_view|by eexists|]. exists (sha3 e), e, d, er. by rewrite Ep.
Qed.

(** How a collapsed node appears in its parent. *)
Definition collapsed_as (c : node) (t : ptrie) : Prop := nenc c = pref t ∧ arity c ∧ c ≠ Nil.
(** What [hash] returns for a node. *)
Definition hashes (r : bool) (t : ptrie) (hashed : node) : Prop :=
  if r || big sha3 t then hashed = hashNode (sha3 (penc t))
  else nenc hashed = penc t ∧ arity hashed ∧ hashed ≠ Nil ∧ hash_of hashed = None.
Lemma hashes_collapsed t hashed : wf_node t → hashes false t hashed → collapsed_as hashed t.
Proof.
  intros Hwf. unfold hashes, collapsed_as. rewrite pref_node by done. cbn [orb]. destruct (big sha3 t); [by intros ->|].
  by intros (? & ? & ? & _).
Qed.

Definition view (w : bool) (db s : option DB) : option DB := if w then s else db.

(** Only the database fails. *)
Definition failed (w : bool) (db s s' : option DB) : Prop := w = true ∧ extends (view w db s) (view w db s') ∧ is_Some s' ∧ put_fails.
Lemma failed_trans w db s1 s2 s3 : extends (view w db s1) (view w db s2) → failed w db s2 s3 → failed w db s1 s3.
Proof. intros H1 (-> & H2 & Hs & Hf). split_and!; [done|by etrans|done|done]. Qed.

(** The node is a short or full node with collapsed children. *)
Lemma store_wp w db r n t s : (w = true → no_collisions) → wf_node t → known (penc t) → nenc n = penc t → arity n →
  n ≠ Nil → hash_of n = None → (∀ v, n ≠ valueNode v) → (∀ h, flag_hash (node_flags n) = Some h → h = sha3 (penc t)) → (w = true → is_Some s) →
  wp False (store (DB:=DB) sha3 w r n)
    (λ hashed s', hashes r t hashed ∧ extends (view w db s) (view w db s') ∧ (w = true → is_Some s') ∧
       (w = true → r || big sha3 t = true → sget s' (sha3 (penc t)) = Some (penc t)))
    (λ _ s', failed w db s s') s.
Proof.
  intros Hnc Hwf Hk He Ha Hn Hh Hv Hfl Hs. unfold store.
  assert (∃ ty v, node_rlp n = Some (ty, v)) as (ty & v & Er) by (destruct n; try done; by eexists _, _).
  pose proof (penc_length sha3 sha3_length t Hwf) as Hl. rewrite <- He in Hl.
  destruct (node_Encode n ty v Er Ha ltac:(lia)) as [EE _].
  destruct n as [|nk nc fl|ncs fl|nh|nv]; try done; [| |by destruct (Hv nv)]; rewrite Er, EE, He; cbn [node_flags] in *.
  all: assert ((Zlen (penc t) <? 32) && negb r = negb (r || big sha3 t)) as ->
    by (unfold big; destruct r, (Z.ltb_spec (Zlen (penc t)) 32), (Z.leb_spec 32 (Zlen (penc t))); try done; lia).
  all: unfold hashes; destruct (r || big sha3 t) eqn:Eb; cbn [negb];
    [|unfold wpg, mret, M_ret; split_and!; try done].
  all: assert (default (sha3 (penc t)) (flag_hash fl) = sha3 (penc t)) as ->
    by (destruct (flag_hash fl); [by rewrite (Hfl _ eq_refl)|done]).
  all: destruct w; [|unfold wpg, mret, M_ret; by split_and!].
  all: apply wp_bind; (eapply wp_mono; [apply put_wp; [by apply Hnc|done|by apply Hs]|done| |by intros e s' (? & ? & ?); split_and!]);
    intros [] s' (H1 & H2 & H3); unfold wpg, mret, M_ret; by split_and!.
Qed.

(** ** Children *)

(** [h] hashes the child [c] as [hash] does, from any state that has grown
    from [s0]. *)
Definition hashes_child (w : bool) (db : option DB) (h : node → M (option DB) trie_error (node * node)) (c : node) : Prop :=
  ∀ t s, wf_node t → all_known t → unfolds (view w db s) false c t → (w = true → is_Some s) →
  wp False (h c)
    (λ hc s', hashes false t hc.1 ∧ unfolds (view w db s') false hc.2 t ∧ extends (view w db s) (view w db s') ∧
       (w = true → is_Some s') ∧ (w = true → stored s' false t))
    (λ _ s', failed w db s s') s.

(** The result of collapsing children. *)
Definition kids_done (w : bool) (db s s' : option DB) (c1 c2 : list node) (ts : list ptrie) : Prop :=
  Forall2 collapsed_as c1 ts ∧ Forall2 (unfolds (view w db s') false) c2 ts ∧
  extends (view w db s) (view w db s') ∧ (w = true → is_Some s') ∧ (w = true → Forall (stored s' false) ts).

Lemma slot_done w db s cs ts : Forall2 (unfolds (view w db s) false) cs ts → Forall slot_ok ts → (w = true → is_Some s) →
  kids_done w db s s (nil_to_empty <$> cs) cs ts.
Proof.
  intros HF Hok Hs. split_and!; [|done|done|done|intros _; eapply Forall_impl; [exact Hok|by intros []]].
  apply Forall2_fmap_l. induction HF as [|c t cs ts Hc _ IH]; [done|]. apply Forall_cons_iff in Hok as [Ht Hok].
  constructor; [|by apply IH]. destruct t as [|v| |]; try done.
  - apply unfolds_nil in Hc as ->. done.
  - apply unfolds_val in Hc as ->. done.
Qed.

Lemma hash_kids_wp w db h k : ∀ cs ts s, Forall (hashes_child w db h) cs → Forall2 (unfolds (view w db s) false) cs ts →
  Forall wf_trie (take k ts) → Forall slot_ok (drop k ts) → Forall all_known ts → (w = true → is_Some s) →
  wp False (hash_kids h k cs) (λ cc s', kids_done w db s s' cc.1 cc.2 ts) (λ _ s', failed w db s s') s.
Proof.
  induction k as [|k IH]; intros cs ts s Hh HF Hwf Hslot Hk Hs.
  { destruct cs as [|c cs]; unfold wpg; cbn; by apply (slot_done w db s) in HF. }
  destruct HF as [|c t cs ts Hc HF]; [unfold wpg; cbn; by split_and!|].
  apply Forall_cons_iff in Hh as [Hhc Hh], Hk as [Hkt Hk]. cbn [take drop] in *. apply Forall_cons_iff in Hwf as [Ht Hwf].
  cbn [hash_kids]. apply wp_bind.
  assert (wp False (match c with Nil => mret (valueNode [], Nil) | _ => h c end)
    (λ hc s', collapsed_as hc.1 t ∧ unfolds (view w db s') false hc.2 t ∧ extends (view w db s) (view w db s') ∧
       (w = true → is_Some s') ∧ (w = true → stored s' false t)) (λ _ s', failed w db s s') s) as Hfirst.
  { destruct Ht as [->|Ht]; [apply unfolds_nil in Hc as ->; unfold wpg; cbn; by split_and!|].
    assert (c ≠ Nil) as Hnn by (intros ->; by apply unfolds_Nil in Hc as ->).
    assert (match c with Nil => mret (valueNode [], Nil) | _ => h c end = h c) as -> by by destruct c.
    eapply wp_mono; [by apply Hhc|done| |done]. intros [hashed cached] s' (H1 & H2). split; [by apply hashes_collapsed|done]. }
  eapply wp_mono; [exact Hfirst|done| |done]. intros [c1 c2] s1 (H1 & H2 & H3 & H4 & H5). cbn [fst snd] in *.
  apply wp_bind. eapply wp_mono; [apply (IH cs ts s1 Hh)| | |].
  - by eapply unfolds_kids_mono.
  - done.
  - done.
  - done.
  - done.
  - done.
  - intros [cs1 cs2] s2 (K1 & K2 & K3 & K4 & K5). unfold wpg. cbn. split_and!; cbn.
    + by constructor.
    + constructor; [by eapply unfolds_mono|done].
    + by etrans.
    + done.
    + intros Hw. constructor; [|by apply K5]. destruct w; [|done]. apply K3; auto.
  - intros e s' He. by eapply failed_trans.
Qed.

Definition kids_stored (s : option DB) (t : ptrie) : Prop :=
  match t with
  | PShort _ c => stored s false c
  | PFull ts => Forall (stored s false) ts
  | _ => True
  end.
Lemma stored_split s r t : wf_node t → (r || big sha3 t = true → sget s (sha3 (penc t)) = Some (penc t)) → kids_stored s t →
  stored s r t.
Proof. destruct t; try done; intros _ H1 H2. by apply TrieOps.stored_full. Qed.
Lemma kids_stored_mono s s' t : extends s s' → all_known t → kids_stored s t → kids_stored s' t.
Proof.
  intros He Hk. destruct t as [| |k t|ts]; try done; cbn [kids_stored].
  - destruct Hk as [_ Hk]. by apply He.
  - apply all_known_full in Hk as [_ Hk]. intros H. rewrite Forall_forall in *. intros t Ht. apply He; auto.
Qed.

Definition kids_hash (w : bool) (db : option DB) (h : node → M (option DB) trie_error (node * node)) (n : node) : Prop :=
  match n with
  | shortNode _ c _ => hashes_child w db h c
  | fullNode cs _ => Forall (hashes_child w db h) cs
  | _ => True
  end.
Definition is_branch (n : node) : Prop := match n with shortNode _ _ _ | fullNode _ _ => True | _ => False end.

(** Collapsed and cached, with the flags of the original. *)
Definition walked (w : bool) (db s s' : option DB) (r : bool) (t : ptrie) (fl : nodeFlag) (cc : node * node) : Prop :=
  nenc cc.1 = penc t ∧ arity cc.1 ∧ is_branch cc.1 ∧ node_flags cc.1 = fl ∧
  is_branch cc.2 ∧ node_flags cc.2 = fl ∧ unfolds (view w db s') r cc.2 t ∧
  extends (view w db s) (view w db s') ∧ (w = true → is_Some s') ∧ (w = true → kids_stored s' t).

Lemma collapsed_join c1 ts : Forall2 collapsed_as c1 ts → nenc <$> c1 = pref <$> ts ∧ Forall arity c1 ∧ length c1 = length ts.
Proof.
  induction 1 as [|c t c1 ts (H1 & H2 & _) _ (I1 & I2 & I3)]; [done|]. rewrite !fmap_cons, H1, I1. cbn. split_and!; [done|by constructor|lia].
Qed.

Lemma hashChildren_wp w db h n t r s : is_branch n → kids_hash w db h n → wf_node t → all_known t →
  unfolds (view w db s) r n t → (w = true → is_Some s) →
  wp False (hashChildren h n) (λ cc s', walked w db s s' r t (node_flags n) cc) (λ _ s', failed w db s s') s.
Proof.
  intros Hb Hh Hwf Hk Hu Hs. destruct n as [|nk c fl|cs fl| |]; try done; destruct t as [| |k ct|ts]; try done; cbn [hashChildren node_flags kids_hash] in *.
  - destruct Hu as (-> & Hfl & Hc). pose proof Hwf as [Hkey Hcases]%wf_short_inv.
    assert (hexToCompact k = Some (compact k)) as Ek.
    { destruct Hcases as [(? & _ & Hx & _)|(? & _ & _ & Hx & _)]; destruct (compact_ok k) as [E _]; auto. }
    apply wp_bind. unfold wpg at 1. rewrite Ek. cbn [or_panic]. apply wp_bind.
    assert (wp False (match c with valueNode _ => mret (c, c) | _ => h c end)
      (λ cc s', collapsed_as cc.1 ct ∧ unfolds (view w db s') false cc.2 ct ∧ extends (view w db s) (view w db s') ∧
         (w = true → is_Some s') ∧ (w = true → stored s' false ct)) (λ _ s', failed w db s s') s) as Hchild.
    { destruct Hcases as [(v & -> & _ & Hv)|(ts & -> & _ & _ & Hwc)].
      - apply unfolds_val in Hc as ->. unfold wpg. cbn. by split_and!.
      - assert (match c with valueNode _ => mret (c, c) | _ => h c end = h c) as -> by by destruct c.
        eapply wp_mono; [apply (Hh (PFull ts)); [done|by destruct Hk|done|done]|done| |done].
        intros [hd cd] s' (H1 & H2). split; [by apply hashes_collapsed|done]. }
    eapply wp_mono; [exact Hchild|done| |done]. intros [c1 c2] s' ((H1 & Ha & Hn) & H2 & H3 & H4 & H5). cbn [fst snd] in *.
    unfold wpg, mret, M_ret, walked. cbn [fst snd].
    assert (nil_to_empty c1 = c1) as -> by by destruct c1.
    split_and!; [|done|done|done|done|done| |done|done|done].
    + cbn [nenc]. rewrite H1. done.
    + split_and!; [done|by eapply flag_ok_mono|done].
  - pose proof Hu as [Hfl HF]%TrieOps.unfolds_full. pose proof Hwf as (Hl & _ & Hkids)%wf_full. pose proof Hk as [_ Hka]%all_known_full.
    destruct (kids_split ts Hl Hkids) as (cs0 & v & E & Hcs & Hw0 & Hv).
    apply wp_bind. eapply wp_mono; [apply (hash_kids_wp w db h 16 cs ts s)|done| |done]; [done|done| | |done|done|].
    + rewrite E, take_app_length' by done. done.
    + rewrite E, drop_app_length' by done. by constructor.
    + intros [c1 c2] s' (H1 & H2 & H3 & H4 & H5). unfold wpg, mret, M_ret, walked. cbn [fst snd].
      destruct (collapsed_join c1 ts H1) as (J1 & J2 & J3). split_and!; [|apply arity_full; split; [lia|done]|done|done|done|done| |done|done|done].
      * cbn [nenc]. by rewrite J1.
      * apply TrieOps.unfolds_full. split; [by eapply flag_ok_mono|done].
Qed.

(** ** The hash of a node *)

Definition hash_done (w : bool) (db s s' : option DB) (r : bool) (t : ptrie) (hc : node * node) : Prop :=
  hashes r t hc.1 ∧ unfolds (view w db s') r hc.2 t ∧ extends (view w db s) (view w db s') ∧
  (w = true → is_Some s') ∧ (w = true → stored s' r t).

Lemma flag_ok_hash db r t fl : flag_ok sha3 db r t fl → ∀ h, flag_hash fl = Some h → h = sha3 (penc t).
Proof. unfold flag_ok. intros H h E. rewrite E in H. apply H. Qed.
Lemma unfolds_flag db r n t : is_branch n → unfolds db r n t → flag_ok sha3 db r t (node_flags n).
Proof.
  intros Hb Hu. destruct n as [|k c fl|cs fl| |]; try done; destruct t; try done; [by destruct Hu as (_ & ? & _)|].
  by apply TrieOps.unfolds_full in Hu as [? _].
Qed.
Lemma hash_walk_wp w db h n t r s : (w = true → no_collisions) → is_branch n → kids_hash w db h n → wf_node t → all_known t →
  unfolds (view w db s) r n t → (w = true → is_Some s) →
  wp False (hash_walk sha3 w r h n) (λ hc s', hash_done w db s s' r t hc) (λ _ s', failed w db s s') s.
Proof.
  intros Hnc Hb Hh Hwf Hk Hu Hs. unfold hash_walk. apply wp_bind.
  eapply wp_mono; [by apply (hashChildren_wp w db h n t r s)|done| |done].
  intros [c1 c2] s1 (He & Ha & Hb1 & Hf1 & Hb2 & Hf2 & Hu2 & Hext & Hs1 & Hst1). cbn [fst snd] in *. apply wp_bind.
  pose proof (unfolds_flag _ _ _ _ Hb2 Hu2) as Hfl.
  eapply wp_mono; [apply (store_wp w db r c1 t s1)|done| |by intros e s' ?; eapply failed_trans]; try done;
    [by eapply all_known_top|by destruct c1|by destruct c1|by destruct c1|rewrite Hf1, <- Hf2; by apply (flag_ok_hash _ _ _ _ Hfl)|].
  intros hashed s2 (H1 & H2 & H3 & H4). unfold wpg, mret, M_ret, hash_done. cbn [fst snd].
  assert (w = true → stored s2 r t) as Hst.
  { intros ->. apply stored_split; [done|auto|]. eapply kids_stored_mono; [exact H2|done|auto]. }
  split_and!; [done| |by etrans|done|done].
  assert (flag_ok sha3 (view w db s2) r t (set_cache w (hash_of hashed) (node_flags c2))) as Hfl2.
  { unfold flag_ok, hashes in *. cbn [set_cache flag_hash flag_dirty].
    destruct (r || big sha3 t) eqn:Er; [subst hashed; cbn [hash_of]|by destruct H1 as (_ & _ & _ & ->)].
    split_and!; [done|done|]. destruct w; [auto|]. intros Hd. destruct (flag_hash (node_flags c2)); [by apply Hfl|].
    by specialize (Hfl Hd). }
  destruct c2 as [|ck cc cfl|ccs cfl| |]; try done; cbn [node_flags] in *.
  - destruct t; try done. destruct Hu2 as (-> & _ & Hcc). split_and!; [done|done|]. eapply unfolds_mono; [exact H2|by destruct Hk|done].
  - destruct t; try done. apply TrieOps.unfolds_full in Hu2 as [_ HF]. apply TrieOps.unfolds_full. split; [done|].
    apply all_known_full in Hk as [_ Hk]. by eapply unfolds_kids_mono.
Qed.

(** The cached hash is used when there is no database, or nothing to write. *)
Lemma hash_cached w db g l n t r s : (w = true → no_collisions) → is_branch n → kids_hash w db (hash sha3 w g l false) n → wf_node t → all_known t →
  unfolds (view w db s) r n t → (w = true → is_Some s) →
  wp False (hash sha3 w g l r n) (λ hc s', hash_done w db s s' r t hc) (λ _ s', failed w db s s') s.
Proof.
  intros Hnc Hb Hh Hwf Hk Hu Hs.
  assert (hash sha3 w g l r n = match flag_hash (node_flags n) with
    | Some h => if negb w then mret (hashNode h, n)
      else if canUnload (node_flags n) g l then mret (hashNode h, hashNode h)
      else if negb (flag_dirty (node_flags n)) then mret (hashNode h, n)
      else hash_walk sha3 w r (hash sha3 w g l false) n
    | None => hash_walk sha3 w r (hash sha3 w g l false) n end) as -> by by destruct n.
  destruct (flag_hash (node_flags n)) as [h|] eqn:Eh; [|by apply hash_walk_wp].
  pose proof (unfolds_flag _ _ _ _ Hb Hu) as Hfl.
  unfold flag_ok in Hfl. rewrite Eh in Hfl. destruct Hfl as (-> & Hbig & Hst).
  assert (∀ c, unfolds (view w db s) r c t → (w = true → stored s r t) →
    wp False (mret (hashNode (sha3 (penc t)), c) : M (option DB) trie_error _) (λ hc s', hash_done w db s s' r t hc) (λ _ s', failed w db s s') s) as Hret.
  { intros c Hc Hst'. unfold wpg, mret, M_ret, hash_done, hashes. cbn [fst snd]. rewrite Hbig. by split_and!. }
  destruct w; cbn [negb]; [|by apply Hret].
  destruct (canUnload (node_flags n) g l) eqn:Ec.
  { apply andb_true_iff in Ec as [Hd%negb_true_iff _]. apply Hret; [by split_and!; auto|by auto]. }
  destruct (flag_dirty (node_flags n)) eqn:Ed; cbn [negb]; [by apply hash_walk_wp|]. apply Hret; auto.
Qed.
Lemma hash_wp w db g l n : (w = true → no_collisions) → ∀ t r s, wf_node t → all_known t → unfolds (view w db s) r n t → (w = true → is_Some s) →
  wp False (hash sha3 w g l r n) (λ hc s', hash_done w db s s' r t hc) (λ _ s', failed w db s s') s.
Proof.
  intros Hnc. induction n as [|k c fl IH|cs fl IH|h|v] using node_ind'; intros t r s Hwf Hk Hu Hs.
  - apply unfolds_Nil in Hu as ->. done.
  - assert (kids_hash w db (hash sha3 w g l false) (shortNode k c fl)) as Hh by (intros t' s' ? ? ? ?; by apply IH).
    by apply hash_cached.
  - assert (kids_hash w db (hash sha3 w g l false) (fullNode cs fl)) as Hh.
    { cbn. eapply Forall_impl; [exact IH|]. intros c Hc t' s' ? ? ? ?. by apply Hc. }
    by apply hash_cached.
  - destruct Hu as (_ & -> & Hb & Hst). cbn. unfold wpg. cbn. unfold hash_done, hashes. cbn [fst snd]. rewrite Hb.
    split_and!; [done|by split_and!|done|done|]. by destruct w.
  - by destruct t.
Qed.
End hasher.
