(* ===== verification/TrieMap.v ===== *)
(** * Tries as finite maps

    [represents tr m]: the trie [tr], with what its database holds, stands for
    the finite map [m] from keys to values. *)

From stdpp Require Import base tactics list numbers gmap.
From S2P Require Import Prelude RlpEncode RlpEncodeFacts RlpDecode RlpRaw Trie TrieKeys TriePure TrieNode TrieOps TrieHash.

#[local] Open Scope Z_scope.
Import trie.

#[global] Program Instance byte_countable : Countable byte :=
  inj_countable Byte.to_N Byte.of_N _.
Next Obligation. intros b. apply Byte.of_to_N. Qed.

Abbreviation kvmap := (gmap (list byte) (list byte)).

Definition content (t : ptrie) (m : kvmap) : Prop := ∀ k v,
  pget t k = Some v ↔ ∃ key, k = keybytesToHex key ∧ m !! key = Some v.
(** Keys are as short as a slice has to be. *)
Definition small_key (key : list byte) : Prop := Zlen key < 2 ^ 58.
Definition small_map (m : kvmap) : Prop := ∀ key v, m !! key = Some v → small_key key.

Lemma content_empty : content PNil ∅.
Proof. intros k v. split; [done|]. intros (key & _ & E). by rewrite lookup_empty in E. Qed.
Lemma content_get t m key : content t m → pget t (keybytesToHex key) = m !! key.
Proof.
  intros H. apply option_eq. intros v. rewrite (H (keybytesToHex key) v). split; [|by eauto].
  intros (key' & E%(inj _) & Hm). by subst.
Qed.
Lemma content_unique t m1 m2 : content t m1 → content t m2 → m1 = m2.
Proof. intros H1 H2. apply map_eq. intros key. by rewrite <- (content_get t m1), <- (content_get t m2). Qed.
Lemma content_same t1 t2 m : content t1 m → content t2 m → same_keys t1 t2.
Proof. intros H1 H2 k. apply option_eq. intros v. by rewrite (H1 k v), (H2 k v). Qed.
Lemma small_hex key : small_key key → key_ok (keybytesToHex key).
Proof. unfold small_key, key_ok, Zlen. rewrite keybytesToHex_length. lia. Qed.
Lemma content_bounded t m : content t m → small_map m → bounded t.
Proof. intros H Hs k v E. apply H in E as (key & -> & Hm). by eapply small_hex, Hs. Qed.

Lemma content_insert t t' m key v : content t m → (∀ k, pget t' k = at_key k (keybytesToHex key) (Some v) (pget t k)) →
  content t' (<[key := v]> m).
Proof.
  intros H Hg k w. rewrite Hg. unfold at_key. case_bool_decide as E.
  - subst. split.
    + intros [= <-]. exists key. split; [done|apply lookup_insert_eq].
    + intros (key' & <-%(inj _) & Hm). by rewrite lookup_insert_eq in Hm.
  - rewrite (H k w). split; intros (key' & -> & Hm); exists key'; (split; [done|]); [|]; rewrite lookup_insert_ne in *; congruence.
Qed.
Lemma content_delete t t' m key : content t m → (∀ k, pget t' k = at_key k (keybytesToHex key) None (pget t k)) →
  content t' (base.delete key m).
Proof.
  intros H Hg k w. rewrite Hg. unfold at_key. case_bool_decide as E.
  - subst. split; [done|]. intros (key' & <-%(inj _) & Hm). by rewrite lookup_delete_eq in Hm.
  - rewrite (H k w). split; intros (key' & -> & Hm); exists key'; (split; [done|]); rewrite lookup_delete_ne in *; congruence.
Qed.

Section map.
Context {DB : Type} {database : Database DB} {db_laws : DatabaseLaws DB}.
Context (sha3 : list byte → list byte) (sha3_length : ∀ b, Zlen (sha3 b) = 32).
Abbreviation Trie := (@Trie DB).

Definition represents (tr : Trie) (m : kvmap) : Prop := ∃ t,
  unfolds sha3 (tdb tr) true (root tr) t ∧ wf_trie t ∧ content t m ∧ small_map m.

Lemma represents_unique tr1 tr2 m t1 t2 : unfolds sha3 (tdb tr1) true (root tr1) t1 → wf_trie t1 → content t1 m →
  unfolds sha3 (tdb tr2) true (root tr2) t2 → wf_trie t2 → content t2 m → t1 = t2.
Proof. intros _ W1 C1 _ W2 C2. apply wf_trie_unique; [done|done|by eapply content_same]. Qed.

Lemma root_enough (n : node) key : enough (path_fuel key) n key.
Proof. unfold enough, path_fuel. destruct (is_hash n); lia. Qed.
Lemma hex_sub_ok t key : wf_trie t → sub_ok (keybytesToHex key) t.
Proof. intros H. right. split; [apply keybytesToHex_hexkey|done]. Qed.

Lemma TryGet_represents tr m key : represents tr m →
  ∃ tr', TryGet key tr = (tr', Val (m !! key)) ∧ represents tr' m.
Proof.
  intros (t & Hu & Hwf & Hc & Hs). unfold TryGet.
  destruct (tryGet_ok sha3 sha3_length tr (path_fuel (keybytesToHex key)) (root tr) t (keybytesToHex key) 0 true Hu) as (n' & b & -> & Hu');
    [by apply hex_sub_ok|lia|apply root_enough|]. rewrite drop_0, (content_get t m) by done.
  eexists. split; [done|]. destruct b; exists t; by split_and!.
Qed.
Lemma TryDelete_represents tr m key : represents tr m →
  ∃ tr', TryDelete key tr = (tr', Val tt) ∧ represents tr' (base.delete key m).
Proof.
  intros (t & Hu & Hwf & Hc & Hs). unfold TryDelete.
  destruct (delete_ok sha3 sha3_length tr (path_fuel (keybytesToHex key)) (root tr) t [] (keybytesToHex key) true Hu) as ([d n'] & -> & t' & Hu' & Hok & Hg & _);
    [by apply hex_sub_ok|by eapply content_bounded|apply root_enough|].
  eexists. split; [done|]. exists t'. split_and!; [done| |by eapply content_delete|].
  - destruct Hok as [[E _]|[_ H]]; [|done]. pose proof (keybytesToHex_hexkey key) as Hx. rewrite E in Hx. by apply hexkey_nil in Hx.
  - intros k v E. apply lookup_delete_Some in E as [_ E]. by eapply Hs.
Qed.
Lemma TryUpdate_represents tr m key v : represents tr m → small_key key → val_ok v →
  ∃ tr', TryUpdate key v tr = (tr', Val tt) ∧ represents tr' (<[key := v]> m).
Proof.
  intros (t & Hu & Hwf & Hc & Hs) Hk Hv. unfold TryUpdate. rewrite (proj2 (Z.eqb_neq (Zlen v) 0)) by (unfold val_ok in Hv; lia). cbn [negb].
  destruct (insert_ok sha3 sha3_length tr (path_fuel (keybytesToHex key)) (root tr) t [] (keybytesToHex key) v true Hu)
    as ([d n'] & -> & t' & Hu' & Hok & Hg & _); [by apply hex_sub_ok|by apply small_hex|done|apply root_enough|].
  eexists. split; [done|]. exists t'. split_and!; [done| |by eapply content_insert|].
  - destruct Hok as [[E _]|[_ H]]; [|done]. pose proof (keybytesToHex_hexkey key) as Hx. rewrite E in Hx. by apply hexkey_nil in Hx.
  - intros k w [[-> _]|[_ E]]%lookup_insert_Some; [done|by eapply Hs].
Qed.
Lemma TryUpdate_empty key (tr : Trie) : TryUpdate key [] tr = TryDelete key tr.
Proof. done. Qed.

(** ** Hash and commit *)

Lemma BytesToHash_32 h : Zlen h = 32 → BytesToHash h = h.
Proof. intros H. unfold BytesToHash. by rewrite H. Qed.
Lemma emptyRoot_length : Zlen emptyRoot = 32.
Proof. reflexivity. Qed.

Lemma all_known_true t : all_known sha3 (λ _, True) t.
Proof.
  induction t as [| |k t IH|ts IH] using ptrie_ind'; try done. apply all_known_full. by split.
Qed.

Lemma phash_node t : wf_node t → phash sha3 t = sha3 (penc sha3 t).
Proof. by destruct t. Qed.

Lemma Hash_unfolds tr t : unfolds sha3 (tdb tr) true (root tr) t → wf_trie t →
  ∃ tr', Hash sha3 tr = (tr', Val (phash sha3 t)) ∧ unfolds sha3 (tdb tr') true (root tr') t ∧ tdb tr' = tdb tr.
Proof.
  intros Hu [->|Hwf]; unfold Hash, hashRoot.
  { apply unfolds_nil in Hu as E. rewrite E. eexists. split; [done|]. by rewrite E in Hu. }
  assert (root tr ≠ Nil) as Hn by (intros E; rewrite E in Hu; by apply unfolds_Nil in Hu as ->).
  pose proof (hash_wp sha3 sha3_length (λ _, True) false (tdb tr) (cachegen tr) (cachelimit tr) (root tr) ltac:(done)
    t true None Hwf (all_known_true t) Hu ltac:(done)) as H.
  assert (match root tr with Nil => mret (hashNode emptyRoot, Nil) | n => hash sha3 false (cachegen tr) (cachelimit tr) true n end
    = hash sha3 false (cachegen tr) (cachelimit tr) true (root tr)) as -> by by destruct (root tr).
  unfold wpg in H. destruct (hash sha3 false (cachegen tr) (cachelimit tr) true (root tr) None) as [s' [[h c]|e| |]] eqn:E; try done.
  - destruct H as (Hh & Hu' & _). unfold hashes in Hh. cbn [orb fst snd] in Hh. subst h. rewrite phash_node by done.
    exists (set_root c tr). split; [|done]. cbn [root_hash]. by rewrite BytesToHash_32.
  - by destruct H as [? _].
Qed.

(** Commit writes the tree and keeps everything else that is in the database. *)
Lemma CommitTo_unfolds known tr t db : no_collisions sha3 known →
  unfolds sha3 (Some db) true (root tr) t → wf_trie t → all_known sha3 known t →
  ∃ db', extends sha3 known (Some db) (Some db') ∧
    ((∃ tr', CommitTo sha3 tr (Some db) = (Some db', Val (tr', phash sha3 t)) ∧ tdb tr' = tdb tr ∧
        unfolds sha3 (Some db') true (root tr') t ∧ stored sha3 (Some db') true t) ∨
     (∃ e, CommitTo sha3 tr (Some db) = (Some db', Err e) ∧ put_fails (DB:=DB))).
Proof.
  intros Hnc Hu Hwf Hk. unfold CommitTo. unfold mbind at 1, M_bind at 1, gets.
  destruct Hwf as [->|Hwf].
  { unfold hashRoot. apply unfolds_nil in Hu as E. rewrite E. exists db. split; [by split; [intros ? ?|]|left]. by eexists. }
  assert (root tr ≠ Nil) as Hn by (intros E; rewrite E in Hu; by apply unfolds_Nil in Hu as ->).
  pose proof (hash_wp sha3 sha3_length known true None (cachegen tr) (cachelimit tr) (root tr) (λ _, Hnc)
    t true (Some db) Hwf Hk Hu ltac:(by eexists)) as H.
  unfold hashRoot, mbind, M_bind.
  assert (match root tr with Nil => mret (hashNode emptyRoot, Nil) | n => hash sha3 true (cachegen tr) (cachelimit tr) true n end
    = hash sha3 true (cachegen tr) (cachelimit tr) true (root tr)) as -> by by destruct (root tr).
  unfold wpg in H. destruct (hash sha3 true (cachegen tr) (cachelimit tr) true (root tr) (Some db)) as [s' [[h c]|e| |]] eqn:E; try done.
  - destruct H as (Hh & Hu' & Hext & Hs' & Hst). unfold hashes in Hh. cbn [orb fst snd] in Hh. subst h.
    destruct (Hs' eq_refl) as [db' ->]. exists db'. split; [exact Hext|left].
    exists (mkTrie c (tdb tr) (originalRoot tr) ((cachegen tr + 1) mod 2 ^ 16) (cachelimit tr)).
    split_and!; [|done|done|by apply Hst]. cbn [fst snd root_hash]. by rewrite BytesToHash_32, phash_node.
  - destruct H as (_ & Hext & [db' ->] & Hf). exists db'. split; [exact Hext|right; by exists e].
Qed.
Lemma Commit_unfolds known tr t db : no_collisions sha3 known → tdb tr = Some db →
  unfolds sha3 (tdb tr) true (root tr) t → wf_trie t → all_known sha3 known t →
  ∃ tr', is_Some (tdb tr') ∧ extends sha3 known (tdb tr) (tdb tr') ∧ unfolds sha3 (tdb tr') true (root tr') t ∧
    ((Commit sha3 tr = (tr', Val (phash sha3 t)) ∧ stored sha3 (tdb tr') true t) ∨
     (∃ e, Commit sha3 tr = (tr', Err e) ∧ put_fails (DB:=DB))).
Proof.
  intros Hnc Edb Hu Hwf Hk. unfold Commit. rewrite Edb in *.
  destruct (CommitTo_unfolds known tr t db Hnc Hu Hwf Hk) as (db' & Hext & [(tr' & E & _ & Hu' & Hst)|(e & E & Hf)]); rewrite E.
  - exists (set_db (Some db') tr'). split_and!; [by eexists|done|done|by left].
  - exists (set_db (Some db') tr). split_and!; [by eexists|done|by eapply unfolds_mono|right; by exists e].
Qed.

(** All nodes of the trie for [m] are among the strings without collisions. *)
Definition knows (known : list byte → Prop) (m : kvmap) : Prop := ∀ t, wf_trie t → content t m → all_known sha3 known t.

(** What is assumed of the hash function, on the byte strings that occur. *)
Record hash_ok (known : list byte → Prop) : Prop := {
  hash_nc : no_collisions sha3 known;
  hash_empty : known [Zbyte 0x80] ∧ sha3 [Zbyte 0x80] = emptyRoot;
  hash_nonzero : ∀ x, known x → sha3 x ≠ zero_hash }.

Lemma penc_not_empty t : wf_node t → penc sha3 t ≠ [Zbyte 0x80].
Proof.
  intros Hwf. rewrite penc_payload by done. unfold enc_list, head. case_if.
  - intros [= H _]%(f_equal (λ l, byteZ <$> l)). pose proof (Zlen_nonneg (payload sha3 t)).
    change (byteZ (Zbyte (192 + Zlen (payload sha3 t))) = byteZ (Zbyte 128)) in H.
    rewrite !Zbyte_small in H by lia. lia.
  - intros H%(f_equal length). cbn in H. rewrite length_app in H.
    unfold Zlen in E. lia.
Qed.
Lemma hash_ok_node known t : hash_ok known → wf_node t → all_known sha3 known t →
  sha3 (penc sha3 t) ≠ zero_hash ∧ sha3 (penc sha3 t) ≠ emptyRoot.
Proof.
  intros [Hnc [Hk He] Hz] Hwf Ht%all_known_top; [|done]. split; [by apply Hz|]. rewrite <- He. intros E.
  apply Hnc in E; [|done|done]. by apply penc_not_empty in E.
Qed.

Lemma stored_New db t : stored sha3 (Some db) true t → wf_trie t →
  (wf_node t → sha3 (penc sha3 t) ≠ zero_hash ∧ sha3 (penc sha3 t) ≠ emptyRoot) →
  ∃ tr', New (phash sha3 t) (Some db) = Val tr' ∧ tdb tr' = Some db ∧ unfolds sha3 (tdb tr') true (root tr') t.
Proof.
  intros Hst Hwf Hz. unfold New. destruct Hwf as [->|Hwf].
  { cbn [phash]. rewrite (bool_decide_eq_true_2 (emptyRoot = emptyRoot)), andb_false_r by done. by eexists. }
  rewrite phash_node by done. destruct (Hz Hwf) as [H1 H2]. rewrite !bool_decide_eq_false_2 by done. cbn [negb andb].
  set (tr := mkTrie Nil (Some db) (sha3 (penc sha3 t)) 0 0).
  destruct (resolveHash_ok sha3 sha3_length tr true (sha3 (penc sha3 t)) t []) as [-> Hu']; [by split_and!|].
  cbn [mbind outcome_bind]. by eexists.
Qed.

(** ** A hash determines the tree *)

Section injective.
Context (known : list byte → Prop) (Hnc : no_collisions sha3 known).

Definition known_kid (t : ptrie) : Prop := (wf_trie t ∨ slot_ok t) ∧ all_known sha3 known t.
Definition top_inj (t1 : ptrie) : Prop := ∀ t2, wf_node t1 → wf_node t2 → all_known sha3 known t1 → all_known sha3 known t2 →
  topnode sha3 0 None t1 = topnode sha3 0 None t2 → t1 = t2.

Lemma penc_top t1 t2 : top_inj t1 → wf_node t1 → wf_node t2 → all_known sha3 known t1 → all_known sha3 known t2 →
  penc sha3 t1 = penc sha3 t2 → t1 = t2.
Proof.
  intros IH W1 W2 K1 K2 E. apply IH; try done.
  pose proof (decodeNode_ok sha3 sha3_length 0 None t1 W1) as D1. rewrite E, decodeNode_ok in D1 by done. by injection D1.
Qed.
Lemma refnode_branch t : wf_node t → refnode sha3 0 t = if big sha3 t then hashNode (sha3 (penc sha3 t)) else topnode sha3 0 None t.
Proof. by destruct t. Qed.
Lemma refnode_inj t1 t2 : top_inj t1 → known_kid t1 → known_kid t2 → refnode sha3 0 t1 = refnode sha3 0 t2 → t1 = t2.
Proof.
  intros IH [H1 K1] [H2 K2].
  assert (∀ t, wf_trie t ∨ slot_ok t → t = PNil ∨ (∃ v, t = PVal v) ∨ wf_node t) as Hcase.
  { intros t [[?|?]|?]; [by left|by right; right|]. destruct t; try done; [by left|right; left; by eexists]. }
  assert (∀ t, wf_node t → refnode sha3 0 t ≠ Nil ∧ ∀ v, refnode sha3 0 t ≠ valueNode v) as Hbr.
  { intros t Ht. rewrite refnode_branch by done. destruct (big sha3 t); [done|]. by destruct t. }
  destruct (Hcase t1 H1) as [->|[[v1 ->]|W1]], (Hcase t2 H2) as [->|[[v2 ->]|W2]]; try done.
  - intros E. symmetry in E. by apply Hbr in E.
  - by intros [= ->].
  - intros E. symmetry in E. by apply Hbr in E.
  - intros E. by apply Hbr in E.
  - intros E. by apply Hbr in E.
  - rewrite !refnode_branch by done. destruct (big sha3 t1), (big sha3 t2).
    + intros [= E]. apply penc_top; try done. apply Hnc; [by apply all_known_top..|done].
    + by destruct t2.
    + by destruct t1.
    + by apply IH.
Qed.

Lemma known_kid_short k c : wf_node (PShort k c) → all_known sha3 known (PShort k c) → known_kid c.
Proof.
  intros [_ [(v & -> & _ & Hv)|(ts & -> & _ & _ & Hw)]]%wf_short_inv [_ Hk]; split; try done; [by right|by left; right].
Qed.
Lemma known_kid_full ts i t : wf_node (PFull ts) → all_known sha3 known (PFull ts) → ts !! i = Some t → known_kid t.
Proof.
  intros (Hl & _ & Hk)%wf_full [_ Ha]%all_known_full E. rewrite Forall_lookup in Ha. split; [|by eapply Ha].
  specialize (Hk (Zbyte (Z.of_nat i))). rewrite (kid_lookup ts i t Hl E) in Hk. unfold kid_ok in Hk.
  case_bool_decide; [by right|by left].
Qed.
Lemma topnode_inj t1 : top_inj t1.
Proof.
  induction t1 as [| |k1 c1 IH|ts1 IH] using ptrie_ind'; intros t2 W1 W2 K1 K2 E; try done; destruct t2 as [| |k2 c2|ts2]; try done.
  - cbn [topnode] in E. injection E as -> Ec. f_equal.
    apply refnode_inj; [done|by apply (known_kid_short k2)|by apply (known_kid_short k2)|done].
  - cbn [topnode] in E. injection E as Ec. f_equal. pose proof W1 as (L1 & _)%wf_full. pose proof W2 as (L2 & _)%wf_full.
    apply (list_eq_same_length _ _ 17); [lia|lia|]. intros i t1 t2 Hi E1 E2. rewrite Forall_lookup in IH.
    apply refnode_inj; [by eapply IH|by apply (known_kid_full ts1 i)|by apply (known_kid_full ts2 i)|].
    apply (f_equal (λ l, l !! i)) in Ec. rewrite !list_lookup_fmap, E1, E2 in Ec. by injection Ec.
Qed.
Lemma penc_inj t1 t2 : wf_node t1 → wf_node t2 → all_known sha3 known t1 → all_known sha3 known t2 →
  penc sha3 t1 = penc sha3 t2 → t1 = t2.
Proof. intros. apply penc_top; try done. apply topnode_inj. Qed.
End injective.

Lemma phash_inj_nc known t1 t2 : no_collisions sha3 known → known [Zbyte 0x80] → sha3 [Zbyte 0x80] = emptyRoot →
  wf_trie t1 → wf_trie t2 → all_known sha3 known t1 → all_known sha3 known t2 → phash sha3 t1 = phash sha3 t2 → t1 = t2.
Proof.
  intros Hnc Hk He. assert (∀ t, wf_node t → all_known sha3 known t → sha3 (penc sha3 t) ≠ emptyRoot) as Hne.
  { intros t Hwf Ht%all_known_top E; [|done]. rewrite <- He in E. apply Hnc in E; [|done|done]. by apply penc_not_empty in E. }
  intros [->|W1] [->|W2] K1 K2 E; [done| | |].
  - rewrite (phash_node t2) in E by done. by destruct (Hne t2 W2 K2).
  - rewrite (phash_node t1) in E by done. by destruct (Hne t1 W1 K1).
  - rewrite !phash_node in E by done. apply (penc_inj known); try done. apply Hnc in E; [done|by apply all_known_top..].
Qed.
Lemma phash_inj known t1 t2 : hash_ok known → wf_trie t1 → wf_trie t2 → all_known sha3 known t1 → all_known sha3 known t2 →
  phash sha3 t1 = phash sha3 t2 → t1 = t2.
Proof. intros [Hnc [Hk He] _]. by apply phash_inj_nc. Qed.
End map.
