(* ===== verification/TrieProof.v ===== *)
(** * Tries: Merkle proofs

    [path t key] are the nodes of the tree on the way to the key.  [Prove]
    returns the encodings of those that are referred to by hash, and
    [VerifyProof] follows them. *)

From stdpp Require Import base tactics list numbers gmap.
From S2P Require Import Prelude RlpEncode RlpEncodeFacts RlpDecode RlpRaw Trie TrieKeys TriePure TrieNode TrieOps TrieHash TrieMap.

#[local] Open Scope Z_scope.
Import trie.

Fixpoint path (t : ptrie) (key : list byte) : list ptrie :=
  match t with
  | PNil | PVal _ => []
  | PShort k c => t :: match strip k key with Some rest => path c rest | None => [] end
  | PFull ts =>
      t :: match key with
           | [] => []
           | b :: key =>
               (fix pick (ts : list ptrie) (i : nat) : list ptrie :=
                  match ts, i with
                  | [], _ => []
                  | t :: _, O => path t key
                  | _ :: ts, S i => pick ts i
                  end) ts (nib b)
           end
  end.
Lemma path_full ts b key : path (PFull ts) (b :: key) = PFull ts :: path (kid ts b) key.
Proof.
  cbn [path]. f_equal. unfold kid. generalize (nib b). induction ts as [|t ts IH]; intros [|i]; try done.
Qed.
Lemma path_short k c key : path (PShort k c) key = PShort k c :: match strip k key with Some rest => path c rest | None => [] end.
Proof. reflexivity. Qed.

Section proof.
Context {DB : Type} {database : Database DB} {db_laws : DatabaseLaws DB}.
Context (sha3 : list byte → list byte) (sha3_length : ∀ b, Zlen (sha3 b) = 32).

(** The proof elements below a node, and all of them. *)
Definition elements (ps : list ptrie) : list (list byte) := penc sha3 <$> filter (λ t, big sha3 t = true) ps.
Definition proof_of (t : ptrie) (key : list byte) : list (list byte) :=
  match path t key with [] => [] | t :: ps => penc sha3 t :: elements ps end.
Lemma elements_cons t ps : elements (t :: ps) = (if big sha3 t then [penc sha3 t] else []) ++ elements ps.
Proof. unfold elements. destruct (big sha3 t) eqn:E; [by rewrite filter_cons_True|rewrite filter_cons_False; [done|congruence]]. Qed.

(** ** Verification *)

(** Where [get] ends in a decoded node. *)
Inductive ends (t : ptrie) (key : list byte) : list byte → node → Prop :=
| ends_nil k : pget t key = None → elements (tail (path t key)) = [] → ends t key k Nil
| ends_value k v : pget t key = Some v → elements (tail (path t key)) = [] → ends t key k (valueNode v)
| ends_hash k c : wf_node c → hexkey k → pget t key = pget c k →
    elements (tail (path t key)) = penc sha3 c :: elements (tail (path c k)) →
    (∀ known, all_known sha3 known t → all_known sha3 known c) → ends t key k (hashNode (sha3 (penc sha3 c))).

Definition get_ends (t : ptrie) : Prop := ∀ key h, wf_node t → hexkey key →
  ∃ k n, get (topnode sha3 0 h t) key = Val (k, n) ∧ ends t key k n.

(** One step down, into the child a node refers to. *)
Lemma get_ref t c key key' : get_ends c → sub_ok key' c → pget t key = pget c key' →
  tail (path t key) = path c key' → (∀ known, all_known sha3 known t → all_known sha3 known c) →
  ∃ k n, get (refnode sha3 0 c) key' = Val (k, n) ∧ ends t key k n.
Proof.
  intros IH Hok Hget Hpath Hkn. destruct (decide (c = PNil)) as [->|Hn].
  { eexists _, _. split; [done|]. constructor; [done|]. by rewrite Hpath. }
  destruct Hok as [[-> Hs]|[Hx [?|Hw]]]; [|done|].
  { destruct c as [|v| |]; try done. eexists _, _. split; [done|]. constructor; [done|]. by rewrite Hpath. }
  rewrite refnode_branch by done. destruct (big sha3 c) eqn:Eb.
  - eexists _, _. split; [done|]. constructor; try done. rewrite Hpath.
    assert (path c key' = c :: tail (path c key')) as -> by by destruct c. rewrite elements_cons, Eb. done.
  - destruct (IH key' None Hw Hx) as (k & n & E & He). exists k, n. split; [done|].
    assert (path c key' = c :: tail (path c key')) as Ep by by destruct c.
    assert (elements (tail (path t key)) = elements (tail (path c key'))) as Et by by rewrite Hpath, Ep, elements_cons, Eb.
    destruct He; [constructor|constructor|apply (ends_hash _ _ _ c0)]; try congruence; auto.
Qed.

Lemma get_topnode t : get_ends t.
Proof.
  induction t as [| |k c IH|ts IH] using ptrie_ind'; intros key h Hwf Hx; try done.
  - cbn [topnode get]. rewrite prefix_test. destruct (strip k key) as [rest|] eqn:E.
    + pose proof E as ->%strip_Some. rewrite drop_app_length. apply (get_ref (PShort k c) c (k ++ rest) rest IH).
      * by apply (sub_ok_below k).
      * by rewrite pget_short, E.
      * by rewrite path_short, E.
      * by intros known [_ ?].
    + eexists _, _. split; [done|]. constructor; [by rewrite pget_short, E|by rewrite path_short, E].
  - destruct key as [|b key]; [by apply hexkey_nil in Hx|]. pose proof (hexkey_nib b key Hx) as Hb.
    pose proof Hwf as (Hl & _)%wf_full. destruct (lookup_lt_is_Some_2 ts (nib b)) as [c Ec]; [lia|].
    assert (kid ts b = c) as Hkid by (unfold kid; by rewrite Ec).
    assert (get (topnode sha3 0 h (PFull ts)) (b :: key) = get (refnode sha3 0 c) key) as ->.
    { cbn [topnode get]. fold (nib b). clear -Ec. revert Ec. generalize (nib b). induction ts as [|t ts IH]; intros [|i] Ec; try done.
      - by injection Ec as ->.
      - apply IH, Ec. }
    rewrite Forall_lookup in IH. apply (get_ref (PFull ts) c (b :: key) key (IH _ _ Ec)).
    + rewrite <- Hkid. by apply sub_ok_kid.
    + by rewrite pget_full, Hkid.
    + by rewrite path_full, Hkid.
    + intros known [_ Hk]%all_known_full. rewrite Forall_lookup in Hk. by eapply Hk.
Qed.

Lemma verify_complete pf : ∀ i t key, wf_node t → hexkey key → pf = penc sha3 t :: elements (tail (path t key)) →
  VerifyProof_loop sha3 i key (sha3 (penc sha3 t)) pf = Val (pget t key).
Proof.
  induction pf as [|buf pf IH]; intros i t key Hwf Hx E; [done|]. injection E as -> Epf.
  cbn [VerifyProof_loop]. rewrite bool_decide_eq_true_2 by done. cbn [negb]. rewrite decodeNode_ok by done.
  destruct (get_topnode t key (Some (sha3 (penc sha3 t))) Hwf Hx) as (k & n & -> & He). cbn [mbind outcome_bind].
  destruct He as [k Hg Ht|k v Hg Ht|k c Hc Hk Hg Ht _]; rewrite Ht in Epf.
  - subst pf. by rewrite Hg.
  - subst pf. by rewrite Hg.
  - rewrite Hg. by apply IH.
Qed.

(** A proof that is accepted shows what the tree holds, when there is no
    collision between its elements and the nodes of the tree. *)
Lemma verify_sound known pf : no_collisions sha3 known → Forall known pf → ∀ i t key res, wf_node t → hexkey key → all_known sha3 known t →
  VerifyProof_loop sha3 i key (sha3 (penc sha3 t)) pf = Val res → res = pget t key.
Proof.
  intros Hnc HF. induction HF as [|buf pf Hb _ IH]; intros i t key res Hwf Hx Hk; [done|].
  cbn [VerifyProof_loop]. case_bool_decide as Eh; [|done]. cbn [negb].
  apply Hnc in Eh as ->; [|done|by apply all_known_top]. rewrite decodeNode_ok by done.
  destruct (get_topnode t key (Some (sha3 (penc sha3 t))) Hwf Hx) as (k & n & -> & He). cbn [mbind outcome_bind].
  destruct He as [k Hg Ht|k v Hg Ht|k c Hc Hkx Hg Ht Hka].
  - destruct pf; [|done]. intros [= <-]. done.
  - destruct pf; [|done]. intros [= <-]. done.
  - rewrite Hg. apply IH; auto.
Qed.

(** ** Construction *)

Variable tr : Trie (DB:=DB).

Definition on_path (n : node) (t : ptrie) : Prop := is_branch n ∧ wf_node t ∧ ∃ r, unfolds sha3 (tdb tr) r n t.

Lemma Prove_loop_ok fuel : ∀ n t key acc r, unfolds sha3 (tdb tr) r n t → sub_ok key t → enough fuel n key →
  ∃ ns, Prove_loop (S fuel) tr n key acc = Val (acc ++ ns) ∧ Forall2 on_path ns (path t key).
Proof.
  induction fuel as [|fuel IH]; intros n t key acc r Hu Hok Hf; [by apply enough_pos in Hf as [? ?]|].
  remember (S fuel) as fuel1 eqn:Efuel. cbn [Prove_loop]. destruct key as [|k0 krest].
  { exists []. rewrite app_nil_r. split; [done|]. destruct Hok as [[_ Hs]|[Hx _]]; [|by apply hexkey_nil in Hx].
    by destruct t. }
  destruct n as [|nkey c fl|cs fl|h|v].
  - apply unfolds_Nil in Hu as ->. exists []. by rewrite app_nil_r.
  - destruct t as [| |k ct|]; try done. pose proof Hu as (<- & Hfl & Hc). pose proof Hok as [Hx Hwf]%sub_ok_short.
    rewrite prefix_test, path_short. assert (on_path (shortNode nkey c fl) (PShort nkey ct)) as Hon by (split_and!; [done|done|by exists r]).
    destruct (strip nkey (k0 :: krest)) as [rest|] eqn:E.
    + apply strip_Some in E. rewrite E, drop_app_length. subst fuel1.
      destruct (IH c ct rest (acc ++ [shortNode nkey c fl]) false Hc) as (ns & -> & HF).
      * apply (sub_ok_below nkey); [done|by rewrite <- E].
      * eapply enough_step; [exact Hf|done|]. rewrite E, length_app.
        apply wf_short_inv in Hwf as [_ [(v & _ & Hk & _)|(ts & _ & Hk & _)]]; (destruct nkey; [|cbn; lia]); [by apply hexkey_nil in Hk|done].
      * exists (shortNode nkey c fl :: ns). rewrite <- app_assoc. split; [done|by constructor].
    + subst fuel1. exists [shortNode nkey c fl]. split; [done|by constructor].
  - destruct t as [| | |ts]; try done. pose proof Hu as [Hfl HF]%unfolds_full. pose proof Hok as [Hx Hwf]%sub_ok_full.
    pose proof Hwf as (Hl & _)%wf_full. pose proof (hexkey_nib k0 krest Hx) as Hnb.
    destruct (child_at_ok sha3 tr cs ts k0 HF ltac:(lia)) as (c & -> & Hc). cbn [val_or_panic mbind outcome_bind]. subst fuel1.
    destruct (IH c (kid ts k0) krest (acc ++ [fullNode cs fl]) false Hc) as (ns & -> & HF');
      [by apply sub_ok_kid|eapply enough_step; [exact Hf|done|cbn; lia]|].
    exists (fullNode cs fl :: ns). rewrite <- app_assoc, path_full. split; [done|]. constructor; [|done].
    split_and!; [done|done|by exists r].
  - destruct (resolveHash_ok sha3 sha3_length tr r h t [] Hu) as [-> Hu']. cbn [mbind outcome_bind]. subst fuel1.
    assert (wf_node t) as Hwf by apply Hu.
    apply (IH _ t (k0 :: krest) acc r Hu' Hok). by apply enough_load.
  - destruct t; try done. destruct Hok as [[? _]|[_ [?|?]]]; done.
Qed.

(** An element for a node on the path. *)
Lemma proof_element_wp i n t s : on_path n t → wp False (proof_element (DB:=DB) sha3 i n)
  (λ e _, e = if (i =? 0)%nat || big sha3 t then Some (penc sha3 t) else None) (λ _ _, False) s.
Proof.
  intros (Hb & Hwf & r & Hu). unfold proof_element. apply wp_bind.
  assert (kids_hash sha3 (λ _, True) false (tdb tr) (hash sha3 false 0 0 false) n) as Hkids.
  { assert (∀ c, hashes_child sha3 (λ _, True) false (tdb tr) (hash sha3 false 0 0 false) c) as Hc.
    { intros c t' s' ? ? ? ?. by apply hash_wp. }
    destruct n; try done; [apply Hc|]. apply Forall_forall. auto. }
  eapply wp_mono; [apply (hashChildren_wp sha3 (λ _, True) false (tdb tr)
    (hash sha3 false 0 0 false) n t r s Hb Hkids Hwf (all_known_true sha3 t) Hu ltac:(done))|done| |by intros e s' [? _]].
  intros [c1 c2] s1 (He & Ha & Hb1 & Hf1 & Hb2 & Hf2 & Hu2 & _). cbn [fst snd] in *. apply wp_bind.
  pose proof (flag_ok_hash _ _ _ _ _ (unfolds_flag _ _ _ _ _ Hb2 Hu2)) as Hfl. rewrite Hf2, <- Hf1 in Hfl.
  eapply wp_mono; [apply (store_wp sha3 sha3_length (λ _, True) false (tdb tr) false c1 t s1); try done; by destruct c1|done| |by intros e s' [? _]].
  intros hn s2 (Hh & _). unfold hashes in Hh. cbn [orb] in Hh.
  assert (∃ ty v, node_rlp c1 = Some (ty, v)) as (ty & v & Er) by (destruct c1; try done; by eexists _, _).
  pose proof (penc_length sha3 sha3_length t Hwf) as Hl. rewrite <- He in Hl.
  destruct (node_Encode c1 ty v Er Ha ltac:(lia)) as [_ EE]. rewrite Er, EE, He.
  destruct (big sha3 t); [subst hn; by rewrite orb_true_r|]. destruct Hh as (_ & _ & Hn & Hnh). rewrite orb_false_r.
  by destruct hn; try done; destruct i.
Qed.

Lemma proof_elements_wp i ns ts s : Forall2 on_path ns ts → (0 < i)%nat →
  wp False (proof_elements (DB:=DB) sha3 i ns) (λ es _, es = elements ts) (λ _ _, False) s.
Proof.
  intros HF. revert i s. induction HF as [|n t ns ts Hn _ IH]; intros i s Hi; [done|].
  cbn [proof_elements]. apply wp_bind. eapply wp_mono; [by apply proof_element_wp|done| |done]. intros e s1 ->. apply wp_bind.
  eapply wp_mono; [apply IH; lia|done| |done]. intros es s2 ->. unfold wpg, mret, M_ret.
  rewrite (proj2 (Nat.eqb_neq i 0)), elements_cons by lia. cbn [orb]. by destruct (big sha3 t).
Qed.

Lemma Prove_ok t key : unfolds sha3 (tdb tr) true (root tr) t → wf_trie t →
  Prove sha3 key tr = Val (proof_of t (keybytesToHex key)).
Proof.
  intros Hu Hwf. unfold Prove. rewrite Nat.add_1_r.
  destruct (Prove_loop_ok (path_fuel (keybytesToHex key)) (root tr) t (keybytesToHex key) [] true Hu) as (ns & -> & HF);
    [by apply hex_sub_ok|apply root_enough|]. unfold proof_of. cbn [app]. destruct HF as [|n t' ns ts Hn HF]; [done|].
  assert (wp False (proof_elements (DB:=DB) sha3 0 (n :: ns)) (λ es _, es = penc sha3 t' :: elements ts) (λ _ _, False) None) as H.
  { cbn [proof_elements]. apply wp_bind. eapply wp_mono; [by apply proof_element_wp|done| |done]. intros e s1 ->. apply wp_bind.
    eapply wp_mono; [apply (proof_elements_wp 1 ns ts); [done|lia]|done| |done]. by intros es s2 ->. }
  unfold wpg in H. destruct (proof_elements sha3 0 (n :: ns) None) as [s' [es|e| |]]; try done. by subst.
Qed.
End proof.
