(* ===== verification/TrieConcrete.v ===== *)
(** * Tries: a concrete database and hash

    An in-memory database, as [src/blockchain/storage] has one, and a checksum
    in place of Keccak-256, to run the theorems on an example. *)

From stdpp Require Import base tactics list numbers gmap.
From S2P Require Import Prelude RlpEncode RlpEncodeFacts RlpDecode RlpRaw Trie TrieKeys TriePure TrieNode TrieOps TrieHash TrieMap.

#[local] Open Scope Z_scope.
Import trie.

#[global] Instance kv_database : Database kvmap := {|
  db_Get := λ k db, db !! k;
  db_Put := λ k v db, (<[k := v]> db, Val tt) |}.
#[global] Instance kv_laws : DatabaseLaws kvmap.
Proof.
  split. intros k v db. cbn. intros k'. case_bool_decide; [subst; by rewrite lookup_insert_eq|by rewrite lookup_insert_ne].
Qed.

Definition checksum (b : list byte) : list byte :=
  if bool_decide (b = [Zbyte 0x80]) then emptyRoot
  else be_bytes 32 (1 + foldl (λ acc x, (acc * 257 + byteZ x + 1) mod (2 ^ 255 - 19)) 0 b).
Lemma checksum_length b : Zlen (checksum b) = 32.
Proof. unfold checksum. case_bool_decide; [done|]. unfold Zlen. by rewrite length_be_bytes. Qed.

(** ** Nodes in memory *)

Fixpoint erase (n : node) : ptrie :=
  match n with
  | Nil | hashNode _ => PNil
  | shortNode k c _ => PShort k (erase c)
  | fullNode cs _ => PFull (erase <$> cs)
  | valueNode v => PVal v
  end.
Fixpoint loaded (n : node) : bool :=
  match n with
  | hashNode _ => false
  | shortNode _ c _ => loaded c
  | fullNode cs _ => forallb loaded cs
  | _ => true
  end.

Section loaded.
Context {DB : Type} {database : Database DB} (sha3 : list byte → list byte).

Lemma erase_ok (db : option DB) n : ∀ r t, loaded n = true → unfolds sha3 db r n t → t = erase n.
Proof.
  induction n as [|k c fl IH|cs fl IH|h|v] using node_ind'; intros r t Hl Hu; destruct t as [| |k' t|ts]; try done.
  - destruct Hu as (-> & _ & Hu). cbn. f_equal. by eapply IH.
  - apply unfolds_full in Hu as [_ HF]. cbn. f_equal. cbn in Hl. clear fl. revert IH Hl. induction HF as [|c t cs ts Hc _ IHl]; intros IH Hl; [done|].
    apply Forall_cons_iff in IH as [IHc IH]. cbn in Hl. apply andb_true_iff in Hl as [Hlc Hl]. cbn. f_equal; [by eapply IHc|by apply IHl].
  - cbn in Hu. by subst.
Qed.

(** The encodings that are stored for a tree. *)
Fixpoint encodings (t : ptrie) : list (list byte) :=
  match t with
  | PNil | PVal _ => []
  | PShort _ c => penc sha3 t :: encodings c
  | PFull ts => penc sha3 t :: mjoin (encodings <$> ts)
  end.
Lemma encodings_known t known : Forall known (encodings t) → all_known sha3 known t.
Proof.
  induction t as [| |k t IH|ts IH] using ptrie_ind'; try done.
  - intros [H1 H2]%Forall_cons_iff. split; [done|by apply IH].
  - intros [H1 H2]%Forall_cons_iff. apply all_known_full. split; [done|]. clear H1.
    induction IH as [|t ts Ht _ IHts]; [done|]. apply Forall_app in H2 as [H2 H3]. constructor; [by apply Ht|exact (IHts H3)].
Qed.
(** Without a database every node is in memory. *)
Lemma unfolds_None_loaded n : ∀ r t, unfolds sha3 (@None DB) r n t → loaded n = true.
Proof.
  induction n as [|k c fl IH|cs fl IH|h|v] using node_ind'; intros r t Hu; destruct t as [| |k' t|ts]; try done;
    try (destruct Hu as (Hw & _ & Hb & Hs); by pose proof (stored_get sha3 None r _ Hw Hs Hb)).
  - destruct Hu as (_ & _ & Hu). by eapply IH.
  - apply unfolds_full in Hu as [_ HF]. cbn. clear fl. revert IH. induction HF as [|c t cs ts Hc _ IHl]; intros IH; [done|].
    apply Forall_cons_iff in IH as [IHc IH]. cbn. by rewrite (IHc _ _ Hc), IHl.
Qed.
End loaded.

(** ** An example: three keys, one a prefix of the others, one long value *)

Definition example_entries : list (list byte * list byte) :=
  [([Zbyte 0x12; Zbyte 0x34], replicate 40 (Zbyte 7)); ([Zbyte 0x12; Zbyte 0x56], [Zbyte 1]); ([Zbyte 0x12], [Zbyte 2; Zbyte 3])].
Definition trie_of (entries : list (list byte * list byte)) : Trie (DB:=kvmap) :=
  foldr (λ kv tr, (TryUpdate kv.1 kv.2 tr).1) (mkTrie Nil (Some ∅) emptyRoot 0 0) entries.
Definition example_trie : Trie := trie_of example_entries.
Definition example_map : kvmap := list_to_map example_entries.
Definition example_known (e : list byte) : Prop := e ∈ [Zbyte 0x80] :: encodings checksum (erase (root example_trie)).

Lemma represents_new (db : option kvmap) h : represents checksum (mkTrie Nil db h 0 0) ∅.
Proof. exists PNil. split_and!; [done|by left|apply content_empty|]. intros key v H. by rewrite lookup_empty in H. Qed.
Lemma trie_of_represents entries : Forall (λ kv, small_key kv.1 ∧ val_ok kv.2) entries →
  represents checksum (trie_of entries) (list_to_map entries).
Proof.
  induction 1 as [|[k v] entries [Hk Hv] _ IH]; [apply represents_new|].
  destruct (TryUpdate_represents checksum checksum_length _ _ k v IH Hk Hv) as (tr' & E & Hr).
  change (trie_of ((k, v) :: entries)) with (TryUpdate k v (trie_of entries)).1. by rewrite E.
Qed.
Lemma example_represents : represents checksum example_trie example_map.
Proof. apply trie_of_represents. repeat constructor. Qed.
Lemma loaded_known known tr m : represents checksum tr m → loaded (root tr) = true →
  Forall known (encodings checksum (erase (root tr))) → ∀ t, wf_trie t → content t m → all_known checksum known t.
Proof.
  intros (t & U & W & C & _) Hl HF t' W' C'. assert (t' = t) as -> by (by apply wf_trie_unique; [| |eapply content_same]).
  rewrite (erase_ok checksum _ _ _ _ Hl U). by apply encodings_known.
Qed.
Lemma example_knows : ∀ t, wf_trie t → content t example_map → all_known checksum example_known t.
Proof.
  apply (loaded_known _ example_trie); [apply example_represents|by vm_compute|].
  apply Forall_forall. intros e He. by apply list_elem_of_further.
Qed.
Lemma pairwise_no_collisions l : forallb (λ x, forallb (λ y, bool_decide (x = y) || negb (bool_decide (checksum x = checksum y))) l) l = true →
  no_collisions checksum (λ e, e ∈ l).
Proof.
  rewrite forallb_forall. intros H x y Hx%list_elem_of_In Hy%list_elem_of_In E. specialize (H x Hx). rewrite forallb_forall in H.
  specialize (H y Hy). rewrite E, (bool_decide_eq_true_2 (checksum y = _)), orb_false_r in H by done. by apply bool_decide_eq_true_1 in H.
Qed.
Lemma listed_hash_ok l :
  forallb (λ x, forallb (λ y, bool_decide (x = y) || negb (bool_decide (checksum x = checksum y))) l) l = true →
  forallb (λ x, negb (bool_decide (checksum x = zero_hash))) l = true → [Zbyte 0x80] ∈ l → hash_ok checksum (λ e, e ∈ l).
Proof.
  intros H1 H2 H3. split; [by apply pairwise_no_collisions|split; [done|by vm_compute]|].
  rewrite forallb_forall in H2. intros e He E. specialize (H2 e). rewrite <- list_elem_of_In in H2. specialize (H2 He).
  by rewrite (bool_decide_eq_true_2 _ E) in H2.
Qed.
Lemma example_hash_ok : hash_ok checksum example_known.
Proof. apply listed_hash_ok; [vm_compute; reflexivity|vm_compute; reflexivity|by left]. Qed.
