(* ===== verification/SecureTrie.v ===== *)
(** * Tries with hashed keys: [src/common/trie/secure_trie.go]

    A [SecureTrie] hashes every key before it reaches the trie, and remembers
    the preimages until they are committed. *)

From stdpp Require Import base tactics list numbers gmap.
From S2P Require Import Prelude RlpEncode RlpEncodeFacts RlpDecode RlpRaw Trie TrieKeys TriePure TrieNode TrieOps TrieHash TrieMap.

#[local] Open Scope Z_scope.

Module secure.
Import trie.

(** "secure-key-" *)
Definition secureKeyPrefix : list byte :=
  Zbyte <$> [115; 101; 99; 117; 114; 101; 45; 107; 101; 121; 45].

Section secure.
Context {DB : Type} {database : Database DB}.
Variable sha3 : list byte → list byte.
(** The order in which Go ranges over a map. *)
Variable range : kvmap → list (list byte * list byte).

(** [owned]: [secKeyCacheOwner] points to the trie itself. *)
Record SecureTrie : Type := mkSecure {
  trie : Trie (DB:=DB);
  secKeyCache : kvmap;
  owned : bool }.

Definition set_trie (t : Trie) (st : SecureTrie) : SecureTrie := mkSecure t (secKeyCache st) (owned st).

Definition NewSecure (root : list byte) (db : option DB) (cachelimit : Z) : outcome trie_error SecureTrie :=
  match db with
  | None => Panic
  | Some _ => t ← New root db; Val (mkSecure (SetCacheLimit cachelimit t) ∅ false)
  end.

Definition hashKey (key : list byte) : list byte := sha3 key.
Definition secKey (key : list byte) : list byte := secureKeyPrefix ++ key.

(** A trie that does not own its cache starts a new one. *)
Definition getSecKeyCache (st : SecureTrie) : SecureTrie :=
  if owned st then st else mkSecure (trie st) ∅ true.
Definition set_cache (c : kvmap) (st : SecureTrie) : SecureTrie := mkSecure (trie st) c (owned st).

Definition TryGet (key : list byte) (st : SecureTrie) : SecureTrie * outcome trie_error (option (list byte)) :=
  let '(t, o) := TryGet (hashKey key) (trie st) in (set_trie t st, o).

Definition TryUpdate (key value : list byte) (st : SecureTrie) : SecureTrie * outcome trie_error unit :=
  let hk := hashKey key in
  match TryUpdate hk value (trie st) with
  | (t, Val _) =>
      let st := getSecKeyCache (set_trie t st) in
      (set_cache (<[hk := key]> (secKeyCache st)) st, Val tt)
  | (t, o) => (set_trie t st, o)
  end.

Definition TryDelete (key : list byte) (st : SecureTrie) : SecureTrie * outcome trie_error unit :=
  let hk := hashKey key in
  let st := getSecKeyCache st in
  let st := set_cache (base.delete hk (secKeyCache st)) st in
  let '(t, o) := TryDelete hk (trie st) in (set_trie t st, o).

Definition log_error {A} (a : A) (r : SecureTrie * outcome trie_error A) : SecureTrie * outcome trie_error A :=
  match r with (st, Err _) => (st, Val a) | r => r end.
Definition Get (key : list byte) (st : SecureTrie) : SecureTrie * outcome trie_error (option (list byte)) :=
  log_error None (TryGet key st).
Definition Update (key value : list byte) (st : SecureTrie) : SecureTrie * outcome trie_error unit :=
  log_error tt (TryUpdate key value st).
Definition Delete (key : list byte) (st : SecureTrie) : SecureTrie * outcome trie_error unit :=
  log_error tt (TryDelete key st).

(** The error of the database is dropped. *)
Definition GetKey (shaKey : list byte) (st : SecureTrie) : SecureTrie * option (list byte) :=
  let st := getSecKeyCache st in
  match secKeyCache st !! shaKey with
  | Some key => (st, Some key)
  | None => (st, db ← tdb (trie st); db_Get (secKey shaKey) db)
  end.

Definition Hash (st : SecureTrie) : SecureTrie * outcome trie_error (list byte) :=
  let '(t, o) := Hash sha3 (trie st) in (set_trie t st, o).
Definition Root (st : SecureTrie) : SecureTrie * outcome trie_error (list byte) := Hash st.

(** The copy is another object, and so does not own the cache. *)
Definition Copy (st : SecureTrie) : SecureTrie := mkSecure (trie st) (secKeyCache st) false.

Fixpoint put_preimages (l : list (list byte * list byte)) : M (option DB) trie_error unit :=
  match l with
  | [] => mret tt
  | (hk, key) :: l => put (secKey hk) key;; put_preimages l
  end.

(** [t.trie.CommitTo(db)]. *)
Definition commit_trie (st : SecureTrie) (db : option DB) : option DB * SecureTrie * outcome trie_error (list byte) :=
  match CommitTo sha3 (trie st) db with
  | (db, Val (t, h)) => (db, set_trie t st, Val h)
  | (db, Err e) => (db, st, Err e)
  | (db, Panic) => (db, st, Panic)
  | (db, NoFuel) => (db, st, NoFuel)
  end.
Definition CommitTo (st : SecureTrie) (db : option DB) : option DB * SecureTrie * outcome trie_error (list byte) :=
  let st := getSecKeyCache st in
  if decide (secKeyCache st = ∅) then commit_trie st db
  else
    match put_preimages (range (secKeyCache st)) db with
    | (db, Val _) => commit_trie (set_cache ∅ st) db
    | (db, Err e) => (db, st, Err e)
    | (db, Panic) => (db, st, Panic)
    | (db, NoFuel) => (db, st, NoFuel)
    end.

Definition Commit (st : SecureTrie) : SecureTrie * outcome trie_error (list byte) :=
  let '(db, st, o) := CommitTo st (tdb (trie st)) in (set_trie (set_db db (trie st)) st, o).
End secure.
End secure.
