(* ===== verification/SecureTrieProps.v ===== *)
(** * Tries with hashed keys as finite maps

    [contains st m]: the trie of [st] is one for the map [m] with its keys
    hashed.  [preimages st m]: the preimage of every hashed key is in the cache
    or in the database. *)

From stdpp Require Import base tactics list numbers gmap.
From S2P Require Import Prelude RlpEncode RlpEncodeFacts RlpDecode RlpRaw Trie TrieKeys TriePure TrieNode TrieOps TrieHash TrieMap TrieConcrete SecureTrie.

#[local] Open Scope Z_scope.
Import trie.
Import secure.

Section secure.
Context {DB : Type} {database : trie.Database DB} {db_laws : DatabaseLaws DB}.
Context (sha3 : list byte → list byte) (sha3_length : ∀ b, Zlen (sha3 b) = 32).
Context (range : kvmap → list (list byte * list byte)) (range_ok : ∀ m, range m ≡ₚ map_to_list m).
(** The keys that are ever used. *)
Context (keys : list byte → Prop) (keys_nc : no_collisions sha3 keys).
Abbreviation SecureTrie := (@SecureTrie DB).

Definition hashed (m hm : kvmap) : Prop :=
  (∀ key, is_Some (m !! key) → keys key) ∧ ∀ hk v, hm !! hk = Some v ↔ ∃ key, hk = sha3 key ∧ m !! key = Some v.

Lemma hashed_lookup m hm key : hashed m hm → keys key → hm !! sha3 key = m !! key.
Proof.
  intros [Hk H] Hkey. apply option_eq. intros v. rewrite H. split; [|by eauto]. intros (key' & E & Hm).
  assert (key = key') as -> by (by apply keys_nc; [|apply Hk; eexists|]). done.
Qed.
Lemma hashed_insert m hm key v : hashed m hm → keys key → hashed (<[key := v]> m) (<[sha3 key := v]> hm).
Proof.
  intros [Hk H] Hkey. split.
  { intros k [w [[-> _]|[_ E]]%lookup_insert_Some]; [done|by apply Hk]. }
  intros hk w. rewrite lookup_insert_Some, H. split.
  - intros [[<- <-]|(Hne & k & -> & E)]; [exists key; by rewrite lookup_insert_eq|]. exists k. split; [done|].
    rewrite lookup_insert_ne; [done|congruence].
  - intros (k & -> & [[<- <-]|[Hne E]]%lookup_insert_Some); [by left|right]. split; [|by eauto]. intros E'.
    destruct Hne. apply keys_nc; [done|by apply Hk|done].
Qed.
Lemma hashed_delete m hm key : hashed m hm → keys key → hashed (base.delete key m) (base.delete (sha3 key) hm).
Proof.
  intros [Hk H] Hkey. split.
  { intros k [w [_ E]%lookup_delete_Some]. by apply Hk. }
  intros hk w. rewrite lookup_delete_Some, H. split.
  - intros (Hne & k & -> & E). exists k. split; [done|]. rewrite lookup_delete_ne; [done|congruence].
  - intros (k & -> & [Hne E]%lookup_delete_Some). split; [|by eauto]. intros E'. destruct Hne. apply keys_nc; [done|by apply Hk|done].
Qed.

Definition contains (st : SecureTrie) (m : kvmap) : Prop := ∃ hm, hashed m hm ∧ represents sha3 (trie st) hm.

Definition cache (st : SecureTrie) : kvmap := secKeyCache (getSecKeyCache st).
Definition cache_ok (st : SecureTrie) : Prop := ∀ hk key, cache st !! hk = Some key → keys key ∧ hk = sha3 key.
Definition preimages (st : SecureTrie) (m : kvmap) : Prop := cache_ok st ∧
  ∀ key, is_Some (m !! key) → (GetKey (sha3 key) st).2 = Some key.

Lemma GetKey_cache st hk : (GetKey hk st).2 = match cache st !! hk with Some key => Some key | None => sget (tdb (trie st)) (secKey hk) end.
Proof. unfold GetKey, cache, getSecKeyCache. destruct (owned st); cbn; by case_match. Qed.
Lemma cache_set_trie t st : cache (set_trie t st) = cache st.
Proof. unfold cache, getSecKeyCache. cbn. by destruct (owned st). Qed.
Lemma preimages_mono st st' m m' : preimages st m → cache st' = cache st → tdb (trie st') = tdb (trie st) →
  (∀ key, is_Some (m' !! key) → is_Some (m !! key)) → preimages st' m'.
Proof.
  intros [Hc Hp] Ec Ed Hm. split; [unfold cache_ok; by rewrite Ec|]. intros key Hk. rewrite GetKey_cache, Ec, Ed, <- GetKey_cache. auto.
Qed.

(** ** Operations *)

Lemma TryGet_tdb key (t : trie.Trie (DB:=DB)) : tdb (trie.TryGet key t).1 = tdb t.
Proof. unfold trie.TryGet. repeat case_match; by simplify_eq/=. Qed.
Lemma TryUpdate_tdb key v (t : trie.Trie (DB:=DB)) : tdb (trie.TryUpdate key v t).1 = tdb t.
Proof. unfold trie.TryUpdate, trie.replace_root. repeat case_match; by simplify_eq/=. Qed.
Lemma TryDelete_tdb key (t : trie.Trie (DB:=DB)) : tdb (trie.TryDelete key t).1 = tdb t.
Proof. unfold trie.TryDelete, trie.replace_root. repeat case_match; by simplify_eq/=. Qed.

Lemma TryGet_contains st m key : contains st m → keys key →
  ∃ st', TryGet sha3 key st = (st', Val (m !! key)) ∧ contains st' m ∧ (preimages st m → preimages st' m).
Proof.
  intros (hm & Hh & Hr) Hk. unfold TryGet, hashKey. pose proof (TryGet_tdb (sha3 key) (trie st)) as Et.
  destruct (TryGet_represents sha3 sha3_length (trie st) hm (sha3 key) Hr) as (t' & E & Hr'). rewrite E in Et |- *.
  rewrite (hashed_lookup m hm) by done. eexists. split_and!; [done|by exists hm|]. intros Hp. eapply preimages_mono; [exact Hp|apply cache_set_trie|exact Et|done].
Qed.
Lemma TryDelete_contains st m key : contains st m → keys key →
  ∃ st', TryDelete sha3 key st = (st', Val tt) ∧ contains st' (base.delete key m) ∧ (preimages st m → preimages st' (base.delete key m)).
Proof.
  intros (hm & Hh & Hr) Hk. unfold TryDelete, hashKey. pose proof (TryDelete_tdb (sha3 key) (trie st)) as Et.
  destruct (TryDelete_represents sha3 sha3_length (trie st) hm (sha3 key) Hr) as (t' & E & Hr').
  assert (trie (set_cache (base.delete (sha3 key) (secKeyCache (getSecKeyCache st))) (getSecKeyCache st)) = trie st) as ->
    by by (unfold getSecKeyCache; destruct (owned st)).
  rewrite E in Et |- *. eexists. split_and!; [done|eexists; split; [by apply hashed_delete|exact Hr']|].
  intros [Hc Hp]. set (st' := set_trie _ _). assert (cache st' = base.delete (sha3 key) (cache st)) as Ec
    by by (unfold st', cache; destruct st as [? ? []]).
  split.
  - intros hk k. rewrite Ec. intros [_ H]%lookup_delete_Some. by apply Hc.
  - intros k [v [Hne E']%lookup_delete_Some]. assert (sha3 key ≠ sha3 k) as Hs
      by (intros ?; apply Hne, keys_nc; [done|apply Hh; by eexists|done]).
    rewrite GetKey_cache, Ec, lookup_delete_ne by done. specialize (Hp k ltac:(by eexists)). rewrite GetKey_cache, <- Et in Hp. exact Hp.
Qed.
(** [TryUpdate] remembers the key, also when the value is empty and it deletes. *)
Lemma remember_preimages st t' m m' key : tdb t' = tdb (trie st) → keys key → (∀ k, is_Some (m !! k) → keys k) →
  (∀ k, is_Some (m' !! k) → k = key ∨ is_Some (m !! k)) → preimages st m →
  preimages (set_cache (<[sha3 key := key]> (secKeyCache (getSecKeyCache (set_trie t' st)))) (getSecKeyCache (set_trie t' st))) m'.
Proof.
  intros Et Hk Hkm Hm [Hc Hp]. set (st' := set_cache _ _). assert (cache st' = <[sha3 key := key]> (cache st)) as Ec
    by by (unfold st', cache; destruct st as [? ? []]).
  assert (tdb (trie st') = tdb (trie st)) as Ed by by (unfold st'; destruct st as [? ? []]).
  split.
  - intros hk k. rewrite Ec. intros [[<- <-]|[_ H]]%lookup_insert_Some; [done|by apply Hc].
  - intros k H. rewrite GetKey_cache, Ec. destruct (decide (k = key)) as [->|Hne]; [by rewrite lookup_insert_eq|].
    apply Hm in H as [->|H]; [done|]. assert (sha3 key ≠ sha3 k) as Hs by (intros ?; apply Hne; symmetry; apply keys_nc; auto).
    rewrite lookup_insert_ne, Ed by done. specialize (Hp k H). by rewrite GetKey_cache in Hp.
Qed.
Lemma TryUpdate_contains st m key v : contains st m → keys key → Zlen v < 2 ^ 62 →
  let m' := if decide (v = []) then base.delete key m else <[key := v]> m in
  ∃ st', TryUpdate sha3 key v st = (st', Val tt) ∧ contains st' m' ∧ (preimages st m → preimages st' m').
Proof.
  intros (hm & Hh & Hr) Hk Hv m'. unfold TryUpdate, hashKey. pose proof (TryUpdate_tdb (sha3 key) v (trie st)) as Et.
  assert (∃ t', trie.TryUpdate (sha3 key) v (trie st) = (t', Val tt) ∧ ∃ hm', hashed m' hm' ∧ represents sha3 t' hm') as (t' & E & hm' & Hh' & Hr').
  { unfold m'. case_decide as Ev.
    - subst. destruct (TryDelete_represents sha3 sha3_length (trie st) hm (sha3 key) Hr) as (t' & E & Hr'). exists t'. split; [done|].
      eexists. split; [by apply hashed_delete|done].
    - destruct (TryUpdate_represents sha3 sha3_length (trie st) hm (sha3 key) v Hr) as (t' & E & Hr').
      + unfold small_key. rewrite sha3_length. lia.
      + unfold val_ok. destruct v; [done|]. unfold Zlen in *. cbn [length] in *. lia.
      + exists t'. split; [done|]. eexists. split; [by apply hashed_insert|done]. }
  rewrite E in Et |- *. eexists. split_and!; [done|exists hm'; split; [done|by destruct st as [? ? []]]|].
  apply remember_preimages; [done|done|apply Hh|]. intros k [w H]. unfold m' in H. case_decide.
  - apply lookup_delete_Some in H as [_ H]. right. by eexists.
  - apply lookup_insert_Some in H as [[-> _]|[_ H]]; [by left|right; by eexists].
Qed.

(** ** Commit *)

#[local] Arguments secKey : simpl never.
Lemma secKey_length hk : Zlen (secKey (sha3 hk)) ≠ 32.
Proof. unfold secKey. rewrite Zlen_app, sha3_length. done. Qed.
#[local] Instance secKey_inj : Inj (=) (=) secKey.
Proof. intros k1 k2. by apply app_inv_head. Qed.

Lemma put_preimages_wp known l : ∀ db, NoDup l.*1 → Forall (λ kv, ∃ key, kv.1 = sha3 key) l →
  wp False (put_preimages l)
    (λ _ s', keeps sha3 known (Some db) s' ∧ is_Some s' ∧ (∀ k, k ∉ secKey <$> l.*1 → sget s' k = sget (Some db) k) ∧
       (∀ hk key, (hk, key) ∈ l → sget s' (secKey hk) = Some key))
    (λ _ s', keeps sha3 known (Some db) s' ∧ is_Some s' ∧ put_fails (DB:=DB) ∧ (∀ k, k ∉ secKey <$> l.*1 → sget s' k = sget (Some db) k)) (Some db).
Proof.
  induction l as [|[hk key] l IH]; intros db HN HF.
  { cbn. unfold wpg. cbn. split_and!; [by intros t r|by eexists|done|]. intros hk key H. by apply not_elem_of_nil in H. }
  apply NoDup_cons in HN as [Hni HN]. apply Forall_cons_iff in HF as [[k0 E0] HF]. cbn in E0, Hni. subst hk.
  cbn [put_preimages]. apply wp_bind. unfold put at 1, wpg. pose proof (db_Put_ok (secKey (sha3 k0)) key db) as Hput.
  destruct (db_Put (secKey (sha3 k0)) key db) as [db1 [u|e| |]] eqn:Ep; try done.
  - assert (keeps sha3 known (Some db) (Some db1)) as Hk1.
    { intros t r. apply stored_mono. intros e _ He. cbn in *. rewrite Hput, bool_decide_eq_false_2; [done|].
      intros E. apply (secKey_length k0). by rewrite <- E. }
    eapply wp_mono; [apply (IH db1 HN HF)|done| |]; cbn.
    + intros _ s' (H1 & H2 & H3 & H4). split_and!; [intros t r Hkn Hs; by apply H1, Hk1|done| |].
      * intros k [Hne Hk]%not_elem_of_cons. rewrite H3 by done. cbn. by rewrite Hput, bool_decide_eq_false_2.
      * intros hk key' [[= -> ->]|H]%elem_of_cons; [|by apply H4].
        rewrite H3; [cbn; by rewrite Hput, bool_decide_eq_true_2|]. intros (k & E & Hk)%list_elem_of_fmap. apply (inj secKey) in E as <-. done.
    + intros e s' (H1 & H2 & H3 & H4). split_and!; [intros t r Hkn Hs; by apply H1, Hk1|done|done|].
      intros k [Hne Hk]%not_elem_of_cons. rewrite H4 by done. cbn. by rewrite Hput, bool_decide_eq_false_2.
  - split_and!; [|by eexists|exists (secKey (sha3 k0)), key, db, e; by rewrite Ep|intros k _; apply Hput].
    intros t r. apply stored_mono. intros e' _ He. cbn in *. by rewrite Hput.
Qed.

(** The database holds the preimages of the keys of [m]. *)
Definition db_preimages (s : option DB) (m : kvmap) : Prop := ∀ key, is_Some (m !! key) → sget s (secKey (sha3 key)) = Some key.
Lemma preimages_db st m : cache st = ∅ → db_preimages (tdb (trie st)) m ↔ preimages st m.
Proof.
  intros Ec. split.
  - intros H. split; [intros hk key; rewrite Ec; by rewrite lookup_empty|]. intros key Hk. rewrite GetKey_cache, Ec, lookup_empty. auto.
  - intros [_ H] key Hk. specialize (H key Hk). by rewrite GetKey_cache, Ec, lookup_empty in H.
Qed.

(** What a commit leaves: the tree [t] and the preimages are in memory and
    database; on success they are all in the database. *)
Definition committed (t : ptrie) (m : kvmap) (st' : SecureTrie) (o : outcome trie_error (list byte)) : Prop :=
  unfolds sha3 (tdb (trie st')) true (root (trie st')) t ∧ preimages st' m ∧ is_Some (tdb (trie st')) ∧
  ((o = Val (phash sha3 t) ∧ stored sha3 (tdb (trie st')) true t ∧ db_preimages (tdb (trie st')) m) ∨
   (∃ e, o = Err e ∧ put_fails (DB:=DB))).

Lemma commit_trie_ok known st t m db : no_collisions sha3 known → wf_trie t → all_known sha3 known t →
  unfolds sha3 (Some db) true (root (trie st)) t → cache st = ∅ → db_preimages (Some db) m →
  let '(db', st', o) := commit_trie sha3 st (Some db) in committed t m (set_trie (set_db db' (trie st')) st') o.
Proof.
  intros Hnc Hwf Hk Hu Ec Hp. unfold commit_trie.
  destruct (CommitTo_unfolds sha3 sha3_length known (trie st) t db Hnc Hu Hwf Hk) as (db' & Hext & Hres).
  assert (db_preimages (Some db') m) as Hp'.
  { intros key Hkey. destruct Hext as [_ F]. rewrite F by apply secKey_length. by apply Hp. }
  destruct Hres as [(t' & -> & Ed & Hu' & Hst)|(e & -> & Hf)].
  - split_and!; [done| |by eexists|by left]. apply preimages_db; [by rewrite !cache_set_trie|done].
  - split_and!; [by eapply unfolds_mono| |by eexists|right; by exists e]. apply preimages_db; [by rewrite !cache_set_trie|done].
Qed.

(** Writing the cache to the database. *)
Lemma put_cache_ok known st m db : tdb (trie st) = Some db → preimages st m →
  wp False (put_preimages (range (cache st)))
    (λ _ s', ∃ db', s' = Some db' ∧ keeps sha3 known (Some db) s' ∧ db_preimages s' m)
    (λ _ s', ∃ db', s' = Some db' ∧ keeps sha3 known (Some db) s' ∧ put_fails (DB:=DB) ∧
       ∀ key, is_Some (m !! key) → cache st !! sha3 key = None → sget s' (secKey (sha3 key)) = Some key) (Some db).
Proof.
  intros Ed [Hc Hp]. assert (NoDup (range (cache st)).*1) as HN by (rewrite (range_ok (cache st)); apply NoDup_fst_map_to_list).
  assert (∀ hk key, (hk, key) ∈ range (cache st) ↔ cache st !! hk = Some key) as Hin
    by (intros hk key; rewrite (range_ok (cache st)); apply elem_of_map_to_list).
  assert (∀ s' key, (∀ k, k ∉ secKey <$> (range (cache st)).*1 → sget s' k = sget (Some db) k) → is_Some (m !! key) →
    cache st !! sha3 key = None → sget s' (secKey (sha3 key)) = Some key) as Hframe.
  { intros s' key F Hk E. specialize (Hp key Hk). rewrite GetKey_cache, E, Ed in Hp. rewrite F; [done|].
    intros (hk & E'%(inj secKey) & ([hk' key'] & -> & H)%list_elem_of_fmap)%list_elem_of_fmap. cbn in E'. subst hk'.
    apply Hin in H. by rewrite E in H. }
  eapply wp_mono; [apply (put_preimages_wp known _ db HN)|done| |].
  - apply Forall_forall. intros [hk key] H%Hin. exists key. by apply Hc.
  - intros _ s' (H1 & [db' ->] & F & H). exists db'. split_and!; [done|done|]. intros key Hk.
    destruct (cache st !! sha3 key) as [k|] eqn:E; [|by apply Hframe]. specialize (Hp key Hk). rewrite GetKey_cache, E in Hp.
    injection Hp as ->. by apply H, Hin.
  - intros e s' (H1 & [db' ->] & Hf & F). exists db'. split_and!; try done. intros key. by apply Hframe.
Qed.

Lemma Commit_ok known st t m db : no_collisions sha3 known → wf_trie t → all_known sha3 known t → tdb (trie st) = Some db →
  unfolds sha3 (Some db) true (root (trie st)) t → preimages st m → committed t m (Commit sha3 range st).1 (Commit sha3 range st).2.
Proof.
  intros Hnc Hwf Hk Ed Hu Hp. unfold Commit, CommitTo. rewrite Ed.
  assert (trie (getSecKeyCache st) = trie st) as Et by by destruct st as [? ? []].
  assert (cache (getSecKeyCache st) = cache st) as Ec by by destruct st as [? ? []].
  fold (cache st). case_decide as E.
  { pose proof (commit_trie_ok known (getSecKeyCache st) t m db Hnc Hwf Hk ltac:(by rewrite Et) ltac:(by rewrite Ec)) as H.
    destruct (commit_trie _ _ _) as [[db' st'] o]. apply H. rewrite <- Ed. by apply preimages_db. }
  pose proof (put_cache_ok known st m db Ed Hp) as Hput. unfold wpg in Hput.
  destruct (put_preimages (range (cache st)) (Some db)) as [s' [u|e| |]]; try done; destruct Hput as (db' & -> & Hkeep & H).
  - assert (cache (set_cache ∅ (getSecKeyCache st)) = ∅) as Ec' by by destruct st as [? ? []].
    pose proof (commit_trie_ok known (set_cache ∅ (getSecKeyCache st)) t m db' Hnc Hwf Hk) as Hct.
    destruct (commit_trie _ _ _) as [[db'' st'] o]. apply Hct; [|done|done]. cbn [trie set_cache]. rewrite Et.
    eapply unfolds_keeps; [exact Hkeep|done|done].
  - destruct H as [Hf H]. cbn [fst snd]. split_and!; [| |by eexists|right; by exists e].
    + cbn. rewrite Et. eapply unfolds_keeps; [exact Hkeep|done|done].
    + destruct Hp as [Hc Hp]. split; [unfold cache_ok; by rewrite cache_set_trie, Ec|]. intros key Hkey.
      rewrite GetKey_cache, cache_set_trie, Ec. specialize (Hp key Hkey). rewrite GetKey_cache in Hp.
      destruct (cache st !! sha3 key) eqn:E'; [done|]. by apply H.
Qed.
End secure.

(** ** Properties *)

Section props.
Context {DB : Type} {database : Database DB} {db_laws : DatabaseLaws DB}.
Context (sha3 : list byte → list byte) (sha3_length : ∀ b, Zlen (sha3 b) = 32).
Context (range : kvmap → list (list byte * list byte)) (range_ok : ∀ m, range m ≡ₚ map_to_list m).

(** A secure trie is a finite map on keys whose hashes do not collide:
    lookup, update and deletion return without an error and act as on the map,
    and the preimage of every hashed key in the map stays available. *)
Theorem SecureTrie_refines_map keys (st : SecureTrie (DB:=DB)) m key v : no_collisions sha3 keys → contains sha3 keys st m → preimages sha3 keys st m →
  keys key → Zlen v < 2 ^ 62 →
  (∃ st', TryGet sha3 key st = (st', Val (m !! key)) ∧ contains sha3 keys st' m ∧ preimages sha3 keys st' m) ∧
  (∃ st', TryUpdate sha3 key v st = (st', Val tt) ∧
    let m' := if decide (v = []) then base.delete key m else <[key := v]> m in contains sha3 keys st' m' ∧ preimages sha3 keys st' m') ∧
  (∃ st', TryDelete sha3 key st = (st', Val tt) ∧ contains sha3 keys st' (base.delete key m) ∧ preimages sha3 keys st' (base.delete key m)).
Proof.
  intros Hnc Hc Hp Hk Hv. split_and!.
  - destruct (TryGet_contains sha3 sha3_length keys Hnc st m key Hc Hk) as (st' & E & ? & Hp'). exists st'. auto.
  - destruct (TryUpdate_contains sha3 sha3_length keys Hnc st m key v Hc Hk Hv) as (st' & E & ? & Hp'). exists st'. auto.
  - destruct (TryDelete_contains sha3 sha3_length keys Hnc st m key Hc Hk) as (st' & E & ? & Hp'). exists st'. auto.
Qed.

(** C30: A commit makes map and preimages persistent: a secure trie opened at the
    root hash that [Commit] returns holds the same map and knows the preimages
    of its keys, with an empty cache; [Commit] returns one unless a write to the
    database can fail, and the committed trie keeps map and preimages in any
    case, in whatever order the cache is written. *)
Theorem SecureTrie_Commit keys known (st : SecureTrie (DB:=DB)) m db : hash_ok sha3 known → no_collisions sha3 keys →
  contains sha3 keys st m → preimages sha3 keys st m → (∀ hm, hashed sha3 keys m hm → knows sha3 known hm) → tdb (trie st) = Some db →
  ∃ st', contains sha3 keys st' m ∧ preimages sha3 keys st' m ∧
    ((∃ h, Commit sha3 range st = (st', Val h) ∧ ∀ lim, ∃ st'', NewSecure h (tdb (trie st')) lim = Val st'' ∧
        contains sha3 keys st'' m ∧ preimages sha3 keys st'' m) ∨
     (∃ e, Commit sha3 range st = (st', Err e) ∧ put_fails (DB:=DB))).
Proof.
  intros Hh Hnc (hm & Hm & t & U & W & C & S) Hp Hkn Ed.
  pose proof (Commit_ok sha3 sha3_length range range_ok keys known st t m db (hash_nc _ _ Hh) W (Hkn hm Hm t W C) Ed) as H.
  rewrite Ed in U. specialize (H U Hp). destruct (Commit sha3 range st) as [st' o]. cbn [fst snd] in H.
  destruct H as (U' & Hp' & [db' Ed'] & Hres). exists st'. split_and!; [exists hm; split; [done|by exists t]|done|].
  destruct Hres as [(-> & Hst & Hdb)|(e & -> & Hf)]; [left|right; by exists e]. exists (phash sha3 t). split; [done|]. intros lim.
  rewrite Ed' in *. destruct (stored_New sha3 sha3_length db' t Hst W) as (t' & E & Edb & U'').
  { intros Hw. apply (hash_ok_node sha3 known); [done|done|by apply (Hkn hm)]. }
  unfold NewSecure. rewrite E. eexists. split_and!; [done|exists hm; split; [done|by exists t]|].
  apply preimages_db; [done|]. cbn. by rewrite Edb.
Qed.

(** A copy of a secure trie loses the preimages that are not committed yet:
    after an update the trie knows the preimage of the key, its copy only knows
    what the database has. *)
Theorem Copy_forgets_preimages key v (st st' : SecureTrie (DB:=DB)) : TryUpdate sha3 key v st = (st', Val tt) →
  (GetKey (sha3 key) st').2 = Some key ∧ (GetKey (sha3 key) (Copy st')).2 = sget (tdb (trie st)) (secKey (sha3 key)).
Proof.
  unfold TryUpdate, hashKey. pose proof (TryUpdate_tdb (sha3 key) v (trie st)) as Et.
  destruct (trie.TryUpdate (sha3 key) v (trie st)) as [t' [[]|e| |]]; try done. intros [= <-]. rewrite !GetKey_cache. split.
  - unfold cache. destruct st as [? ? []]; cbn; by rewrite lookup_insert_eq.
  - rewrite <- Et. unfold cache. destruct st as [? ? []]; cbn; by rewrite lookup_empty.
Qed.
End props.

(** ** Examples *)

Definition example_keys (key : list byte) : Prop := key ∈ example_entries.*1.
Definition secure_trie : SecureTrie := foldr (λ kv st, (TryUpdate checksum kv.1 kv.2 st).1) (mkSecure (mkTrie Nil (Some ∅) emptyRoot 0 0) ∅ false) example_entries.

Lemma secure_empty db h : contains checksum example_keys (mkSecure (mkTrie Nil db h 0 0) ∅ false) ∅ ∧ preimages checksum example_keys (mkSecure (mkTrie Nil db h 0 0) ∅ false) ∅.
Proof.
  split; [|apply preimages_db; [done|intros key [v H]; by rewrite lookup_empty in H]].
  exists ∅. split; [|apply represents_new]. split; [intros key [v H]; by rewrite lookup_empty in H|].
  intros hk v. rewrite lookup_empty. split; [done|]. intros (key & _ & H). by rewrite lookup_empty in H.
Qed.
Lemma example_keys_nc : no_collisions checksum example_keys.
Proof. apply pairwise_no_collisions. vm_compute. reflexivity. Qed.
Lemma secure_trie_ok l : Forall (λ kv, example_keys kv.1 ∧ val_ok kv.2) l →
  let st := foldr (λ kv st, (TryUpdate checksum kv.1 kv.2 st).1) (mkSecure (mkTrie Nil (Some ∅) emptyRoot 0 0) ∅ false) l in
  contains checksum example_keys st (list_to_map l) ∧ preimages checksum example_keys st (list_to_map l).
Proof.
  induction 1 as [|[k v] l [Hk Hv] _ IH]; [apply secure_empty|]. destruct IH as [Hc Hp]. cbn [fst snd] in *. cbn zeta in *.
  set (st0 := foldr _ _ l) in *. 
  destruct (TryUpdate_contains checksum checksum_length example_keys example_keys_nc st0 _ k v Hc Hk) as (st' & E & Hc' & Hp'); [by destruct Hv|].
  change (foldr _ _ _) with (TryUpdate checksum k v st0).1. rewrite E.
  rewrite decide_False in Hc', Hp' by (intros ->; by destruct Hv). by split; [|apply Hp'].
Qed.
Lemma secure_example : contains checksum example_keys secure_trie example_map ∧ preimages checksum example_keys secure_trie example_map.
Proof. apply secure_trie_ok. repeat (constructor; [split; [by apply (bool_decide_unpack _)|done]|]). constructor. Qed.

Lemma SecureTrie_refines_map_witness :
  (∃ st', TryGet checksum [Zbyte 0x12] secure_trie = (st', Val (example_map !! [Zbyte 0x12])) ∧
     contains checksum example_keys st' example_map ∧ preimages checksum example_keys st' example_map) ∧
  (∃ st', TryUpdate checksum [Zbyte 0x12] [Zbyte 9] secure_trie = (st', Val tt) ∧ contains checksum example_keys st' (<[[Zbyte 0x12] := [Zbyte 9]]> example_map) ∧
     preimages checksum example_keys st' (<[[Zbyte 0x12] := [Zbyte 9]]> example_map)) ∧
  (∃ st', TryDelete checksum [Zbyte 0x12] secure_trie = (st', Val tt) ∧ contains checksum example_keys st' (base.delete [Zbyte 0x12] example_map) ∧
     preimages checksum example_keys st' (base.delete [Zbyte 0x12] example_map)).
Proof.
  destruct secure_example as [Hc Hp].
  apply (SecureTrie_refines_map checksum checksum_length example_keys secure_trie example_map [Zbyte 0x12] [Zbyte 9] example_keys_nc Hc Hp);
    [by apply (bool_decide_unpack _)|done].
Defined.

Definition secure_known (e : list byte) : Prop := e ∈ [Zbyte 0x80] :: encodings checksum (erase (root (trie secure_trie))).
Lemma secure_hash_ok : hash_ok checksum secure_known.
Proof. apply listed_hash_ok; [vm_compute; reflexivity|vm_compute; reflexivity|by left]. Qed.
Lemma secure_knows hm : hashed checksum example_keys example_map hm → knows checksum secure_known hm.
Proof.
  intros Hh. destruct secure_example as [(hm' & Hh' & Hr) _].
  assert (hm = hm') as -> by (apply map_eq; intros k; apply option_eq; intros v; by rewrite (proj2 Hh), (proj2 Hh')).
  unfold knows. apply (loaded_known _ (trie secure_trie)); [done|vm_compute; reflexivity|]. apply Forall_forall. intros e He. by apply list_elem_of_further.
Qed.
Lemma SecureTrie_Commit_witness : ∃ st', contains checksum example_keys st' example_map ∧ preimages checksum example_keys st' example_map ∧
  ((∃ h, Commit checksum map_to_list secure_trie = (st', Val h) ∧ ∀ lim, ∃ st'', NewSecure h (tdb (trie st')) lim = Val st'' ∧
      contains checksum example_keys st'' example_map ∧ preimages checksum example_keys st'' example_map) ∨
   (∃ e, Commit checksum map_to_list secure_trie = (st', Err e) ∧ put_fails (DB:=kvmap))).
Proof.
  destruct secure_example as [Hc Hp].
  apply (SecureTrie_Commit checksum checksum_length map_to_list (λ m, reflexivity _) example_keys secure_known secure_trie example_map ∅
    secure_hash_ok example_keys_nc Hc Hp secure_knows). vm_compute. reflexivity.
Defined.

Lemma Copy_forgets_preimages_witness : let st' := (TryUpdate checksum [Zbyte 5] [Zbyte 9] secure_trie).1 in
  (GetKey (checksum [Zbyte 5]) st').2 = Some [Zbyte 5] ∧ (GetKey (checksum [Zbyte 5]) (Copy st')).2 = None.
Proof.
  intros st'. destruct (Copy_forgets_preimages checksum [Zbyte 5] [Zbyte 9] secure_trie st') as [H1 H2]; [vm_compute; reflexivity|].
  split; [exact H1|]. rewrite H2. vm_compute. reflexivity.
Defined.
