(* ===== verification/TrieProps.v ===== *)
(** * Properties of tries

    A trie over a database is a finite map; its root hash is a function of the
    map, and determines it when there are no collisions; commits and Merkle
    proofs are faithful. *)

From stdpp Require Import base tactics list numbers gmap.
From S2P Require Import Prelude RlpEncode RlpEncodeFacts RlpDecode RlpRaw Trie TrieKeys TriePure TrieNode TrieOps TrieHash TrieMap TrieProof TrieConcrete.

#[local] Open Scope Z_scope.
Import trie.

Section props.
Context {DB : Type} {database : Database DB} {db_laws : DatabaseLaws DB}.
Context (sha3 : list byte → list byte) (sha3_length : ∀ b, Zlen (sha3 b) = 32).
Abbreviation represents := (represents (DB:=DB) sha3).
Abbreviation knows := (knows sha3).

(** C11: A trie is a finite map: on every trie that stands for a map, with nodes
    in memory or in the database only, lookup, update and deletion return
    without an error and act as on the map; an update with the empty value
    deletes. *)
Theorem Trie_refines_map tr m key v : represents tr m → small_key key → Zlen v < 2 ^ 62 →
  (∃ tr', TryGet key tr = (tr', Val (m !! key)) ∧ represents tr' m) ∧
  (∃ tr', TryUpdate key v tr = (tr', Val tt) ∧ represents tr' (if decide (v = []) then base.delete key m else <[key := v]> m)) ∧
  (∃ tr', TryDelete key tr = (tr', Val tt) ∧ represents tr' (base.delete key m)).
Proof.
  intros Hr Hk Hv. split_and!; [by apply TryGet_represents| |by apply TryDelete_represents].
  case_decide as E; [subst; by apply TryDelete_represents|]. apply TryUpdate_represents; [done|done|done|].
  unfold val_ok. destruct v; [done|]. unfold Zlen in *. cbn [length] in *. lia.
Qed.

(** C20: The root hash depends on the content alone: two tries for the same map
    have the same hash, whatever their histories, caches and databases, and
    hashing leaves the map as it is. *)
Theorem Hash_canonical tr1 tr2 m : represents tr1 m → represents tr2 m →
  ∃ h tr1' tr2', Hash sha3 tr1 = (tr1', Val h) ∧ Hash sha3 tr2 = (tr2', Val h) ∧ represents tr1' m ∧ represents tr2' m.
Proof.
  intros (t1 & U1 & W1 & C1 & S1) (t2 & U2 & W2 & C2 & S2). pose proof (represents_unique sha3 tr1 tr2 m t1 t2 U1 W1 C1 U2 W2 C2) as <-.
  destruct (Hash_unfolds sha3 sha3_length tr1 t1 U1 W1) as (tr1' & E1 & U1' & _).
  destruct (Hash_unfolds sha3 sha3_length tr2 t1 U2 W2) as (tr2' & E2 & U2' & _).
  exists (phash sha3 t1), tr1', tr2'. split_and!; [done|done|by exists t1|by exists t1].
Qed.

(** C23: The root hash determines the content: two tries with the same hash hold
    the same map, provided the hash function has no collision among their
    nodes. *)
Theorem Hash_determines known tr1 m1 tr2 m2 : hash_ok sha3 known → represents tr1 m1 → represents tr2 m2 →
  knows known m1 → knows known m2 → (Hash sha3 tr1).2 = (Hash sha3 tr2).2 → m1 = m2.
Proof.
  intros Hh (t1 & U1 & W1 & C1 & _) (t2 & U2 & W2 & C2 & _) K1 K2.
  destruct (Hash_unfolds sha3 sha3_length tr1 t1 U1 W1) as (tr1' & -> & _).
  destruct (Hash_unfolds sha3 sha3_length tr2 t2 U2 W2) as (tr2' & -> & _). intros [= E].
  assert (t1 = t2) as <- by (eapply (phash_inj sha3 sha3_length known); eauto). by eapply content_unique.
Qed.

(** C21: Commit is faithful: opening a trie at the root hash that [Commit]
    returns gives the same map, and [Commit] returns one unless a write to the
    database can fail.  In any case the
    committed trie and every other trie in the database keep their content. *)
Theorem Commit_New known tr m db : hash_ok sha3 known → represents tr m → knows known m → tdb tr = Some db →
  ∃ tr', represents tr' m ∧
    ((∃ h, Commit sha3 tr = (tr', Val h) ∧ ∃ tr'', New h (tdb tr') = Val tr'' ∧ represents tr'' m) ∨
     (∃ e, Commit sha3 tr = (tr', Err e) ∧ put_fails (DB:=DB))) ∧
    ∀ tr0 m0, represents tr0 m0 → knows known m0 → tdb tr0 = Some db → represents (set_db (tdb tr') tr0) m0.
Proof.
  intros Hh (t & U & W & C & S) Hk Edb.
  destruct (Commit_unfolds sha3 sha3_length known tr t db (hash_nc _ _ Hh) Edb U W (Hk t W C)) as (tr' & [db' E'] & Hext & U' & Hres).
  exists tr'. split_and!.
  - by exists t.
  - destruct Hres as [[E Hst]|(e & E & Hf)]; [left|right; by exists e]. exists (phash sha3 t). split; [done|].
    rewrite E' in *. destruct (stored_New sha3 sha3_length db' t Hst W) as (tr'' & -> & Ed & U'').
    + intros Hw. apply (hash_ok_node sha3 known); [done|done|by apply Hk].
    + exists tr''. split; [done|]. exists t. by split_and!.
  - intros tr0 m0 (t0 & U0 & W0 & C0 & S0) K0 E0. exists t0. split_and!; try done. cbn.
    eapply unfolds_mono; [exact Hext|by apply K0|]. by rewrite Edb, <- E0.
Qed.

(** C22: Merkle proofs: the proof a non-empty trie makes for a key verifies
    against its root hash and yields the value of the key, or its absence; and
    no proof that verifies against the root hash yields anything else, unless
    it exhibits a collision. *)
Theorem Prove_VerifyProof known tr m key h : represents tr m → m ≠ ∅ → (Hash sha3 tr).2 = Val h →
  (∃ pf, Prove sha3 key tr = Val pf ∧ VerifyProof sha3 h key pf = Val (m !! key)) ∧
  (∀ pf v, no_collisions sha3 known → knows known m → Forall known pf → VerifyProof sha3 h key pf = Val v → v = m !! key).
Proof.
  intros (t & U & W & C & S) Hne. destruct (Hash_unfolds sha3 sha3_length tr t U W) as (tr' & -> & _). intros [= <-].
  assert (wf_node t) as Hw.
  { destruct W as [->|?]; [|done]. destruct Hne. apply (content_unique PNil); [done|apply content_empty]. }
  assert (t ≠ PNil ∧ path t (keybytesToHex key) = t :: tail (path t (keybytesToHex key))) as [_ Ep] by by destruct t.
  rewrite <- (content_get t m key C), phash_node by done. unfold VerifyProof. split.
  - exists (proof_of sha3 t (keybytesToHex key)). split; [by apply Prove_ok|].
    apply verify_complete; [done|done|apply keybytesToHex_hexkey|]. unfold proof_of. by rewrite Ep.
  - intros pf v Hnc Hk HF E. eapply verify_sound; [done|done|done|done|apply keybytesToHex_hexkey| |done]. by apply Hk.
Qed.
End props.

(** The compact encoding of hex keys, with and without terminator and of
    either parity, and the conversion of byte keys to hex are inverted by their
    decoders. *)
Theorem key_encodings key ns (t : bool) : nibbles ns →
  hexToKeybytes (keybytesToHex key) = Some key ∧
  ∃ c, hexToCompact (ns ++ term_of t) = Some c ∧ compactToHex c = Some (ns ++ term_of t) ∧ Zlen c = Zlen ns / 2 + 1.
Proof. intros Hn. split; [apply hexToKeybytes_keybytesToHex|by apply hexToCompact_ok]. Qed.

(** Decoding a node panics, instead of returning an error, on a short node
    with an empty key and on a truncated single-byte string; such a node in a
    Merkle proof crashes the verifier. *)
Theorem decodeNode_panics hash g : let b1 := [Zbyte 0xC2; Zbyte 0x80; Zbyte 0x80] in let b2 := [Zbyte 0xC1; Zbyte 0x81] in
  decodeNode hash b1 g = Panic ∧ decodeNode hash b2 g = Panic ∧
  ∀ sha3 key, VerifyProof sha3 (sha3 b1) key [b1] = Panic ∧ VerifyProof sha3 (sha3 b2) key [b2] = Panic.
Proof.
  cbn zeta. split_and!; [by vm_compute|by vm_compute|]. intros sha3 key. unfold VerifyProof. cbn [VerifyProof_loop].
  rewrite !bool_decide_eq_true_2 by done. cbn [negb]. split; by vm_compute.
Qed.

(** ** Examples *)

Lemma Trie_refines_map_witness : (∃ tr', TryGet [Zbyte 0x12] example_trie = (tr', Val (Some [Zbyte 2; Zbyte 3])) ∧ represents checksum tr' example_map) ∧
  (∃ tr', TryUpdate [Zbyte 0x12] [] example_trie = (tr', Val tt) ∧ represents checksum tr' (base.delete [Zbyte 0x12] example_map)) ∧
  (∃ tr', TryDelete [Zbyte 0x12] example_trie = (tr', Val tt) ∧ represents checksum tr' (base.delete [Zbyte 0x12] example_map)).
Proof. apply (Trie_refines_map checksum checksum_length example_trie example_map [Zbyte 0x12] []); [apply example_represents|by vm_compute|by vm_compute]. Defined.

Definition reordered_trie : Trie := trie_of (reverse example_entries).
Lemma reordered_represents : represents checksum reordered_trie example_map.
Proof.
  assert (example_map = list_to_map (reverse example_entries)) as ->.
  { apply list_to_map_proper; [by apply (bool_decide_unpack _)|]. by rewrite reverse_Permutation. }
  apply trie_of_represents. repeat constructor.
Qed.
Lemma Hash_canonical_witness : ∃ h tr1' tr2', Hash checksum example_trie = (tr1', Val h) ∧ Hash checksum reordered_trie = (tr2', Val h) ∧
  represents checksum tr1' example_map ∧ represents checksum tr2' example_map.
Proof. apply (Hash_canonical checksum checksum_length); [apply example_represents|apply reordered_represents]. Defined.

Lemma Hash_determines_witness : example_map = example_map.
Proof.
  apply (Hash_determines checksum checksum_length example_known example_trie example_map reordered_trie example_map example_hash_ok
    example_represents reordered_represents example_knows example_knows). by vm_compute.
Defined.

Lemma Commit_New_witness : ∃ tr', represents checksum tr' example_map ∧
  ((∃ h, Commit checksum example_trie = (tr', Val h) ∧ ∃ tr'', New h (tdb tr') = Val tr'' ∧ represents checksum tr'' example_map) ∨
   (∃ e, Commit checksum example_trie = (tr', Err e) ∧ put_fails (DB:=kvmap))) ∧
  ∀ tr0 m0, represents checksum tr0 m0 → knows checksum example_known m0 → tdb tr0 = Some ∅ → represents checksum (set_db (tdb tr') tr0) m0.
Proof.
  apply (Commit_New checksum checksum_length example_known example_trie example_map ∅ example_hash_ok example_represents example_knows).
  by vm_compute.
Defined.

Definition example_root : list byte := match (Hash checksum example_trie).2 with Val h => h | _ => [] end.
Lemma Prove_VerifyProof_witness :
  (∃ pf, Prove checksum [Zbyte 0x12; Zbyte 0x56] example_trie = Val pf ∧
     VerifyProof checksum example_root [Zbyte 0x12; Zbyte 0x56] pf = Val (example_map !! [Zbyte 0x12; Zbyte 0x56])) ∧
  (∀ pf v, no_collisions checksum example_known → knows checksum example_known example_map → Forall example_known pf →
     VerifyProof checksum example_root [Zbyte 0x12; Zbyte 0x56] pf = Val v → v = example_map !! [Zbyte 0x12; Zbyte 0x56]).
Proof.
  apply (Prove_VerifyProof checksum checksum_length example_known example_trie example_map [Zbyte 0x12; Zbyte 0x56] example_root example_represents).
  - intros E%(f_equal (lookup [Zbyte 0x12])). vm_compute in E. discriminate E.
  - vm_compute. reflexivity.
Defined.

Lemma key_encodings_witness : hexToKeybytes (keybytesToHex [Zbyte 0x12; Zbyte 0x34]) = Some [Zbyte 0x12; Zbyte 0x34] ∧
  ∃ c, hexToCompact ([Zbyte 1; Zbyte 2; Zbyte 3] ++ term_of true) = Some c ∧
    compactToHex c = Some ([Zbyte 1; Zbyte 2; Zbyte 3] ++ term_of true) ∧ Zlen c = 3 / 2 + 1.
Proof. apply (key_encodings [Zbyte 0x12; Zbyte 0x34] [Zbyte 1; Zbyte 2; Zbyte 3] true). repeat constructor. Defined.
