(* ===== verification/BlockTypes.v ===== *)
(** * Logs, receipts, blooms, headers and blocks

    [src/blockchain/types]: log.go, receipt.go, bloom9.go, derive_sha.go and
    block.go.  A type with its own [EncodeRLP] and [DecodeRLP] has the codec of
    the struct these methods pass on. *)

From stdpp Require Import base tactics list numbers.
From S2P Require Import Prelude GoMath RlpEncode RlpDecode RlpEncodeFacts RlpStream RlpSound RlpComplete RlpRaw RlpRecord RlpCodec Keccak Trie TxTypes.

#[local] Open Scope Z_scope.

Module blocks.
Import rlp rlpd keccak types.

(** ** log.go *)

Record Log : Type := mkLog {
  l_Address : Address;
  l_Topics : list GoMath.Hash;
  l_Data : list byte;
  l_BlockNumber : Z;
  l_TxHash : GoMath.Hash;
  l_TxIndex : Z;
  l_BlockHash : GoMath.Hash;
  l_Index : Z;
  l_Removed : bool }.

(** The consensus fields; decoding leaves the others zero. *)
Definition rlpLog : codec (Address * (list Z * list byte)) :=
  c_struct (f_cons (c_array 20) (f_cons (c_list (c_array 32)) (f_last c_bytes))).
Definition Log_to (l : Log) : Address * (list Z * list byte) := (l_Address l, (l_Topics l, l_Data l)).
Definition Log_of (r : Address * (list Z * list byte)) : Log :=
  let '(a, (t, d)) := r in mkLog a t d 0 0 0 0 0 false.

Definition rlpStorageLog : codec (Address * (list Z * (list byte * (Z * (Z * (Z * (Z * Z))))))) :=
  c_struct (f_cons (c_array 20) (f_cons (c_list (c_array 32)) (f_cons c_bytes
    (f_cons (c_uint 64) (f_cons (c_array 32) (f_cons (c_uint 64) (f_cons (c_array 32) (f_last (c_uint 64))))))))).
Definition LogForStorage_to (l : Log) : Address * (list Z * (list byte * (Z * (Z * (Z * (Z * Z)))))) :=
  (l_Address l, (l_Topics l, (l_Data l, (l_BlockNumber l, (l_TxHash l, (l_TxIndex l, (l_BlockHash l, l_Index l))))))).
Definition LogForStorage_of (r : Address * (list Z * (list byte * (Z * (Z * (Z * (Z * Z))))))) : Log :=
  let '(a, (t, (d, (bn, (th, (ti, (bh, i))))))) := r in mkLog a t d bn th ti bh i false.

(** ** bloom9.go *)

Definition BloomByteLength : Z := 256.
Definition BloomBitLength : Z := 8 * BloomByteLength.
(** The 256 bytes. *)
Abbreviation Bloom := (list byte) (only parsing).
Definition zero_Bloom : Bloom := zeros BloomByteLength.

Definition Bloom_SetBytes (d : list byte) (b : Bloom) : outcome unit Bloom :=
  if Zlen b <? Zlen d then Panic
  else Val (take (Z.to_nat (BloomByteLength - Zlen d)) b ++ d).
Definition BytesToBloom (b : list byte) : outcome unit Bloom := Bloom_SetBytes b zero_Bloom.
Definition Bloom_Big (b : Bloom) : Z := SetBytes b.

(** The bit [i / 2] of the three, from bytes [i] and [i + 1] of the hash. *)
Definition bloom_bit (h : list byte) (i : nat) : Z :=
  Z.land (byteZ (nth (i + 1) h Byte.x00) + Z.shiftl (byteZ (nth i h Byte.x00)) 8) 2047.
Definition bloom9 (b : list byte) : Z :=
  let h := hash256 b in
  foldl (λ r i, Z.lor r (Z.shiftl 1 (bloom_bit h i))) 0 [0; 2; 4]%nat.

Definition LogsBloom (logs : list Log) : Z :=
  foldl (λ bin log,
    foldl (λ bin t, Z.lor bin (bloom9 (Hash_Bytes t))) (Z.lor bin (bloom9 (Address_Bytes (l_Address log)))) (l_Topics log))
    0 logs.

Definition Bloom_Add (d : Z) (b : Bloom) : outcome unit Bloom :=
  let bin := Z.lor (SetBytes b) (bloom9 (big_Bytes d)) in
  Bloom_SetBytes (big_Bytes bin) b.
(** [topic] is [topic.Bytes()]. *)
Definition BloomLookup (bin : Bloom) (topic : list byte) : bool :=
  let bloom := Bloom_Big bin in
  let cmp := bloom9 topic in
  big_Cmp (Z.land bloom cmp) cmp =? 0.
Definition Bloom_Test (test : Z) (b : Bloom) : bool := BloomLookup b (big_Bytes test).
Definition Bloom_TestBytes (test : list byte) (b : Bloom) : bool := Bloom_Test (SetBytes test) b.

(** ** receipt.go *)

Definition ReceiptStatusFailed : Z := 0.
Definition ReceiptStatusSuccessful : Z := 1.
Definition receiptStatusFailedRLP : list byte := [].
Definition receiptStatusSuccessfulRLP : list byte := [Byte.x01].

Record Receipt : Type := mkReceipt {
  r_PostState : list byte;
  r_Status : Z;
  r_CumulativeGasUsed : Z;
  r_Bloom : Bloom;
  r_Logs : list Log;
  r_TxHash : GoMath.Hash;
  r_ContractAddress : Address;
  r_GasUsed : Z }.

(** The bloom and the derived fields are set later. *)
Definition NewReceipt (root : list byte) (failed : bool) (cumulativeGasUsed : Z) : Receipt :=
  mkReceipt root (if failed then ReceiptStatusFailed else ReceiptStatusSuccessful) cumulativeGasUsed zero_Bloom [] 0 0 0.

Definition statusEncoding (r : Receipt) : list byte :=
  if Zlen (r_PostState r) =? 0 then
    if r_Status r =? ReceiptStatusFailed then receiptStatusFailedRLP else receiptStatusSuccessfulRLP
  else r_PostState r.
(** [None]: an invalid status.  The status and the post state of a new
    receipt. *)
Definition setStatus (postStateOrStatus : list byte) : option (list byte * Z) :=
  if bool_decide (postStateOrStatus = receiptStatusSuccessfulRLP) then Some ([], ReceiptStatusSuccessful)
  else if bool_decide (postStateOrStatus = receiptStatusFailedRLP) then Some ([], ReceiptStatusFailed)
  else if Zlen postStateOrStatus =? 32 then Some (postStateOrStatus, 0)
  else None.

Definition c_Log : codec (Address * (list Z * list byte)) := c_ptr rlpLog.
Definition receiptRLP : codec (list byte * (Z * (list byte * list (Address * (list Z * list byte))))) :=
  c_struct (f_cons c_bytes (f_cons c_big (f_cons (c_raw_array BloomByteLength) (f_last (c_list c_Log))))).
Definition receiptStorageRLP : codec (list byte * (Z * (list byte * (Z * (Z * (list (Address * (list Z * (list byte * (Z * (Z * (Z * (Z * Z))))))) * Z)))))) :=
  c_struct (f_cons c_bytes (f_cons c_big (f_cons (c_raw_array BloomByteLength) (f_cons (c_array 32) (f_cons (c_array 20)
    (f_cons (c_list (c_ptr rlpStorageLog)) (f_last c_big))))))).

Definition Receipt_to (r : Receipt) : list byte * (Z * (list byte * list (Address * (list Z * list byte)))) :=
  (statusEncoding r, (r_CumulativeGasUsed r, (r_Bloom r, Log_to <$> r_Logs r))).
Definition Receipt_EncodeRLP (r : Receipt) : outcome rlp_error (list byte) := Encode (c_typ receiptRLP) (c_to receiptRLP (Receipt_to r)).
Definition ReceiptForStorage_to (r : Receipt) : list byte * (Z * (list byte * (Z * (Z * (list (Address * (list Z * (list byte * (Z * (Z * (Z * (Z * Z))))))) * Z))))) :=
  (statusEncoding r, (r_CumulativeGasUsed r, (r_Bloom r, (r_TxHash r, (r_ContractAddress r, (LogForStorage_to <$> r_Logs r, r_GasUsed r)))))).
Definition ReceiptForStorage_EncodeRLP (r : Receipt) : outcome rlp_error (list byte) :=
  Encode (c_typ receiptStorageRLP) (c_to receiptStorageRLP (ReceiptForStorage_to r)).

Inductive receipt_error : Type := receipt_rlp (e : rlp_error) | ErrInvalidStatus.
Definition c_decode {A} (c : codec A) : D A := v ← decoder (c_typ c); or_panic (c_of c v).
(** Decoding into a new receipt. *)
Definition Receipt_of (dec : list byte * (Z * (list byte * list (Address * (list Z * list byte))))) : receipt_error + Receipt :=
  let '(status, (gas, (bloom, logs))) := dec in
  match setStatus status with
  | None => inl ErrInvalidStatus
  | Some (ps, st) => inr (mkReceipt ps st gas bloom (Log_of <$> logs) 0 0 0)
  end.
Definition Receipt_DecodeRLP : D (receipt_error + Receipt) :=
  dec ← c_decode receiptRLP; mret (Receipt_of dec).
Definition ReceiptForStorage_of (dec : list byte * (Z * (list byte * (Z * (Z * (list (Address * (list Z * (list byte * (Z * (Z * (Z * (Z * Z))))))) * Z))))))
    : receipt_error + Receipt :=
  let '(status, (gas, (bloom, (txh, (addr, (logs, used)))))) := dec in
  match setStatus status with
  | None => inl ErrInvalidStatus
  | Some (ps, st) => inr (mkReceipt ps st gas bloom (LogForStorage_of <$> logs) txh addr used)
  end.
Definition ReceiptForStorage_DecodeRLP : D (receipt_error + Receipt) :=
  dec ← c_decode receiptStorageRLP; mret (ReceiptForStorage_of dec).

Definition CreateBloom (receipts : list Receipt) : outcome unit Bloom :=
  let bin := foldl (λ bin r, Z.lor bin (LogsBloom (r_Logs r))) 0 receipts in
  BytesToBloom (big_Bytes bin).

(** [Receipts.GetRlp] panics on an error, [Transactions.GetRlp] ignores it. *)
Definition Receipts_GetRlp (r : Receipt) : outcome unit (list byte) :=
  match Receipt_EncodeRLP r with Val b => Val b | _ => Panic end.
Definition Transactions_GetRlp (tx : Transaction) : list byte :=
  match EncodeRLP tx with Val b => b | _ => [] end.

(** ** derive_sha.go *)

(** [new(trie.Trie)]: no database. *)
#[global] Instance nil_database : trie.Database Empty_set := {| trie.db_Get _ _ := None; trie.db_Put _ _ := panic |}.
Definition new_Trie : trie.Trie (DB := Empty_set) := trie.mkTrie trie.Nil None (zeros 32) 0 0.
(** [rlp.Encode(keybuf, uint(i))] *)
Definition derive_key (i : nat) : list byte :=
  match Encode (TUint 64) (VUint (Z.of_nat i)) with Val b => b | _ => [] end.
Fixpoint DeriveSha_loop (i : nat) (items : list (list byte)) (t : trie.Trie (DB := Empty_set)) : outcome trie.trie_error (trie.Trie (DB := Empty_set)) :=
  match items with
  | [] => Val t
  | item :: items =>
      match trie.Update (derive_key i) item t with
      | (t, Val _) => DeriveSha_loop (S i) items t
      | (_, Err e) => Err e
      | (_, Panic) => Panic
      | (_, NoFuel) => NoFuel
      end
  end.
(** The items are what [list.GetRlp] gives. *)
Definition DeriveSha (items : list (list byte)) : outcome trie.trie_error GoMath.Hash :=
  t ← DeriveSha_loop 0 items new_Trie;
  h ← (trie.Hash hash256 t).2;
  Val (SetBytes h).
Definition DeriveSha_txs (txs : list Transaction) : outcome trie.trie_error GoMath.Hash := DeriveSha (Transactions_GetRlp <$> txs).
Definition DeriveSha_receipts (rs : list Receipt) : outcome trie.trie_error GoMath.Hash :=
  match mapM Receipts_GetRlp rs with Val items => DeriveSha items | _ => Panic end.

(** ** block.go *)

(** A nonce is the number its eight bytes denote. *)
Abbreviation BlockNonce := Z (only parsing).
Definition EncodeNonce (i : Z) : BlockNonce := SetBytes (be_bytes 8 i).
Definition Nonce_Uint64 (n : BlockNonce) : Z := u64 n.

Record Header : Type := mkHeader {
  ParentHash : GoMath.Hash;
  UncleHash : GoMath.Hash;
  Coinbase : Address;
  CoinbaseHash : Z;
  Root : GoMath.Hash;
  TxHash : GoMath.Hash;
  ReceiptHash : GoMath.Hash;
  h_Bloom : Bloom;
  Difficulty : Z;
  Number : Z;
  h_GasLimit : Z;
  GasUsed : Z;
  Time : Z;
  Extra : list byte;
  MixDigest : GoMath.Hash;
  h_Nonce : BlockNonce;
  ExtraHash : list byte;
  Random : list byte }.

Definition Header_tuple : Type := Z * (Z * (Z * (Z * (Z * (Z * (Z * (list byte * (Z * (Z * (Z * (Z * (Z * (list byte * (Z * (Z * (list byte * list byte)))))))))))))))).
Definition Header_to (h : Header) : Header_tuple :=
  (ParentHash h, (UncleHash h, (Coinbase h, (CoinbaseHash h, (Root h, (TxHash h, (ReceiptHash h, (h_Bloom h, (Difficulty h, (Number h,
   (h_GasLimit h, (GasUsed h, (Time h, (Extra h, (MixDigest h, (h_Nonce h, (ExtraHash h, Random h))))))))))))))))).
Definition Header_of (t : Header_tuple) : Header :=
  let '(ph, (uh, (cb, (ch, (rt, (th, (rh, (bl, (df, (nu, (gl, (gu, (tm, (ex, (md, (no, (eh, ra))))))))))))))))) := t in
  mkHeader ph uh cb ch rt th rh bl df nu gl gu tm ex md no eh ra.
Definition c_Header : codec Header :=
  c_iso Header_to Header_of (c_struct (f_cons (c_array 32) (f_cons (c_array 32) (f_cons (c_array 20) (f_cons (c_array 4)
    (f_cons (c_array 32) (f_cons (c_array 32) (f_cons (c_array 32) (f_cons (c_raw_array BloomByteLength)
    (f_cons c_big (f_cons c_big (f_cons c_big (f_cons c_big (f_cons c_big (f_cons c_bytes (f_cons (c_array 32) (f_cons (c_array 8)
    (f_cons c_bytes (f_last c_string))))))))))))))))))).
#[global] Instance Header_rlp : RlpRecord Header := codec_rlp c_Header.

Definition Header_Hash (h : Header) : GoMath.Hash := rlpHash (rec_typ Header) (to_value h).
(** The fields without seal; it leaves out [CoinbaseHash] as well. *)
Definition HashNoNonce (h : Header) : GoMath.Hash :=
  rlpHash (TSlice TInterface) (VList (VInterface ∘ Some <$>
    [(TByteArray 32, VBytes (Hash_Bytes (ParentHash h))); (TByteArray 32, VBytes (Hash_Bytes (UncleHash h)));
     (TByteArray 20, VBytes (Address_Bytes (Coinbase h))); (TByteArray 32, VBytes (Hash_Bytes (Root h)));
     (TByteArray 32, VBytes (Hash_Bytes (TxHash h))); (TByteArray 32, VBytes (Hash_Bytes (ReceiptHash h)));
     (TByteArray 256, VBytes (h_Bloom h)); (TBigInt, VBig (Some (Difficulty h))); (TBigInt, VBig (Some (Number h)));
     (TBigInt, VBig (Some (h_GasLimit h))); (TBigInt, VBig (Some (GasUsed h))); (TBigInt, VBig (Some (Time h)));
     (TBytes, VBytes (Extra h))])).

Definition c_Headers : codec (list Header) := c_list (c_ptr c_Header).
Definition CalcUncleHash (uncles : list Header) : GoMath.Hash := rlpHash (c_typ c_Headers) (c_to c_Headers uncles).
Definition EmptyUncleHash : GoMath.Hash := CalcUncleHash [].
Definition EmptyRootHash : outcome trie.trie_error GoMath.Hash := DeriveSha_txs [].

Record Block : Type := mkBlock {
  header : Header;
  uncles : list Header;
  transactions : list Transaction;
  b_hash : option GoMath.Hash;
  b_size : option Z }.

Definition set_TxHash (x : GoMath.Hash) (h : Header) : Header :=
  mkHeader (ParentHash h) (UncleHash h) (Coinbase h) (CoinbaseHash h) (Root h) x (ReceiptHash h) (h_Bloom h) (Difficulty h) (Number h)
    (h_GasLimit h) (GasUsed h) (Time h) (Extra h) (MixDigest h) (h_Nonce h) (ExtraHash h) (Random h).
Definition set_UncleHash (x : GoMath.Hash) (h : Header) : Header :=
  mkHeader (ParentHash h) x (Coinbase h) (CoinbaseHash h) (Root h) (TxHash h) (ReceiptHash h) (h_Bloom h) (Difficulty h) (Number h)
    (h_GasLimit h) (GasUsed h) (Time h) (Extra h) (MixDigest h) (h_Nonce h) (ExtraHash h) (Random h).
Definition set_receipts (x : GoMath.Hash) (b : Bloom) (h : Header) : Header :=
  mkHeader (ParentHash h) (UncleHash h) (Coinbase h) (CoinbaseHash h) (Root h) (TxHash h) x b (Difficulty h) (Number h)
    (h_GasLimit h) (GasUsed h) (Time h) (Extra h) (MixDigest h) (h_Nonce h) (ExtraHash h) (Random h).

(** Headers are copied by the code; values are immutable here.  An error of
    the trie would stop the caller. *)
Definition NewBlock (h : Header) (txs : list Transaction) (us : list Header) (receipts : list Receipt) : outcome trie.trie_error Block :=
  txhash ← (if Zlen txs =? 0 then EmptyRootHash else DeriveSha_txs txs);
  let h := set_TxHash txhash h in
  h ← (if Zlen receipts =? 0 then r ← EmptyRootHash; Val (set_receipts r (h_Bloom h) h)
       else
         r ← DeriveSha_receipts receipts;
         match CreateBloom receipts with Val b => Val (set_receipts r b h) | _ => Panic end);
  let h := set_UncleHash (if Zlen us =? 0 then EmptyUncleHash else CalcUncleHash us) h in
  Val (mkBlock h us txs None None).
Definition NewBlockWithHeader (h : Header) : Block := mkBlock h [] [] None None.
Definition WithSeal (h : Header) (b : Block) : Block := mkBlock h (uncles b) (transactions b) None None.
Definition WithBody (txs : list Transaction) (us : list Header) (b : Block) : Block :=
  mkBlock (header b) us txs None None.

(** [extblock]: its transactions have their own decoder. *)
Definition extblock_typ : typ := TStruct [TPtr (c_typ c_Header); TSlice (TPtr (rec_typ txdata)); c_typ c_Headers].
Definition extblock_value (b : Block) : value :=
  VList [VPtr (Some (c_to c_Header (header b))); VList (VPtr ∘ Some ∘ to_value ∘ data <$> transactions b); c_to c_Headers (uncles b)].
Definition Block_EncodeRLP (b : Block) : outcome rlp_error (list byte) := Encode extblock_typ (extblock_value b).
Definition extblock_DecodeRLP : D (Header * list Transaction * list Header) :=
  wrapped List_;;
  r ← (h ← field (c_decode (c_ptr c_Header));
       txs ← field (decodeListSlice DecodeRLP);
       us ← field (c_decode c_Headers);
       mret (h, txs, us));
  wrapped ListEnd;; mret r.
Definition Block_DecodeRLP : D Block :=
  r ← sized extblock_DecodeRLP;
  let '(h, txs, us) := r.1 in
  mret (mkBlock h us txs None (Some (ListSize r.2))).

Definition store_b_hash (v : GoMath.Hash) (b : Block) : Block := mkBlock (header b) (uncles b) (transactions b) (Some v) (b_size b).
Definition store_b_size (n : Z) (b : Block) : Block := mkBlock (header b) (uncles b) (transactions b) (b_hash b) (Some n).
Definition Block_Hash : M Block unit GoMath.Hash :=
  c ← gets b_hash;
  match c with
  | Some h => mret h
  | None =>
      h ← gets header;
      let v := Header_Hash h in
      modify (store_b_hash v);;
      mret v
  end.
Definition Block_Size : M Block unit Z :=
  c ← gets b_size;
  match c with
  | Some n => mret n
  | None =>
      b ← gets (λ b, b);
      let c := match Block_EncodeRLP b with Val enc => Zlen enc | _ => 0 end in
      modify (store_b_size c);;
      mret c
  end.
(** [Block.Transaction]: the first with this hash. *)
Definition Block_Transaction (hash : GoMath.Hash) (b : Block) : option Transaction :=
  find (λ tx, tx_hash tx =? hash) (transactions b).
End blocks.
