(* ===== verification/BlockFacts.v ===== *)
(** * Facts about blooms, receipts and blocks *)

From stdpp Require Import base tactics list numbers gmap.
From S2P Require Import Prelude GoMath RlpEncode RlpDecode RlpEncodeFacts RlpStream RlpSound RlpComplete RlpRaw RlpRecord RlpCodec Keccak KeccakFacts KeccakProps.
From S2P Require Import Trie TrieKeys TriePure TrieNode TrieOps TrieHash TrieMap TrieConcrete TxTypes TxFacts BlockTypes.

#[local] Open Scope Z_scope.
Import rlp rlpd types blocks.
#[local] Opaque keccak.hash256 keccak256.

(** ** Codecs *)

#[global] Instance rlpLog_laws : CodecLaws rlpLog.
Proof. apply _. Qed.
#[global] Instance rlpStorageLog_laws : CodecLaws rlpStorageLog.
Proof. apply _. Qed.
#[global] Instance c_Log_laws : CodecLaws c_Log.
Proof. apply _. Qed.
#[global] Instance receiptRLP_laws : CodecLaws receiptRLP.
Proof. apply _. Qed.
#[global] Instance receiptStorageRLP_laws : CodecLaws receiptStorageRLP.
Proof. apply _. Qed.
#[global] Instance c_Header_laws : CodecLaws c_Header.
Proof.
  apply c_iso_laws; [apply _|by intros []|]. by intros (?&?&?&?&?&?&?&?&?&?&?&?&?&?&?&?&?&?).
Qed.
#[global] Instance c_Headers_laws : CodecLaws c_Headers.
Proof. apply _. Qed.
#[global] Instance Header_laws : RlpRecordLaws Header (c_ok c_Header) := codec_laws c_Header.

(** Ranges of the fields of a closed value. *)
Ltac ranges := repeat match goal with
  | |- Forall _ ?l => let l' := eval hnf in l in change l with l'; constructor
  | |- _ ≤ _ => vm_compute; congruence
  | |- (_ ?= _) = Gt → False => vm_compute; congruence
  | |- _ < _ => vm_compute; reflexivity
  | |- Zlen _ = _ => vm_compute; reflexivity
  | |- True => exact I
  | |- _ ∧ _ => split
  | |- _ => progress hnf
  end.

(** ** Blooms *)

(** [covers a b]: the bits of [b] are set in [a]. *)
Definition covers (a b : Z) : Prop := Z.land a b = b.
#[global] Instance covers_po : PreOrder covers.
Proof.
  split; unfold covers; [intros a; apply Z.land_diag|]. intros a b c H1 H2. by rewrite <- H2, Z.land_assoc, H1.
Qed.
Lemma covers_lor_l a b : covers (Z.lor a b) a.
Proof. apply Z.bits_inj'. intros n _. rewrite Z.land_spec, Z.lor_spec. by destruct (Z.testbit a n), (Z.testbit b n). Qed.
Lemma covers_lor_r a b : covers (Z.lor a b) b.
Proof. rewrite Z.lor_comm. apply covers_lor_l. Qed.

Lemma lor_range n a b : 0 < n → 0 ≤ a < 2 ^ n → 0 ≤ b < 2 ^ n → 0 ≤ Z.lor a b < 2 ^ n.
Proof.
  intros Hn Ha Hb. assert (0 ≤ Z.lor a b) by (apply Z.lor_nonneg; lia). split; [done|].
  destruct (decide (Z.lor a b = 0)) as [->|Hne]; [lia|]. apply Z.log2_lt_pow2; [lia|]. rewrite Z.log2_lor by lia.
  assert (∀ x, 0 ≤ x < 2 ^ n → Z.log2 x < n) as Hx; [|by apply Z.max_lub_lt; apply Hx].
  intros x Hx. destruct (decide (x = 0)) as [->|]; [done|]. apply Z.log2_lt_pow2; lia.
Qed.
Definition bloom_range (z : Z) : Prop := 0 ≤ z < 2 ^ BloomBitLength.
Lemma bloom_lor a b : bloom_range a → bloom_range b → bloom_range (Z.lor a b).
Proof. by apply lor_range. Qed.
Lemma bloom_bit_range h i : 0 ≤ bloom_bit h i < 2048.
Proof. unfold bloom_bit. change 2047 with (Z.ones 11). rewrite Z.land_ones by lia. by apply Z.mod_pos_bound. Qed.
Lemma bloom9_range b : bloom_range (bloom9 b).
Proof.
  unfold bloom9. cbn [foldl]. assert (∀ i, bloom_range (Z.shiftl 1 (bloom_bit (keccak.hash256 b) i))) as H.
  { intros i. pose proof (bloom_bit_range (keccak.hash256 b) i) as Hb. rewrite Z.shiftl_1_l. split; [apply Z.pow_nonneg; lia|].
    apply Z.pow_lt_mono_r; [lia|done|]. change BloomBitLength with 2048. lia. }
  repeat apply bloom_lor; try apply H. split; [lia|done].
Qed.

(** The strings of a log that go into the bloom. *)
Definition log_keys (l : Log) : list (list byte) := Address_Bytes (l_Address l) :: (Hash_Bytes <$> l_Topics l).
Definition keys_bloom (bin : Z) (ks : list (list byte)) : Z := foldl (λ bin k, Z.lor bin (bloom9 k)) bin ks.
Lemma keys_bloom_app bin k1 k2 : keys_bloom bin (k1 ++ k2) = keys_bloom (keys_bloom bin k1) k2.
Proof. apply foldl_app. Qed.
Lemma keys_bloom_range ks : ∀ bin, bloom_range bin → bloom_range (keys_bloom bin ks).
Proof. induction ks as [|k ks IH]; intros bin H; [done|]. apply IH, bloom_lor; [done|apply bloom9_range]. Qed.
Lemma keys_bloom_covers ks : ∀ bin, covers (keys_bloom bin ks) bin ∧ ∀ k, k ∈ ks → covers (keys_bloom bin ks) (bloom9 k).
Proof.
  induction ks as [|k ks IH]; intros bin; [by split; [|intros k ?%elem_of_nil]|]. destruct (IH (Z.lor bin (bloom9 k))) as [H1 H2].
  split; [etransitivity; [exact H1|apply covers_lor_l]|]. intros k' [->|Hk]%elem_of_cons; [etransitivity; [exact H1|apply covers_lor_r]|by apply H2].
Qed.
Lemma LogsBloom_keys logs : LogsBloom logs = keys_bloom 0 (logs ≫= log_keys).
Proof.
  unfold LogsBloom. generalize 0. induction logs as [|l logs IH]; intros bin; [done|]. cbn [foldl mbind list_bind]. rewrite IH.
  fold (mbind (M:=list) log_keys logs). rewrite keys_bloom_app. f_equal. unfold log_keys. cbn [keys_bloom foldl].
  generalize (Z.lor bin (bloom9 (Address_Bytes (l_Address l)))). induction (l_Topics l) as [|t ts IHt]; intros b; [done|]. cbn [foldl fmap list_fmap]. apply IHt.
Qed.
Definition receipts_bloom (receipts : list Receipt) : Z := foldl (λ bin r, Z.lor bin (LogsBloom (r_Logs r))) 0 receipts.
Lemma LogsBloom_range logs : bloom_range (LogsBloom logs).
Proof. rewrite LogsBloom_keys. apply keys_bloom_range. done. Qed.
Lemma receipts_bloom_range receipts : bloom_range (receipts_bloom receipts).
Proof.
  unfold receipts_bloom. assert (bloom_range 0) as H by done. revert H. generalize 0.
  induction receipts as [|r rs IH]; intros bin H; [done|]. apply IH, bloom_lor; [done|apply LogsBloom_range].
Qed.
Lemma receipts_bloom_covers r receipts : r ∈ receipts → covers (receipts_bloom receipts) (LogsBloom (r_Logs r)).
Proof.
  unfold receipts_bloom. assert (∀ bin, covers (foldl (λ bin r, Z.lor bin (LogsBloom (r_Logs r))) bin receipts) bin ∧
    (r ∈ receipts → covers (foldl (λ bin r, Z.lor bin (LogsBloom (r_Logs r))) bin receipts) (LogsBloom (r_Logs r)))) as H; [|by apply H].
  induction receipts as [|r' rs IH]; intros bin; [by split; [|intros ?%elem_of_nil]|]. destruct (IH (Z.lor bin (LogsBloom (r_Logs r')))) as [H1 H2].
  split; [etransitivity; [exact H1|apply covers_lor_l]|]. intros [->|Hk]%elem_of_cons; [etransitivity; [exact H1|apply covers_lor_r]|by apply H2].
Qed.

Lemma Bloom_SetBytes_ok z b : bloom_range z → Zlen b = 256 → SetBytes b ≤ z → ∃ b', Bloom_SetBytes (big_Bytes z) b = Val b' ∧ SetBytes b' = z ∧ Zlen b' = 256.
Proof.
  intros Hz Hb Hle. unfold Bloom_SetBytes. assert (Zlen (big_Bytes z) ≤ 256) as Hl.
  { unfold big_Bytes, Zlen. rewrite length_be_bytes. assert (BitLen z ≤ 2048) by (apply BitLen_le; [lia|rewrite Z.abs_eq by apply Hz; apply Hz]).
    pose proof (BitLen_nonneg z). assert ((BitLen z + 7) / 8 < 257) by (apply Z.div_lt_upper_bound; lia).
    rewrite Z2Nat.id by (apply Z.div_pos; lia). lia. }
  rewrite (proj2 (Z.ltb_ge _ _)) by lia. eexists. split; [done|]. pose proof (Zlen_nonneg (big_Bytes z)) as Hn.
  assert (Zlen (take (Z.to_nat (BloomByteLength - Zlen (big_Bytes z))) b) = 256 - Zlen (big_Bytes z)) as Ht.
  { unfold Zlen in *. rewrite length_take. change BloomByteLength with 256. lia. }
  split; [|rewrite Zlen_app; lia]. rewrite SetBytes_app, be_bytes_big_Bytes by apply Hz.
  rewrite <- (take_drop (Z.to_nat (BloomByteLength - Zlen (big_Bytes z))) b), SetBytes_app in Hle.
  assert (Zlen (drop (Z.to_nat (BloomByteLength - Zlen (big_Bytes z))) b) = Zlen (big_Bytes z)) as Hd.
  { unfold Zlen in *. rewrite length_drop. change BloomByteLength with 256. lia. }
  rewrite Hd in Hle. pose proof (SetBytes_range (big_Bytes z)) as Hr. rewrite be_bytes_big_Bytes in Hr by apply Hz.
  pose proof (proj1 (SetBytes_range (take (Z.to_nat (BloomByteLength - Zlen (big_Bytes z))) b))) as Hx.
  pose proof (proj1 (SetBytes_range (drop (Z.to_nat (BloomByteLength - Zlen (big_Bytes z))) b))) as Hy.
  revert Hx Hy Hle Hr. generalize (SetBytes (take (Z.to_nat (BloomByteLength - Zlen (big_Bytes z))) b)) (SetBytes (drop (Z.to_nat (BloomByteLength - Zlen (big_Bytes z))) b))
    (256 ^ Zlen (big_Bytes z)). intros x y p Hx Hy Hle Hr. assert (x = 0) as -> by nia. lia.
Qed.
Lemma CreateBloom_ok receipts : ∃ b, CreateBloom receipts = Val b ∧ SetBytes b = receipts_bloom receipts ∧ Zlen b = 256.
Proof.
  pose proof (receipts_bloom_range receipts) as H. apply Bloom_SetBytes_ok; [done|done|]. unfold zero_Bloom. rewrite SetBytes_zeros. apply H.
Qed.
Lemma BloomLookup_covers b k : BloomLookup b k = true ↔ covers (SetBytes b) (bloom9 k).
Proof. unfold BloomLookup, covers, Bloom_Big. by rewrite big_Cmp_eq, Z.eqb_eq. Qed.
Lemma CreateBloom_lookup receipts r l k b : CreateBloom receipts = Val b → r ∈ receipts → l ∈ r_Logs r → k ∈ log_keys l → BloomLookup b k = true.
Proof.
  intros E Hr Hl Hk. destruct (CreateBloom_ok receipts) as (b' & E' & Eb & _). assert (b' = b) as -> by congruence.
  apply BloomLookup_covers. rewrite Eb. etransitivity; [by apply receipts_bloom_covers|]. rewrite LogsBloom_keys.
  apply keys_bloom_covers. apply list_elem_of_bind. by exists l.
Qed.

(** ** Encodings *)

Definition c_enc {A} (c : codec A) (a : A) : list byte := default [] (enc (c_typ c) (c_to c a)).
Lemma c_reads {A} (c : codec A) `{!CodecLaws c} a : c_ok c a → Zlen (c_enc c a) < 2 ^ 64 → reads (c_decode c) (c_enc c a) a ∧ 1 ≤ Zlen (c_enc c a).
Proof. exact (@rec_reads A (codec_rlp c) (c_ok c) (codec_laws c) a). Qed.
Lemma c_shaped {A} (c : codec A) `{!CodecLaws c} a : c_ok c a → shaped (c_typ c) (c_to c a) ∧ enc (c_typ c) (c_to c a) = Some (c_enc c a).
Proof.
  intros Ha. destruct (plain_reads _ _ c_wf (c_plain a Ha)) as (bs & He & Hs & _). split; [done|]. unfold c_enc. by rewrite He.
Qed.
Lemma c_Encode {A} (c : codec A) `{!CodecLaws c} a : c_ok c a → Zlen (c_enc c a) < 2 ^ 63 → Encode (c_typ c) (c_to c a) = Val (c_enc c a).
Proof. intros Ha Hl. destruct (c_shaped c a Ha). by apply Encode_ok. Qed.

(** ** Receipts *)

(** A receipt has a post state or a status. *)
Definition status_ok (r : Receipt) : Prop :=
  r_PostState r = [] ∧ (r_Status r = 0 ∨ r_Status r = 1) ∨ Zlen (r_PostState r) = 32 ∧ r_Status r = 0.
Lemma setStatus_encoding r : status_ok r → setStatus (statusEncoding r) = Some (r_PostState r, r_Status r).
Proof.
  intros [[E Hs]|[Hl Hs]]; unfold statusEncoding.
  - rewrite E. by destruct Hs as [-> | ->].
  - rewrite Hl. change (32 =? 0) with false. cbn iota. unfold setStatus.
    rewrite !bool_decide_eq_false_2 by (intros E; rewrite E in Hl; done). by rewrite Hl, Hs.
Qed.
Definition consensus_log (l : Log) : Log := Log_of (Log_to l).
Definition consensus (r : Receipt) : Receipt :=
  mkReceipt (r_PostState r) (r_Status r) (r_CumulativeGasUsed r) (r_Bloom r) (consensus_log <$> r_Logs r) 0 0 0.
Definition receipt_ok (r : Receipt) : Prop := status_ok r ∧ c_ok receiptRLP (Receipt_to r).

Lemma Receipt_of_to r : status_ok r → Receipt_of (Receipt_to r) = inr (consensus r).
Proof. intros Hs. unfold Receipt_of, Receipt_to. rewrite setStatus_encoding by done. by rewrite <- list_fmap_compose. Qed.
Lemma Receipt_reads r : receipt_ok r → Zlen (c_enc receiptRLP (Receipt_to r)) < 2 ^ 64 →
  reads Receipt_DecodeRLP (c_enc receiptRLP (Receipt_to r)) (inr (consensus r)).
Proof.
  intros [Hs Hok] Hl. destruct (c_reads receiptRLP _ Hok Hl) as [Hr _]. rewrite <- Receipt_of_to by done. by apply reads_ret.
Qed.
Definition stored_ok (r : Receipt) : Prop :=
  status_ok r ∧ c_ok receiptStorageRLP (ReceiptForStorage_to r) ∧ Forall (λ l, l_Removed l = false) (r_Logs r).
Lemma ReceiptForStorage_of_to r : stored_ok r → ReceiptForStorage_of (ReceiptForStorage_to r) = inr r.
Proof.
  intros (Hs & _ & Hrm). unfold ReceiptForStorage_of, ReceiptForStorage_to. rewrite setStatus_encoding by done. rewrite <- list_fmap_compose.
  assert (LogForStorage_of ∘ LogForStorage_to <$> r_Logs r = r_Logs r) as ->; [|by destruct r].
  rewrite <- (list_fmap_id (r_Logs r)) at 2. apply list_fmap_ext. intros i l El. rewrite Forall_lookup in Hrm. specialize (Hrm i l El).
  destruct l. cbn in *. by subst.
Qed.
Lemma ReceiptForStorage_reads r : stored_ok r → Zlen (c_enc receiptStorageRLP (ReceiptForStorage_to r)) < 2 ^ 64 →
  reads ReceiptForStorage_DecodeRLP (c_enc receiptStorageRLP (ReceiptForStorage_to r)) (inr r).
Proof.
  intros Hs Hl. destruct (c_reads receiptStorageRLP _ (proj1 (proj2 Hs)) Hl) as [Hr _]. pose proof (reads_ret _ _ _ ReceiptForStorage_of Hr) as H. by rewrite ReceiptForStorage_of_to in H.
Qed.

(** ** Blocks *)

Definition txs_enc (txs : list Transaction) : list byte := enc_list (mjoin ((λ tx, rec_enc (data tx)) <$> txs)).
Definition block_body (b : Block) : list byte := c_enc (c_ptr c_Header) (header b) ++ txs_enc (transactions b) ++ c_enc c_Headers (uncles b).
Definition block_enc (b : Block) : list byte := enc_list (block_body b).
Record block_ok (b : Block) : Prop := {
  bk_header : c_ok c_Header (header b);
  bk_txs : Forall (λ tx, tx_ok (data tx) ∧ JHash (data tx) = None) (transactions b);
  bk_uncles : Forall (c_ok c_Header) (uncles b) }.

Lemma tx_rec_shaped d : tx_ok d ∧ JHash d = None → shaped (rec_typ txdata) (to_value d) ∧ enc (rec_typ txdata) (to_value d) = Some (rec_enc d).
Proof.
  intros H. destruct (plain_reads _ _ rec_wf (rec_plain d H)) as (bs & He & Hs & _). split; [done|]. unfold rec_enc. by rewrite He.
Qed.
Lemma txs_shaped txs : Forall (λ tx, tx_ok (data tx) ∧ JHash (data tx) = None) txs →
  Forall (shaped (TPtr (rec_typ txdata))) (VPtr ∘ Some ∘ to_value ∘ data <$> txs) ∧
  mapM (enc (TPtr (rec_typ txdata))) (VPtr ∘ Some ∘ to_value ∘ data <$> txs) = Some ((λ tx, rec_enc (data tx)) <$> txs).
Proof.
  induction 1 as [|tx txs Htx _ [IH1 IH2]]; [done|]. destruct (tx_rec_shaped _ Htx) as [Hs He]. split; [by constructor|].
  cbn [fmap list_fmap mapM]. cbn [fmap list_fmap] in IH2. rewrite IH2.
  change (enc (TPtr (rec_typ txdata)) ((VPtr ∘ Some ∘ to_value ∘ data) tx)) with (enc (rec_typ txdata) (to_value (data tx))). by rewrite He.
Qed.
Lemma block_shaped b : block_ok b → shaped extblock_typ (extblock_value b) ∧ enc extblock_typ (extblock_value b) = Some (block_enc b).
Proof.
  intros [Hh Ht Hu]. destruct (c_shaped (c_ptr c_Header) (header b) Hh) as [Hs1 He1]. destruct (c_shaped c_Headers (uncles b) Hu) as [Hs3 He3].
  destruct (txs_shaped _ Ht) as [Hs2 He2]. split.
  - change (shaped_fields [TPtr (c_typ c_Header); TSlice (TPtr (rec_typ txdata)); c_typ c_Headers]
      [VPtr (Some (c_to c_Header (header b))); VList (VPtr ∘ Some ∘ to_value ∘ data <$> transactions b); c_to c_Headers (uncles b)]).
    split; [exact Hs1|]. split; [|split; [exact Hs3|exact I]]. change (shaped (TSlice ?t) (VList ?l)) with ((fix all (vs : list value) : Prop := match vs with [] => True | v :: vs => shaped t v ∧ all vs end) l).
    by rewrite shaped_elems.
  - unfold extblock_typ, extblock_value. rewrite enc_struct. cbn [enc_fields].
    change (enc (TPtr (c_typ c_Header)) (VPtr (Some (c_to c_Header (header b))))) with (enc (c_typ (c_ptr c_Header)) (c_to (c_ptr c_Header) (header b))).
    rewrite He1, He3. change (enc (TSlice (TPtr (rec_typ txdata))) (VList ?l)) with (enc_list <$> (mjoin <$> mapM (enc (TPtr (rec_typ txdata))) l)).
    rewrite He2. cbn [fmap option_fmap option_map mbind option_bind]. rewrite app_nil_r. reflexivity.
Qed.

Lemma DecodeRLP_ends : ends DecodeRLP.
Proof.
  intros s Hs Hend. pose proof (Kind_end s Hs Hend) as EK. pose proof (Kind_again_err s _ _ (proj2 Hs) EK) as EK'.
  exists (set_kinderr None s). split; [|apply after_kinderr, Hs].
  destruct tx_is_struct as [ts Et].
  unfold DecodeRLP, sized, rec_decode, mbind, M_bind. unfold attempt at 1. rewrite EK, Et, decoder_struct.
  unfold wrapped, attempt, List_, mbind, M_bind. by rewrite EK'.
Qed.
(** A transaction as it comes out of the decoder. *)
Definition decoded (tx : Transaction) : Transaction := store_size (Zlen (rec_enc (data tx))) (fresh (data tx)).

Lemma mjoin_elem_length {A} (x : A) (f : A → list byte) l : x ∈ l → Zlen (f x) ≤ Zlen (mjoin (f <$> l)).
Proof.
  intros H. apply list_elem_of_split in H as (l1 & l2 & ->). rewrite fmap_app, fmap_cons, join_app. change (mjoin (f x :: (f <$> l2))) with (f x ++ mjoin (f <$> l2)). rewrite !Zlen_app.
  pose proof (Zlen_nonneg (mjoin (f <$> l1))). pose proof (Zlen_nonneg (mjoin (f <$> l2))). lia.
Qed.
Lemma txs_reads txs : Forall (λ tx, tx_ok (data tx) ∧ JHash (data tx) = None) txs → Zlen (txs_enc txs) < 2 ^ 63 →
  reads (decodeListSlice DecodeRLP) (txs_enc txs) (decoded <$> txs).
Proof.
  intros Ht Hl. apply slice_reads; [apply DecodeRLP_ends|]. pose proof (enc_list_length (mjoin ((λ tx, rec_enc (data tx)) <$> txs))) as Hle.
  fold (txs_enc txs) in Hle. assert (∀ tx, tx ∈ txs → Zlen (rec_enc (data tx)) < 2 ^ 63) as Hb.
  { intros tx Hin. pose proof (mjoin_elem_length tx (λ tx, rec_enc (data tx)) txs Hin) as Hx. cbv beta in Hx. lia. }
  clear Hl Hle. induction Ht as [|tx txs [Hok Hj] _ IH]; constructor; [|apply IH; intros; apply Hb; by right].
  pose proof (Hb tx ltac:(by left)) as H1. split; [by apply DecodeRLP_reads|].
  destruct (rec_reads (data tx) (conj Hok Hj)) as [_ ?]; [lia|done].
Qed.
Lemma extblock_reads b : block_ok b → Zlen (block_enc b) < 2 ^ 63 →
  reads extblock_DecodeRLP (block_enc b) (header b, decoded <$> transactions b, uncles b).
Proof.
  intros [Hh Ht Hu] Hl. pose proof (enc_list_length (block_body b)) as Hle. fold (block_enc b) in Hle. unfold block_body in Hle. rewrite !Zlen_app in Hle.
  pose proof (Zlen_nonneg (c_enc (c_ptr c_Header) (header b))). pose proof (Zlen_nonneg (txs_enc (transactions b))).
  pose proof (Zlen_nonneg (c_enc c_Headers (uncles b))).
  destruct (c_reads (c_ptr c_Header) (header b) Hh ltac:(lia)) as [R1 _]. destruct (c_reads c_Headers (uncles b) Hu ltac:(lia)) as [R3 _].
  apply (enclosed_reads _ _ _ (λ r, r)). unfold block_body.
  eapply field_inside; [exact R1|]. eapply field_inside; [apply txs_reads; [done|lia]|].
  rewrite <- (app_nil_r (c_enc c_Headers (uncles b))). eapply field_inside; [exact R3|]. apply ret_inside.
Qed.
Lemma Block_reads b : block_ok b → Zlen (block_enc b) < 2 ^ 63 →
  reads Block_DecodeRLP (block_enc b) (mkBlock (header b) (uncles b) (decoded <$> transactions b) None (Some (Zlen (block_enc b)))).
Proof.
  intros Hb Hl. pose proof (extblock_reads b Hb Hl) as Hr. pose proof (enc_list_length (block_body b)) as Hle. fold (block_enc b) in Hle.
  apply (sized_reads extblock_DecodeRLP (block_body b)) in Hr; [|by apply looks_bind, looks_List|lia].
  intros s rest H1 H2 H3. destruct (Hr s rest H1 H2 H3) as (s' & E & Haf). exists s'. split; [|done].
  unfold Block_DecodeRLP, mbind, M_bind. rewrite E. cbn [fst snd]. rewrite ListSize_enc; [done|]. change (Zlen (block_enc b) < 2 ^ 64). lia.
Qed.

(** ** DeriveSha *)

#[global] Instance nil_database_laws : DatabaseLaws Empty_set.
Proof. split. by intros k v []. Qed.
Abbreviation sha3 := keccak.hash256.
Lemma sha3_length b : Zlen (sha3 b) = 32.
Proof. rewrite hash256_ok. apply keccak256_length. Qed.
Abbreviation sha_represents := (represents (DB:=Empty_set) sha3).

Lemma derive_key_ok i : Z.of_nat i < 2 ^ 62 → derive_key i = enc_str (big_Bytes (Z.of_nat i)) ∧ small_key (derive_key i).
Proof.
  intros Hi. assert (is_u64 (Z.of_nat i)) as Hu by (split; lia). pose proof (big_Bytes_length (Z.of_nat i) Hu) as Hl.
  destruct (enc_length_le (big_Bytes (Z.of_nat i)) ltac:(lia)) as [He _].
  assert (derive_key i = enc_str (big_Bytes (Z.of_nat i))) as E.
  { unfold derive_key. assert (Encode (TUint 64) (VUint (Z.of_nat i)) = Val (enc_str (big_Bytes (Z.of_nat i)))) as ->; [|done].
    apply (Encode_ok (TUint 64) (VUint (Z.of_nat i))); [by split|done|lia]. }
  split; [done|]. rewrite E. unfold small_key. lia.
Qed.
Lemma derive_key_inj i j : Z.of_nat i < 2 ^ 62 → Z.of_nat j < 2 ^ 62 → derive_key i = derive_key j → i = j.
Proof.
  intros Hi Hj. rewrite (proj1 (derive_key_ok i Hi)), (proj1 (derive_key_ok j Hj)). intros E.
  pose proof (big_Bytes_length (Z.of_nat i) ltac:(split; lia)). destruct (enc_length_le (big_Bytes (Z.of_nat i)) ltac:(lia)) as [He _].
  rewrite <- (app_nil_r (enc_str _)), <- (app_nil_r (enc_str (big_Bytes (Z.of_nat j)))) in E.
  apply enc_str_app_inj in E as [E _]; [|rewrite app_nil_r; lia]. apply big_Bytes_inj in E; lia.
Qed.

(** The map that the trie holds. *)
Fixpoint derive_map (i : nat) (items : list (list byte)) (m : kvmap) : kvmap :=
  match items with [] => m | item :: items => derive_map (S i) items (<[derive_key i := item]> m) end.
Lemma derive_map_lookup items : ∀ i m j, Z.of_nat (i + length items) < 2 ^ 62 → Z.of_nat j < 2 ^ 62 →
  derive_map i items m !! derive_key j = if (i <=? j)%nat then match items !! (j - i)%nat with Some x => Some x | None => m !! derive_key j end else m !! derive_key j.
Proof.
  induction items as [|x items IH]; intros i m j Hi Hj; cbn [derive_map length] in *.
  { case_match; [|done]. by rewrite lookup_nil. }
  rewrite IH by lia. destruct (Nat.leb_spec (S i) j), (Nat.leb_spec i j); try lia.
  - replace (j - i)%nat with (S (j - S i)) by lia. cbn. destruct (items !! (j - S i)%nat); [done|]. rewrite lookup_insert_ne; [done|].
    intros E%derive_key_inj; lia.
  - assert (j = i) as -> by lia. rewrite Nat.sub_diag. cbn. by rewrite lookup_insert_eq.
  - rewrite lookup_insert_ne; [done|]. intros E%derive_key_inj; lia.
Qed.
Lemma derive_map_inj l1 l2 : Z.of_nat (length l1) < 2 ^ 61 → Z.of_nat (length l2) < 2 ^ 61 → derive_map 0 l1 ∅ = derive_map 0 l2 ∅ → l1 = l2.
Proof.
  intros H1 H2 E. apply list_eq. intros j. destruct (Z.lt_ge_cases (Z.of_nat j) (2 ^ 62)) as [Hj|Hj].
  - apply (f_equal (λ m, m !! derive_key j)) in E. rewrite !derive_map_lookup in E by lia. cbn [Nat.leb] in E. rewrite Nat.sub_0_r, !lookup_empty in E.
    by destruct (l1 !! j), (l2 !! j).
  - rewrite !lookup_ge_None_2 by lia. done.
Qed.

(** A value of the trie: not empty, and no longer than a slice can be. *)
Abbreviation item_ok := val_ok.
Lemma TryUpdate_db {DB} `{trie.Database DB} k v (t : trie.Trie (DB:=DB)) : trie.tdb (trie.TryUpdate k v t).1 = trie.tdb t.
Proof. unfold trie.TryUpdate, trie.replace_root. repeat (case_match; try done). Qed.
Lemma DeriveSha_loop_ok items : Forall item_ok items → ∀ i t m, Z.of_nat (i + length items) < 2 ^ 62 → sha_represents t m → trie.tdb t = None →
  ∃ t', DeriveSha_loop i items t = Val t' ∧ sha_represents t' (derive_map i items m) ∧ trie.tdb t' = None.
Proof.
  induction 1 as [|x items Hx _ IH]; intros i t m Hi Hr Hd; cbn [DeriveSha_loop derive_map length] in *; [by exists t|].
  destruct (TryUpdate_represents sha3 sha3_length t m (derive_key i) x Hr (proj2 (derive_key_ok i ltac:(lia))) Hx) as (t1 & E & Hr1).
  unfold trie.Update. pose proof (TryUpdate_db (derive_key i) x t) as Hdb. rewrite E in Hdb |- *. cbn [trie.log_error fst] in *.
  apply IH; [lia|done|congruence].
Qed.
Lemma new_Trie_represents : sha_represents new_Trie ∅.
Proof. exists PNil. split_and!; [done|by left|apply content_empty|]. intros key v H. by rewrite lookup_empty in H. Qed.

(** The nodes of the trie of a list. *)
Definition derive_nodes (items : list (list byte)) : list (list byte) :=
  [Zbyte 0x80] :: match DeriveSha_loop 0 items new_Trie with Val t => encodings sha3 (erase (trie.root t)) | _ => [] end.
Definition derivable (items : list (list byte)) : Prop := Forall item_ok items ∧ Z.of_nat (length items) < 2 ^ 61.
Lemma DeriveSha_ok items : derivable items → ∃ t, wf_trie t ∧ content t (derive_map 0 items ∅) ∧
  DeriveSha items = Val (SetBytes (phash sha3 t)) ∧ ∀ known, Forall known (derive_nodes items) → all_known sha3 known t.
Proof.
  intros [Hi Hl]. destruct (DeriveSha_loop_ok items Hi 0 new_Trie ∅ ltac:(cbn; lia) new_Trie_represents eq_refl) as (t' & E & (t & Hu & Hwf & Hc & _) & Hd).
  exists t. split_and!; [done|done| |].
  - unfold DeriveSha. rewrite E. cbn [mbind outcome_bind]. destruct (Hash_unfolds sha3 sha3_length t' t Hu Hwf) as (t2 & -> & _). done.
  - intros known Hk. unfold derive_nodes in Hk. rewrite E in Hk. apply Forall_cons_iff in Hk as [_ Hk]. rewrite Hd in Hu.
    rewrite (erase_ok sha3 None (trie.root t') true t (unfolds_None_loaded sha3 _ _ _ Hu) Hu). by apply encodings_known.
Qed.
Lemma phash_length t : wf_trie t → length (phash sha3 t) = 32%nat.
Proof.
  intros [->|Hw]; [reflexivity|]. rewrite phash_node by done. pose proof (sha3_length (penc sha3 t)) as H. unfold Zlen in H. lia.
Qed.
Lemma DeriveSha_inj l1 l2 h : derivable l1 → derivable l2 → no_collisions keccak256 (λ x, x ∈ derive_nodes l1 ++ derive_nodes l2) →
  DeriveSha l1 = Val h → DeriveSha l2 = Val h → l1 = l2.
Proof.
  intros H1 H2 Hnc. destruct (DeriveSha_ok l1 H1) as (t1 & W1 & C1 & -> & K1), (DeriveSha_ok l2 H2) as (t2 & W2 & C2 & -> & K2).
  intros [= <-] [= E]. set (known := λ x, x ∈ derive_nodes l1 ++ derive_nodes l2).
  assert (phash sha3 t1 = phash sha3 t2) as Eh.
  { rewrite <- (be_bytes_SetBytes (phash sha3 t1)), <- (be_bytes_SetBytes (phash sha3 t2)), E. by rewrite !phash_length. }
  assert (t1 = t2) as <-.
  { apply (phash_inj_nc sha3 sha3_length known); [|by left| |done|done| | |done].
    - intros x y Hx Hy Exy. rewrite !hash256_ok in Exy. by apply Hnc.
    - rewrite hash256_ok. apply keccak256_emptyRoot.
    - apply K1. apply Forall_forall. intros x Hx. apply elem_of_app. by left.
    - apply K2. apply Forall_forall. intros x Hx. apply elem_of_app. by right. }
  apply derive_map_inj; [apply H1|apply H2|]. by eapply content_unique.
Qed.
