(* ===== verification/BlockProps.v ===== *)
(** * Properties of receipts and blocks *)

From stdpp Require Import base tactics list numbers gmap.
From S2P Require Import Prelude GoMath RlpEncode RlpDecode RlpEncodeFacts RlpStream RlpSound RlpComplete RlpRaw RlpRecord RlpCodec Keccak KeccakFacts KeccakProps.
From S2P Require Import Trie TrieKeys TriePure TrieNode TrieOps TrieHash TrieMap TrieConcrete TxTypes TxFacts BlockTypes BlockFacts.

#[local] Open Scope Z_scope.
Import rlp rlpd types blocks.
#[local] Opaque keccak.hash256 keccak256.

(** ** Encodings *)

(** Receipts survive both encodings.  The consensus encoding keeps status
    or state root, gas, bloom and the address, topics and data of each log;
    the storage encoding keeps the whole receipt. *)
Theorem Receipt_roundtrip r : receipt_ok r → stored_ok r →
  Zlen (c_enc receiptRLP (Receipt_to r)) < 2 ^ 63 → Zlen (c_enc receiptStorageRLP (ReceiptForStorage_to r)) < 2 ^ 63 →
  (∃ b, Receipt_EncodeRLP r = Val b ∧ decode_all Receipt_DecodeRLP b = Val (inr (consensus r))) ∧
  (∃ b, ReceiptForStorage_EncodeRLP r = Val b ∧ decode_all ReceiptForStorage_DecodeRLP b = Val (inr r)).
Proof.
  intros H1 H2 L1 L2. split.
  - exists (c_enc receiptRLP (Receipt_to r)). split; [apply (c_Encode receiptRLP); [apply H1|done]|]. apply decode_all_reads; [done|]. apply Receipt_reads; [done|lia].
  - exists (c_enc receiptStorageRLP (ReceiptForStorage_to r)). split; [apply (c_Encode receiptStorageRLP); [apply H2|done]|].
    apply decode_all_reads; [done|]. apply ReceiptForStorage_reads; [done|lia].
Qed.

(** C26: Blocks survive the wire: a block decodes to the same header, uncles
    and transaction data, and its size is that of the encoding. *)
Theorem Block_roundtrip b : block_ok b → Zlen (block_enc b) < 2 ^ 63 →
  ∃ enc, Block_EncodeRLP b = Val enc ∧
    decode_all Block_DecodeRLP enc = Val (mkBlock (header b) (uncles b) (decoded <$> transactions b) None (Some (Zlen enc))).
Proof.
  intros Hb Hl. exists (block_enc b). destruct (block_shaped b Hb). split; [by apply Encode_ok|]. apply decode_all_reads; [done|]. by apply Block_reads.
Qed.

(** ** What a block hash commits to *)

(** The roots in the header are those of the body. *)
Definition body_committed (b : Block) : Prop :=
  DeriveSha_txs (transactions b) = Val (TxHash (header b)) ∧ UncleHash (header b) = CalcUncleHash (uncles b).

Definition txs_small (txs : list Transaction) : Prop :=
  Forall (λ tx, (tx_ok (data tx) ∧ JHash (data tx) = None) ∧ Zlen (rec_enc (data tx)) < 2 ^ 56) txs ∧ Z.of_nat (length txs) < 2 ^ 61.
Lemma GetRlp_enc txs : txs_small txs → Transactions_GetRlp <$> txs = (λ tx, rec_enc (data tx)) <$> txs ∧ derivable ((λ tx, rec_enc (data tx)) <$> txs).
Proof.
  intros [Ht Hl]. split_and!.
  - apply list_fmap_ext. intros i tx Ei. rewrite Forall_lookup in Ht. destruct (Ht i tx Ei) as [Hok Hs].
    unfold Transactions_GetRlp. destruct (rec_roundtrip (data tx) Hok) as (_ & E & _); [lia|]. unfold EncodeRLP. by rewrite E.
  - split; [|by rewrite length_fmap]. apply Forall_fmap. apply (List.Forall_impl _) with (2 := Ht). intros tx [Hok Hs].
    destruct (rec_reads (data tx) Hok) as [_ Hp]; [lia|]. unfold val_ok, compose. cbv beta. lia.
Qed.

Lemma c_hash_enc {A} (c : codec A) `{!CodecLaws c} a : c_ok c a → Zlen (c_enc c a) < 2 ^ 63 → rlpHash (c_typ c) (c_to c a) = BytesToHash (keccak256 (c_enc c a)).
Proof. intros Ha Hl. unfold rlpHash. by rewrite c_Encode, hash256_ok. Qed.
Lemma c_enc_inj {A} (c : codec A) `{!CodecLaws c} a1 a2 : c_ok c a1 → c_ok c a2 → Zlen (c_enc c a1) < 2 ^ 63 → c_enc c a1 = c_enc c a2 → a1 = a2.
Proof. intros. by apply (@rec_enc_inj A (codec_rlp c) (c_ok c) (codec_laws c)). Qed.

Lemma nc_incl (h : list byte → list byte) (P Q : list byte → Prop) : no_collisions h Q → (∀ x, P x → Q x) → no_collisions h P.
Proof. intros H HPQ x y Hx Hy. apply H; by apply HPQ. Qed.
Lemma DeriveSha_total items : derivable items → ∃ h, DeriveSha items = Val h.
Proof. intros H. destruct (DeriveSha_ok items H) as (t & _ & _ & E & _). by eexists. Qed.
Definition receipts_small (receipts : list Receipt) : Prop :=
  Forall (λ r, receipt_ok r ∧ Zlen (c_enc receiptRLP (Receipt_to r)) < 2 ^ 56) receipts ∧ Z.of_nat (length receipts) < 2 ^ 61.
Lemma receipts_items rs : receipts_small rs → mapM Receipts_GetRlp rs = Val ((λ r, c_enc receiptRLP (Receipt_to r)) <$> rs) ∧
  derivable ((λ r, c_enc receiptRLP (Receipt_to r)) <$> rs).
Proof.
  intros [Hr Hl]. split.
  - clear Hl. induction Hr as [|r rs [Hr Hs] _ IH]; [done|]. cbn [mapM fmap list_fmap]. rewrite IH. unfold Receipts_GetRlp at 1, Receipt_EncodeRLP.
    rewrite (c_Encode receiptRLP); [done|apply Hr|lia].
  - split; [|by rewrite length_fmap]. apply Forall_fmap. apply (List.Forall_impl _) with (2 := Hr). intros r [Hok Hs].
    destruct (c_reads receiptRLP (Receipt_to r) (proj2 Hok)) as [_ Hp]; [lia|]. unfold val_ok, compose. cbv beta. lia.
Qed.

(** Everything that is hashed for a block. *)
Definition messages (b : Block) : list (list byte) :=
  [c_enc c_Header (header b); c_enc c_Headers (uncles b)] ++ derive_nodes ((λ tx, rec_enc (data tx)) <$> transactions b).
Record block_small (b : Block) : Prop := {
  bs_ok : block_ok b;
  bs_txs : txs_small (transactions b);
  bs_header : Zlen (c_enc c_Header (header b)) < 2 ^ 63;
  bs_uncles : Zlen (c_enc c_Headers (uncles b)) < 2 ^ 63 }.

(** C27: A block hash commits to the whole block: of two blocks whose headers
    carry the roots of their bodies and have one hash, header, uncles and
    transaction data are equal, unless two of the strings that were hashed
    collide. *)
Theorem Block_hash_commits b1 b2 : block_small b1 → block_small b2 → body_committed b1 → body_committed b2 →
  no_collisions keccak256 (λ m, m ∈ messages b1 ++ messages b2) →
  Header_Hash (header b1) = Header_Hash (header b2) →
  header b1 = header b2 ∧ uncles b1 = uncles b2 ∧ data <$> transactions b1 = data <$> transactions b2.
Proof.
  intros [O1 T1 H1 U1] [O2 T2 H2 U2] [B1 C1] [B2 C2] Hnc E.
  assert (∀ m1 m2, m1 ∈ messages b1 → m2 ∈ messages b2 → BytesToHash (keccak256 m1) = BytesToHash (keccak256 m2) → m1 = m2) as Hm.
  { intros m1 m2 I1 I2 Em. destruct (BytesToHash_collision m1 m2 Em) as [|[_ Ek]]; [done|]. apply Hnc; [apply elem_of_app; by left|apply elem_of_app; by right|done]. }
  assert (header b1 = header b2) as Eh.
  { apply (c_enc_inj c_Header); [apply O1|apply O2|done|]. apply Hm; [apply elem_of_app; by do 2 left|apply elem_of_app; by do 2 left|].
    rewrite <- !(c_hash_enc c_Header); [exact E|apply O2|done|apply O1|done]. }
  split; [done|]. rewrite Eh in B1, C1. rewrite C1 in C2. split.
  - apply (c_enc_inj c_Headers); [apply O1|apply O2|done|]. apply Hm; [apply elem_of_app; left; right; by left|apply elem_of_app; left; right; by left|].
    rewrite <- !(c_hash_enc c_Headers); [exact C2|apply O2|done|apply O1|done].
  - unfold DeriveSha_txs in B1, B2. destruct (GetRlp_enc _ T1) as [G1 D1], (GetRlp_enc _ T2) as [G2 D2]. rewrite G1 in B1. rewrite G2 in B2.
    assert ((λ tx, rec_enc (data tx)) <$> transactions b1 = (λ tx, rec_enc (data tx)) <$> transactions b2) as Et.
    { eapply (DeriveSha_inj _ _ _ D1 D2); [|exact B1|exact B2]. apply (nc_incl _ _ _ Hnc). intros x [Hx|Hx]%elem_of_app; apply elem_of_app; [left|right]; apply elem_of_app; by right. }
    revert Et. destruct T1 as [T1 _], T2 as [T2 _]. revert T2. generalize (transactions b2). clear -T1.
    induction T1 as [|tx txs [Ht Hs] _ IH]; intros [|tx2 txs2] T2 Et; try done. apply Forall_cons_iff in T2 as [[Ht2 _] T2].
    cbn in Et |- *. injection Et as E1 E2. f_equal; [|by apply IH]. apply rec_enc_inj; [done|done|lia|done].
Qed.

Lemma DeriveSha_txs_total txs : txs_small txs → ∃ h, DeriveSha_txs txs = Val h.
Proof. intros Ht. destruct (GetRlp_enc _ Ht) as [Eg Hd]. destruct (DeriveSha_total _ Hd) as [h E]. exists h. unfold DeriveSha_txs. by rewrite Eg. Qed.
Lemma DeriveSha_receipts_total rs : receipts_small rs → ∃ h, DeriveSha_receipts rs = Val h.
Proof. intros Hr. destruct (receipts_items _ Hr) as [Em Hd]. destruct (DeriveSha_total _ Hd) as [h E]. exists h. unfold DeriveSha_receipts. by rewrite Em. Qed.
#[local] Opaque DeriveSha_txs DeriveSha_receipts CalcUncleHash.

(** [NewBlock] always gives a block, with the body it was given and a
    header that has the roots of transactions and uncles, and the root and the
    bloom of the receipts; nothing else of the header changes. *)
Theorem NewBlock_commits h txs us receipts : txs_small txs → receipts_small receipts →
  ∃ b, NewBlock h txs us receipts = Val b ∧ transactions b = txs ∧ uncles b = us ∧ body_committed b ∧
    DeriveSha_receipts receipts = Val (ReceiptHash (header b)) ∧
    (receipts ≠ [] → CreateBloom receipts = Val (h_Bloom (header b))) ∧
    set_UncleHash (UncleHash h) (set_receipts (ReceiptHash h) (h_Bloom h) (set_TxHash (TxHash h) (header b))) = h.
Proof.
  intros Ht Hr. destruct (DeriveSha_txs_total _ Ht) as [th Eth], (DeriveSha_receipts_total _ Hr) as [rh Er]. destruct (CreateBloom_ok receipts) as (bl & Eb & _).
  unfold NewBlock. replace (if Zlen txs =? 0 then EmptyRootHash else DeriveSha_txs txs) with (DeriveSha_txs txs) by (destruct txs; reflexivity).
  replace (if Zlen us =? 0 then EmptyUncleHash else CalcUncleHash us) with (CalcUncleHash us) by (destruct us; reflexivity).
  rewrite Eth. cbn [mbind outcome_bind]. destruct receipts as [|r rs].
  - change EmptyRootHash with (DeriveSha_receipts []). rewrite Er. eexists. split; [reflexivity|]. split; [reflexivity|]. split; [reflexivity|]. split; [by split|]. split; [reflexivity|]. split; [intros Hn; destruct (Hn eq_refl)|destruct h; reflexivity].
  - change (Zlen (r :: rs) =? 0) with false. rewrite Er, Eb. eexists. split; [reflexivity|]. split; [reflexivity|]. split; [reflexivity|]. split; [by split|]. split; [reflexivity|]. split; [intros _; reflexivity|destruct h; reflexivity].
Qed.

(** ** Witnesses *)

Definition example_log : Log := mkLog 0x1234 [7; 8] [Zbyte 1; Zbyte 2] 5 9 0 11 0 false.
Definition example_receipt : Receipt := mkReceipt [] 1 21000 zero_Bloom [example_log] 9 0 21000.
Lemma Receipt_roundtrip_witness :
  (∃ b, Receipt_EncodeRLP example_receipt = Val b ∧ decode_all Receipt_DecodeRLP b = Val (inr (consensus example_receipt))) ∧
  (∃ b, ReceiptForStorage_EncodeRLP example_receipt = Val b ∧ decode_all ReceiptForStorage_DecodeRLP b = Val (inr example_receipt)).
Proof.
  apply Receipt_roundtrip.
  - split; [by left; split; [|right]|]. ranges.
  - split; [by left; split; [|right]|]. split; [ranges|]. by constructor.
  - vm_compute. reflexivity.
  - vm_compute. reflexivity.
Defined.

Lemma nc_list (h : list byte → list byte) l :
  (let hs := (λ x, (x, h x)) <$> l in forallb (λ p, forallb (λ q, bool_decide (p.1 = q.1) || negb (bool_decide (p.2 = q.2))) hs) hs) = true →
  no_collisions h (λ m, m ∈ l).
Proof.
  cbv zeta. intros H x y Hx Hy E. rewrite forallb_forall in H. specialize (H (x, h x)). rewrite forallb_forall in H.
  rewrite <- !list_elem_of_In in H. specialize (H ltac:(apply list_elem_of_fmap; by exists x) (y, h y)).
  rewrite <- list_elem_of_In in H. specialize (H ltac:(apply list_elem_of_fmap; by exists y)). cbn [fst snd] in H.
  apply orb_true_iff in H as [H|H]; [by apply bool_decide_eq_true in H|]. by rewrite bool_decide_eq_true_2 in H.
Qed.

Definition example_tx : Transaction := NewTransaction 3 0x1234 (Some 10) (Some 21000) (Some 1) [Zbyte 1; Zbyte 2].
Definition example_header : Header := mkHeader 5 0 0xabcd 1 6 0 0 zero_Bloom 2 7 4000000 21000 1500000000 [Zbyte 1] 0 3 [] [].
Definition example_block : Block := Eval vm_compute in
  match NewBlock example_header [example_tx] [example_header] [example_receipt] with Val b => b | _ => NewBlockWithHeader example_header end.
Lemma example_tx_ok : tx_ok (data example_tx) ∧ JHash (data example_tx) = None.
Proof. split; [|done]. split; try done. by intros a [= <-]. Qed.
Lemma example_txs_small : txs_small [example_tx].
Proof. split; [|done]. constructor; [|constructor]. split; [apply example_tx_ok|]. vm_compute. reflexivity. Qed.
Lemma example_block_small : block_small example_block.
Proof.
  assert (block_ok example_block) as Hok.
  { split; [ranges| |constructor; [ranges|constructor]]. constructor; [|constructor]. exact example_tx_ok. }
  split; [exact Hok|exact example_txs_small|vm_compute; reflexivity|vm_compute; reflexivity].
Qed.
Lemma Block_roundtrip_witness : ∃ enc, Block_EncodeRLP example_block = Val enc ∧
    decode_all Block_DecodeRLP enc = Val (mkBlock (header example_block) (uncles example_block) (decoded <$> transactions example_block) None (Some (Zlen enc))).
Proof. apply Block_roundtrip; [apply example_block_small|]. vm_compute. reflexivity. Defined.
Lemma Block_hash_commits_witness : header example_block = header example_block ∧ uncles example_block = uncles example_block ∧
  data <$> transactions example_block = data <$> transactions example_block.
Proof.
  assert (body_committed example_block) as Hc by (split; vm_compute; reflexivity).
  apply (Block_hash_commits example_block example_block example_block_small example_block_small Hc Hc); [|reflexivity].
  apply nc_list. vm_compute. reflexivity.
Defined.
Lemma NewBlock_commits_witness : ∃ b, NewBlock example_header [example_tx] [example_header] [example_receipt] = Val b ∧
    transactions b = [example_tx] ∧ uncles b = [example_header] ∧ body_committed b ∧
    DeriveSha_receipts [example_receipt] = Val (ReceiptHash (header b)) ∧
    ([example_receipt] ≠ [] → CreateBloom [example_receipt] = Val (h_Bloom (header b))) ∧
    set_UncleHash (UncleHash example_header) (set_receipts (ReceiptHash example_header) (h_Bloom example_header) (set_TxHash (TxHash example_header) (header b))) = example_header.
Proof.
  apply NewBlock_commits; [exact example_txs_small|]. split; [|done]. constructor; [|constructor].
  split; [split; [by left; split; [|right]|ranges]|vm_compute; reflexivity].
Defined.
