(* ===== verification/ChainDb.v ===== *)
(** * The chain database

    [src/blockchain/database_util.go] over the key-value store of
    [src/blockchain/storage/memory_database.go], with the prefixed tables of
    [src/blockchain/storage/database.go].  Readers are functions of the store,
    writers change it.  The entries kept as JSON (vote results and chain
    configurations) are not modelled. *)

From stdpp Require Import base tactics list numbers gmap.
From Stdlib Require Import String.
From S2P Require Import Prelude GoMath RlpEncode RlpDecode RlpEncodeFacts RlpStream RlpSound RlpComplete RlpRaw RlpRecord RlpCodec Keccak Trie TrieMap TxTypes BlockTypes.

#[local] Open Scope Z_scope.

Module chaindb.
Import rlp rlpd types blocks.

(** ** memory_database.go and database.go *)

Abbreviation Hash := GoMath.Hash (only parsing).
Abbreviation Store := kvmap.

Definition db_Put (key value : list byte) (db : Store) : Store := <[key := value]> db.
Definition db_Has (key : list byte) (db : Store) : bool := bool_decide (is_Some (db !! key)).
(** Go callers that ignore the error get nil. *)
Definition db_Get (key : list byte) (db : Store) : option (list byte) := db !! key.
Definition db_Delete (key : list byte) (db : Store) : Store := delete key db.

Record memBatch : Type := mkBatch { writes : list (list byte * list byte); batch_size : Z }.
Definition NewBatch : memBatch := mkBatch [] 0.
Definition batch_Put (key value : list byte) (b : memBatch) : memBatch := mkBatch (writes b ++ [(key, value)]) (batch_size b + Zlen value).
Definition batch_Write (b : memBatch) (db : Store) : Store := foldl (λ db kv, db_Put kv.1 kv.2 db) db (writes b).

Definition table_Put (prefix key value : list byte) : Store → Store := db_Put (prefix ++ key) value.
Definition table_Get (prefix key : list byte) : Store → option (list byte) := db_Get (prefix ++ key).
Definition table_Has (prefix key : list byte) : Store → bool := db_Has (prefix ++ key).
Definition table_Delete (prefix key : list byte) : Store → Store := db_Delete (prefix ++ key).
Definition tableBatch_Put (prefix key value : list byte) : memBatch → memBatch := batch_Put (prefix ++ key) value.

(** ** Keys *)

Definition headHeaderKey : list byte := list_byte_of_string "LastHeader".
Definition headBlockKey : list byte := list_byte_of_string "LastBlock".
Definition headFastKey : list byte := list_byte_of_string "LastFast".
Definition headerPrefix : list byte := list_byte_of_string "h".
Definition tdSuffix : list byte := list_byte_of_string "t".
Definition numSuffix : list byte := list_byte_of_string "n".
Definition blockHashPrefix : list byte := list_byte_of_string "H".
Definition bodyPrefix : list byte := list_byte_of_string "b".
Definition blockReceiptsPrefix : list byte := list_byte_of_string "r".
Definition lookupPrefix : list byte := list_byte_of_string "l".
Definition bloomBitsPrefix : list byte := list_byte_of_string "B".
Definition randomPrefix : list byte := list_byte_of_string "random".
Definition preimagePrefix : list byte := list_byte_of_string "secure-key-".
Definition oldReceiptsPrefix : list byte := list_byte_of_string "receipts-".
Definition oldTxMetaSuffix : list byte := [Byte.x01].
Definition BloomBitsIndexPrefix : list byte := list_byte_of_string "iB".
Definition versionKey : list byte := list_byte_of_string "BlockchainVersion".

Definition encodeBlockNumber (number : Z) : list byte := be_bytes 8 number.
Definition canonicalKey (number : Z) : list byte := headerPrefix ++ encodeBlockNumber number ++ numSuffix.
Definition headerKey (hash number : Z) : list byte := headerPrefix ++ encodeBlockNumber number ++ Hash_Bytes hash.
Definition tdKey (hash number : Z) : list byte := headerPrefix ++ encodeBlockNumber number ++ Hash_Bytes hash ++ tdSuffix.
Definition blockHashKey (hash : Z) : list byte := blockHashPrefix ++ Hash_Bytes hash.
Definition blockBodyKey (hash number : Z) : list byte := bodyPrefix ++ encodeBlockNumber number ++ Hash_Bytes hash.
Definition receiptsKey (hash number : Z) : list byte := blockReceiptsPrefix ++ encodeBlockNumber number ++ Hash_Bytes hash.
Definition lookupKey (hash : Z) : list byte := lookupPrefix ++ Hash_Bytes hash.
Definition bloomBitsKey (bit section head : Z) : list byte := bloomBitsPrefix ++ be_bytes 2 bit ++ be_bytes 8 section ++ Hash_Bytes head.
(** The keys of chain_indexer.go in its table. *)
Definition countKey : list byte := list_byte_of_string "count".
Definition sheadKey (section : Z) : list byte := list_byte_of_string "shead" ++ be_bytes 8 section.

(** ** Readers *)

Definition get (key : list byte) (db : Store) : list byte := default [] (db_Get key db).
Definition get_hash (key : list byte) (db : Store) : Hash :=
  let data := get key db in
  if Zlen data =? 0 then 0 else BytesToHash data.
Definition GetCanonicalHash (db : Store) (number : Z) : Hash := get_hash (canonicalKey number) db.
Definition GetRandom (db : Store) : list byte := get randomPrefix db.
Definition missingNumber : Z := 0xffffffffffffffff.
Definition GetBlockNumber (db : Store) (hash : Hash) : Z :=
  let data := get (blockHashKey hash) db in
  if negb (Zlen data =? 8) then missingNumber else SetBytes data.
Definition GetHeadHeaderHash (db : Store) : Hash := get_hash headHeaderKey db.
Definition GetHeadBlockHash (db : Store) : Hash := get_hash headBlockKey db.
Definition GetHeadFastBlockHash (db : Store) : Hash := get_hash headFastKey db.

(** [rlp.Decode(bytes.NewReader(data), v)] reads one value and leaves the
    rest; [nil] is returned on an error. *)
Definition decode_first {A} (m : D A) (data : list byte) : outcome rlp_error A := (m (NewStream data 0)).2.
Definition decode_or_nil {E A} (decode : list byte → outcome E A) (data : list byte) : option A :=
  if Zlen data =? 0 then None else match decode data with Val a => Some a | _ => None end.

Definition GetHeaderRLP (db : Store) (hash number : Z) : list byte := get (headerKey hash number) db.
Definition GetHeader (db : Store) (hash number : Z) : option Header :=
  decode_or_nil (decode_first (c_decode c_Header)) (GetHeaderRLP db hash number).

Record Body : Type := mkBody { b_Transactions : list Transaction; b_Uncles : list Header }.
Definition Body_typ : typ := TStruct [TSlice (TPtr (rec_typ txdata)); c_typ c_Headers].
Definition Body_value (b : Body) : value :=
  VList [VList (VPtr ∘ Some ∘ to_value ∘ data <$> b_Transactions b); c_to c_Headers (b_Uncles b)].
Definition Body_decode : D Body :=
  wrapped List_;;
  r ← (txs ← field (decodeListSlice DecodeRLP);
       us ← field (c_decode c_Headers);
       mret (mkBody txs us));
  wrapped ListEnd;; mret r.
Definition GetBodyRLP (db : Store) (hash number : Z) : list byte := get (blockBodyKey hash number) db.
Definition GetBody (db : Store) (hash number : Z) : option Body :=
  decode_or_nil (decode_first Body_decode) (GetBodyRLP db hash number).
Definition GetTd (db : Store) (hash number : Z) : option Z :=
  decode_or_nil (decode_first (c_decode c_big)) (get (tdKey hash number) db).
Definition GetBlock (db : Store) (hash number : Z) : option Block :=
  header ← GetHeader db hash number;
  body ← GetBody db hash number;
  Some (WithBody (b_Transactions body) (b_Uncles body) (NewBlockWithHeader header)).

(** A receipt that is refused after the list was read makes the whole
    decoding fail. *)
Definition storageReceipts_decode (data : list byte) : outcome receipt_error (list Receipt) :=
  match decode_all (decodeListSlice ReceiptForStorage_DecodeRLP) data with
  | Val l => mapM (λ r : receipt_error + Receipt, match r with inl e => Err e | inr r => Val r end) l
  | Err e => Err (receipt_rlp e)
  | Panic => Panic
  | NoFuel => NoFuel
  end.
Definition GetBlockReceipts (db : Store) (hash number : Z) : list Receipt :=
  default [] (decode_or_nil storageReceipts_decode (get (receiptsKey hash number) db)).

(** [txLookupEntry]: block hash, block number and index. *)
Definition txLookupEntry : codec (Hash * (Z * Z)) := c_struct (f_cons (c_array 32) (f_cons (c_uint 64) (f_last (c_uint 64)))).
Definition GetTxLookupEntry (db : Store) (hash : Hash) : Hash * Z * Z :=
  match decode_or_nil (decode_all (c_decode txLookupEntry)) (get (lookupKey hash) db) with
  | Some (bh, (bn, i)) => (bh, bn, i)
  | None => (0, 0, 0)
  end.
(** [int(txIndex)] can be negative; then the index is out of range. *)
Definition GetTransaction (db : Store) (hash : Hash) : outcome unit (option Transaction * Hash * Z * Z) :=
  let '(blockHash, blockNumber, txIndex) := GetTxLookupEntry db hash in
  if negb (blockHash =? 0) then
    match GetBody db blockHash blockNumber with
    | None => Val (None, 0, 0, 0)
    | Some body =>
        if Zlen (b_Transactions body) <=? i64 txIndex then Val (None, 0, 0, 0)
        else tx ← val_or_panic (b_Transactions body !! Z.to_nat txIndex); Val (Some tx, blockHash, blockNumber, txIndex)
    end
  else
    match decode_or_nil (decode_all DecodeRLP) (get (Hash_Bytes hash) db) with
    | None => Val (None, 0, 0, 0)
    | Some tx =>
        match decode_or_nil (decode_all (c_decode txLookupEntry)) (get (Hash_Bytes hash ++ oldTxMetaSuffix) db) with
        | Some (bh, (bn, i)) => Val (Some tx, bh, bn, i)
        | None => Val (None, 0, 0, 0)
        end
    end.
(** An old receipt that does not decode is returned as a new one, whose gas
    counters are nil; after trailing bytes it is returned as decoded. *)
Definition new_Receipt : Receipt := mkReceipt [] 0 0 zero_Bloom [] 0 0 0.
Definition GetReceipt (db : Store) (hash : Hash) : outcome unit (option Receipt * Hash * Z * Z) :=
  let '(blockHash, blockNumber, receiptIndex) := GetTxLookupEntry db hash in
  if negb (blockHash =? 0) then
    let receipts := GetBlockReceipts db blockHash blockNumber in
    if Zlen receipts <=? i64 receiptIndex then Val (None, 0, 0, 0)
    else r ← val_or_panic (receipts !! Z.to_nat receiptIndex); Val (Some r, blockHash, blockNumber, receiptIndex)
  else
    let data := get (oldReceiptsPrefix ++ Hash_Bytes hash) db in
    if Zlen data =? 0 then Val (None, 0, 0, 0)
    else match decode_first ReceiptForStorage_DecodeRLP data with
         | Val (inr r) => Val (Some r, 0, 0, 0)
         | _ => Val (Some new_Receipt, 0, 0, 0)
         end.
Definition GetBloomBits (db : Store) (bit section head : Z) : list byte := get (bloomBitsKey bit section head) db.

(** ** Writers

    A failing [Put] ends the process; the store in memory has none. *)

Abbreviation W := (M Store rlp_error).
Definition put (key value : list byte) : W unit := modify (db_Put key value).
Definition del (key : list byte) : W unit := modify (db_Delete key).
Definition encoded (o : outcome rlp_error (list byte)) : W (list byte) := λ db, (db, o).

Definition WriteCanonicalHash (hash number : Z) : W unit := put (canonicalKey number) (Hash_Bytes hash).
Definition WriteRandom (rand : list byte) : W unit := put randomPrefix rand.
Definition WriteHeadHeaderHash (hash : Hash) : W unit := put headHeaderKey (Hash_Bytes hash).
Definition WriteHeadBlockHash (hash : Hash) : W unit := put headBlockKey (Hash_Bytes hash).
Definition WriteHeadFastBlockHash (hash : Hash) : W unit := put headFastKey (Hash_Bytes hash).
Definition WriteHeader (header : Header) : W unit :=
  data ← encoded (EncodeToBytes (c_typ c_Header) (c_to c_Header header));
  let hash := Header_Hash header in
  let num := big_Uint64 (Number header) in
  put (blockHashKey hash) (encodeBlockNumber num);;
  put (headerKey hash num) data.
Definition WriteBodyRLP (hash number : Z) (rlp : list byte) : W unit := put (blockBodyKey hash number) rlp.
Definition WriteBody (hash number : Z) (body : Body) : W unit :=
  data ← encoded (EncodeToBytes Body_typ (Body_value body));
  WriteBodyRLP hash number data.
Definition WriteTd (hash number td : Z) : W unit :=
  data ← encoded (EncodeToBytes (c_typ c_big) (c_to c_big td));
  put (tdKey hash number) data.
Definition Block_Body (b : Block) : Body := mkBody (transactions b) (uncles b).
Definition NumberU64 (b : Block) : Z := big_Uint64 (Number (header b)).
(** The hash the block has cached is that of its header. *)
Definition WriteBlock (b : Block) : W unit :=
  WriteBody (Header_Hash (header b)) (NumberU64 b) (Block_Body b);;
  WriteHeader (header b).
Definition storageReceipts_typ : typ := TSlice (TPtr (c_typ receiptStorageRLP)).
Definition storageReceipts_value (rs : list Receipt) : value := VList (VPtr ∘ Some ∘ c_to receiptStorageRLP ∘ ReceiptForStorage_to <$> rs).
Definition WriteBlockReceipts (hash number : Z) (receipts : list Receipt) : W unit :=
  data ← encoded (EncodeToBytes storageReceipts_typ (storageReceipts_value receipts));
  put (receiptsKey hash number) data.
Fixpoint lookup_entries (hash number : Z) (i : nat) (txs : list Transaction) : W unit :=
  match txs with
  | [] => mret tt
  | tx :: txs =>
      data ← encoded (EncodeToBytes (c_typ txLookupEntry) (c_to txLookupEntry (hash, (number, Z.of_nat i))));
      put (lookupKey (tx_hash tx)) data;;
      lookup_entries hash number (S i) txs
  end.
Definition WriteTxLookupEntries (b : Block) : W unit := lookup_entries (Header_Hash (header b)) (NumberU64 b) 0 (transactions b).
Definition WriteBloomBits (bit section head : Z) (bits : list byte) : W unit := put (bloomBitsKey bit section head) bits.
(** The map of preimages in the order of the iteration. *)
Definition WritePreimages (preimages : list (Hash * list byte)) : W unit := λ db,
  let batch := foldl (λ b '(hash, preimage),
    match table_Get preimagePrefix (Hash_Bytes hash) db with
    | Some _ => b
    | None => tableBatch_Put preimagePrefix (Hash_Bytes hash) preimage b
    end) NewBatch preimages in
  (batch_Write batch db, Val tt).

Definition DeleteCanonicalHash (number : Z) : W unit := del (canonicalKey number).
Definition DeleteHeader (hash number : Z) : W unit := del (blockHashKey hash);; del (headerKey hash number).
Definition DeleteBody (hash number : Z) : W unit := del (blockBodyKey hash number).
Definition DeleteTd (hash number : Z) : W unit := del (tdKey hash number).
Definition DeleteBlockReceipts (hash number : Z) : W unit := del (receiptsKey hash number).
Definition DeleteBlock (hash number : Z) : W unit :=
  DeleteBlockReceipts hash number;;
  DeleteHeader hash number;;
  DeleteBody hash number;;
  DeleteTd hash number.
Definition DeleteTxLookupEntry (hash : Hash) : W unit := del (lookupKey hash).

Definition GetBlockChainVersion (db : Store) : Z :=
  i64 match DecodeBytes (get versionKey db) (TUint 64) with Val (VUint v) => v | _ => 0 end.
Definition WriteBlockChainVersion (vsn : Z) : W unit :=
  match EncodeToBytes (TUint 64) (VUint (u64 vsn)) with Val enc => put versionKey enc | _ => put versionKey [] end.

(** ** FindCommonAncestor *)

(** The loop [for a.Number.Uint64() > n \{ a = parent of a \}]. *)
Definition parent_of (db : Store) (a : Header) : option Header :=
  GetHeader db (ParentHash a) (u64 (big_Uint64 (Number a) - 1)).
Fixpoint ancestor_loop (fuel : nat) (db : Store) (n : Z) (a : Header) : outcome unit (option Header) :=
  match fuel with
  | O => NoFuel
  | S fuel =>
      if big_Uint64 (Number a) >? n then
        match parent_of db a with
        | None => Val None
        | Some a => ancestor_loop fuel db n a
        end
      else Val (Some a)
  end.
Fixpoint common_loop (fuel : nat) (db : Store) (a b : Header) : outcome unit (option Header) :=
  match fuel with
  | O => NoFuel
  | S fuel =>
      if negb (Header_Hash a =? Header_Hash b) then
        match parent_of db a with
        | None => Val None
        | Some a =>
            match parent_of db b with
            | None => Val None
            | Some b => common_loop fuel db a b
            end
        end
      else Val (Some a)
  end.
(** A round of each loop lowers a number, if headers are filed under theirs. *)
Definition FindCommonAncestor (db : Store) (a b : Header) : outcome unit (option Header) :=
  let bn := big_Uint64 (Number b) in
  a ← ancestor_loop (S (Z.to_nat (big_Uint64 (Number a)))) db bn a;
  match a with
  | None => Val None
  | Some a =>
      let an := big_Uint64 (Number a) in
      b ← ancestor_loop (S (Z.to_nat (big_Uint64 (Number b)))) db an b;
      match b with
      | None => Val None
      | Some b => common_loop (S (S (Z.to_nat (big_Uint64 (Number a))))) db a b
      end
  end.
End chaindb.
