(* ===== verification/ChainDbFacts.v ===== *)
(** * Facts about the chain database *)

From stdpp Require Import base tactics list numbers gmap.
From S2P Require Import Prelude GoMath RlpEncode RlpDecode RlpEncodeFacts RlpStream RlpSound RlpComplete RlpRaw RlpRecord RlpCodec Keccak KeccakFacts KeccakProps.
From S2P Require Import Trie TrieMap TxTypes TxFacts BlockTypes BlockFacts ChainDb.

#[local] Open Scope Z_scope.
Import rlp rlpd types blocks chaindb.
#[local] Opaque keccak.hash256 keccak256.

(** ** Keys *)

(** The entries of the database; [KNode] are the trie nodes, filed under their
    hash. *)
Inductive entry : Type :=
| KHeadHeader | KHeadBlock | KHeadFast | KRandom | KVersion
| KCanonical (n : Z) | KHeader (h n : Z) | KTd (h n : Z) | KNumber (h : Z) | KBody (h n : Z) | KReceipts (h n : Z)
| KLookup (h : Z) | KBloom (bit section h : Z) | KPreimage (h : Z) | KNode (h : Z)
| KIndexCount | KIndexHead (section : Z).
#[global] Instance entry_eq_dec : EqDecision entry.
Proof. solve_decision. Defined.
Definition key (e : entry) : list byte :=
  match e with
  | KHeadHeader => headHeaderKey | KHeadBlock => headBlockKey | KHeadFast => headFastKey | KRandom => randomPrefix | KVersion => versionKey
  | KCanonical n => canonicalKey n | KHeader h n => headerKey h n | KTd h n => tdKey h n | KNumber h => blockHashKey h
  | KBody h n => blockBodyKey h n | KReceipts h n => receiptsKey h n | KLookup h => lookupKey h
  | KBloom b s h => bloomBitsKey b s h | KPreimage h => preimagePrefix ++ Hash_Bytes h | KNode h => Hash_Bytes h
  | KIndexCount => BloomBitsIndexPrefix ++ countKey | KIndexHead s => BloomBitsIndexPrefix ++ sheadKey s
  end.
Definition is_hash (h : Z) : Prop := 0 ≤ h < 2 ^ 256.
Definition entry_ok (e : entry) : Prop :=
  match e with
  | KHeadHeader | KHeadBlock | KHeadFast | KRandom | KVersion | KIndexCount => True
  | KCanonical n | KIndexHead n => is_u64 n
  | KHeader h n | KTd h n | KBody h n | KReceipts h n => is_hash h ∧ is_u64 n
  | KNumber h | KLookup h | KPreimage h | KNode h => is_hash h
  | KBloom b s h => 0 ≤ b < 2 ^ 16 ∧ is_u64 s ∧ is_hash h
  end.
Definition key_length (e : entry) : nat :=
  match e with
  | KHeadHeader => 10 | KHeadBlock => 9 | KHeadFast => 8 | KRandom => 6 | KVersion => 17
  | KCanonical _ => 10 | KHeader _ _ => 41 | KTd _ _ => 42 | KNumber _ => 33 | KBody _ _ => 41 | KReceipts _ _ => 41
  | KLookup _ => 33 | KBloom _ _ _ => 43 | KPreimage _ => 43 | KNode _ => 32
  | KIndexCount => 7 | KIndexHead _ => 15
  end.
Lemma length_Hash_Bytes h : length (Hash_Bytes h) = 32%nat.
Proof. apply length_be_bytes. Qed.
Lemma length_key e : length (key e) = key_length e.
Proof. destruct e; try reflexivity; unfold key, canonicalKey, headerKey, tdKey, blockHashKey, blockBodyKey, receiptsKey, lookupKey, bloomBitsKey, sheadKey, encodeBlockNumber; rewrite ?length_app, ?length_Hash_Bytes, ?length_be_bytes; reflexivity. Qed.
Lemma be_bytes_inj n x y : 0 ≤ x < 256 ^ Z.of_nat n → 0 ≤ y < 256 ^ Z.of_nat n → be_bytes n x = be_bytes n y → x = y.
Proof. intros Hx Hy E. apply (f_equal SetBytes) in E. rewrite !SetBytes_be_bytes, !Z.mod_small in E by done. done. Qed.
Lemma be_bytes_app_inj n x y l1 l2 : 0 ≤ x < 256 ^ Z.of_nat n → 0 ≤ y < 256 ^ Z.of_nat n → be_bytes n x ++ l1 = be_bytes n y ++ l2 → x = y ∧ l1 = l2.
Proof. intros Hx Hy E. apply app_inj_1 in E as [E ->]; [|by rewrite !length_be_bytes]. split; [by eapply be_bytes_inj|done]. Qed.

(** The keys of different entries are different. *)
Lemma key_inj e1 e2 : entry_ok e1 → entry_ok e2 → key e1 = key e2 → e1 = e2.
Proof.
  intros H1 H2 E. pose proof (f_equal length E) as El. rewrite !length_key in El.
  destruct e1, e2; try discriminate El; try reflexivity; try discriminate E; clear El; cbn [entry_ok] in *; unfold is_hash, is_u64 in *;
    unfold key, canonicalKey, headerKey, tdKey, blockHashKey, blockBodyKey, receiptsKey, lookupKey, bloomBitsKey, sheadKey, encodeBlockNumber, Hash_Bytes in E;
    repeat match type of E with ?p ++ _ = ?p ++ _ => apply app_inv_head in E end;
    repeat match type of E with
    | be_bytes ?n _ ++ _ = be_bytes ?n _ ++ _ => apply be_bytes_app_inj in E as [? E]; [subst|cbn in *; tauto..]
    | be_bytes ?n _ = be_bytes ?n _ => apply be_bytes_inj in E; [subst|cbn in *; tauto..]
    end; reflexivity.
Qed.

(** ** Reads after writes *)

Lemma get_put e1 e2 v db : entry_ok e1 → entry_ok e2 → get (key e1) (db_Put (key e2) v db) = if decide (e1 = e2) then v else get (key e1) db.
Proof.
  intros H1 H2. unfold get, db_Get, db_Put. case_decide as E; [subst; by rewrite lookup_insert_eq|].
  rewrite lookup_insert_ne; [done|]. intros Ek. apply E. symmetry. by apply key_inj.
Qed.
Lemma get_delete e1 e2 db : entry_ok e1 → entry_ok e2 → get (key e1) (db_Delete (key e2) db) = if decide (e1 = e2) then [] else get (key e1) db.
Proof.
  intros H1 H2. unfold get, db_Get, db_Delete. case_decide as E; [subst; by rewrite lookup_delete_eq|].
  rewrite lookup_delete_ne; [done|]. intros Ek. apply E. symmetry. by apply key_inj.
Qed.
(** The store with some entries changed. *)
Definition differs (es : list entry) (db db' : Store) : Prop := ∀ e, entry_ok e → e ∉ es → get (key e) db' = get (key e) db.
Lemma differs_refl db : differs [] db db.
Proof. by intros e. Qed.
Lemma differs_put es db db' e v : entry_ok e → differs es db db' → differs (e :: es) db (db_Put (key e) v db').
Proof.
  intros He Hd e' He' [Hne Hn]%not_elem_of_cons. rewrite get_put by done. rewrite decide_False by done. by apply Hd.
Qed.
Lemma differs_delete es db db' e : entry_ok e → differs es db db' → differs (e :: es) db (db_Delete (key e) db').
Proof.
  intros He Hd e' He' [Hne Hn]%not_elem_of_cons. rewrite get_delete by done. rewrite decide_False by done. by apply Hd.
Qed.

Create HintDb in_list.
#[export] Hint Resolve list_elem_of_here list_elem_of_further : in_list.

(** ** Entries that are encoded *)

Lemma c_EncodeToBytes {A} (c : codec A) `{!CodecLaws c} a : c_ok c a → Zlen (c_enc c a) < 2 ^ 63 → EncodeToBytes (c_typ c) (c_to c a) = Val (c_enc c a).
Proof. intros Ha Hl. by destruct (@rec_roundtrip A (codec_rlp c) (c_ok c) (codec_laws c) a Ha Hl) as (H & _). Qed.
Lemma NewStream_0 b : NewStream b 0 = NewStream b (Zlen b).
Proof. unfold NewStream. change (0 >? 0) with false. by destruct (Zlen b >? 0). Qed.
Lemma decode_first_reads {A} (m : D A) bs a : Zlen bs < 2 ^ 63 → reads m bs a → decode_first m bs = Val a.
Proof.
  intros Hl Hrd. unfold decode_first. rewrite NewStream_0. pose proof (NewStream_ready bs Hl) as Hs0.
  by destruct (Hrd (NewStream bs (Zlen bs)) [] Hs0) as (s' & -> & Haf); [by rewrite app_nil_r|done|].
Qed.
Lemma decode_or_nil_Val {E A} (dec : list byte → outcome E A) bs a : 1 ≤ Zlen bs → dec bs = Val a → decode_or_nil dec bs = Some a.
Proof. intros Hl E'. unfold decode_or_nil. rewrite (proj2 (Z.eqb_neq _ _)) by lia. by rewrite E'. Qed.
Lemma decode_or_nil_nil {E A} (dec : list byte → outcome E A) : decode_or_nil dec [] = None.
Proof. done. Qed.
Lemma c_decode_first {A} (c : codec A) `{!CodecLaws c} a : c_ok c a → Zlen (c_enc c a) < 2 ^ 63 →
  decode_or_nil (decode_first (c_decode c)) (c_enc c a) = Some a.
Proof. intros Ha Hl. destruct (c_reads c a Ha) as [Hr H1]; [lia|]. apply decode_or_nil_Val; [done|]. by apply decode_first_reads. Qed.

(** Headers of the sizes that are encoded. *)
Definition header_ok (h : Header) : Prop := c_ok c_Header h ∧ Zlen (c_enc c_Header h) < 2 ^ 63.
Definition number (h : Header) : Z := big_Uint64 (Number h).
Lemma number_u64 h : is_u64 (number h).
Proof. apply u64_range. Qed.
Lemma Header_Hash_range h : is_hash (Header_Hash h).
Proof.
  unfold Header_Hash, rlpHash. rewrite hash256_ok, BytesToHash_keccak. pose proof (SetBytes_range (keccak256 match Encode (rec_typ Header) (to_value h) with Val enc => enc | _ => [] end)) as H.
  by rewrite keccak256_length in H.
Qed.
Lemma Hash_Bytes_inv h : is_hash h → BytesToHash (Hash_Bytes h) = h.
Proof. intros Hh. rewrite BytesToHash_spec. unfold Hash_Bytes. rewrite SetBytes_be_bytes. change (256 ^ Z.of_nat 32) with (2 ^ 256). rewrite Z.mod_mod by lia. by apply Z.mod_small. Qed.
Lemma get_hash_put e1 e2 h db : entry_ok e1 → entry_ok e2 → is_hash h →
  get_hash (key e1) (db_Put (key e2) (Hash_Bytes h) db) = if decide (e1 = e2) then h else get_hash (key e1) db.
Proof.
  intros H1 H2 Hh. unfold get_hash. rewrite get_put by done. case_decide; [|done]. unfold Zlen. rewrite length_Hash_Bytes. by apply Hash_Bytes_inv.
Qed.

Lemma WriteHeader_ok h db : header_ok h → chaindb.WriteHeader h db =
  (db_Put (key (KHeader (Header_Hash h) (number h))) (c_enc c_Header h) (db_Put (key (KNumber (Header_Hash h))) (encodeBlockNumber (number h)) db), Val tt).
Proof. intros [Hok Hl]. unfold chaindb.WriteHeader, encoded, put, modify, mbind, M_bind. by rewrite (c_EncodeToBytes c_Header). Qed.
Lemma GetHeader_get db h : header_ok h → get (key (KHeader (Header_Hash h) (number h))) db = c_enc c_Header h → GetHeader db (Header_Hash h) (number h) = Some h.
Proof. intros [Hok Hl] E. unfold GetHeader, GetHeaderRLP. cbn [key] in E. rewrite E. by apply (c_decode_first c_Header). Qed.
Lemma GetHeader_same db db' h n : get (key (KHeader h n)) db' = get (key (KHeader h n)) db → GetHeader db' h n = GetHeader db h n.
Proof. intros E. unfold GetHeader, GetHeaderRLP. cbn [key] in E. by rewrite E. Qed.
Lemma GetBlockNumber_get db h n : is_u64 n → get (key (KNumber h)) db = encodeBlockNumber n → GetBlockNumber db h = n.
Proof.
  intros Hn E. unfold GetBlockNumber. change (blockHashKey h) with (key (KNumber h)). rewrite E. unfold encodeBlockNumber, Zlen. rewrite length_be_bytes. cbn [negb].
  change (Z.of_nat 8 =? 8) with true. cbn [negb]. rewrite SetBytes_be_bytes. by apply Z.mod_small.
Qed.

(** ** Bodies *)

Definition body_ok (b : Body) : Prop := Forall (λ tx, tx_ok (data tx) ∧ JHash (data tx) = None) (b_Transactions b) ∧ Forall (c_ok c_Header) (b_Uncles b).
Definition body_enc (b : Body) : list byte := enc_list (txs_enc (b_Transactions b) ++ c_enc c_Headers (b_Uncles b)).
Lemma Body_shaped b : body_ok b → shaped Body_typ (Body_value b) ∧ enc Body_typ (Body_value b) = Some (body_enc b).
Proof.
  intros [Ht Hu]. destruct (c_shaped c_Headers (b_Uncles b) Hu) as [Hs3 He3]. destruct (txs_shaped _ Ht) as [Hs2 He2]. split.
  - change (shaped_fields [TSlice (TPtr (rec_typ txdata)); c_typ c_Headers] [VList (VPtr ∘ Some ∘ to_value ∘ data <$> b_Transactions b); c_to c_Headers (b_Uncles b)]).
    split; [|split; [exact Hs3|exact I]]. change (shaped (TSlice ?t) (VList ?l)) with ((fix all (vs : list value) : Prop := match vs with [] => True | v :: vs => shaped t v ∧ all vs end) l).
    by rewrite shaped_elems.
  - unfold Body_typ, Body_value. rewrite enc_struct. cbn [enc_fields]. rewrite He3.
    change (enc (TSlice (TPtr (rec_typ txdata))) (VList ?l)) with (enc_list <$> (mjoin <$> mapM (enc (TPtr (rec_typ txdata))) l)).
    rewrite He2. cbn [fmap option_fmap option_map mbind option_bind]. rewrite app_nil_r. reflexivity.
Qed.
Lemma Body_reads b : body_ok b → Zlen (body_enc b) < 2 ^ 63 → reads Body_decode (body_enc b) (mkBody (decoded <$> b_Transactions b) (b_Uncles b)).
Proof.
  intros [Ht Hu] Hl. pose proof (enc_list_length (txs_enc (b_Transactions b) ++ c_enc c_Headers (b_Uncles b))) as Hle. fold (body_enc b) in Hle. rewrite Zlen_app in Hle.
  pose proof (Zlen_nonneg (txs_enc (b_Transactions b))). pose proof (Zlen_nonneg (c_enc c_Headers (b_Uncles b))).
  destruct (c_reads c_Headers (b_Uncles b) Hu ltac:(lia)) as [R3 _].
  apply (enclosed_reads _ _ _ (λ r, r)). eapply field_inside; [apply txs_reads; [done|lia]|].
  rewrite <- (app_nil_r (c_enc c_Headers (b_Uncles b))). eapply field_inside; [exact R3|]. apply ret_inside.
Qed.
Lemma enc_list_nonempty p : 1 ≤ Zlen (enc_list p).
Proof. unfold enc_list. rewrite Zlen_app. pose proof (Zlen_nonneg p). unfold head. case_if; unfold Zlen; cbn [length]; lia. Qed.
Lemma GetBody_get db b h n : body_ok b → Zlen (body_enc b) < 2 ^ 63 → get (key (KBody h n)) db = body_enc b →
  GetBody db h n = Some (mkBody (decoded <$> b_Transactions b) (b_Uncles b)).
Proof.
  intros Hb Hl E. unfold GetBody, GetBodyRLP. cbn [key] in E. rewrite E. apply decode_or_nil_Val; [apply enc_list_nonempty|].
  apply decode_first_reads; [done|by apply Body_reads].
Qed.
Lemma WriteBody_ok db b h n : body_ok b → Zlen (body_enc b) < 2 ^ 63 → WriteBody h n b db = (db_Put (key (KBody h n)) (body_enc b) db, Val tt).
Proof.
  intros Hb Hl. destruct (Body_shaped b Hb) as [Hs He]. unfold WriteBody, encoded, mbind, M_bind. by rewrite (proj1 (Encode_ok _ _ _ Hs He Hl)).
Qed.
Lemma WriteTd_ok db td h n : 0 ≤ td → Zlen (c_enc c_big td) < 2 ^ 63 → WriteTd h n td db = (db_Put (key (KTd h n)) (c_enc c_big td) db, Val tt).
Proof. intros Ht Hl. unfold WriteTd, encoded, mbind, M_bind. by rewrite (c_EncodeToBytes c_big). Qed.
Lemma GetTd_get db td h n : 0 ≤ td → Zlen (c_enc c_big td) < 2 ^ 63 → get (key (KTd h n)) db = c_enc c_big td → GetTd db h n = Some td.
Proof. intros Ht Hl E. unfold GetTd. cbn [key] in E. rewrite E. by apply (c_decode_first c_big). Qed.

(** ** Receipts and lookup entries *)

Definition c_storageReceipts := c_list (c_ptr receiptStorageRLP).
Definition receipts_enc (rs : list Receipt) : list byte := c_enc c_storageReceipts (ReceiptForStorage_to <$> rs).
Lemma storageReceipts_codec rs : storageReceipts_typ = c_typ c_storageReceipts ∧ storageReceipts_value rs = c_to c_storageReceipts (ReceiptForStorage_to <$> rs).
Proof. split; [done|]. unfold storageReceipts_value, c_storageReceipts. cbn [c_to c_list c_ptr]. by rewrite <- list_fmap_compose. Qed.
Lemma stored_fmap rs : Forall stored_ok rs → c_ok c_storageReceipts (ReceiptForStorage_to <$> rs).
Proof. intros H. apply Forall_fmap. apply (List.Forall_impl _) with (2 := H). by intros r (_ & ? & _). Qed.
Lemma c_list_enc {A} (c : codec A) `{!CodecLaws c} l : Forall (c_ok c) l → c_enc (c_list (c_ptr c)) l = enc_list (mjoin (c_enc c <$> l)).
Proof.
  intros Hl. unfold c_enc at 1. cbn [c_typ c_to c_list c_ptr]. change (enc (TSlice ?t) (VList ?l)) with (enc_list <$> (mjoin <$> mapM (enc t) l)).
  assert (mapM (enc (TPtr (c_typ c))) ((VPtr ∘ Some ∘ c_to c) <$> l) = Some (c_enc c <$> l)) as ->; [|done].
  induction Hl as [|a l Ha _ IH]; [done|]. cbn [fmap list_fmap mapM]. cbn [fmap list_fmap] in IH. rewrite IH.
  change (enc (TPtr (c_typ c)) ((VPtr ∘ Some ∘ c_to c) a)) with (enc (c_typ c) (c_to c a)). by rewrite (proj2 (c_shaped c a Ha)).
Qed.
Lemma receipts_enc_list rs : Forall stored_ok rs → receipts_enc rs = enc_list (mjoin (c_enc receiptStorageRLP ∘ ReceiptForStorage_to <$> rs)).
Proof. intros H. rewrite list_fmap_compose. apply (c_list_enc receiptStorageRLP). by apply stored_fmap. Qed.
Lemma ret_ends {A B} (m : D A) (f : A → B) : ends m → ends (x ← m; mret (f x)).
Proof. intros H s Hs He. destruct (H s Hs He) as (s' & E & Ha). exists s'. split; [|done]. unfold mbind, M_bind. by rewrite E. Qed.
Lemma c_decode_ends {A} (c : codec A) `{!CodecLaws c} : ends (c_decode c).
Proof. intros s Hs He. destruct (decoder_ends (c_typ c) c_wf s Hs He) as (s' & E & Ha). exists s'. split; [|done]. unfold c_decode, mbind, M_bind. by rewrite E. Qed.
Lemma receipts_reads rs : Forall stored_ok rs → Zlen (receipts_enc rs) < 2 ^ 63 →
  reads (decodeListSlice ReceiptForStorage_DecodeRLP) (receipts_enc rs) (inr <$> rs).
Proof.
  intros Hr Hl. rewrite receipts_enc_list in * by done.
  apply slice_reads; [apply ret_ends, (c_decode_ends receiptStorageRLP)|].
  pose proof (enc_list_length (mjoin (c_enc receiptStorageRLP ∘ ReceiptForStorage_to <$> rs))) as Hle.
  assert (∀ r, r ∈ rs → Zlen ((c_enc receiptStorageRLP ∘ ReceiptForStorage_to) r) < 2 ^ 63) as Hb.
  { intros r Hin. pose proof (mjoin_elem_length r (c_enc receiptStorageRLP ∘ ReceiptForStorage_to) rs Hin). lia. }
  clear Hl Hle. induction Hr as [|r rs Hs _ IH]; constructor; [|apply IH; intros; apply Hb; by right].
  pose proof (Hb r ltac:(by left)) as H1. unfold compose in H1. split; [apply ReceiptForStorage_reads; [done|lia]|].
  destruct (c_reads receiptStorageRLP _ (proj1 (proj2 Hs))) as [_ ?]; [lia|done].
Qed.
Lemma GetBlockReceipts_get db rs h n : Forall stored_ok rs → Zlen (receipts_enc rs) < 2 ^ 63 → get (key (KReceipts h n)) db = receipts_enc rs → GetBlockReceipts db h n = rs.
Proof.
  intros Hr Hl E. unfold GetBlockReceipts. cbn [key] in E. rewrite E. rewrite (decode_or_nil_Val _ _ rs); [done| |].
  - rewrite receipts_enc_list by done. apply enc_list_nonempty.
  - unfold storageReceipts_decode. rewrite (decode_all_reads _ _ _ Hl (receipts_reads rs Hr Hl)). clear. induction rs as [|r rs IH]; [done|]. cbn [fmap list_fmap mapM]. cbn [fmap list_fmap] in IH. by rewrite IH.
Qed.
Lemma WriteBlockReceipts_ok db rs h n : Forall stored_ok rs → Zlen (receipts_enc rs) < 2 ^ 63 →
  WriteBlockReceipts h n rs db = (db_Put (key (KReceipts h n)) (receipts_enc rs) db, Val tt).
Proof.
  intros Hr Hl. unfold WriteBlockReceipts, encoded, mbind, M_bind. destruct (storageReceipts_codec rs) as [-> ->].
  by rewrite (c_EncodeToBytes c_storageReceipts _ (stored_fmap rs Hr)).
Qed.

#[global] Instance txLookupEntry_laws : CodecLaws txLookupEntry.
Proof. apply _. Qed.
Lemma rlpHash_range t v : is_hash (rlpHash t v).
Proof.
  unfold rlpHash. rewrite hash256_ok, BytesToHash_keccak. pose proof (SetBytes_range (keccak256 match Encode t v with Val enc => enc | _ => [] end)) as H.
  by rewrite keccak256_length in H.
Qed.
Definition entry_enc (hash number : Z) (i : nat) : list byte := c_enc txLookupEntry (hash, (number, Z.of_nat i)).
Lemma entry_enc_length hash num i : is_u64 num → Z.of_nat i < 2 ^ 64 → Zlen (entry_enc hash num i) < 2 ^ 63.
Proof.
  intros Hn Hi. assert (entry_enc hash num i = enc_list (enc_str (Hash_Bytes hash) ++ enc_str (big_Bytes num) ++ enc_str (big_Bytes (Z.of_nat i)) ++ [])) as -> by reflexivity.
  pose proof (big_Bytes_length num Hn). pose proof (big_Bytes_length (Z.of_nat i) ltac:(lia)).
  assert (Zlen (Hash_Bytes hash) = 32) as H32 by (unfold Zlen; by rewrite length_Hash_Bytes).
  destruct (enc_length_le (Hash_Bytes hash)) as [L1 _]; [lia|]. destruct (enc_length_le (big_Bytes num)) as [L2 _]; [lia|].
  destruct (enc_length_le (big_Bytes (Z.of_nat i))) as [L3 _]; [lia|].
  destruct (enc_length_le (enc_str (Hash_Bytes hash) ++ enc_str (big_Bytes num) ++ enc_str (big_Bytes (Z.of_nat i)) ++ [])) as [_ L]; rewrite !Zlen_app in *; change (Zlen []) with 0 in *; lia.
Qed.
Lemma lookup_entries_ok hash num txs : is_hash hash → is_u64 num → NoDup (tx_hash <$> txs) → Forall (is_hash ∘ tx_hash) txs → ∀ i db,
  Z.of_nat (i + length txs) < 2 ^ 64 →
  ∃ db', lookup_entries hash num i txs db = (db', Val tt) ∧
    differs (KLookup ∘ tx_hash <$> txs) db db' ∧
    ∀ j tx, txs !! j = Some tx → get (key (KLookup (tx_hash tx))) db' = entry_enc hash num (i + j).
Proof.
  intros Hh Hn. induction txs as [|tx txs IH]; intros Hnd Hr i db Hi; cbn [lookup_entries length fmap list_fmap] in *.
  { exists db. split_and!; [done|apply differs_refl|]. by intros j tx Hj. }
  apply NoDup_cons in Hnd as [Hnot Hnd]. apply Forall_cons_iff in Hr as [Htx Hr].
  assert (entry_ok (KLookup (tx_hash tx))) as Hok by apply Htx.
  destruct (IH Hnd Hr (S i) (db_Put (key (KLookup (tx_hash tx))) (entry_enc hash num i) db)) as (db' & E & Hd & Hg); [lia|].
  exists db'. split_and!.
  - unfold encoded, put, modify, mbind, M_bind. rewrite (c_EncodeToBytes txLookupEntry); [exact E| |apply entry_enc_length; [done|lia]]. split; [done|]. split; [exact Hn|]. cbn. lia.
  - intros e He [Hne Hn']%not_elem_of_cons. rewrite Hd by done. rewrite get_put by done. by rewrite decide_False.
  - intros [|j] tx' Hj; [injection Hj as <-|].
    + rewrite Hd; [rewrite get_put by done; rewrite decide_True by done; by rewrite Nat.add_0_r|done|].
      rewrite list_fmap_compose. intros [x [Ex Hx]]%list_elem_of_fmap. injection Ex as Ex. by rewrite Ex in Hnot.
    + rewrite (Hg j tx' Hj). f_equal. lia.
Qed.
Lemma GetTxLookupEntry_get db hash bh num i : is_hash bh → is_u64 num → Z.of_nat i < 2 ^ 64 →
  get (key (KLookup hash)) db = entry_enc bh num i → GetTxLookupEntry db hash = (bh, num, Z.of_nat i).
Proof.
  intros Hh Hn Hi E. unfold GetTxLookupEntry. cbn [key] in E. rewrite E. pose proof (entry_enc_length bh num i Hn Hi) as Hl.
  assert (c_ok txLookupEntry (bh, (num, Z.of_nat i))) as Hok by (split; [done|]; split; [exact Hn|]; cbn; lia).
  destruct (c_reads txLookupEntry _ Hok) as [Hr H1]; [unfold entry_enc in Hl; lia|]. unfold entry_enc in *. rewrite (decode_or_nil_Val _ _ _ H1 (decode_all_reads _ _ _ Hl Hr)). done.
Qed.

(** ** Ancestors *)

(** Every header is filed under its own hash and number; the last number is
    not used. *)
Definition filed (db : Store) : Prop := ∀ hash n h, is_hash hash → is_u64 n → GetHeader db hash n = Some h →
  c_ok c_Header h ∧ Header_Hash h = hash ∧ number h = n ∧ n < MaxUint64.
Definition header_in_range (h : Header) : Prop := c_ok c_Header h ∧ number h < MaxUint64.

Lemma ParentHash_range h : c_ok c_Header h → is_hash (ParentHash h).
Proof. intros H. apply H. Qed.

Section ancestors.
Context (db : Store) (Hf : filed db).

Lemma parent_spec a p : header_in_range a → parent_of db a = Some p →
  header_in_range p ∧ 1 ≤ number a ∧ number p = number a - 1 ∧ Header_Hash p = ParentHash a.
Proof.
  intros [Ha Hlt] E. pose proof (number_u64 a) as Hn. unfold parent_of in E. fold (number a) in E.
  destruct (Hf _ _ _ (ParentHash_range a Ha) (u64_range _) E) as (Hok & Eh & En & Hm). unfold is_u64, MaxUint64 in *.
  assert (1 ≤ number a) as H1.
  { destruct (Z.le_gt_cases 1 (number a)) as [|H0]; [done|]. replace (number a) with 0 in Hm by lia. vm_compute in Hm. done. }
  rewrite u64_small in En by (unfold is_u64; lia). split_and!; try done. split; [done|]. unfold MaxUint64. lia.
Qed.

(** [anc a x]: [x] is [a] or an ancestor whose chain is stored. *)
Inductive anc : Header → Header → Prop :=
| anc_refl a : anc a a
| anc_step a p x : parent_of db a = Some p → anc p x → anc a x.
Lemma anc_number a x : anc a x → header_in_range a → number x ≤ number a ∧ header_in_range x ∧ (number x = number a → x = a).
Proof.
  induction 1 as [a|a p x Hp Hx IH]; intros Ha; [split_and!; [lia|done|done]|].
  destruct (parent_spec a p Ha Hp) as (Hr & H1 & En & _). destruct (IH Hr) as (Hle & Hx' & _). split_and!; [lia|done|lia].
Qed.
Lemma anc_trans a b c : anc a b → anc b c → anc a c.
Proof. induction 1 as [a|a p x Hp Hx IH]; intros H; [done|]. apply (anc_step _ p); [done|by apply IH]. Qed.
(** The chain of [a] is a line. *)
Lemma anc_inv a x : anc a x → number x < number a → ∃ p, parent_of db a = Some p ∧ anc p x.
Proof. destruct 1 as [a|a p x Hp Hx]; [lia|]. intros _. by exists p. Qed.

Lemma ancestor_loop_ok m fuel : 0 ≤ m → ∀ a, header_in_range a → number a < Z.of_nat fuel →
  ∃ r, ancestor_loop fuel db m a = Val r ∧
    match r with
    | Some a' => anc a a' ∧ number a' = number a `min` m ∧ ∀ x, anc a x → number x ≤ m → anc a' x
    | None => ∀ x, anc a x → m < number x
    end.
Proof.
  intros Hm. induction fuel as [|fuel IH]; intros a Ha Hfuel; [pose proof (number_u64 a) as []; lia|]. cbn [ancestor_loop]. fold (number a).
  destruct (Z.gtb_spec (number a) m) as [Hgt|Hle]; [|exists (Some a); split_and!; [done|constructor|lia|done]].
  destruct (parent_of db a) as [p|] eqn:Ep.
  - destruct (parent_spec a p Ha Ep) as (Hr & H1 & En & _). destruct (IH p Hr ltac:(lia)) as (r & Er & Hres). exists r. split; [done|]. destruct r as [a'|].
    + destruct Hres as (Han & Hmin & Hall). split_and!; [by apply (anc_step _ p)|lia|]. intros x Hx Hxm. apply Hall; [|done].
      destruct (anc_inv a x Hx ltac:(lia)) as (p' & Ep' & Hx'). congruence.
    + intros x Hx. inversion Hx as [|? p' ? Ep' Hx']; subst; [lia|]. assert (p' = p) as -> by congruence. by apply Hres.
  - exists None. split; [done|]. intros x Hx. inversion Hx as [|? p' ? Ep' Hx']; subst; [lia|congruence].
Qed.

(** The same block on both chains. *)
Definition same_block (x y : Header) : Prop := Header_Hash x = Header_Hash y ∧ number x = number y.
Definition common (a b x : Header) : Prop := anc a x ∧ ∃ y, anc b y ∧ same_block x y.
Lemma common_loop_ok fuel : ∀ a b, header_in_range a → header_in_range b → number a = number b → number a + 1 < Z.of_nat fuel →
  ∃ r, common_loop fuel db a b = Val r ∧
    match r with
    | Some c => common a b c ∧ ∀ x, common a b x → number x ≤ number c
    | None => ∀ x, ¬ common a b x
    end.
Proof.
  induction fuel as [|fuel IH]; intros a b Ha Hb Hn Hfuel; [pose proof (number_u64 a) as []; lia|]. cbn [common_loop].
  destruct (Z.eqb_spec (Header_Hash a) (Header_Hash b)) as [E|E]; cbn [negb].
  { exists (Some a). split; [done|]. split; [split; [constructor|]; exists b; split; [constructor|done]|]. intros x [Hx _]. by apply (anc_number a x). }
  (* below [a] and [b] *)
  assert (∀ x, common a b x → ∃ pa pb, parent_of db a = Some pa ∧ parent_of db b = Some pb ∧ common pa pb x) as Hdown.
  { intros x (Hx & y & Hy & Es & En). destruct (anc_number a x Hx Ha) as (Hxa & _ & Exa). destruct (anc_number b y Hy Hb) as (Hyb & _ & Eyb).
    destruct (decide (number x = number a)) as [Heq|Hne]; [rewrite (Exa Heq), (Eyb ltac:(lia)) in Es; done|].
    destruct (anc_inv a x Hx ltac:(lia)) as (pa & Epa & Hxa'). destruct (anc_inv b y Hy ltac:(lia)) as (pb & Epb & Hyb').
    exists pa, pb. split_and!; [done|done|]. split; [done|]. by exists y. }
  destruct (parent_of db a) as [pa|] eqn:Ea; [|exists None; split; [done|]; intros x (pa & pb & ? & _)%Hdown; congruence].
  destruct (parent_of db b) as [pb|] eqn:Eb; [|exists None; split; [done|]; intros x (pa' & pb & ? & ? & _)%Hdown; congruence].
  destruct (parent_spec a pa Ha Ea) as (Hpa & H1 & Ena & _). destruct (parent_spec b pb Hb Eb) as (Hpb & _ & Enb & _).
  destruct (IH pa pb Hpa Hpb ltac:(lia) ltac:(lia)) as (r & Er & Hres). exists r. split; [done|]. destruct r as [c|].
  - destruct Hres as [(Hc & y & Hy & Hs) Hmax]. split; [split; [by apply (anc_step _ pa)|exists y; split; [by apply (anc_step _ pb)|done]]|].
    intros x (pa' & pb' & [= <-] & [= <-] & Hx)%Hdown. by apply Hmax.
  - intros x (pa' & pb' & [= <-] & [= <-] & Hx)%Hdown. by eapply Hres.
Qed.
End ancestors.

Lemma filed_empty : filed ∅.
Proof. intros hash n h _ _ E. unfold GetHeader, GetHeaderRLP, get, db_Get in E. by rewrite lookup_empty in E. Qed.
Lemma filed_same db db' : filed db → (∀ hash n, is_hash hash → is_u64 n → get (key (KHeader hash n)) db' = get (key (KHeader hash n)) db) → filed db'.
Proof. intros Hf H hash n h Hh Hn E. apply (Hf hash n h Hh Hn). rewrite <- E. symmetry. by apply GetHeader_same, H. Qed.
Lemma filed_put db e v : filed db → entry_ok e → (∀ hash n, e ≠ KHeader hash n) → filed (db_Put (key e) v db).
Proof. intros Hf He Hne. apply (filed_same db); [done|]. intros hash n Hh Hn. rewrite get_put by done. rewrite decide_False; [done|]. by intros <-; eapply Hne. Qed.
Lemma filed_delete db e : filed db → entry_ok e → filed (db_Delete (key e) db).
Proof.
  intros Hf He hash n h Hh Hn E. unfold GetHeader, GetHeaderRLP in E. change (headerKey hash n) with (key (KHeader hash n)) in E. rewrite get_delete in E by done.
  case_decide; [done|]. by apply (Hf hash n h Hh Hn).
Qed.
Lemma filed_WriteHeader db h : filed db → header_ok h → number h < MaxUint64 → filed (chaindb.WriteHeader h db).1.
Proof.
  intros Hf Hok Hlt. rewrite WriteHeader_ok by done. cbn [fst]. intros hash n x Hh Hn E.
  pose proof (Header_Hash_range h) as Hr. pose proof (number_u64 h) as Hu.
  destruct (decide (KHeader hash n = KHeader (Header_Hash h) (number h))) as [Ek|Ek].
  - injection Ek as -> ->. rewrite GetHeader_get in E; [|done|rewrite get_put by done; by rewrite decide_True]. injection E as <-. split_and!; [apply Hok|done|done|done].
  - apply (Hf hash n x Hh Hn). rewrite <- E. symmetry. apply GetHeader_same. rewrite !get_put by done. by rewrite decide_False, decide_False.
Qed.

(** ** Sample headers *)

Definition genesis : Header := mkHeader 0 0 0xabcd 1 6 0 0 zero_Bloom 2 0 4000000 0 1500000000 [] 0 3 [] [].
Lemma genesis_ok : header_ok genesis.
Proof. split; [ranges|vm_compute; reflexivity]. Qed.
Definition genesis_hash : Z := Eval vm_compute in Header_Hash genesis.
Lemma genesis_hash_ok : Header_Hash genesis = genesis_hash.
Proof. vm_compute. reflexivity. Qed.
(** Children of the genesis header. *)
Definition child (extra : Z) : Header := mkHeader genesis_hash 0 0xabcd 1 6 0 0 zero_Bloom 2 1 4000000 0 1500000001 [Zbyte extra] 0 3 [] [].
Lemma child_ok extra : Zlen (c_enc c_Header (child extra)) < 2 ^ 63 → header_ok (child extra).
Proof. intros H. split; [ranges|done]. Qed.
