(* ===== verification/ChainDbProps.v ===== *)
(** * Properties of the chain database *)

From stdpp Require Import base tactics list numbers gmap.
From S2P Require Import Prelude GoMath RlpEncode RlpDecode RlpEncodeFacts RlpStream RlpSound RlpComplete RlpRaw RlpRecord RlpCodec Keccak KeccakFacts KeccakProps.
From S2P Require Import Trie TrieMap TxTypes TxFacts BlockTypes BlockFacts ChainDb ChainDbFacts.

#[local] Open Scope Z_scope.
Import rlp rlpd types blocks chaindb.
#[local] Opaque keccak.hash256 keccak256.

(** ** Blocks come back *)

(** What the block chain writes for a new block. *)
Definition write_all (b : Block) (receipts : list Receipt) : W unit :=
  WriteBlock b;;
  WriteBlockReceipts (Header_Hash (header b)) (NumberU64 b) receipts;;
  WriteTxLookupEntries b.

Record storable (b : Block) (rs : list Receipt) : Prop := {
  st_header : header_ok (header b);
  st_body : body_ok (Block_Body b);
  st_small : Zlen (body_enc (Block_Body b)) < 2 ^ 63;
  st_receipts : Forall stored_ok rs;
  st_rsmall : Zlen (receipts_enc rs) < 2 ^ 63;
  st_length : length rs = length (transactions b);
  st_count : Zlen (transactions b) < 2 ^ 63;
  st_unique : NoDup (tx_hash <$> transactions b);
  st_hashes : Forall (is_hash ∘ tx_hash) (transactions b);
  st_nonzero : Header_Hash (header b) ≠ 0 }.

Section readback.
Context (b : Block) (rs : list Receipt) (Hst : storable b rs).
#[local] Abbreviation h := (Header_Hash (header b)).
#[local] Abbreviation n := (number (header b)).
Definition written_entries : list entry :=
  (KLookup ∘ tx_hash <$> transactions b) ++ [KReceipts h n; KHeader h n; KNumber h; KBody h n].

Lemma write_all_ok db : ∃ db', write_all b rs db = (db', Val tt) ∧ differs written_entries db db' ∧
  get (key (KReceipts h n)) db' = receipts_enc rs ∧ get (key (KHeader h n)) db' = c_enc c_Header (header b) ∧
  get (key (KNumber h)) db' = encodeBlockNumber n ∧ get (key (KBody h n)) db' = body_enc (Block_Body b) ∧
  ∀ j tx, transactions b !! j = Some tx → get (key (KLookup (tx_hash tx))) db' = entry_enc h n j.
Proof.
  destruct Hst as [Hh Hb Hs Hr Hrs Hlen Hc Hu Hx Hz]. pose proof (Header_Hash_range (header b)) as Hhr. pose proof (number_u64 (header b)) as Hnr.
  set (db3 := db_Put (key (KReceipts h n)) (receipts_enc rs) (db_Put (key (KHeader h n)) (c_enc c_Header (header b))
    (db_Put (key (KNumber h)) (encodeBlockNumber n) (db_Put (key (KBody h n)) (body_enc (Block_Body b)) db)))).
  destruct (lookup_entries_ok h n (transactions b) Hhr Hnr Hu Hx 0 db3) as (db' & E & Hd & Hg); [unfold Zlen in Hc; cbn; lia|].
  exists db'. assert (∀ e, (∀ t, e ≠ KLookup t) → e ∉ KLookup ∘ tx_hash <$> transactions b) as Hno by (intros e He [tx [-> _]]%list_elem_of_fmap; by eapply He).
  split.
  - unfold write_all, WriteBlock, WriteTxLookupEntries, mbind, M_bind. rewrite WriteBody_ok, WriteHeader_ok, WriteBlockReceipts_ok by done. exact E.
  - split; [|split_and!; [rewrite (Hd _) by (done || by apply Hno); subst db3; rewrite !get_put by done; repeat (rewrite decide_False by done); by rewrite decide_True..|done]].
    intros e He [Hn1 Hn2]%not_elem_of_app. rewrite Hd by done. subst db3. rewrite !not_elem_of_cons in Hn2.
    rewrite !get_put by done. by rewrite !decide_False by tauto.
Qed.
End readback.

(** C28: What is written for a block is read back: the block itself, its number
    and its receipts by hash, and every transaction and receipt by the hash of
    the transaction, with its position; no other entry of the database is
    touched. *)
Theorem chain_readback b rs db : storable b rs →
  let h := Header_Hash (header b) in let n := number (header b) in
  ∃ db', write_all b rs db = (db', Val tt) ∧
    GetBlock db' h n = Some (mkBlock (header b) (uncles b) (decoded <$> transactions b) None None) ∧
    GetBlockNumber db' h = n ∧ GetBlockReceipts db' h n = rs ∧
    (∀ i tx, transactions b !! i = Some tx → GetTransaction db' (tx_hash tx) = Val (Some (decoded tx), h, n, Z.of_nat i) ∧
       ∃ r, rs !! i = Some r ∧ GetReceipt db' (tx_hash tx) = Val (Some r, h, n, Z.of_nat i)) ∧
    ∀ e, entry_ok e → e ∉ written_entries b → get (key e) db' = get (key e) db.
Proof.
  intros Hst. cbv zeta. destruct (write_all_ok b rs Hst db) as (db' & E & Hd & Gr & Gh & Gn & Gb & Gl). exists db'.
  destruct Hst as [Hh Hb Hs Hr Hrs Hlen Hc Hu Hx Hz]. pose proof (Header_Hash_range (header b)) as Hhr. pose proof (number_u64 (header b)) as Hnr.
  pose proof (GetBody_get _ _ _ _ Hb Hs Gb) as EB. pose proof (GetBlockReceipts_get _ _ _ _ Hr Hrs Gr) as ER.
  split_and!; [done| |by apply GetBlockNumber_get|done| |done].
  - unfold GetBlock. rewrite (GetHeader_get _ _ Hh Gh). cbn [mbind option_bind]. by rewrite EB.
  - intros i tx Hi. pose proof (lookup_lt_Some _ _ _ Hi) as Hlt. unfold Zlen in Hc.
    pose proof (GetTxLookupEntry_get db' (tx_hash tx) _ _ i Hhr Hnr ltac:(lia) (Gl i tx Hi)) as EL. unfold GetTransaction, GetReceipt. rewrite EL.
    rewrite (proj2 (Z.eqb_neq _ _) Hz). cbn [negb]. rewrite EB, ER. cbn [b_Transactions]. rewrite i64_small by lia. unfold Zlen. rewrite length_fmap.
    cbn [Block_Body b_Transactions]. rewrite !(proj2 (Z.leb_gt _ _)) by lia. rewrite Nat2Z.id, list_lookup_fmap, Hi. split; [done|].
    destruct (lookup_lt_is_Some_2 rs i ltac:(lia)) as [r Er]. exists r. by rewrite Er.
Qed.

(** Deleting a block removes its header, number, body, receipts and total
    difficulty, and nothing else. *)
Theorem DeleteBlock_exact hash n db : is_hash hash → is_u64 n →
  ∃ db', DeleteBlock hash n db = (db', Val tt) ∧
    GetBlock db' hash n = None ∧ GetBlockNumber db' hash = missingNumber ∧ GetBlockReceipts db' hash n = [] ∧ GetTd db' hash n = None ∧
    ∀ e, entry_ok e → e ∉ [KTd hash n; KBody hash n; KHeader hash n; KNumber hash; KReceipts hash n] → get (key e) db' = get (key e) db.
Proof.
  intros Hh Hn. eexists. split; [reflexivity|].
  set (db' := db_Delete (key (KTd hash n)) (db_Delete (key (KBody hash n)) (db_Delete (key (KHeader hash n)) (db_Delete (key (KNumber hash)) (db_Delete (key (KReceipts hash n)) db))))).
  change (db_Delete (tdKey hash n) _) with db'.
  assert (∀ e, entry_ok e → e ∈ [KTd hash n; KBody hash n; KHeader hash n; KNumber hash; KReceipts hash n] → get (key e) db' = []) as Hgone.
  { intros e He Hin. subst db'. rewrite !get_delete by done. rewrite !elem_of_cons in Hin. repeat case_decide; try done. exfalso. rewrite elem_of_nil in Hin. tauto. }
  assert (entry_ok (KTd hash n) ∧ entry_ok (KNumber hash)) as [Hok1 Hok2] by done.
  pose proof (Hgone (KTd hash n) Hok1 ltac:(auto with in_list)) as G1. pose proof (Hgone (KHeader hash n) Hok1 ltac:(auto with in_list)) as G2.
  pose proof (Hgone (KNumber hash) Hok2 ltac:(auto with in_list)) as G3. pose proof (Hgone (KReceipts hash n) Hok1 ltac:(auto with in_list)) as G4. cbn [key] in *.
  unfold GetBlock, GetHeader, GetHeaderRLP, GetBlockNumber, GetBlockReceipts, GetTd. rewrite G1, G2, G3, G4. split_and!; [done..|].
  subst db'. repeat apply differs_delete; try done.
Qed.

(** In a database whose headers are filed under their own hash and number,
    [FindCommonAncestor] always returns: the last block that the stored chains
    of the two headers have in common, or nil if they have none. *)
Theorem FindCommonAncestor_last db a b : filed db → header_in_range a → header_in_range b →
  ∃ r, FindCommonAncestor db a b = Val r ∧
    match r with
    | Some c => common db a b c ∧ ∀ x, common db a b x → number x ≤ number c
    | None => ∀ x, ¬ common db a b x
    end.
Proof.
  intros Hf Ha Hb. pose proof (number_u64 a) as [Na _]. pose proof (number_u64 b) as [Nb _]. unfold FindCommonAncestor. fold (number a) (number b).
  destruct (ancestor_loop_ok db Hf (number b) (S (Z.to_nat (number a))) Nb a Ha ltac:(lia)) as (r1 & -> & H1). cbn [mbind outcome_bind].
  assert (∀ x y, anc db a x → anc db b y → same_block x y → number x ≤ number b) as Hle.
  { intros x y Hx Hy [_ En]. pose proof (proj1 (anc_number db Hf b y Hy Hb)). lia. }
  destruct r1 as [a'|]; [|exists None; split; [done|]; intros x (Hx & y & Hy & Hs); pose proof (Hle x y Hx Hy Hs); pose proof (H1 x Hx); lia].
  destruct H1 as (Han & Emin & Hall). destruct (anc_number db Hf a a' Han Ha) as (_ & Ha' & _). pose proof (number_u64 a') as [Na' _]. fold (number a').
  destruct (ancestor_loop_ok db Hf (number a') (S (Z.to_nat (number b))) Na' b Hb ltac:(lia)) as (r2 & -> & H2). cbn [mbind outcome_bind].
  assert (∀ x, common db a b x → anc db a' x ∧ number x ≤ number a') as Hdown.
  { intros x (Hx & y & Hy & Hs). pose proof (Hall x Hx (Hle x y Hx Hy Hs)) as Hx'. split; [done|]. exact (proj1 (anc_number db Hf a' x Hx' Ha')). }
  destruct r2 as [b'|]; [|exists None; split; [done|]; intros x Hc; pose proof (proj2 (Hdown x Hc)); destruct Hc as (Hx & y & Hy & _ & En); pose proof (H2 y Hy); lia].
  destruct H2 as (Hbn & Emin' & Hall'). destruct (anc_number db Hf b b' Hbn Hb) as (_ & Hb' & _). fold (number a').
  assert (∀ x, common db a b x ↔ common db a' b' x) as Hiff.
  { intros x. split.
    - intros Hc. destruct (Hdown x Hc) as [Hx Hxn]. destruct Hc as (_ & y & Hy & Es & En). split; [done|]. exists y. split; [apply Hall'; [done|lia]|done].
    - intros (Hx & y & Hy & Hs). split; [by apply (anc_trans db a a' x)|]. exists y. split; [by apply (anc_trans db b b' y)|done]. }
  destruct (common_loop_ok db Hf (S (S (Z.to_nat (number a')))) a' b' Ha' Hb' ltac:(lia) ltac:(lia)) as (r & -> & Hr). exists r. split; [done|].
  destruct r as [c|]; [destruct Hr as [Hc Hmax]; split; [by apply Hiff|intros x Hx; apply Hmax; by apply Hiff]|intros x Hx; apply (Hr x); by apply Hiff].
Qed.

(** ** Witnesses *)

Definition sample_tx : Transaction := NewTransaction 3 0x1234 (Some 10) (Some 21000) (Some 1) [Zbyte 1; Zbyte 2].
Definition sample_receipt : Receipt := mkReceipt [] 1 21000 zero_Bloom [mkLog 0x1234 [7; 8] [Zbyte 1; Zbyte 2] 5 9 0 11 0 false] 9 0 21000.
Definition sample_block : Block := mkBlock genesis [] [sample_tx] None None.
Lemma sample_storable : storable sample_block [sample_receipt].
Proof.
  split; [apply genesis_ok| |vm_compute; reflexivity| |vm_compute; reflexivity|done|vm_compute; reflexivity|apply NoDup_singleton| |].
  - split; [|done]. constructor; [|constructor]. split; [|done]. split; try done. by intros a [= <-].
  - constructor; [|constructor]. split; [by left; split; [|right]|]. split; [ranges|by constructor].
  - constructor; [|constructor]. apply rlpHash_range.
  - cbn [header sample_block]. rewrite genesis_hash_ok. discriminate.
Qed.
Lemma chain_readback_witness : let h := Header_Hash genesis in
  ∃ db', write_all sample_block [sample_receipt] ∅ = (db', Val tt) ∧ GetBlock db' h 0 = Some (mkBlock genesis [] [decoded sample_tx] None None) ∧
    GetBlockReceipts db' h 0 = [sample_receipt] ∧ GetTransaction db' (tx_hash sample_tx) = Val (Some (decoded sample_tx), h, 0, 0).
Proof.
  cbv zeta. destruct (chain_readback sample_block [sample_receipt] ∅ sample_storable) as (db' & E & EB & _ & ER & ET & _). exists db'.
  split_and!; [done|exact EB|exact ER|]. exact (proj1 (ET 0%nat sample_tx eq_refl)).
Defined.
Lemma DeleteBlock_exact_witness : let db := <[key (KHeader 5 7) := [Byte.x01]]> (<[key (KCanonical 7) := Hash_Bytes 5]> ∅) in
  ∃ db', DeleteBlock 5 7 db = (db', Val tt) ∧ GetBlock db' 5 7 = None ∧ get (key (KCanonical 7)) db' = Hash_Bytes 5.
Proof.
  cbv zeta. destruct (DeleteBlock_exact 5 7 (<[key (KHeader 5 7) := [Byte.x01]]> (<[key (KCanonical 7) := Hash_Bytes 5]> ∅))) as (db' & E & EB & _ & _ & _ & Ho); [done|done|].
  exists db'. split_and!; [exact E|exact EB|]. rewrite Ho; [vm_compute; reflexivity|done|set_solver].
Defined.
Definition fork_a : Header := child 1.
Definition fork_b : Header := child 2.
Definition fork_db : Store := (chaindb.WriteHeader fork_b (chaindb.WriteHeader fork_a (chaindb.WriteHeader genesis ∅).1).1).1.
Lemma FindCommonAncestor_last_witness : filed fork_db ∧ ∃ r, FindCommonAncestor fork_db fork_a fork_b = Val r ∧
    match r with
    | Some c => common fork_db fork_a fork_b c ∧ ∀ x, common fork_db fork_a fork_b x → number x ≤ number c
    | None => ∀ x, ¬ common fork_db fork_a fork_b x
    end.
Proof.
  assert (header_ok fork_a) as Ha by (apply child_ok; vm_compute; reflexivity).
  assert (header_ok fork_b) as Hb by (apply child_ok; vm_compute; reflexivity).
  assert (number fork_a < MaxUint64 ∧ number fork_b < MaxUint64) as [Na Nb] by (split; vm_compute; reflexivity).
  assert (filed fork_db) as Hf.
  { apply filed_WriteHeader; [|done|done]. apply filed_WriteHeader; [|done|done]. apply filed_WriteHeader; [apply filed_empty|apply genesis_ok|vm_compute; reflexivity]. }
  split; [exact Hf|]. apply FindCommonAncestor_last; [exact Hf|split; [apply Ha|done]|split; [apply Hb|done]].
Defined.
