(* ===== verification/HeaderChain.v ===== *)
(** * The header chain

    [src/blockchain/headerchain.go]: the tree of headers in the database, the
    canonical chain through it, and the caches in front of it.  The LRU caches
    are a library; the coin that is tossed between heads of equal difficulty is
    an argument.  Logging, the configuration and the verification of seals by
    the consensus engine are not modelled. *)

From stdpp Require Import base tactics list numbers gmap.
From S2P Require Import Prelude GoMath RlpEncode RlpDecode RlpRecord RlpCodec Keccak Trie TrieMap TxTypes BlockTypes ChainDb.

#[local] Open Scope Z_scope.

(** [github.com/hashicorp/golang-lru], with hashes as keys. *)
Class Lru (C : Type → Type) : Type := {
  lru_New {V} : Z → C V;
  lru_Get {V} : Z → C V → C V * option V;
  lru_Contains {V} : Z → C V → bool;
  lru_Add {V} : Z → V → C V → C V;
  lru_Purge {V} : C V → C V }.

Module headerchain.
Import rlp types blocks chaindb.
Abbreviation Hash := GoMath.Hash (only parsing).

Definition headerCacheLimit : Z := 512.
Definition tdCacheLimit : Z := 1024.
Definition numberCacheLimit : Z := 2048.

Inductive chain_error : Type := ErrUnknownAncestor | errNoGenesis | errNonContiguous | errAborted | errWrite (e : rlp_error).
Inductive WriteStatus : Type := NonStatTy | CanonStatTy | SideStatTy.

Section chain.
Context {C : Type → Type} `{lru : Lru C}.

Record HeaderChain : Type := mkHC {
  chainDb : Store;
  genesisHeader : option Header;
  currentHeader : option Header;
  currentHeaderHash : Hash;
  headerCache : C Header;
  tdCache : C Z;
  numberCache : C Z }.
Definition set_chainDb (x : Store) (hc : HeaderChain) : HeaderChain :=
  mkHC x (genesisHeader hc) (currentHeader hc) (currentHeaderHash hc) (headerCache hc) (tdCache hc) (numberCache hc).
Definition set_genesisHeader (x : option Header) (hc : HeaderChain) : HeaderChain :=
  mkHC (chainDb hc) x (currentHeader hc) (currentHeaderHash hc) (headerCache hc) (tdCache hc) (numberCache hc).
Definition set_currentHeader (x : option Header) (hc : HeaderChain) : HeaderChain :=
  mkHC (chainDb hc) (genesisHeader hc) x (currentHeaderHash hc) (headerCache hc) (tdCache hc) (numberCache hc).
Definition set_currentHeaderHash (x : Hash) (hc : HeaderChain) : HeaderChain :=
  mkHC (chainDb hc) (genesisHeader hc) (currentHeader hc) x (headerCache hc) (tdCache hc) (numberCache hc).
Definition set_headerCache (x : C Header) (hc : HeaderChain) : HeaderChain :=
  mkHC (chainDb hc) (genesisHeader hc) (currentHeader hc) (currentHeaderHash hc) x (tdCache hc) (numberCache hc).
Definition set_tdCache (x : C Z) (hc : HeaderChain) : HeaderChain :=
  mkHC (chainDb hc) (genesisHeader hc) (currentHeader hc) (currentHeaderHash hc) (headerCache hc) x (numberCache hc).
Definition set_numberCache (x : C Z) (hc : HeaderChain) : HeaderChain :=
  mkHC (chainDb hc) (genesisHeader hc) (currentHeader hc) (currentHeaderHash hc) (headerCache hc) (tdCache hc) x.

Abbreviation H := (M HeaderChain chain_error).

(** An operation on the database; its errors come from the encoding. *)
Definition on_db (w : W unit) : H unit := λ hc,
  match w (chainDb hc) with
  | (db, Val _) => (set_chainDb db hc, Val tt)
  | (db, Err e) => (set_chainDb db hc, Err (errWrite e))
  | (db, Panic) => (set_chainDb db hc, Panic)
  | (db, NoFuel) => (set_chainDb db hc, NoFuel)
  end.
(** [log.Crit] ends the process. *)
Definition crit (w : W unit) : H unit := λ hc,
  match on_db w hc with
  | (hc, Err _) => (hc, Panic)
  | r => r
  end.

Definition hc_GetBlockNumber (hash : Hash) : H Z := λ hc,
  let '(cache, cached) := lru_Get hash (numberCache hc) in
  let hc := set_numberCache cache hc in
  match cached with
  | Some n => (hc, Val n)
  | None =>
      let number := GetBlockNumber (chainDb hc) hash in
      if negb (number =? missingNumber) then (set_numberCache (lru_Add hash number (numberCache hc)) hc, Val number)
      else (hc, Val number)
  end.
Definition hc_GetTd (hash number : Z) : H (option Z) := λ hc,
  let '(cache, cached) := lru_Get hash (tdCache hc) in
  let hc := set_tdCache cache hc in
  match cached with
  | Some td => (hc, Val (Some td))
  | None =>
      match GetTd (chainDb hc) hash number with
      | None => (hc, Val None)
      | Some td => (set_tdCache (lru_Add hash td (tdCache hc)) hc, Val (Some td))
      end
  end.
Definition hc_GetTdByHash (hash : Hash) : H (option Z) := n ← hc_GetBlockNumber hash; hc_GetTd hash n.
Definition hc_WriteTd (hash number td : Z) : H unit :=
  on_db (WriteTd hash number td);;
  modify (λ hc, set_tdCache (lru_Add hash td (tdCache hc)) hc).
Definition hc_GetHeader (hash number : Z) : H (option Header) := λ hc,
  let '(cache, cached) := lru_Get hash (headerCache hc) in
  let hc := set_headerCache cache hc in
  match cached with
  | Some header => (hc, Val (Some header))
  | None =>
      match GetHeader (chainDb hc) hash number with
      | None => (hc, Val None)
      | Some header => (set_headerCache (lru_Add hash header (headerCache hc)) hc, Val (Some header))
      end
  end.
Definition hc_GetHeaderByHash (hash : Hash) : H (option Header) := n ← hc_GetBlockNumber hash; hc_GetHeader hash n.
Definition hc_HasHeader (hash number : Z) : H bool := λ hc,
  if lru_Contains hash (numberCache hc) || lru_Contains hash (headerCache hc) then (hc, Val true)
  else (hc, Val (db_Has (headerKey hash number) (chainDb hc))).
Definition hc_GetHeaderByNumber (number : Z) : H (option Header) := λ hc,
  let hash := GetCanonicalHash (chainDb hc) number in
  if hash =? 0 then (hc, Val None) else hc_GetHeader hash number hc.

(** ** WriteHeader *)

(** Canonical numbers above the new head, from [i]; every round deletes an
    entry. *)
Fixpoint delete_above (fuel : nat) (i : Z) : H unit :=
  match fuel with
  | O => λ hc, (hc, NoFuel)
  | S fuel =>
      hash ← gets (λ hc, GetCanonicalHash (chainDb hc) i);
      if hash =? 0 then mret tt
      else on_db (DeleteCanonicalHash i);; delete_above fuel (u64 (i + 1))
  end.
(** Stale canonical assignments below the new head; every round goes to the
    parent. *)
Fixpoint overwrite_below (fuel : nat) (headHash headNumber : Z) (headHeader : option Header) : H unit :=
  match fuel with
  | O => λ hc, (hc, NoFuel)
  | S fuel =>
      hash ← gets (λ hc, GetCanonicalHash (chainDb hc) headNumber);
      if negb (hash =? headHash) then
        on_db (WriteCanonicalHash headHash headNumber);;
        header ← or_panic headHeader;
        let headHash := ParentHash header in
        let headNumber := u64 (big_Uint64 (Number header) - 1) in
        headHeader ← hc_GetHeader headHash headNumber;
        overwrite_below fuel headHash headNumber headHeader
      else mret tt
  end.
(** An error here ends the process as well. *)
Definition critH (m : H unit) : H unit := λ hc,
  match m hc with
  | (hc, Err _) => (hc, Panic)
  | r => r
  end.
(** The part that makes [header] the head. *)
Definition reroute (header : Header) : H unit :=
  let hash := Header_Hash header in
  let number := big_Uint64 (Number header) in
  n ← gets (λ hc, size (chainDb hc));
  delete_above (S n) (u64 (number + 1));;
  let headHash := ParentHash header in
  let headNumber := u64 (number - 1) in
  headHeader ← hc_GetHeader headHash headNumber;
  overwrite_below (S (Z.to_nat number)) headHash headNumber headHeader;;
  crit (WriteCanonicalHash hash number);;
  crit (WriteHeadHeaderHash hash);;
  modify (λ hc, set_currentHeaderHash hash (set_currentHeader (Some header) hc)).
(** [coin] is [mrand.Float64() < 0.5]. *)
Definition hc_WriteHeader (coin : bool) (header : Header) : H WriteStatus :=
  let hash := Header_Hash header in
  let number := big_Uint64 (Number header) in
  ptd ← hc_GetTd (ParentHash header) (u64 (number - 1));
  match ptd with
  | None => fail ErrUnknownAncestor
  | Some ptd =>
      current ← gets currentHeader;
      current ← or_panic current;
      currentHash ← gets currentHeaderHash;
      localTd ← hc_GetTd currentHash (big_Uint64 (Number current));
      let externTd := Difficulty header + ptd in
      critH (hc_WriteTd hash number externTd);;
      crit (chaindb.WriteHeader header);;
      localTd ← or_panic localTd;
      status ← (if (big_Cmp externTd localTd >? 0) || (big_Cmp externTd localTd =? 0) && coin then reroute header;; mret CanonStatTy
                else mret SideStatTy);
      modify (λ hc, set_headerCache (lru_Add hash header (headerCache hc)) hc);;
      modify (λ hc, set_numberCache (lru_Add hash number (numberCache hc)) hc);;
      mret status
  end.

(** ** Chains of headers *)

(** [chain\[i\]] against [chain\[i-1\]], for all [i]. *)
Fixpoint contiguous (prev : Header) (chain : list Header) : bool :=
  match chain with
  | [] => true
  | h :: chain =>
      negb (negb (big_Uint64 (Number h) =? u64 (big_Uint64 (Number prev) + 1)) || negb (ParentHash h =? Header_Hash prev)) && contiguous h chain
  end.
(** The indexes whose seals are verified: one of each group, chosen by [rand],
    and the last. *)
Definition seal_indexes (n checkFreq : Z) (rand : Z → Z) : list Z :=
  ((λ i, let index := Z.of_nat i * checkFreq + rand (Z.of_nat i) in if index >=? n then n - 1 else index) <$> seq 0 (Z.to_nat (n / checkFreq))) ++ [n - 1].
(** The results of the engine, one for each header; [interrupted] is the flag
    at each round.  The loop waits for a result that does not come. *)
Fixpoint check_results {E} (interrupted : nat → bool) (results : list (option E)) (i todo : nat) : outcome (Z * (chain_error + E)) Z :=
  match todo with
  | O => Val 0
  | S todo =>
      if interrupted i then Err (0, inl errAborted)
      else match results !! i with
           | Some (Some e) => Err (Z.of_nat i, inr e)
           | Some None => check_results interrupted results (S i) todo
           | None => NoFuel
           end
  end.
(** [verify] is the consensus engine; an error comes with the index. *)
Definition ValidateHeaderChain {E} (verify : list Header → list Z → list (option E)) (rand : Z → Z) (interrupted : nat → bool)
    (chain : list Header) (checkFreq : Z) : outcome (Z * (chain_error + E)) Z :=
  if negb match chain with [] => true | h :: rest => contiguous h rest end then Err (0, inl errNonContiguous)
  else if (checkFreq =? 0) || (Zlen chain =? 0) then Panic
  else check_results interrupted (verify chain (seal_indexes (Zlen chain) checkFreq rand)) 0 (length chain).
(** [writeHeader] is the callback. *)
Fixpoint insert_loop (writeHeader : Header → H unit) (interrupted : nat → bool) (i : nat) (chain : list Header) : M HeaderChain (Z * chain_error) unit :=
  match chain with
  | [] => mret tt
  | header :: chain =>
      if interrupted i then fail (Z.of_nat i, errAborted)
      else λ hc,
        match (known ← hc_HasHeader (Header_Hash header) (big_Uint64 (Number header));
               if known : bool then mret tt else writeHeader header) hc with
        | (hc, Val _) => insert_loop writeHeader interrupted (S i) chain hc
        | (hc, Err e) => (hc, Err (Z.of_nat i, e))
        | (hc, Panic) => (hc, Panic)
        | (hc, NoFuel) => (hc, NoFuel)
        end
  end.
(** The report looks at the last header. *)
Definition InsertHeaderChain (writeHeader : Header → H unit) (interrupted : nat → bool) (chain : list Header) : M HeaderChain (Z * chain_error) Z :=
  insert_loop writeHeader interrupted 0 chain;;
  if Zlen chain =? 0 then panic else mret 0.

Fixpoint hashes_loop (max : nat) (header : Header) : H (list Hash) :=
  match max with
  | O => mret []
  | S max =>
      let next := ParentHash header in
      h ← hc_GetHeader next (u64 (big_Uint64 (Number header) - 1));
      match h with
      | None => mret []
      | Some h =>
          if big_Sign (Number h) =? 0 then mret [next]
          else rest ← hashes_loop max h; mret (next :: rest)
      end
  end.
Definition GetBlockHashesFromHash (hash max : Z) : H (list Hash) :=
  h ← hc_GetHeaderByHash hash;
  match h with
  | None => mret []
  | Some h => hashes_loop (Z.to_nat max) h
  end.

(** ** The head *)

Definition SetCurrentHeader (head : Header) : H unit :=
  crit (WriteHeadHeaderHash (Header_Hash head));;
  modify (λ hc, set_currentHeaderHash (Header_Hash head) (set_currentHeader (Some head) hc)).

(** [delFn] is the callback of the block chain, on its part of the database. *)
Fixpoint rewind_loop (fuel : nat) (head : Z) (delFn : Z → Z → W unit) : H unit :=
  match fuel with
  | O => λ hc, (hc, NoFuel)
  | S fuel =>
      current ← gets currentHeader;
      match current with
      | None => mret tt
      | Some h =>
          if big_Uint64 (Number h) >? head then
            let hash := Header_Hash h in
            let num := big_Uint64 (Number h) in
            on_db (delFn hash num);;
            on_db (DeleteHeader hash num);;
            on_db (DeleteTd hash num);;
            parent ← hc_GetHeader (ParentHash h) (u64 (num - 1));
            modify (set_currentHeader parent);;
            rewind_loop fuel head delFn
          else mret tt
      end
  end.
(** [for i := height; i > head; i--]. *)
Definition delete_numbers (height head : Z) : H unit :=
  (fix loop (n : nat) (i : Z) : H unit :=
    match n with
    | O => mret tt
    | S n => on_db (DeleteCanonicalHash i);; loop n (i - 1)
    end) (Z.to_nat (height - head)) height.
Definition SetHead (head : Z) (delFn : Z → Z → W unit) : H unit :=
  current ← gets currentHeader;
  let height := match current with Some h => big_Uint64 (Number h) | None => 0 end in
  rewind_loop (S (Z.to_nat height)) head delFn;;
  delete_numbers height head;;
  modify (λ hc, set_headerCache (lru_Purge (headerCache hc)) hc);;
  modify (λ hc, set_tdCache (lru_Purge (tdCache hc)) hc);;
  modify (λ hc, set_numberCache (lru_Purge (numberCache hc)) hc);;
  current ← gets currentHeader;
  genesis ← gets genesisHeader;
  modify (set_currentHeader (match current with Some h => Some h | None => genesis end));;
  current ← gets currentHeader;
  current ← or_panic current;
  modify (set_currentHeaderHash (Header_Hash current));;
  crit (WriteHeadHeaderHash (Header_Hash current)).

Definition NewHeaderChain (db : Store) : outcome chain_error HeaderChain :=
  let hc := mkHC db None None 0 (lru_New headerCacheLimit) (lru_New tdCacheLimit) (lru_New numberCacheLimit) in
  match hc_GetHeaderByNumber 0 hc with
  | (hc, Val (Some genesis)) =>
      let hc := set_currentHeader (Some genesis) (set_genesisHeader (Some genesis) hc) in
      let head := GetHeadBlockHash db in
      let '(hc, current) :=
        if negb (head =? 0) then
          match hc_GetHeaderByHash head hc with
          | (hc, Val (Some chead)) => (hc, chead)
          | (hc, _) => (hc, genesis)
          end
        else (hc, genesis) in
      Val (set_currentHeaderHash (Header_Hash current) (set_currentHeader (Some current) hc))
  | _ => Err errNoGenesis
  end.
Definition SetGenesis (head : Header) : H unit := modify (set_genesisHeader (Some head)).
End chain.
#[global] Arguments HeaderChain : clear implicits.
End headerchain.
