(* ===== verification/HeaderChainFacts.v ===== *)
(** * Facts about the header chain *)

From stdpp Require Import base tactics list numbers gmap.
From S2P Require Import Prelude GoMath RlpEncode RlpDecode RlpEncodeFacts RlpStream RlpSound RlpComplete RlpRaw RlpRecord RlpCodec Keccak KeccakFacts KeccakProps.
From S2P Require Import Trie TrieMap TxTypes TxFacts BlockTypes BlockFacts ChainDb ChainDbFacts HeaderChain.

#[local] Open Scope Z_scope.
Import rlp rlpd types blocks chaindb headerchain.
#[local] Opaque keccak.hash256 keccak256.

(** What an LRU cache promises: it holds a part of what was added. *)
Class LruLaws (C : Type → Type) `{!Lru C} : Type := {
  content {V} : C V → gmap Z V;
  content_New {V} n : content (lru_New n : C V) = ∅;
  content_Get {V} k (c : C V) : (lru_Get k c).2 = content c !! k ∧ content (lru_Get k c).1 = content c;
  content_Contains {V} k (c : C V) : lru_Contains k c = bool_decide (is_Some (content c !! k));
  content_Add {V} k v (c : C V) : content (lru_Add k v c) ⊆ <[k := v]> (content c);
  content_Purge {V} (c : C V) : content (lru_Purge c) = ∅ }.

(** The fields of a chain after an update. *)
Ltac hc_simpl := cbn [set_chainDb set_headerCache set_tdCache set_numberCache set_currentHeader set_currentHeaderHash set_genesisHeader
  chainDb genesisHeader currentHeader currentHeaderHash headerCache tdCache numberCache] in *.

(** ** Views of the database *)

Abbreviation hash := Header_Hash.
Definition stored (db : Store) (x : Header) : Prop := GetHeader db (hash x) (number x) = Some x.
Definition td_of (db : Store) (x : Header) : option Z := GetTd db (hash x) (number x).
Definition canon (db : Store) (n : Z) : Z := GetCanonicalHash db n.
Definition td_small (t : Z) : Prop := 0 ≤ t ∧ Zlen (c_enc c_big t) < 2 ^ 63.

(** The entries of the canonical chain. *)
Definition canonical_entry (e : entry) : Prop := match e with KCanonical _ | KHeadHeader => True | _ => False end.
Definition same_tree (db db' : Store) : Prop := ∀ e, entry_ok e → ¬ canonical_entry e → get (key e) db' = get (key e) db.
#[global] Instance same_tree_po : PreOrder same_tree.
Proof. split; [by intros db e|]. intros d1 d2 d3 H1 H2 e He Hc. by rewrite H2, H1. Qed.
Lemma same_tree_put db e v : entry_ok e → canonical_entry e → same_tree db (db_Put (key e) v db).
Proof. intros He Hc e' He' Hc'. rewrite get_put by done. rewrite decide_False; [done|]. by intros ->. Qed.
Lemma same_tree_delete db e : entry_ok e → canonical_entry e → same_tree db (db_Delete (key e) db).
Proof. intros He Hc e' He' Hc'. rewrite get_delete by done. rewrite decide_False; [done|]. by intros ->. Qed.

Lemma entry_header_ok x : entry_ok (KHeader (hash x) (number x)).
Proof. split; [apply Header_Hash_range|apply number_u64]. Qed.
Section same_tree.
Context (db db' : Store) (Hs : same_tree db db').
Lemma same_GetHeader h n : is_hash h → is_u64 n → GetHeader db' h n = GetHeader db h n.
Proof. intros Hh Hn. apply GetHeader_same, Hs; [by split|by intros []]. Qed.
Lemma same_stored x : stored db' x ↔ stored db x.
Proof. unfold stored. rewrite same_GetHeader; [done|apply Header_Hash_range|apply number_u64]. Qed.
Lemma same_GetTd h n : is_hash h → is_u64 n → GetTd db' h n = GetTd db h n.
Proof. intros Hh Hn. unfold GetTd. change (tdKey h n) with (key (KTd h n)). rewrite Hs; [done|by split|by intros []]. Qed.
Lemma same_td_of x : td_of db' x = td_of db x.
Proof. apply same_GetTd; [apply Header_Hash_range|apply number_u64]. Qed.
Lemma same_parent x : c_ok c_Header x → parent_of db' x = parent_of db x.
Proof. intros Hx. apply same_GetHeader; [by apply ParentHash_range|apply u64_range]. Qed.
Lemma same_filed : filed db → filed db'.
Proof. intros Hf h n x Hh Hn E. rewrite same_GetHeader in E by done. by apply Hf. Qed.
Lemma same_anc a x : filed db → header_in_range a → anc db a x → anc db' a x.
Proof.
  intros Hf Ha H. induction H as [a|a p x Hp Hx IH]; [constructor|]. apply (anc_step _ _ p); [by rewrite same_parent by apply Ha|].
  apply IH. by apply (parent_spec db Hf a p).
Qed.
Lemma same_number h : is_hash h → GetBlockNumber db' h = GetBlockNumber db h.
Proof. intros Hh. unfold GetBlockNumber. change (blockHashKey h) with (key (KNumber h)). rewrite Hs; [done|done|by intros []]. Qed.
End same_tree.

Lemma canon_put db n h m : is_hash h → is_u64 n → is_u64 m → canon (db_Put (key (KCanonical n)) (Hash_Bytes h) db) m = if decide (m = n) then h else canon db m.
Proof.
  intros Hh Hn Hm. unfold canon, GetCanonicalHash. change (canonicalKey m) with (key (KCanonical m)). rewrite get_hash_put by done.
  destruct (decide (m = n)) as [->|Hne]; [by rewrite decide_True|]. rewrite decide_False; [done|]. by intros [= ->].
Qed.
Lemma canon_delete db n m : is_u64 n → is_u64 m → canon (db_Delete (key (KCanonical n)) db) m = if decide (m = n) then 0 else canon db m.
Proof.
  intros Hn Hm. unfold canon, GetCanonicalHash, get_hash. change (canonicalKey m) with (key (KCanonical m)). rewrite get_delete by done.
  destruct (decide (m = n)) as [->|Hne]; [by rewrite decide_True|]. rewrite decide_False; [done|]. by intros [= ->].
Qed.
Lemma canon_put_other db e v m : entry_ok e → (∀ n, e ≠ KCanonical n) → is_u64 m → canon (db_Put (key e) v db) m = canon db m.
Proof.
  intros He Hne Hm. unfold canon, GetCanonicalHash, get_hash. change (canonicalKey m) with (key (KCanonical m)). rewrite get_put by done.
  rewrite decide_False; [done|]. intros <-. by eapply Hne.
Qed.

(** ** Invariants *)

Section invariants.
(** The headers that occur, and what is assumed of their hashes. *)
Context (known : Header → Prop).
Definition hashes_ok : Prop := (∀ x y, known x → known y → hash x = hash y → x = y) ∧ (∀ x, known x → hash x ≠ 0).
Context (Hk : hashes_ok).

Record db_ok (db : Store) : Prop := {
  dk_filed : filed db;
  dk_known x : stored db x → known x;
  dk_number x : stored db x → GetBlockNumber db (hash x) = number x;
  dk_number_back h : is_hash h → GetBlockNumber db h ≠ missingNumber → ∃ x, stored db x ∧ hash x = h ∧ number x = GetBlockNumber db h;
  dk_td h n t : is_hash h → is_u64 n → GetTd db h n = Some t → ∃ x, stored db x ∧ hash x = h ∧ number x = n }.

Lemma stored_range db x : db_ok db → stored db x → header_in_range x.
Proof.
  intros Hd Hx. destruct (dk_filed db Hd _ _ _ (Header_Hash_range x) (number_u64 x) Hx) as (Hok & _ & _ & Hlt). by split.
Qed.
Lemma stored_known_eq db x y : db_ok db → stored db x → stored db y → hash x = hash y → x = y.
Proof. intros Hd Hx Hy. apply Hk; by apply (dk_known db Hd). Qed.
Lemma parent_stored db a p : db_ok db → header_in_range a → parent_of db a = Some p → stored db p.
Proof.
  intros Hd Ha Ep. destruct (parent_spec db (dk_filed db Hd) a p Ha Ep) as (_ & H1 & En & Eh). unfold stored. rewrite Eh, En.
  rewrite <- Ep. unfold parent_of. fold (number a). rewrite u64_small; [done|]. pose proof (number_u64 a). unfold is_u64 in *. lia.
Qed.
Lemma anc_stored db a x : db_ok db → stored db a → anc db a x → stored db x.
Proof.
  intros Hd Ha H. induction H as [a|a p x Hp Hx IH]; [done|]. apply IH. eapply parent_stored; [done| |done]. by eapply stored_range.
Qed.
Lemma same_db_ok db db' : same_tree db db' → db_ok db → db_ok db'.
Proof.
  intros Hs Hd. split.
  - by apply (same_filed db db' Hs), Hd.
  - intros x Hx. apply (dk_known db Hd). by apply (same_stored db db' Hs).
  - intros x Hx. rewrite (same_number db db' Hs) by apply Header_Hash_range. apply (dk_number db Hd). by apply (same_stored db db' Hs).
  - intros h Hh Hn. rewrite (same_number db db' Hs) in * by done. destruct (dk_number_back db Hd h Hh Hn) as (x & Hx & Ex). exists x. split; [by apply (same_stored db db' Hs)|done].
  - intros h n t Hh Hn E. rewrite (same_GetTd db db' Hs) in E by done. destruct (dk_td db Hd h n t Hh Hn E) as (x & Hx & Ex). exists x. split; [by apply (same_stored db db' Hs)|done].
Qed.

(** Every header but the genesis header [g] has its parent, and its total
    difficulty is that of the parent and its own. *)
Record tree_ok (db : Store) (g : Header) : Prop := {
  tr_genesis : stored db g ∧ number g = 0 ∧ is_Some (td_of db g);
  tr_parent x : stored db x → x ≠ g → ∃ p t, parent_of db x = Some p ∧ td_of db p = Some t ∧ td_of db x = Some (Difficulty x + t) }.
Lemma tree_td db g x : db_ok db → tree_ok db g → stored db x → is_Some (td_of db x).
Proof.
  intros Hd Ht Hx. destruct (decide (hash x = hash g)) as [E|E].
  - rewrite (stored_known_eq db x g Hd Hx (proj1 (tr_genesis _ _ Ht)) E). apply (tr_genesis _ _ Ht).
  - destruct (tr_parent _ _ Ht x Hx) as (p & t & _ & _ & ->); [by intros ->|]. by eexists.
Qed.
Lemma tree_zero db g x : db_ok db → tree_ok db g → stored db x → number x = 0 → x = g.
Proof.
  intros Hd Ht Hx H0. destruct (decide (hash x = hash g)) as [E|E]; [exact (stored_known_eq db x g Hd Hx (proj1 (tr_genesis _ _ Ht)) E)|].
  destruct (tr_parent _ _ Ht x Hx) as (p & t & Ep & _); [by intros ->|].
  destruct (parent_spec db (dk_filed db Hd) x p) as (_ & H1 & _); [by eapply stored_range|done|lia].
Qed.

(** The canonical chain is the chain of the head [c]. *)
Record canon_ok (db : Store) (c : Header) : Prop := {
  cn_stored : stored db c;
  cn_chain n : is_u64 n → n ≤ number c → ∃ x, anc db c x ∧ number x = n ∧ canon db n = hash x;
  cn_above n : is_u64 n → number c < n → canon db n = 0 }.

(** The head has the greatest total difficulty. *)
Definition best (db : Store) (c : Header) : Prop := ∀ x t, stored db x → td_of db x = Some t → ∃ tc, td_of db c = Some tc ∧ t ≤ tc.

Section caches.
Context {C : Type → Type} `{laws : LruLaws C}.

Record caches_ok (hc : HeaderChain C) : Prop := {
  ch_header k x : content (headerCache hc) !! k = Some x → stored (chainDb hc) x ∧ hash x = k;
  ch_td k t : content (tdCache hc) !! k = Some t → ∃ x, stored (chainDb hc) x ∧ hash x = k ∧ td_of (chainDb hc) x = Some t;
  ch_number k n : content (numberCache hc) !! k = Some n → ∃ x, stored (chainDb hc) x ∧ hash x = k ∧ number x = n }.

(** Only the caches differ. *)
Definition same_chain (hc hc' : HeaderChain C) : Prop :=
  chainDb hc' = chainDb hc ∧ genesisHeader hc' = genesisHeader hc ∧ currentHeader hc' = currentHeader hc ∧ currentHeaderHash hc' = currentHeaderHash hc.
#[global] Instance same_chain_po : PreOrder same_chain.
Proof. split; [done|]. intros h1 h2 h3 (A1 & A2 & A3 & A4) (B1 & B2 & B3 & B4). unfold same_chain. split_and!; congruence. Qed.

Lemma add_subset {V} k (v : V) (c : C V) k' v' : content (lru_Add k v c) !! k' = Some v' → k' = k ∧ v' = v ∨ content c !! k' = Some v'.
Proof.
  intros E. pose proof (lookup_weaken _ _ _ _ E (content_Add k v c)) as E'. apply lookup_insert_Some in E' as [[<- <-]|[_ E']]; [by left|by right].
Qed.

Lemma GetHeader_hit hc h n x : db_ok (chainDb hc) → caches_ok hc → is_hash h → is_u64 n → GetHeader (chainDb hc) h n = Some x →
  ∃ hc', hc_GetHeader h n hc = (hc', Val (Some x)) ∧ same_chain hc hc' ∧ caches_ok hc'.
Proof.
  intros Hd Hc Hh Hn E. destruct (dk_filed _ Hd _ _ _ Hh Hn E) as (_ & Eh & En & _). assert (stored (chainDb hc) x) as Hx by (unfold stored; by rewrite Eh, En).
  unfold hc_GetHeader. destruct (content_Get h (headerCache hc)) as [E1 E2]. destruct (lru_Get h (headerCache hc)) as [cache cached]. cbn [fst snd] in *.
  destruct cached as [x'|].
  - symmetry in E1. destruct (ch_header _ Hc h x' E1) as [Hx' Eh']. rewrite (stored_known_eq _ x' x Hd Hx' Hx ltac:(congruence)). eexists. split; [done|]. split; [done|].
    destruct Hc as [C1 C2 C3]. split; hc_simpl; [by rewrite E2|done|done].
  - cbn. rewrite E. eexists. split; [done|]. split; [done|]. destruct Hc as [C1 C2 C3]. split; hc_simpl; [|done|done].
    intros k y [[-> ->]|Hy]%add_subset; [done|]. rewrite E2 in Hy. by apply C1.
Qed.
Lemma GetTd_hit hc x t : db_ok (chainDb hc) → caches_ok hc → stored (chainDb hc) x → td_of (chainDb hc) x = Some t →
  ∃ hc', hc_GetTd (hash x) (number x) hc = (hc', Val (Some t)) ∧ same_chain hc hc' ∧ caches_ok hc'.
Proof.
  intros Hd Hc Hx E. unfold hc_GetTd. destruct (content_Get (hash x) (tdCache hc)) as [E1 E2]. destruct (lru_Get (hash x) (tdCache hc)) as [cache cached]. cbn [fst snd] in *.
  destruct cached as [t'|].
  - symmetry in E1. destruct (ch_td _ Hc _ t' E1) as (y & Hy & Ey & Ety). rewrite (stored_known_eq _ y x Hd Hy Hx Ey) in Ety. assert (t' = t) as -> by congruence.
    eexists. split; [done|]. split; [done|]. destruct Hc as [C1 C2 C3]. split; hc_simpl; [done|by rewrite E2|done].
  - cbn. unfold td_of in E. rewrite E. eexists. split; [done|]. split; [done|]. destruct Hc as [C1 C2 C3]. split; hc_simpl; [done| |done].
    intros k t' [[-> ->]|Hy]%add_subset; [by exists x|]. rewrite E2 in Hy. by apply C2.
Qed.
Lemma GetTd_miss hc h n : db_ok (chainDb hc) → caches_ok hc → is_hash h → is_u64 n → (∀ x, stored (chainDb hc) x → hash x ≠ h) →
  ∃ hc', hc_GetTd h n hc = (hc', Val None) ∧ same_chain hc hc' ∧ caches_ok hc'.
Proof.
  intros Hd Hc Hh Hn Hno. unfold hc_GetTd. destruct (content_Get h (tdCache hc)) as [E1 E2]. destruct (lru_Get h (tdCache hc)) as [cache cached]. cbn [fst snd] in *.
  destruct cached as [t'|]; [symmetry in E1; destruct (ch_td _ Hc _ t' E1) as (y & Hy & Ey & _); by destruct (Hno y Hy)|]. cbn.
  destruct (GetTd (chainDb hc) h n) as [t|] eqn:E; [destruct (dk_td _ Hd h n t Hh Hn E) as (y & Hy & Ey & _); by destruct (Hno y Hy)|].
  eexists. split; [done|]. split; [done|]. destruct Hc as [C1 C2 C3]. split; hc_simpl; [done|by rewrite E2|done].
Qed.
Lemma caches_same_tree hc db : caches_ok hc → same_tree (chainDb hc) db → caches_ok (set_chainDb db hc).
Proof.
  intros [C1 C2 C3] Hs. split; hc_simpl.
  - intros k x E. destruct (C1 k x E). split; [by apply (same_stored _ _ Hs)|done].
  - intros k t E. destruct (C2 k t E) as (x & ? & ? & ?). exists x. split_and!; [by apply (same_stored _ _ Hs)|done|by rewrite (same_td_of _ _ Hs)].
  - intros k n E. destruct (C3 k n E) as (x & ? & ? & ?). exists x. split_and!; [by apply (same_stored _ _ Hs)|done|done].
Qed.

(** ** Moving the head *)

Lemma size_delete_canon db n : canon db n ≠ 0 → (size (db_Delete (key (KCanonical n)) db) < size db)%nat.
Proof.
  intros Hn. unfold canon, GetCanonicalHash, get_hash, get, db_Get in Hn. change (canonicalKey n) with (key (KCanonical n)) in Hn.
  destruct (db !! key (KCanonical n)) as [v|] eqn:E; [|done]. unfold db_Delete. rewrite map_size_delete_Some by (rewrite E; by eexists).
  assert (size db ≠ 0%nat); [|lia]. intros H0%map_size_empty_inv. by rewrite H0, lookup_empty in E.
Qed.
Lemma delete_above_ok top fuel : top < MaxUint64 → ∀ i (hc : HeaderChain C), (size (chainDb hc) < fuel)%nat → is_u64 i →
  (∀ n, is_u64 n → top < n → canon (chainDb hc) n = 0) → (∀ n, is_u64 n → i ≤ n ≤ top → canon (chainDb hc) n ≠ 0) →
  ∃ db', delete_above fuel i hc = (set_chainDb db' hc, Val tt) ∧ same_tree (chainDb hc) db' ∧
    ∀ n, is_u64 n → canon db' n = if n <? i then canon (chainDb hc) n else 0.
Proof.
  intros Htop. induction fuel as [|fuel IH]; intros i hc Hsz Hi Habove Hin; [lia|]. cbn [delete_above]. unfold gets, mbind, M_bind.
  change (GetCanonicalHash (chainDb hc) i) with (canon (chainDb hc) i). destruct (Z.eqb_spec (canon (chainDb hc) i) 0) as [E0|E0].
  - exists (chainDb hc). split_and!; [by destruct hc|done|]. intros n Hn. destruct (Z.ltb_spec n i); [done|].
    destruct (Z.le_gt_cases n top) as [Hle|Hgt]; [|by apply Habove]. exfalso. apply (Hin i Hi); [lia|done].
  - assert (i ≤ top) as Hit by (destruct (Z.le_gt_cases i top); [done|by destruct E0; apply Habove]).
    assert (is_u64 (i + 1)) as Hi1 by (unfold is_u64, MaxUint64 in *; lia). rewrite u64_small by done.
    unfold on_db at 1, DeleteCanonicalHash, del, modify. change (canonicalKey i) with (key (KCanonical i)).
    set (db1 := db_Delete (key (KCanonical i)) (chainDb hc)). assert (∀ n, is_u64 n → canon db1 n = if decide (n = i) then 0 else canon (chainDb hc) n) as Hdel by (intros; by apply canon_delete).
    destruct (IH (i + 1) (set_chainDb db1 hc)) as (db' & E & Hs & Hc); cbn [chainDb set_chainDb].
    + pose proof (size_delete_canon (chainDb hc) i E0). unfold db1. lia.
    + done.
    + intros n Hn Hgt. rewrite Hdel by done. rewrite decide_False by lia. by apply Habove.
    + intros n Hn Hr. rewrite Hdel by done. rewrite decide_False by lia. apply Hin; [done|lia].
    + exists db'. split_and!; [exact E|etransitivity; [by apply (same_tree_delete _ (KCanonical i))|done]|]. intros n Hn. rewrite Hc by done. cbn [chainDb set_chainDb]. rewrite Hdel by done.
      case_decide; [subst; by rewrite (proj2 (Z.ltb_lt i (i + 1))), (proj2 (Z.ltb_ge i i)) by lia|].
      destruct (Z.ltb_spec n (i + 1)), (Z.ltb_spec n i); try done; lia.
Qed.

(** [chain_below db x n]: the canonical hash of [n] is that of the ancestor of
    [x] with that number. *)
Definition chain_below (db : Store) (x : Header) (n : Z) : Prop := ∃ y, anc db x y ∧ number y = n ∧ canon db n = hash y.
Lemma anc_unique db a x y : filed db → header_in_range a → anc db a x → anc db a y → number x = number y → x = y.
Proof.
  intros Hf Ha Hx. induction Hx as [a|a p x Hp Hx IH]; intros Hy En.
  - symmetry. by apply (anc_number db Hf a y).
  - destruct (parent_spec db Hf a p Ha Hp) as (Hr & H1 & Enp & _). destruct (anc_number db Hf p x Hx Hr) as (Hle & _ & _).
    destruct (anc_inv db a y Hy ltac:(lia)) as (p' & Ep' & Hy'). apply IH; [done|congruence|done].
Qed.
Lemma same_tree_ok db db' g : same_tree db db' → db_ok db → tree_ok db g → tree_ok db' g.
Proof.
  intros Hs Hd [(Hg & N0 & Td) Hp]. split.
  - split_and!; [by apply (same_stored _ _ Hs)|done|by rewrite (same_td_of _ _ Hs)].
  - intros x Hx Hne. apply (same_stored _ _ Hs) in Hx. destruct (Hp x Hx Hne) as (p & t & Ep & Et & Ex). exists p, t. rewrite !(same_td_of _ _ Hs).
    rewrite (same_parent _ _ Hs); [done|]. by apply (stored_range _ x Hd).
Qed.
Lemma chain_below_same db db' x n : same_tree db db' → filed db → header_in_range x → canon db' n = canon db n → chain_below db x n → chain_below db' x n.
Proof. intros Hs Hf Hx Ec (y & Hy & En & Ey). exists y. split_and!; [by apply (same_anc db)|done|congruence]. Qed.
Lemma anc_below db c x y : filed db → header_in_range c → anc db c x → anc db c y → number y ≤ number x → anc db x y.
Proof.
  intros Hf Hc Hx. induction Hx as [a|a p x Hp Hx IH]; intros Hy Hle; [done|]. destruct (parent_spec _ Hf a p Hc Hp) as (Hr & H1 & Enp & _).
  destruct (anc_number _ Hf p x Hx Hr) as (Hlx & _ & _). destruct (anc_inv _ a y Hy ltac:(lia)) as (p' & Ep' & Hy'). apply IH; [done|congruence|done].
Qed.
Lemma overwrite_ok g c fuel : ∀ x (hc : HeaderChain C), number x < Z.of_nat fuel → db_ok (chainDb hc) → tree_ok (chainDb hc) g → caches_ok hc → stored (chainDb hc) c → stored (chainDb hc) x →
  (∀ n, is_u64 n → n ≤ number x → n ≤ number c → chain_below (chainDb hc) c n) →
  (∀ n, is_u64 n → n ≤ number x → number c < n → canon (chainDb hc) n = 0) →
  ∃ hc', overwrite_below fuel (hash x) (number x) (Some x) hc = (hc', Val tt) ∧ same_tree (chainDb hc) (chainDb hc') ∧
    caches_ok hc' ∧ genesisHeader hc' = genesisHeader hc ∧
    (∀ n, is_u64 n → n ≤ number x → chain_below (chainDb hc') x n) ∧ (∀ n, is_u64 n → number x < n → canon (chainDb hc') n = canon (chainDb hc) n).
Proof.
  induction fuel as [|fuel IH]; intros x hc Hf Hd Ht Hca Hc Hx Hbelow Habove; [pose proof (number_u64 x) as []; lia|].
  pose proof (stored_range _ x Hd Hx) as Hrx. pose proof (stored_range _ c Hd Hc) as Hrc. pose proof (number_u64 x) as Hux. pose proof (dk_filed _ Hd) as Hfi.
  cbn [overwrite_below]. unfold gets at 1, mbind at 1, M_bind at 1. change (GetCanonicalHash (chainDb hc) (number x)) with (canon (chainDb hc) (number x)).
  destruct (Z.eqb_spec (canon (chainDb hc) (number x)) (hash x)) as [E|E]; cbn [negb].
  - assert (number x ≤ number c) as Hxc.
    { destruct (Z.le_gt_cases (number x) (number c)); [done|]. exfalso. rewrite Habove in E by (done || lia). symmetry in E. revert E. apply Hk. by apply (dk_known _ Hd). }
    assert (anc (chainDb hc) c x) as Hanc.
    { destruct (Hbelow (number x) Hux ltac:(lia) Hxc) as (y & Hy & En & Ey). rewrite (stored_known_eq _ x y Hd Hx); [done|exact (anc_stored _ c y Hd Hc Hy)|congruence]. }
    exists hc. split_and!; [done|done|done|done| |done]. intros n Hn Hle. destruct (Hbelow n Hn Hle ltac:(lia)) as (y & Hy & En & Ey). exists y. split_and!; [|done|done].
    apply (anc_below _ c); [done|done|done|done|lia].
  - assert (x ≠ g) as Hxg.
    { intros ->. destruct (tr_genesis _ _ Ht) as (Hg & N0 & _). pose proof (number_u64 c) as [Nc _]. destruct (Hbelow (number g) Hux ltac:(lia) ltac:(lia)) as (y & Hy & En & Ey).
      rewrite (tree_zero _ g y Hd Ht) in Ey; [done|exact (anc_stored _ c y Hd Hc Hy)|lia]. }
    destruct (tr_parent _ _ Ht x Hx Hxg) as (p & t & Ep & _). destruct (parent_spec _ Hfi x p Hrx Ep) as (Hrp & H1 & Enp & Ehp).
    pose proof (parent_stored _ x p Hd Hrx Ep) as Hp. pose proof (Header_Hash_range x) as Hhx.
    unfold on_db at 1, WriteCanonicalHash, put, modify, mbind at 1, M_bind at 1. change (canonicalKey (number x)) with (key (KCanonical (number x))).
    set (db1 := db_Put (key (KCanonical (number x))) (Hash_Bytes (hash x)) (chainDb hc)).
    assert (same_tree (chainDb hc) db1) as Hs1 by (by apply (same_tree_put _ (KCanonical (number x)))).
    assert (∀ n, is_u64 n → canon db1 n = if decide (n = number x) then hash x else canon (chainDb hc) n) as Hc1 by (intros; by apply canon_put).
    unfold or_panic, mbind at 1, M_bind at 1. cbv zeta.
    destruct (GetHeader_hit (set_chainDb db1 hc) (ParentHash x) (u64 (number x - 1)) p) as (hc2 & E2 & (D2 & G2 & _) & Hca2).
    { by apply (same_db_ok (chainDb hc)). } { by apply caches_same_tree. } { by apply ParentHash_range, Hrx. } { apply u64_range. }
    { cbn [chainDb set_chainDb]. rewrite (same_GetHeader _ _ Hs1); [exact Ep|by apply ParentHash_range, Hrx|apply u64_range]. }
    unfold mbind at 1, M_bind at 1. fold (number x). rewrite E2. rewrite u64_small by (unfold is_u64 in *; lia). rewrite <- Ehp, <- Enp.
    cbn [chainDb set_chainDb genesisHeader] in D2, G2.
    destruct (IH p hc2) as (hc' & E' & Hs' & Hca' & G' & Hb' & Ha').
    { lia. } { rewrite D2. by apply (same_db_ok (chainDb hc)). } { rewrite D2. by apply (same_tree_ok (chainDb hc)). } { done. }
    { rewrite D2. by apply (same_stored _ _ Hs1). } { rewrite D2. by apply (same_stored _ _ Hs1). }
    { intros n Hn Hle Hnc. rewrite D2. apply (chain_below_same (chainDb hc)); [done|done|done| |apply Hbelow; [done|lia|done]]. rewrite Hc1 by done. by rewrite decide_False by lia. }
    { intros n Hn Hle Hnc. rewrite D2, Hc1 by done. rewrite decide_False by lia. apply Habove; [done|lia|done]. }
    rewrite D2 in Hs', Ha'. exists hc'. split_and!; [done|by etransitivity|done|congruence| |].
    + intros n Hn Hle. destruct (decide (n = number x)) as [->|Hne].
      * exists x. split_and!; [constructor|done|]. rewrite Ha' by (done || lia). rewrite Hc1 by done. by rewrite decide_True.
      * destruct (Hb' n Hn ltac:(lia)) as (y & Hy & En & Ey). exists y. split_and!; [|done|done]. apply (anc_step _ _ p); [|done].
        rewrite (same_parent _ _ Hs'), (same_parent _ _ Hs1); [done|apply Hrx|apply Hrx].
    + intros n Hn Hlt. rewrite Ha' by (done || lia). rewrite Hc1 by done. by rewrite decide_False by lia.
Qed.

Lemma nonzero_canon db c n : db_ok db → canon_ok db c → is_u64 n → n ≤ number c → canon db n ≠ 0.
Proof.
  intros Hd [Hc Hch _] Hn Hle. destruct (Hch n Hn Hle) as (x & Hx & _ & ->). apply Hk, (dk_known _ Hd). exact (anc_stored _ c x Hd Hc Hx).
Qed.
Lemma on_db_put e v (hc : HeaderChain C) : crit (put (key e) v) hc = (set_chainDb (db_Put (key e) v (chainDb hc)) hc, Val tt).
Proof. done. Qed.
Lemma reroute_ok g c h (hc : HeaderChain C) : db_ok (chainDb hc) → tree_ok (chainDb hc) g → caches_ok hc → canon_ok (chainDb hc) c → stored (chainDb hc) h → h ≠ g →
  ∃ hc', reroute h hc = (hc', Val tt) ∧ same_tree (chainDb hc) (chainDb hc') ∧ caches_ok hc' ∧ genesisHeader hc' = genesisHeader hc ∧
    currentHeader hc' = Some h ∧ currentHeaderHash hc' = hash h ∧ canon_ok (chainDb hc') h.
Proof.
  intros Hd Ht Hca Hcn Hh Hhg. pose proof (dk_filed _ Hd) as Hfi. pose proof (stored_range _ h Hd Hh) as Hrh. pose proof (number_u64 h) as Huh.
  destruct Hcn as [Hc Hchain Habove]. pose proof (stored_range _ c Hd Hc) as Hrc.
  destruct (tr_parent _ _ Ht h Hh Hhg) as (p & t & Ep & _). destruct (parent_spec _ Hfi h p Hrh Ep) as (Hrp & H1 & Enp & Ehp).
  pose proof (parent_stored _ h p Hd Hrh Ep) as Hp. pose proof (proj2 Hrh) as Hm. unfold MaxUint64 in Hm.
  assert (is_u64 (number h + 1)) as Hu1 by (unfold is_u64 in *; lia). assert (is_u64 (number h - 1)) as Hu2 by (unfold is_u64 in *; lia).
  unfold reroute, gets, mbind at 1, M_bind at 1. fold (number h). rewrite (u64_small _ Hu1), (u64_small _ Hu2).
  destruct (delete_above_ok (number c) (S (size (chainDb hc))) (proj2 Hrc) (number h + 1) hc ltac:(lia) Hu1) as (db2 & E2 & Hs2 & Hc2); [done|intros n Hn Hr; apply (nonzero_canon _ c); [done|by split|done|lia]|].
  unfold mbind at 1, M_bind at 1. rewrite E2. clear E2.
  destruct (GetHeader_hit (set_chainDb db2 hc) (ParentHash h) (number h - 1) p) as (hc3 & E3 & (D3 & G3 & _) & Hca3).
  { by apply (same_db_ok (chainDb hc)). } { by apply caches_same_tree. } { by apply ParentHash_range, Hrh. } { done. }
  { cbn [chainDb set_chainDb]. rewrite (same_GetHeader _ _ Hs2); [|by apply ParentHash_range, Hrh|done]. rewrite <- Ep. unfold parent_of. fold (number h). by rewrite (u64_small _ Hu2). }
  unfold mbind at 1, M_bind at 1. rewrite E3. clear E3. cbn [chainDb set_chainDb genesisHeader] in D3, G3. rewrite <- Ehp, <- Enp.
  destruct (overwrite_ok g c (S (Z.to_nat (number h))) p hc3) as (hc4 & E4 & Hs4 & Hca4 & G4 & Hb4 & Ha4).
  { lia. } { rewrite D3. by apply (same_db_ok (chainDb hc)). } { rewrite D3. by apply (same_tree_ok (chainDb hc)). } { done. }
  { rewrite D3. by apply (same_stored _ _ Hs2). } { rewrite D3. by apply (same_stored _ _ Hs2). }
  { intros n Hn Hle Hnc. rewrite D3. apply (chain_below_same (chainDb hc)); [done|done|done| |by apply Hchain]. rewrite Hc2 by done. by rewrite (proj2 (Z.ltb_lt _ _)) by lia. }
  { intros n Hn Hle Hnc. rewrite D3, Hc2 by done. rewrite (proj2 (Z.ltb_lt _ _)) by lia. by apply Habove. }
  rewrite D3 in Hs4, Ha4. unfold mbind at 1, M_bind at 1. rewrite E4. clear E4. pose proof (Header_Hash_range h) as Hhr.
  unfold WriteCanonicalHash, WriteHeadHeaderHash, modify, mbind, M_bind. change (canonicalKey (number h)) with (key (KCanonical (number h))). change headHeaderKey with (key KHeadHeader).
  rewrite on_db_put, on_db_put. hc_simpl. eexists. split; [done|]. hc_simpl.
  set (db5 := db_Put (key (KCanonical (number h))) (Hash_Bytes (hash h)) (chainDb hc4)). set (db6 := db_Put (key KHeadHeader) (Hash_Bytes (hash h)) db5).
  assert (same_tree (chainDb hc4) db6) as Hs6 by (etransitivity; [by apply (same_tree_put _ (KCanonical (number h)))|by apply (same_tree_put db5 KHeadHeader)]).
  assert (same_tree (chainDb hc) db6) as Hs by (etransitivity; [done|]; by etransitivity).
  assert (∀ n, is_u64 n → canon db6 n = if decide (n = number h) then hash h else canon (chainDb hc4) n) as Hc6 by (intros n Hn; unfold db6; rewrite canon_put_other by done; by apply canon_put).
  split_and!; [done| |congruence|done|done|].
  { destruct (caches_same_tree hc4 db6 Hca4 Hs6) as [C1 C2 C3]. by split. }
  split; [by apply (same_stored _ _ Hs)| |].
  - intros n Hn Hle. destruct (decide (n = number h)) as [->|Hne]; [exists h; split_and!; [constructor|done|rewrite Hc6 by done; by rewrite decide_True]|].
    destruct (Hb4 n Hn ltac:(lia)) as (y & Hy & En & Ey). exists y. split_and!; [|done|rewrite Hc6 by done; by rewrite decide_False by done].
    apply (anc_step _ _ p); [rewrite (same_parent _ _ Hs); [done|apply Hrh]|]. apply (same_anc (chainDb hc4)); [done| |done|done].
    apply (same_filed db2); [done|]. by apply (same_filed (chainDb hc)).
  - intros n Hn Hlt. rewrite Hc6 by done. rewrite decide_False by lia. rewrite Ha4 by (done || lia). rewrite Hc2 by done. by rewrite (proj2 (Z.ltb_ge _ _)) by lia.
Qed.
End caches.
End invariants.
