(* ===== verification/HeaderChainSteps.v ===== *)
(** * Steps of the header chain

    What writing a header and going back do to the database and the caches. *)

From stdpp Require Import base tactics list numbers gmap.
From S2P Require Import Prelude GoMath RlpEncode RlpDecode RlpEncodeFacts RlpStream RlpSound RlpComplete RlpRaw RlpRecord RlpCodec Keccak KeccakFacts KeccakProps.
From S2P Require Import Trie TrieMap TxTypes TxFacts BlockTypes BlockFacts ChainDb ChainDbFacts HeaderChain HeaderChainFacts.

#[local] Open Scope Z_scope.
Import rlp rlpd types blocks chaindb headerchain.
#[local] Opaque keccak.hash256 keccak256.

(** ** A header and its total difficulty are written *)

Definition inserted (h : Header) (t : Z) (db : Store) : Store :=
  db_Put (key (KHeader (hash h) (number h))) (c_enc c_Header h)
    (db_Put (key (KNumber (hash h))) (encodeBlockNumber (number h)) (db_Put (key (KTd (hash h) (number h))) (c_enc c_big t) db)).

Section insert.
Context (known : Header → Prop) (Hk : hashes_ok known).
Context (db : Store) (Hd : db_ok known db) (h : Header) (t : Z).
Context (Hh : header_ok h) (Hm : number h < MaxUint64) (Hkn : known h) (Ht : td_small t).
#[local] Abbreviation db1 := (inserted h t db).

Lemma h_entries : entry_ok (KHeader (hash h) (number h)) ∧ entry_ok (KNumber (hash h)).
Proof. pose proof (Header_Hash_range h). pose proof (number_u64 h). done. Qed.
Lemma inserted_header hh n : is_hash hh → is_u64 n → GetHeader db1 hh n = if decide (hh = hash h ∧ n = number h) then Some h else GetHeader db hh n.
Proof.
  intros H1 H2. destruct h_entries as [Hok Hok']. assert (entry_ok (KHeader hh n)) as He by done. case_decide as E.
  - destruct E as [-> ->]. apply GetHeader_get; [done|]. unfold inserted. rewrite get_put by done. by rewrite decide_True.
  - apply GetHeader_same. unfold inserted. rewrite !get_put by done. rewrite !decide_False; [done|done|done|]. intros [= -> ->]. by apply E.
Qed.
Lemma inserted_stored y : stored db1 y ↔ stored db y ∨ y = h.
Proof.
  unfold stored. rewrite inserted_header by (apply Header_Hash_range || apply number_u64). case_decide as E; split.
  - intros [= <-]. by right.
  - intros [Hy| ->]; [|done]. f_equal. apply Hk; [done|by apply (dk_known _ _ Hd)|by destruct E].
  - intros Hy. by left.
  - intros [Hy| ->]; [done|]. by destruct E.
Qed.
Lemma inserted_td hh n : is_hash hh → is_u64 n → GetTd db1 hh n = if decide (hh = hash h ∧ n = number h) then Some t else GetTd db hh n.
Proof.
  intros H1 H2. destruct h_entries as [Hok Hok']. assert (entry_ok (KTd hh n)) as He by done. assert (entry_ok (KTd (hash h) (number h))) as He' by done. case_decide as E.
  - destruct E as [-> ->]. apply GetTd_get; [apply Ht|apply Ht|]. unfold inserted. rewrite !get_put by done. rewrite decide_False, decide_False, decide_True by done. done.
  - unfold GetTd. change (tdKey hh n) with (key (KTd hh n)). unfold inserted. rewrite !get_put by done. rewrite !decide_False; [done| |done|done]. intros [= -> ->]. by apply E.
Qed.
Lemma inserted_td_of : td_of db1 h = Some t.
Proof. unfold td_of. rewrite inserted_td by (apply Header_Hash_range || apply number_u64). by rewrite decide_True. Qed.
Lemma inserted_td_other y : stored db y → y ≠ h → td_of db1 y = td_of db y.
Proof.
  intros Hy Hne. unfold td_of. rewrite inserted_td by (apply Header_Hash_range || apply number_u64). rewrite decide_False; [done|]. intros [E _]. apply Hne.
  apply Hk; [by apply (dk_known _ _ Hd)|done|done].
Qed.
Lemma inserted_number hh : is_hash hh → GetBlockNumber db1 hh = if decide (hh = hash h) then number h else GetBlockNumber db hh.
Proof.
  intros H1. destruct h_entries as [Hok Hok']. assert (entry_ok (KNumber hh)) as He by done. assert (entry_ok (KTd (hash h) (number h))) as He' by done. case_decide as E.
  - subst. apply GetBlockNumber_get; [apply number_u64|]. unfold inserted. rewrite !get_put by done. rewrite decide_False, decide_True by done. done.
  - unfold GetBlockNumber. change (blockHashKey hh) with (key (KNumber hh)). unfold inserted. rewrite !get_put by done. rewrite !decide_False; [done|done| |done]. intros [= ->]. by apply E.
Qed.
Lemma inserted_canon n : is_u64 n → canon db1 n = canon db n.
Proof. intros Hn. destruct h_entries as [Hok Hok']. unfold inserted. by rewrite !canon_put_other. Qed.
Lemma inserted_filed : filed db1.
Proof.
  intros hh n x H1 H2 E. rewrite inserted_header in E by done. case_decide as Ek; [|by apply (dk_filed _ _ Hd)].
  injection E as <-. destruct Ek as [-> ->]. split_and!; [apply Hh|done|done|done].
Qed.
Lemma inserted_ok : db_ok known db1.
Proof.
  split.
  - apply inserted_filed.
  - intros x [Hx| ->]%inserted_stored; [by apply (dk_known _ _ Hd)|done].
  - intros x Hx. rewrite inserted_number by apply Header_Hash_range. apply inserted_stored in Hx as [Hx| ->]; [|by rewrite decide_True].
    case_decide as E; [|by apply (dk_number _ _ Hd)]. f_equal. symmetry. apply Hk; [by apply (dk_known _ _ Hd)|done|done].
  - intros hh H1 H2. rewrite inserted_number in * by done. case_decide as E; [subst; exists h; split_and!; [by apply inserted_stored; right|done|done]|].
    destruct (dk_number_back _ _ Hd hh H1 H2) as (x & Hx & Ex). exists x. split; [by apply inserted_stored; left|done].
  - intros hh n t' H1 H2 E. rewrite inserted_td in E by done. case_decide as Ek; [destruct Ek as [-> ->]; exists h; split_and!; [by apply inserted_stored; right|done|done]|].
    destruct (dk_td _ _ Hd hh n t' H1 H2 E) as (x & Hx & Ex). exists x. split; [by apply inserted_stored; left|done].
Qed.
(** Nothing that was found is lost. *)
Lemma inserted_keeps hh n x : is_hash hh → is_u64 n → GetHeader db hh n = Some x → GetHeader db1 hh n = Some x.
Proof.
  intros H1 H2 E. rewrite inserted_header by done. case_decide as Ek; [|done]. destruct Ek as [-> ->]. f_equal.
  destruct (dk_filed _ _ Hd _ _ _ H1 H2 E) as (_ & Eh & En & _). apply Hk; [done| |done]. apply (dk_known _ _ Hd). unfold stored. by rewrite Eh, En.
Qed.
Lemma inserted_parent a p : header_in_range a → parent_of db a = Some p → parent_of db1 a = Some p.
Proof. intros Ha. apply inserted_keeps; [apply ParentHash_range, Ha|apply u64_range]. Qed.
Lemma inserted_anc a x : header_in_range a → anc db a x → anc db1 a x.
Proof.
  intros Ha H. induction H as [a|a p x Hp Hx IH]; [constructor|]. apply (anc_step _ _ p); [by apply inserted_parent|]. apply IH.
  by apply (parent_spec db (dk_filed _ _ Hd) a p).
Qed.

Context (g p : Header) (Htree : tree_ok db g) (Hp : stored db p) (Eph : hash p = ParentHash h) (Enp : number h = number p + 1).
Context (tp : Z) (Etp : td_of db p = Some tp) (Et : t = Difficulty h + tp).
Lemma h_not_genesis : h ≠ g.
Proof. intros ->. destruct (tr_genesis _ _ Htree) as (_ & N0 & _). pose proof (number_u64 p) as []. lia. Qed.
Lemma h_parent : parent_of db1 h = Some p.
Proof.
  unfold parent_of. fold (number h). assert (u64 (number h - 1) = number p) as -> by (rewrite Enp; replace (number p + 1 - 1) with (number p) by lia; apply u64_small, number_u64).
  rewrite <- Eph. apply inserted_keeps; [apply Header_Hash_range|apply number_u64|done].
Qed.
Lemma h_again : stored db h → td_of db h = Some t.
Proof.
  intros Hs. destruct (tr_parent _ _ Htree h Hs h_not_genesis) as (p' & t' & Ep' & Et' & ->). pose proof (stored_range _ _ h Hd Hs) as Hr.
  pose proof (inserted_parent h p' Hr Ep') as E. rewrite h_parent in E. injection E as <-. congruence.
Qed.
Lemma inserted_td_keeps y : stored db y → td_of db1 y = td_of db y.
Proof.
  intros Hy. destruct (decide (hash y = hash h)) as [E|E]; [|apply inserted_td_other; [done|by intros ->]].
  assert (y = h) as -> by (apply Hk; [by apply (dk_known _ _ Hd)|done|done]). by rewrite inserted_td_of, h_again.
Qed.
Lemma inserted_tree : tree_ok db1 g.
Proof.
  pose proof Htree as [(Hg & N0 & Tg) Hpar]. split.
  - split_and!; [by apply inserted_stored; left|done|by rewrite inserted_td_keeps].
  - intros x [Hx| ->]%inserted_stored Hne.
    + destruct (Hpar x Hx Hne) as (q & tq & Eq & Etq & Ex). exists q, tq. pose proof (stored_range _ _ x Hd Hx) as Hr.
      rewrite !inserted_td_keeps; [split_and!; [by apply inserted_parent|done|done]|done|exact (parent_stored _ _ x q Hd Hr Eq)].
    + exists p, tp. rewrite inserted_td_keeps by done. split_and!; [apply h_parent|done|]. rewrite inserted_td_of. by rewrite Et.
Qed.
Lemma inserted_canon_ok c : canon_ok db c → canon_ok db1 c.
Proof.
  intros [Hc Hch Hab]. split; [by apply inserted_stored; left| |].
  - intros n Hn Hle. destruct (Hch n Hn Hle) as (x & Hx & En & Ex). exists x. split_and!; [|done|by rewrite inserted_canon].
    apply inserted_anc; [exact (stored_range known db c Hd Hc)|done].
  - intros n Hn Hlt. rewrite inserted_canon by done. by apply Hab.
Qed.
End insert.

(** ** Writing headers *)

Section chain.
Context {C : Type → Type} `{laws : LruLaws C}.
Context (known : Header → Prop) (Hk : hashes_ok known).

(** The state of a header chain whose genesis header is [g]. *)
Record chain_ok (g : Header) (hc : HeaderChain C) : Prop := {
  ck_db : db_ok known (chainDb hc);
  ck_tree : tree_ok (chainDb hc) g;
  ck_caches : caches_ok hc;
  ck_genesis : genesisHeader hc = Some g;
  ck_head : ∃ c, currentHeader hc = Some c ∧ currentHeaderHash hc = hash c ∧ canon_ok (chainDb hc) c ∧ best (chainDb hc) c }.

(** A header whose number is that of its parent and one, as the verification
    of headers checks. *)
Definition links (db : Store) (h : Header) : Prop := ∀ p, stored db p → hash p = ParentHash h → number h = number p + 1.

Lemma WriteTd_step h t (hc : HeaderChain C) : td_small t → critH (hc_WriteTd (hash h) (number h) t) hc =
  (set_tdCache (lru_Add (hash h) t (tdCache hc)) (set_chainDb (db_Put (key (KTd (hash h) (number h))) (c_enc c_big t) (chainDb hc)) hc), Val tt).
Proof. intros [Ht1 Ht2]. unfold critH, hc_WriteTd, on_db, mbind, M_bind. by rewrite WriteTd_ok by done. Qed.
Lemma WriteHeader_step h (hc : HeaderChain C) : header_ok h → crit (chaindb.WriteHeader h) hc =
  (set_chainDb (db_Put (key (KHeader (hash h) (number h))) (c_enc c_Header h) (db_Put (key (KNumber (hash h))) (encodeBlockNumber (number h)) (chainDb hc))) hc, Val tt).
Proof. intros Hh. unfold crit, on_db. by rewrite WriteHeader_ok by done. Qed.

(** The parent is there, or it is not. *)
Lemma parent_cases db h : db_ok known db → is_hash h → (∃ p, stored db p ∧ hash p = h) ∨ ∀ p, stored db p → hash p ≠ h.
Proof.
  intros Hd Hh. destruct (decide (GetBlockNumber db h = missingNumber)) as [E|E].
  - right. intros p Hp <-. rewrite (dk_number _ _ Hd p Hp) in E. pose proof (proj2 (stored_range _ _ p Hd Hp)). rewrite E in *. done.
  - left. destruct (dk_number_back _ _ Hd h Hh E) as (x & Hx & Ex & _). by exists x.
Qed.
Lemma caches_inserted hc h t : db_ok known (chainDb hc) → caches_ok hc → header_ok h → number h < MaxUint64 → known h → td_small t →
  (stored (chainDb hc) h → td_of (chainDb hc) h = Some t) →
  caches_ok (set_chainDb (inserted h t (chainDb hc)) (set_tdCache (lru_Add (hash h) t (tdCache hc)) hc)).
Proof.
  intros Hd [C1 C2 C3] Hh Hm Hkn Ht Hagain. pose proof (λ y, proj2 (inserted_stored known Hk _ Hd h t Hh Hkn y)) as Hst.
  assert (∀ y, stored (chainDb hc) y → td_of (inserted h t (chainDb hc)) y = td_of (chainDb hc) y) as Htd.
  { intros y Hy. destruct (decide (hash y = hash h)) as [E|E]; [|apply (inserted_td_other known Hk _ Hd h t Hkn Ht y Hy); by intros ->].
    assert (y = h) as -> by (apply Hk; [by apply (dk_known _ _ Hd)|done|done]). by rewrite inserted_td_of, Hagain. }
  split; hc_simpl.
  - intros k x E. destruct (C1 k x E). split; [by apply Hst; left|done].
  - intros k t' [[-> ->]|E]%add_subset; [exists h; split_and!; [by apply Hst; right|done|by apply inserted_td_of]|].
    destruct (C2 k t' E) as (x & Hx & Ek & Et). exists x. split_and!; [by apply Hst; left|done|by rewrite Htd].
  - intros k n E. destruct (C3 k n E) as (x & Hx & Ek & En). exists x. split_and!; [by apply Hst; left|done|done].
Qed.

(** The last part of [WriteHeader]: the head is chosen. *)
Definition settle (coin : bool) (h : Header) (t tc : Z) : M (HeaderChain C) chain_error WriteStatus :=
  status ← (if (big_Cmp t tc >? 0) || (big_Cmp t tc =? 0) && coin then reroute h;; mret CanonStatTy else mret SideStatTy);
  modify (λ hc, set_headerCache (lru_Add (hash h) h (headerCache hc)) hc);;
  modify (λ hc, set_numberCache (lru_Add (hash h) (number h) (numberCache hc)) hc);;
  mret status.
Lemma caches_added h (hc : HeaderChain C) : stored (chainDb hc) h → caches_ok hc →
  caches_ok (set_numberCache (lru_Add (hash h) (number h) (numberCache hc)) (set_headerCache (lru_Add (hash h) h (headerCache hc)) hc)).
Proof.
  intros Hh [C1 C2 C3]. split; hc_simpl; [|done|].
  - intros k x [[-> ->]|E]%add_subset; [done|by apply C1].
  - intros k n [[-> ->]|E]%add_subset; [by exists h|by apply C3].
Qed.
Lemma settle_ok g c h t tc coin (hc : HeaderChain C) : db_ok known (chainDb hc) → tree_ok (chainDb hc) g → caches_ok hc → genesisHeader hc = Some g →
  currentHeader hc = Some c → currentHeaderHash hc = hash c → canon_ok (chainDb hc) c → stored (chainDb hc) h → h ≠ g →
  td_of (chainDb hc) h = Some t → td_of (chainDb hc) c = Some tc → (∀ x tx, stored (chainDb hc) x → td_of (chainDb hc) x = Some tx → x = h ∨ tx ≤ tc) →
  ∃ hc' st, settle coin h t tc hc = (hc', Val st) ∧ chain_ok g hc' ∧ same_tree (chainDb hc) (chainDb hc') ∧
    (st = CanonStatTy ∧ currentHeader hc' = Some h ∨ st = SideStatTy ∧ currentHeader hc' = currentHeader hc).
Proof.
  intros Hd Ht Hca Hg Ec Eh Hcn Hh Hhg Eth Etc Hle. unfold settle. destruct ((big_Cmp t tc >? 0) || (big_Cmp t tc =? 0) && coin) eqn:Eb.
  - assert (tc ≤ t) as Htt by (unfold big_Cmp in Eb; destruct (Z.compare_spec t tc); cbn in Eb; try done; lia).
    destruct (reroute_ok known Hk g c h hc Hd Ht Hca Hcn Hh Hhg) as (hc1 & E1 & Hs1 & Hca1 & G1 & C1 & X1 & Hcn1). unfold modify, mbind, M_bind. rewrite E1.
    do 2 eexists. split; [done|]. split; [|by split; [|left]]. split; hc_simpl; [by apply (same_db_ok _ (chainDb hc))|by apply (same_tree_ok known (chainDb hc))| |congruence|].
    + apply caches_added; [by apply (same_stored _ _ Hs1)|done].
    + exists h. split_and!; [done|done|done|]. intros x tx Hx Ex. apply (same_stored _ _ Hs1) in Hx. rewrite !(same_td_of _ _ Hs1) in *. exists t. split; [done|].
      destruct (Hle x tx Hx Ex) as [->|]; [|lia]. assert (tx = t) by congruence. lia.
  - assert (t ≤ tc) as Htt by (unfold big_Cmp in Eb; destruct (Z.compare_spec t tc); cbn in Eb; try done; lia).
    unfold modify, mbind, M_bind. do 2 eexists. split; [done|]. split; [|by split; [|right]]. split; hc_simpl; [done|done|by apply caches_added|done|].
    exists c. split_and!; [done|done|done|]. intros x tx Hx Ex. exists tc. split; [done|]. destruct (Hle x tx Hx Ex) as [->|]; [|lia]. assert (tx = t) by congruence. lia.
Qed.

(** ** Going back *)

Definition caches_known (hc : HeaderChain C) : Prop := ∀ k x, content (headerCache hc) !! k = Some x → known x ∧ hash x = k.
Lemma caches_ok_known hc : db_ok known (chainDb hc) → caches_ok hc → caches_known hc.
Proof. intros Hd [C1 _ _] k x E. destruct (C1 k x E). split; [by apply (dk_known _ _ Hd)|done]. Qed.
Lemma GetHeader_known hc h n x : db_ok known (chainDb hc) → caches_known hc → is_hash h → is_u64 n → GetHeader (chainDb hc) h n = Some x →
  ∃ hc', hc_GetHeader h n hc = (hc', Val (Some x)) ∧ same_chain hc hc' ∧ caches_known hc'.
Proof.
  intros Hd Hc Hh Hn E. destruct (dk_filed _ _ Hd _ _ _ Hh Hn E) as (_ & Eh & En & _).
  assert (known x) as Hx by (apply (dk_known _ _ Hd); unfold stored; by rewrite Eh, En).
  unfold hc_GetHeader. destruct (content_Get h (headerCache hc)) as [E1 E2]. destruct (lru_Get h (headerCache hc)) as [cache cached]. cbn [fst snd] in *.
  destruct cached as [x'|].
  - symmetry in E1. destruct (Hc h x' E1) as [Hx' Eh']. assert (x' = x) as -> by (apply Hk; [done|done|congruence]). eexists. split; [done|]. split; [done|].
    intros k y Ey. cbn in Ey. rewrite E2 in Ey. by apply Hc.
  - cbn. rewrite E. eexists. split; [done|]. split; [done|]. intros k y Ey. cbn in Ey. apply add_subset in Ey as [[-> ->]|Ey]; [done|]. rewrite E2 in Ey. by apply Hc.
Qed.

(** A callback that touches bodies only. *)
Definition bodies_only (delFn : Z → Z → W unit) : Prop := ∀ h n db, is_hash h → is_u64 n →
  ∃ db', delFn h n db = (db', Val tt) ∧ ∀ e, entry_ok e → (∀ h' n', e ≠ KBody h' n') → get (key e) db' = get (key e) db.
Record removed (x : Header) (db db1 : Store) : Prop := {
  rm_header h n : is_hash h → is_u64 n → GetHeader db1 h n = if decide (h = hash x ∧ n = number x) then None else GetHeader db h n;
  rm_td h n : is_hash h → is_u64 n → GetTd db1 h n = if decide (h = hash x ∧ n = number x) then None else GetTd db h n;
  rm_number h : is_hash h → GetBlockNumber db1 h = if decide (h = hash x) then missingNumber else GetBlockNumber db h;
  rm_canon n : is_u64 n → canon db1 n = canon db n }.
Lemma remove_step x delFn db : bodies_only delFn → ∃ db0, delFn (hash x) (number x) db = (db0, Val tt) ∧
  removed x db (db_Delete (tdKey (hash x) (number x)) (db_Delete (headerKey (hash x) (number x)) (db_Delete (blockHashKey (hash x)) db0))).
Proof.
  intros Hb. pose proof (Header_Hash_range x) as Hh. pose proof (number_u64 x) as Hn. destruct (Hb (hash x) (number x) db Hh Hn) as (db0 & E0 & H0).
  assert (entry_ok (KHeader (hash x) (number x)) ∧ entry_ok (KTd (hash x) (number x)) ∧ entry_ok (KNumber (hash x))) as (O1 & O2 & O3) by done.
  set (db1 := db_Delete (key (KTd (hash x) (number x))) (db_Delete (key (KHeader (hash x) (number x))) (db_Delete (key (KNumber (hash x))) db0))).
  exists db0. split; [done|]. change (removed x db db1).
  assert (∀ e, entry_ok e → get (key e) db1 = if decide (e = KTd (hash x) (number x)) then [] else if decide (e = KHeader (hash x) (number x)) then []
    else if decide (e = KNumber (hash x)) then [] else get (key e) db0) as Hg by (intros e He; unfold db1; by rewrite !get_delete).
  split.
  - intros h n H1 H2. unfold GetHeader, GetHeaderRLP. change (headerKey h n) with (key (KHeader h n)). rewrite Hg by done. rewrite (decide_False (P:=_ = KTd _ _)) by done.
    destruct (decide (h = hash x ∧ n = number x)) as [[-> ->]|Hne]; [by rewrite decide_True|]. rewrite decide_False by (intros [= -> ->]; by apply Hne). rewrite decide_False by done. by rewrite H0.
  - intros h n H1 H2. unfold GetTd. change (tdKey h n) with (key (KTd h n)). rewrite Hg by done.
    destruct (decide (h = hash x ∧ n = number x)) as [[-> ->]|Hne]; [by rewrite decide_True|]. rewrite decide_False by (intros [= -> ->]; by apply Hne). rewrite !decide_False by done. by rewrite H0.
  - intros h H1. unfold GetBlockNumber. change (blockHashKey h) with (key (KNumber h)). rewrite Hg by done. rewrite !(decide_False (P:=_ = KTd _ _)), !(decide_False (P:=_ = KHeader _ _)) by done.
    destruct (decide (h = hash x)) as [->|Hne]; [by rewrite decide_True|]. rewrite decide_False by (intros [= ->]; by apply Hne). by rewrite H0.
  - intros n H1. unfold canon, GetCanonicalHash, get_hash. change (canonicalKey n) with (key (KCanonical n)). rewrite Hg by done. rewrite !decide_False by done. by rewrite H0.
Qed.
Section removed.
Context (x : Header) (db db1 : Store) (Hd : db_ok known db) (Hr : removed x db db1) (Hx : stored db x).
Lemma removed_stored y : stored db1 y ↔ stored db y ∧ y ≠ x.
Proof.
  unfold stored. rewrite (rm_header _ _ _ Hr) by (apply Header_Hash_range || apply number_u64). case_decide as E; split; [done| |..].
  - intros [Hy Hne]. destruct Hne. apply Hk; [by apply (dk_known _ _ Hd)|by apply (dk_known _ _ Hd)|apply E].
  - intros Hy. split; [done|]. intros ->. by apply E.
  - by intros [Hy _].
Qed.
Lemma removed_ok : db_ok known db1.
Proof.
  assert (∀ y, stored db y → hash y = hash x → y = x) as Heq by (intros y Hy E; apply Hk; [by apply (dk_known _ _ Hd)|by apply (dk_known _ _ Hd)|done]). split.
  - intros h n y Hh Hn E. rewrite (rm_header _ _ _ Hr) in E by done. case_decide; [done|]. by apply (dk_filed _ _ Hd).
  - intros y [Hy _]%removed_stored. by apply (dk_known _ _ Hd).
  - intros y [Hy Hne]%removed_stored. rewrite (rm_number _ _ _ Hr) by apply Header_Hash_range. rewrite decide_False by (intros E; by apply Hne, Heq). by apply (dk_number _ _ Hd).
  - intros h Hh Hn. rewrite (rm_number _ _ _ Hr) in * by done. case_decide as E; [done|]. destruct (dk_number_back _ _ Hd h Hh Hn) as (y & Hy & Ey & Ny). exists y. split; [|done].
    apply removed_stored. split; [done|]. intros ->. by apply E.
  - intros h n t Hh Hn E. rewrite (rm_td _ _ _ Hr) in E by done. case_decide as E'; [done|]. destruct (dk_td _ _ Hd h n t Hh Hn E) as (y & Hy & Ey & Ny). exists y. split; [|done].
    apply removed_stored. split; [done|]. intros ->. by apply E'.
Qed.
Lemma removed_parent a p : header_in_range a → number a ≤ number x → parent_of db a = Some p → parent_of db1 a = Some p.
Proof.
  intros Ha Hle Ep. destruct (parent_spec db (dk_filed _ _ Hd) a p Ha Ep) as (_ & H1 & En & _). unfold parent_of in *. fold (number a) in *.
  rewrite (rm_header _ _ _ Hr); [|apply ParentHash_range, Ha|apply u64_range]. rewrite decide_False; [done|]. intros [_ E].
  rewrite u64_small in E; [lia|]. pose proof (number_u64 a). unfold is_u64 in *. lia.
Qed.
Lemma removed_anc a y : header_in_range a → number a ≤ number x → anc db a y → anc db1 a y.
Proof.
  intros Ha Hle H. induction H as [a|a p y Hp Hy IH]; [constructor|]. destruct (parent_spec db (dk_filed _ _ Hd) a p Ha Hp) as (Hrp & _ & En & _).
  apply (anc_step _ _ p); [by apply removed_parent|]. apply IH; [done|lia].
Qed.
End removed.

Lemma on_db_val w (hc : HeaderChain C) db : w (chainDb hc) = (db, Val tt) → on_db w hc = (set_chainDb db hc, Val tt).
Proof. intros E. unfold on_db. by rewrite E. Qed.
(** The chain of [x] goes down to number 0. *)
Definition complete (db : Store) (x : Header) : Prop := ∀ n, is_u64 n → n ≤ number x → ∃ y, anc db x y ∧ number y = n.
Lemma rewind_ok m delFn fuel : is_u64 m → bodies_only delFn → ∀ x hc, number x < Z.of_nat fuel → db_ok known (chainDb hc) → caches_known hc →
  stored (chainDb hc) x → complete (chainDb hc) x → currentHeader hc = Some x →
  ∃ hc' x', rewind_loop fuel m delFn hc = (hc', Val tt) ∧ currentHeader hc' = Some x' ∧ genesisHeader hc' = genesisHeader hc ∧
    anc (chainDb hc) x x' ∧ number x' = number x `min` m ∧ db_ok known (chainDb hc') ∧ stored (chainDb hc') x' ∧
    (∀ y, anc (chainDb hc) x' y → anc (chainDb hc') x' y) ∧ (∀ n, is_u64 n → canon (chainDb hc') n = canon (chainDb hc) n) ∧
    (∀ y, stored (chainDb hc') y ↔ stored (chainDb hc) y ∧ (anc (chainDb hc) x y → number y ≤ m)).
Proof.
  intros Hm Hb. induction fuel as [|fuel IH]; intros x hc Hf Hd Hca Hx Hcomp Ec; [pose proof (number_u64 x) as []; lia|].
  pose proof (dk_filed _ _ Hd) as Hfi. pose proof (stored_range _ _ x Hd Hx) as Hrx. pose proof (number_u64 x) as Hu.
  cbn [rewind_loop]. rewrite (bind_val (gets currentHeader) _ _ hc (Some x)) by (unfold gets; congruence). cbv beta iota zeta. fold (number x).
  destruct (Z.gtb_spec (number x) m) as [Hgt|Hle].
  2:{ exists hc, x. split_and!; try done; [constructor|lia|]. intros y. split; [|by intros [? _]]. intros Hy. split; [done|]. intros Ha. pose proof (proj1 (anc_number _ Hfi x y Ha Hrx)). lia. }
  destruct (remove_step x delFn (chainDb hc) Hb) as (db0 & E0 & Hrm). set (db1 := db_Delete (tdKey _ _) _) in Hrm.
  rewrite (bind_val _ _ _ _ _ (on_db_val (delFn (hash x) (number x)) hc db0 E0)).
  rewrite (bind_val _ _ _ _ _ (on_db_val (DeleteHeader (hash x) (number x)) (set_chainDb db0 hc) (db_Delete (headerKey (hash x) (number x)) (db_Delete (blockHashKey (hash x)) db0)) eq_refl)).
  rewrite (bind_val _ _ _ _ _ (on_db_val (DeleteTd (hash x) (number x)) (set_chainDb (db_Delete (headerKey (hash x) (number x)) (db_Delete (blockHashKey (hash x)) db0)) (set_chainDb db0 hc)) db1 eq_refl)).
  assert (1 ≤ number x) as H1 by (unfold is_u64 in *; lia). assert (is_u64 (number x - 1)) as Hu1 by (unfold is_u64 in *; lia).
  destruct (Hcomp (number x - 1) Hu1 ltac:(lia)) as (p & Hp & Np). destruct (anc_inv _ x p Hp ltac:(lia)) as (p' & Ep & Hpp).
  destruct (parent_spec _ Hfi x p' Hrx Ep) as (Hrp & _ & Np' & _). assert (p = p') as -> by (apply (anc_number _ Hfi p' p Hpp Hrp); lia). clear Hp Hpp.
  pose proof (removed_parent x (chainDb hc) db1 Hd Hrm x p' Hrx ltac:(lia) Ep) as Ep1. pose proof (removed_ok x (chainDb hc) db1 Hd Hrm Hx) as Hd1.
  set (hc1 := set_chainDb db1 _).
  destruct (GetHeader_known hc1 (ParentHash x) (u64 (number x - 1)) p') as (hc2 & E2 & (D2 & G2 & _) & Hca2); [done|done|by apply ParentHash_range, Hrx|apply u64_range|exact Ep1|].
  rewrite (bind_val _ _ _ _ _ E2). rewrite (bind_val (modify (set_currentHeader (Some p'))) _ _ (set_currentHeader (Some p') hc2) tt) by done. cbn [chainDb hc1 set_chainDb genesisHeader] in D2, G2.
  assert (∀ a y, anc (chainDb hc) p' a → anc (chainDb hc) a y → anc db1 a y) as Hmono.
  { intros a y Ha Hy. destruct (anc_number _ Hfi p' a Ha Hrp) as (Hla & Hra & _). apply (removed_anc x (chainDb hc) db1 Hd Hrm); [done|lia|done]. }
  destruct (IH p' (set_currentHeader (Some p') hc2)) as (hc' & x' & E' & C' & G' & Ha' & N' & Hd' & Hs' & Hm' & Hc' & Hst'); cbn [chainDb set_currentHeader currentHeader]; rewrite ?D2; try done.
  { lia. } { exact (parent_stored _ db1 x p' Hd1 Hrx Ep1). }
  { intros n Hn Hle. destruct (Hcomp n Hn ltac:(lia)) as (y & Hy & Ny). exists y. split; [|done]. destruct (anc_inv _ x y Hy ltac:(lia)) as (q & Eq & Hq).
    assert (q = p') as -> by congruence. apply Hmono; [constructor|done]. }
  cbn [chainDb set_currentHeader genesisHeader] in *. rewrite D2 in *.
  assert (∀ y, anc db1 p' y → anc (chainDb hc) p' y) as Hback.
  { intros y Hy. destruct (anc_number _ (dk_filed _ _ Hd1) p' y Hy Hrp) as (Hly & _ & _). destruct (Hcomp (number y) (number_u64 y) ltac:(lia)) as (z & Hz & Nz).
    destruct (anc_inv _ x z Hz ltac:(lia)) as (q & Eq & Hq). assert (q = p') as -> by congruence.
    rewrite (anc_unique db1 p' y z); [done|apply (dk_filed _ _ Hd1)|done|done|by apply Hmono; [constructor|]|done]. }
  exists hc', x'. split_and!; try done; [congruence|by apply (anc_step _ _ p'); [|apply Hback]|lia| | |].
  - intros y Hy. apply Hm'. apply Hmono; [by apply Hback|done].
  - intros n Hn. rewrite Hc' by done. by apply (rm_canon _ _ _ Hrm).
  - intros y. rewrite Hst', (removed_stored x (chainDb hc) db1 Hd Hrm Hx). split.
    + intros [[Hy1 Hne] Hyle]. split; [done|]. intros Hay. inversion Hay as [|? q ? Eq Hq]; subst; [done|]. assert (q = p') as -> by congruence. apply Hyle. by apply Hmono; [constructor|].
    + intros [Hy Hyle]. split; [split; [done|]|intros Hay; apply Hyle; by apply (anc_step _ _ p'); [|apply Hback]]. intros ->. pose proof (Hyle (anc_refl _ x)). lia.
Qed.

(** [DeleteCanonicalHash] for the numbers of a range. *)
Lemma delete_numbers_ok height head (hc : HeaderChain C) : is_u64 height → is_u64 head → ∃ db', delete_numbers height head hc = (set_chainDb db' hc, Val tt) ∧
  same_tree (chainDb hc) db' ∧ ∀ n, is_u64 n → canon db' n = if decide (head < n ≤ height) then 0 else canon (chainDb hc) n.
Proof.
  intros Hh Hm. unfold delete_numbers. remember (Z.to_nat (height - head)) as k eqn:Ek. revert height hc Hh Ek. induction k as [|k IH]; intros height hc Hh Ek.
  - exists (chainDb hc). split_and!; [by destruct hc|done|]. intros n Hn. rewrite decide_False by lia. done.
  - assert (is_u64 (height - 1)) as Hh1 by (unfold is_u64 in *; lia).
    rewrite (bind_val _ _ _ _ _ (on_db_val (DeleteCanonicalHash height) hc (db_Delete (key (KCanonical height)) (chainDb hc)) eq_refl)).
    destruct (IH (height - 1) (set_chainDb (db_Delete (key (KCanonical height)) (chainDb hc)) hc) Hh1 ltac:(lia)) as (db' & E & Hs & Hc). exists db'. split_and!; [exact E| |].
    + etransitivity; [by apply (same_tree_delete _ (KCanonical height))|done].
    + intros n Hn. rewrite Hc by done. cbn [chainDb set_chainDb]. rewrite canon_delete by done. repeat case_decide; try done; lia.
Qed.
End chain.
