(* ===== verification/HeaderChainProps.v ===== *)
(** * Properties of the header chain *)

From stdpp Require Import base tactics list numbers gmap.
From S2P Require Import Prelude GoMath RlpEncode RlpDecode RlpEncodeFacts RlpStream RlpSound RlpComplete RlpRaw RlpRecord RlpCodec Keccak KeccakFacts KeccakProps.
From S2P Require Import Trie TrieMap TxTypes TxFacts BlockTypes BlockFacts ChainDb ChainDbFacts HeaderChain HeaderChainFacts HeaderChainSteps.

#[local] Open Scope Z_scope.
Import rlp rlpd types blocks chaindb headerchain.
#[local] Opaque keccak.hash256 keccak256.

Section chain.
Context {C : Type → Type} `{laws : LruLaws C}.
Context (known : Header → Prop) (Hk : hashes_ok known).

(** C14: A header chain stays in order.  From a state in which the canonical
    numbers are the chain of the head and no stored header has a greater total
    difficulty, writing a header whose parent is stored adds it with the total
    difficulty of the parent and its own, and makes it the head only if nothing
    is better; writing one whose parent is not stored changes nothing.  Either
    way the state is in order again. *)
Theorem WriteHeader_chain g hc coin h : chain_ok known g hc → header_ok h → known h → number h < MaxUint64 → links (chainDb hc) h →
  (∀ p t, stored (chainDb hc) p → hash p = ParentHash h → td_of (chainDb hc) p = Some t → td_small (Difficulty h + t)) →
  ∃ hc', chain_ok known g hc' ∧
    ((hc_WriteHeader coin h hc = (hc', Err ErrUnknownAncestor) ∧ chainDb hc' = chainDb hc ∧ ∀ p, stored (chainDb hc) p → hash p ≠ ParentHash h) ∨
     (∃ st, hc_WriteHeader coin h hc = (hc', Val st) ∧ (∀ x, stored (chainDb hc') x ↔ stored (chainDb hc) x ∨ x = h) ∧
       (st = CanonStatTy ∧ currentHeader hc' = Some h ∨ st = SideStatTy ∧ currentHeader hc' = currentHeader hc))).
Proof.
  intros [Hd Htree Hca Hgen (c & Ec & Eh & Hcn & Hbest)] Hh Hkn Hm Hlinks Hsmall. unfold hc_WriteHeader. fold (number h).
  destruct (parent_cases known (chainDb hc) (ParentHash h) Hd (ParentHash_range h (proj1 Hh))) as [(p & Hp & Eph)|Hno].
  2:{ destruct (GetTd_miss known hc (ParentHash h) (u64 (number h - 1)) Hd Hca) as (hc1 & E1 & (D1 & G1 & H1 & X1) & Hca1); [by apply ParentHash_range, Hh|apply u64_range|done|].
      exists hc1. split; [split; rewrite ?D1, ?G1, ?H1, ?X1; try done; by exists c|]. left. unfold mbind, M_bind. rewrite E1. by split_and!. }
  pose proof (Hlinks p Hp Eph) as Enp. destruct (tree_td known Hk _ g p Hd Htree Hp) as [tp Etp]. pose proof (Hsmall p tp Hp Eph Etp) as Ht.
  set (t := Difficulty h + tp) in *. destruct (tree_td known Hk _ g c Hd Htree (cn_stored _ _ Hcn)) as [tc Etc].
  destruct (GetTd_hit known Hk hc p tp Hd Hca Hp Etp) as (hc1 & E1 & (D1 & G1 & H1 & X1) & Hca1).
  assert (u64 (number h - 1) = number p) as Eu by (rewrite Enp; replace (number p + 1 - 1) with (number p) by lia; apply u64_small, number_u64).
  destruct (GetTd_hit known Hk hc1 c tc) as (hc2 & E2 & (D2 & G2 & H2 & X2) & Hca2); [by rewrite D1|done|rewrite D1; apply Hcn|by rewrite D1|].
  rewrite Eu, <- Eph, (bind_val _ _ _ _ _ E1). cbv beta iota. rewrite (bind_val (gets currentHeader) _ _ hc1 (Some c)) by (unfold gets; congruence).
  rewrite (bind_val (or_panic (Some c)) _ _ hc1 c) by done. rewrite (bind_val (gets currentHeaderHash) _ _ hc1 (hash c)) by (unfold gets; congruence).
  fold (number c). rewrite (bind_val _ _ _ _ _ E2). cbv zeta. fold t. rewrite (bind_val _ _ _ _ _ (WriteTd_step h t hc2 Ht)).
  rewrite (bind_val _ _ _ _ _ (WriteHeader_step h _ Hh)). cbn [chainDb set_chainDb set_tdCache or_panic]. set (hc3 := set_chainDb _ _).
  rewrite (bind_val (or_panic (Some tc)) _ _ hc3 tc) by done. fold (settle coin h t tc).
  assert (chainDb hc3 = inserted h t (chainDb hc)) as D3 by (unfold hc3; hc_simpl; by rewrite D2, D1).
  assert (h ≠ g) as Hhg by (intros ->; destruct (tr_genesis _ _ Htree) as (_ & N0 & _); pose proof (number_u64 p) as []; lia). pose proof (inserted_stored known Hk _ Hd h t Hh Hkn) as Hst.
  pose proof (inserted_td_keeps known Hk _ Hd h t Hh Hm Hkn Ht g p Htree Hp Eph Enp tp Etp eq_refl) as Hkeep.
  destruct (settle_ok known Hk g c h t tc coin hc3) as (hc' & st & E' & Hok & Hs & Hcase); rewrite ?D3.
  - by apply inserted_ok.
  - by apply (inserted_tree known Hk _ Hd h t Hh Hm Hkn Ht g p Htree Hp Eph Enp tp Etp).
  - rewrite D1 in D2. apply (caches_inserted known Hk hc2 h t); rewrite ?D2; try done. by apply (h_again known Hk _ Hd h t Hh Hm Hkn g p Htree Hp Eph Enp tp Etp).
  - unfold hc3. hc_simpl. congruence.
  - unfold hc3. hc_simpl. congruence.
  - unfold hc3. hc_simpl. congruence.
  - by apply (inserted_canon_ok known).
  - apply Hst. by right.
  - done.
  - by apply inserted_td_of.
  - by rewrite Hkeep by apply Hcn.
  - intros x tx [Hx| ->]%Hst Ex; [right|by left]. rewrite Hkeep in Ex by done. destruct (Hbest x tx Hx Ex) as (tc' & Etc' & Hle). congruence.
  - exists hc'. split; [done|]. right. exists st. split; [done|]. split; [|destruct Hcase as [?|[? Ecur]]; [by left|right; split; [done|]; rewrite Ecur; unfold hc3; hc_simpl; congruence]].
    intros x. rewrite (same_stored _ _ Hs), D3. apply Hst.
Qed.

(** C29: [SetHead] goes back on the canonical chain: the new head is the ancestor
    of the old one with the number that was asked for, or the old head if it is
    not above it; the canonical numbers are the chain of the new head, exactly
    the headers of the old chain above it are gone, and the caches and the head
    in the database agree. *)
Theorem SetHead_rewinds g hc c m delFn : chain_ok known g hc → currentHeader hc = Some c → is_u64 m → bodies_only delFn →
  ∃ hc' x, SetHead m delFn hc = (hc', Val tt) ∧ currentHeader hc' = Some x ∧ currentHeaderHash hc' = hash x ∧
    anc (chainDb hc) c x ∧ number x = number c `min` m ∧ db_ok known (chainDb hc') ∧ canon_ok (chainDb hc') x ∧ caches_ok hc' ∧
    GetHeadHeaderHash (chainDb hc') = hash x ∧
    ∀ y, stored (chainDb hc') y ↔ stored (chainDb hc) y ∧ (anc (chainDb hc) c y → number y ≤ m).
Proof.
  intros [Hd Htree Hca Hgen (c' & Ec' & Eh & Hcn & _)] Ec Hm Hb. assert (c' = c) as -> by congruence. destruct Hcn as [Hc Hch Hab].
  assert (complete (chainDb hc) c) as Hcomp by (intros n Hn Hle; destruct (Hch n Hn Hle) as (y & Hy & Ny & _); by exists y).
  pose proof (number_u64 c) as Hu.
  destruct (rewind_ok known Hk m delFn (S (Z.to_nat (number c))) Hm Hb c hc) as (hc1 & x & E1 & C1 & G1 & Ha & Nx & Hd1 & Hx & Hmono & Hcan & Hst); try done.
  { unfold is_u64 in Hu. lia. } { by apply caches_ok_known. }
  destruct (delete_numbers_ok (number c) m hc1 Hu Hm) as (db2 & E2 & Hs2 & Hc2).
  unfold SetHead. rewrite (bind_val (gets currentHeader) _ _ hc (Some c)) by (unfold gets; congruence). cbv beta iota zeta. fold (number c).
  rewrite (bind_val _ _ _ _ _ E1), (bind_val _ _ _ _ _ E2).
  unfold gets, modify, or_panic, crit, on_db, WriteHeadHeaderHash, put, mbind, M_bind. hc_simpl. rewrite C1. hc_simpl. do 2 eexists. split; [done|]. hc_simpl.
  change headHeaderKey with (key KHeadHeader). set (db3 := db_Put (key KHeadHeader) (Hash_Bytes (hash x)) db2).
  assert (same_tree db2 db3) as Hs3 by (by apply (same_tree_put db2 KHeadHeader)). assert (same_tree (chainDb hc1) db3) as Hs by (by etransitivity).
  assert (∀ n, is_u64 n → canon db3 n = if decide (m < n ≤ number c) then 0 else canon (chainDb hc) n) as Hc3.
  { intros n Hn. unfold db3. rewrite canon_put_other by done. rewrite Hc2 by done. case_decide; [done|]. by apply Hcan. }
  pose proof (stored_range _ _ c Hd Hc) as Hrc. pose proof (dk_filed _ _ Hd) as Hfi. destruct (anc_number _ Hfi c x Ha Hrc) as (_ & Hrx & _).
  split_and!; [done|done|done|done|by apply (same_db_ok known (chainDb hc1))| |split; hc_simpl; intros; rewrite content_Purge in *; by rewrite lookup_empty in *| |].
  - split; [by apply (same_stored _ _ Hs)| |].
    + intros n Hn Hle. destruct (Hch n Hn ltac:(lia)) as (y & Hy & Ny & Ey). exists y. split_and!; [|done|rewrite Hc3 by done; by rewrite decide_False by lia].
      apply (same_anc (chainDb hc1)); [done|apply (dk_filed _ _ Hd1)|done|]. apply Hmono. by apply (anc_below (chainDb hc) c x y); [|..|lia].
    + intros n Hn Hlt. rewrite Hc3 by done. case_decide as Hr; [done|]. apply Hab; [done|lia].
  - unfold GetHeadHeaderHash. change headHeaderKey with (key KHeadHeader). unfold db3. rewrite get_hash_put by (done || apply Header_Hash_range). by rewrite decide_True.
  - intros y. rewrite (same_stored _ _ Hs). apply Hst.
Qed.
End chain.

(** ** A cache *)

(** Most recent first, with a capacity. *)
Record recent (V : Type) : Type := mkRecent { capacity : Z; entries : list (Z * V) }.
#[global] Arguments mkRecent {V}.
#[global] Arguments capacity {V}.
#[global] Arguments entries {V}.
Definition others {V} (k : Z) (l : list (Z * V)) : list (Z * V) := filter (λ kv, kv.1 ≠ k) l.
Definition recent_content {V} (c : recent V) : gmap Z V := list_to_map (entries c).
#[global] Instance recent_lru : Lru recent := {|
  lru_New V n := mkRecent n [];
  lru_Get V k c := match recent_content c !! k with
                   | Some v => (mkRecent (capacity c) ((k, v) :: others k (entries c)), Some v)
                   | None => (c, None)
                   end;
  lru_Contains V k c := bool_decide (is_Some (recent_content c !! k));
  lru_Add V k v c := mkRecent (capacity c) (take (Z.to_nat (capacity c)) ((k, v) :: others k (entries c)));
  lru_Purge V c := mkRecent (capacity c) [] |}.
Lemma others_content {V} k (l : list (Z * V)) : list_to_map (others k l) = (delete k (list_to_map l) : gmap Z V).
Proof.
  unfold others. induction l as [|[k' v] l IH]; [by rewrite filter_nil, list_to_map_nil, delete_empty|]. rewrite filter_cons. cbn [fst]. destruct (decide (k' = k)) as [->|E]; [rewrite decide_False by auto|rewrite decide_True by done].
  - rewrite IH, list_to_map_cons. by rewrite delete_insert_eq.
  - rewrite !list_to_map_cons, IH. by rewrite delete_insert_ne.
Qed.
Lemma take_content {V} n (l : list (Z * V)) : list_to_map (take n l) ⊆ (list_to_map l : gmap Z V).
Proof.
  revert n. induction l as [|[k v] l IH]; intros [|n]; cbn [take]; try done; [apply map_empty_subseteq|].
  rewrite !list_to_map_cons. by apply insert_mono, IH.
Qed.
#[global] Instance recent_laws : LruLaws recent.
Proof.
  refine {| content := @recent_content |}.
  - done.
  - intros V k c. cbn [lru_Get recent_lru]. destruct (recent_content c !! k) as [v|] eqn:E; [|done]. split; [done|]. unfold recent_content in *. cbn [fst entries].
    rewrite list_to_map_cons, others_content, insert_delete_eq. by apply insert_id.
  - done.
  - intros V k v c. unfold recent_content. cbn [lru_Add recent_lru entries]. etransitivity; [apply take_content|]. by rewrite list_to_map_cons, others_content, insert_delete_eq.
  - done.
Defined.

(** ** Witnesses *)

(** A chain of the genesis header alone. *)
Definition genesis_db (g : Header) (t : Z) : Store :=
  db_Put (key KHeadHeader) (Hash_Bytes (hash g)) (db_Put (key (KCanonical 0)) (Hash_Bytes (hash g)) (inserted g t ∅)).
Definition new_chain (g : Header) (t : Z) : HeaderChain recent :=
  mkHC (genesis_db g t) (Some g) (Some g) (hash g) (lru_New headerCacheLimit) (lru_New tdCacheLimit) (lru_New numberCacheLimit).
Lemma get_empty k : get k ∅ = [].
Proof. unfold get, db_Get. by rewrite lookup_empty. Qed.
Lemma stored_empty x : ¬ stored ∅ x.
Proof. unfold stored, GetHeader, GetHeaderRLP. by rewrite get_empty. Qed.
Lemma db_ok_empty known : db_ok known ∅.
Proof.
  split.
  - apply filed_empty.
  - by intros x ?%stored_empty.
  - by intros x ?%stored_empty.
  - intros h Hh Hn. destruct Hn. unfold GetBlockNumber. by rewrite get_empty.
  - intros h n t _ _. unfold GetTd. by rewrite get_empty.
Qed.
Lemma genesis_db_td g t : td_small t → td_of (genesis_db g t) g = Some t.
Proof.
  intros Ht. assert (same_tree (inserted g t ∅) (genesis_db g t)) as Hs by (etransitivity; [by apply (same_tree_put _ (KCanonical 0))|by apply (same_tree_put _ KHeadHeader)]).
  rewrite (same_td_of _ _ Hs). by apply inserted_td_of.
Qed.
Lemma new_chain_ok known g t : hashes_ok known → header_ok g → number g = 0 → known g → td_small t → chain_ok known g (new_chain g t).
Proof.
  intros Hk Hg N0 Hkn Ht. assert (number g < MaxUint64) as Hm by (rewrite N0; done).
  pose proof (inserted_ok known Hk ∅ (db_ok_empty known) g t Hg Hm Hkn Ht) as Hd1. assert (is_hash (hash g)) as Hh by apply Header_Hash_range.
  assert (same_tree (inserted g t ∅) (genesis_db g t)) as Hs by (etransitivity; [by apply (same_tree_put _ (KCanonical 0))|by apply (same_tree_put _ KHeadHeader)]).
  assert (∀ y, stored (genesis_db g t) y ↔ y = g) as Hst.
  { intros y. rewrite (same_stored _ _ Hs), (inserted_stored known Hk ∅ (db_ok_empty known) g t Hg Hkn). split; [|by right]. by intros [?%stored_empty|]. }
  assert (td_of (genesis_db g t) g = Some t) as Htd by (by apply genesis_db_td).
  assert (∀ n, is_u64 n → canon (genesis_db g t) n = if decide (n = 0) then hash g else 0) as Hc.
  { intros n Hn. unfold genesis_db. rewrite canon_put_other by done. rewrite canon_put by done. case_decide; [done|]. rewrite inserted_canon by done.
    unfold canon, GetCanonicalHash, get_hash. by rewrite get_empty. }
  split; unfold new_chain; hc_simpl.
  - by apply (same_db_ok _ (inserted g t ∅)).
  - split; [split_and!; [by apply Hst|done|by eexists]|]. by intros x ->%Hst.
  - split; hc_simpl; intros; rewrite content_New in *; by rewrite lookup_empty in *.
  - done.
  - exists g. split_and!; [done|done| |intros x t' ->%Hst E; exists t; split; [done|]; assert (t' = t) by congruence; lia].
    split; [by apply Hst| |].
    + intros n Hn Hle. assert (n = 0) as -> by (unfold is_u64 in *; lia). exists g. split_and!; [constructor|done|by rewrite Hc, decide_True by done].
    + intros n Hn Hlt. rewrite Hc by done. rewrite decide_False by lia. done.
Qed.

Definition two_headers (x : Header) : Prop := x = genesis ∨ x = child 1.
Definition child_hash : Z := Eval vm_compute in hash (child 1).
Lemma child_hash_ok : hash (child 1) = child_hash.
Proof. vm_compute. reflexivity. Qed.
Lemma two_headers_ok : hashes_ok two_headers.
Proof.
  split.
  - intros x y [->| ->] [->| ->] E; [reflexivity| | |reflexivity]; rewrite genesis_hash_ok, child_hash_ok in E; discriminate E.
  - intros x [->| ->]; [rewrite genesis_hash_ok|rewrite child_hash_ok]; discriminate.
Qed.
Lemma genesis_td : td_small 2.
Proof. split; [done|]. vm_compute. reflexivity. Qed.
Lemma genesis_chain : chain_ok two_headers genesis (new_chain genesis 2).
Proof. apply new_chain_ok; [apply two_headers_ok|apply genesis_ok|done|by left|apply genesis_td]. Qed.
Lemma genesis_chain_td : td_of (chainDb (new_chain genesis 2)) genesis = Some 2.
Proof. apply genesis_db_td, genesis_td. Qed.
Lemma WriteHeader_chain_witness : ∃ hc', chain_ok two_headers genesis hc' ∧
    ((hc_WriteHeader true (child 1) (new_chain genesis 2) = (hc', Err ErrUnknownAncestor) ∧ chainDb hc' = chainDb (new_chain genesis 2) ∧
        ∀ p, stored (chainDb (new_chain genesis 2)) p → hash p ≠ ParentHash (child 1)) ∨
     (∃ st, hc_WriteHeader true (child 1) (new_chain genesis 2) = (hc', Val st) ∧
        (∀ x, stored (chainDb hc') x ↔ stored (chainDb (new_chain genesis 2)) x ∨ x = child 1) ∧
       (st = CanonStatTy ∧ currentHeader hc' = Some (child 1) ∨ st = SideStatTy ∧ currentHeader hc' = currentHeader (new_chain genesis 2)))).
Proof.
  assert (∀ p, stored (chainDb (new_chain genesis 2)) p → hash p = ParentHash (child 1) → p = genesis) as Hp.
  { intros p Hp E. exact (proj1 two_headers_ok p genesis (dk_known _ _ (ck_db _ _ _ genesis_chain) p Hp) (or_introl eq_refl) (eq_trans E (eq_sym genesis_hash_ok))). }
  apply (WriteHeader_chain two_headers two_headers_ok genesis (new_chain genesis 2) true (child 1) genesis_chain).
  - apply child_ok. vm_compute. reflexivity.
  - by right.
  - vm_compute. reflexivity.
  - intros p H1 H2. rewrite (Hp p H1 H2). vm_compute. reflexivity.
  - intros p t H1 H2 Et. rewrite (Hp p H1 H2), genesis_chain_td in Et. injection Et as <-. split; [done|]. vm_compute. reflexivity.
Defined.
Lemma SetHead_rewinds_witness : ∃ hc' x, SetHead 0 DeleteBody (new_chain genesis 2) = (hc', Val tt) ∧ currentHeader hc' = Some x ∧ currentHeaderHash hc' = hash x ∧
    anc (chainDb (new_chain genesis 2)) genesis x ∧ number x = number genesis `min` 0 ∧ db_ok two_headers (chainDb hc') ∧ canon_ok (chainDb hc') x ∧ caches_ok hc' ∧
    GetHeadHeaderHash (chainDb hc') = hash x ∧
    ∀ y, stored (chainDb hc') y ↔ stored (chainDb (new_chain genesis 2)) y ∧ (anc (chainDb (new_chain genesis 2)) genesis y → number y ≤ 0).
Proof.
  apply (SetHead_rewinds two_headers two_headers_ok genesis (new_chain genesis 2) genesis 0 DeleteBody genesis_chain); [reflexivity|done|].
  intros h n db Hh Hn. eexists. split; [reflexivity|]. intros e He Hne. change (blockBodyKey h n) with (key (KBody h n)). rewrite get_delete by done. by rewrite decide_False by auto.
Defined.
