(* ===== verification/Bloombits.v ===== *)
(** * Rotated bloom bits: generator and matcher

    [generator.go] and [matcher.go] of [src/blockchain/bloombits].  The blooms
    of a section of blocks are rotated into one bit vector per bloom bit; the
    matcher combines these vectors into the numbers of the blocks that may
    hold a log.  Its goroutines are connected by channels in a chain, each
    turning the messages it receives into messages it sends, so a stage is a
    function on the sequence of messages; termination of a session before its
    end (the channels [quit] and [kill]) is not modelled.  The retrieval of
    vectors behind a scheduler is the argument [fetch]. *)

From stdpp Require Import base tactics list numbers gmap.
From S2P Require Import Prelude GoMath RlpEncode RlpRecord Keccak Bitutil TxTypes BlockTypes.

#[local] Open Scope Z_scope.

Module bloombits.
Import blocks keccak.

(** ** generator.go *)

Inductive gen_error : Type := errSectionCount | errSectionOutOfBounds | errUnexpectedIndex | errNotGenerated.

Record Generator : Type := mkGenerator {
  g_blooms : list (list byte);
  g_sections : Z;
  g_nextBit : Z }.

Definition NewGenerator (sections : Z) : outcome gen_error Generator :=
  if negb (sections mod 8 =? 0) then Err errSectionCount
  else Val (mkGenerator (replicate (Z.to_nat BloomBitLength) (zeros (sections / 8))) sections 0).

Definition or_byte (byteIndex : nat) (bitMask : Z) (b : list byte) : list byte :=
  alter (λ x, Zbyte (Z.lor (byteZ x) bitMask)) byteIndex b.
(** Row [i], from the bit of [bloom] with that number. *)
Definition add_bit (bloom : list byte) (byteIndex : nat) (bitMask : Z) (i : nat) (row : list byte) : list byte :=
  let bloomByteIndex := Z.to_nat (BloomByteLength - 1 - Z.of_nat i / 8) in
  let bloomBitMask := Z.shiftl 1 (Z.of_nat i mod 8) in
  if negb (Z.land (byteZ (nth bloomByteIndex bloom Byte.x00)) bloomBitMask =? 0) then or_byte byteIndex bitMask row else row.
Definition AddBloom (index : Z) (bloom : list byte) (g : Generator) : outcome gen_error Generator :=
  if g_nextBit g >=? g_sections g then Err errSectionOutOfBounds
  else if negb (g_nextBit g =? index) then Err errUnexpectedIndex
  else
    let byteIndex := Z.to_nat (g_nextBit g / 8) in
    let bitMask := Z.shiftl 1 (7 - g_nextBit g mod 8) in
    Val (mkGenerator (imap (add_bit bloom byteIndex bitMask) (g_blooms g)) (g_sections g) (g_nextBit g + 1)).
Definition Bitset (idx : Z) (g : Generator) : outcome gen_error (list byte) :=
  if negb (g_nextBit g =? g_sections g) then Err errNotGenerated
  else if idx >=? g_sections g then Err errSectionOutOfBounds
  else match g_blooms g !! Z.to_nat idx with Some b => Val b | None => Panic end.

(** ** matcher.go *)

Abbreviation bloomIndexes := (list Z) (only parsing).
Definition calcBloomIndexes (b : list byte) : bloomIndexes :=
  let b := hash256 b in
  (λ i : nat, Z.land (Z.shiftl (byteZ (nth (2 * i) b Byte.x00)) 8) 2047 + byteZ (nth (2 * i + 1) b Byte.x00)) <$> seq 0 3.

Record partialMatches : Type := mkPartial { section : Z; bitset : option (list byte) }.

Record Matcher : Type := mkMatcher {
  sectionSize : Z;
  m_filters : list (list bloomIndexes);
  m_schedulers : gset Z }.

(** A nil clause, [None], drops the whole rule, and so does an empty rule. *)
Definition rule_bits (filter : list (option (list byte))) : option (list bloomIndexes) :=
  if Zlen filter =? 0 then None else mapM (fmap calcBloomIndexes) filter.
(** The schedulers are kept by their bit; only whether there is one matters. *)
Definition addScheduler (idx : Z) (m : Matcher) : Matcher :=
  mkMatcher (sectionSize m) (m_filters m) ({[ idx ]} ∪ m_schedulers m).
Definition NewMatcher (size : Z) (filters : list (list (option (list byte)))) : Matcher :=
  let m := mkMatcher size (omap rule_bits filters) ∅ in
  foldl (λ m idx, addScheduler idx m) m (mjoin (mjoin (m_filters m))).

Section pipeline.
Context {E : Type} (supportsUnaligned : bool) (fetch : Z → Z → outcome E (list byte)).

Definition in_place (op : list byte → list byte → list byte → outcome unit (list byte * Z)) (v data : list byte) : outcome E (list byte) :=
  match op v v data with Val (v, _) => Val v | _ => Panic end.

(** The vectors of the bits of one clause, and-ed. *)
Fixpoint and_loop (size section : Z) (bits : bloomIndexes) (andVector : option (list byte)) : outcome E (option (list byte)) :=
  match bits with
  | [] => Val andVector
  | bit :: bits =>
      data ← fetch bit section;
      v ← match andVector with
          | None => Val (go_copy (zeros (size / 8)) data)
          | Some v => in_place (bitutil.ANDBytes supportsUnaligned) v data
          end;
      and_loop size section bits (Some v)
  end.
(** The clauses of one rule, or-ed. *)
Fixpoint or_loop (size section : Z) (bloom : list bloomIndexes) (orVector : option (list byte)) : outcome E (option (list byte)) :=
  match bloom with
  | [] => Val orVector
  | bits :: bloom =>
      andVector ← and_loop size section bits None;
      v ← match orVector with
          | None => Val andVector
          | Some v => v ← in_place (bitutil.ORBytes supportsUnaligned) v (default [] andVector); Val (Some v)
          end;
      or_loop size section bloom v
  end.
Definition subMatch_step (size : Z) (bloom : list bloomIndexes) (subres : partialMatches) : outcome E (list partialMatches) :=
  orVector ← or_loop size (section subres) bloom None;
  let orVector := default (zeros (size / 8)) orVector in
  orVector ← match bitset subres with
             | Some b => in_place (bitutil.ANDBytes supportsUnaligned) orVector b
             | None => Val orVector
             end;
  Val (if bitutil.TestBytes supportsUnaligned orVector then [mkPartial (section subres) (Some orVector)] else []).
Definition subMatch (m : Matcher) (source : list partialMatches) (bloom : list bloomIndexes) : outcome E (list partialMatches) :=
  if bool_decide (Forall (λ bit, bit ∈ m_schedulers m) (mjoin bloom)) then
    results ← mapM (subMatch_step (sectionSize m) bloom) source;
    Val (mjoin results)
  else Panic.

(** The section numbers stay below [2^64] when a section has more than one
    block. *)
Definition run (m : Matcher) (begin_ end_ : Z) : outcome E (list partialMatches) :=
  let size := sectionSize m in
  if size =? 0 then Panic
  else
    let source := (λ i, mkPartial i (Some (replicate (Z.to_nat (size / 8)) Byte.xff))) <$> seqZ (begin_ / size) (end_ / size - begin_ / size + 1) in
    foldl (λ next bloom, next ≫= λ next, subMatch m next bloom) (Val source) (m_filters m).

(** The blocks of one section, from [i] to [last]. *)
Fixpoint blocks_loop (fuel : nat) (sectionStart last i : Z) (bits : list byte) : outcome E (list Z) :=
  match fuel with
  | O => NoFuel
  | S fuel =>
      if negb (i <=? last) then Val []
      else
        next ← val_or_panic (bits !! Z.to_nat (u64 (i - sectionStart) / 8));
        if byteZ next =? 0 then blocks_loop fuel sectionStart last (u64 (u64 (i + 7) + 1)) bits
        else
          let bit := 7 - i mod 8 in
          rest ← blocks_loop fuel sectionStart last (u64 (i + 1)) bits;
          Val (if negb (Z.land (byteZ next) (Z.shiftl 1 bit) =? 0) then i :: rest else rest)
  end.
Definition section_blocks (m : Matcher) (begin_ end_ : Z) (res : partialMatches) : outcome E (list Z) :=
  let sectionStart := u64 (section res * sectionSize m) in
  let first := if begin_ >? sectionStart then begin_ else sectionStart in
  let last := u64 (u64 (sectionStart + sectionSize m) - 1) in
  let last := if end_ <? last then end_ else last in
  blocks_loop (S (Z.to_nat (last - first + 1))) sectionStart last first (default [] (bitset res)).
(** The block numbers sent to [results]. *)
Definition Start (m : Matcher) (begin_ end_ : Z) : outcome E (list Z) :=
  sink ← run m begin_ end_;
  blocks ← mapM (section_blocks m begin_ end_) sink;
  Val (mjoin blocks).
End pipeline.
End bloombits.
