(* ===== verification/BloombitsFacts.v ===== *)
(** * Facts about the generator and the matcher of bloom bits *)

From stdpp Require Import base tactics list numbers gmap.
From S2P Require Import Prelude GoMath RlpEncode RlpEncodeFacts RlpRecord Keccak Bitutil BitutilProps TxTypes BlockTypes BlockFacts Bloombits.

#[local] Open Scope Z_scope.
Import blocks bitutil bloombits.
#[local] Opaque keccak.hash256.

(** ** Bits *)

Lemma testbit_SetBytes b i : (0 ≤ i) → Z.testbit (SetBytes b) i =
  match b !! (length b - 1 - Z.to_nat (i / 8))%nat with Some x => (i <? 8 * Zlen b) && Z.testbit (byteZ x) (i mod 8) | None => false end.
Proof.
  revert i. induction b as [|x b IH] using rev_ind; intros i Hi; [by rewrite Z.testbit_0_l|].
  rewrite SetBytes_snoc, testbit_byte by (apply byteZ_range || done). rewrite length_app, Zlen_app. change (Zlen [x]) with 1. cbn [length].
  pose proof (Zlen_nonneg b). case_if.
  - rewrite Z.div_small, Z.mod_small by lia. rewrite lookup_app_r by (cbn; lia). replace (_ - _)%nat with 0%nat by (cbn; lia). cbn. by rewrite (proj2 (Z.ltb_lt _ _)) by lia.
  - rewrite IH by lia. assert (i / 8 = (i - 8) / 8 + 1) as Ed by (rewrite <- Z.div_add by lia; f_equal; lia).
    assert (i mod 8 = (i - 8) mod 8) as -> by (rewrite <- (Z.mod_add (i - 8) 1 8) by lia; f_equal; lia).
    assert (0 ≤ (i - 8) / 8) as Hd by (apply Z.div_pos; lia).
    destruct (Z.ltb_spec i (8 * (Zlen b + 1))) as [Hlt|Hge].
    + rewrite (proj2 (Z.ltb_lt (i - 8) _)) by lia. rewrite lookup_app_l by (unfold Zlen in *; assert ((i - 8) / 8 < Z.of_nat (length b)) by (apply Z.div_lt_upper_bound; lia); lia).
      replace (length b + 1 - 1 - Z.to_nat (i / 8))%nat with (length b - 1 - Z.to_nat ((i - 8) / 8))%nat by lia. done.
    + rewrite (proj2 (Z.ltb_ge (i - 8) _)) by lia. by destruct (b !! _), ((b ++ [x]) !! _).
Qed.

(** Bit [i] of a bloom, the last byte having the lowest bits. *)
Abbreviation bloom_has bloom i := (Z.testbit (SetBytes bloom) i).

Lemma calcBloomIndexes_bits k : calcBloomIndexes k = bloom_bit (keccak.hash256 k) <$> [0; 2; 4]%nat.
Proof.
  unfold calcBloomIndexes, bloom_bit. cbn [seq fmap list_fmap Nat.mul Nat.add]. generalize (keccak.hash256 k). intros h.
  assert (∀ x y, 0 ≤ y < 256 → Z.land (Z.shiftl x 8) 2047 + y = Z.land (y + Z.shiftl x 8) 2047) as H.
  { intros x y Hy. change 2047 with (Z.ones 11). rewrite !Z.land_ones, Z.shiftl_mul_pow2 by lia. change (2 ^ 11) with 2048. change (2 ^ 8) with 256.
    Z.div_mod_to_equations. lia. }
  rewrite !H by apply byteZ_range. done.
Qed.
Lemma covers_bit a i : 0 ≤ i → covers a (Z.shiftl 1 i) ↔ Z.testbit a i = true.
Proof.
  intros Hi. unfold covers. rewrite Z.shiftl_1_l. split; intros H.
  - apply (f_equal (λ z, Z.testbit z i)) in H. rewrite Z.land_spec, Z.pow2_bits_true, andb_true_r in H by done. done.
  - apply Z.bits_inj'. intros n Hn. rewrite Z.land_spec. destruct (decide (i = n)) as [->|Hne]; [by rewrite H|]. by rewrite Z.pow2_bits_false, andb_false_r by done.
Qed.
Lemma covers_lor a x y : covers a (Z.lor x y) ↔ covers a x ∧ covers a y.
Proof.
  unfold covers. split.
  - intros H. split; apply Z.bits_inj'; intros n Hn; apply (f_equal (λ z, Z.testbit z n)) in H; rewrite !Z.land_spec, !Z.lor_spec in *;
      destruct (Z.testbit a n), (Z.testbit x n), (Z.testbit y n); done.
  - intros [Hx Hy]. by rewrite Z.land_lor_distr_r, Hx, Hy.
Qed.
Lemma BloomLookup_bits bloom k : BloomLookup bloom k = forallb (λ i, bloom_has bloom i) (calcBloomIndexes k).
Proof.
  apply eq_bool_prop_intro. rewrite !Is_true_true, BloomLookup_covers, calcBloomIndexes_bits. unfold bloom9. cbn [foldl fmap list_fmap forallb].
  rewrite !covers_lor, !covers_bit, !andb_true_iff by apply bloom_bit_range. unfold covers. rewrite Z.land_0_r. tauto.
Qed.

(** A vector whose bits are given by [p]. *)
Definition vector (n : nat) (p : nat → bool) (v : list byte) : Prop := length v = n ∧ ∀ j, (j < 8 * n)%nat → bit_at v j = p j.
Lemma bit_at_op op f a b j : Bitwise op → (∀ x y n, 0 ≤ n → Z.testbit (op x y) n = f (Z.testbit x n) (Z.testbit y n)) →
  length a = length b → (j < 8 * length a)%nat → bit_at (zip_with (byte_op op) a b) j = f (bit_at a j) (bit_at b j).
Proof.
  intros Hop Hf Hl Hj. rewrite !bit_at_testbit, lookup_zip_with. assert ((j / 8 < length a)%nat) as Hd by (apply Nat.Div0.div_lt_upper_bound; lia).
  destruct (lookup_lt_is_Some_2 a _ Hd) as [x ->], (lookup_lt_is_Some_2 b (j / 8)) as [y ->]; [lia|]. cbn [mbind option_bind].
  rewrite byteZ_op by done. apply Hf. pose proof (Z.mod_pos_bound (Z.of_nat j) 8 ltac:(lia)). lia.
Qed.
Lemma in_place_bulk {E} op arch_op (f : bool → bool → bool) n p q a b : Bitwise op → (∀ x y n, 0 ≤ n → Z.testbit (op x y) n = f (Z.testbit x n) (Z.testbit y n)) →
  (arch_op = safeBytes op ∨ arch_op = fastBytes op) → vector n p a → vector n q b →
  ∃ v, in_place (E:=E) arch_op a b = Val v ∧ vector n (λ j, f (p j) (q j)) v.
Proof.
  intros Hop Hf Ho [Ha Hp] [Hb Hq]. unfold in_place. pose proof (bulk_ok op a a b ltac:(lia)) as [Hs Hfast].
  assert (arch_op a a b = Val (bulk op n a b a, Z.of_nat n)) as ->.
  { replace n with (length a `min` length b)%nat at 1 2 by lia. by destruct Ho as [->| ->]. }
  eexists. split; [done|]. unfold bulk. rewrite !take_ge, drop_ge, app_nil_r by lia. split; [rewrite length_zip_with; lia|].
  intros j Hj. rewrite (bit_at_op op f) by (done || lia). by rewrite Hp, Hq.
Qed.
Lemma ANDBytes_vector {E} arch n p q a b : vector n p a → vector n q b →
  ∃ v, in_place (E:=E) (ANDBytes arch) a b = Val v ∧ vector n (λ j, p j && q j) v.
Proof. apply (in_place_bulk Z.land); [apply _|intros; apply Z.land_spec|destruct arch; [by right|by left]]. Qed.
Lemma ORBytes_vector {E} arch n p q a b : vector n p a → vector n q b →
  ∃ v, in_place (E:=E) (ORBytes arch) a b = Val v ∧ vector n (λ j, p j || q j) v.
Proof. apply (in_place_bulk Z.lor); [apply _|intros; apply Z.lor_spec|destruct arch; [by right|by left]]. Qed.
Lemma TestBytes_vector arch n p v : vector n p v → TestBytes arch v = false → ∀ j, (j < 8 * n)%nat → p j = false.
Proof.
  intros [Hl Hp] Ht j Hj. rewrite <- Hp by done. assert (TestBytes arch v = existsb nonzero v) as E by (destruct arch; apply TestBytes_ok).
  destruct (bit_at v j) eqn:Eb; [|done]. apply bit_at_nonzero in Eb. congruence.
Qed.
Lemma vector_ones n : vector n (λ _, true) (replicate n Byte.xff).
Proof.
  split; [apply length_replicate|]. intros j Hj. rewrite bit_at_testbit, lookup_replicate_2 by (apply Nat.Div0.div_lt_upper_bound; lia).
  pose proof (Z.mod_pos_bound (Z.of_nat j) 8 ltac:(lia)). change (byteZ Byte.xff) with (Z.ones 8). apply Z.ones_spec_low. lia.
Qed.
Lemma vector_ext n p q v : vector n p v → (∀ j, (j < 8 * n)%nat → p j = q j) → vector n q v.
Proof. intros [Hl Hp] H. split; [done|]. intros j Hj. by rewrite Hp, H. Qed.

(** ** The generator *)

Lemma add_bit_ok bloom n i row : Zlen bloom = BloomByteLength → (i < 2048)%nat →
  add_bit bloom (n / 8) (Z.shiftl 1 (7 - Z.of_nat n mod 8)) i row = if bloom_has bloom (Z.of_nat i) then set_bit n row else row.
Proof.
  intros Hb Hi. unfold add_bit. change BloomByteLength with 256 in *. unfold Zlen in Hb.
  assert (Z.of_nat i / 8 < 256) as Hd by (apply Z.div_lt_upper_bound; lia). assert (0 ≤ Z.of_nat i / 8) as Hd0 by (apply Z.div_pos; lia).
  rewrite testbit_SetBytes by lia. replace (length bloom - 1 - Z.to_nat (Z.of_nat i / 8))%nat with (Z.to_nat (256 - 1 - Z.of_nat i / 8)) by lia.
  destruct (lookup_lt_is_Some_2 bloom (Z.to_nat (256 - 1 - Z.of_nat i / 8))) as [x Ex]; [lia|]. rewrite Ex, (nth_lookup_Some _ _ _ _ Ex).
  rewrite (proj2 (Z.ltb_lt _ _)) by (unfold Zlen; lia). cbn [andb].
  rewrite mask_testbit by (apply Z.mod_pos_bound; lia). done.
Qed.

(** The blooms [bs] were added. *)
Definition rotated (sections : Z) (bs : list (list byte)) (g : Generator) : Prop :=
  g_sections g = sections ∧ g_nextBit g = Zlen bs ∧ length (g_blooms g) = 2048%nat ∧
  ∀ i row, g_blooms g !! i = Some row → length row = Z.to_nat (sections / 8) ∧
    ∀ j, bit_at row j = match bs !! j with Some b => bloom_has b (Z.of_nat i) | None => false end.

Lemma NewGenerator_ok sections : sections mod 8 = 0 → ∃ g, NewGenerator sections = Val g ∧ rotated sections [] g.
Proof.
  intros Hs. unfold NewGenerator. rewrite Hs. eexists. split; [done|]. split_and!; [done..|]. intros i row [-> _]%lookup_replicate. split; [apply length_zeros|]. intros j. apply bit_at_zeros.
Qed.
Lemma AddBloom_ok sections bs b g index g' : 0 ≤ sections → sections mod 8 = 0 → rotated sections bs g → Zlen b = BloomByteLength →
  AddBloom index b g = Val g' → index = Zlen bs ∧ Zlen bs < sections ∧ rotated sections (bs ++ [b]) g'.
Proof.
  intros Hs0 Hs (E1 & E2 & E3 & Hrow) Hb. unfold AddBloom. rewrite E1, E2. destruct (Z.geb_spec (Zlen bs) sections) as [|Hlt]; [done|].
  destruct (Z.eqb_spec (Zlen bs) index) as [Hi|]; [|done]. cbn [negb]. intros [= <-]. split; [done|]. split; [done|].
  unfold Zlen in *. split_and!; [done|cbn; unfold Zlen; rewrite length_app; cbn; lia|cbn [g_blooms]; by rewrite length_imap|].
  intros i row. cbn [g_blooms]. rewrite list_lookup_imap. destruct (g_blooms g !! i) as [row0|] eqn:E; [|done]. cbn. intros [= <-].
  pose proof (lookup_lt_Some _ _ _ E) as Hil. rewrite E3 in Hil. apply Hrow in E as [Hl Hbits].
  replace (Z.to_nat (Z.of_nat (length bs) / 8)) with (length bs / 8)%nat by (change 8 with (Z.of_nat 8); by rewrite <- Nat2Z.inj_div, Nat2Z.id).
  rewrite add_bit_ok by done.
  assert (length bs < 8 * length row0)%nat as Hroom by (rewrite Hl; apply Z.mod_divide in Hs as [q Hq]; [|lia]; rewrite Hq, Z.div_mul by lia; lia).
  split; [destruct (bloom_has _ _); by rewrite ?set_bit_length|]. intros j. destruct (decide (j = length bs)) as [->|Hne].
  - rewrite lookup_app_r, Nat.sub_diag by lia. cbn [lookup list_lookup]. specialize (Hbits (length bs)). rewrite lookup_ge_None_2 in Hbits by lia.
    destruct (bloom_has b (Z.of_nat i)) eqn:Eh; [|done]. rewrite bit_at_set by done. by rewrite Nat.eqb_refl.
  - assert ((bs ++ [b]) !! j = bs !! j) as ->.
    { destruct (Nat.lt_ge_cases j (length bs)); [by apply lookup_app_l|]. rewrite !lookup_ge_None_2; [done|lia|rewrite length_app; cbn; lia]. }
    rewrite <- Hbits. destruct (bloom_has b (Z.of_nat i)); [|done]. rewrite bit_at_set by done. destruct (Nat.eqb_spec (length bs) j); [lia|done].
Qed.
(** All blooms were added: the row of a bit. *)
Lemma Bitset_ok sections bs g i bits : rotated sections bs g → (i < 2048)%nat → Bitset (Z.of_nat i) g = Val bits →
  Zlen bs = sections ∧ vector (Z.to_nat (sections / 8)) (λ j, match bs !! j with Some b => bloom_has b (Z.of_nat i) | None => false end) bits.
Proof.
  intros (E1 & E2 & E3 & Hrow) Hi. unfold Bitset. rewrite E1, E2. destruct (Z.eqb_spec (Zlen bs) sections) as [Hs|]; [|done]. cbn [negb].
  destruct (_ >=? _); [done|]. rewrite Nat2Z.id. destruct (g_blooms g !! i) as [row|] eqn:E; [|done]. intros [= <-]. split; [done|].
  apply Hrow in E as [Hl Hb]. by split.
Qed.

(** ** The matcher *)

Definition rule_has (rule : list (list Z)) (bloom : list byte) : bool := existsb (forallb (λ i, bloom_has bloom i)) rule.
Definition rule_ok (rule : list (list Z)) : Prop := rule ≠ [] ∧ Forall (λ bits, bits ≠ [] ∧ Forall (λ i, 0 ≤ i < 2048) bits) rule.

Section matcher.
Context {E : Type} (arch : bool) (fetch : Z → Z → outcome E (list byte)) (size : Z) (bloom : Z → list byte) (sections : Z).
Context (Hsize : 0 < size) (Haligned : size mod 8 = 0).
(** The vectors of the sections below [sections] belong to the blooms. *)
Definition delivers : Prop := ∀ bit s, 0 ≤ bit < 2048 → 0 ≤ s < sections →
  ∃ row, fetch bit s = Val row ∧ vector (Z.to_nat (size / 8)) (λ j, bloom_has (bloom (s * size + Z.of_nat j)) bit) row.
Context (Hfetch : delivers).
#[local] Abbreviation n := (Z.to_nat (size / 8)).
#[local] Abbreviation at_ s j := (bloom (s * size + Z.of_nat j)).

Lemma size_8n : size = 8 * Z.of_nat n.
Proof. apply Z.mod_divide in Haligned as [q Hq]; [|lia]. rewrite Hq, Z.div_mul by lia. lia. Qed.

Lemma and_loop_some s bits : 0 ≤ s < sections → Forall (λ i, 0 ≤ i < 2048) bits → ∀ p v, vector n p v →
  ∃ v', and_loop arch fetch size s bits (Some v) = Val (Some v') ∧ vector n (λ j, p j && forallb (λ i, bloom_has (at_ s j) i) bits) v'.
Proof.
  intros Hs. induction 1 as [|bit bits Hbit _ IH]; intros p v Hv; cbn [and_loop forallb].
  - exists v. split; [done|]. eapply vector_ext; [done|]. intros j _. by rewrite andb_true_r.
  - destruct (Hfetch bit s Hbit Hs) as (row & -> & Hrow). cbn [mbind outcome_bind]. destruct (ANDBytes_vector (E:=E) arch n _ _ _ _ Hv Hrow) as (v1 & -> & Hv1).
    cbn [mbind outcome_bind]. destruct (IH _ _ Hv1) as (v2 & -> & Hv2). exists v2. split; [done|]. eapply vector_ext; [done|]. intros j _. cbn. by rewrite andb_assoc.
Qed.
Lemma and_loop_none s bits : 0 ≤ s < sections → bits ≠ [] → Forall (λ i, 0 ≤ i < 2048) bits →
  ∃ v, and_loop arch fetch size s bits None = Val (Some v) ∧ vector n (λ j, forallb (λ i, bloom_has (at_ s j) i) bits) v.
Proof.
  intros Hs Hne Hb. destruct Hb as [|bit bits Hbit Hb]; [done|]. cbn [and_loop]. destruct (Hfetch bit s Hbit Hs) as (row & -> & Hrow). cbn [mbind outcome_bind].
  assert (go_copy (zeros (size / 8)) row = row) as ->.
  { destruct Hrow as [Hl _]. unfold go_copy. rewrite length_zeros, Hl. rewrite take_ge, drop_ge by (rewrite ?length_zeros; lia). apply app_nil_r. }
  destruct (and_loop_some s bits Hs Hb _ _ Hrow) as (v & -> & Hv). by exists v.
Qed.
Lemma or_loop_some s rule : 0 ≤ s < sections → Forall (λ bits, bits ≠ [] ∧ Forall (λ i, 0 ≤ i < 2048) bits) rule → ∀ p v, vector n p v →
  ∃ v', or_loop arch fetch size s rule (Some v) = Val (Some v') ∧ vector n (λ j, p j || rule_has rule (at_ s j)) v'.
Proof.
  intros Hs. induction 1 as [|bits rule [Hne Hb] _ IH]; intros p v Hv; cbn [or_loop].
  - exists v. split; [done|]. eapply vector_ext; [done|]. intros j _. by rewrite orb_false_r.
  - destruct (and_loop_none s bits Hs Hne Hb) as (a & -> & Ha). cbn [mbind outcome_bind default from_option id]. destruct (ORBytes_vector (E:=E) arch n _ _ _ _ Hv Ha) as (v1 & -> & Hv1).
    cbn [mbind outcome_bind]. destruct (IH _ _ Hv1) as (v2 & -> & Hv2). exists v2. split; [done|]. eapply vector_ext; [done|]. intros j _. unfold rule_has. cbn [existsb]. by rewrite orb_assoc.
Qed.
Lemma or_loop_none s rule : 0 ≤ s < sections → rule_ok rule →
  ∃ v, or_loop arch fetch size s rule None = Val (Some v) ∧ vector n (λ j, rule_has rule (at_ s j)) v.
Proof.
  intros Hs [Hne Hr]. destruct Hr as [|bits rule [Hn Hb] Hr]; [done|]. cbn [or_loop]. destruct (and_loop_none s bits Hs Hn Hb) as (a & -> & Ha). cbn [mbind outcome_bind].
  destruct (or_loop_some s rule Hs Hr _ _ Ha) as (v & -> & Hv). by exists v.
Qed.

(** Messages on a channel of the chain: sections in order, those without a
    candidate left out. *)
Inductive stream (p : Z → nat → bool) : list Z → list partialMatches → Prop :=
| stream_nil : stream p [] []
| stream_some s secs v l : vector n (p s) v → stream p secs l → stream p (s :: secs) (mkPartial s (Some v) :: l)
| stream_none s secs l : (∀ j, (j < 8 * n)%nat → p s j = false) → stream p secs l → stream p (s :: secs) l.

Lemma subMatch_step_ok s p v rule : 0 ≤ s < sections → rule_ok rule → vector n p v →
  ∃ l, subMatch_step arch fetch size rule (mkPartial s (Some v)) = Val l ∧
    ((∃ v', l = [mkPartial s (Some v')] ∧ vector n (λ j, p j && rule_has rule (at_ s j)) v') ∨
     (l = [] ∧ ∀ j, (j < 8 * n)%nat → p j && rule_has rule (at_ s j) = false)).
Proof.
  intros Hs Hr Hv. unfold subMatch_step. cbn [section bitset]. destruct (or_loop_none s rule Hs Hr) as (o & -> & Ho). cbn [mbind outcome_bind default from_option id].
  destruct (ANDBytes_vector (E:=E) arch n _ _ _ _ Ho Hv) as (v1 & -> & Hv1). cbn [mbind outcome_bind].
  assert (vector n (λ j, p j && rule_has rule (at_ s j)) v1) as Hv2 by (eapply vector_ext; [done|]; intros; apply andb_comm).
  eexists. split; [done|]. destruct (TestBytes arch v1) eqn:Et; [left; by exists v1|]. right. split; [done|]. by eapply TestBytes_vector.
Qed.
Lemma subMatch_stream rule p secs l : rule_ok rule → stream p secs l → Forall (λ s, 0 ≤ s < sections) secs →
  ∃ ls, mapM (subMatch_step arch fetch size rule) l = Val ls ∧ stream (λ s j, p s j && rule_has rule (at_ s j)) secs (mjoin ls).
Proof.
  intros Hr. induction 1 as [|s secs v l Hv Hl IH|s secs l Hp Hl IH]; intros Hs; [by exists []; split; [|constructor]| |].
  - apply Forall_cons_iff in Hs as [Hs Hss]. destruct (IH Hss) as (ls & Els & Hls), (subMatch_step_ok s _ v rule Hs Hr Hv) as (l1 & E1 & H1).
    exists (l1 :: ls). cbn [mapM]. rewrite E1. cbn [mbind outcome_bind]. rewrite Els. split; [done|]. cbn [mjoin list_join].
    destruct H1 as [(v' & -> & Hv')|[-> Hf]]; [by apply stream_some|by apply stream_none].
  - apply Forall_cons_iff in Hs as [Hs Hss]. destruct (IH Hss) as (ls & Els & Hls). exists ls. split; [done|]. apply stream_none; [|done]. intros j Hj. by rewrite Hp.
Qed.

Definition matcher_ok (m : Matcher) : Prop :=
  sectionSize m = size ∧ Forall rule_ok (m_filters m) ∧ Forall (λ bit, bit ∈ m_schedulers m) (mjoin (mjoin (m_filters m))).
Definition filters_have (m : Matcher) (b : list byte) : bool := forallb (λ rule, rule_has rule b) (m_filters m).

Lemma run_filters m secs rules : sectionSize m = size → Forall (λ s, 0 ≤ s < sections) secs → Forall rule_ok rules → Forall (λ bit, bit ∈ m_schedulers m) (mjoin (mjoin rules)) →
  ∀ p l, stream p secs l → ∃ l', foldl (λ next rule, next ≫= λ next, subMatch arch fetch m next rule) (Val l) rules = Val l' ∧
    stream (λ s j, p s j && forallb (λ rule, rule_has rule (at_ s j)) rules) secs l'.
Proof.
  intros Hm Hs. induction 1 as [|rule rules Hr _ IH]; intros Hb p l Hl; cbn [foldl forallb].
  - exists l. split; [done|]. clear -Hl. induction Hl as [|s secs v l Hv Hl IH|s secs l Hp Hl IH]; constructor; try done; [eapply vector_ext; [done|]; intros; by rewrite andb_true_r|].
    intros j Hj. by rewrite Hp.
  - cbn [mjoin list_join] in Hb. rewrite join_app, Forall_app in Hb. destruct Hb as [Hb1 Hb2]. cbn [mbind outcome_bind].
    destruct (subMatch_stream rule p secs l Hr Hl Hs) as (ls & Els & Hls).
    assert (subMatch arch fetch m l rule = Val (mjoin ls)) as -> by (unfold subMatch; by rewrite bool_decide_eq_true_2, Hm, Els). destruct (IH Hb2 _ _ Hls) as (l' & -> & Hl'). exists l'. split; [done|].
    clear -Hl'. induction Hl' as [|s secs v l Hv Hl IH|s secs l Hp Hl IH]; constructor; try done; [eapply vector_ext; [done|]; intros; cbn; by rewrite andb_assoc|].
    intros j Hj. rewrite andb_assoc. by apply Hp.
Qed.
Lemma run_ok m begin_ end_ : matcher_ok m → 0 ≤ begin_ ≤ end_ → end_ / size < sections →
  ∃ l, run arch fetch m begin_ end_ = Val l ∧ stream (λ s j, filters_have m (at_ s j)) (seqZ (begin_ / size) (end_ / size - begin_ / size + 1)) l.
Proof.
  intros (Hm & Hr & Hb) Hr1 Hr2. unfold run. rewrite Hm, (proj2 (Z.eqb_neq size 0)) by lia.
  assert (Forall (λ s, 0 ≤ s < sections) (seqZ (begin_ / size) (end_ / size - begin_ / size + 1))) as Hs.
  { apply Forall_forall. intros s Hs%elem_of_seqZ. pose proof (Z.div_pos begin_ size ltac:(lia) Hsize). lia. }
  destruct (run_filters m _ (m_filters m) Hm Hs Hr Hb (λ _ _, true) ((λ i, mkPartial i (Some (replicate n Byte.xff))) <$> seqZ (begin_ / size) (end_ / size - begin_ / size + 1))) as (l & -> & Hl); [|by exists l].
  clear. induction (seqZ _ _) as [|s secs IH]; cbn [fmap list_fmap]; constructor; [apply vector_ones|done].
Qed.

(** *** The blocks of a section *)

Lemma filter_nothing {A} (f : A → bool) (l : list A) : Forall (λ a, f a = false) l → filter (λ a, f a = true) l = [].
Proof. induction 1 as [|a l Ha _ IH]; [done|]. rewrite filter_cons_False; [done|]. by rewrite Ha. Qed.
Lemma blocks_loop_ok p v ss last : vector n p v → 0 ≤ ss → ss mod 8 = 0 → last < ss + size → last < 2 ^ 63 → ∀ fuel i, ss ≤ i →
  i mod 8 = 0 ∨ (∃ x, v !! Z.to_nat ((i - ss) / 8) = Some x ∧ byteZ x ≠ 0) → Z.max 0 (last - i + 1) < Z.of_nat fuel →
  blocks_loop (E:=E) fuel ss last i v = Val (filter (λ b, p (Z.to_nat (b - ss)) = true) (seqZ i (last - i + 1))).
Proof.
  intros [Hl Hp] Hss Hm Hlast Hmax. pose proof size_8n as H8. induction fuel as [|fuel IH]; intros i Hi Hok Hf; [lia|]. cbn [blocks_loop].
  destruct (Z.leb_spec i last) as [Hle|]; cbn [negb]; [|by rewrite seqZ_nil by lia].
  rewrite (u64_small (i - ss)) by (unfold is_u64; lia). assert ((i - ss) / 8 < Z.of_nat n) as Hd by (apply Z.div_lt_upper_bound; lia).
  assert (0 ≤ (i - ss) / 8) as Hd0 by (apply Z.div_pos; lia).
  destruct (lookup_lt_is_Some_2 v (Z.to_nat ((i - ss) / 8))) as [x Ex]; [lia|]. rewrite Ex. cbn [val_or_panic mbind outcome_bind].
  assert (∀ k, 0 ≤ k - ss → (k - ss) / 8 = (i - ss) / 8 → k ≤ last → p (Z.to_nat (k - ss)) = Z.testbit (byteZ x) (7 - k mod 8)) as Hbit.
  { intros k Hk Hkd Hkl. rewrite <- Hp by lia. rewrite bit_at_testbit. replace (Z.to_nat (k - ss) / 8)%nat with (Z.to_nat ((i - ss) / 8)) by (rewrite <- Hkd, Z2Nat.inj_div by lia; done).
    rewrite Ex, Z2Nat.id by lia. f_equal. f_equal. Z.div_mod_to_equations. lia. }
  destruct (Z.eqb_spec (byteZ x) 0) as [E0|E0].
  - destruct Hok as [Ha|(y & Ey & Hy)]; [|congruence]. rewrite !u64_small by (unfold is_u64; rewrite ?u64_small; unfold is_u64; lia).
    replace (i + 7 + 1) with (i + 8) by lia. rewrite IH by (try left; Z.div_mod_to_equations; lia). f_equal.
    destruct (Z.le_gt_cases (last - i + 1) 8) as [Hs|Hs].
    + rewrite (seqZ_nil (i + 8)) by lia. symmetry. apply filter_nothing, Forall_forall. intros k Hk%elem_of_seqZ. rewrite Hbit, E0 by (Z.div_mod_to_equations; lia). apply Z.testbit_0_l.
    + replace (last - i + 1) with (8 + (last - (i + 8) + 1)) by lia. rewrite (seqZ_app i 8), filter_app by lia. rewrite (filter_nothing (λ b, p (Z.to_nat (b - ss))) (seqZ i 8)); [done|].
      apply Forall_forall. intros k Hk%elem_of_seqZ. rewrite Hbit, E0 by (Z.div_mod_to_equations; lia). apply Z.testbit_0_l.
  - rewrite u64_small by (unfold is_u64; lia). rewrite IH; [| |destruct (decide ((i + 1) mod 8 = 0)) as [|Hne]; [by left|right; exists x; split; [|done]]|]; [|lia| |lia].
    + cbn [mbind outcome_bind]. rewrite (seqZ_cons i) by lia. rewrite mask_testbit by (Z.div_mod_to_equations; lia). f_equal. rewrite <- (Hbit i) by lia.
      rewrite Z.add_1_r. replace (last - Z.succ i + 1) with (Z.pred (last - i + 1)) by lia. symmetry.
      destruct (p (Z.to_nat (i - ss))) eqn:Ep; [by rewrite filter_cons_True|rewrite filter_cons_False; [done|by rewrite Ep]].
    + rewrite <- Ex. f_equal. f_equal. Z.div_mod_to_equations. lia.
Qed.

Lemma filter_same {A} (f g : A → bool) (l : list A) : (∀ a, a ∈ l → f a = g a) → filter (λ a, f a = true) l = filter (λ a, g a = true) l.
Proof.
  induction l as [|a l IH]; intros H; [done|]. rewrite !filter_cons, (H a) by (by left). rewrite IH by (intros b Hb; apply H; by right). done.
Qed.
Lemma mjoin_cons {A} (l : list A) ls : mjoin (l :: ls) = l ++ mjoin ls.
Proof. done. Qed.
(** The blocks of a section that are between [begin_] and [end_]. *)
Definition range (begin_ end_ s : Z) : list Z :=
  seqZ (Z.max begin_ (s * size)) (Z.min end_ (s * size + size - 1) - Z.max begin_ (s * size) + 1).
Lemma range_elem begin_ end_ s b : b ∈ range begin_ end_ s → b / size = s ∧ b mod size = b - s * size.
Proof.
  intros Hb%elem_of_seqZ. assert (b / size = s) as <- by (symmetry; apply (Z.div_unique b size s (b - s * size)); lia). split; [done|]. rewrite Z.mod_eq by lia. lia.
Qed.
Lemma ranges_all begin_ end_ k : ∀ s0, begin_ / size ≤ s0 → s0 + Z.of_nat k = end_ / size → 0 ≤ begin_ ≤ end_ →
  mjoin (range begin_ end_ <$> seqZ s0 (Z.of_nat k + 1)) = seqZ (Z.max begin_ (s0 * size)) (end_ - Z.max begin_ (s0 * size) + 1).
Proof.
  pose proof (Z.div_mod end_ size ltac:(lia)) as De. pose proof (Z.mod_pos_bound end_ size Hsize) as Me. pose proof (Z.mod_pos_bound begin_ size Hsize) as Mb.
  pose proof (Z.div_mod begin_ size ltac:(lia)) as Db. induction k as [|k IH]; intros s0 Hb He Hr.
  - rewrite Z.add_0_r in He. subst s0. rewrite seqZ_cons, seqZ_nil by lia. cbn [fmap list_fmap mjoin list_join]. rewrite app_nil_r. unfold range. f_equal. nia.
  - rewrite seqZ_cons by lia. replace (Z.pred (Z.of_nat (S k) + 1)) with (Z.of_nat k + 1) by lia. rewrite fmap_cons, mjoin_cons.
    rewrite IH by lia. unfold range.
    rewrite (Z.max_r begin_ (Z.succ s0 * size)) by nia. rewrite (Z.min_r end_) by nia.
    replace (end_ - Z.max begin_ (s0 * size) + 1) with ((s0 * size + size - 1 - Z.max begin_ (s0 * size) + 1) + (end_ - Z.succ s0 * size + 1)) by lia.
    rewrite (seqZ_app (Z.max begin_ (s0 * size)) (s0 * size + size - 1 - Z.max begin_ (s0 * size) + 1) (end_ - Z.succ s0 * size + 1)) by nia. f_equal. f_equal. rewrite Z.mul_succ_l. lia.
Qed.
Lemma section_blocks_ok m p s v begin_ end_ : sectionSize m = size → vector n p v → begin_ mod 8 = 0 → 0 ≤ begin_ → 0 ≤ s → s * size ≤ end_ → end_ < 2 ^ 63 → size < 2 ^ 63 →
  section_blocks (E:=E) m begin_ end_ (mkPartial s (Some v)) = Val (filter (λ b, p (Z.to_nat (b - s * size)) = true) (range begin_ end_ s)).
Proof.
  intros Hm Hv Hal H0 Hs Hle He Hsz. unfold section_blocks. cbn [section bitset default from_option id]. rewrite Hm. unfold range.
  assert (0 ≤ s * size) as Hss by nia. rewrite (u64_small (s * size)), (u64_small (s * size + size)) by (unfold is_u64; lia). rewrite u64_small by (unfold is_u64; lia).
  assert ((s * size) mod 8 = 0) as Hsm by (rewrite Z.mul_mod, Haligned, Z.mul_0_r by lia; done).
  replace (if begin_ >? s * size then begin_ else s * size) with (Z.max begin_ (s * size)) by (destruct (Z.gtb_spec begin_ (s * size)); lia).
  replace (if end_ <? s * size + size - 1 then end_ else s * size + size - 1) with (Z.min end_ (s * size + size - 1)) by (destruct (Z.ltb_spec end_ (s * size + size - 1)); lia).
  apply blocks_loop_ok; try done; try lia. left. destruct (Z.max_spec begin_ (s * size)) as [[_ ->]|[_ ->]]; done.
Qed.
Lemma stream_blocks m p begin_ end_ secs l : sectionSize m = size → begin_ mod 8 = 0 → 0 ≤ begin_ → end_ < 2 ^ 63 → size < 2 ^ 63 →
  stream p secs l → Forall (λ s, 0 ≤ s ∧ s * size ≤ end_) secs →
  ∃ bl, mapM (section_blocks m begin_ end_) l = Val (E:=E) bl ∧ mjoin bl = filter (λ b, p (b / size) (Z.to_nat (b mod size)) = true) (mjoin (range begin_ end_ <$> secs)).
Proof.
  intros Hm Hal H0 He Hsz. pose proof size_8n as H8. induction 1 as [|s secs v l Hv Hl IH|s secs l Hp Hl IH]; intros Hs; [by exists []| |];
    apply Forall_cons_iff in Hs as [[Hs0 Hs1] Hss]; destruct (IH Hss) as (bl & Ebl & Hbl); rewrite fmap_cons, mjoin_cons, filter_app.
  - eexists (_ :: bl). cbn [mapM]. erewrite section_blocks_ok by done. cbn [mbind outcome_bind]. rewrite Ebl. split; [done|]. rewrite mjoin_cons, Hbl. f_equal.
    apply filter_same. intros b [Hd Hmod]%range_elem. by rewrite Hd, Hmod.
  - exists bl. split; [done|]. rewrite Hbl. rewrite (filter_nothing (λ b, p (b / size) (Z.to_nat (b mod size))) (range begin_ end_ s)); [done|]. apply Forall_forall.
    intros b [Hd Hmod]%range_elem. rewrite Hd. apply Hp. pose proof (Z.mod_pos_bound b size Hsize). lia.
Qed.
(** The matcher suggests the blocks whose bloom has a key of every rule. *)
Lemma Start_ok m begin_ end_ : matcher_ok m → 0 ≤ begin_ ≤ end_ → begin_ mod 8 = 0 → end_ / size < sections → end_ < 2 ^ 63 → size < 2 ^ 63 →
  Start arch fetch m begin_ end_ = Val (filter (λ b, filters_have m (bloom b) = true) (seqZ begin_ (end_ - begin_ + 1))).
Proof.
  intros Hm Hr Hal Hs He Hsz. unfold Start. destruct (run_ok m begin_ end_ Hm Hr Hs) as (l & -> & Hl). cbn [mbind outcome_bind].
  pose proof (Z.div_pos begin_ size ltac:(lia) Hsize) as Hb0. pose proof (Z.div_le_mono begin_ end_ size Hsize ltac:(lia)) as Hbe.
  pose proof (Z.mul_div_le end_ size Hsize) as Hme. pose proof (Z.mul_div_le begin_ size Hsize) as Hmb.
  destruct (stream_blocks m _ begin_ end_ _ _ (proj1 Hm) Hal ltac:(lia) He Hsz Hl) as (bl & -> & Hbl).
  { apply Forall_forall. intros s Hin%elem_of_seqZ. split; [lia|]. nia. }
  cbn [mbind outcome_bind]. f_equal. rewrite Hbl. replace (end_ / size - begin_ / size + 1) with (Z.of_nat (Z.to_nat (end_ / size - begin_ / size)) + 1) by lia.
  rewrite ranges_all by lia. rewrite Z.max_l by nia. apply filter_same. intros b Hb%elem_of_seqZ.
  rewrite Z2Nat.id by (apply Z.mod_pos_bound; lia). f_equal. f_equal. rewrite Z.mul_comm. symmetry. apply Z.div_mod. lia.
Qed.
End matcher.

(** ** Construction of a matcher *)

Lemma calcBloomIndexes_ok k : calcBloomIndexes k ≠ [] ∧ Forall (λ i, 0 ≤ i < 2048) (calcBloomIndexes k).
Proof. rewrite calcBloomIndexes_bits. split; [done|]. apply Forall_fmap, Forall_true. intros i. apply bloom_bit_range. Qed.
Lemma rule_bits_keys {A} (f : A → list byte) l : rule_bits (Some ∘ f <$> l) = if Zlen l =? 0 then None else Some (calcBloomIndexes ∘ f <$> l).
Proof.
  unfold rule_bits, Zlen. rewrite length_fmap. case_if; [done|]. clear. induction l as [|a l IH]; [done|]. cbn [fmap list_fmap mapM compose option_fmap option_map mbind option_bind].
  cbn [fmap] in IH. rewrite IH. done.
Qed.
Lemma rule_bits_ok filter rule : rule_bits filter = Some rule → rule_ok rule.
Proof.
  unfold rule_bits. case_if; [done|]. intros H. apply mapM_Some in H. split.
  - intros ->. apply Forall2_nil_inv_r in H as ->. done.
  - clear -H. induction H as [|[k|] bits filter rule Hk _ IH]; [constructor| |done]. cbn in Hk. injection Hk as <-. constructor; [apply calcBloomIndexes_ok|done].
Qed.
Lemma addSchedulers_ok l : ∀ m, let m' := foldl (λ m idx, addScheduler idx m) m l in
  sectionSize m' = sectionSize m ∧ m_filters m' = m_filters m ∧ m_schedulers m ⊆ m_schedulers m' ∧ Forall (λ bit, bit ∈ m_schedulers m') l.
Proof.
  induction l as [|i l IH]; intros m; cbn [foldl]; [done|]. destruct (IH (addScheduler i m)) as (-> & -> & Hs & Hl). split_and!; [done|done| |]; [|constructor; [|done]]; cbn in Hs; set_solver.
Qed.
Lemma NewMatcher_ok size rules : matcher_ok size (NewMatcher size rules).
Proof.
  unfold NewMatcher. destruct (addSchedulers_ok (mjoin (mjoin (omap rule_bits rules))) (mkMatcher size (omap rule_bits rules) ∅)) as (H1 & H2 & _ & H3).
  cbv zeta. cbn [m_filters] in *. unfold matcher_ok. rewrite H2. split_and!; [done| |done]. apply Forall_forall. intros rule (filter & _ & Hf)%list_elem_of_omap. by eapply rule_bits_ok.
Qed.
Lemma NewMatcher_filters size rules : m_filters (NewMatcher size rules) = omap rule_bits rules.
Proof. unfold NewMatcher. cbv zeta. cbn [m_filters]. rewrite (proj1 (proj2 (addSchedulers_ok (mjoin (mjoin (omap rule_bits rules))) (mkMatcher size (omap rule_bits rules) ∅)))). done. Qed.
