(* ===== verification/ChainIndexer.v ===== *)
(** * The chain indexer and the bloom bits index

    [src/blockchain/chain_indexer.go] and [src/node/bloombits.go].  An indexer
    cuts the canonical chain into sections and hands every complete section to
    a backend; the bloom indexer is the only backend, and no indexer has
    children, so the cascade to children is left out.  The indexer runs beside
    the chain: between the headers of a section the chain may change and new
    heads may be announced.  The machine below has one step per critical
    section of the code. *)

From stdpp Require Import base tactics list numbers gmap.
From Stdlib Require Import String.
From S2P Require Import Prelude GoMath RlpEncode RlpDecode RlpRecord RlpCodec Keccak Bitutil Trie TrieMap TxTypes BlockTypes ChainDb Bloombits.

#[local] Open Scope Z_scope.

Module indexer.
Import blocks chaindb bloombits.

(** ** chain_indexer.go *)

(** [Commit] writes to the database. *)
Class ChainIndexerBackend (B E : Type) : Type := {
  Reset : Z → B → outcome E B;
  Process : Header → B → outcome E B;
  Commit : B → Store → Store * outcome E unit }.

(** The index metadata is in a table of the chain database. *)
Definition sectionHead (section : Z) (db : Store) : Z :=
  let hash := default [] (table_Get BloomBitsIndexPrefix (sheadKey section) db) in
  if Zlen hash =? 32 then BytesToHash hash else 0.
Definition setSectionHead (section hash : Z) : Store → Store := table_Put BloomBitsIndexPrefix (sheadKey section) (Hash_Bytes hash).
Definition removeSectionHead (section : Z) : Store → Store := table_Delete BloomBitsIndexPrefix (sheadKey section).

(** [update] is the notification in the channel of that name. *)
Record ChainIndexer (B : Type) : Type := mkIndexer {
  backend : B;
  update : bool;
  sectionSize : Z;
  confirmsReq : Z;
  storedSections : Z;
  knownSections : Z }.
Arguments mkIndexer {B}.
Arguments backend {B}.
Arguments update {B}.
Arguments sectionSize {B}.
Arguments confirmsReq {B}.
Arguments storedSections {B}.
Arguments knownSections {B}.

Section indexer.
Context {B E : Type} {be : ChainIndexerBackend B E}.
Implicit Types c : ChainIndexer B.

Definition set_backend (b : B) c := mkIndexer b (update c) (sectionSize c) (confirmsReq c) (storedSections c) (knownSections c).
Definition set_update (u : bool) c := mkIndexer (backend c) u (sectionSize c) (confirmsReq c) (storedSections c) (knownSections c).
Definition set_stored (n : Z) c := mkIndexer (backend c) (update c) (sectionSize c) (confirmsReq c) n (knownSections c).
Definition set_known (n : Z) c := mkIndexer (backend c) (update c) (sectionSize c) (confirmsReq c) (storedSections c) n.

Definition loadValidSections (db : Store) c : ChainIndexer B :=
  let data := default [] (table_Get BloomBitsIndexPrefix countKey db) in
  if Zlen data =? 8 then set_stored (SetBytes data) c else c.
Definition NewChainIndexer (db : Store) (b : B) (section confirm : Z) : ChainIndexer B :=
  loadValidSections db (mkIndexer b false section confirm 0 0).

(** [todo] sections are removed, from the last one down. *)
Fixpoint remove_sections (todo : nat) (stored : Z) (db : Store) : Store :=
  match todo with
  | O => db
  | S todo => remove_sections todo (stored - 1) (removeSectionHead (stored - 1) db)
  end.
Definition setValidSections (sections : Z) (cs : ChainIndexer B * Store) : ChainIndexer B * Store :=
  let '(c, db) := cs in
  let db := table_Put BloomBitsIndexPrefix countKey (be_bytes 8 sections) db in
  (set_stored sections c, remove_sections (Z.to_nat (storedSections c - sections)) (storedSections c) db).

Definition newHead (head : Z) (reorg : bool) (cs : ChainIndexer B * Store) : ChainIndexer B * Store :=
  let '(c, db) := cs in
  if reorg then
    let changed := head / sectionSize c in
    let c := if changed <? knownSections c then set_known changed c else c in
    if changed <? storedSections c then setValidSections changed (c, db) else (c, db)
  else if head >=? confirmsReq c then
    let sections := u64 (u64 (head + 1) - confirmsReq c) / sectionSize c in
    (if sections >? knownSections c then set_update true (set_known sections c) else c, db)
  else (c, db).

(** An event of the chain: [header] is the new head, [prev] the one before. *)
Definition chainEvent (prev header : Header) (cs : ChainIndexer B * Store) : outcome unit (ChainIndexer B * Store) :=
  cs ← (if negb (ParentHash header =? Header_Hash prev) then
          match FindCommonAncestor (cs.2) prev header with
          | Val (Some a) => Val (newHead (big_Uint64 (Number a)) true cs)
          | Val None => Panic
          | _ => NoFuel
          end
        else Val cs);
  Val (newHead (big_Uint64 (Number header)) false cs).

(** One round of the loop of [processSection]: the header with [number] in the
    canonical chain, if it continues the chain of the headers before it. *)
Inductive index_error : Type := errUnknownBlock | errNotFound | errReorged | errBackend (e : E).
Definition process_header (number lastHead : Z) (db : Store) (b : B) : B * outcome index_error Z :=
  let hash := GetCanonicalHash db number in
  if hash =? 0 then (b, Err errUnknownBlock)
  else
    match GetHeader db hash number with
    | None => (b, Err errNotFound)
    | Some header =>
        if negb (ParentHash header =? lastHead) then (b, Err errReorged)
        else
          match Process header b with
          | Val b => (b, Val (Header_Hash header))
          | _ => (b, Panic)
          end
    end.
Definition commit_section (lastHead : Z) (db : Store) (b : B) : Store * outcome index_error Z :=
  match Commit b db with
  | (db, Val _) => (db, Val lastHead)
  | (db, Err e) => (db, Err (errBackend e))
  | (db, Panic) => (db, Panic)
  | (db, NoFuel) => (db, NoFuel)
  end.
(** The whole section while nothing else runs. *)
Fixpoint process_headers (todo : nat) (number lastHead : Z) (db : Store) (b : B) : B * outcome index_error Z :=
  match todo with
  | O => (b, Val lastHead)
  | S todo =>
      match process_header number lastHead db b with
      | (b, Val head) => process_headers todo (number + 1) head db b
      | r => r
      end
  end.
Definition processSection (size section lastHead : Z) (db : Store) (b : B) : B * Store * outcome index_error Z :=
  match Reset section b with
  | Val b =>
      match process_headers (Z.to_nat size) (u64 (section * size)) lastHead db b with
      | (b, Val head) => let '(db, r) := commit_section head db b in (b, db, r)
      | (b, r) => (b, db, r)
      end
  | _ => (b, db, Panic)
  end.

(** A notification is taken from the channel: the section to process and the
    head of the section before it. *)
Definition update_begin (db : Store) c : ChainIndexer B * option (Z * Z) :=
  let c := set_update false c in
  if knownSections c >? storedSections c then
    let section := storedSections c in
    let oldHead := if section >? 0 then sectionHead (section - 1) db else 0 in
    (c, Some (section, oldHead))
  else (c, None).
(** The section was processed with the result [res], an error being [None]. *)
Definition update_end (section oldHead : Z) (res : option Z) (cs : ChainIndexer B * Store) : ChainIndexer B * Store :=
  let '(c, db) := cs in
  let '(c, db) :=
    match res with
    | Some newHead =>
        if oldHead =? sectionHead (u64 (section - 1)) db then setValidSections (section + 1) (c, setSectionHead section newHead db)
        else (set_known (storedSections c) c, db)
    | None => (set_known (storedSections c) c, db)
    end in
  (if knownSections c >? storedSections c then set_update true c else c, db).

Definition Sections (c : ChainIndexer B) (db : Store) : Z * Z * Z :=
  (storedSections c, u64 (storedSections c * sectionSize c - 1), sectionHead (u64 (storedSections c - 1)) db).
End indexer.
Arguments index_error E : clear implicits.

(** ** node/bloombits.go *)

Definition BloomBitsBlocks : Z := 4096.
Definition bloomConfirms : Z := 256.

Record BloomIndexer : Type := mkBloomIndexer {
  bi_size : Z;
  bi_gen : option Generator;
  bi_section : Z;
  bi_head : Z }.
Definition bi_Reset (section : Z) (b : BloomIndexer) : outcome gen_error BloomIndexer :=
  match NewGenerator (bi_size b) with
  | Val gen => Val (mkBloomIndexer (bi_size b) (Some gen) section 0)
  | _ => Panic
  end.
(** The error of [AddBloom] is ignored. *)
Definition bi_Process (header : Header) (b : BloomIndexer) : outcome gen_error BloomIndexer :=
  match bi_gen b with
  | None => Panic
  | Some gen =>
      let gen := match AddBloom (u64 (big_Uint64 (Number header) - bi_section b * bi_size b)) (h_Bloom header) gen with Val g => g | _ => gen end in
      Val (mkBloomIndexer (bi_size b) (Some gen) (bi_section b) (Header_Hash header))
  end.
Fixpoint commit_loop (todo : list nat) (section head : Z) (gen : Generator) (batch : memBatch) : outcome gen_error memBatch :=
  match todo with
  | [] => Val batch
  | i :: todo =>
      bits ← Bitset (Z.of_nat i) gen;
      data ← match bitutil.CompressBytes bits with Val data => Val data | _ => Panic end;
      commit_loop todo section head gen (batch_Put (bloomBitsKey (Z.of_nat i) section head) data batch)
  end.
Definition bi_Commit (b : BloomIndexer) (db : Store) : Store * outcome gen_error unit :=
  match bi_gen b with
  | None => (db, Panic)
  | Some gen =>
      match commit_loop (seq 0 (Z.to_nat BloomBitLength)) (bi_section b) (bi_head b) gen NewBatch with
      | Val batch => (batch_Write batch db, Val tt)
      | Err e => (db, Err e)
      | Panic => (db, Panic)
      | NoFuel => (db, NoFuel)
      end
  end.
#[global] Instance BloomIndexer_backend : ChainIndexerBackend BloomIndexer gen_error :=
  {| Reset := bi_Reset; Process := bi_Process; Commit := bi_Commit |}.
Definition NewBloomIndexer (db : Store) (size : Z) : ChainIndexer BloomIndexer :=
  NewChainIndexer db (mkBloomIndexer size None 0 0) size bloomConfirms.

(** One retrieval by the handlers of [startBloomHandlers]. *)
Definition serve (size : Z) (db : Store) (bit section : Z) : outcome bitutil.comp_error (list byte) :=
  let head := GetCanonicalHash db (u64 (u64 ((section + 1) * size) - 1)) in
  match bitutil.DecompressBytes (GetBloomBits db bit section head) (size / 8) with
  | Val blob => Val blob
  | _ => Panic
  end.
End indexer.
