(* ===== verification/ChainIndexerFacts.v ===== *)
(** * The chain indexer as a machine and its invariant

    The steps are the critical sections of the indexer and the changes other
    parts of the node make to the chain.  The invariant is proved for every
    backend that obeys [BackendLaws]. *)

From stdpp Require Import base tactics list numbers gmap relations.
From S2P Require Import Prelude GoMath RlpEncode RlpEncodeFacts RlpDecode RlpRecord RlpCodec Keccak KeccakProps Bitutil BitutilProps Trie TrieMap TxTypes BlockTypes BlockFacts ChainDb ChainDbFacts Bloombits BloombitsFacts ChainIndexer.

#[local] Open Scope Z_scope.
Import blocks chaindb bloombits indexer.
#[local] Opaque keccak.hash256 keccak256.

(** ** Chains of headers *)

(** From the hash [p] the headers lead to the hash [q]. *)
Fixpoint linked (p : Z) (hs : list Header) (q : Z) : Prop :=
  match hs with
  | [] => p = q
  | h :: hs => ParentHash h = p ∧ linked (Header_Hash h) hs q
  end.
Lemma linked_snoc p hs q h : linked p hs q → ParentHash h = q → linked p (hs ++ [h]) (Header_Hash h).
Proof. revert p. induction hs as [|x hs IH]; intros p; cbn; [by intros ->|]. intros [? ?] ?. split; [done|by apply IH]. Qed.
Lemma linked_last p hs h q : linked p (hs ++ [h]) q → q = Header_Hash h ∧ linked p hs (ParentHash h).
Proof. revert p. induction hs as [|x hs IH]; intros p; cbn; [by intros [-> <-]|]. intros [-> H]. apply IH in H as [-> ?]. done. Qed.

(** ** What the indexer relies on from a backend *)

(** Entries of the index. *)
Definition index_entry (e : entry) : Prop := match e with KBloom _ _ _ | KIndexCount | KIndexHead _ => True | _ => False end.
Definition same_index (db db' : Store) : Prop := ∀ e, entry_ok e → index_entry e → get (key e) db' = get (key e) db.
(** [Commit] writes bit vectors of its section only. *)
Definition wrote_section (s : Z) (db db' : Store) : Prop := ∀ e, entry_ok e → (∀ bit h, e ≠ KBloom bit s h) → get (key e) db' = get (key e) db.

(** [processed size s hs b]: since [Reset] for section [s] the backend was
    given the headers [hs].  [indexed]: the data of a section is stored. *)
Class BackendLaws (B E : Type) {be : ChainIndexerBackend B E} : Type := {
  ready : Z → B → Prop;
  processed : Z → Z → list Header → B → Prop;
  indexed : Z → Store → Z → list Header → Prop;
  processed_ready size s hs b : processed size s hs b → ready size b;
  Reset_ok size s b b' : ready size b → Reset s b = Val b' → processed size s [] b';
  Process_ok size s hs b h b' : processed size s hs b → Zlen (h_Bloom h) = BloomByteLength → is_u64 (s * size) → Process h b = Val b' → processed size s (hs ++ [h]) b';
  Commit_ok size s hs b db db' r : processed size s hs b → Zlen hs = size → is_u64 s → Commit b db = (db', r) →
    wrote_section s db db' ∧ (r = Val tt → indexed size db' s hs);
  indexed_same size db db' s hs : is_u64 s → indexed size db s hs → (∀ bit h, entry_ok (KBloom bit s h) → get (key (KBloom bit s h)) db' = get (key (KBloom bit s h)) db) → indexed size db' s hs }.

(** ** The machine *)

Inductive activity : Type :=
| Idle
| Processing (section oldHead : Z) (todo : nat) (number lastHead : Z)
| Processed (section oldHead : Z) (res : option Z).
Record machine (B : Type) : Type := mkMachine { m_idx : ChainIndexer B; m_db : Store; m_act : activity }.
Arguments mkMachine {B}.
Arguments m_idx {B}.
Arguments m_db {B}.
Arguments m_act {B}.

Section machine.
Context {B E : Type} {be : ChainIndexerBackend B E} {laws : BackendLaws B E}.
Implicit Types c : ChainIndexer B.

Inductive istep : machine B → machine B → Prop :=
| istep_chain c db act db' : same_index db db' → filed db' → istep (mkMachine c db act) (mkMachine c db' act)
| istep_head c db act head reorg c' db' : is_u64 head → newHead head reorg (c, db) = (c', db') → istep (mkMachine c db act) (mkMachine c' db' act)
| istep_nothing c db c' : update c = true → update_begin db c = (c', None) → istep (mkMachine c db Idle) (mkMachine c' db Idle)
| istep_begin c db c' s oldHead b : update c = true → update_begin db c = (c', Some (s, oldHead)) → Reset s (backend c') = Val b →
    istep (mkMachine c db Idle) (mkMachine (set_backend b c') db (Processing s oldHead (Z.to_nat (sectionSize c)) (u64 (s * sectionSize c)) oldHead))
| istep_header c db s oldHead todo number lastHead b head : process_header number lastHead db (backend c) = (b, Val head) →
    istep (mkMachine c db (Processing s oldHead (S todo) number lastHead)) (mkMachine (set_backend b c) db (Processing s oldHead todo (number + 1) head))
| istep_header_err c db s oldHead todo number lastHead b e : process_header number lastHead db (backend c) = (b, Err e) →
    istep (mkMachine c db (Processing s oldHead (S todo) number lastHead)) (mkMachine (set_backend b c) db (Processed s oldHead None))
| istep_commit c db s oldHead number lastHead db' head : commit_section lastHead db (backend c) = (db', Val head) →
    istep (mkMachine c db (Processing s oldHead 0 number lastHead)) (mkMachine c db' (Processed s oldHead (Some head)))
| istep_commit_err c db s oldHead number lastHead db' e : commit_section lastHead db (backend c) = (db', Err e) →
    istep (mkMachine c db (Processing s oldHead 0 number lastHead)) (mkMachine c db' (Processed s oldHead None))
| istep_finish c db s oldHead res c' db' : update_end s oldHead res (c, db) = (c', db') →
    istep (mkMachine c db (Processed s oldHead res)) (mkMachine c' db' Idle).

(** ** The invariant *)

Definition prevHead (s : Z) (db : Store) : Z := if s >? 0 then sectionHead (s - 1) db else 0.
(** Section [s] holds the data of a chain of headers that ends in its head and
    continues the section before. *)
Definition section_ok (size : Z) (db : Store) (s : Z) : Prop :=
  ∃ hs, Zlen hs = size ∧ linked (prevHead s db) hs (sectionHead s db) ∧ sectionHead s db ≠ 0 ∧ indexed size db s hs.
Definition activity_ok (size stored : Z) (db : Store) (b : B) (act : activity) : Prop :=
  match act with
  | Idle => True
  | Processing s oldHead todo number lastHead =>
      stored ≤ s ∧ is_u64 ((s + 1) * size) ∧ (0 < s → oldHead ≠ 0) ∧ (s = 0 → oldHead = 0) ∧
      ∃ hs, Zlen hs + Z.of_nat todo = size ∧ number = s * size + Zlen hs ∧ linked oldHead hs lastHead ∧ (hs ≠ [] → lastHead ≠ 0 ∧ is_hash lastHead) ∧ processed size s hs b
  | Processed s oldHead res =>
      stored ≤ s ∧ is_u64 ((s + 1) * size) ∧ (0 < s → oldHead ≠ 0) ∧ (s = 0 → oldHead = 0) ∧
      match res with
      | None => True
      | Some head => ∃ hs, Zlen hs = size ∧ linked oldHead hs head ∧ head ≠ 0 ∧ is_hash head ∧ indexed size db s hs
      end
  end.
Record inv (size : Z) (m : machine B) : Prop := {
  inv_size : sectionSize (m_idx m) = size;
  inv_filed : filed (m_db m);
  inv_stored : 0 ≤ storedSections (m_idx m) ∧ is_u64 (storedSections (m_idx m) * size);
  inv_known : 0 ≤ knownSections (m_idx m) ∧ is_u64 (knownSections (m_idx m) * size);
  inv_confirms : is_u64 (confirmsReq (m_idx m));
  inv_ready : ready size (backend (m_idx m));
  inv_sections s : 0 ≤ s < storedSections (m_idx m) → section_ok size (m_db m) s;
  inv_above s : storedSections (m_idx m) ≤ s → is_u64 s → sectionHead s (m_db m) = 0;
  inv_act : activity_ok size (storedSections (m_idx m)) (m_db m) (backend (m_idx m)) (m_act m) }.

(** ** Index entries *)

Lemma sectionHead_get s db : sectionHead s db = let d := get (key (KIndexHead s)) db in if Zlen d =? 32 then BytesToHash d else 0.
Proof. done. Qed.
Lemma sectionHead_same s db db' : get (key (KIndexHead s)) db' = get (key (KIndexHead s)) db → sectionHead s db' = sectionHead s db.
Proof. intros H. by rewrite !sectionHead_get, H. Qed.
Lemma sectionHead_set s s' h db : is_u64 s → is_u64 s' → is_hash h → sectionHead s (setSectionHead s' h db) = if decide (s = s') then h else sectionHead s db.
Proof.
  intros Hs Hs' Hh. rewrite sectionHead_get. change (setSectionHead s' h db) with (db_Put (key (KIndexHead s')) (Hash_Bytes h) db). rewrite get_put by done.
  destruct (decide (s = s')) as [->|Hne]; [rewrite decide_True by done|rewrite decide_False by congruence; done].
  cbv zeta. unfold Zlen. rewrite length_Hash_Bytes. cbn. by apply Hash_Bytes_inv.
Qed.
Lemma remove_sections_get todo e : entry_ok e → ∀ stored db, Z.of_nat todo ≤ stored → is_u64 stored →
  get (key e) (remove_sections todo stored db) =
  match e with KIndexHead s => if decide (stored - Z.of_nat todo ≤ s < stored) then [] else get (key e) db | _ => get (key e) db end.
Proof.
  intros He. induction todo as [|todo IH]; intros stored db Hle Hu; cbn [remove_sections].
  - destruct e; try done. rewrite decide_False by lia. done.
  - unfold is_u64 in *. rewrite IH by lia. change (removeSectionHead (stored - 1) db) with (db_Delete (key (KIndexHead (stored - 1))) db).
    rewrite get_delete by (done || (unfold entry_ok, is_u64; lia)). destruct e as [| | | | | | | | | | | | | | | |x]; try (rewrite decide_False by done; done).
    destruct (decide (x = stored - 1)) as [->|Hne].
    + rewrite (decide_True (P:=KIndexHead _ = _)) by done. rewrite (decide_True (P:=stored - _ ≤ _ < _)) by lia. by case_decide.
    + rewrite (decide_False (P:=KIndexHead _ = _)) by congruence. destruct (decide (stored - 1 - Z.of_nat todo ≤ x < stored - 1)), (decide (stored - Z.of_nat (S todo) ≤ x < stored)); try done; lia.
Qed.
Lemma setValidSections_ok n c db c' db' : 0 ≤ n → is_u64 (storedSections c) → setValidSections n (c, db) = (c', db') →
  c' = set_stored n c ∧ ∀ e, entry_ok e → e ≠ KIndexCount → get (key e) db' =
    match e with KIndexHead s => if decide (n ≤ s < storedSections c) then [] else get (key e) db | _ => get (key e) db end.
Proof.
  intros Hn Hu [= <- <-]. split; [done|]. intros e He Hne. unfold is_u64 in Hu.
  assert (get (key e) (table_Put BloomBitsIndexPrefix countKey (be_bytes 8 n) db) = get (key e) db) as Hp.
  { change (table_Put _ _ _ _) with (db_Put (key KIndexCount) (be_bytes 8 n) db). rewrite get_put by done. by rewrite decide_False. }
  destruct (Z.le_gt_cases n (storedSections c)).
  - rewrite remove_sections_get by (done || unfold is_u64; lia). replace (storedSections c - Z.of_nat (Z.to_nat (storedSections c - n))) with n by lia.
    destruct e; try exact Hp. case_decide; [done|exact Hp].
  - replace (Z.to_nat (storedSections c - n)) with 0%nat by lia. cbn [remove_sections]. destruct e; try exact Hp. rewrite decide_False by lia. exact Hp.
Qed.

(** Two databases with the same index of the sections below [k]. *)
Definition agree_below (k : Z) (db db' : Store) : Prop := ∀ e, entry_ok e → match e with KBloom _ s _ | KIndexHead s => s < k | _ => False end → get (key e) db' = get (key e) db.
Lemma agree_head k db db' s : agree_below k db db' → is_u64 s → s < k → sectionHead s db' = sectionHead s db.
Proof. intros H Hu Hs. apply sectionHead_same. by apply (H (KIndexHead s)). Qed.
Lemma section_ok_agree size k db db' s : agree_below k db db' → is_u64 s → s < k → section_ok size db s → section_ok size db' s.
Proof.
  intros H Hu Hs (hs & Hl & Hlk & Hne & Hi). exists hs. unfold prevHead in *. rewrite !(agree_head k db db' s) by done. split_and!; [done| |done|].
  - destruct (Z.gtb_spec s 0); [|done]. rewrite (agree_head k db db' (s - 1)); [done|done|unfold is_u64 in *; lia|lia].
  - eapply indexed_same; [done|done|]. intros bit h He. by apply (H (KBloom bit s h)).
Qed.
Lemma agree_mono k k' db db' : k' ≤ k → agree_below k db db' → agree_below k' db db'.
Proof. intros Hk H e He Hm. apply H; [done|]. destruct e; try done; lia. Qed.

(** ** Preservation *)

Ltac mach := cbn [m_idx m_db m_act set_backend set_update set_stored set_known backend update indexer.sectionSize confirmsReq storedSections knownSections] in *.

Context (size : Z) (Hsize : 0 < size).

Lemma u64_section s : 0 ≤ s → is_u64 (s * size) → is_u64 s.
Proof. unfold is_u64. nia. Qed.
Lemma u64_section_lt s k : 0 ≤ s < k → is_u64 (k * size) → is_u64 s ∧ is_u64 ((s + 1) * size).
Proof. unfold is_u64. nia. Qed.
Lemma same_index_agree k db db' : same_index db db' → agree_below k db db'.
Proof. intros H e He Hm. apply H; [done|]. by destruct e. Qed.
Lemma activity_same stored stored' db db' b act : activity_ok size stored db b act → stored' ≤ stored → 0 ≤ stored →
  (∀ bit s h, entry_ok (KBloom bit s h) → get (key (KBloom bit s h)) db' = get (key (KBloom bit s h)) db) → activity_ok size stored' db' b act.
Proof.
  intros Ha Hle H0 Hsame. destruct act as [|s o todo n l|s o res]; [done| |].
  - destruct Ha as (Hs & Hrest). split; [lia|done].
  - destruct Ha as (Hs & Hu & Ho & Hz & Hres). split; [lia|]. split_and!; [done..|]. destruct res as [head|]; [|done]. destruct Hres as (hs & ? & ? & ? & ? & Hi). exists hs. split_and!; try done.
    eapply indexed_same; [|done|intros; by apply Hsame]. unfold is_u64 in *. nia.
Qed.

Lemma inv_istep_chain c db act db' : same_index db db' → filed db' → inv size (mkMachine c db act) → inv size (mkMachine c db' act).
Proof.
  intros Hs Hf []. mach. split; mach; try done.
  - intros s Hs'. apply (section_ok_agree size (storedSections c) db); [by apply same_index_agree|eapply u64_section_lt; [done|apply inv_stored0]|lia|by apply inv_sections0].
  - intros s Hle Hu. rewrite <- (inv_above0 s) by done. apply sectionHead_same. by apply (Hs (KIndexHead s)).
  - eapply activity_same; [done|done|apply inv_stored0|]. intros bit s h He. by apply Hs.
Qed.

Lemma inv_istep_head c db act head reorg c' db' : is_u64 head → newHead head reorg (c, db) = (c', db') → inv size (mkMachine c db act) → inv size (mkMachine c' db' act).
Proof.
  intros Hh Eq []. mach. unfold newHead in Eq. rewrite inv_size0 in Eq. destruct reorg.
  - set (changed := head / size) in *. assert (0 ≤ changed ∧ is_u64 (changed * size)) as [Hc Hcu].
    { unfold is_u64 in *. pose proof (Z.mul_div_le head size Hsize). pose proof (Z.div_pos head size ltac:(lia) Hsize). subst changed. nia. }
    set (c1 := if changed <? knownSections c then set_known changed c else c) in *.
    assert (sectionSize c1 = size ∧ storedSections c1 = storedSections c ∧ confirmsReq c1 = confirmsReq c ∧ backend c1 = backend c ∧ 0 ≤ knownSections c1 ∧ is_u64 (knownSections c1 * size)) as (H1 & H2 & H3 & H4 & H5 & H6)
      by (subst c1; destruct (changed <? knownSections c); mach; split_and!; done || apply inv_known0).
    clearbody c1. rewrite H2 in Eq. destruct (Z.ltb_spec changed (storedSections c)) as [Hlt|]; [|injection Eq as <- <-; by split; mach; rewrite ?H1, ?H2, ?H3, ?H4].
    assert (is_u64 (storedSections c)) as Hsu by (apply u64_section; apply inv_stored0).
    apply setValidSections_ok in Eq as [-> Hget]; [|done|by rewrite H2]. rewrite H2 in Hget.
    assert (∀ e, entry_ok e → e ≠ KIndexCount → (∀ s, e = KIndexHead s → s < changed) → get (key e) db' = get (key e) db) as Hkeep.
    { intros e He Hn Hs. rewrite Hget by done. destruct e; try done. rewrite decide_False; [done|]. specialize (Hs _ eq_refl). lia. }
    split; mach; rewrite ?H1, ?H3, ?H4; try done.
    + apply (filed_same db); [done|]. intros hash n Hh' Hn. by apply (Hkeep (KHeader hash n)).
    + intros s Hs. apply (section_ok_agree size changed db); [|eapply u64_section_lt; done|lia|apply inv_sections0; lia]. intros e He Hm. apply Hkeep; [done|by destruct e|]. intros s' ->. done.
    + intros s Hle Hu. rewrite sectionHead_get, Hget by done. destruct (decide (changed ≤ s < storedSections c)); [done|]. apply inv_above0; [lia|done].
    + eapply activity_same; [done|lia|apply inv_stored0|]. intros bit s h He. by apply (Hkeep (KBloom bit s h)).
  - destruct (head >=? confirmsReq c) eqn:Eg; [|injection Eq as <- <-; by split]. injection Eq as <- <-.
    destruct (_ >? _) eqn:Es; [|by split]. split; mach; try done. zbool. unfold is_u64 in *.
    assert (u64 (u64 (head + 1) - confirmsReq c) / size * size ≤ u64 (u64 (head + 1) - confirmsReq c)) by (rewrite Z.mul_comm; apply Z.mul_div_le; lia).
    pose proof (u64_range (u64 (head + 1) - confirmsReq c)) as Hr. unfold is_u64 in Hr. pose proof (Z.div_pos (u64 (u64 (head + 1) - confirmsReq c)) size ltac:(lia) Hsize). nia.
Qed.

Lemma GetCanonicalHash_range db n : is_hash (GetCanonicalHash db n).
Proof. unfold GetCanonicalHash, get_hash. case_if; [done|]. rewrite BytesToHash_spec. by apply Z.mod_pos_bound. Qed.
Lemma header_bloom_length h : c_ok c_Header h → Zlen (h_Bloom h) = BloomByteLength.
Proof. intros H. apply H. Qed.

Lemma inv_istep_nothing c db c' : update_begin db c = (c', None) → inv size (mkMachine c db Idle) → inv size (mkMachine c' db Idle).
Proof. intros Eq []. unfold update_begin in Eq. mach. destruct (_ >? _); [done|]. injection Eq as <-. by split. Qed.
Lemma inv_istep_begin c db c' s oldHead b : update_begin db c = (c', Some (s, oldHead)) → Reset s (backend c') = Val b → inv size (mkMachine c db Idle) →
  inv size (mkMachine (set_backend b c') db (Processing s oldHead (Z.to_nat (indexer.sectionSize c)) (u64 (s * indexer.sectionSize c)) oldHead)).
Proof.
  intros Eq Er []. unfold update_begin in Eq. mach. destruct (Z.gtb_spec (knownSections c) (storedSections c)) as [Hlt|]; [|done]. injection Eq as <- <- <-. mach.
  apply (Reset_ok size) in Er; [|done]. split; mach; try done; [by eapply processed_ready|].
  rewrite inv_size0. destruct inv_stored0 as [H0 Hsu]. split; [done|]. split; [by apply (u64_section_lt (storedSections c) (knownSections c)); [|apply inv_known0]|]. split_and!.
  - intros Hpos. rewrite (proj2 (Z.gtb_lt _ _)) by lia. destruct (inv_sections0 (storedSections c - 1) ltac:(lia)) as (hs & _ & _ & Hne & _). done.
  - intros ->. done.
  - exists []. rewrite u64_small by done. change (Zlen (A:=Header) []) with 0. split_and!; try done; lia.
Qed.
Lemma process_header_ok number lastHead db b b' head : filed db → is_u64 number → process_header number lastHead db b = (b', Val head) →
  ∃ h, c_ok c_Header h ∧ ParentHash h = lastHead ∧ Header_Hash h = head ∧ head ≠ 0 ∧ is_hash head ∧ Process h b = Val b'.
Proof.
  intros Hf Hu. unfold process_header. pose proof (GetCanonicalHash_range db number) as Hr. destruct (Z.eqb_spec (GetCanonicalHash db number) 0) as [|Hne]; [done|].
  destruct (GetHeader db _ number) as [h|] eqn:Eh; [|done]. destruct (Hf _ _ _ Hr Hu Eh) as (Hok & Ehash & _ & _).
  destruct (Z.eqb_spec (ParentHash h) lastHead) as [Ep|]; [|done]. cbn [negb]. destruct (Process h b) as [b1| | |] eqn:Epr; try done. intros [= <- <-].
  exists h. split; [done|]. split; [done|]. split; [done|]. split; [by rewrite Ehash|]. split; [apply Header_Hash_range|done].
Qed.
Lemma inv_istep_header c db s oldHead todo number lastHead b head : process_header number lastHead db (backend c) = (b, Val head) →
  inv size (mkMachine c db (Processing s oldHead (S todo) number lastHead)) → inv size (mkMachine (set_backend b c) db (Processing s oldHead todo (number + 1) head)).
Proof.
  intros Eq []. mach. destruct inv_act0 as (Hs & Hu & Ho & Hz & hs & Hl & -> & Hlk & _ & Hp). unfold Zlen in *.
  apply process_header_ok in Eq as (h & Hok & Hpar & Hh & Hne & Hhr & Hpr); [|done|unfold is_u64 in *; nia].
  eapply Process_ok in Hpr; [|done|by apply header_bloom_length|unfold is_u64 in *; nia]. split; mach; try done; [by eapply processed_ready|].
  split_and!; try done. exists (hs ++ [h]). unfold Zlen. rewrite length_app. cbn [length]. split_and!; [lia|lia| |done|done]. rewrite <- Hh. by eapply linked_snoc.
Qed.
Lemma inv_istep_header_err c db s oldHead todo number lastHead b e : process_header number lastHead db (backend c) = (b, Err e) →
  inv size (mkMachine c db (Processing s oldHead (S todo) number lastHead)) → inv size (mkMachine (set_backend b c) db (Processed s oldHead None)).
Proof.
  intros Eq []. mach. assert (b = backend c) as ->.
  { unfold process_header in Eq. destruct (_ =? 0); [by injection Eq|]. destruct (GetHeader _ _ _) as [h|]; [|by injection Eq]. destruct (negb _); [by injection Eq|]. by destruct (Process h (backend c)). }
  split; mach; try done. destruct inv_act0 as (? & ? & ? & ? & _). done.
Qed.
Lemma commit_section_ok lastHead s hs db b db' r : processed size s hs b → Zlen hs = size → is_u64 s → commit_section lastHead db b = (db', r) →
  wrote_section s db db' ∧ ∀ head, r = Val head → head = lastHead ∧ indexed size db' s hs.
Proof.
  intros Hp Hl Hs. unfold commit_section. destruct (Commit b db) as [db1 r1] eqn:Ec. eapply Commit_ok in Ec as [Hw Hi]; [|done..].
  destruct r1 as [[]|e| |]; intros [= <- <-]; (split; [done|]); intros head Hh; try done. injection Hh as <-. split; [done|by apply Hi].
Qed.
Lemma inv_istep_commit c db s oldHead number lastHead db' r : commit_section lastHead db (backend c) = (db', r) →
  inv size (mkMachine c db (Processing s oldHead 0 number lastHead)) → inv size (mkMachine c db' (Processed s oldHead (match r with Val head => Some head | _ => None end))).
Proof.
  intros Eq []. mach. destruct inv_act0 as (Hs & Hu & Ho & Hz & hs & Hl & -> & Hlk & Hne & Hp). rewrite Z.add_0_r in Hl.
  assert (is_u64 s) as Hsu by (unfold is_u64 in *; nia). eapply commit_section_ok in Eq as [Hw Hr]; [|done..].
  assert (agree_below s db db') as Hag by (intros e He Hm; apply Hw; [done|]; intros bit h ->; lia).
  split; mach; try done.
  - apply (filed_same db); [done|]. intros hash n Hh Hn. by apply (Hw (KHeader hash n)).
  - intros x Hx. apply (section_ok_agree size s db); [done|eapply u64_section_lt; [done|apply inv_stored0]|lia|by apply inv_sections0].
  - intros x Hx Hxu. rewrite <- (inv_above0 x) by done. apply sectionHead_same. by apply (Hw (KIndexHead x)).
  - split_and!; try done. destruct r as [head| | |]; try done. destruct (Hr head eq_refl) as [-> Hi]. exists hs.
    assert (hs ≠ []) as Hhs by (intros ->; change (Zlen (A:=Header) []) with 0 in Hl; lia). destruct (Hne Hhs). split_and!; done.
Qed.

(** A notification changes nothing the invariant is about. *)
Lemma inv_notify b c db act : inv size (mkMachine c db act) → inv size (mkMachine (if b : bool then set_update true c else c) db act).
Proof. intros []. mach. destruct b; by split. Qed.
Lemma inv_given_up c db s oldHead res : inv size (mkMachine c db (Processed s oldHead res)) → inv size (mkMachine (set_known (storedSections c) c) db Idle).
Proof. intros []. mach. by split. Qed.
(** The section before has its old head still: the sections up to it were
    not removed meanwhile. *)
Lemma finish_section c db s oldHead head : inv size (mkMachine c db (Processed s oldHead (Some head))) → oldHead = sectionHead (u64 (s - 1)) db →
  s = storedSections c ∧ oldHead = prevHead s db.
Proof.
  intros [] Ho. mach. destruct inv_act0 as (Hs & Hu & Hne & Hz & _). destruct inv_stored0 as [H0 _].
  assert (is_u64 s) as Hsu by (unfold is_u64 in *; nia). destruct (decide (s = 0)) as [->|Hs0].
  - split; [lia|]. by rewrite Hz.
  - unfold is_u64 in Hsu. rewrite u64_small in Ho by (unfold is_u64; lia). unfold prevHead. rewrite (proj2 (Z.gtb_lt _ _)) by lia. split; [|done].
    destruct (decide (s = storedSections c)) as [|Hlt]; [done|]. exfalso. apply Hne; [lia|]. rewrite Ho. apply inv_above0; [lia|unfold is_u64; lia].
Qed.
Lemma inv_istep_finish c db s oldHead res c' db' : update_end s oldHead res (c, db) = (c', db') →
  inv size (mkMachine c db (Processed s oldHead res)) → inv size (mkMachine c' db' Idle).
Proof.
  intros Eq Hinv. unfold update_end in Eq. destruct res as [head|]; [|injection Eq as <- <-; eapply inv_notify, inv_given_up; done].
  destruct (Z.eqb_spec oldHead (sectionHead (u64 (s - 1)) db)) as [Ho|]; [|injection Eq as <- <-; eapply inv_notify, inv_given_up; done].
  destruct (finish_section _ _ _ _ _ Hinv Ho) as [-> Hprev]. clear Ho. destruct Hinv. mach. destruct inv_act0 as (_ & Hu & _ & _ & hs & Hl & Hlk & Hne & Hhr & Hi).
  destruct inv_stored0 as [H0 Hsu]. pose proof (u64_section _ H0 Hsu) as Hsu'. set (k := storedSections c) in *.
  destruct (setValidSections (k + 1) (c, setSectionHead k head db)) as [c1 db1] eqn:Ev. injection Eq as <- <-. apply inv_notify.
  apply setValidSections_ok in Ev as [-> Hget]; [|lia|done]. fold k in Hget.
  assert (∀ e, entry_ok e → e ≠ KIndexCount → get (key e) db1 = get (key e) (setSectionHead k head db)) as Hg by (intros e He Hn; rewrite Hget by done; destruct e; try done; rewrite decide_False by lia; done).
  assert (∀ e, entry_ok e → e ≠ KIndexCount → e ≠ KIndexHead k → get (key e) db1 = get (key e) db) as Hkeep.
  { intros e He Hn Hk. rewrite Hg by done. change (setSectionHead k head db) with (db_Put (key (KIndexHead k)) (Hash_Bytes head) db). rewrite get_put by done. by rewrite decide_False. }
  assert (∀ x, is_u64 x → sectionHead x db1 = if decide (x = k) then head else sectionHead x db) as Hheads.
  { intros x Hx. rewrite <- sectionHead_set by done. apply sectionHead_same. by apply Hg. }
  assert (agree_below k db db1) as Hag by (intros e He Hm; apply Hkeep; [done|by destruct e|]; intros ->; lia).
  split; mach; try done.
  - apply (filed_same db); [done|]. intros hash n Hh Hn. by apply (Hkeep (KHeader hash n)).
  - split; [lia|done].
  - intros x Hx. destruct (decide (x = k)) as [->|Hne']; [|apply (section_ok_agree size k db); [done|unfold is_u64 in *; lia|lia|apply inv_sections0; lia]].
    exists hs. unfold prevHead in *. rewrite (Hheads k), decide_True by done. split_and!; [done| |done|].
    + revert Hlk. rewrite Hprev. destruct (Z.gtb_spec k 0); [|done]. by rewrite Hheads, decide_False by (unfold is_u64 in *; lia).
    + eapply indexed_same; [done|done|]. intros bit h He. by apply Hkeep.
  - intros x Hx Hxu. rewrite Hheads, decide_False by (done || lia). apply inv_above0; [lia|done].
Qed.

Lemma inv_istep m m' : istep m m' → inv size m → inv size m'.
Proof.
  destruct 1; [by apply inv_istep_chain|by eapply inv_istep_head|by apply inv_istep_nothing|by apply inv_istep_begin|by eapply inv_istep_header|by eapply inv_istep_header_err| | |by eapply inv_istep_finish].
  - by apply (inv_istep_commit c db s oldHead number lastHead db' (Val head)).
  - by apply (inv_istep_commit c db s oldHead number lastHead db' (Err e)).
Qed.
Lemma inv_reachable m m' : rtc istep m m' → inv size m → inv size m'.
Proof. induction 1 as [|m m1 m2 Hs _ IH]; [done|]. intros H. by eapply IH, inv_istep. Qed.
End machine.
