(* ===== verification/ChainIndexerProps.v ===== *)
(** * Properties of the index of bloom bits *)

From stdpp Require Import base tactics list numbers gmap relations.
From S2P Require Import Prelude GoMath RlpEncode RlpEncodeFacts RlpDecode RlpRecord RlpCodec Keccak KeccakProps Bitutil BitutilProps Trie TrieMap TxTypes BlockTypes BlockFacts ChainDb ChainDbFacts Bloombits BloombitsFacts ChainIndexer ChainIndexerFacts.

#[local] Open Scope Z_scope.
Import blocks bitutil chaindb bloombits indexer.
#[local] Opaque keccak.hash256 keccak256.

(** ** The bloom indexer obeys the laws of a backend *)

Definition head_of (hs : list Header) : Z := from_option Header_Hash 0 (last hs).
Definition bloom_bit_of (hs : list Header) (i : nat) (j : nat) : bool := match hs !! j with Some h => bloom_has (h_Bloom h) (Z.of_nat i) | None => false end.

Definition bi_ready (size : Z) (b : BloomIndexer) : Prop := bi_size b = size ∧ 0 < size ∧ size mod 8 = 0.
Definition bi_processed (size s : Z) (hs : list Header) (b : BloomIndexer) : Prop :=
  bi_ready size b ∧ bi_section b = s ∧ (hs ≠ [] → bi_head b = head_of hs) ∧
  ∃ g bs, bi_gen b = Some g ∧ rotated size bs g ∧ (bs = h_Bloom <$> hs ∨ (length bs < length hs)%nat).
(** The compressed row of every bit is stored under the last hash. *)
Definition bi_indexed (size : Z) (db : Store) (s : Z) (hs : list Header) : Prop :=
  hs ≠ [] ∧ ∀ i, (i < 2048)%nat → ∃ row, vector (Z.to_nat (size / 8)) (bloom_bit_of hs i) row ∧ CompressBytes row = Val (GetBloomBits db (Z.of_nat i) s (head_of hs)).

Lemma head_of_snoc hs h : head_of (hs ++ [h]) = Header_Hash h.
Proof. unfold head_of. by rewrite last_snoc. Qed.
Lemma head_of_range hs : is_hash (head_of hs).
Proof. unfold head_of. destruct (last hs); [apply Header_Hash_range|done]. Qed.
Lemma linked_head p hs q : hs ≠ [] → linked p hs q → q = head_of hs.
Proof. intros Hne Hl. destruct hs as [|h hs _] using rev_ind; [done|]. apply linked_last in Hl as [-> _]. by rewrite head_of_snoc. Qed.

Lemma commit_loop_ok s head gen l : ∀ batch batch', commit_loop l s head gen batch = Val batch' →
  ∃ ws, writes batch' = writes batch ++ ws ∧ Forall2 (λ i kv, ∃ bits, Bitset (Z.of_nat i) gen = Val bits ∧ CompressBytes bits = Val kv.2 ∧ kv.1 = key (KBloom (Z.of_nat i) s head)) l ws.
Proof.
  induction l as [|i l IH]; intros batch batch'; cbn [commit_loop]; [intros [= <-]; exists []; by rewrite app_nil_r|].
  destruct (Bitset (Z.of_nat i) gen) as [bits| | |] eqn:Eb; try done. cbn [mbind outcome_bind]. destruct (CompressBytes bits) as [data| | |] eqn:Ec; try done. cbn [mbind outcome_bind].
  intros (ws & Ew & Hws)%IH. exists ((bloomBitsKey (Z.of_nat i) s head, data) :: ws). rewrite Ew. unfold batch_Put. cbn [writes]. rewrite <- app_assoc. split; [done|]. constructor; [|done]. by exists bits.
Qed.
Lemma writes_get s head e l ws db : is_u64 s → is_hash head → entry_ok e → Forall (λ i, i < 2048)%nat l → NoDup l → Forall2 (λ i kv, kv.1 = key (KBloom (Z.of_nat i) s head)) l ws →
  (∀ i kv, (i, kv) ∈ zip l ws → e = KBloom (Z.of_nat i) s head → get (key e) (foldl (λ db kv, db_Put kv.1 kv.2 db) db ws) = kv.2) ∧
  ((∀ i, i ∈ l → e ≠ KBloom (Z.of_nat i) s head) → get (key e) (foldl (λ db kv, db_Put kv.1 kv.2 db) db ws) = get (key e) db).
Proof.
  intros Hs Hh He Hl Hd Hw. revert db. induction Hw as [|i [k v] l ws Hk Hw IH]; intros db; cbn [foldl]; [by split; [intros ? ? ?%elem_of_nil|]|].
  apply Forall_cons_iff in Hl as [Hi Hl]. apply NoDup_cons in Hd as [Hn Hd]. cbn [fst snd] in *. subst k.
  assert (entry_ok (KBloom (Z.of_nat i) s head)) as Hok by (split; [lia|done]). destruct (IH Hl Hd (db_Put (key (KBloom (Z.of_nat i) s head)) v db)) as [H1 H2]. split.
  - intros x kv Hin ->. cbn [zip_with] in Hin. apply elem_of_cons in Hin as [[= -> ->]|Hin]; [|by apply (H1 x)]. cbn [snd].
    rewrite H2; [rewrite get_put by done; by rewrite decide_True|]. intros y Hy [= ->%Nat2Z.inj]. done.
  - intros Hne. rewrite H2 by (intros y Hy; apply Hne; by right). rewrite get_put by done. rewrite decide_False; [done|]. apply Hne. by left.
Qed.
Lemma bi_Commit_ok size s hs b db db' r : bi_processed size s hs b → Zlen hs = size → is_u64 s → bi_Commit b db = (db', r) →
  wrote_section s db db' ∧ (r = Val tt → bi_indexed size db' s hs).
Proof.
  intros ((_ & Hsz & _) & Hs & Hh & g & bs & Hg & Hrot & Hbs) Hl Hu. unfold bi_Commit. rewrite Hg, Hs. assert (hs ≠ []) as Hne by (intros ->; change (Zlen (A:=Header) []) with 0 in Hl; lia).
  rewrite Hh by done. destruct (commit_loop _ _ _ _ _) as [batch|e| |] eqn:Ec; intros [= <- <-]; try (split; [by intros e0|done]).
  apply commit_loop_ok in Ec as (ws & Ew & Hws). cbn in Ew. unfold batch_Write. rewrite Ew. set (l := seq 0 (Z.to_nat BloomBitLength)) in *.
  assert (Forall (λ i, i < 2048)%nat l) as Hlt by (apply Forall_forall; intros i Hi%elem_of_seq; change (Z.to_nat BloomBitLength) with 2048%nat in Hi; lia).
  assert (NoDup l) as Hd by apply NoDup_seq. assert (Forall2 (λ i kv, kv.1 = key (KBloom (Z.of_nat i) s (head_of hs))) l ws) as Hk by (eapply Forall2_impl; [done|]; by intros i kv (? & ? & ? & ?)).
  pose proof (head_of_range hs) as Hr. split.
  - intros e He Hk'. apply (writes_get s (head_of hs) e l ws db); [done..|]. intros i _. apply Hk'.
  - intros _. split; [done|]. intros i Hi. assert (l !! i = Some i) as Eli by (apply lookup_seq; change (Z.to_nat BloomBitLength) with 2048%nat; lia).
    destruct (Forall2_lookup_l _ _ _ _ _ Hws Eli) as (kv & Ekv & bits & Eb & Ec & _). apply (Bitset_ok size bs) in Eb as [Hlb Hv]; [|done|done].
    exists bits. destruct Hbs as [->|Hlt']; [|unfold Zlen in *; lia]. split.
    + eapply vector_ext; [done|]. intros j _. unfold bloom_bit_of. rewrite list_lookup_fmap. by destruct (hs !! j).
    + rewrite Ec. f_equal. symmetry. change (GetBloomBits ?d ?b ?s ?h) with (get (key (KBloom b s h)) d).
      eapply (proj1 (writes_get s (head_of hs) (KBloom (Z.of_nat i) s (head_of hs)) l ws db Hu Hr _ Hlt Hd Hk) i kv); [|done].
      apply list_elem_of_lookup. exists i. apply lookup_zip_with_Some. eauto.
      Unshelve. split; [lia|done].
Qed.
Lemma bi_Process_ok size s hs b h b' : bi_processed size s hs b → Zlen (h_Bloom h) = BloomByteLength → bi_Process h b = Val b' → bi_processed size s (hs ++ [h]) b'.
Proof.
  intros ((Hb & Hsz & H8) & Hs & Hh & g & bs & Hg & Hrot & Hbs) Hbl. unfold bi_Process. rewrite Hg.
  set (index := u64 _). intros [= <-]. split; [done|]. split; [done|]. split; [intros _; by rewrite head_of_snoc|].
  destruct (AddBloom index (h_Bloom h) g) as [g'|e| |] eqn:Ea.
  - apply (AddBloom_ok size bs) in Ea as (_ & _ & Hrot'); [|lia|done|done|done]. exists g', (bs ++ [h_Bloom h]). split_and!; [done|done|]. rewrite fmap_app, !length_app. cbn [length].
    destruct Hbs as [->|Hlt]; [by left|right; lia].
  - exists g, bs. split_and!; [done|done|]. right. rewrite length_app. cbn. destruct Hbs as [->|Hlt]; [rewrite length_fmap|]; lia.
  - unfold AddBloom in Ea. destruct (_ >=? _); [done|]. by destruct (negb _).
  - unfold AddBloom in Ea. destruct (_ >=? _); [done|]. by destruct (negb _).
Qed.
#[global] Instance BloomIndexer_laws : BackendLaws BloomIndexer gen_error.
Proof.
  refine {| ready := bi_ready; processed := bi_processed; indexed := bi_indexed |}.
  - by intros size s hs b [H _].
  - intros size s b b' (<- & Hsz & H8). cbn. unfold bi_Reset. destruct (NewGenerator_ok (bi_size b) H8) as (g & -> & Hg). intros [= <-].
    split; [done|]. split; [done|]. split; [done|]. exists g, []. split_and!; [done|done|by left].
  - intros size s hs b h b' H1 H2 _. by apply bi_Process_ok.
  - intros size s hs b db db' r. apply bi_Commit_ok.
  - intros size db db' s hs Hs [Hne Hi] Hsame. split; [done|]. intros i Hlt. destruct (Hi i Hlt) as (row & Hv & Hc). exists row. split; [done|]. rewrite Hc. f_equal. symmetry.
    apply (Hsame (Z.of_nat i) (head_of hs)). split; [lia|]. split; [done|apply head_of_range].
Defined.

(** ** What the handlers serve *)

Lemma serve_ok size db s hs bit : 0 < size → size mod 8 = 0 → is_u64 ((s + 1) * size) → 0 ≤ s → bi_indexed size db s hs → GetCanonicalHash db ((s + 1) * size - 1) = head_of hs → 0 ≤ bit < 2048 →
  ∃ row, serve size db bit s = Val row ∧ vector (Z.to_nat (size / 8)) (bloom_bit_of hs (Z.to_nat bit)) row.
Proof.
  intros Hsz H8 Hu Hs0 [_ Hi] Hc Hb. destruct (Hi (Z.to_nat bit) ltac:(lia)) as (row & Hv & Hcomp). rewrite Z2Nat.id in Hcomp by lia. exists row. split; [|done].
  unfold serve. unfold is_u64 in Hu. rewrite (u64_small ((s + 1) * size)) by done. rewrite u64_small by (unfold is_u64; nia). rewrite Hc.
  destruct (Compress_ok row) as (out & E1 & _ & E2). rewrite E1 in Hcomp. injection Hcomp as <-.
  replace (size / 8) with (Zlen row); [by rewrite E2|]. destruct Hv as [Hl _]. unfold Zlen. rewrite Hl. apply Z2Nat.id, Z.div_pos; lia.
Qed.
#[global] Instance Header_eq_dec : EqDecision Header.
Proof. solve_decision. Defined.
(** Two chains of the same length to the same hash are the same, or two of
    their headers collide. *)
Lemma linked_unique (hdr : Z → Header) n0 k : ∀ p hs, length hs = S k → linked p hs (Header_Hash (hdr (n0 + Z.of_nat k))) →
  (∀ j, 0 ≤ j < Z.of_nat k → ParentHash (hdr (n0 + j + 1)) = Header_Hash (hdr (n0 + j))) →
  hs = hdr <$> seqZ n0 (Z.of_nat (S k)) ∨ ∃ j h, hs !! j = Some h ∧ h ≠ hdr (n0 + Z.of_nat j) ∧ Header_Hash h = Header_Hash (hdr (n0 + Z.of_nat j)).
Proof.
  induction k as [|k IH]; intros p hs Hl Hlk Hpar; destruct hs as [|h hs _] using rev_ind; try done; rewrite length_app in Hl; cbn [length] in Hl; apply linked_last in Hlk as [Eh Hlk];
    assert (∀ m, length hs = m → (hs ++ [h]) !! m = Some h) as Hlast by (intros m <-; rewrite lookup_app_r, Nat.sub_diag by lia; done).
  - destruct (decide (h = hdr (n0 + Z.of_nat 0))) as [->|Hne]; [|right; exists 0%nat, h; split_and!; [apply Hlast; lia|done|done]].
    left. destruct hs; [|cbn in Hl; lia]. cbn. by rewrite Z.add_0_r.
  - destruct (decide (h = hdr (n0 + Z.of_nat (S k)))) as [->|Hne]; [|right; exists (S k), h; split_and!; [apply Hlast; lia|done|done]].
    replace (n0 + Z.of_nat (S k)) with (n0 + Z.of_nat k + 1) in Hlk by lia. rewrite Hpar in Hlk by lia.
    destruct (IH p hs ltac:(lia) Hlk) as [->|(j & x & Ej & Hx)]; [intros j Hj; apply Hpar; lia| |right; exists j, x; split; [by apply lookup_app_l_Some|done]].
    left. replace (Z.of_nat (S (S k))) with (Z.of_nat (S k) + 1) by lia. rewrite seqZ_app, fmap_app by lia. done.
Qed.

(** ** Indexing a section *)

Definition bi_Run (s : Z) (hs : list Header) (b : BloomIndexer) : outcome gen_error BloomIndexer :=
  b ← bi_Reset s b; foldl (λ b h, b ≫= bi_Process h) (Val b) hs.
(** The headers from number [n] on. *)
Definition numbered (n : Z) (hs : list Header) : Prop := ∀ j h, hs !! j = Some h → big_Uint64 (Number h) = n + Z.of_nat j ∧ Zlen (h_Bloom h) = BloomByteLength.

Lemma AddBloom_succeeds sections bs b g : rotated sections bs g → Zlen bs < sections → ∃ g', AddBloom (Zlen bs) b g = Val g'.
Proof. intros (E1 & E2 & _) Hlt. unfold AddBloom. rewrite E1, E2. destruct (Z.geb_spec (Zlen bs) sections); [lia|]. rewrite Z.eqb_refl. by eexists. Qed.
Lemma bi_Process_all size s hs : is_u64 ((s + 1) * size) → 0 ≤ s → ∀ done_ b, numbered (s * size + Zlen done_) hs → Zlen done_ + Zlen hs ≤ size →
  bi_processed size s done_ b → (∃ g, bi_gen b = Some g ∧ rotated size (h_Bloom <$> done_) g) →
  ∃ b', foldl (λ b h, b ≫= bi_Process h) (Val b) hs = Val b' ∧ bi_processed size s (done_ ++ hs) b' ∧ ∃ g, bi_gen b' = Some g ∧ rotated size (h_Bloom <$> (done_ ++ hs)) g.
Proof.
  intros Hu Hs0. induction hs as [|h hs IH]; intros done_ b Hn Hl Hp (g & Hg & Hrot); cbn [foldl]; [exists b; rewrite app_nil_r; split_and!; [done|done|by exists g]|].
  destruct (Hn 0%nat h eq_refl) as [Hnum Hbl]. rewrite Z.add_0_r in Hnum. pose proof Hp as ((Hb & Hsz & H8) & Hs & _). cbn [mbind outcome_bind]. unfold Zlen in *. cbn [length] in Hl.
  destruct (AddBloom_succeeds size (h_Bloom <$> done_) (h_Bloom h) g Hrot) as [g' Ea]; [unfold Zlen; rewrite length_fmap; lia|]. unfold Zlen in Ea. rewrite length_fmap in Ea.
  assert (bi_Process h b = Val (mkBloomIndexer size (Some g') s (Header_Hash h))) as Epr.
  { unfold bi_Process. rewrite Hg, Hnum, Hs, Hb. replace (s * size + Z.of_nat (length done_) - s * size) with (Z.of_nat (length done_)) by lia.
    rewrite u64_small by (unfold is_u64 in *; nia). by rewrite Ea. }
  rewrite Epr. apply (AddBloom_ok size (h_Bloom <$> done_)) in Ea as (_ & _ & Hrot'); [|lia|done|done|done].
  destruct (IH (done_ ++ [h]) (mkBloomIndexer size (Some g') s (Header_Hash h))) as (b' & E' & Hp' & Hg'); [| | | |exists b'; by rewrite cons_middle, app_assoc].
  - intros j x Ej. destruct (Hn (S j) x Ej) as [Hx ?]. split; [|done]. rewrite Hx, length_app. cbn. lia.
  - rewrite length_app. cbn. lia.
  - by eapply bi_Process_ok.
  - exists g'. split; [done|]. by rewrite fmap_app.
Qed.
Lemma commit_loop_succeeds size bs gen s head l : rotated size bs gen → Zlen bs = size → 2048 ≤ size → Forall (λ i, i < 2048)%nat l → ∀ batch, ∃ batch', commit_loop l s head gen batch = Val batch'.
Proof.
  intros (E1 & E2 & E3 & _) Hl Hsz. induction 1 as [|i l Hi _ IH]; intros batch; cbn [commit_loop]; [by eexists|].
  unfold Bitset. rewrite E1, E2, Hl, Z.eqb_refl. cbn [negb]. destruct (Z.geb_spec (Z.of_nat i) size); [lia|]. rewrite Nat2Z.id.
  destruct (lookup_lt_is_Some_2 (g_blooms gen) i) as [row ->]; [lia|]. cbn [mbind outcome_bind]. destruct (Compress_ok row) as (out & -> & _). cbn [mbind outcome_bind]. apply IH.
Qed.
Lemma bi_Run_ok size s hs b db : bi_ready size b → 2048 ≤ size → is_u64 ((s + 1) * size) → 0 ≤ s → Zlen hs = size → numbered (s * size) hs →
  ∃ b' db', bi_Run s hs b = Val b' ∧ bi_Commit b' db = (db', Val tt) ∧ wrote_section s db db' ∧ bi_indexed size db' s hs.
Proof.
  intros Hr Hsz Hu Hs0 Hl Hn. pose proof Hr as (Hb & _ & H8). unfold bi_Run, bi_Reset. rewrite Hb. destruct (NewGenerator_ok size H8) as (g & -> & Hg). cbn [mbind outcome_bind].
  destruct (bi_Process_all size s hs Hu Hs0 [] (mkBloomIndexer size (Some g) s 0)) as (b' & E & Hp & g' & Eg' & Hrot).
  - by rewrite Z.add_0_r.
  - by rewrite Hl.
  - split; [split_and!; [done|lia|done]|]. split; [done|]. split; [done|]. exists g, []. split_and!; [done|done|by left].
  - by exists g.
  - cbn [app] in *. assert (Zlen (h_Bloom <$> hs) = size) as Hlb by (unfold Zlen in *; by rewrite length_fmap).
    assert (is_u64 s) as Hsu by (unfold is_u64 in *; nia).
    destruct (commit_loop_succeeds size _ g' (bi_section b') (bi_head b') (seq 0 (Z.to_nat BloomBitLength)) Hrot Hlb Hsz) with (batch := NewBatch) as [batch Ec].
    { apply Forall_forall. intros i Hi%elem_of_seq. change (Z.to_nat BloomBitLength) with 2048%nat in Hi. lia. }
    exists b'. assert (bi_Commit b' db = (batch_Write batch db, Val tt)) as Ecommit by (unfold bi_Commit; by rewrite Eg', Ec).
    exists (batch_Write batch db). split; [done|]. split; [done|]. destruct (bi_Commit_ok _ _ _ _ _ _ _ Hp Hl Hsu Ecommit) as [Hw Hi]. split; [done|by apply Hi].
Qed.

(** Indexing a section and serving it are inverse: after the headers of a
    section of at least 2048 blocks were processed and committed, every bit
    vector that is served for the canonical head has, for each block, the bit
    of its bloom; committing writes nothing but the vectors of the section. *)
Theorem section_served size s hs b db : bi_ready size b → 2048 ≤ size → is_u64 ((s + 1) * size) → 0 ≤ s → Zlen hs = size → numbered (s * size) hs →
  ∃ b' db', bi_Run s hs b = Val b' ∧ bi_Commit b' db = (db', Val tt) ∧ wrote_section s db db' ∧
    ∀ db'' bit, (∀ bit h, entry_ok (KBloom bit s h) → get (key (KBloom bit s h)) db'' = get (key (KBloom bit s h)) db') →
      GetCanonicalHash db'' ((s + 1) * size - 1) = from_option Header_Hash 0 (last hs) → 0 ≤ bit < 2048 →
      ∃ row, serve size db'' bit s = Val row ∧ Zlen row = size / 8 ∧ ∀ j h, hs !! j = Some h → bit_at row j = bloom_has (h_Bloom h) bit.
Proof.
  intros Hr Hsz Hu Hs0 Hl Hn. destruct (bi_Run_ok size s hs b db Hr Hsz Hu Hs0 Hl Hn) as (b' & db' & E1 & E2 & Hw & Hi). exists b', db'. split_and!; [done..|].
  intros db'' bit Hsame Hc Hb. pose proof Hr as (_ & _ & H8). assert (is_u64 s) as Hsu by (unfold is_u64 in *; nia).
  assert (bi_indexed size db'' s hs) as Hi' by (eapply (indexed_same (BackendLaws:=BloomIndexer_laws) size db'); done).
  destruct (serve_ok size db'' s hs bit ltac:(lia) H8 Hu Hs0 Hi' Hc Hb) as (row & E & Hlr & Hv). exists row. split; [done|]. split.
  - unfold Zlen. rewrite Hlr. apply Z2Nat.id, Z.div_pos; lia.
  - intros j h Ej. pose proof (lookup_lt_Some _ _ _ Ej) as Hj. unfold Zlen in Hl. assert (8 * (size / 8) = size) as H8' by (symmetry; apply Z.div_exact; lia).
    rewrite Hv by lia. unfold bloom_bit_of. rewrite Ej. by rewrite Z2Nat.id by lia.
Qed.

(** ** Indexing a chain *)

(** A database without an index. *)
Definition unindexed (db : Store) : Prop := ∀ e, entry_ok e → index_entry e → get (key e) db = [].
Lemma NewChainIndexer_unindexed {B} db (b : B) size confirm : unindexed db → NewChainIndexer db b size confirm = mkIndexer b false size confirm 0 0.
Proof.
  intros Hun. unfold NewChainIndexer, loadValidSections. change (default [] (table_Get BloomBitsIndexPrefix countKey db)) with (get (key KIndexCount) db). by rewrite Hun.
Qed.
Lemma starting_inv {B E} `{BackendLaws B E} db b size confirm : 0 < size → is_u64 confirm → ready size b → filed db → unindexed db →
  inv size (mkMachine (NewChainIndexer db b size confirm) db Idle).
Proof.
  intros Hsz Hc Hb Hf Hun. rewrite NewChainIndexer_unindexed by done.
  split; cbn [m_idx m_db m_act backend indexer.sectionSize confirmsReq storedSections knownSections]; try done.
  - intros s Hs. lia.
  - intros s _ Hu. rewrite sectionHead_get, (Hun (KIndexHead s)) by done. done.
Qed.

(** C15: The chain indexer is sound in every interleaving: whatever order new
    heads, reorganisations, other writes to the database and the steps of the
    indexer come in, every finished section holds the data of a chain of
    headers that ends in its head and continues the section before it.  Where
    this head is the one of a given chain, the headers are those of that
    chain, unless two different headers of them have the same hash. *)
Theorem index_sound {B E} `{BackendLaws B E} db b size confirm m s : 0 < size → is_u64 confirm → ready size b → filed db → unindexed db →
  rtc istep (mkMachine (NewChainIndexer db b size confirm) db Idle) m → 0 ≤ s < storedSections (m_idx m) →
  let head := sectionHead s (m_db m) in
  ∃ hs, Zlen hs = size ∧ linked (if s >? 0 then sectionHead (s - 1) (m_db m) else 0) hs head ∧ indexed size (m_db m) s hs ∧
    ∀ hdr, head = Header_Hash (hdr ((s + 1) * size - 1)) → (∀ n, s * size ≤ n < (s + 1) * size - 1 → ParentHash (hdr (n + 1)) = Header_Hash (hdr n)) →
      hs = hdr <$> seqZ (s * size) size ∨
      ∃ j h, hs !! j = Some h ∧ h ≠ hdr (s * size + Z.of_nat j) ∧ Header_Hash h = Header_Hash (hdr (s * size + Z.of_nat j)).
Proof.
  intros Hsz Hc Hb Hf Hun Hr Hs head. pose proof (inv_reachable size Hsz _ _ Hr (starting_inv db b size confirm Hsz Hc Hb Hf Hun)) as Hinv.
  destruct (inv_sections _ _ Hinv s Hs) as (hs & Hl & Hlk & Hne & Hi). fold head in Hlk, Hne. exists hs. split_and!; [done..|].
  intros hdr Eh Hpar. unfold Zlen in Hl. destruct (length hs) as [|k] eqn:El; [lia|]. replace ((s + 1) * size - 1) with (s * size + Z.of_nat k) in Eh by lia. rewrite Eh in Hlk.
  pose proof (linked_unique hdr (s * size) k _ hs El Hlk) as Huni. rewrite Hl in Huni. apply Huni. intros j Hj. apply Hpar. lia.
Qed.

(** ** Examples *)

(** The bloom of block [j] has bit [j]. *)
Definition numbered_header (j : Z) : Header := mkHeader 0 0 0xabcd 1 6 0 0 (be_bytes 256 (2 ^ j)) 2 j 4000000 0 1500000000 [] 0 3 [] [].
Definition sample_section : list Header := numbered_header <$> seqZ 0 2048.
Lemma section_served_witness : ∃ db row, serve 2048 db 5 0 = Val row ∧ bit_at row 5 = true ∧ bit_at row 6 = false.
Proof.
  destruct (section_served 2048 0 sample_section (mkBloomIndexer 2048 None 0 0) ∅) as (b' & db' & _ & _ & _ & H); [done|done|done|done|reflexivity| |].
  - intros j h Hj. unfold sample_section in Hj. rewrite list_lookup_fmap in Hj. destruct (seqZ 0 2048 !! j) as [x|] eqn:Ex; [|done]. injection Hj as <-. apply lookup_seqZ in Ex as [-> Hlt]. cbn [Number numbered_header h_Bloom]. split; [|unfold Zlen; by rewrite length_be_bytes].
    rewrite big_Uint64_small by (unfold is_u64; lia). lia.
  - set (head := from_option Header_Hash 0 (last sample_section)) in *. assert (is_hash head) as Hh by apply (head_of_range sample_section). clearbody head.
    exists (db_Put (key (KCanonical 2047)) (Hash_Bytes head) db'). destruct (H (db_Put (key (KCanonical 2047)) (Hash_Bytes head) db') 5) as (row & E & _ & Hbits).
    + intros bit h He. rewrite get_put by done. by rewrite decide_False.
    + change (GetCanonicalHash ?d ((0 + 1) * 2048 - 1)) with (get_hash (key (KCanonical 2047)) d). rewrite get_hash_put by done. by rewrite decide_True.
    + lia.
    + exists row. split; [exact E|]. split; [rewrite (Hbits 5%nat (numbered_header 5))|rewrite (Hbits 6%nat (numbered_header 6))]; reflexivity.
Defined.

(** A backend that remembers the last hash of a section; it indexes the
    genesis block as a section of one. *)
Definition stamp : Type := Z * list Header.
#[local] Instance stamp_backend : ChainIndexerBackend stamp unit := {|
  Reset s _ := Val (s, []);
  Process h b := Val (b.1, b.2 ++ [h]);
  Commit b db := (db_Put (key (KBloom 0 b.1 0)) (Hash_Bytes (head_of b.2)) db, Val tt) |}.
#[local] Instance stamp_laws : BackendLaws stamp unit.
Proof.
  refine {| ready _ _ := True; processed _ s hs b := b = (s, hs); indexed _ db s hs := get (key (KBloom 0 s 0)) db = Hash_Bytes (head_of hs) |}.
  - done.
  - by intros size s b b' _ [= <-].
  - by intros size s hs b h b' -> _ _ [= <-].
  - intros size s hs b db db' r -> _ Hs H. change (Commit (s, hs) db) with (db_Put (key (KBloom 0 s 0)) (Hash_Bytes (head_of hs)) db, @Val unit unit tt) in H. apply (f_equal fst) in H. cbn [fst] in H. subst db'. assert (entry_ok (KBloom 0 s 0)) as Hok by done. split.
    + intros e He Hne. rewrite get_put by done. rewrite decide_False; [done|]. intros ->. by eapply Hne.
    + intros _. rewrite get_put by done. by rewrite decide_True.
  - intros size db db' s hs Hs Hi Hsame. rewrite Hsame; done.
Defined.

#[local] Opaque Header_Hash.
Definition genesis_db : Store := db_Put (key (KCanonical 0)) (Hash_Bytes (Header_Hash genesis)) (chaindb.WriteHeader genesis ∅).1.
Lemma genesis_db_get e : entry_ok e → get (key e) genesis_db =
  if decide (e = KCanonical 0) then Hash_Bytes (Header_Hash genesis) else if decide (e = KHeader (Header_Hash genesis) 0) then c_enc c_Header genesis
  else if decide (e = KNumber (Header_Hash genesis)) then encodeBlockNumber 0 else [].
Proof.
  intros He. unfold genesis_db. rewrite WriteHeader_ok by apply genesis_ok. cbn [fst]. change (number genesis) with 0. pose proof (Header_Hash_range genesis) as Hr. revert Hr.
  generalize (Header_Hash genesis) (c_enc c_Header genesis). intros hash enc Hr. assert (entry_ok (KHeader hash 0) ∧ entry_ok (KNumber hash) ∧ entry_ok (KCanonical 0)) as (H1 & H2 & H3) by done.
  rewrite !get_put by done. done.
Qed.
Lemma genesis_db_filed : filed genesis_db.
Proof. apply filed_put; [|done|done]. apply filed_WriteHeader; [apply filed_empty|apply genesis_ok|reflexivity]. Qed.
Lemma genesis_db_unindexed : unindexed genesis_db.
Proof. intros e He Hi. rewrite (genesis_db_get e He). destruct e; try done; (rewrite decide_False by discriminate); (rewrite decide_False by discriminate); (rewrite decide_False by discriminate); reflexivity. Qed.

Lemma first_section db h : unindexed db → GetCanonicalHash db 0 = Header_Hash h → Header_Hash h ≠ 0 → GetHeader db (Header_Hash h) 0 = Some h → ParentHash h = 0 →
  ∃ m, rtc istep (mkMachine (NewChainIndexer db (0, []) 1 0) db Idle) m ∧ storedSections (m_idx m) = 1.
Proof.
  intros Hun Hc Hne Hh Hp. rewrite NewChainIndexer_unindexed by done.
  set (idx b u stored := mkIndexer b u 1 0 stored 1 : ChainIndexer stamp). set (db1 := db_Put (key (KBloom 0 0 0)) (Hash_Bytes (Header_Hash h)) db).
  set (db2 := table_Put BloomBitsIndexPrefix countKey (be_bytes 8 1) (setSectionHead 0 (Header_Hash h) db1)). exists (mkMachine (idx (0, [h]) false 1) db2 Idle). split; [|done].
  apply (rtc_l _ _ (mkMachine (idx (0, []) true 0) db Idle)); [by apply (istep_head _ _ _ 0 false)|].
  apply (rtc_l _ _ (mkMachine (idx (0, []) false 0) db (Processing 0 0 1 0 0))); [by apply (istep_begin (idx (0, []) true 0) db (idx (0, []) false 0) 0 0 (0, []))|].
  apply (rtc_l _ _ (mkMachine (idx (0, [h]) false 0) db (Processing 0 0 0 1 (Header_Hash h)))).
  { apply (istep_header (idx (0, []) false 0)). unfold process_header. by rewrite Hc, (proj2 (Z.eqb_neq _ _) Hne), Hh, Hp. }
  apply (rtc_l _ _ (mkMachine (idx (0, [h]) false 0) db1 (Processed 0 0 (Some (Header_Hash h))))); [by apply istep_commit|].
  apply rtc_once, istep_finish. unfold update_end. rewrite (proj2 (Z.eqb_eq _ _)); [done|]. symmetry. rewrite sectionHead_get. unfold db1.
  rewrite (get_put (KIndexHead _)) by done. rewrite decide_False by done. by rewrite (Hun (KIndexHead _)).
Qed.
Lemma index_sound_witness : ∃ m hs, rtc istep (mkMachine (NewChainIndexer genesis_db (0, []) 1 0) genesis_db Idle) m ∧
  get (key (KBloom 0 0 0)) (m_db m) = Hash_Bytes (head_of hs) ∧ linked 0 hs (sectionHead 0 (m_db m)).
Proof.
  destruct (first_section genesis_db genesis) as (m & Hm & Hst).
  - exact genesis_db_unindexed.
  - change (GetCanonicalHash genesis_db 0) with (get_hash (key (KCanonical 0)) genesis_db). unfold genesis_db.
    rewrite (get_hash_put (KCanonical 0) (KCanonical 0)); [by rewrite decide_True|done|done|apply Header_Hash_range].
  - rewrite genesis_hash_ok. discriminate.
  - apply (GetHeader_get genesis_db genesis genesis_ok). rewrite genesis_db_get by (split; [apply Header_Hash_range|done]). rewrite decide_False by discriminate. by rewrite decide_True.
  - reflexivity.
  - exists m. destruct (index_sound genesis_db (0, []) 1 0 m 0) as (hs & _ & Hl & Hi & _); [lia|done|done|exact genesis_db_filed|exact genesis_db_unindexed|exact Hm|lia|].
    exists hs. split; [exact Hm|]. split; [exact Hi|exact Hl].
Defined.
