(* ===== verification/Filters.v ===== *)
(** * Log filters

    [src/node/filters/filter.go]: the search for logs, by the index of bloom
    bits where there is one and block by block after it.  Cancelling a search
    through its context is not modelled. *)

From stdpp Require Import base tactics list numbers.
From S2P Require Import Prelude GoMath RlpEncode RlpRecord Keccak TxTypes BlockTypes Bloombits.

#[local] Open Scope Z_scope.

Module filters.
Import blocks bloombits.

(** ** filter.go *)

(** What the filter asks the node for.  [BloomStatus] is the size of a section
    and the number of indexed sections; [ServiceFilter] hands the session to
    threads that retrieve bit vectors, [retrieve] is one retrieval. *)
Class Backend (E : Type) : Type := {
  HeaderByNumber : Z → outcome E (option Header);
  GetReceipts : Z → outcome E (list Receipt);
  BloomStatus : Z * Z;
  retrieve : Z → Z → outcome E (list byte) }.

Record Filter : Type := mkFilter {
  f_begin : Z;
  f_end : Z;
  f_addresses : list Address;
  f_topics : list (list Z);
  f_matcher : Matcher }.
Definition set_begin (n : Z) (f : Filter) : Filter := mkFilter n (f_end f) (f_addresses f) (f_topics f) (f_matcher f).

(** The rules of the matcher: the addresses, if any, and each list of topics. *)
Definition matcher_rules (addresses : list Address) (topics : list (list Z)) : list (list (option (list byte))) :=
  (if Zlen addresses >? 0 then [Some ∘ Address_Bytes <$> addresses] else []) ++ ((λ l : list Z, Some ∘ Hash_Bytes <$> l) <$> topics).

Definition includes (addresses : list Address) (a : Address) : bool := existsb (λ addr, addr =? a) addresses.

(** The topics of the filter against those of the log, position by position;
    an empty list of topics is a wildcard. *)
Fixpoint match_topics (topics : list (list Z)) (log_topics : list Z) : bool :=
  match topics, log_topics with
  | [], _ => true
  | _, [] => true
  | ts :: topics, t :: log_topics => ((Zlen ts =? 0) || existsb (λ topic, t =? topic) ts) && match_topics topics log_topics
  end.
Definition match_log (fromBlock toBlock : option Z) (addresses : list Address) (topics : list (list Z)) (log : Log) : bool :=
  match fromBlock with
  | Some b => negb ((big_Int64 b >=? 0) && (big_Uint64 b >? l_BlockNumber log))
  | None => true
  end &&
  match toBlock with
  | Some b => negb ((big_Int64 b >=? 0) && (big_Uint64 b <? l_BlockNumber log))
  | None => true
  end &&
  negb ((Zlen addresses >? 0) && negb (includes addresses (l_Address log))) &&
  negb (Zlen topics >? Zlen (l_Topics log)) &&
  match_topics topics (l_Topics log).
Definition filterLogs (logs : list Log) (fromBlock toBlock : option Z) (addresses : list Address) (topics : list (list Z)) : list Log :=
  filter (λ log, match_log fromBlock toBlock addresses topics log = true) logs.

Definition bloomFilter (bloom : list byte) (addresses : list Address) (topics : list (list Z)) : bool :=
  ((Zlen addresses =? 0) || existsb (λ addr, BloomLookup bloom (Address_Bytes addr)) addresses) &&
  forallb (λ sub, (Zlen sub =? 0) || existsb (λ topic, BloomLookup bloom (Hash_Bytes topic)) sub) topics.

Section filter.
Context {E : Type} {backend : Backend E} (supportsUnaligned : bool).

Definition New (begin_ end_ : Z) (addresses : list Address) (topics : list (list Z)) : Filter :=
  mkFilter begin_ end_ addresses topics (NewMatcher (fst BloomStatus) (matcher_rules addresses topics)).

Definition checkMatches (f : Filter) (header : Header) : outcome E (list Log) :=
  receipts ← GetReceipts (Header_Hash header);
  let unfiltered := receipts ≫= r_Logs in
  Val (filterLogs unfiltered None None (f_addresses f) (f_topics f)).

(** The logs found so far are returned with an error.  [f.begin++] wraps. *)
Fixpoint unindexedLogs_loop (fuel : nat) (end_ : Z) (logs : list Log) (f : Filter) : Filter * list Log * outcome E unit :=
  match fuel with
  | O => (f, logs, NoFuel)
  | S fuel =>
      if negb (f_begin f <=? i64 end_) then (f, logs, Val tt)
      else
        match HeaderByNumber (f_begin f) with
        | Val (Some header) =>
            let next logs := unindexedLogs_loop fuel end_ logs (set_begin (i64 (f_begin f + 1)) f) in
            if bloomFilter (h_Bloom header) (f_addresses f) (f_topics f) then
              match checkMatches f header with
              | Val found => next (logs ++ found)
              | Err e => (f, logs, Err e)
              | Panic => (f, logs, Panic)
              | NoFuel => (f, logs, NoFuel)
              end
            else next logs
        | Val None => (f, logs, Val tt)
        | Err e => (f, logs, Err e)
        | Panic => (f, logs, Panic)
        | NoFuel => (f, logs, NoFuel)
        end
  end.
(** One round per block of the range, and one to leave. *)
Definition unindexedLogs (end_ : Z) (f : Filter) : Filter * list Log * outcome E unit :=
  unindexedLogs_loop (S (Z.to_nat (i64 end_ - f_begin f + 1))) end_ [] f.

(** The blocks the matcher suggests, one after the other. *)
Fixpoint indexedLogs_loop (end_ : Z) (matches : list Z) (logs : list Log) (f : Filter) : Filter * list Log * outcome E unit :=
  match matches with
  | [] => (set_begin (i64 (i64 end_ + 1)) f, logs, Val tt)
  | number :: matches =>
      match HeaderByNumber (i64 number) with
      | Val (Some header) =>
          match checkMatches f header with
          | Val found => indexedLogs_loop end_ matches (logs ++ found) f
          | Err e => (f, logs, Err e)
          | Panic => (f, logs, Panic)
          | NoFuel => (f, logs, NoFuel)
          end
      | Val None => (f, logs, Val tt)
      | Err e => (f, logs, Err e)
      | Panic => (f, logs, Panic)
      | NoFuel => (f, logs, NoFuel)
      end
  end.
Definition indexedLogs (end_ : Z) (f : Filter) : Filter * list Log * outcome E unit :=
  match Start supportsUnaligned retrieve (f_matcher f) (u64 (f_begin f)) end_ with
  | Val matches => indexedLogs_loop end_ matches [] f
  | Err e => (f, [], Err e)
  | Panic => (f, [], Panic)
  | NoFuel => (f, [], NoFuel)
  end.

Definition LatestBlockNumber : Z := -1.
(** The error of [HeaderByNumber] is ignored. *)
Definition Logs (f : Filter) : Filter * list Log * outcome E unit :=
  match HeaderByNumber LatestBlockNumber with
  | Val (Some header) =>
      let head := big_Uint64 (Number header) in
      let f := if f_begin f =? -1 then set_begin (i64 head) f else f in
      let end_ := if f_end f =? -1 then head else u64 (f_end f) in
      let '(size, sections) := BloomStatus in
      let indexed := u64 (sections * size) in
      let '(f, logs, r) :=
        if indexed >? u64 (f_begin f) then indexedLogs (if indexed >? end_ then end_ else u64 (indexed - 1)) f
        else (f, [], Val tt) in
      match r with
      | Val _ => let '(f, rest, r) := unindexedLogs end_ f in (f, logs ++ rest, r)
      | _ => (f, logs, r)
      end
  | Panic => (f, [], Panic)
  | NoFuel => (f, [], NoFuel)
  | _ => (f, [], Val tt)
  end.
End filter.
End filters.
