(* ===== verification/FiltersProps.v ===== *)
(** * Properties of the log filters *)

From stdpp Require Import base tactics list numbers gmap.
From S2P Require Import Prelude GoMath RlpEncode RlpEncodeFacts RlpRecord Keccak Bitutil BitutilProps TxTypes BlockTypes BlockFacts Bloombits BloombitsFacts Filters.

#[local] Open Scope Z_scope.
Import blocks bitutil bloombits filters.
#[local] Opaque keccak.hash256.

(** ** Blooms do not hide logs *)

Lemma existsb_eqb_elem (x : Z) l : existsb (λ y, x =? y) l = true ↔ x ∈ l.
Proof.
  rewrite existsb_exists. split; [intros (y & Hy & ->%Z.eqb_eq); by apply list_elem_of_In|]. intros Hx. exists x. split; [by apply list_elem_of_In|apply Z.eqb_refl].
Qed.
Lemma match_topics_bloom bloom log_topics : (∀ t, t ∈ log_topics → BloomLookup bloom (Hash_Bytes t) = true) → ∀ topics, (length topics ≤ length log_topics)%nat →
  match_topics topics log_topics = true → forallb (λ sub, (Zlen sub =? 0) || existsb (λ topic, BloomLookup bloom (Hash_Bytes topic)) sub) topics = true.
Proof.
  induction log_topics as [|t log_topics IH]; intros Hb [|ts topics] Hl Hm; try done; [cbn in Hl; lia|]. cbn [match_topics forallb] in *.
  apply andb_true_iff in Hm as [Ht Hm]. rewrite (IH (λ t Ht, Hb t (list_elem_of_further _ _ _ Ht))) by (done || cbn in Hl; lia). rewrite andb_true_r.
  apply orb_true_iff in Ht as [->|Ht]; [done|]. apply orb_true_iff. right. apply existsb_eqb_elem in Ht. apply existsb_exists. exists t.
  split; [by apply list_elem_of_In|]. apply Hb. by left.
Qed.
Lemma match_log_bloom receipts bloom r log addresses topics : CreateBloom receipts = Val bloom → r ∈ receipts → log ∈ r_Logs r →
  match_log None None addresses topics log = true → bloomFilter bloom addresses topics = true.
Proof.
  intros Hc Hr Hl Hm. unfold match_log in Hm. cbn [andb] in Hm. apply andb_true_iff in Hm as [[Ha Ht]%andb_true_iff Htop].
  unfold bloomFilter. apply andb_true_iff. split.
  - apply negb_true_iff, andb_false_iff in Ha. apply orb_true_iff. pose proof (Zlen_nonneg addresses). destruct Ha as [Ha|Ha]; [left; zbool; lia|right].
    apply negb_false_iff in Ha. unfold includes in Ha. apply existsb_exists in Ha as (a & Hin & ->%Z.eqb_eq). apply existsb_exists. eexists. split; [done|].
    eapply CreateBloom_lookup; [done..|]. by left.
  - apply match_topics_bloom with (log_topics := l_Topics log); [|unfold Zlen in Ht; apply negb_true_iff in Ht; zbool; lia|done].
    intros t Hin. eapply CreateBloom_lookup; [done..|]. right. apply list_elem_of_fmap. by exists t.
Qed.

(** ** Searching a chain *)

(** A node that serves the chain of the blocks [0..N] with the headers [hdr]
    and the receipts [recs], of which the first [sections] sections of [size]
    blocks are indexed. *)
Record serves_chain {E} (backend : Backend E) (hdr : Z → Header) (recs : Z → list Receipt) (N size sections : Z) : Prop := {
  sc_range : 0 ≤ N < 2 ^ 63 - 1;
  sc_header n : 0 ≤ n ≤ N → HeaderByNumber n = Val (Some (hdr n));
  sc_latest : HeaderByNumber LatestBlockNumber = Val (Some (hdr N));
  sc_number : Number (hdr N) = N;
  sc_receipts n : 0 ≤ n ≤ N → GetReceipts (Header_Hash (hdr n)) = Val (recs n);
  sc_bloom n : 0 ≤ n ≤ N → CreateBloom (recs n) = Val (h_Bloom (hdr n));
  sc_status : BloomStatus = (size, sections);
  sc_size : 0 < size < 2 ^ 63 ∧ size mod 8 = 0;
  sc_sections : 0 ≤ sections ∧ sections * size ≤ N + 1;
  sc_index : delivers retrieve size (h_Bloom ∘ hdr) sections }.

Section search.
Context {E : Type} (backend : Backend E) (arch : bool) (hdr : Z → Header) (recs : Z → list Receipt) (N size sections : Z).
Context (Hchain : serves_chain backend hdr recs N size sections).
Context (addresses : list Address) (topics : list (list Z)).

(** The logs of a block that match. *)
Definition found (n : Z) : list Log := filterLogs (recs n ≫= r_Logs) None None addresses topics.
Definition for_search (f : Filter) : Prop := f_addresses f = addresses ∧ f_topics f = topics.

Lemma found_bloom n : 0 ≤ n ≤ N → bloomFilter (h_Bloom (hdr n)) addresses topics = false → found n = [].
Proof.
  intros Hn Hb. unfold found, filterLogs. destruct (filter _ _) as [|log l] eqn:Ef; [done|]. exfalso.
  assert (log ∈ filter (λ log, match_log None None addresses topics log = true) (recs n ≫= r_Logs)) as Hin by (rewrite Ef; by left).
  apply list_elem_of_filter in Hin as [Hm Hin]. apply list_elem_of_bind in Hin as (r & Hl & Hr).
  rewrite (match_log_bloom (recs n) _ r log) in Hb; [done| |done|done|done]. by apply (sc_bloom _ _ _ _ _ _ Hchain).
Qed.
Lemma checkMatches_ok f n : for_search f → 0 ≤ n ≤ N → checkMatches f (hdr n) = Val (found n).
Proof. intros [Ha Ht] Hn. unfold checkMatches. rewrite (sc_receipts _ _ _ _ _ _ Hchain n Hn). cbn [mbind outcome_bind]. by rewrite Ha, Ht. Qed.

Lemma unindexed_ok e fuel : e ≤ N → ∀ f logs, for_search f → 0 ≤ f_begin f ≤ e + 1 → e - f_begin f + 1 < Z.of_nat fuel →
  unindexedLogs_loop fuel e logs f = (set_begin (e + 1) f, logs ++ mjoin (found <$> seqZ (f_begin f) (e - f_begin f + 1)), Val tt).
Proof.
  intros He. pose proof (sc_range _ _ _ _ _ _ Hchain) as HN. induction fuel as [|fuel IH]; intros f logs Hf Hb Hfuel; [lia|]. cbn [unindexedLogs_loop].
  rewrite (i64_small e) by lia. destruct (Z.leb_spec (f_begin f) e) as [Hle|Hgt]; cbn [negb].
  - rewrite (sc_header _ _ _ _ _ _ Hchain) by lia. rewrite (i64_small (f_begin f + 1)) by lia. rewrite seqZ_cons, fmap_cons, mjoin_cons by lia.
    replace (Z.pred (e - f_begin f + 1)) with (e - (f_begin f + 1) + 1) by lia. rewrite <- Z.add_1_r.
    assert (∀ logs, unindexedLogs_loop fuel e logs (set_begin (f_begin f + 1) f) =
      (set_begin (e + 1) f, logs ++ mjoin (found <$> seqZ (f_begin f + 1) (e - (f_begin f + 1) + 1)), Val tt)) as Hnext by (intros l; apply IH; [done|cbn; lia|cbn; lia]).
    destruct Hf as [Ha Ht]. rewrite Ha, Ht. destruct (bloomFilter _ addresses topics) eqn:Eb.
    + rewrite checkMatches_ok by (done || lia). by rewrite Hnext, app_assoc.
    + rewrite found_bloom by (done || lia). apply Hnext.
  - replace (f_begin f) with (e + 1) by lia. rewrite seqZ_nil by lia. cbn. rewrite app_nil_r. replace (e + 1) with (f_begin f) by lia. by destruct f.
Qed.
Lemma indexed_loop_ok e matches : e ≤ N → Forall (λ n, 0 ≤ n ≤ N) matches → 0 ≤ e → ∀ f logs, for_search f →
  indexedLogs_loop e matches logs f = (set_begin (e + 1) f, logs ++ mjoin (found <$> matches), Val tt).
Proof.
  pose proof (sc_range _ _ _ _ _ _ Hchain) as HN. intros He Hm H0. induction Hm as [|n matches Hn _ IH]; intros f logs Hf; cbn [indexedLogs_loop].
  - rewrite (i64_small e), i64_small by lia. cbn. by rewrite app_nil_r.
  - rewrite i64_small by lia. rewrite (sc_header _ _ _ _ _ _ Hchain), checkMatches_ok by done. rewrite IH by done. by rewrite fmap_cons, mjoin_cons, app_assoc.
Qed.

(** The matcher and the bloom filter of a block agree. *)
Lemma matcher_bloomFilter b : filters_have (NewMatcher size (matcher_rules addresses topics)) b = bloomFilter b addresses topics.
Proof.
  unfold filters_have. rewrite NewMatcher_filters. unfold matcher_rules, bloomFilter.
  assert (∀ (A : Type) (f : A → list byte) l, existsb (λ a, BloomLookup b (f a)) l = rule_has (calcBloomIndexes ∘ f <$> l) b) as Hrule.
  { intros A f l. unfold rule_has. induction l as [|a l IH]; [done|]. cbn [existsb fmap list_fmap]. by rewrite BloomLookup_bits, IH. }
  rewrite omap_app, forallb_app. f_equal.
  - pose proof (Zlen_nonneg addresses). destruct (Z.gtb_spec (Zlen addresses) 0) as [Hlt|]; [|rewrite (proj2 (Z.eqb_eq _ 0)) by lia; done].
    rewrite (proj2 (Z.eqb_neq _ 0)) by lia. cbn [omap list_omap]. rewrite rule_bits_keys, (proj2 (Z.eqb_neq _ 0)) by lia. cbn [forallb orb]. by rewrite Hrule, andb_true_r.
  - induction topics as [|sub tops IH]; [done|]. cbn [fmap list_fmap omap list_omap forallb]. rewrite rule_bits_keys. rewrite Hrule.
    destruct (Zlen sub =? 0); cbn [forallb orb andb]; [exact IH|]. f_equal. exact IH.
Qed.

Lemma found_candidates p l : Forall (λ n, 0 ≤ n ≤ N) l → (∀ n, p n = bloomFilter (h_Bloom (hdr n)) addresses topics) →
  mjoin (found <$> filter (λ n, p n = true) l) = mjoin (found <$> l).
Proof.
  intros Hl Hp. induction Hl as [|n l Hn _ IH]; [done|]. rewrite fmap_cons, mjoin_cons, <- IH. destruct (p n) eqn:Ep; [by rewrite filter_cons_True|].
  rewrite filter_cons_False by (by rewrite Ep). rewrite found_bloom; [done|done|]. by rewrite <- Hp.
Qed.
Lemma indexedLogs_ok b e f : for_search f → f_begin f = b → f_matcher f = NewMatcher size (matcher_rules addresses topics) →
  0 ≤ b ≤ e → e < sections * size → b mod 8 = 0 →
  indexedLogs arch e f = (set_begin (e + 1) f, mjoin (found <$> seqZ b (e - b + 1)), Val tt).
Proof.
  intros Hf Hb Hm Hr He Hal. destruct (sc_size _ _ _ _ _ _ Hchain) as [Hs H8]. pose proof (sc_sections _ _ _ _ _ _ Hchain) as [H0 Hsec]. pose proof (sc_range _ _ _ _ _ _ Hchain) as HN.
  unfold indexedLogs. rewrite Hm, Hb, u64_small by (unfold is_u64; lia).
  assert (e / size < sections) as Hlt by (apply Z.div_lt_upper_bound; lia).
  rewrite (Start_ok arch retrieve size (h_Bloom ∘ hdr) sections ltac:(lia) H8 (sc_index _ _ _ _ _ _ Hchain) _ b e (NewMatcher_ok _ _)) by lia.
  assert (Forall (λ n, 0 ≤ n ≤ N) (seqZ b (e - b + 1))) as Hall by (apply Forall_forall; intros n Hn%elem_of_seqZ; lia).
  rewrite indexed_loop_ok; [|lia|apply Forall_forall; intros n [_ Hn]%list_elem_of_filter; revert n Hn; by apply Forall_forall|lia|done]. cbn [app]. f_equal. f_equal. apply found_candidates; [done|]. intros n. apply matcher_bloomFilter.
Qed.
Lemma Logs_ok begin_ end_ : let b := if begin_ =? -1 then N else begin_ in let e := if end_ =? -1 then N else end_ in
  0 ≤ b ≤ e → e ≤ N → b mod 8 = 0 ∨ sections * size ≤ b →
  ∃ f, Logs arch (New begin_ end_ addresses topics) = (f, mjoin (found <$> seqZ b (e - b + 1)), Val tt) ∧ f_begin f = e + 1.
Proof.
  intros b e Hr He Hal. destruct (sc_size _ _ _ _ _ _ Hchain) as [Hs H8]. pose proof (sc_sections _ _ _ _ _ _ Hchain) as [H0 Hsec]. pose proof (sc_range _ _ _ _ _ _ Hchain) as HN.
  unfold Logs. rewrite (sc_latest _ _ _ _ _ _ Hchain), (sc_number _ _ _ _ _ _ Hchain), big_Uint64_small by (unfold is_u64; lia).
  set (f0 := if f_begin (New begin_ end_ addresses topics) =? -1 then _ else _).
  assert (for_search f0 ∧ f_begin f0 = b ∧ f_matcher f0 = NewMatcher size (matcher_rules addresses topics) ∧ f_end f0 = end_) as (Hf0 & Hb0 & Hm0 & He0).
  { subst f0 b. cbn [f_begin New]. destruct (begin_ =? -1); cbn; rewrite ?(sc_status _ _ _ _ _ _ Hchain); split_and!; try done. apply i64_small. lia. }
  clearbody f0. rewrite He0, Hb0. replace (if end_ =? -1 then N else u64 end_) with e by (subst e; destruct (Z.eqb_spec end_ (-1)); [done|]; rewrite u64_small; [done|unfold is_u64; lia]).
  rewrite (sc_status _ _ _ _ _ _ Hchain). rewrite (u64_small (sections * size)), (u64_small b) by (unfold is_u64; nia). clearbody b e.
  assert (∀ f, for_search f → 0 ≤ f_begin f ≤ e + 1 → unindexedLogs e f = (set_begin (e + 1) f, mjoin (found <$> seqZ (f_begin f) (e - f_begin f + 1)), Val tt)) as Hun.
  { intros f Hf Hb. unfold unindexedLogs. apply (unindexed_ok e _ He f []); [done|done|rewrite i64_small by lia; lia]. }
  destruct (Z.gtb_spec (sections * size) b) as [Hidx|Hidx].
  - set (e1 := if sections * size >? e then e else u64 (sections * size - 1)).
    assert (b ≤ e1 ≤ e ∧ e1 < sections * size) as [He1 Hlt] by (subst e1; destruct (Z.gtb_spec (sections * size) e); [lia|rewrite u64_small by (unfold is_u64; lia); lia]).
    clearbody e1. rewrite (indexedLogs_ok b e1) by (done || lia || (destruct Hal; [done|lia])).
    rewrite Hun by (done || cbn; lia). exists (set_begin (e + 1) f0). split; [|done]. f_equal. f_equal. cbn [f_begin set_begin]. rewrite <- join_app, <- fmap_app. f_equal. f_equal.
    replace (e - b + 1) with ((e1 - b + 1) + (e - (e1 + 1) + 1)) by lia. rewrite (seqZ_app b (e1 - b + 1) (e - (e1 + 1) + 1)) by lia. f_equal. f_equal. lia.
  - rewrite Hun by (done || lia). rewrite Hb0. by exists (set_begin (e + 1) f0).
Qed.
End search.

(** C13: Searching for logs finds exactly the matching logs of the blocks of the
    range, in order, whether a block is reached through the index of bloom
    bits or by its own bloom: on a node that serves a chain with its blooms
    and the bit vectors of the indexed sections, a search from a block number
    divisible by eight, or above the indexed part, returns without an error
    and leaves the filter behind the range. *)
Theorem Logs_complete {E} (backend : Backend E) arch hdr recs N size sections addresses topics begin_ end_ :
  serves_chain backend hdr recs N size sections →
  let b := if begin_ =? -1 then N else begin_ in
  let e := if end_ =? -1 then N else end_ in
  0 ≤ b ≤ e → e ≤ N → b mod 8 = 0 ∨ sections * size ≤ b →
  ∃ f, Logs arch (New begin_ end_ addresses topics) =
         (f, mjoin ((λ n, filterLogs (recs n ≫= r_Logs) None None addresses topics) <$> seqZ b (e - b + 1)), Val tt) ∧
       f_begin f = e + 1.
Proof. intros H b e Hr He Hal. exact (Logs_ok backend arch hdr recs N size sections H addresses topics begin_ end_ Hr He Hal). Qed.

(** ** A start that is not divisible by eight *)

Lemma blocks_loop_above {E} ss last v fuel : last + 8 < 2 ^ 64 → ∀ i bl, 0 ≤ i → blocks_loop (E:=E) fuel ss last i v = Val bl → Forall (λ b, i ≤ b) bl.
Proof.
  intros Hl. induction fuel as [|fuel IH]; intros i bl Hi; [done|]. cbn [blocks_loop]. destruct (Z.leb_spec i last); cbn [negb]; [|by intros [= <-]].
  destruct (v !! _) as [x|]; [|done]. cbn [val_or_panic mbind outcome_bind]. rewrite !u64_small by (unfold is_u64; rewrite ?u64_small; unfold is_u64; lia). destruct (byteZ x =? 0).
  - intros H1%IH; [|lia]. eapply List.Forall_impl; [|done]. cbn. lia.
  - destruct (blocks_loop fuel ss last (i + 1) v) as [rest| | |] eqn:Er; try done. cbn [mbind outcome_bind]. apply IH in Er; [|lia].
    assert (Forall (λ b, i ≤ b) rest) by (eapply List.Forall_impl; [|done]; cbn; lia). intros [= <-]. destruct (negb _); [by constructor|done].
Qed.

(** C39: A search that starts inside a byte of the bit vector loses blocks: if
    none of the eight blocks around its start is a candidate, none of the
    eight blocks from the start on is reported, although the last of them
    belong to the next byte and may be candidates. *)
Theorem section_blocks_skips {E} m begin_ end_ s v x bl : let ss := s * sectionSize m in
  0 ≤ s → 0 < sectionSize m → ss ≤ begin_ → begin_ ≤ end_ → begin_ < ss + sectionSize m → ss + sectionSize m < 2 ^ 63 →
  v !! Z.to_nat ((begin_ - ss) / 8) = Some x → byteZ x = 0 →
  section_blocks (E:=E) m begin_ end_ (mkPartial s (Some v)) = Val bl → Forall (λ b, begin_ + 8 ≤ b) bl.
Proof.
  intros ss Hs Hsz Hb He Hlt Hmax Ex E0. unfold section_blocks. cbn [section bitset default from_option id]. fold ss. assert (0 ≤ ss) by (subst ss; nia).
  rewrite (u64_small ss), (u64_small (ss + _)) by (unfold is_u64; lia). rewrite (u64_small (_ - 1)) by (unfold is_u64; lia).
  replace (if begin_ >? ss then begin_ else ss) with begin_ by (destruct (Z.gtb_spec begin_ ss); lia).
  set (last := if end_ <? ss + sectionSize m - 1 then end_ else ss + sectionSize m - 1). assert (begin_ ≤ last < 2 ^ 63) as Hlast by (subst last; destruct (Z.ltb_spec end_ (ss + sectionSize m - 1)); lia).
  clearbody last. cbn [blocks_loop]. rewrite (proj2 (Z.leb_le _ _)) by lia. cbn [negb]. rewrite (u64_small (begin_ - ss)) by (unfold is_u64; lia). rewrite Ex. cbn [val_or_panic mbind outcome_bind].
  rewrite E0. cbn [Z.eqb]. rewrite !u64_small by (unfold is_u64; rewrite ?u64_small; unfold is_u64; lia). intros H1%blocks_loop_above; [|lia..]. by replace (begin_ + 8) with (begin_ + 7 + 1) by lia.
Qed.

(** Block 8 is the only candidate; the search from block 5 does not report it,
    the search from block 0 does. *)
Definition candidate_8 : Matcher := mkMatcher 16 [[[1; 2; 3]]] {[ 1; 2; 3 ]}.
Definition vectors_8 (bit section : Z) : outcome unit (list byte) := Val [Byte.x00; Byte.x80].
Example Start_unaligned : Start true vectors_8 candidate_8 5 15 = Val [] ∧ Start true vectors_8 candidate_8 0 15 = Val [8].
Proof. split; vm_compute; reflexivity. Qed.
Lemma section_blocks_skips_witness : section_blocks (E:=unit) candidate_8 5 15 (mkPartial 0 (Some [Byte.x00; Byte.x80])) = Val [] ∧ Forall (λ b, 5 + 8 ≤ b) [].
Proof.
  split; [reflexivity|]. apply (section_blocks_skips (E:=unit) candidate_8 5 15 0 [Byte.x00; Byte.x80] Byte.x00); cbn; try lia; reflexivity.
Defined.

(** A chain of twenty blocks with one log each, two sections of eight blocks
    being indexed. *)
Definition sample_log : Log := mkLog 0x1234 [7; 8] [] 5 9 0 11 0 false.
Definition sample_recs (n : Z) : list Receipt := [mkReceipt [] 1 21000 zero_Bloom [sample_log] 9 0 21000].
Definition bloom_of (recs : list Receipt) : list byte := match CreateBloom recs with Val b => b | _ => [] end.
Lemma bloom_of_ok recs : CreateBloom recs = Val (bloom_of recs).
Proof. unfold bloom_of. destruct (CreateBloom_ok recs) as (b & E & _). by rewrite E. Qed.
#[local] Opaque bloom_of CreateBloom Header_Hash.
Definition sample_bloom : list byte := bloom_of (sample_recs 0).
Definition sample_hdr (n : Z) : Header := mkHeader 0 0 0xabcd 1 6 0 0 sample_bloom 2 n 4000000 0 1500000000 [] 0 3 [] [].
Definition sample_backend : Backend unit := {|
  HeaderByNumber n := Val (if (n =? -1) then Some (sample_hdr 19) else if n <=? 19 then Some (sample_hdr n) else None);
  GetReceipts _ := Val (sample_recs 0);
  BloomStatus := (8, 2);
  retrieve bit _ := Val [if bloom_has sample_bloom bit then Byte.xff else Byte.x00] |}.
Lemma sample_serves : serves_chain sample_backend sample_hdr sample_recs 19 8 2.
Proof.
  split; [lia| |reflexivity|reflexivity|reflexivity| |reflexivity|split; [lia|reflexivity]|lia|].
  - intros n Hn. cbn. rewrite (proj2 (Z.eqb_neq n (-1))) by lia. by rewrite (proj2 (Z.leb_le n 19)) by lia.
  - intros n Hn. apply bloom_of_ok.
  - intros bit s Hb Hs. eexists. split; [reflexivity|]. cbn [compose h_Bloom sample_hdr]. change (Z.to_nat (8 / 8)) with 1%nat.
    destruct (bloom_has sample_bloom bit); [apply (vector_ones 1)|]. split; [done|]. intros j Hj. apply (bit_at_zeros 1).
Qed.
Lemma Logs_complete_witness : ∃ f, Logs (backend:=sample_backend) true (New (backend:=sample_backend) 8 (-1) [0x1234] [[]; [8; 9]]) = (f, replicate 12 sample_log, Val tt) ∧ f_begin f = 20.
Proof.
  apply (Logs_complete sample_backend true sample_hdr sample_recs 19 8 2 [0x1234] [[]; [8; 9]] 8 (-1)); [exact sample_serves|cbn; lia|cbn; lia|left; reflexivity].
Defined.
