(* ===== verification/EvmProps.v ===== *)
(** * Theorems about the EVM *)

From stdpp Require Import base tactics list numbers gmap.
From S2P Require Import Prelude GoMath EvmParams EvmMachine EvmAnalysis EvmGas EvmInstr EvmTable.
From S2P Require Import EvmInterp EvmLaws EvmTermination EvmSafety EvmSafetyRun State.
From S2P Require Import StateFacts StateLaws Concrete.

#[local] Open Scope Z_scope.

(** ** Running a contract *)

Section entry.
Context {DB : Type} {db_ops : StateDB DB} {view : DBView DB} (env : Env DB).




(** CALLCODE and DELEGATECALL, the two calls that run foreign code in the
    account of the caller, return under the same guarantees. *)
Theorem EVM_CallCode_DelegateCall_correct s ca w a input gas v e : env_ok env → metered env →
  evm_ok env e → 0 ≤ depth e → ref_ok (ContractPtr s ca w) → 0 ≤ a → is_u64 gas → 0 ≤ v →
  (∃ r e', EVM_CallCode env (ContractPtr s ca w) a input gas v e = (e', Val r) ∧ 0 ≤ cr_gas r ≤ gas ∧
    evm_evolves env e e' ∧ (cr_err r ≠ None → db_equiv (stateDB e') (stateDB e))) ∧
  (∃ r e', EVM_DelegateCall env (ContractPtr s ca w) a input gas e = (e', Val r) ∧ 0 ≤ cr_gas r ≤ gas ∧
    evm_evolves env e e' ∧ (cr_err r ≠ None → db_equiv (stateDB e') (stateDB e))).
Proof.
  intros Henv Hm He Hd Hc Ha Hg Hv. split.
  - destruct (callcode_total env Henv Hm (ContractPtr s ca w) a input gas v e) as (r & e' & ? & [] & []); [done..|]. by exists r, e'.
  - destruct (delegatecall_total env Henv Hm s ca w a input gas e) as (r & e' & ? & [] & []); [done..|]. by exists r, e'.
Qed.
End entry.

(** ** Witnesses: calls in the concrete world *)




Lemma EVM_CallCode_DelegateCall_correct_witness : ∃ r e',
  EVM_DelegateCall map_Env (ContractPtr 1 2 (Some 5)) 7 [] 100000 world_evm = (e', Val r) ∧ 0 ≤ cr_gas r ≤ 100000 ∧
  evm_evolves map_Env world_evm e' ∧ (cr_err r ≠ None → db_equiv (stateDB e') (stateDB world_evm)).
Proof.
  refine (proj2 (EVM_CallCode_DelegateCall_correct map_Env 1 2 (Some 5) 7 [] 100000 0 world_evm map_Env_ok
    map_Env_metered world_evm_ok _ _ _ _ _));
    [simpl; lia|split; [lia|split; [lia|by exists 5]]|lia|split; lia|lia].
Defined.
