(* ===== verification/StateProps.v ===== *)
(** * Theorems about the state database *)

From stdpp Require Import base tactics list numbers gmap relations.
From S2P Require Import Prelude GoMath EvmParams EvmMachine EvmInterp EvmLaws State StateFacts.
From S2P Require Import StateLaws Concrete.

#[local] Open Scope Z_scope.

Import state.

Section props.
Context {senv : StateEnv} {slaws : StateEnvLaws}.

(** ** Sequences of calls *)

Definition live (i : Z) (s : StateDB) : Prop := ∃ r, r ∈ validRevisions s ∧ rev_id r = i.

(** A call of a method with arguments its callers pass: natural amounts, no
    more than the balance for [SubBalance], and snapshots that are live and
    not older than [j] for [RevertToSnapshot]. *)
Inductive db_call (j : Z) : StateDB → StateDB → Prop :=
| call_CreateAccount a s : db_call j s (CreateAccount a s)
| call_AddBalance a v s : 0 ≤ v → db_call j s (AddBalance a v s)
| call_SubBalance a v s : v ≤ (GetBalance a s).2 → db_call j s (SubBalance a v s)
| call_SetBalance a v s : 0 ≤ v → db_call j s (SetBalance a v s)
| call_SetNonce a n s : is_u64 n → db_call j s (SetNonce a n s)
| call_SetCode a c s : Zlen c < 2 ^ 63 → db_call j s (SetCode a c s)
| call_SetState a k v s : is_u256 v → db_call j s (SetState a k v s)
| call_Suicide a s : db_call j s (Suicide a s).1
| call_AddRefund v s : 0 ≤ v → db_call j s (AddRefund v s)
| call_AddLog l s : db_call j s (AddLog l s)
| call_AddPreimage h p s : db_call j s (AddPreimage h p s)
| call_GetBalance a s : db_call j s (GetBalance a s).1
| call_GetNonce a s : db_call j s (GetNonce a s).1
| call_GetCode a s : db_call j s (GetCode a s).1
| call_GetCodeHash a s : db_call j s (GetCodeHash a s).1
| call_GetCodeSize a s : db_call j s (GetCodeSize a s).1
| call_GetState a k s : db_call j s (GetState a k s).1
| call_HasSuicided a s : db_call j s (HasSuicided a s).1
| call_Exist a s : db_call j s (Exist a s).1
| call_Empty a s : db_call j s (Empty a s).1
| call_Snapshot s : db_call j s (Snapshot s).1
| call_Revert i s s' : j ≤ i → live i s → RevertToSnapshot i s = Some s' → db_call j s s'.

(** The invariant: every revision in the list can be restored. *)
Definition all_live (s : StateDB) : Prop :=
  ∀ r, r ∈ validRevisions s → ∃ d, restores_db (rev_id r) d s.
Definition inv (s : StateDB) : Prop := db_valid s ∧ all_live s.

(** What a call does to snapshots older than [j]. *)
Definition keeps (j : Z) (s s' : StateDB) : Prop :=
  inv s' ∧ ∀ i d, i < j → restores_db i d s → restores_db i d s'.

Lemma undoable_keeps j s s' : inv s → undoable s s' → keeps j s s'.
Proof.
  intros [Hv Hl] Hu. split; [split|].
  - by eapply undoable_valid.
  - intros r. destruct Hu as (es & Hj & Hr & Hu'). rewrite Hr. intros Hin.
    destruct (Hl r Hin) as [d Hd]. exists d. eapply undoable_restores; [done| |done]. by exists es.
  - intros i d _ Hd. by eapply undoable_restores.
Qed.

Lemma Snapshot_keeps j s : inv s → keeps j s (Snapshot s).1.
Proof.
  intros [Hv Hl]. split; [split|].
  - by apply Snapshot_valid.
  - intros r Hin. pose proof (Snapshot_restores_db s Hv) as Hnew. simpl in Hin.
    apply elem_of_app in Hin as [Hin| ->%list_elem_of_singleton]; [|by exists s].
    destruct (Hl r Hin) as [d Hd]. exists d. by apply Snapshot_restores_old.
  - intros i d _ Hd. by apply Snapshot_restores_old.
Qed.

Lemma Revert_keeps j i s s' : inv s → j ≤ i → live i s → RevertToSnapshot i s = Some s' → keeps j s s'.
Proof.
  intros [Hv Hl] Hj (r & Hin & <-) Hrev. destruct (Hl r Hin) as [d Hd].
  destruct (Revert_restores _ _ _ Hv Hd) as (s2 & Hrev2 & _ & Hv2 & Hold). simplify_eq.
  split; [split; [done|]|intros i d' Hlt; apply Hold; lia].
  intros r' Hin'. destruct Hd as (r0 & t & Hin0 & Hid & _ & Hut & _).
  apply list_elem_of_lookup_1 in Hin0 as [k Hk].
  pose proof (Revert_eq s k r0 t Hv Hk Hut) as Hcut. rewrite Hid in Hcut. simplify_eq.
  destruct (undo_all_ok _ s t (dv_objs _ Hv) (Forall_take _ _ _ (dv_entries _ Hv)) Hut) as (_ & [_ Hr _] & _).
  simpl in Hin'. rewrite Hr in Hin'. apply list_elem_of_lookup_1 in Hin' as [k' [Hk' Hlt]%lookup_take_Some].
  destruct (Hl r') as [d' Hd']; [by eapply list_elem_of_lookup_2|]. exists d'. apply Hold; [|done].
  rewrite <- Hid. by destruct (dv_sorted s Hv k' k r' r0).
Qed.

Lemma db_call_keeps j s s' : inv s → db_call j s s' → keeps j s s'.
Proof.
  intros Hi Hc. destruct (Hi) as [[Hs Hlogs _ _ _] _].
  destruct Hc; try (by apply Snapshot_keeps); try (by eapply Revert_keeps); apply undoable_keeps; try done.
  - by apply CreateAccount_updates.
  - apply AddBalance_updates; [done|]. pose proof (object_at_balance a s Hs). lia.
  - destruct (GetBalance_eq a s Hs) as [_ Hb]. rewrite Hb in *. apply SubBalance_updates; [done|].
    by destruct (object_at_content a s) as [-> _].
  - by apply SetBalance_updates.
  - by apply SetNonce_updates.
  - by apply SetCode_updates.
  - by apply SetState_updates.
  - by apply undoable_Suicide.
  - by apply undoable_AddRefund.
  - by apply undoable_AddLog.
  - by apply undoable_AddPreimage.
  - by apply GetBalance_eq.
  - by apply GetNonce_eq.
  - by apply GetCode_eq.
  - by apply GetCodeHash_eq.
  - by apply GetCodeSize_eq.
  - by apply GetState_eq.
  - by apply HasSuicided_eq.
  - by apply Exist_eq.
  - by apply Empty_eq.
Qed.

Lemma db_calls_keep j s s' : inv s → rtc (db_call j) s s' → keeps j s s'.
Proof.
  intros Hi Hr. induction Hr as [s|s s1 s2 Hc _ IH]; [by split|].
  destruct (db_call_keeps j s s1 Hi Hc) as [Hi1 H1]. destruct (IH Hi1) as [Hi2 H2]. split; [done|]. eauto.
Qed.

(** C2: RevertToSnapshot gives back the state the snapshot was taken in, for
    every sequence of calls in between, nested snapshots and their reverts
    included: every getter shows what it showed, and the database stays
    usable. *)
Theorem Snapshot_Revert_restores s s' :
  inv s → rtc (db_call ((Snapshot s).2 + 1)) (Snapshot s).1 s' →
  ∃ s2, RevertToSnapshot (Snapshot s).2 s' = Some s2 ∧ state_equiv s2 s ∧ inv s2.
Proof.
  intros Hi Hr. destruct (Snapshot_keeps 0 s Hi) as [Hi1 _].
  destruct (db_calls_keep _ _ _ Hi1 Hr) as [Hi' Hk].
  assert (Hd : restores_db (Snapshot s).2 s s') by (apply Hk; [lia|apply Snapshot_restores_db, Hi]).
  destruct (Revert_restores _ _ _ (proj1 Hi') Hd) as (s2 & Hrev & He & _ & _).
  exists s2. split_and!; [done|done|]. destruct Hd as (r & _ & Hin & Hid & _).
  eapply (Revert_keeps (Snapshot s).2 (Snapshot s).2 s' s2); [done|done|by exists r|done].
Qed.

(** In every state reached by calls, RevertToSnapshot panics exactly on
    the ids of no live revision. *)
Theorem Revert_panics_iff s s' i : inv s → rtc (db_call 0) s s' →
  RevertToSnapshot i s' = None ↔ ¬ live i s'.
Proof.
  intros Hi Hr. destruct (db_calls_keep _ _ _ Hi Hr) as [[Hv Hl] _]. split.
  - intros Hn (r & Hin & <-). destruct (Hl r Hin) as [d Hd].
    destruct (Revert_restores _ _ _ Hv Hd) as (s2 & Hrev & _). congruence.
  - intros Hn. unfold RevertToSnapshot. set (idx := sort_Search _ _).
    destruct (validRevisions s' !! idx) as [r|] eqn:E; [|done].
    destruct (Z.eqb_spec (rev_id r) i); [|done]. destruct Hn. exists r. split; [|done].
    by eapply list_elem_of_lookup_2.
Qed.

(** ** What the setters do *)

Lemma updates_at {A} (f : stateObject → A) (d : A) a n s s' b :
  (∀ o1 o2, obj_equiv o1 o2 → f o1 = f o2) → updates a n s s' →
  from_option f d (lookup_obj b s') = if decide (b = a) then f n else from_option f d (lookup_obj b s).
Proof.
  intros Hf [_ Ho Hoth _]. case_decide as Hb.
  - subst. inversion Ho as [? ? He El|]; subst. simpl. by apply Hf.
  - destruct (Hoth b Hb); simpl; auto.
Qed.

(** All that the getters show of an account, for a database with valid
    objects. *)
Record shows (b : Address) (s : StateDB) (bal nonce : Z) (hash : Hash) (c : list byte) (st : Hash → Hash)
    (dead : bool) : Prop := {
  sh_balance : (GetBalance b s).2 = bal;
  sh_nonce : (GetNonce b s).2 = nonce;
  sh_hash : (GetCodeHash b s).2 = hash;
  sh_code : (GetCode b s).2 = c;
  sh_size : (GetCodeSize b s).2 = Zlen c;
  sh_state k : (GetState b k s).2 = st k;
  sh_dead : (HasSuicided b s).2 = dead }.

Lemma shows_at b s : objs_ok s →
  shows b s (balance_at b s) (nonce_at b s) (hash_at b s) (code_at b s) (λ k, storage_at b k s) (suicided_at b s).
Proof.
  intros Hs. split; intros; by first [apply GetBalance_eq | apply GetNonce_eq | apply GetCodeHash_eq
    | apply GetCode_eq | apply GetCodeSize_eq | apply GetState_eq | apply HasSuicided_eq].
Qed.

(** After an update the changed account shows the new object, the others
    what they showed. *)
Lemma updates_shows a n s s' b : objs_ok s → updates a n s s' →
  shows b s' (if decide (b = a) then data_Balance n else (GetBalance b s).2)
    (if decide (b = a) then data_Nonce n else (GetNonce b s).2)
    (if decide (b = a) then data_CodeHash n else (GetCodeHash b s).2)
    (if decide (b = a) then code_val n else (GetCode b s).2)
    (λ k, if decide (b = a) then storage_val n k else (GetState b k s).2)
    (if decide (b = a) then suicided n else (HasSuicided b s).2).
Proof.
  intros Hs Hu. assert (Hs' : objs_ok s') by (eapply undoable_objs, Hu).
  destruct (shows_at b s Hs) as [-> -> -> -> _ Hst ->].
  pose proof (shows_at b s' Hs') as Hsh.
  assert (Hat : ∀ A (f : stateObject → A) d, (∀ o1 o2, obj_equiv o1 o2 → f o1 = f o2) →
    from_option f d (lookup_obj b s') = if decide (b = a) then f n else from_option f d (lookup_obj b s))
    by (intros; by apply updates_at).
  unfold balance_at, nonce_at, hash_at, code_at, storage_at, suicided_at in *.
  rewrite !Hat in Hsh by (intros ? ? []; done). destruct Hsh as [? ? ? ? ? Hst' ?]. split; try done.
  intros k. rewrite Hst', Hst. apply Hat. by intros ? ? [].
Qed.

(** What a new account shows. *)
Lemma object_at_shows a s : objs_ok s →
  (GetBalance a s).2 = data_Balance (object_at a s) ∧ (GetNonce a s).2 = data_Nonce (object_at a s) ∧
  (GetCode a s).2 = code_val (object_at a s) ∧ (∀ k, (GetState a k s).2 = storage_val (object_at a s) k) ∧
  (HasSuicided a s).2 = suicided (object_at a s).
Proof.
  intros Hs. destruct (shows_at a s Hs) as [-> -> _ -> _ Hst ->].
  destruct (object_at_content a s) as (-> & -> & -> & Hst' & ->). split_and!; try done.
  intros k. by rewrite Hst, Hst'.
Qed.

(** SetState stores a word: GetState reads it back, every other slot of
    every account, and every balance, nonce and code, is as before. *)
Theorem SetState_GetState a k v s b : db_valid s → is_u256 v →
  let s' := SetState a k v s in
  (∀ k', (GetState b k' s').2 = if decide (b = a ∧ k' = k) then v else (GetState b k' s).2) ∧
  (GetBalance b s').2 = (GetBalance b s).2 ∧ (GetNonce b s').2 = (GetNonce b s).2 ∧
  (GetCode b s').2 = (GetCode b s).2.
Proof.
  intros [Hs] Hv s'. destruct (updates_shows _ _ _ _ b Hs (SetState_updates a k v s Hs Hv)) as [Hb Hn _ Hc _ Hst _].
  fold s' in Hb, Hn, Hc, Hst. destruct (object_at_shows a s Hs) as (Ob & On & Oc & Ost & _).
  split_and!.
  - intros k'. rewrite Hst. destruct (decide (b = a)) as [->|Hne]; [|by rewrite decide_False by tauto].
    rewrite storage_upd, <- Ost. destruct (decide (k' = k)); [by rewrite decide_True|by rewrite decide_False by tauto].
  - rewrite Hb. case_decide; subst; [|done]. by rewrite Ob.
  - rewrite Hn. case_decide; subst; [|done]. by rewrite On.
  - rewrite Hc. case_decide; subst; [|done]. rewrite Oc. by rewrite !code_val_eq.
Qed.

(** AddBalance and SubBalance move a balance by the amount; no other
    balance changes, nor any nonce, code or storage. *)
Theorem AddBalance_SubBalance a v s b : db_valid s → 0 ≤ v → 
  let delta := if decide (b = a) then v else 0 in
  ((GetBalance b (AddBalance a v s)).2 = (GetBalance b s).2 + delta ∧
   (GetNonce b (AddBalance a v s)).2 = (GetNonce b s).2 ∧ (GetCode b (AddBalance a v s)).2 = (GetCode b s).2 ∧
   ∀ k, (GetState b k (AddBalance a v s)).2 = (GetState b k s).2) ∧
  (v ≤ (GetBalance a s).2 →
   (GetBalance b (SubBalance a v s)).2 = (GetBalance b s).2 - delta ∧
   (GetNonce b (SubBalance a v s)).2 = (GetNonce b s).2 ∧ (GetCode b (SubBalance a v s)).2 = (GetCode b s).2 ∧
   ∀ k, (GetState b k (SubBalance a v s)).2 = (GetState b k s).2).
Proof.
  intros [Hs] Hv delta. destruct (object_at_shows a s Hs) as (Ob & On & Oc & Ost & _).
  assert (Hgoal : ∀ s' x, updates a (upd_Balance ((GetBalance a s).2 + x) (object_at a s)) s s' →
    (GetBalance b s').2 = (GetBalance b s).2 + (if decide (b = a) then x else 0) ∧
    (GetNonce b s').2 = (GetNonce b s).2 ∧ (GetCode b s').2 = (GetCode b s).2 ∧
    ∀ k, (GetState b k s').2 = (GetState b k s).2).
  { intros s' x Hu. destruct (updates_shows _ _ _ _ b Hs Hu) as [-> -> _ -> _ Hst _].
    case_decide; subst; [|split_and!; try done; lia]. rewrite On, Oc, !code_val_eq. split_and!; try done.
    intros k. rewrite Hst, Ost, !storage_val_eq, !eff_trie_eq. done. }
  split.
  - apply Hgoal. rewrite Ob. apply AddBalance_updates; [done|]. pose proof (object_at_balance a s Hs). lia.
  - intros Hle. destruct (Hgoal (SubBalance a v s) (- v)) as (-> & ? & ? & ?).
    { rewrite Ob, Z.add_opp_r. apply SubBalance_updates; [done|]. by rewrite <- Ob. }
    split_and!; try done. unfold delta. case_decide; lia.
Qed.

(** SetCode installs code, its hash and its size, and nothing else. *)
Theorem SetCode_GetCode a c s b : db_valid s → Zlen c < 2 ^ 63 →
  let s' := SetCode a c s in
  (GetCode b s').2 = (if decide (b = a) then c else (GetCode b s).2) ∧
  (GetCodeHash b s').2 = (if decide (b = a) then state.Keccak256Hash c else (GetCodeHash b s).2) ∧
  (GetCodeSize b s').2 = Zlen (if decide (b = a) then c else (GetCode b s).2) ∧
  (GetBalance b s').2 = (GetBalance b s).2 ∧ (GetNonce b s').2 = (GetNonce b s).2 ∧
  ∀ k, (GetState b k s').2 = (GetState b k s).2.
Proof.
  intros [Hs] Hc s'. subst s'. destruct (object_at_shows a s Hs) as (Ob & On & _ & Ost & _).
  assert (Hval : code_val (upd_code (state.Keccak256Hash c) (code_field c) true (object_at a s)) = c).
  { rewrite code_val_eq. unfold code_field, emptyCodeHash. destruct c; simpl; [by rewrite Z.eqb_refl|done]. }
  destruct (updates_shows _ _ _ _ b Hs (SetCode_updates a c s Hs Hc)) as [-> -> -> -> -> Hst _].
  rewrite Hval. split_and!; try done; [by case_decide; subst; rewrite ?Ob, ?On..|]. intros k. rewrite Hst.
  case_decide; subst; [|done]. by rewrite Ost, storage_upd_code.
Qed.

(** CreateAccount resets nonce, code and storage of the account and
    carries its balance over; other accounts are untouched. *)
Theorem CreateAccount_resets a s b : db_valid s →
  let s' := CreateAccount a s in
  (GetBalance b s').2 = (GetBalance b s).2 ∧
  (GetNonce b s').2 = (if decide (b = a) then 0 else (GetNonce b s).2) ∧
  (GetCode b s').2 = (if decide (b = a) then [] else (GetCode b s).2) ∧
  (∀ k, (GetState b k s').2 = if decide (b = a) then 0 else (GetState b k s).2) ∧
  (HasSuicided b s').2 = (if decide (b = a) then false else (HasSuicided b s).2).
Proof.
  intros [Hs] s'. subst s'. destruct (object_at_shows a s Hs) as (Ob & _).
  destruct (updates_shows _ _ _ _ b Hs (CreateAccount_updates a s Hs)) as [-> -> _ -> _ Hst ->].
  split_and!; try done.
  - case_decide; subst; [|done]. by rewrite Ob.
  - case_decide; [|done]. rewrite <- (fresh_code a), !code_val_eq. done.
  - intros k. rewrite Hst. case_decide; [|done]. rewrite <- (fresh_storage a k), !storage_val_eq, !eff_trie_eq. done.
Qed.

(** Suicide marks an existing account, empties its balance and reports
    whether there was one. *)
Theorem Suicide_marks a s b : db_valid s →
  let s' := (Suicide a s).1 in
  (Suicide a s).2 = (Exist a s).2 ∧
  (GetBalance b s').2 = (if decide (b = a) then 0 else (GetBalance b s).2) ∧
  (HasSuicided b s').2 = (if decide (b = a) then (Exist a s).2 else (HasSuicided b s).2).
Proof.
  intros [Hs] s'. subst s'. destruct (Exist_eq a s Hs) as [_ Hex]. destruct (lookup_obj a s) as [o|] eqn:E.
  - rewrite (proj2 Hex) by eauto. destruct (Suicide_updates a s o Hs E) as [Hu ->]. split; [done|].
    destruct (updates_shows _ _ _ _ b Hs Hu) as [-> _ _ _ _ _ ->]. done.
  - assert ((Exist a s).2 = false) as -> by (destruct (Exist a s).2; [by destruct (proj1 Hex eq_refl)|done]).
    destruct (Suicide_none a s Hs E) as (He & Hu & ->). split; [done|].
    assert (Hs' : objs_ok (Suicide a s).1) by by eapply undoable_objs.
    destruct (shows_at b s Hs) as [-> _ _ _ _ _ ->], (shows_at b _ Hs') as [-> _ _ _ _ _ ->].
    destruct (equiv_content_eq _ _ He) as [Hb _ _ _ Hd _ _]. rewrite Hb, Hd.
    split; (case_decide; [|done]); subst; [unfold balance_at|unfold suicided_at]; by rewrite E.
Qed.

(** ** Money *)






End props.

(** ** A lost write *)

(** An account without balance, nonce or code that the trie holds. *)
Definition empty_account_db : state.StateDB :=
  state.mkStateDB {[ ideal_hash (Address_Bytes 5) := flat_Account (mkAccount 0 (Some 0) 0 (Some (ideal_hash []))) ]}
    ∅ ∅ None 0 0 0 0 ∅ 0 ∅ [] [] 0.

(** Touch it, revert, then give it money. *)
Definition touched_then_paid : option StateDB :=
  let '(s, id) := Snapshot empty_account_db in
  AddBalance 5 7 <$> RevertToSnapshot id (AddBalance 5 0 s).

(** Undoing a touch forgets that the object still has to be written: the
    account then shows the money it received, but Finalise over the dirty
    objects leaves the trie without it. *)
Theorem touch_undo_loses_write :
  (λ s, (GetBalance 5 s).2) <$> touched_then_paid = Some 7 ∧
  (s ← touched_then_paid;
   s' ← Finalise true (elements (stateObjectsDirty s)) s;
   Balance <$> load (trie s') 5) = Some (Some 0).
Proof. split; vm_compute; reflexivity. Qed.

(** ** Witnesses *)

Lemma inv_world : inv world.
Proof. split; [apply world_valid|]. intros r Hr. by apply not_elem_of_nil in Hr. Qed.

(** Two writes and a nested snapshot that is reverted. *)
Definition world_after : StateDB := SetState 7 0 9 (Snapshot (AddBalance 1 5 (Snapshot world).1)).1.

Lemma Snapshot_Revert_restores_witness : ∃ s2,
  RevertToSnapshot (Snapshot world).2 world_after = Some s2 ∧ state_equiv s2 world ∧ inv s2.
Proof.
  apply (Snapshot_Revert_restores world world_after inv_world). unfold world_after.
  eapply rtc_l; [apply (call_AddBalance _ 1 5); lia|].
  eapply rtc_l; [apply call_Snapshot|].
  eapply rtc_l; [apply (call_SetState _ 7 0 9); split; lia|]. apply rtc_refl.
Defined.

Lemma Revert_panics_iff_witness : RevertToSnapshot 3 world = None ↔ ¬ live 3 world.
Proof. exact (Revert_panics_iff world world 3 inv_world (rtc_refl _ _)). Defined.

Lemma SetState_GetState_witness : (GetState 7 4 (SetState 7 4 9 world)).2 = 9.
Proof.
  destruct (SetState_GetState 7 4 9 world 7 world_valid ltac:(split; lia)) as [H _].
  exact (H 4).
Defined.

Lemma SetCode_GetCode_witness : (GetCode 1 (SetCode 1 revert_code world)).2 = revert_code.
Proof. exact (proj1 (SetCode_GetCode 1 revert_code world 1 world_valid eq_refl)). Defined.

Lemma CreateAccount_resets_witness : (GetBalance 1 (CreateAccount 1 world)).2 = 1000000.
Proof. exact (proj1 (CreateAccount_resets 1 world 1 world_valid)). Defined.

