(* ===== verification/TransitionProps.v ===== *)
(** * Theorems about applying a message *)

From stdpp Require Import base tactics list numbers gmap relations.
From S2P Require Import Prelude GoMath EvmParams EvmMachine EvmInstr EvmInterp EvmLaws.
From S2P Require Import EvmTermination EvmSafety EvmArith State StateFacts StateLaws Transition.
From S2P Require Import TransitionFacts Concrete.

#[local] Open Scope Z_scope.

(** ** Block hashes *)

Section hashes.
Context (chain : ChainContext).

Definition parent (h p : Header) : Prop :=
  GetHeader chain (hd_ParentHash h) (hd_Number h - 1) = Some p.
Definition ancestor : Header → Header → Prop := tc parent.

(** A chain returns headers with the number asked for, and none below the
    genesis block or above 2^63. *)
Definition chain_ok : Prop :=
  ∀ h n p, GetHeader chain h n = Some p → hd_Number p = n ∧ 0 ≤ n < 2 ^ 63.

Lemma parent_number h p : chain_ok → parent h p → hd_Number p = hd_Number h - 1 ∧ 0 ≤ hd_Number p < 2 ^ 63.
Proof. intros Hc Hp. destruct (Hc _ _ _ Hp) as [-> ?]. lia. Qed.
Lemma ancestor_number h a : chain_ok → ancestor h a → 0 ≤ hd_Number a < hd_Number h.
Proof.
  intros Hc. induction 1 as [h a Hp|h p a Hp _ IH]; destruct (parent_number _ _ Hc Hp); lia.
Qed.

(** The header the walk goes to from [h]. *)
Lemma GetHeader_parent h : chain_ok → 0 ≤ hd_Number h < 2 ^ 63 →
  GetHeader chain (hd_ParentHash h) (u64 (big_Uint64 (hd_Number h) - 1)) =
  GetHeader chain (hd_ParentHash h) (hd_Number h - 1).
Proof.
  intros Hc Hh. rewrite big_Uint64_small by (unfold is_u64; lia).
  destruct (decide (hd_Number h = 0)) as [E|]; [|by rewrite u64_small by (unfold is_u64; lia)].
  rewrite E. change (u64 (0 - 1)) with (2 ^ 64 - 1).
  destruct (GetHeader chain (hd_ParentHash h) (2 ^ 64 - 1)) as [p|] eqn:E1; [destruct (Hc _ _ _ E1); lia|].
  destruct (GetHeader chain (hd_ParentHash h) (0 - 1)) as [p|] eqn:E2; [destruct (Hc _ _ _ E2); lia|done].
Qed.

Lemma GetHashFn_loop_spec fuel h n : chain_ok → 0 ≤ hd_Number h < 2 ^ 63 → hd_Number h < Z.of_nat fuel →
  ∃ r, GetHashFn_loop fuel chain (GetHeader chain (hd_ParentHash h) (u64 (big_Uint64 (hd_Number h) - 1))) n = Some r ∧
    (∀ a, ancestor h a → hd_Number a = n → r = hd_Hash a) ∧
    ((∀ a, ancestor h a → hd_Number a ≠ n) → r = 0).
Proof.
  intros Hc. revert h. induction fuel as [|fuel IH]; intros h Hh Hf; [lia|]. rewrite GetHeader_parent by done.
  destruct (GetHeader chain (hd_ParentHash h) (hd_Number h - 1)) as [p|] eqn:Ep; simpl.
  2: { exists 0. split_and!; [done| |done]. intros a Ha.
       assert (∃ p, parent h p) as [p Hp] by (inversion Ha; eauto). unfold parent in Hp. congruence. }
  destruct (parent_number h p Hc Ep) as [Hn Hr]. rewrite big_Uint64_small by (unfold is_u64; lia).
  assert (Hanc : ∀ a, ancestor h a ↔ a = p ∨ ancestor p a).
  { intros a. split.
    - inversion 1 as [? ? Hp|? q ? Hp Ha]; unfold parent in Hp; simplify_eq; auto.
    - intros [->|Ha]; [by apply tc_once|]. by eapply tc_l. }
  destruct (Z.eqb_spec (hd_Number p) n) as [Heq|Hne].
  - exists (hd_Hash p). split_and!; [done| |intros Hno; by destruct (Hno p); [apply Hanc; left|]].
    intros a [->|Ha]%Hanc Han; [done|]. pose proof (ancestor_number _ _ Hc Ha). lia.
  - destruct (IH p) as (r & Hrun & Hyes & Hno); [lia..|]. rewrite big_Uint64_small in Hrun by (unfold is_u64; lia).
    exists r. split_and!; [done| |].
    + intros a [->|Ha]%Hanc Han; [done|]. by apply Hyes.
    + intros Hall. apply Hno. intros a Ha. apply Hall, Hanc. by right.
Qed.

(** BLOCKHASH: the walk back through the chain ends, and gives the hash of
    the ancestor with the number, or zero when there is none. *)
Theorem GetHashFn_ancestor ref n : chain_ok → 0 ≤ hd_Number ref < 2 ^ 63 →
  ∃ r, GetHashFn ref chain n = Some r ∧
    (∀ a, ancestor ref a → hd_Number a = n → r = hd_Hash a) ∧
    ((∀ a, ancestor ref a → hd_Number a ≠ n) → r = 0).
Proof.
  intros Hc Hr. unfold GetHashFn. apply GetHashFn_loop_spec; [done..|].
  rewrite big_Uint64_small by (unfold is_u64; lia). lia.
Qed.
End hashes.

(** ** Intrinsic gas and the gas limit *)

(** The intrinsic gas is the base fee of a call or creation plus a price
    per zero and per non-zero byte. *)
Theorem IntrinsicGas_counts data c :
  IntrinsicGas data c = (if c then TxGasContractCreation else TxGas) +
    TxDataZeroGas * Zlen (filter (λ b, b = Byte.x00) data) +
    TxDataNonZeroGas * Zlen (filter (λ b, b ≠ Byte.x00) data).
Proof.
  assert (Hnz : nonzero_bytes data = Zlen (filter (λ b, b ≠ Byte.x00) data) ∧
    Zlen data = Zlen (filter (λ b, b = Byte.x00) data) + Zlen (filter (λ b, b ≠ Byte.x00) data)).
  { unfold nonzero_bytes, Zlen. induction data as [|b l [IH1 IH2]] using rev_ind; [done|].
    rewrite foldl_app, !filter_app, !length_app, IH1. simpl. rewrite !filter_cons, !filter_nil.
    destruct (decide (b = Byte.x00)) as [->|Hb].
    - rewrite decide_False by tauto. simpl. lia.
    - rewrite (proj2 (Z.eqb_neq (byteZ b) 0)), decide_True by (done || (intros Hz; apply Hb; by destruct b)).
      simpl. lia. }
  destruct Hnz as [Hnz Hl]. unfold IntrinsicGas. rewrite Hnz.
  unfold TxDataZeroGas, TxDataNonZeroGas.
  destruct (Zlen data >? 0) eqn:E; zbool; [destruct c; lia|].
  unfold Zlen in *. destruct c; lia.
Qed.

(** The gas limit of the next block does not depend on its parent. *)
Lemma CalcGasLimit_constant used limit : CalcGasLimit used limit = 100000000.
Proof. done. Qed.

(** ** Messages *)

Section props.
Context {senv : state.StateEnv} {slaws : StateEnvLaws}.
Context (CreateAddress : Address → Z → Address) (precompiles : Address → option PrecompiledContract).

Lemma charged_gas_ok j s s1 : bought j s s1 → intrinsic j ≤ msg_gasLimit (job_msg j) → msg_gasLimit (job_msg j) < 2 ^ 64 →
  gas_ok (charged_st j s1).
Proof.
  intros [_ Hg Hi Hm _] Hle Hu. pose proof (intrinsic_nonneg j). split; simpl; rewrite ?Hg, ?Hi; [apply Hm|lia..].
Qed.


(** C10: A plain transfer costs its sender the amount and the price of the gas
    used, gives the amount to the recipient and the price to the beneficiary
    of the block, and changes no other balance, code or storage.  The gas used
    is the intrinsic gas when no refund is pending.  The nonce of the sender
    stays the same, so the message can be applied again. *)
Theorem ApplyMessage_native j t db gp :
  let msg := job_msg j in
  msg_ok j → db_valid db → state.refund db = 0 →
  msg_to msg = Some t → code_at (msg_from msg) db = [] →
  affordable j (mkST gp 0 0 db) → right_nonce j (mkST gp 0 0 db) → intrinsic j ≤ msg_gasLimit msg →
  msg_gasLimit msg * msg_price msg + msg_amount msg ≤ balance_at (msg_from msg) db →
  ∃ db', ApplyMessage CreateAddress precompiles j db gp =
      (db', gp - intrinsic j, Val ([], intrinsic j, false)) ∧
    moved (λ b, at_addr (msg_from msg) (- (msg_amount msg + intrinsic j * msg_price msg)) b +
                at_addr t (msg_amount msg) b +
                at_addr (beneficiary (job_header j) (job_chain j) (job_author j)) (intrinsic j * msg_price msg) b) db db'.
Proof.
  intros msg Hmsg Hv Href Hto Hcode Haff Hnonce Hint Hbal.
  destruct (ApplyMessage_start CreateAddress precompiles j db gp Hv) as (db1 & native & Hv1 & Hc1 & Hnat & ->).
  fold msg in Hnat. rewrite Hto, Hcode in Hnat. simpl in Hnat. subst native.
  destruct (body_after_check CreateAddress precompiles j true (mkST gp 0 0 db1) Hmsg Hv1 eq_refl)
    as [(s1 & _ & _ & _ & Hbt & ->)|(s1 & e & _ & _ & Hno & _)].
  2: { destruct Hno. destruct Haff as (? & ? & ?). split; [split_and!; simpl in *; rewrite ?(ce_balance _ _ Hc1); done|].
       split; [|done]. intros Hc. simpl. rewrite (ce_nonce _ _ Hc1). by apply Hnonce. }
  pose proof (charged_gas_ok j _ _ Hbt Hint (proj1 Haff)) as Hok.
  destruct Hbt as [Hgp Hgas Hini Hmv Hr]. simpl in *.
  destruct (TransitionOnNative_spec j _ t Hok Hto (mo_price _ Hmsg) (mo_amount _ Hmsg)) as [Hyes _].
  assert (Hr0 : refund_of (charged_st j s1) = 0).
  { unfold refund_of. simpl. rewrite Hr, (ce_refund _ _ Hc1), Href, Hgas, Hini.
    pose proof (intrinsic_nonneg j). replace (_ - (_ - intrinsic j)) with (intrinsic j) by lia.
    pose proof (Z.div_pos (intrinsic j) 2 ltac:(lia) ltac:(lia)). lia. }
  rewrite Hr0, Z.add_0_r in Hyes. destruct Hyes as (db' & -> & _ & Hm2).
  { simpl. rewrite (mv_balance _ _ _ Hmv), (ce_balance _ _ Hc1). unfold at_addr. rewrite decide_True by done.
    fold msg. lia. }
  simpl. rewrite Hgp, Hgas, Hini. exists db'. simpl in Hm2. rewrite Hgas, Hini in Hm2. split; [repeat f_equal; lia|].
  eapply moved_ext; [|eapply moved_trans; [apply (moved_content db db1); done|]; eapply moved_trans; [exact Hmv|exact Hm2]].
  intros b. unfold native_moves, at_addr. fold msg. rewrite Hto. simpl. repeat case_decide; lia.
Qed.
End props.

(** ** Witnesses *)

Definition genesis_header : Header := mkHeader 0 0 1500000000 1 8000000 77.
Definition block_header : Header := mkHeader 77 1 1500000010 1 8000000 78.
Definition two_blocks : ChainContext := {|
  GetHeader h n := if (h =? 77) && (n =? 0) then Some genesis_header else None;
  Engine_Author _ := 9 |}.

Lemma two_blocks_ok : chain_ok two_blocks.
Proof.
  intros h n p. simpl. case_match eqn:E; [|done]. apply andb_prop in E as [_ ->%Z.eqb_eq].
  intros [= <-]. simpl. lia.
Qed.

Lemma GetHashFn_ancestor_witness : ∃ r, GetHashFn block_header two_blocks 0 = Some r ∧
  (∀ a, ancestor two_blocks block_header a → hd_Number a = 0 → r = hd_Hash a).
Proof.
  destruct (GetHashFn_ancestor two_blocks block_header 0 two_blocks_ok ltac:(simpl; lia)) as (r & H & Ha & _).
  by exists r.
Defined.

(** A transfer of 500 to the contract 7, which is not run. *)
Definition pay_msg : Message := mkMessage 1 (Some 7) 0 500 2 1000 [] true.
Definition pay_job : Job := mkJob pay_msg block_header two_blocks None.
Definition no_precompiles (a : Address) : option PrecompiledContract := None.
Definition hash_address (a : Address) (n : Z) : Address := ideal_hash (be_bytes 20 a ++ be_bytes 8 n).


Lemma pay_msg_ok : msg_ok pay_job.
Proof. split; simpl; try lia; try done. by intros a [= <-]. Qed.


Lemma ApplyMessage_native_witness : ∃ db',
  ApplyMessage hash_address no_precompiles pay_job world 8000000 =
    (db', 8000000 - intrinsic pay_job, Val ([], intrinsic pay_job, false)) ∧
  moved (λ b, at_addr 1 (- (500 + intrinsic pay_job * 2)) b + at_addr 7 500 b +
              at_addr 9 (intrinsic pay_job * 2) b) world db'.
Proof.
  refine (ApplyMessage_native hash_address no_precompiles pay_job 7 world 8000000
    pay_msg_ok world_valid eq_refl eq_refl _ _ _ _ _).
  - by vm_compute.
  - split; [|split]; vm_compute; discriminate || reflexivity.
  - intros _. by vm_compute.
  - by vm_compute.
  - by vm_compute.
Defined.
