(* ===== verification/TxPool.v ===== *)
(** * The transaction pool

    [src/blockchain/state/managed_state.go] and [src/txpool/tx_pool.go].  The
    pool keeps the executable transactions of every account in [pending], the
    others in [queue], and all of them by hash.
    The caches inside a transaction are transparent ([TxProps]), so a
    transaction is a value; the two lists of an account are reached through
    their maps only.  The order of map ranges is [GoRange]; the chain and the
    priority queue of the third-party package [prque] are arguments; [now] is
    the time an operation runs at. *)

From stdpp Require Import base tactics list numbers gmap sorting.
From S2P Require Import Prelude GoMath EvmParams GoHeap RlpEncode RlpDecode RlpRecord RlpStream Keccak TxTypes TxList State Transition BlockTypes.

#[local] Open Scope Z_scope.

(** ** managed_state.go *)

Module managed.
Import state.
Section managed.
Context {senv : StateEnv}.

Record account : Type := mkManaged { nstart : Z; nonces : list bool }.
Record ManagedState : Type := mkManagedState { ms_StateDB : StateDB; accounts : gmap Z account }.
Definition with_db (s : StateDB) (ms : ManagedState) : ManagedState := mkManagedState s (accounts ms).

Definition ManageState (statedb : StateDB) : option ManagedState :=
  s ← Copy statedb; Some (mkManagedState s ∅).
Definition ms_SetState (statedb : StateDB) (ms : ManagedState) : ManagedState := with_db statedb ms.
Definition newAccount (so : stateObject) : account := mkManaged (data_Nonce so) [].
Definition hasAccount (addr : Address) (ms : ManagedState) : bool := bool_decide (is_Some (accounts ms !! addr)).

Definition getAccount (addr : Address) (ms : ManagedState) : ManagedState * account :=
  match accounts ms !! addr with
  | None =>
      let '(s, so) := GetOrNewStateObject addr (ms_StateDB ms) in
      (mkManagedState s (<[addr := newAccount so]> (accounts ms)), newAccount so)
  | Some acc =>
      let '(s, so) := getStateObject addr (ms_StateDB ms) in
      match so with
      | Some so =>
          if u64 (Zlen (nonces acc) + nstart acc) <? data_Nonce so
          then (mkManagedState s (<[addr := newAccount so]> (accounts ms)), newAccount so)
          else (with_db s ms, acc)
      | None => (with_db s ms, acc)
      end
  end.
Definition put_account (addr : Address) (acc : account) (ms : ManagedState) : ManagedState :=
  mkManagedState (ms_StateDB ms) (<[addr := acc]> (accounts ms)).

(** The subtraction wraps, so a nonce below the first one removes nothing. *)
Definition RemoveNonce (addr : Address) (n : Z) (ms : ManagedState) : ManagedState :=
  if hasAccount addr ms then
    let '(ms, acc) := getAccount addr ms in
    if u64 (n - nstart acc) <=? Zlen (nonces acc)
    then put_account addr (mkManaged (nstart acc) (take (Z.to_nat (u64 (n - nstart acc))) (nonces acc))) ms
    else ms
  else ms.
(** The first nonce that is free. *)
Fixpoint free_nonce (i : Z) (l : list bool) : option Z :=
  match l with
  | [] => None
  | nonce :: l => if nonce then free_nonce (i + 1) l else Some i
  end.
Definition NewNonce (addr : Address) (ms : ManagedState) : ManagedState * Z :=
  let '(ms, acc) := getAccount addr ms in
  match free_nonce 0 (nonces acc) with
  | Some i => (ms, u64 (nstart acc + i))
  | None => (put_account addr (mkManaged (nstart acc) (nonces acc ++ [true])) ms, u64 (Zlen (nonces acc) + nstart acc))
  end.
Definition ms_GetNonce (addr : Address) (ms : ManagedState) : ManagedState * Z :=
  if hasAccount addr ms then
    let '(ms, acc) := getAccount addr ms in (ms, u64 (Zlen (nonces acc) + nstart acc))
  else let '(s, n) := GetNonce addr (ms_StateDB ms) in (with_db s ms, n).
Definition ms_SetNonce (addr : Address) (nonce : Z) (ms : ManagedState) : ManagedState :=
  let '(s, so) := GetOrNewStateObject addr (ms_StateDB ms) in
  mkManagedState (obj_SetNonce nonce so s) (<[addr := newAccount (upd_Nonce nonce so)]> (accounts ms)).
End managed.
End managed.

(** ** tx_pool.go *)

(** The values of [prque] in the order in which they are popped. *)
Class Prque : Type := prque_order : list (Address * Z) → list Address.

Module txpool.
Import types txlist managed blocks.

Inductive pool_error : Type :=
| ErrInvalidSender | ErrNonceTooLow | ErrUnderpriced | ErrReplaceUnderpriced | ErrInsufficientFunds | ErrIntrinsicGas
| ErrGasLimit | ErrNegativeValue | ErrOversizedData | ErrTxPoolFull
| ErrKnown (hash : GoMath.Hash).

Record TxPoolConfiguration : Type := mkPoolConfig {
  PriceLimit : Z; PriceBump : Z; AccountSlots : Z; GlobalSlots : Z; AccountQueue : Z; GlobalQueue : Z; Lifetime : Z }.

(** Rounding of a natural number to [p] bits of mantissa, ties to even. *)
Definition round_float (p n : Z) : Z :=
  if n <? 2 ^ p then n
  else
    let e := Z.log2 n - p + 1 in
    let q := n / 2 ^ e in
    let r := n mod 2 ^ e in
    (if 2 * r <? 2 ^ e then q else if 2 ^ e <? 2 * r then q + 1 else if Z.even q then q else q + 1) * 2 ^ e.
Definition float32 (n : Z) : Z := round_float 24 n.
Definition float64 (n : Z) : Z := round_float 53 n.

(** [time.Since], which saturates; the zero [time.Time] is 0. *)
Definition Since (now t : Z) : Z := Z.min (2 ^ 63 - 1) (Z.max (- 2 ^ 63) (now - t)).

(** [addresssByHeartbeat.Less] *)
Definition beat_le (x y : Z * Address) : Prop := x.1 ≤ y.1.
#[global] Instance beat_le_dec : RelDecision beat_le.
Proof. intros x y. unfold beat_le. apply _. Defined.

Definition maxTransactionSize : Z := 32 * 1024.

Section pool.
Context {senv : state.StateEnv} {secp : Secp256k1} {rng : GoRange} {prq : Prque}.

(** The methods of the interface [blockChain]. *)
Record blockChain : Type := mkChain {
  CurrentBlock : Block;
  GetBlock : GoMath.Hash → Z → option Block;
  StateAt : GoMath.Hash → state.db_error + state.StateDB }.

(** What a successful [reset] sets; nil before. *)
Record poolHead : Type := mkPoolHead {
  currentState : state.StateDB;
  pendingState : ManagedState;
  currentMaxGas : Z }.
(** [fired] are the transactions announced by [TxPreEvent], the last first. *)
Record TxPool : Type := mkPool {
  config : TxPoolConfiguration;
  signer : BoeSigner;
  gasPrice : Z;
  head : option poolHead;
  pending : gmap Z txList;
  queue : gmap Z txList;
  beats : gmap Z Z;
  all : gmap Z Transaction;
  fired : list Transaction }.
Definition set_gasPrice (x : Z) (p : TxPool) : TxPool := mkPool (config p) (signer p) x (head p) (pending p) (queue p) (beats p) (all p) (fired p).
Definition set_head (x : option poolHead) (p : TxPool) : TxPool := mkPool (config p) (signer p) (gasPrice p) x (pending p) (queue p) (beats p) (all p) (fired p).
Definition set_pending (x : gmap Z txList) (p : TxPool) : TxPool := mkPool (config p) (signer p) (gasPrice p) (head p) x (queue p) (beats p) (all p) (fired p).
Definition set_queue (x : gmap Z txList) (p : TxPool) : TxPool := mkPool (config p) (signer p) (gasPrice p) (head p) (pending p) x (beats p) (all p) (fired p).
Definition set_beats (x : gmap Z Z) (p : TxPool) : TxPool := mkPool (config p) (signer p) (gasPrice p) (head p) (pending p) (queue p) x (all p) (fired p).
Definition set_all (x : gmap Z Transaction) (p : TxPool) : TxPool := mkPool (config p) (signer p) (gasPrice p) (head p) (pending p) (queue p) (beats p) x (fired p).
Definition fire (tx : Transaction) (p : TxPool) : TxPool := mkPool (config p) (signer p) (gasPrice p) (head p) (pending p) (queue p) (beats p) (all p) (tx :: fired p).

Abbreviation P := (M TxPool pool_error).

(** *** What the pool asks *)

(** An ignored error leaves the zero address. *)
Definition sender (tx : Transaction) : P (option Address) := λ p,
  match (Sender (signer p) tx).2 with
  | Val a => (p, Val (Some a))
  | Err _ => (p, Val None)
  | Panic => (p, Panic)
  | NoFuel => (p, NoFuel)
  end.
Definition from_of (tx : Transaction) : P Address := o ← sender tx; mret (default 0 o).
Definition tx_size (tx : Transaction) : Z := match (Size tx).2 with Val n => n | _ => 0 end.

Definition on_current {A} (f : state.StateDB → state.StateDB * A) : P A := λ p,
  match head p with
  | None => (p, Panic)
  | Some h => let '(s, a) := f (currentState h) in (set_head (Some (mkPoolHead s (pendingState h) (currentMaxGas h))) p, Val a)
  end.
Definition on_managed {A} (f : ManagedState → ManagedState * A) : P A := λ p,
  match head p with
  | None => (p, Panic)
  | Some h => let '(ms, a) := f (pendingState h) in (set_head (Some (mkPoolHead (currentState h) ms (currentMaxGas h))) p, Val a)
  end.
Definition max_gas : P Z := h ← gets head; or_panic (currentMaxGas <$> h).
Definition pending_nonce (addr : Address) : P Z := on_managed (ms_GetNonce addr).
Definition set_pending_nonce (addr : Address) (nonce : Z) : P unit := on_managed (λ ms, (ms_SetNonce addr nonce ms, tt)).

(** A call on the list of an account; a missing list is a nil dereference. *)
Definition lift {A} (r : outcome unit A) : outcome pool_error A :=
  match r with Val a => Val a | NoFuel => NoFuel | _ => Panic end.
Definition with_pending {A} (addr : Address) (f : L A) : P A := λ p,
  match pending p !! addr with
  | None => (p, Panic)
  | Some l => let '(l', r) := f l in (set_pending (<[addr := l']> (pending p)) p, lift r)
  end.
Definition with_queue {A} (addr : Address) (f : L A) : P A := λ p,
  match queue p !! addr with
  | None => (p, Panic)
  | Some l => let '(l', r) := f l in (set_queue (<[addr := l']> (queue p)) p, lift r)
  end.
Definition list_Add (tx : Transaction) (bump : Z) : L (bool * option Transaction) := λ l, let '(l', r) := Add tx bump l in (l', Val r).

(** [delete(pool.all, tx.Hash())], for one and for many. *)
Definition discard (tx : Transaction) : P unit := modify (λ p, set_all (delete (tx_hash tx) (all p)) p).
Fixpoint for_each {A} (l : list A) (f : A → P unit) : P unit :=
  match l with
  | [] => mret tt
  | x :: l => f x;; for_each l f
  end.
Definition discard_opt (old : option Transaction) : P unit := match old with Some old => discard old | None => mret tt end.
Definition known (hash : GoMath.Hash) (tx : Transaction) : P unit := modify (λ p, set_all (<[hash := tx]> (all p)) p).
(** An error that the caller does not look at. *)
Definition ignore {A} (m : P A) : P unit := λ p,
  let '(p', r) := m p in (p', match r with Val _ | Err _ => Val tt | Panic => Panic | NoFuel => NoFuel end).

(** *** Adding *)

Definition enqueueTx (hash : GoMath.Hash) (tx : Transaction) : P bool :=
  from ← from_of tx;
  modify (λ p, match queue p !! from with None => set_queue (<[from := newTxList false]> (queue p)) p | Some _ => p end);;
  cfg ← gets config;
  '(inserted, old) ← with_queue from (list_Add tx (PriceBump cfg));
  if negb inserted then fail ErrReplaceUnderpriced
  else
    discard_opt old;;
    known hash tx;;
    mret (bool_decide (is_Some old)).

Definition add (tx : Transaction) : P bool :=
  let hash := tx_hash tx in
  from ← from_of tx;
  cfg ← gets config;
  n ← gets (size ∘ all);
  if u64 (Z.of_nat n) >=? u64 (GlobalSlots cfg + GlobalQueue cfg) then fail ErrTxPoolFull
  else
    lst ← gets (λ p, pending p !! from);
    if match lst with Some l => Overlaps tx l | None => false end then
      '(inserted, old) ← with_pending from (list_Add tx (PriceBump cfg));
      if negb inserted then fail ErrReplaceUnderpriced
      else
        discard_opt old;;
        known hash tx;;
        modify (fire tx);;
        mret (bool_decide (is_Some old))
    else enqueueTx hash tx.

(** *** Removing *)

Definition removeTx (hash : GoMath.Hash) : P unit :=
  o ← gets (λ p, all p !! hash);
  match o with
  | None => mret tt
  | Some tx =>
      addr ← from_of tx;
      modify (λ p, set_all (delete hash (all p)) p);;
      lst ← gets (λ p, pending p !! addr);
      '(removed, invalids) ← match lst with Some _ => with_pending addr (list_Remove tx) | None => mret (false, []) end;
      if removed : bool then
        modify (λ p, match pending p !! addr with
                     | Some l => if Empty l then set_beats (delete addr (beats p)) (set_pending (delete addr (pending p)) p) else p
                     | None => p
                     end);;
        for_each invalids (λ tx, ignore (enqueueTx (tx_hash tx) tx));;
        n ← pending_nonce addr;
        if n >? Nonce tx then set_pending_nonce addr (Nonce tx) else mret tt
      else
        fut ← gets (λ p, queue p !! addr);
        match fut with
        | None => mret tt
        | Some _ =>
            with_queue addr (list_Remove tx);;
            modify (λ p, match queue p !! addr with
                         | Some l => if Empty l then set_queue (delete addr (queue p)) p else p
                         | None => p
                         end)
        end
  end.

(** *** Promotion and demotion *)

Definition promoteTx (now : Z) (addr : Address) (hash : GoMath.Hash) (tx : Transaction) : P unit :=
  modify (λ p, match pending p !! addr with None => set_pending (<[addr := newTxList true]> (pending p)) p | Some _ => p end);;
  cfg ← gets config;
  '(inserted, old) ← with_pending addr (list_Add tx (PriceBump cfg));
  if negb inserted then modify (λ p, set_all (delete hash (all p)) p)
  else
    discard_opt old;;
    modify (λ p, match all p !! hash with None => set_all (<[hash := tx]> (all p)) p | Some _ => p end);;
    modify (λ p, set_beats (<[addr := now]> (beats p)) p);;
    set_pending_nonce addr (u64 (Nonce tx + 1));;
    modify (fire tx).

(** The highest transaction of an account goes; the account continues from
    its nonce. *)
Definition drop_last (addr : Address) : P unit :=
  lst ← gets (λ p, pending p !! addr);
  l ← or_panic lst;
  drops ← with_pending addr (list_Cap (list_Len l - 1));
  for_each drops (λ tx,
    discard tx;;
    n ← pending_nonce addr;
    if n >? Nonce tx then set_pending_nonce addr (Nonce tx) else mret tt).
Definition pending_len (addr : Address) : P Z := lst ← gets (λ p, pending p !! addr); l ← or_panic lst; mret (list_Len l).
(** [pending--] for every offender. *)
Fixpoint drop_round (offenders : list Address) (total : Z) : P Z :=
  match offenders with
  | [] => mret total
  | addr :: offenders => drop_last addr;; drop_round offenders (u64 (total - 1))
  end.
(** While [pending] is over the limit and the list of [last] longer than
    [threshold]; the length decreases. *)
Fixpoint drop_rounds (fuel : nat) (offenders : list Address) (target : Address) (threshold total : Z) : P Z :=
  match fuel with
  | O => λ p, (p, NoFuel)
  | Datatypes.S fuel =>
      cfg ← gets config;
      if total >? GlobalSlots cfg then
        n ← pending_len target;
        if n >? threshold then
          total ← drop_round offenders total;
          drop_rounds fuel offenders target threshold total
        else mret total
      else mret total
  end.
(** [offenders] are those popped so far, the last popped at the end. *)
Fixpoint equalize (spammers offenders : list Address) (total : Z) : P (list Address * Z) :=
  match spammers with
  | [] => mret (offenders, total)
  | offender :: spammers =>
      cfg ← gets config;
      if total >? GlobalSlots cfg then
        match last offenders with
        | None => equalize spammers (offenders ++ [offender]) total
        | Some prev =>
            threshold ← pending_len offender;
            n ← pending_len prev;
            total ← drop_rounds (Datatypes.S (Z.to_nat n)) offenders prev threshold total;
            equalize spammers (offenders ++ [offender]) total
        end
      else mret (offenders, total)
  end.
Definition count_txs (m : gmap Z txList) : Z := foldl (λ n kv, u64 (n + u64 (list_Len kv.2))) 0 (go_range m).

Definition keepFit_pending : P unit :=
  cfg ← gets config;
  total ← gets (count_txs ∘ pending);
  if total >? GlobalSlots cfg then
    lists ← gets (λ p, go_range (pending p));
    let spammers := prque_order (omap (λ kv, if u64 (list_Len kv.2) >? AccountSlots cfg then Some (kv.1, float32 (list_Len kv.2)) else None) lists) in
    '(offenders, total) ← equalize spammers [] total;
    match last offenders with
    | Some target =>
        if total >? GlobalSlots cfg then
          n ← pending_len target;
          drop_rounds (Datatypes.S (Z.to_nat n)) offenders target (AccountSlots cfg) total;;
          mret tt
        else mret tt
    | None => mret tt
    end
  else mret tt.

(** From the end of the list while there is something to drop. *)
Fixpoint drop_tail (txs : list Transaction) (drop : Z) : P Z :=
  match txs with
  | [] => mret drop
  | tx :: txs => if drop >? 0 then removeTx (tx_hash tx);; drop_tail txs (u64 (drop - 1)) else mret drop
  end.
(** [addresses] from its end. *)
Fixpoint drop_queued (addresses : list Address) (drop : Z) : P unit :=
  match addresses with
  | [] => mret tt
  | addr :: addresses =>
      if drop >? 0 then
        lst ← gets (λ p, queue p !! addr);
        l ← or_panic lst;
        let size := u64 (list_Len l) in
        txs ← with_queue addr list_Flatten;
        if size <=? drop then
          for_each txs (λ tx, removeTx (tx_hash tx));;
          drop_queued addresses (u64 (drop - size))
        else
          drop ← drop_tail (reverse txs) drop;
          drop_queued addresses drop
      else mret tt
  end.
Definition heartbeat (p : TxPool) (addr : Address) : Z := default 0 (beats p !! addr).
(** [sort.Sort] is not stable; the order of equal heartbeats is that of the
    range, which is any order. *)
Definition by_heartbeat (p : TxPool) (addrs : list Address) : list Address :=
  (merge_sort beat_le ((λ a, (heartbeat p a, a)) <$> addrs)).*2.
Definition keepFit_queue : P unit :=
  cfg ← gets config;
  queued ← gets (count_txs ∘ queue);
  if queued >? GlobalQueue cfg then
    addresses ← gets (λ p, by_heartbeat p (go_range (queue p)).*1);
    drop_queued (reverse addresses) (u64 (queued - GlobalQueue cfg))
  else mret tt.
Definition keepFit : P unit := keepFit_pending;; keepFit_queue.

(** Transactions that are too old or too costly leave the queue. *)
Definition clean_queue (addr : Address) : P unit :=
  nonce ← on_current (state.GetNonce addr);
  old ← with_queue addr (list_Forward nonce);
  for_each old discard;;
  balance ← on_current (state.GetBalance addr);
  gas ← max_gas;
  '(drops, _) ← with_queue addr (list_Filter balance gas);
  for_each drops discard.
Definition promote_account (now : Z) (addr : Address) : P unit :=
  lst ← gets (λ p, queue p !! addr);
  match lst with
  | None => mret tt
  | Some _ =>
      clean_queue addr;;
      next ← pending_nonce addr;
      ready ← with_queue addr (list_Ready next);
      for_each ready (λ tx, promoteTx now addr (tx_hash tx) tx);;
      cfg ← gets config;
      over ← with_queue addr (list_Cap (i64 (AccountQueue cfg)));
      for_each over discard;;
      modify (λ p, match queue p !! addr with
                   | Some l => if Empty l then set_queue (delete addr (queue p)) p else p
                   | None => p
                   end)
  end.
(** [None] is the nil slice: all accounts of the queue. *)
Definition promoteExecutables (now : Z) (accounts : option (list Address)) : P unit :=
  queued ← gets (λ p, (go_range (queue p)).*1);
  for_each (default queued accounts) (promote_account now);;
  keepFit.

Definition demote_account (addr : Address) : P unit :=
  nonce ← on_current (state.GetNonce addr);
  old ← with_pending addr (list_Forward nonce);
  for_each old discard;;
  balance ← on_current (state.GetBalance addr);
  gas ← max_gas;
  '(drops, invalids) ← with_pending addr (list_Filter balance gas);
  for_each drops discard;;
  for_each invalids (λ tx, ignore (enqueueTx (tx_hash tx) tx));;
  lst ← gets (λ p, pending p !! addr);
  l ← or_panic lst;
  (if (list_Len l >? 0) && bool_decide (Get nonce (txs l) = None) then
     gapped ← with_pending addr (list_Cap 0);
     for_each gapped (λ tx, ignore (enqueueTx (tx_hash tx) tx))
   else mret tt);;
  modify (λ p, match pending p !! addr with
               | Some l => if Empty l then set_beats (delete addr (beats p)) (set_pending (delete addr (pending p)) p) else p
               | None => p
               end).
Definition demoteUnexecutables : P unit :=
  addrs ← gets (λ p, (go_range (pending p)).*1);
  for_each addrs demote_account.

(** *** Validation and the entry points *)

Definition validateTx (tx : Transaction) : P unit :=
  if tx_size tx >? maxTransactionSize then fail ErrOversizedData
  else if big_Sign (Amount (data tx)) <? 0 then fail ErrNegativeValue
  else
    gas ← max_gas;
    if big_Cmp gas (Gas tx) <? 0 then fail ErrGasLimit
    else
      o ← sender tx;
      match o with
      | None => fail ErrInvalidSender
      | Some from =>
          price ← gets gasPrice;
          if big_Cmp price (GasPrice tx) >? 0 then fail ErrUnderpriced
          else
            nonce ← on_current (state.GetNonce from);
            if nonce >? Nonce tx then fail ErrNonceTooLow
            else
              balance ← on_current (state.GetBalance from);
              if big_Cmp balance (Cost tx) <? 0 then fail ErrInsufficientFunds
              else if big_Cmp (Gas tx) (IntrinsicGas (Payload (data tx)) (bool_decide (To tx = None))) <? 0 then fail ErrIntrinsicGas
              else mret tt
      end.

Definition addTxLocked (now : Z) (tx : Transaction) : P unit :=
  replace ← add tx;
  if negb replace then
    from ← from_of tx;
    promoteExecutables now (Some [from])
  else mret tt.
(** The senders of the transactions that were added without replacing one. *)
Fixpoint add_all (txs : list Transaction) (dirty : gmap Z unit) : P (gmap Z unit) :=
  match txs with
  | [] => mret dirty
  | tx :: txs => λ p,
      match add tx p with
      | (p', Val false) => (from ← from_of tx; add_all txs (<[from := tt]> dirty)) p'
      | (p', Val true) | (p', Err _) => add_all txs dirty p'
      | (p', Panic) => (p', Panic)
      | (p', NoFuel) => (p', NoFuel)
      end
  end.
Definition addTxsLocked (now : Z) (txs : list Transaction) : P unit :=
  dirty ← add_all txs ∅;
  if (0 <? size dirty)%nat then promoteExecutables now (Some (go_range dirty).*1) else mret tt.

Definition check_new (tx : Transaction) : P unit :=
  let hash := tx_hash tx in
  o ← gets (λ p, all p !! hash);
  match o with
  | Some _ => fail (ErrKnown hash)
  | None => validateTx tx
  end.
Definition AddTx (now : Z) (tx : Transaction) : P unit := check_new tx;; addTxLocked now tx.
Definition AddTxs (now : Z) (txs : list Transaction) : P unit := for_each txs check_new;; addTxsLocked now txs.

(** *** A new head *)

(** Blocks of a chain from [b] down while [go] says so, with their
    transactions; the walk stops with [None] where a block is missing. *)
Definition NumberU64 (b : Block) : Z := big_Uint64 (Number (header b)).
Definition block_hash (b : Block) : GoMath.Hash := default (Header_Hash (header b)) (b_hash b).
Definition parent (chain : blockChain) (b : Block) : option Block := GetBlock chain (ParentHash (header b)) (u64 (NumberU64 b - 1)).
Fixpoint walk_down (fuel : nat) (chain : blockChain) (to : Z) (b : Block) : P (list Transaction * option Block) :=
  match fuel with
  | O => λ p, (p, NoFuel)
  | Datatypes.S fuel =>
      if NumberU64 b >? to then
        match parent chain b with
        | None => mret (transactions b, None)
        | Some b' => '(txs, o) ← walk_down fuel chain to b'; mret (transactions b ++ txs, o)
        end
      else mret ([], Some b)
  end.
Fixpoint walk_both (fuel : nat) (chain : blockChain) (rem add : Block) : P (option (list Transaction * list Transaction)) :=
  match fuel with
  | O => λ p, (p, NoFuel)
  | Datatypes.S fuel =>
      if negb (block_hash rem =? block_hash add) then
        match parent chain rem with
        | None => mret None
        | Some rem' =>
            match parent chain add with
            | None => mret None
            | Some add' =>
                o ← walk_both fuel chain rem' add';
                mret (match o with Some (d, i) => Some (transactions rem ++ d, transactions add ++ i) | None => None end)
            end
        end
      else mret (Some ([], []))
  end.
(** The transactions to inject again, or [None] if the walk leaves the chain. *)
Definition reorg_txs (chain : blockChain) (oldHead newHead : Header) : P (option (list Transaction)) :=
  let oldNum := big_Uint64 (Number oldHead) in
  let newNum := big_Uint64 (Number newHead) in
  let depth := float64 (Z.abs (float64 oldNum - float64 newNum)) in
  if depth >? 64 then mret (Some [])
  else
    rem ← or_panic (GetBlock chain (Header_Hash oldHead) oldNum);
    add ← or_panic (GetBlock chain (Header_Hash newHead) newNum);
    '(d1, rem) ← walk_down (Datatypes.S (Z.to_nat (NumberU64 rem))) chain (NumberU64 add) rem;
    match rem with
    | None => mret None
    | Some rem =>
        '(i1, add) ← walk_down (Datatypes.S (Z.to_nat (NumberU64 add))) chain (NumberU64 rem) add;
        match add with
        | None => mret None
        | Some add =>
            o ← walk_both (Datatypes.S (Z.to_nat (NumberU64 rem))) chain rem add;
            mret (match o with Some (d2, i2) => Some (TxDifference (d1 ++ d2) (i1 ++ i2)) | None => None end)
        end
    end.

(** The last nonce of every pending list is the account's. *)
Definition refresh_nonce (addr : Address) : P unit :=
  txs ← with_pending addr list_Flatten;
  tx ← or_panic (last txs);
  set_pending_nonce addr (u64 (Nonce tx + 1)).
Definition reset_to (now : Z) (chain : blockChain) (newHead : Header) (reinject : list Transaction) : P unit :=
  match StateAt chain (Root newHead) with
  | inl _ => mret tt
  | inr statedb =>
      ms ← or_panic (ManageState statedb);
      modify (set_head (Some (mkPoolHead statedb ms (h_GasLimit newHead))));;
      addTxsLocked now reinject;;
      demoteUnexecutables;;
      addrs ← gets (λ p, (go_range (pending p)).*1);
      for_each addrs refresh_nonce;;
      promoteExecutables now None
  end.
Definition reset (now : Z) (chain : blockChain) (oldHead newHead : option Header) : P unit :=
  reinject ← match oldHead with
             | None => mret (Some [])
             | Some oldHead =>
                 newHead ← or_panic newHead;
                 if negb (Header_Hash oldHead =? ParentHash newHead) then reorg_txs chain oldHead newHead else mret (Some [])
             end;
  match reinject with
  | None => mret tt
  | Some reinject => reset_to now chain (default (header (CurrentBlock chain)) newHead) reinject
  end.

(** The pool before its first [reset]. *)
Definition newPool (cfg : TxPoolConfiguration) (chainId : option Z) : TxPool :=
  mkPool cfg (NewBoeSigner chainId) (PriceLimit cfg) None ∅ ∅ ∅ ∅ [].
Definition NewTxPool (now : Z) (chain : blockChain) (cfg : TxPoolConfiguration) (chainId : option Z) : TxPool * outcome pool_error unit :=
  reset now chain None (Some (header (CurrentBlock chain))) (newPool cfg chainId).

(** The eviction tick of [loop].  An account that loses its list before the
    range reaches it is not visited. *)
Definition evict_account (now : Z) (addr : Address) : P unit :=
  lst ← gets (λ p, queue p !! addr);
  beat ← gets (λ p, heartbeat p addr);
  cfg ← gets config;
  match lst with
  | None => mret tt
  | Some _ =>
      if Since now beat >? Lifetime cfg then
        txs ← with_queue addr list_Flatten;
        for_each txs (λ tx, removeTx (tx_hash tx))
      else mret tt
  end.
Definition evict (now : Z) : P unit :=
  addrs ← gets (λ p, (go_range (queue p)).*1);
  for_each addrs (evict_account now).

(** *** Reading *)

Definition count_len (m : gmap Z txList) : Z := foldl (λ n kv, n + list_Len kv.2) 0 (go_range m).
Definition Stats (p : TxPool) : Z * Z := (count_len (pending p), count_len (queue p)).
Definition pool_Get (hash : GoMath.Hash) (p : TxPool) : option Transaction := all p !! hash.
(** [Flatten] of every list, which fills the caches. *)
Fixpoint flatten_all (run : Address → P (list Transaction)) (addrs : list Address) : P (gmap Z (list Transaction)) :=
  match addrs with
  | [] => mret ∅
  | addr :: addrs => txs ← run addr; m ← flatten_all run addrs; mret (<[addr := txs]> m)
  end.
Definition Pending : P (gmap Z (list Transaction)) :=
  addrs ← gets (λ p, (go_range (pending p)).*1);
  flatten_all (λ addr, with_pending addr list_Flatten) addrs.
Definition Content : P (gmap Z (list Transaction) * gmap Z (list Transaction)) :=
  pending ← Pending;
  addrs ← gets (λ p, (go_range (queue p)).*1);
  queued ← flatten_all (λ addr, with_queue addr list_Flatten) addrs;
  mret (pending, queued).
Definition SetGasPrice (price : Z) : P unit := modify (set_gasPrice price).
End pool.
End txpool.
