(* ===== verification/TxPoolFacts.v ===== *)
(** * The bookkeeping of the transaction pool

    What the lists of a pool hold, and how every operation moves transactions
    between the lists and the map of all transactions.  The statements are
    about a pool whose removed transactions [extra] are not yet deleted from
    the map, so that the operations can be followed step by step. *)

From stdpp Require Import base tactics list numbers gmap sorting.
From S2P Require Import Prelude GoMath EvmParams GoHeap RlpEncode RlpDecode RlpRecord RlpStream Keccak TxTypes TxList TxListProps State StateFacts StateLaws Transition BlockTypes TxPool.

#[local] Open Scope Z_scope.
Import types txlist managed blocks txpool.

(** ** Lists of transactions *)

Definition txs_of (t : txList) : list Transaction := sort_txs (map_to_list (items (txs t))).*2.
Definition contents (m : gmap Z txList) : list Transaction := map_to_list m ≫= λ kv, txs_of kv.2.

Lemma lrepr_txs_of s t l : lrepr s t l → txs_of t = l.
Proof.
  intros ([(Hs & _ & Hi & _) _] & _). unfold txs_of. apply sort_txs_ok; [done|]. rewrite Hi. rewrite of_list_to_list by done. by rewrite keyed_snd.
Qed.
Lemma txs_of_new s : txs_of (newTxList s) = [].
Proof. done. Qed.
Lemma lrepr_new s : lrepr s (newTxList s) [].
Proof. split; [apply repr_new|]. split; [constructor|done]. Qed.
Lemma lrepr_sorted s t l : lrepr s t l → sorted l.
Proof. by intros ([(Hs & _) _] & _). Qed.
Lemma lrepr_Len s t l : lrepr s t l → list_Len t = Zlen l.
Proof. intros (Hr & _). by apply repr_Len. Qed.

Lemma contents_insert m a t : contents (<[a := t]> m) ≡ₚ txs_of t ++ contents (delete a m).
Proof. unfold contents. rewrite <- insert_delete_eq. rewrite map_to_list_insert by apply lookup_delete_eq. done. Qed.
Lemma contents_delete m a t : m !! a = Some t → contents m ≡ₚ txs_of t ++ contents (delete a m).
Proof. intros H. rewrite <- contents_insert. by rewrite insert_id. Qed.
Lemma contents_new m a t : m !! a = None → contents (<[a := t]> m) ≡ₚ txs_of t ++ contents m.
Proof. intros H. rewrite contents_insert. by rewrite delete_id. Qed.
Lemma contents_elem m tx : tx ∈ contents m ↔ ∃ a t, m !! a = Some t ∧ tx ∈ txs_of t.
Proof.
  unfold contents. rewrite list_elem_of_bind. split.
  - intros ([a t] & Htx & Hin%elem_of_map_to_list). by exists a, t.
  - intros (a & t & Hm & Htx). exists (a, t). split; [done|]. by apply elem_of_map_to_list.
Qed.
(** A list of the map loses [out]. *)
Lemma contents_take m a t t' out : m !! a = Some t → txs_of t ≡ₚ txs_of t' ++ out → contents m ≡ₚ contents (<[a := t']> m) ++ out.
Proof.
  intros Hm Hp. rewrite (contents_delete _ _ _ Hm), contents_insert, Hp. rewrite <- !app_assoc. f_equiv. apply Permutation_app_comm.
Qed.
(** A list of the map gains [tx]. *)
Lemma contents_put m a t t' tx : m !! a = Some t → txs_of t' ≡ₚ tx :: txs_of t → contents (<[a := t']> m) ≡ₚ tx :: contents m.
Proof. intros Hm Hp. by rewrite (contents_delete _ _ _ Hm), contents_insert, Hp. Qed.
Lemma contents_empty m a t : m !! a = Some t → txs_of t = [] → contents (delete a m) ≡ₚ contents m.
Proof. intros Hm Hp. by rewrite (contents_delete _ _ _ Hm), Hp. Qed.

(** ** What the operations of a list take *)

Section takes.
Context {rng : GoRange} {laws : GoRangeLaws rng}.

Lemma filter_partition (P : Transaction → Prop) `{!∀ x, Decision (P x)} l : filter (λ x, ¬ P x) l ++ filter P l ≡ₚ l.
Proof.
  induction l as [|x l IH]; [done|]. destruct (decide (P x)) as [Hx|Hx].
  - rewrite filter_cons_False by tauto. rewrite filter_cons_True by done. rewrite <- Permutation_middle. by rewrite IH.
  - rewrite filter_cons_True by done. rewrite filter_cons_False by done. cbn. by rewrite IH.
Qed.
Lemma Forward_takes s t l n : lrepr s t l →
  ∃ t' l' out, list_Forward n t = (t', Val out) ∧ lrepr s t' l' ∧ l ≡ₚ l' ++ out ∧ l' = filter (λ x, n ≤ Nonce x) l.
Proof.
  intros Hl. destruct (exec_ok s (OForward n) t l I Hl) as (t' & r & E & Hs & Hl'). cbn [exec spec snd fst] in *.
  unfold mbind, M_bind in E. destruct (list_Forward n t) as [t1 [out| | |]]; try done. injection E as <- <-. injection Hs as ->.
  eexists _, _, _. split; [done|]. split; [done|]. split; [|done]. pose proof Hl as (Hr & _). rewrite (filter_split n l) at 1 by (by eapply lrepr_sorted). apply Permutation_app_comm.
Qed.
Lemma Cap_takes s t l k : lrepr s t l → 0 ≤ k →
  ∃ t' out, list_Cap k t = (t', Val out) ∧ lrepr s t' (take (Z.to_nat k) l) ∧ out = reverse (drop (Z.to_nat k) l) ∧ l ≡ₚ take (Z.to_nat k) l ++ out.
Proof.
  intros Hl Hk. pose proof Hl as (Hr & Hc & _). destruct (Cap_ok k _ _ Hr Hk) as (m' & E & Hr'). destruct (on_txs_ok _ _ _ _ _ _ _ Hl E Hr' (Forall_take _ _ _ Hc)) as [E' Hl'].
  eexists _, _. split; [exact E'|]. split; [done|]. split; [done|]. rewrite reverse_Permutation. by rewrite take_drop.
Qed.
Lemma Cap_last s t l tx : lrepr s t (l ++ [tx]) → ∃ t', list_Cap (list_Len t - 1) t = (t', Val [tx]) ∧ lrepr s t' l.
Proof.
  intros Hl. rewrite (lrepr_Len _ _ _ Hl). assert (Zlen (l ++ [tx]) - 1 = Zlen l) as -> by (unfold Zlen; rewrite length_app; cbn; lia).
  destruct (Cap_takes s t _ (Zlen l) Hl (Zlen_nonneg l)) as (t' & out & E & Hl' & Eout & _). unfold Zlen in Eout, Hl'. rewrite Nat2Z.id in Eout, Hl'. rewrite drop_app_length in Eout. rewrite take_app_length in Hl'. subst out. by exists t'.
Qed.
Lemma run_from_split next l : l = run_from next l ++ drop (length (run_from next l)) l.
Proof. revert next. induction l as [|x l IH]; intros next; [done|]. cbn [run_from]. destruct (Nonce x =? next); [cbn; by f_equal|done]. Qed.
Lemma ready_split start l : l = ready_of start l ++ drop (length (ready_of start l)) l.
Proof. destruct l as [|x l]; [done|]. unfold ready_of. destruct (Nonce x >? start); [done|]. apply run_from_split. Qed.
Lemma Ready_takes s t l n : lrepr s t l →
  ∃ t' l' out, list_Ready n t = (t', Val out) ∧ lrepr s t' l' ∧ out = ready_of n l ∧ l = out ++ l'.
Proof.
  intros Hl. pose proof Hl as (Hr & Hc & _). destruct (Ready_ok n _ _ Hr) as (m' & E & Hr'). destruct (on_txs_ok _ _ _ _ _ _ _ Hl E Hr' (capped_drop _ _ _ _ Hc)) as [E' Hl'].
  eexists _, _, _. split; [exact E'|]. split; [done|]. split; [done|]. apply ready_split.
Qed.
Lemma Flatten_takes s t l : lrepr s t l → ∃ t', list_Flatten t = (t', Val l) ∧ lrepr s t' l.
Proof.
  intros Hl. pose proof Hl as (Hr & Hc & _). destruct (Flatten_ok _ _ Hr) as [E Hr']. destruct (on_txs_ok _ _ _ _ _ _ _ Hl E Hr' Hc) as [E' Hl']. eexists. split; [exact E'|done].
Qed.
Lemma Filter_takes s t l c g : lrepr s t l →
  ∃ t' l' removed invalids, list_Filter c g t = (t', Val (removed, invalids)) ∧ lrepr s t' l' ∧ l ≡ₚ l' ++ removed ++ invalids ∧ (s = false → invalids = []) ∧ l' = (spec s (OFilter c g) l).1 ∧
    removed ≡ₚ filter (λ x, affordable c g x = false) l.
Proof.
  intros Hl. destruct (list_Filter_ok s t l c g Hl) as (t' & removed & invalids & E & Hs & Hl'). eexists _, _, _, _. split; [exact E|]. split; [exact Hl'|]. cbn [spec] in *.
  assert (∀ l, filter (λ x, affordable c g x = true) l ++ filter (λ x, affordable c g x = false) l ≡ₚ l) as Hsplit.
  { clear. intros l. induction l as [|x l IH]; [done|]. destruct (affordable c g x) eqn:E; [rewrite filter_cons_True by done; rewrite (filter_cons_False _ x) by (by rewrite E); cbn; by rewrite IH|].
    rewrite filter_cons_False by (by rewrite E). rewrite (filter_cons_True _ x) by done. rewrite <- Permutation_middle. by rewrite IH. }
  destruct s; cbn [fst snd same_result] in *; destruct Hs as [H1 H2]; (split; [|split; [|split; [done|by rewrite H1]]]).
  - destruct (run_split (affordable c g) l) as [[Ep Hall]|(r & q & El & Hp & Hrf)].
    + rewrite Ep, drop_all in *. apply Permutation_nil_r in H2 as ->. rewrite filter_none in H1 by (eapply List.Forall_impl with (2 := Hall); intros x Hx; by rewrite Hx). apply Permutation_nil_r in H1 as ->. by rewrite app_nil_r.
    + rewrite H1, H2. set (pre := prefix_of (affordable c g) l) in *. clearbody pre. subst l. rewrite drop_app_length, filter_app, (filter_none _ pre) by (eapply List.Forall_impl with (2 := Hp); intros x Hx; by rewrite Hx).
      cbn [app]. f_equiv. rewrite Permutation_app_comm. by rewrite Hsplit.
  - done.
  - rewrite H1. apply Permutation_nil_r in H2 as ->. rewrite app_nil_r. by rewrite Hsplit.
  - intros _. by apply Permutation_nil_r in H2.
Qed.
Lemma find_nonce_in l n : sorted l → n ∈ Nonce <$> l → ∃ x l', l ≡ₚ x :: l' ∧ Nonce x = n ∧ l' = filter (λ y, Nonce y ≠ n) l.
Proof.
  intros Hs (x & -> & Hx)%list_elem_of_fmap. exists x. eexists. split; [|done]. apply list_elem_of_split in Hx as (l1 & l2 & ->).
  destruct (sorted_app _ _ Hs) as (_ & H2 & H3). apply StronglySorted_inv in H2 as [_ H2]. rewrite filter_app, filter_cons_False by tauto.
  rewrite !filter_all; [by rewrite Permutation_middle|eapply List.Forall_impl with (2 := H2); unfold nonce_lt; lia|]. apply Forall_forall. intros y Hy. specialize (H3 y x Hy ltac:(by left)). lia.
Qed.
Lemma Remove_takes s t l tx : lrepr s t l →
  (Nonce tx ∉ Nonce <$> l ∧ ∃ t', list_Remove tx t = (t', Val (false, [])) ∧ lrepr s t' l) ∨
  (∃ t' l' x invalids, list_Remove tx t = (t', Val (true, invalids)) ∧ lrepr s t' l' ∧ l ≡ₚ l' ++ x :: invalids ∧ Nonce x = Nonce tx ∧ (s = false → invalids = []) ∧ l' = (spec s (ORemove tx) l).1).
Proof.
  intros Hl. destruct (list_Remove_ok s t l tx Hl) as (t' & b & invalids & E & Hs & Hl'). pose proof (lrepr_sorted _ _ _ Hl) as Hsl. cbn [spec] in *. case_bool_decide as Hin.
  - right. destruct (find_nonce_in l _ Hsl Hin) as (x & l' & Hp & Hx & ->). destruct s; cbn [fst snd same_result] in *; destruct Hs as [-> H2]; eexists t', _, x, invalids; (split; [done|]); (split; [exact Hl'|]).
    + split; [|done]. rewrite H2. rewrite Hp at 1. rewrite <- Permutation_middle. f_equiv. clear -Hsl. rewrite <- (filter_partition (λ y, Nonce tx < Nonce y) (filter _ l)). rewrite !list_filter_filter.
      f_equiv; apply reflexive_eq, list_filter_iff; intros y; lia.
    + apply Permutation_nil_r in H2 as ->. split; [|done]. rewrite Hp at 1. by rewrite Permutation_app_comm.
  - left. split; [done|]. cbn [fst snd same_result] in *. destruct Hs as [-> H2]. apply Permutation_nil_r in H2 as ->. by exists t'.
Qed.
Lemma Remove_absent s t l tx : lrepr s t l → Nonce tx ∉ Nonce <$> l → list_Remove tx t = (t, Val (false, [])).
Proof.
  intros (Hr & _) Hn. unfold list_Remove. pose proof (repr_Get _ l (Nonce tx) Hr) as Hg. unfold Get in Hg. destruct (List.find _ l) as [x|] eqn:Ef.
  - apply List.find_some in Ef as [Hin Hx]. exfalso. zbool. apply Hn. rewrite <- Hx. apply list_elem_of_fmap_2. by apply list_elem_of_In.
  - erewrite (bind_val _ _ t t false); [done|]. unfold on_txs, Remove. rewrite Hg. by destruct t.
Qed.
Lemma Add_takes s t l tx bump : lrepr s t l → is_u64 (Nonce tx) → 0 ≤ bump < 2 ^ 62 →
  (Nonce tx ∉ Nonce <$> l ∧ ∃ t', list_Add tx bump t = (t', Val (true, None)) ∧ lrepr s t' (insert_tx tx l) ∧ insert_tx tx l ≡ₚ tx :: l) ∨
  (∃ x, x ∈ l ∧ Nonce x = Nonce tx ∧ list_Add tx bump t = (t, Val (false, None))) ∨
  (∃ x l' t', l ≡ₚ x :: l' ∧ Nonce x = Nonce tx ∧ GasPrice x * (100 + bump) / 100 < GasPrice tx ∧ list_Add tx bump t = (t', Val (true, Some x)) ∧ lrepr s t' (insert_tx tx l) ∧ insert_tx tx l ≡ₚ tx :: l').
Proof.
  intros Hl Hu Hb. destruct (Add_ok s t l tx bump Hl Hu Hb) as (t' & E & Hl'). pose proof (lrepr_sorted _ _ _ Hl) as Hs. cbn [exec spec] in *. unfold list_Add.
  assert (∀ l', NoDup (Nonce <$> tx :: l') → (∀ x, x ∈ l' ↔ x ∈ l ∧ Nonce x ≠ Nonce tx) → insert_tx tx l ≡ₚ tx :: l') as Hperm.
  { intros l' Hd Hl0. apply NoDup_Permutation; [by eapply NoDup_fmap_1, sorted_nodup, insert_tx_sorted|by eapply NoDup_fmap_1|]. intros x. rewrite insert_tx_in by done. rewrite elem_of_cons, Hl0. done. }
  unfold Add in *. rewrite (repr_Get _ l) in * by (by apply Hl). destruct (List.find _ l) as [x|] eqn:Ef.
  - apply List.find_some in Ef as [Hin Hn]. apply list_elem_of_In in Hin. zbool. right. destruct (big_Cmp _ _ >=? 0) eqn:Eref; [left; by exists x|right].
    rewrite (i64_small bump), i64_small in Eref by lia. rewrite Cmp_ge in Eref. unfold big_Div in Eref. change (Z.sgn 100) with 1 in Eref. change (Z.abs 100) with 100 in Eref. rewrite Z.mul_1_l in Eref.
    rewrite Eref in Hl', E. zbool. destruct (find_nonce_in l (Nonce tx) Hs) as (y & l' & Hp & Hy & Hl0); [rewrite <- Hn; by apply list_elem_of_fmap_2|].
    assert (y = x) as ->. { assert (y ∈ l) as Hyl by (rewrite Hp; by left). pose proof (proj2 (of_list_lookup l (Nonce tx) x Hs) (conj Hin Hn)) as E1. pose proof (proj2 (of_list_lookup l (Nonce tx) y Hs) (conj Hyl Hy)) as E2. congruence. }
    exists x, l'. eexists. split; [done|]. split; [done|]. split; [done|]. split; [reflexivity|]. injection E as E. rewrite E. split; [exact Hl'|]. apply Hperm.
    + cbn. rewrite <- Hy. change (NoDup (Nonce <$> x :: l')). rewrite <- Hp. by apply sorted_nodup.
    + intros z. rewrite Hl0, list_elem_of_filter. tauto.
  - left. split.
    + intros (x & Hx & Hin)%list_elem_of_fmap. apply list_elem_of_In in Hin. pose proof (List.find_none _ _ Ef x Hin) as Hf. cbn in Hf. by rewrite Hx, Z.eqb_refl in Hf.
    + injection E as E. eexists. split; [reflexivity|]. rewrite E. split; [exact Hl'|]. assert (Nonce tx ∉ Nonce <$> l) as Hn.
      { intros (x & Hx & Hin)%list_elem_of_fmap. apply list_elem_of_In in Hin. pose proof (List.find_none _ _ Ef x Hin) as Hf. cbn in Hf. by rewrite Hx, Z.eqb_refl in Hf. }
      apply Hperm; [cbn; constructor; [done|by apply sorted_nodup]|]. intros x. split; [intros Hx; split; [done|]; intros En; apply Hn; rewrite <- En; by apply list_elem_of_fmap_2|by intros [? _]].
Qed.
End takes.

(** ** The nonces the pool sees *)

Section heads.
Context {senv : state.StateEnv} {slaws : StateEnvLaws} {secp : Secp256k1} {rng : GoRange} {prq : Prque}.

Definition ms_ok (ms : ManagedState) : Prop := objs_ok (ms_StateDB ms) ∧
  ∀ a acc, accounts ms !! a = Some acc → acc = mkManaged (nonce_at a (ms_StateDB ms)) [].
Definition head_ok (h : poolHead) : Prop := objs_ok (currentState h) ∧ ms_ok (pendingState h).
Definition cur (h : poolHead) (a : Address) : Z := nonce_at a (currentState h).
Definition bal (h : poolHead) (a : Address) : Z := balance_at a (currentState h).
Definition nxt (h : poolHead) (a : Address) : Z := nonce_at a (ms_StateDB (pendingState h)).

(** Heads that say the same about the current state. *)
Record same_current (h h' : poolHead) : Prop := {
  sc_ok : head_ok h';
  sc_cur a : cur h' a = cur h a;
  sc_bal a : bal h' a = bal h a;
  sc_gas : currentMaxGas h' = currentMaxGas h }.
Definition same_head (h h' : poolHead) : Prop := same_current h h' ∧ ∀ a, nxt h' a = nxt h a.

Lemma same_current_refl h : head_ok h → same_current h h.
Proof. by split. Qed.
Lemma same_current_trans h1 h2 h3 : same_current h1 h2 → same_current h2 h3 → same_current h1 h3.
Proof. intros [] []. split; [done|congruence|congruence|congruence]. Qed.
Lemma same_head_trans h1 h2 h3 : same_head h1 h2 → same_head h2 h3 → same_head h1 h3.
Proof. intros [H1 H2] [H3 H4]. split; [by eapply same_current_trans|congruence]. Qed.

Lemma nonce_at_u64 a s : objs_ok s → is_u64 (nonce_at a s).
Proof. intros Hs. unfold nonce_at. destruct (lookup_obj a s) as [o|] eqn:E; [|done]. by apply (lookup_obj_ok a s o Hs E). Qed.
Lemma pure_read_ok s s' : pure_read s s' → objs_ok s' ∧ ∀ a, nonce_at a s' = nonce_at a s ∧ balance_at a s' = balance_at a s.
Proof. intros [He Hu]. split; [by eapply undoable_objs|]. intros a. split; (apply equiv_at; [by intros ? ? []|done]). Qed.

Lemma current_nonce a p h : head p = Some h → head_ok h → ∃ h', on_current (state.GetNonce a) p = (set_head (Some h') p, Val (cur h a)) ∧ same_head h h'.
Proof.
  intros Hh [Hc Hm]. unfold on_current. rewrite Hh. destruct (GetNonce_eq a _ Hc) as [Hr Hv]. destruct (state.GetNonce a (currentState h)) as [s' v]. cbn in Hv. subst v.
  eexists. split; [done|]. apply pure_read_ok in Hr as [Hs' Hn]. split; [|done]. split; [done|intros x; apply Hn|intros x; apply Hn|done].
Qed.
Lemma current_balance a p h : head p = Some h → head_ok h → ∃ h', on_current (state.GetBalance a) p = (set_head (Some h') p, Val (bal h a)) ∧ same_head h h'.
Proof.
  intros Hh [Hc Hm]. unfold on_current. rewrite Hh. destruct (GetBalance_eq a _ Hc) as [Hr Hv]. destruct (state.GetBalance a (currentState h)) as [s' v]. cbn in Hv. subst v.
  eexists. split; [done|]. apply pure_read_ok in Hr as [Hs' Hn]. split; [|done]. split; [done|intros x; apply Hn|intros x; apply Hn|done].
Qed.
Lemma managed_nonce ms a : ms_ok ms → ∃ ms', ms_GetNonce a ms = (ms', nonce_at a (ms_StateDB ms)) ∧ ms_ok ms' ∧ ∀ x, nonce_at x (ms_StateDB ms') = nonce_at x (ms_StateDB ms).
Proof.
  intros [Hs Ha]. unfold ms_GetNonce, hasAccount. case_bool_decide as Hacc.
  - destruct Hacc as [acc Eacc]. pose proof (Ha _ _ Eacc) as ->. unfold getAccount. rewrite Eacc. cbn [nonces nstart]. pose proof (nonce_at_u64 a _ Hs) as Hu.
    pose proof (getStateObject_found a _ Hs) as F. assert (from_option state.data_Nonce 0 (state.getStateObject a (ms_StateDB ms)).2 = nonce_at a (ms_StateDB ms)) as Ho by (by rewrite (fo_result _ _ _ _ F)).
    assert (ms_ok (with_db (state.getStateObject a (ms_StateDB ms)).1 ms) ∧ ∀ x, nonce_at x (state.getStateObject a (ms_StateDB ms)).1 = nonce_at x (ms_StateDB ms)) as Hok.
    { apply found_read, pure_read_ok in F as [Hs' Hn]. split; [|intros x; apply Hn]. split; [done|]. intros x y Hx. rewrite (Ha _ _ Hx). cbn. by rewrite (proj1 (Hn x)). }
    clear F. change (Zlen []) with 0. rewrite Z.add_0_l, u64_small by done. destruct (state.getStateObject a (ms_StateDB ms)) as [s' [o|]]; cbn [fst snd from_option] in *; [|eexists; split; [|exact Hok]].
    + rewrite (proj2 (Z.ltb_ge _ _)) by lia. eexists. split; [|exact Hok]. cbn [nonces nstart]. change (Zlen []) with 0. by rewrite Z.add_0_l, u64_small.
    + cbn [nonces nstart]. change (Zlen []) with 0. by rewrite Z.add_0_l, u64_small.
  - destruct (GetNonce_eq a _ Hs) as [Hr Hv]. destruct (state.GetNonce a (ms_StateDB ms)) as [s' v]. cbn in Hv. subst v. eexists. split; [done|]. apply pure_read_ok in Hr as [Hs' Hn]. cbn [fst] in *.
    split; [|intros x; apply Hn]. split; [done|]. intros x y Hx. rewrite (Ha _ _ Hx). cbn. by rewrite (proj1 (Hn x)).
Qed.
Lemma pending_nonce_ok a p h : head p = Some h → head_ok h → ∃ h', pending_nonce a p = (set_head (Some h') p, Val (nxt h a)) ∧ same_head h h'.
Proof.
  intros Hh [Hc Hm]. unfold pending_nonce, on_managed. rewrite Hh. destruct (managed_nonce _ a Hm) as (ms' & E & Hm' & Hn). rewrite E. eexists. split; [done|]. by split.
Qed.
Lemma managed_set ms a n : ms_ok ms → is_u64 n → ms_ok (ms_SetNonce a n ms) ∧ ∀ x, nonce_at x (ms_StateDB (ms_SetNonce a n ms)) = if decide (x = a) then n else nonce_at x (ms_StateDB ms).
Proof.
  intros [Hs Ha] Hn. pose proof (SetNonce_updates a n _ Hs Hn) as Hu. unfold state.SetNonce in Hu. unfold ms_SetNonce. destruct (state.GetOrNewStateObject a (ms_StateDB ms)) as [s o] eqn:E. cbn [ms_StateDB accounts].
  assert (∀ x, nonce_at x (state.obj_SetNonce n o s) = if decide (x = a) then n else nonce_at x (ms_StateDB ms)) as Hx.
  { destruct Hu as [_ Ho Hoth _]. intros x. unfold nonce_at. case_decide as Hxa; [subst; inversion Ho as [y ? Hy Ey|]; subst; apply (oe_nonce _ _ Hy)|]. destruct (Hoth x Hxa) as [? ? Hy|]; [apply Hy|done]. }
  split; [|done]. split; [by eapply undoable_objs, Hu|]. intros x acc. cbn [accounts ms_StateDB]. rewrite Hx. destruct (decide (x = a)) as [->|Hne].
  - rewrite lookup_insert_eq. by intros [= <-].
  - rewrite lookup_insert_ne by done. apply Ha.
Qed.
Lemma set_pending_nonce_ok a n p h : head p = Some h → head_ok h → is_u64 n →
  ∃ h', set_pending_nonce a n p = (set_head (Some h') p, Val tt) ∧ same_current h h' ∧ ∀ x, nxt h' x = if decide (x = a) then n else nxt h x.
Proof.
  intros Hh [Hc Hm] Hn. unfold set_pending_nonce, on_managed. rewrite Hh. destruct (managed_set _ a n Hm Hn) as [Hm' Hx]. eexists. split; [done|]. split; [|done]. by split.
Qed.
(** [if nonce > n then SetNonce]: the nonce is at most [n]. *)
Lemma lower_nonce_ok a n p h : head p = Some h → head_ok h → is_u64 n →
  ∃ h', (k ← pending_nonce a; if k >? n then set_pending_nonce a n else mret tt) p = (set_head (Some h') p, Val tt) ∧ same_current h h' ∧
    ∀ x, nxt h' x = if decide (x = a) then Z.min (nxt h a) n else nxt h x.
Proof.
  intros Hh Hok Hn. destruct (pending_nonce_ok a p h Hh Hok) as (h1 & E1 & [Hc1 Hn1]). rewrite (bind_val _ _ _ _ _ E1). destruct (Z.gtb_spec (nxt h a) n) as [Hgt|Hle].
  - destruct (set_pending_nonce_ok a n (set_head (Some h1) p) h1) as (h2 & E2 & Hc2 & Hn2); [done|apply Hc1|done|]. exists h2. rewrite E2. split; [done|]. split; [by eapply same_current_trans|].
    intros x. rewrite Hn2. case_decide; [lia|apply Hn1].
  - exists h1. split; [done|]. split; [done|]. intros x. rewrite Hn1. case_decide; [subst; lia|done].
Qed.
End heads.

(** ** The books of a pool *)

(** [prque] gives the highest priority first. *)
Class PrqueLaws (prq : Prque) : Prop :=
  prque_sorted l : ∃ l', l' ≡ₚ l ∧ prque_order l = l'.*1 ∧ StronglySorted (λ x y, y.2 ≤ x.2) l'.

Section books.
Context {senv : state.StateEnv} {slaws : StateEnvLaws} {secp : Secp256k1} {rng : GoRange} {laws : GoRangeLaws rng} {prq : Prque}.
Context (sg : BoeSigner) (cfg : TxPoolConfiguration) (U : Transaction → Prop).

Abbreviation from := (TxListProps.from sg).
Definition slot (tx : Transaction) : Address * Z := (from tx, Nonce tx).

(** The transactions that reach the pool: the sender is recovered, the nonce
    is a machine integer, and transactions with the same hash have the same
    sender and nonce. *)
Record universe : Prop := {
  U_sender tx : U tx → ∃ a, (Sender sg tx).2 = Val a;
  U_nonce tx : U tx → is_u64 (Nonce tx);
  U_same x y : U x → U y → tx_hash x = tx_hash y → slot x = slot y }.
Record config_ok : Prop := {
  ok_bump : 0 ≤ PriceBump cfg < 2 ^ 62;
  ok_slots : 1 ≤ AccountSlots cfg;
  ok_account : 0 ≤ AccountQueue cfg < 2 ^ 63;
  ok_global : 0 ≤ GlobalSlots cfg;
  ok_gqueue : 0 ≤ GlobalQueue cfg;
  ok_total : GlobalSlots cfg + GlobalQueue cfg < 2 ^ 24 }.
Context (HU : universe) (Hcfg : config_ok).

Definition by_hash (l : list Transaction) : gmap Z Transaction := list_to_map ((λ tx, (tx_hash tx, tx)) <$> l).
Definition books (m : gmap Z Transaction) (l : list Transaction) : Prop :=
  Forall U l ∧ NoDup (slot <$> l) ∧ NoDup (tx_hash <$> l) ∧ m = by_hash l.

Lemma by_hash_keys l : ((λ tx, (tx_hash tx, tx)) <$> l).*1 = tx_hash <$> l.
Proof. by rewrite <- list_fmap_compose. Qed.
Lemma books_perm m l l' : l ≡ₚ l' → books m l → books m l'.
Proof.
  intros Hp (H1 & H2 & H3 & ->). split_and!; [by rewrite <- Hp|by rewrite <- Hp|by rewrite <- Hp|]. apply list_to_map_proper; [by rewrite by_hash_keys|by rewrite Hp].
Qed.
#[local] Instance books_proper m : Proper ((≡ₚ) ==> iff) (books m).
Proof. intros l l' Hp. split; apply books_perm; [done|by symmetry]. Qed.
Lemma books_lookup m l h tx : books m l → m !! h = Some tx ↔ tx ∈ l ∧ tx_hash tx = h.
Proof.
  intros (_ & _ & Hd & ->). unfold by_hash. rewrite <- elem_of_list_to_map by (by rewrite by_hash_keys). rewrite list_elem_of_fmap. split; [intros (y & [= -> ->] & Hy); done|]. intros [Hin <-]. by exists tx.
Qed.
Lemma books_none m l h : books m l → m !! h = None ↔ h ∉ tx_hash <$> l.
Proof.
  intros (_ & _ & Hd & ->). unfold by_hash. rewrite <- by_hash_keys. split; [apply not_elem_of_list_to_map_2|apply not_elem_of_list_to_map_1].
Qed.
Lemma books_size m l : books m l → size m = length l.
Proof. intros (_ & _ & Hd & ->). unfold by_hash. rewrite <- length_map_to_list, map_to_list_to_map by (by rewrite by_hash_keys). apply length_fmap. Qed.
Lemma books_delete m tx l : books m (tx :: l) → books (delete (tx_hash tx) m) l.
Proof.
  intros (H1 & H2 & H3 & ->). apply Forall_cons_iff in H1 as [_ H1]. cbn in H2, H3. apply NoDup_cons in H2 as [_ H2]. apply NoDup_cons in H3 as [Hn H3]. split_and!; [done|done|done|].
  unfold by_hash. cbn. rewrite delete_insert_id; [done|]. apply not_elem_of_list_to_map_1. by rewrite by_hash_keys.
Qed.
Lemma books_insert m tx l : books m l → U tx → slot tx ∉ slot <$> l → tx_hash tx ∉ tx_hash <$> l → books (<[tx_hash tx := tx]> m) (tx :: l).
Proof. intros (H1 & H2 & H3 & ->) Hu Hs Hh. split_and!; [by constructor|cbn; by constructor|cbn; by constructor|done]. Qed.
(** A transaction with the hash of one in the books has its slot. *)
Lemma books_same m l tx : books m l → U tx → tx_hash tx ∈ tx_hash <$> l → ∃ x, x ∈ l ∧ slot x = slot tx.
Proof.
  intros (H1 & _) Hu (x & Hx & Hin)%list_elem_of_fmap. exists x. split; [done|]. apply (U_same HU); [|done|done]. rewrite Forall_forall in H1. by apply H1.
Qed.

(** ** Pools *)

Definition lists (b : bool) (p : TxPool) : gmap Z txList := if b then pending p else queue p.
Definition set_lists (b : bool) (m : gmap Z txList) (p : TxPool) : TxPool := if b then set_pending m p else set_queue m p.
Definition with_list {A} (b : bool) (addr : Address) (f : L A) : M TxPool pool_error A := if b then with_pending addr f else with_queue addr f.
Definition located (p : TxPool) : list Transaction := contents (pending p) ++ contents (queue p).

Definition list_ok (b : bool) (a : Address) (t : txList) : Prop :=
  lrepr b t (txs_of t) ∧ Forall (λ tx, from tx = a) (txs_of t).
Record pinv (extra : list Transaction) (p : TxPool) : Prop := {
  pi_signer : signer p = sg;
  pi_config : config p = cfg;
  pi_lists b a t : lists b p !! a = Some t → list_ok b a t;
  pi_books : books (all p) (located p ++ extra) }.

Lemma located_lists b p : located p ≡ₚ contents (lists b p) ++ contents (lists (negb b) p).
Proof. unfold located. destruct b; [done|]. apply Permutation_app_comm. Qed.
Lemma pinv_perm extra extra' p : extra ≡ₚ extra' → pinv extra p → pinv extra' p.
Proof. intros Hp []. split; [done|done|done|]. by rewrite <- Hp. Qed.
Lemma pinv_U extra p tx : pinv extra p → tx ∈ located p ++ extra → U tx.
Proof. intros [_ _ _ (H & _)] Hin. rewrite Forall_forall in H. by apply H. Qed.
Lemma from_of_ok tx p : signer p = sg → U tx → from_of tx p = (p, Val (from tx)).
Proof.
  intros Hs Hu. destruct (U_sender HU tx Hu) as [a E]. unfold from_of, sender, TxListProps.from, mbind, M_bind. rewrite Hs, E. done.
Qed.
Lemma with_list_ok {A} b a (f : L A) p t t' v : lists b p !! a = Some t → f t = (t', Val v) → with_list b a f p = (set_lists b (<[a := t']> (lists b p)) p, Val v).
Proof. intros Hl Hf. destruct b; cbn in *; unfold with_pending, with_queue; by rewrite Hl, Hf. Qed.
Lemma lists_set b m p : lists b (set_lists b m p) = m.
Proof. by destruct b. Qed.
Lemma lists_set_other b m p : lists (negb b) (set_lists b m p) = lists (negb b) p.
Proof. by destruct b. Qed.
Lemma lists_set_case b b' m p : lists b' (set_lists b m p) = if eqb b b' then m else lists b' p.
Proof. by destruct b, b'. Qed.

(** Replacing a list of the pool. *)
Lemma pinv_set extra extra' b m p : pinv extra p → (∀ a t, m !! a = Some t → lists b p !! a = Some t ∨ list_ok b a t) →
  contents m ++ extra' ≡ₚ contents (lists b p) ++ extra → pinv extra' (set_lists b m p).
Proof.
  intros [Hsg Hc Hl Hb] Hm Hp. split; [by destruct b|by destruct b| |].
  - intros b' a t. rewrite lists_set_case. destruct (eqb b b') eqn:Eb; [|apply Hl]. apply eqb_prop in Eb as <-. intros [H|H]%Hm; [by apply Hl|done].
  - replace (all (set_lists b m p)) with (all p) by (by destruct b). rewrite (located_lists b), lists_set, lists_set_other.
    rewrite (located_lists b) in Hb. eapply books_perm; [|exact Hb]. rewrite <- !app_assoc. rewrite (Permutation_app_comm (contents (lists (negb b) p)) extra), (Permutation_app_comm (contents (lists (negb b) p)) extra').
    rewrite !app_assoc. by rewrite Hp.
Qed.
(** A list gives [out] away. *)
Lemma pinv_take extra b a t t' l' out p : pinv extra p → lists b p !! a = Some t → lrepr b t' l' → txs_of t ≡ₚ l' ++ out →
  pinv (out ++ extra) (set_lists b (<[a := t']> (lists b p)) p) ∧ txs_of t' = l'.
Proof.
  intros Hi Ht Hr Hp. pose proof (lrepr_txs_of _ _ _ Hr) as El. split; [|done]. eapply pinv_set; [exact Hi| |].
  - intros a0 t0. destruct (decide (a0 = a)) as [->|Hne]; [|rewrite lookup_insert_ne by done; by left]. rewrite lookup_insert_eq. intros [= <-]. right.
    destruct (pi_lists _ _ Hi _ _ _ Ht) as [_ Hf]. split; [by rewrite El|]. rewrite El. rewrite Hp in Hf. by apply Forall_app in Hf as [? _].
  - rewrite (contents_take (lists b p) a t t' out) by (done || by rewrite El). by rewrite app_assoc.
Qed.
(** A list takes a transaction from [extra]. *)
Lemma pinv_put extra b a t t' l' tx p : pinv (tx :: extra) p → lists b p !! a = Some t → lrepr b t' l' → l' ≡ₚ tx :: txs_of t → from tx = a →
  pinv extra (set_lists b (<[a := t']> (lists b p)) p) ∧ txs_of t' = l'.
Proof.
  intros Hi Ht Hr Hp Hfrom. pose proof (lrepr_txs_of _ _ _ Hr) as El. split; [|done]. eapply pinv_set; [exact Hi| |].
  - intros a0 t0. destruct (decide (a0 = a)) as [->|Hne]; [|rewrite lookup_insert_ne by done; by left]. rewrite lookup_insert_eq. intros [= <-]. right.
    destruct (pi_lists _ _ Hi _ _ _ Ht) as [_ Hf]. split; [by rewrite El|]. rewrite El, Hp. by constructor.
  - rewrite (contents_put (lists b p) a t t' tx) by (done || by rewrite El). cbn. by rewrite Permutation_middle.
Qed.
(** An empty list is created or deleted. *)
Lemma pinv_create extra b a p : pinv extra p → lists b p !! a = None → pinv extra (set_lists b (<[a := newTxList b]> (lists b p)) p).
Proof.
  intros Hi Ht. eapply pinv_set; [exact Hi| |].
  - intros a0 t0. destruct (decide (a0 = a)) as [->|Hne]; [|rewrite lookup_insert_ne by done; by left]. rewrite lookup_insert_eq. intros [= <-]. right.
    split; [apply lrepr_new|constructor].
  - by rewrite (contents_new _ _ _ Ht).
Qed.
Lemma pinv_remove extra b a t p : pinv extra p → lists b p !! a = Some t → txs_of t = [] → pinv extra (set_lists b (delete a (lists b p)) p).
Proof.
  intros Hi Ht He. eapply pinv_set; [exact Hi| |].
  - intros a0 t0 [_ H]%lookup_delete_Some. by left.
  - by rewrite (contents_empty _ _ _ Ht He).
Qed.
(** Deleting from the map of all transactions. *)
Lemma pinv_discard extra tx p : pinv (tx :: extra) p → pinv extra (set_all (delete (tx_hash tx) (all p)) p).
Proof.
  intros [Hsg Hc Hl Hb]. split; [done|done|exact Hl|]. cbn [all set_all]. change (located (set_all _ p)) with (located p). rewrite <- Permutation_middle in Hb. by apply books_delete.
Qed.
Lemma delete_all_sub l (m : gmap Z Transaction) : foldl (λ m tx, delete (tx_hash tx) m) m l ⊆ m.
Proof. revert m. induction l as [|x l IH]; intros m; cbn; [done|]. etrans; [apply IH|apply delete_subseteq]. Qed.
Lemma for_each_discard extra p : ∀ l, pinv (l ++ extra) p → for_each l discard p = (set_all (foldl (λ m tx, delete (tx_hash tx) m) (all p) l) p, Val tt) ∧
  pinv extra (set_all (foldl (λ m tx, delete (tx_hash tx) m) (all p) l) p).
Proof.
  intros l. revert p. induction l as [|tx l IH]; intros p Hi; cbn [for_each foldl]; [destruct p; done|].
  unfold discard at 1. rewrite (bind_val _ _ p (set_all (delete (tx_hash tx) (all p)) p) tt) by done. apply (pinv_discard _ tx) in Hi. apply IH in Hi as [E Hi]. split; [exact E|exact Hi].
Qed.

(** ** Moving transactions *)

Lemma slot_free extra p tx b t : pinv (tx :: extra) p → lists b p !! from tx = Some t → Nonce tx ∉ Nonce <$> txs_of t.
Proof.
  intros Hi Ht (x & Hx & Hin)%list_elem_of_fmap. destruct (pi_lists _ _ Hi _ _ _ Ht) as [_ Hf]. rewrite Forall_forall in Hf. specialize (Hf x Hin).
  destruct (pi_books _ _ Hi) as (_ & Hd & _). rewrite <- Permutation_middle in Hd. cbn in Hd. apply NoDup_cons in Hd as [Hd _]. apply Hd. apply list_elem_of_fmap. exists x. unfold slot. rewrite Hf, Hx. split; [done|].
  apply elem_of_app. left. rewrite (located_lists b). apply elem_of_app. left. apply contents_elem. by eexists _, _.
Qed.
Lemma set_all_same p : set_all (all p) p = p.
Proof. by destruct p. Qed.
Lemma pinv_lookup extra p tx : pinv (tx :: extra) p → all p !! tx_hash tx = Some tx.
Proof. intros Hi. apply (books_lookup _ _ _ _ (pi_books _ _ Hi)). split; [|done]. apply elem_of_app. right. by left. Qed.

(** The list of an account after a transaction is put in it. *)
Definition old_txs (b : bool) (p : TxPool) (a : Address) : list Transaction := default [] (txs_of <$> lists b p !! a).
Lemma put_moved extra b tx p : pinv (tx :: extra) p →
  let p1 := match lists b p !! from tx with None => set_lists b (<[from tx := newTxList b]> (lists b p)) p | Some _ => p end in
  ∃ t', with_list b (from tx) (list_Add tx (PriceBump cfg)) p1 = (set_lists b (<[from tx := t']> (lists b p)) p, Val (true, None)) ∧
    pinv extra (set_lists b (<[from tx := t']> (lists b p)) p) ∧ txs_of t' = insert_tx tx (old_txs b p (from tx)) ∧ txs_of t' ≡ₚ tx :: old_txs b p (from tx).
Proof.
  intros Hi p1. assert (U tx) as Hu by (eapply pinv_U; [exact Hi|]; apply elem_of_app; right; by left).
  assert (pinv (tx :: extra) p1 ∧ ∃ t, lists b p1 !! from tx = Some t ∧ txs_of t = old_txs b p (from tx) ∧ ∀ m, set_lists b m p1 = set_lists b m p) as (Hi1 & t & Ht & Eold & Hset).
  { unfold p1, old_txs. destruct (lists b p !! from tx) as [t|] eqn:Et; [by split; [|exists t]|]. split; [by apply pinv_create|]. exists (newTxList b). rewrite lists_set, lookup_insert_eq. by destruct b. }
  destruct (pi_lists _ _ Hi1 _ _ _ Ht) as [Hr _]. destruct (Add_takes b t _ tx (PriceBump cfg) Hr (U_nonce HU _ Hu) (ok_bump Hcfg)) as [(_ & t' & E & Hr' & Hp)|[(x & Hx & Hn & _)|(x & l' & _ & Hx & Hn & _)]].
  - exists t'. rewrite (with_list_ok _ _ _ _ _ _ _ Ht E), Hset. assert (<[from tx := t']> (lists b p1) = <[from tx := t']> (lists b p)) as Em by (unfold p1; destruct (lists b p !! from tx); [done|]; by rewrite lists_set, insert_insert_eq).
    rewrite Em. split; [done|]. destruct (pinv_put extra b (from tx) t t' _ tx p1 Hi1 Ht Hr' Hp eq_refl) as [Hi' El]. rewrite Hset, Em in Hi'. rewrite El, <- Eold. done.
  - exfalso. eapply slot_free; [exact Hi1|exact Ht|]. rewrite <- Hn. by apply list_elem_of_fmap_2.
  - exfalso. eapply slot_free; [exact Hi1|exact Ht|]. rewrite <- Hn. apply list_elem_of_fmap_2. rewrite Hx. by left.
Qed.
Lemma enqueue_moved extra tx p : pinv (tx :: extra) p →
  ∃ t', enqueueTx (tx_hash tx) tx p = (set_queue (<[from tx := t']> (queue p)) p, Val false) ∧ pinv extra (set_queue (<[from tx := t']> (queue p)) p) ∧
    txs_of t' = insert_tx tx (old_txs false p (from tx)) ∧ txs_of t' ≡ₚ tx :: old_txs false p (from tx).
Proof.
  intros Hi. destruct (put_moved extra false tx p Hi) as (t' & E & Hi' & Et & Hp). exists t'. split; [|done].
  unfold enqueueTx. rewrite (bind_val _ _ _ _ _ (from_of_ok tx p (pi_signer _ _ Hi) ltac:(eapply pinv_U; [exact Hi|]; apply elem_of_app; right; by left))).
  erewrite (bind_val (modify _)) by done. cbn beta. erewrite (bind_val (gets config)) by done. cbn [lists set_lists with_list] in E.
  assert (config match queue p !! from tx with None => set_queue (<[from tx := newTxList false]> (queue p)) p | Some _ => p end = cfg) as -> by (destruct (queue p !! from tx); apply Hi).
  rewrite (bind_val _ _ _ _ _ E). cbn [negb discard_opt]. erewrite (bind_val (mret tt)) by done. unfold known. erewrite (bind_val (modify _)) by done. cbn [all set_queue].
  rewrite insert_id by (by eapply pinv_lookup). unfold mret, M_ret. rewrite bool_decide_false by (by intros [? ?]). by destruct p.
Qed.
Lemma for_each_enqueue extra : ∀ l p, pinv (l ++ extra) p →
  ∃ m', for_each l (λ tx, ignore (enqueueTx (tx_hash tx) tx)) p = (set_queue m' p, Val tt) ∧ pinv extra (set_queue m' p) ∧
    (∀ a, a ∉ from <$> l → m' !! a = queue p !! a) ∧ (∀ a t, m' !! a = Some t → queue p !! a = Some t ∨ txs_of t ≠ []) ∧ contents m' ≡ₚ l ++ contents (queue p).
Proof.
  induction l as [|tx l IH]; intros p Hi; cbn [for_each]; [exists (queue p); destruct p; split_and!; [done|done|done|by left|done]|].
  destruct (enqueue_moved _ _ _ Hi) as (t' & E & Hi' & Et & Hp). erewrite (bind_val (ignore _)) by (unfold ignore; by rewrite E). destruct (IH _ Hi') as (m' & E' & Hi'' & Hoth & Hne & Hc). exists m'. split; [exact E'|]. split; [exact Hi''|]. split_and!.
  - intros a Ha. cbn in Ha. apply not_elem_of_cons in Ha as [Ha1 Ha2]. rewrite Hoth by done. cbn [queue set_queue]. by rewrite lookup_insert_ne.
  - intros a t Ht. destruct (Hne a t Ht) as [Hq|Hq]; [|by right]. cbn [queue set_queue] in Hq. apply lookup_insert_Some in Hq as [[<- <-]|[_ Hq]]; [right|by left]. intros E0. rewrite E0 in Hp. by apply Permutation_nil_l in Hp.
  - rewrite Hc. cbn [queue set_queue app]. rewrite contents_insert, Hp. cbn [app]. rewrite <- Permutation_middle. do 2 f_equiv. unfold old_txs. cbn [lists]. destruct (queue p !! from tx) as [t|] eqn:Eq; cbn.
    + by rewrite <- (contents_delete _ _ _ Eq).
    + by rewrite delete_id.
Qed.

Lemma pinv_same extra p p' : pinv extra p → signer p' = signer p → config p' = config p → pending p' = pending p → queue p' = queue p → all p' = all p → pinv extra p'.
Proof.
  intros [H1 H2 H3 H4] E1 E2 E3 E4 E5. split; [congruence|congruence| |unfold located in *; by rewrite E3, E4, E5]. intros b. specialize (H3 b). destruct b; cbn [lists] in *; [by rewrite E3|by rewrite E4].
Qed.
Lemma promote_moved extra now tx p h : pinv (tx :: extra) p → head p = Some h → head_ok h →
  ∃ p' h' t', promoteTx now (from tx) (tx_hash tx) tx p = (p', Val tt) ∧ pinv extra p' ∧ head p' = Some h' ∧ same_current h h' ∧
    (∀ x, nxt h' x = if decide (x = from tx) then u64 (Nonce tx + 1) else nxt h x) ∧ queue p' = queue p ∧ all p' = all p ∧ pending p' = <[from tx := t']> (pending p) ∧
    txs_of t' = insert_tx tx (old_txs true p (from tx)) ∧ txs_of t' ≡ₚ tx :: old_txs true p (from tx).
Proof.
  intros Hi Hh Hok. destruct (put_moved extra true tx p Hi) as (t' & E & Hi' & Et & Hp). cbn [lists set_lists with_list] in *.
  unfold promoteTx. erewrite (bind_val (modify _)) by done. cbn beta. erewrite (bind_val (gets config)) by done.
  assert (config match pending p !! from tx with None => set_pending (<[from tx := newTxList true]> (pending p)) p | Some _ => p end = cfg) as -> by (destruct (pending p !! from tx); apply Hi).
  rewrite (bind_val _ _ _ _ _ E). cbn [negb discard_opt]. erewrite (bind_val (mret tt)) by done. erewrite (bind_val (modify _)) by done. cbn [all set_pending]. rewrite (pinv_lookup _ _ _ Hi). erewrite (bind_val (modify _)) by done.
  set (p2 := set_beats _ _). destruct (set_pending_nonce_ok (from tx) (u64 (Nonce tx + 1)) p2 h) as (h' & E2 & Hc & Hn); [done|done|apply u64_range|]. rewrite (bind_val _ _ _ _ _ E2).
  eexists _, h', t'. split; [reflexivity|]. split; [by eapply pinv_same; [exact Hi'|..]|]. done.
Qed.
Lemma for_each_promote extra now a : ∀ l p h, pinv (l ++ extra) p → head p = Some h → head_ok h → Forall (λ tx, from tx = a) l →
  ∃ p' h', for_each l (λ tx, promoteTx now a (tx_hash tx) tx) p = (p', Val tt) ∧ pinv extra p' ∧ head p' = Some h' ∧ same_current h h' ∧
    (∀ x, nxt h' x = if decide (x = a) then default (nxt h a) ((λ tx, u64 (Nonce tx + 1)) <$> last l) else nxt h x) ∧ queue p' = queue p ∧ all p' = all p ∧
    (∀ x, x ≠ a → pending p' !! x = pending p !! x) ∧ (∀ t, pending p' !! a = Some t → pending p !! a = Some t ∨ txs_of t ≠ []) ∧
    old_txs true p' a = foldl (λ l tx, insert_tx tx l) (old_txs true p a) l ∧ old_txs true p' a ≡ₚ l ++ old_txs true p a.
Proof.
  induction l as [|tx l IH]; intros p h Hi Hh Hok Hf; cbn [for_each].
  - exists p, h. split_and!; try done; [intros x; case_decide; by subst|by left].
  - apply Forall_cons_iff in Hf as [<- Hf]. destruct (promote_moved _ now _ _ _ Hi Hh Hok) as (p1 & h1 & t1 & E1 & Hi1 & Hh1 & Hc1 & Hn1 & Hq1 & Ha1 & Hp1 & Et1 & Ep1). rewrite (bind_val _ _ _ _ _ E1).
    destruct (IH p1 h1 Hi1 Hh1 (sc_ok _ _ Hc1) Hf) as (p2 & h2 & E2 & Hi2 & Hh2 & Hc2 & Hn2 & Hq2 & Ha2 & Hp2 & Hne2 & Ht2 & Et2). exists p2, h2. split; [exact E2|].
    assert (old_txs true p1 (from tx) = txs_of t1) as Eo by (unfold old_txs; cbn [lists]; by rewrite Hp1, lookup_insert_eq).
    split_and!; [done|done|by eapply same_current_trans| |congruence|congruence| | | |].
    + intros x. rewrite Hn2, Hn1. case_decide as Hx; [|by rewrite Hn1, decide_False]. rewrite decide_True by done. destruct l; [done|]. rewrite last_cons_cons. by destruct (last_is_Some (t :: l)) as [_ [? ->]].
    + intros x Hx. rewrite Hp2, Hp1 by done. by rewrite lookup_insert_ne.
    + intros t Ht. destruct (Hne2 t Ht) as [Ht'|Ht']; [|by right]. right. rewrite Hp1, lookup_insert_eq in Ht'. injection Ht' as <-. intros E0. rewrite E0 in Ep1. by apply Permutation_nil_l in Ep1.
    + cbn [foldl]. by rewrite Ht2, Eo, Et1.
    + rewrite Et2, Eo, Ep1. cbn [app]. by rewrite Permutation_middle.
Qed.

(** ** Promotion of an account *)

Definition nonempty (m : gmap Z txList) : Prop := ∀ a t, m !! a = Some t → txs_of t ≠ [].
(** The transactions of an account that can be paid and are not too old, and
    those of them that become executable. *)
Definition payable (h : poolHead) (a : Address) (l : list Transaction) : list Transaction :=
  filter (λ x, affordable (bal h a) (currentMaxGas h) x = true) (filter (λ x, cur h a ≤ Nonce x) l).
Definition promoted (h : poolHead) (a : Address) (l : list Transaction) : list Transaction := ready_of (nxt h a) (payable h a l).

Lemma pinv_head extra p h : pinv extra p → pinv extra (set_head h p).
Proof. intros Hi. by eapply pinv_same; [exact Hi|..]. Qed.
(** A call on a list of the pool that gives [out] away. *)
Lemma with_list_take {A} extra b a (f : L A) p t t' l' v out : pinv extra p → lists b p !! a = Some t → f t = (t', Val v) → lrepr b t' l' → txs_of t ≡ₚ l' ++ out →
  with_list b a f p = (set_lists b (<[a := t']> (lists b p)) p, Val v) ∧ pinv (out ++ extra) (set_lists b (<[a := t']> (lists b p)) p) ∧ txs_of t' = l'.
Proof. intros Hi Ht Hf Hr Hp. split; [by apply (with_list_ok _ _ _ _ t)|]. by eapply pinv_take. Qed.
Lemma Empty_txs b t : lrepr b t (txs_of t) → Empty t = bool_decide (txs_of t = []).
Proof. intros Hr. unfold Empty. rewrite (lrepr_Len _ _ _ Hr). destruct (txs_of t); [done|]. unfold Zlen. cbn. done. Qed.
Lemma max_gas_ok p h : head p = Some h → max_gas p = (p, Val (currentMaxGas h)).
Proof. intros Hh. unfold max_gas, gets, or_panic, mbind, M_bind. by rewrite Hh. Qed.

(** Old and unpayable transactions leave the queue. *)
Lemma clean_queue_ok a p h t : pinv [] p → head p = Some h → head_ok h → queue p !! a = Some t →
  ∃ p' h' t', clean_queue a p = (p', Val tt) ∧ pinv [] p' ∧ head p' = Some h' ∧ same_head h h' ∧ pending p' = pending p ∧ queue p' = <[a := t']> (queue p) ∧ txs_of t' = payable h a (txs_of t) ∧ all p' ⊆ all p.
Proof.
  intros Hi Hh Hok Ht. unfold clean_queue. destruct (current_nonce a p h Hh Hok) as (h1 & E1 & Hs1). rewrite (bind_val _ _ _ _ _ E1). set (p1 := set_head (Some h1) p).
  destruct (pi_lists _ _ Hi false a t Ht) as [Hr _]. destruct (Forward_takes _ _ _ (cur h a) Hr) as (t1 & l1 & out & Ef & Hr1 & Hp1 & El1).
  destruct (with_list_take [] false a _ p1 t t1 l1 _ out (pinv_head _ _ _ Hi) Ht Ef Hr1 Hp1) as (E2 & Hi2 & Et1). cbn [with_list set_lists lists] in E2, Hi2. rewrite (bind_val _ _ _ _ _ E2).
  destruct (for_each_discard [] _ _ Hi2) as [E3 Hi3]. rewrite (bind_val _ _ _ _ _ E3). set (p3 := set_all _ _) in *.
  destruct (current_balance a p3 h1 eq_refl (sc_ok _ _ (proj1 Hs1))) as (h2 & E4 & Hs2). rewrite (bind_val _ _ _ _ _ E4). rewrite (sc_bal _ _ (proj1 Hs1)). set (p4 := set_head (Some h2) p3).
  rewrite (bind_val _ _ _ _ _ (max_gas_ok p4 h2 eq_refl)). rewrite (sc_gas _ _ (proj1 Hs2)), (sc_gas _ _ (proj1 Hs1)).
  destruct (Filter_takes _ _ _ (bal h a) (currentMaxGas h) Hr1) as (t2 & l2 & removed & invalids & Eg & Hr2 & Hp2 & Hinv & El2 & _). rewrite (Hinv eq_refl), app_nil_r in Hp2. rewrite <- Et1 in Hp2.
  assert (queue p4 !! a = Some t1) as Hq4 by (cbn; by rewrite lookup_insert_eq).
  destruct (with_list_take [] false a _ p4 t1 t2 l2 _ removed (pinv_head _ _ _ Hi3) Hq4 Eg Hr2 Hp2) as (E5 & Hi5 & Et2). cbn [with_list set_lists lists] in E5, Hi5. rewrite (bind_val _ _ _ _ _ E5). cbv beta iota.
  destruct (for_each_discard [] _ _ Hi5) as [E6 Hi6]. eexists _, h2, t2. split; [exact E6|]. split; [exact Hi6|]. split; [done|]. split; [by eapply same_head_trans|]. split; [done|]. split; [cbn; by rewrite insert_insert_eq|].
  split; [rewrite Et2, El2, El1; done|]. cbn [all set_all set_queue set_head p4 p3]. etrans; apply delete_all_sub.
Qed.
(** Ready transactions leave for the pending list, those over the limit are dropped. *)
Lemma promote_account_ok now a p h : pinv [] p → head p = Some h → head_ok h →
  let r := promoted h a (old_txs false p a) in
  ∃ p' h', promote_account now a p = (p', Val tt) ∧ pinv [] p' ∧ head p' = Some h' ∧ same_current h h' ∧
    (∀ x, nxt h' x = if decide (x = a) then default (nxt h a) ((λ tx, u64 (Nonce tx + 1)) <$> last r) else nxt h x) ∧
    (∀ b x, x ≠ a → lists b p' !! x = lists b p !! x) ∧
    (∀ t, pending p' !! a = Some t → pending p !! a = Some t ∨ txs_of t ≠ []) ∧ (∀ t, queue p' !! a = Some t → txs_of t ≠ []) ∧
    old_txs true p' a = foldl (λ l tx, insert_tx tx l) (old_txs true p a) r ∧
    old_txs false p' a = take (Z.to_nat (AccountQueue cfg)) (drop (length r) (payable h a (old_txs false p a))) ∧ all p' ⊆ all p.
Proof.
  intros Hi Hh Hok r. unfold promote_account. erewrite (bind_val (gets _)) by done. unfold r. assert (old_txs false p a = default [] (txs_of <$> queue p !! a)) as Eo by done.
  destruct (queue p !! a) as [t|] eqn:Et; cbn in Eo; rewrite Eo.
  2:{ exists p, h. split_and!; try done; [intros x; case_decide; by subst|by left|intros t; by rewrite Et|rewrite Eo; cbn; by rewrite take_nil]. }
  destruct (clean_queue_ok a p h t Hi Hh Hok Et) as (p1 & h1 & t1 & E1 & Hi1 & Hh1 & Hs1 & Hp1 & Hq1 & Et1 & Ha1). rewrite (bind_val _ _ _ _ _ E1).
  destruct (pending_nonce_ok a p1 h1 Hh1 (sc_ok _ _ (proj1 Hs1))) as (h2 & E2 & Hs2). rewrite (bind_val _ _ _ _ _ E2), (proj2 Hs1). set (p2 := set_head (Some h2) p1).
  assert (queue p2 !! a = Some t1) as Ht1 by (cbn; rewrite Hq1; by rewrite lookup_insert_eq). destruct (pi_lists _ _ Hi1 false a t1 Ht1) as [Hr1 Hf1].
  destruct (Ready_takes _ _ _ (nxt h a) Hr1) as (t3 & l3 & out & Er & Hr3 & Eout & Hl3). rewrite Et1 in Eout. fold (promoted h a (txs_of t)) in Eout.
  destruct (with_list_take [] false a _ p2 t1 t3 l3 _ out (pinv_head _ _ _ Hi1) Ht1 Er Hr3 ltac:(rewrite Hl3; apply Permutation_app_comm)) as (E3 & Hi3 & Et3). cbn [with_list set_lists lists] in E3, Hi3. rewrite (bind_val _ _ _ _ _ E3).
  rewrite Hl3 in Hf1. apply Forall_app in Hf1 as [Hf1 _]. set (p3 := set_queue _ _) in *.
  destruct (for_each_promote [] now a out p3 h2 Hi3 eq_refl (sc_ok _ _ (proj1 Hs2)) Hf1) as (p4 & h4 & E4 & Hi4 & Hh4 & Hc4 & Hn4 & Hq4 & Ha4 & Hp4 & Hne4 & Ho4 & _). rewrite (bind_val _ _ _ _ _ E4).
  erewrite (bind_val (gets config)) by done. rewrite (pi_config _ _ Hi4). rewrite i64_small by (pose proof (ok_account Hcfg); lia).
  assert (queue p4 !! a = Some t3) as Ht3 by (rewrite Hq4; cbn; by rewrite lookup_insert_eq). destruct (pi_lists _ _ Hi4 false a t3 Ht3) as [Hr3' _].
  destruct (Cap_takes _ _ _ (AccountQueue cfg) Hr3' (proj1 (ok_account Hcfg))) as (t5 & over & Ec & Hr5 & _ & Hp5).
  destruct (with_list_take [] false a _ p4 t3 t5 _ _ over Hi4 Ht3 Ec Hr5 Hp5) as (E5 & Hi5 & Et5). cbn [with_list set_lists lists] in E5, Hi5. rewrite (bind_val _ _ _ _ _ E5).
  destruct (for_each_discard [] _ _ Hi5) as [E6 Hi6]. rewrite (bind_val _ _ _ _ _ E6). set (p6 := set_all _ _) in *. assert (queue p6 !! a = Some t5) as Ht5 by (cbn; by rewrite lookup_insert_eq).
  assert (Empty t5 = bool_decide (txs_of t5 = [])) as Ee by (apply (Empty_txs false); rewrite Et5; done).
  assert (drop (length out) (payable h a (txs_of t)) = txs_of t3) as Ed by (rewrite <- Et1, Hl3, drop_app_length; done).
  unfold modify. rewrite Ht5, Ee, <- Eout, Ed. eexists _, h4. split; [reflexivity|].
  assert (∀ x, nxt h4 x = if decide (x = a) then default (nxt h a) ((λ tx, u64 (Nonce tx + 1)) <$> last out) else nxt h x) as Hn.
  { intros x. rewrite Hn4, !(proj2 Hs2), !(proj2 Hs1). done. }
  assert (same_current h h4) as Hsc by (eapply same_current_trans; [apply Hs1|]; by eapply same_current_trans; [apply Hs2|]).
  assert (pending p6 = pending p4) as Hpe by done. assert (old_txs true p3 a = old_txs true p a) as Hold by (unfold old_txs; cbn [lists p3 p2 set_queue set_head pending]; by rewrite Hp1).
  assert (all p6 ⊆ all p) as Hall by (cbn [p6 all set_all set_queue]; etrans; [apply delete_all_sub|]; rewrite Ha4; exact Ha1).
  case_bool_decide as He.
  - split; [by apply (pinv_remove [] false a t5 p6)|]. split; [done|]. split; [done|]. split; [done|]. split_and!.
    + intros b x Hx. destruct b; cbn [lists pending set_queue queue]; [rewrite Hpe, Hp4 by done; cbn; by rewrite Hp1|]. rewrite lookup_delete_ne by done. cbn. rewrite lookup_insert_ne, Hq4 by done. cbn. rewrite lookup_insert_ne, Hq1 by done. by rewrite lookup_insert_ne.
    + intros t0 Ht0. change (pending p4 !! a = Some t0) in Ht0. destruct (Hne4 t0 Ht0) as [H|H]; [|by right]. left. change (pending p1 !! a = Some t0) in H. by rewrite <- Hp1.
    + intros t0. cbn [queue set_queue]. by rewrite lookup_delete_eq.
    + change (old_txs true p4 a = foldl (λ l tx, insert_tx tx l) (old_txs true p a) out). by rewrite Ho4, Hold.
    + unfold old_txs at 1. cbn [lists queue set_queue]. rewrite lookup_delete_eq. cbn. by rewrite <- Et5.
    + exact Hall.
  - split; [exact Hi6|]. split; [done|]. split; [done|]. split; [done|]. split_and!.
    + intros b x Hx. destruct b; cbn [lists]; [rewrite Hpe, Hp4 by done; cbn; by rewrite Hp1|]. cbn. rewrite lookup_insert_ne, Hq4 by done. cbn. rewrite lookup_insert_ne, Hq1 by done. by rewrite lookup_insert_ne.
    + intros t0 Ht0. change (pending p4 !! a = Some t0) in Ht0. destruct (Hne4 t0 Ht0) as [H|H]; [|by right]. left. change (pending p1 !! a = Some t0) in H. by rewrite <- Hp1.
    + intros t0. rewrite Ht5. by intros [= <-].
    + change (old_txs true p4 a = foldl (λ l tx, insert_tx tx l) (old_txs true p a) out). by rewrite Ho4, Hold.
    + unfold old_txs at 1. cbn [lists]. rewrite Ht5. cbn. by rewrite <- Et5.
    + exact Hall.
Qed.

(** ** Removal of queued transactions *)

(** Transactions with the same slot are the same. *)
Lemma slot_inj extra p x y : pinv extra p → x ∈ located p ++ extra → y ∈ located p ++ extra → slot x = slot y → x = y.
Proof.
  intros Hi Hx Hy E. destruct (pi_books _ _ Hi) as (_ & Hd & _). apply list_elem_of_lookup in Hx as [i Hx]. apply list_elem_of_lookup in Hy as [j Hy].
  assert (i = j) as ->; [|congruence]. eapply NoDup_lookup; [exact Hd|rewrite list_lookup_fmap, Hx; done|]. rewrite list_lookup_fmap, Hy. cbn. by rewrite E.
Qed.
Lemma in_located b p a t tx : lists b p !! a = Some t → tx ∈ txs_of t → tx ∈ located p.
Proof. intros Ht Htx. rewrite (located_lists b). apply elem_of_app. left. apply contents_elem. by eexists _, _. Qed.
(** An account does not have a nonce in both lists. *)
Lemma other_list extra b p a t t' tx : pinv extra p → lists b p !! a = Some t → tx ∈ txs_of t → lists (negb b) p !! a = Some t' → Nonce tx ∉ Nonce <$> txs_of t'.
Proof.
  intros Hi Ht Htx Ht' (x & Hx & Hin)%list_elem_of_fmap. destruct (pi_lists _ _ Hi _ _ _ Ht) as [_ Hf]. destruct (pi_lists _ _ Hi _ _ _ Ht') as [_ Hf']. rewrite Forall_forall in Hf. rewrite Forall_forall in Hf'.
  destruct (pi_books _ _ Hi) as (_ & Hd & _). rewrite (located_lists b), <- app_assoc, fmap_app in Hd. apply NoDup_app in Hd as (_ & Hd & _). apply (Hd (slot tx)).
  - apply list_elem_of_fmap_2, contents_elem. by eexists _, _.
  - rewrite fmap_app. apply elem_of_app. left. apply list_elem_of_fmap. exists x. split; [unfold slot; by rewrite (Hf tx Htx), (Hf' x Hin), Hx|]. apply contents_elem. by eexists _, _.
Qed.
Lemma set_pending_same p : set_pending (pending p) p = p.
Proof. by destruct p. Qed.
Lemma removeTx_queued p a t tx : pinv [] p → queue p !! a = Some t → tx ∈ txs_of t →
  ∃ m', removeTx (tx_hash tx) p = (set_queue m' (set_all (delete (tx_hash tx) (all p)) p), Val tt) ∧ pinv [] (set_queue m' (set_all (delete (tx_hash tx) (all p)) p)) ∧
    (∀ x, x ≠ a → m' !! x = queue p !! x) ∧ (∀ t', m' !! a = Some t' → txs_of t' ≠ []) ∧ default [] (txs_of <$> m' !! a) = filter (λ x, Nonce x ≠ Nonce tx) (txs_of t).
Proof.
  intros Hi Ht Htx. assert (tx ∈ located p ++ []) as Hin by (apply elem_of_app; left; by eapply (in_located false)). assert (U tx) as Hu by (by eapply pinv_U).
  destruct (pi_lists _ _ Hi false a t Ht) as [Hr Hf]. assert (from tx = a) as Ea by (rewrite Forall_forall in Hf; by apply Hf).
  unfold removeTx. erewrite (bind_val (gets _)) by done. rewrite (proj2 (books_lookup _ _ _ tx (pi_books _ _ Hi))) by done. rewrite (bind_val _ _ _ _ _ (from_of_ok tx p (pi_signer _ _ Hi) Hu)), Ea.
  erewrite (bind_val (modify _)) by done. set (p1 := set_all _ p). erewrite (bind_val (gets _)) by done.
  assert (match pending p1 !! a with Some _ => with_pending a (list_Remove tx) | None => mret (false, []) end p1 = (p1, Val (false, []))) as E1.
  { change (pending p1) with (pending p). destruct (pending p !! a) as [tp|] eqn:Ep; [|done]. unfold with_pending. change (pending p1) with (pending p). rewrite Ep.
    destruct (pi_lists _ _ Hi true a tp Ep) as [Hrp _]. rewrite (Remove_absent true tp _ tx Hrp); [|by eapply (other_list [] false p a t)]. cbn [lift]. rewrite insert_id by done. done. }
  rewrite (bind_val _ _ _ _ _ E1). cbv beta iota. erewrite (bind_val (gets _)) by done. change (queue p1) with (queue p). rewrite Ht.
  destruct (Remove_takes false t _ tx Hr) as [(Hno & _)|(t' & l' & x & invalids & Er & Hr' & Hp & Hx & Hinv & El')]; [exfalso; apply Hno; by apply list_elem_of_fmap_2|]. rewrite (Hinv eq_refl) in *.
  assert (x ∈ txs_of t) as Hxt by (rewrite Hp; apply elem_of_app; right; by left).
  assert (x = tx) as ->. { eapply (slot_inj [] p); [done|apply elem_of_app; left; by eapply (in_located false)|done|]. rewrite Forall_forall in Hf. unfold slot. by rewrite (Hf x Hxt), Ea, Hx. }
  assert (l' = filter (λ x, Nonce x ≠ Nonce tx) (txs_of t)) as El. { rewrite El'. cbn [spec]. rewrite bool_decide_true by (by apply list_elem_of_fmap_2). done. }
  rewrite (bind_val _ _ _ _ _ (with_list_ok false a _ p1 t t' _ Ht Er)). cbn [lists set_lists]. change (queue p1) with (queue p).
  destruct (pinv_take [] false a t t' l' [tx] p Hi Ht Hr' Hp) as [Hi2 Et]. cbn [set_lists lists app] in Hi2. apply pinv_discard in Hi2. rewrite <- El. unfold modify. cbn [queue set_queue]. rewrite lookup_insert_eq.
  rewrite (Empty_txs false) by (by rewrite Et). case_bool_decide as He.
  - eexists. split; [reflexivity|]. split; [apply (pinv_remove [] false a t' _ Hi2); [apply lookup_insert_eq|done]|]. split_and!.
    + intros y Hy. rewrite lookup_delete_ne by done. by rewrite lookup_insert_ne.
    + intros t0. by rewrite lookup_delete_eq.
    + rewrite lookup_delete_eq. cbn. congruence.
  - eexists. split; [reflexivity|]. split; [exact Hi2|]. split_and!.
    + intros y Hy. by rewrite lookup_insert_ne.
    + intros t0. rewrite lookup_insert_eq. by intros [= <-].
    + by rewrite lookup_insert_eq.
Qed.

(** [p'] is [p] without the transactions [l] of the queue. *)
Record unqueued (l : list Transaction) (p p' : TxPool) : Prop := {
  uq_state : ∃ m' al', p' = set_queue m' (set_all al' p);
  uq_inv : pinv [] p';
  uq_all : all p' ⊆ all p;
  uq_contents : contents (queue p) ≡ₚ l ++ contents (queue p');
  uq_others a : a ∉ from <$> l → txs_of <$> queue p' !! a = txs_of <$> queue p !! a;
  uq_nonempty a t : queue p' !! a = Some t → queue p !! a = Some t ∨ txs_of t ≠ [] }.
Lemma unqueued_refl p : pinv [] p → unqueued [] p p.
Proof. intros Hi. split; [exists (queue p), (all p); by destruct p|done|done|done|done|by left]. Qed.
Lemma unqueued_trans l1 l2 p1 p2 p3 : unqueued l1 p1 p2 → unqueued l2 p2 p3 → unqueued (l1 ++ l2) p1 p3.
Proof.
  intros [(m1 & a1 & ->) _ H6 H3 H4 H5] [(m2 & a2 & ->) K2 K6 K3 K4 K5]. split; [by exists m2, a2|done|by etrans|rewrite H3, K3; by rewrite app_assoc| |].
  - intros a. rewrite fmap_app, not_elem_of_app. intros [Ha1 Ha2]. rewrite K4 by done. by apply H4.
  - intros a t Ht. destruct (K5 a t Ht) as [Ht'|Ht']; [by apply H5|by right].
Qed.
Lemma in_queue p tx : tx ∈ contents (queue p) → pinv [] p → ∃ t, queue p !! from tx = Some t ∧ tx ∈ txs_of t.
Proof.
  intros (a & t & Ht & Htx)%contents_elem Hi. destruct (pi_lists _ _ Hi false a t Ht) as [_ Hf]. rewrite Forall_forall in Hf. exists t. by rewrite (Hf tx Htx).
Qed.
Lemma sorted_other l x y : sorted l → x ∈ l → y ∈ l → Nonce x = Nonce y → x = y.
Proof. intros Hs Hx Hy E. pose proof (proj2 (of_list_lookup l (Nonce x) x Hs) (conj Hx eq_refl)) as E1. pose proof (proj2 (of_list_lookup l (Nonce x) y Hs) (conj Hy (eq_sym E))) as E2. congruence. Qed.
Lemma remove_one p tx : pinv [] p → tx ∈ contents (queue p) → ∃ p', removeTx (tx_hash tx) p = (p', Val tt) ∧ unqueued [tx] p p'.
Proof.
  intros Hi Hin. destruct (in_queue p tx Hin Hi) as (t & Ht & Htx). destruct (removeTx_queued p _ t tx Hi Ht Htx) as (m' & E & Hi' & Hoth & Hne & El). eexists. split; [exact E|].
  split; [by eexists _, _|done|apply delete_subseteq| | |].
  - cbn [queue set_queue set_all]. pose proof (lrepr_sorted _ _ _ (proj1 (pi_lists _ _ Hi false _ t Ht))) as Hs.
    destruct (find_nonce_in _ (Nonce tx) Hs) as (x & l' & Hp & Hx & Hl'); [by apply list_elem_of_fmap_2|]. assert (x = tx) as -> by (eapply (sorted_other (txs_of t)); [done|rewrite Hp; by left|done|done]).
    rewrite (contents_delete _ _ _ Ht), Hp, Hl', <- El. cbn [app]. f_equiv. assert (delete (from tx) (queue p) = delete (from tx) m') as ->.
    { apply map_eq. intros k. destruct (decide (k = from tx)) as [->|Hk]; [by rewrite !lookup_delete_eq|]. rewrite !lookup_delete_ne by done. by rewrite Hoth. }
    destruct (m' !! from tx) as [t'|] eqn:Em; cbn [default fmap option_fmap option_map from_option]; [by rewrite <- (contents_delete _ _ _ Em)|]. by rewrite delete_id.
  - intros a Ha. cbn [queue set_queue set_all]. f_equal. apply Hoth. intros ->. apply Ha. by left.
  - intros a t'. cbn [queue set_queue set_all]. destruct (decide (a = from tx)) as [->|Ha]; [intros Hm; right; by eapply Hne|]. rewrite Hoth by done. by left.
Qed.
Lemma remove_many : ∀ l p, pinv [] p → NoDup l → l ⊆ contents (queue p) → ∃ p', for_each l (λ tx, removeTx (tx_hash tx)) p = (p', Val tt) ∧ unqueued l p p'.
Proof.
  induction l as [|tx l IH]; intros p Hi Hd Hsub; cbn [for_each]; [exists p; split; [done|by apply unqueued_refl]|]. apply NoDup_cons in Hd as [Hn Hd].
  destruct (remove_one p tx Hi (Hsub tx ltac:(by left))) as (p1 & E1 & H1). rewrite (bind_val _ _ _ _ _ E1). destruct (IH p1 (uq_inv _ _ _ H1) Hd) as (p2 & E2 & H2).
  - intros x Hx. assert (x ∈ contents (queue p)) as Hxq by (apply Hsub; by right). rewrite (uq_contents _ _ _ H1) in Hxq. apply elem_of_cons in Hxq as [->|?]; done.
  - exists p2. split; [exact E2|]. by apply (unqueued_trans [tx] l p p1 p2).
Qed.
Lemma drop_tail_ok : ∀ l p d, pinv [] p → NoDup l → l ⊆ contents (queue p) → 0 ≤ d ≤ Zlen l → d < 2 ^ 64 →
  ∃ p', drop_tail l d p = (p', Val 0) ∧ unqueued (take (Z.to_nat d) l) p p'.
Proof.
  induction l as [|tx l IH]; intros p d Hi Hd Hsub Hr Hu; cbn [drop_tail].
  - unfold Zlen in Hr. cbn in Hr. assert (d = 0) as -> by lia. exists p. split; [done|by apply unqueued_refl].
  - apply NoDup_cons in Hd as [Hn Hd]. destruct (Z.gtb_spec d 0) as [Hpos|Hz]; [|assert (d = 0) as -> by lia; exists p; split; [done|by apply unqueued_refl]].
    destruct (remove_one p tx Hi (Hsub tx ltac:(by left))) as (p1 & E1 & H1). rewrite (bind_val _ _ _ _ _ E1). rewrite u64_small by (unfold is_u64; lia). destruct (IH p1 (d - 1) (uq_inv _ _ _ H1) Hd) as (p2 & E2 & H2).
    + intros x Hx. assert (x ∈ contents (queue p)) as Hxq by (apply Hsub; by right). rewrite (uq_contents _ _ _ H1) in Hxq. apply elem_of_cons in Hxq as [->|?]; done.
    + unfold Zlen in *. cbn in Hr. lia.
    + lia.
    + exists p2. split; [exact E2|]. replace (Z.to_nat d) with (Datatypes.S (Z.to_nat (d - 1))) by lia. cbn [take]. by apply (unqueued_trans [tx] _ p p1 p2).
Qed.

(** [Flatten] fills the cache of a list. *)
Lemma flatten_queue p a t : pinv [] p → queue p !! a = Some t → txs_of t ≠ [] → ∃ p', with_queue a list_Flatten p = (p', Val (txs_of t)) ∧ unqueued [] p p'.
Proof.
  intros Hi Ht Hne. destruct (pi_lists _ _ Hi false a t Ht) as [Hr _]. destruct (Flatten_takes _ _ _ Hr) as (t' & E & Hr').
  destruct (with_list_take [] false a _ p t t' _ _ [] Hi Ht E Hr' ltac:(by rewrite app_nil_r)) as (Ew & Hi' & Et). cbn [with_list set_lists lists app] in *. eexists. split; [exact Ew|].
  split; [exists (<[a := t']> (queue p)), (all p); by destruct p|done|done| | |].
  - cbn [queue set_queue app]. rewrite (contents_take (queue p) a t t' []); [by rewrite app_nil_r|done|by rewrite Et, app_nil_r].
  - intros x _. cbn [queue set_queue]. destruct (decide (x = a)) as [->|Hx]; [rewrite lookup_insert_eq, Ht; cbn; by rewrite Et|by rewrite lookup_insert_ne].
  - intros x t0. cbn [queue set_queue]. destruct (decide (x = a)) as [->|Hx]; [rewrite lookup_insert_eq; intros [= <-]; right; by rewrite Et|rewrite lookup_insert_ne by done; by left].
Qed.
Lemma unqueued_nonempty l p p' : nonempty (queue p) → unqueued l p p' → nonempty (queue p').
Proof. intros Hne H a t Ht. destruct (uq_nonempty _ _ _ H a t Ht) as [Hq|Hq]; [by apply (Hne a)|done]. Qed.
Definition queued_len (p : TxPool) (l : list Address) : Z := foldr (λ a n, Zlen (old_txs false p a) + n) 0 l.
Lemma queued_len_nonneg p l : 0 ≤ queued_len p l.
Proof. unfold queued_len. induction l as [|x l IHl]; cbn; [lia|]. pose proof (Zlen_nonneg (old_txs false p x)). lia. Qed.
Lemma old_txs_nodup b p a : pinv [] p → NoDup (old_txs b p a).
Proof.
  intros Hi. unfold old_txs. destruct (lists b p !! a) as [t|] eqn:Et; [|constructor]. cbn. destruct (pi_lists _ _ Hi b a t Et) as [Hr _]. eapply NoDup_fmap_1, sorted_nodup, lrepr_sorted, Hr.
Qed.
Lemma drop_queued_ok : ∀ l p d, pinv [] p → nonempty (queue p) → NoDup l → (∀ a, a ∈ l → is_Some (queue p !! a)) → 0 ≤ d < 2 ^ 64 → Zlen (contents (queue p)) < 2 ^ 63 →
  ∃ p' out, drop_queued l d p = (p', Val tt) ∧ unqueued out p p' ∧ Zlen out = Z.min d (queued_len p l).
Proof.
  induction l as [|a l IH]; intros p d Hi Hne Hd Hl Hr Hlen; cbn [drop_queued queued_len foldr].
  { exists p, []. split; [done|]. split; [by apply unqueued_refl|]. unfold Zlen. cbn. lia. }
  fold (queued_len p l). apply NoDup_cons in Hd as [Ha Hd]. pose proof (queued_len_nonneg p l) as Hq0.
  destruct (Z.gtb_spec d 0) as [Hpos|Hz]; [|exists p, []; split; [done|]; split; [by apply unqueued_refl|]; unfold Zlen; cbn; lia].
  destruct (Hl a ltac:(by left)) as [t Ht]. erewrite (bind_val (gets _)) by done. rewrite Ht. erewrite (bind_val (or_panic _)) by done. destruct (pi_lists _ _ Hi false a t Ht) as [Hrep Hf]. rewrite (lrepr_Len _ _ _ Hrep).
  assert (old_txs false p a = txs_of t) as Eo by (unfold old_txs; cbn [lists]; by rewrite Ht). rewrite Eo.
  assert (Zlen (txs_of t) ≤ Zlen (contents (queue p))) as Hle by (pose proof (Permutation_length (contents_delete _ _ _ Ht)) as Hpl; rewrite length_app in Hpl; unfold Zlen; lia).
  rewrite u64_small by (unfold is_u64, Zlen in *; lia). destruct (flatten_queue p a t Hi Ht (Hne a t Ht)) as (p1 & E1 & H1). rewrite (bind_val _ _ _ _ _ E1).
  pose proof (uq_inv _ _ _ H1) as Hi1. assert (NoDup (txs_of t)) as Hnd by (rewrite <- Eo; by apply old_txs_nodup).
  assert (txs_of t ⊆ contents (queue p1)) as Hsub by (intros x Hx; rewrite <- (app_nil_l (contents (queue p1))), <- (uq_contents _ _ _ H1); apply contents_elem; by eexists _, _).
  assert (∀ out p2, unqueued out p1 p2 → out ⊆ txs_of t → (∀ x, x ∈ l → is_Some (queue p2 !! x)) ∧ queued_len p2 l = queued_len p l) as Hrest.
  { intros out p2 H2 Hout. assert (∀ x, x ≠ a → txs_of <$> queue p2 !! x = txs_of <$> queue p !! x) as Hx.
    { intros x Hx. rewrite (uq_others _ _ _ H2), (uq_others _ _ _ H1); [done|set_solver|]. intros (y & -> & Hy)%list_elem_of_fmap. apply Hx. rewrite Forall_forall in Hf. by apply Hf, Hout. }
    split; [intros x Hx'; assert (x ≠ a) as Hxa by congruence; specialize (Hx x Hxa); destruct (Hl x ltac:(by right)) as [tx Etx]; rewrite Etx in Hx; destruct (queue p2 !! x); [by eexists|done]|].
    clear -Hx Ha. unfold queued_len. induction l as [|y l IHl]; [done|]. cbn [foldr]. apply not_elem_of_cons in Ha as [Hy Ha]. rewrite IHl by done. unfold old_txs. cbn [lists]. by rewrite (Hx y). }
  assert (∀ out p2, unqueued out p1 p2 → Zlen (contents (queue p2)) < 2 ^ 63) as Hlen2.
  { intros out p2 H2. pose proof (uq_contents _ _ _ (unqueued_trans _ _ _ _ _ H1 H2)) as Hc. apply Permutation_length in Hc. rewrite length_app in Hc. unfold Zlen in *. lia. }
  destruct (Z.leb_spec (Zlen (txs_of t)) d) as [Hsz|Hsz].
  - destruct (remove_many (txs_of t) p1 Hi1 Hnd Hsub) as (p2 & E2 & H2). rewrite (bind_val _ _ _ _ _ E2). destruct (Hrest _ _ H2 ltac:(done)) as [Hl2 Hql].
    rewrite u64_small by (unfold is_u64, Zlen in *; lia). destruct (IH p2 (d - Zlen (txs_of t)) (uq_inv _ _ _ H2)) as (p3 & out & E3 & H3 & Hout);
      [eapply unqueued_nonempty, H2; eapply unqueued_nonempty, H1; done|done|done|unfold Zlen in *; lia|by eapply Hlen2|].
    exists p3, ([] ++ txs_of t ++ out). split; [exact E3|]. split; [eapply unqueued_trans; [exact H1|]; by eapply unqueued_trans|]. cbn [app]. unfold Zlen at 1. rewrite length_app, Nat2Z.inj_add. change (Zlen (txs_of t) + Zlen out = Z.min d (Zlen (txs_of t) + queued_len p l)). rewrite Hout, Hql. lia.
  - destruct (drop_tail_ok (reverse (txs_of t)) p1 d Hi1) as (p2 & E2 & H2); [by rewrite reverse_Permutation|intros x Hx; apply Hsub; by rewrite <- elem_of_reverse|unfold Zlen in *; rewrite length_reverse; lia|lia|]. rewrite (bind_val _ _ _ _ _ E2).
    assert (take (Z.to_nat d) (reverse (txs_of t)) ⊆ txs_of t) as Hts by (intros x Hx; rewrite <- elem_of_reverse; by eapply (subseteq_take (Z.to_nat d))). destruct (Hrest _ _ H2 Hts) as [Hl2 Hql].
    exists p2, ([] ++ take (Z.to_nat d) (reverse (txs_of t))). split; [by destruct l|]. split; [by eapply unqueued_trans|]. cbn [app]. unfold Zlen. rewrite length_take, length_reverse. unfold Zlen in *. lia.
Qed.

(** ** Counting *)

Lemma count_loop b (kvs : list (Z * txList)) : (∀ a t, (a, t) ∈ kvs → lrepr b t (txs_of t)) → ∀ n, 0 ≤ n → n + Zlen (kvs ≫= λ kv, txs_of kv.2) < 2 ^ 64 →
  foldl (λ n kv, u64 (n + u64 (list_Len kv.2))) n kvs = n + Zlen (kvs ≫= λ kv, txs_of kv.2).
Proof.
  induction kvs as [|[a t] kvs IH]; intros Hl n Hn Hb; cbn [foldl mbind list_bind snd] in *; [unfold Zlen; cbn; lia|].
  assert (Zlen (txs_of t ++ (kvs ≫= λ kv, txs_of kv.2)) = Zlen (txs_of t) + Zlen (kvs ≫= λ kv, txs_of kv.2)) as Ez by (unfold Zlen; rewrite length_app; lia). rewrite Ez in *.
  pose proof (Zlen_nonneg (txs_of t)). pose proof (Zlen_nonneg (kvs ≫= λ kv, txs_of kv.2)). rewrite (lrepr_Len b t (txs_of t)) by (apply (Hl a); by left).
  rewrite (u64_small (Zlen _)) by (unfold is_u64; lia). rewrite u64_small by (unfold is_u64; lia). rewrite IH; [lia| |lia|lia]. intros a' t' H'. apply (Hl a'). by right.
Qed.
Lemma count_txs_ok extra b p : pinv extra p → Zlen (contents (lists b p)) < 2 ^ 64 → count_txs (lists b p) = Zlen (contents (lists b p)).
Proof.
  intros Hi Hb. assert (Zlen (go_range (lists b p) ≫= λ kv, txs_of kv.2) = Zlen (contents (lists b p))) as E by (unfold Zlen, contents; by rewrite go_range_perm).
  unfold count_txs. rewrite (count_loop b); [by rewrite E| |lia|lia]. intros a t Hin. rewrite go_range_perm in Hin. apply elem_of_map_to_list in Hin. by apply (pi_lists _ _ Hi b a).
Qed.
Lemma count_len_ok extra b p : pinv extra p → count_len (lists b p) = Zlen (contents (lists b p)).
Proof.
  intros Hi. assert (Zlen (go_range (lists b p) ≫= λ kv, txs_of kv.2) = Zlen (contents (lists b p))) as E by (unfold Zlen, contents; by rewrite go_range_perm). rewrite <- E. unfold count_len.
  assert (∀ a t, (a, t) ∈ go_range (lists b p) → lrepr b t (txs_of t)) as Hl by (intros a t Hin; rewrite go_range_perm in Hin; apply elem_of_map_to_list in Hin; by apply (pi_lists _ _ Hi b a)).
  clear E. assert (∀ kvs n, (∀ a t, (a, t) ∈ kvs → lrepr b t (txs_of t)) → foldl (λ n kv, n + list_Len kv.2) n kvs = n + Zlen (kvs ≫= λ kv : Z * txList, txs_of kv.2)) as Hgen; [|by rewrite Hgen].
  clear. induction kvs as [|[a t] kvs IH]; intros n Hl; cbn [foldl mbind list_bind snd]; [unfold Zlen; cbn; lia|]. rewrite IH by (intros a' t' ?; apply (Hl a'); by right). rewrite (lrepr_Len b t (txs_of t)) by (apply (Hl a); by left). unfold Zlen. rewrite length_app. lia.
Qed.
Lemma queued_len_keys p l : l ≡ₚ (map_to_list (queue p)).*1 → queued_len p l = Zlen (contents (queue p)).
Proof.
  intros Hl. assert (∀ l, queued_len p l = Zlen (l ≫= old_txs false p)) as Hq.
  { clear. intros l. unfold queued_len. induction l as [|a l IH]; [done|]. cbn [foldr mbind list_bind]. rewrite IH. unfold Zlen. rewrite length_app. lia. }
  rewrite Hq. unfold Zlen. rewrite Hl. unfold contents. f_equal. f_equal.
  assert (∀ kvs, kvs ⊆ map_to_list (queue p) → kvs.*1 ≫= old_txs false p = kvs ≫= λ kv, txs_of kv.2) as Hk; [|by apply Hk].
  clear. induction kvs as [|[a t] kvs IH]; intros Hsub; [done|]. cbn [fmap list_fmap mbind list_bind fst snd]. f_equal; [|apply IH; set_solver].
  assert ((a, t) ∈ map_to_list (queue p)) as Hin by (apply Hsub; by left). apply elem_of_map_to_list in Hin. unfold old_txs. cbn [lists]. by rewrite Hin.
Qed.
Lemma by_heartbeat_perm p l : by_heartbeat p l ≡ₚ l.
Proof. unfold by_heartbeat. rewrite merge_sort_Permutation. rewrite <- list_fmap_compose. apply reflexive_eq. clear. induction l as [|a l IH]; [done|]. cbn. by f_equal. Qed.
Lemma go_keys {A} (m : gmap Z A) : (go_range m).*1 ≡ₚ (map_to_list m).*1.
Proof. by rewrite go_range_perm. Qed.
Lemma go_keys_nodup {A} (m : gmap Z A) : NoDup (go_range m).*1.
Proof. rewrite go_keys. apply NoDup_fst_map_to_list. Qed.
Lemma go_keys_in {A} (m : gmap Z A) a : a ∈ (go_range m).*1 ↔ is_Some (m !! a).
Proof.
  rewrite go_keys, list_elem_of_fmap. split.
  - intros ([k t] & -> & Hin%elem_of_map_to_list). by eexists.
  - intros [t Ht]. exists (a, t). split; [done|]. by apply elem_of_map_to_list.
Qed.
Lemma keepFit_queue_ok p : pinv [] p → nonempty (queue p) → Zlen (contents (queue p)) < 2 ^ 63 →
  ∃ p' out, keepFit_queue p = (p', Val tt) ∧ unqueued out p p' ∧ Zlen (contents (queue p')) ≤ GlobalQueue cfg.
Proof.
  intros Hi Hne Hlen. unfold keepFit_queue. erewrite (bind_val (gets config)) by done. rewrite (pi_config _ _ Hi). erewrite (bind_val (gets _)) by done. unfold compose.
  change (count_txs (queue p)) with (count_txs (lists false p)). rewrite (count_txs_ok [] false p Hi) by (cbn [lists]; lia). cbn [lists]. pose proof (ok_gqueue Hcfg). pose proof (ok_total Hcfg). pose proof (ok_global Hcfg). destruct (Z.gtb_spec (Zlen (contents (queue p))) (GlobalQueue cfg)) as [Hgt|Hle].
  - erewrite (bind_val (gets _)) by done. rewrite u64_small by (unfold is_u64; lia). set (addrs := reverse _).
    assert (addrs ≡ₚ (map_to_list (queue p)).*1) as Hp by (unfold addrs; by rewrite reverse_Permutation, by_heartbeat_perm, go_keys).
    destruct (drop_queued_ok addrs p (Zlen (contents (queue p)) - GlobalQueue cfg) Hi Hne) as (p' & out & E & Hu & Ho); [rewrite Hp; apply NoDup_fst_map_to_list| |lia|done|].
    { intros a Ha. apply go_keys_in. by rewrite go_keys, <- Hp. }
    exists p', out. split; [exact E|]. split; [done|]. rewrite (queued_len_keys p addrs Hp) in Ho. pose proof (Permutation_length (uq_contents _ _ _ Hu)) as Hc. rewrite length_app in Hc. unfold Zlen in *. lia.
  - exists p, []. split; [done|]. split; [by apply unqueued_refl|done].
Qed.

(** ** Trimming the pending lists *)

(** The pending transactions of an account continue its nonce without a gap,
    and the pool knows the next one. *)
Definition contig (h : poolHead) (p : TxPool) (a : Address) : Prop :=
  (∀ i tx, old_txs true p a !! i = Some tx → Nonce tx = cur h a + Z.of_nat i) ∧ nxt h a = cur h a + Zlen (old_txs true p a).
Definition plen (p : TxPool) (a : Address) : Z := Zlen (old_txs true p a).
(** [p'] is [p] with shorter pending lists. *)
Record trimmed (p p' : TxPool) : Prop := {
  tm_inv : pinv [] p';
  tm_queue : queue p' = queue p;
  tm_all : all p' ⊆ all p;
  tm_dom a : is_Some (pending p !! a) → is_Some (pending p' !! a);
  tm_dom' a : is_Some (pending p' !! a) → is_Some (pending p !! a);
  tm_prefix a : ∃ out, old_txs true p a = old_txs true p' a ++ out;
  tm_head h : head p = Some h → head_ok h → ∃ h', head p' = Some h' ∧ same_current h h' ∧ ∀ a, contig h p a → contig h' p' a }.
Lemma trimmed_refl p : pinv [] p → trimmed p p.
Proof. intros Hi. split; [done|done|done|done|done|intros a; exists []; by rewrite app_nil_r|]. intros h Hh Hok. exists h. split; [done|]. split; [by apply same_current_refl|done]. Qed.
Lemma trimmed_trans p1 p2 p3 : trimmed p1 p2 → trimmed p2 p3 → trimmed p1 p3.
Proof.
  intros [_ H2 H6 H3 H3' H4 H5] [K1 K2 K6 K3 K3' K4 K5]. split; [done|congruence|by etrans|by intros a ?%H3%K3|by intros a ?%K3'%H3'| |].
  - intros a. destruct (H4 a) as [o1 ->]. destruct (K4 a) as [o2 ->]. exists (o2 ++ o1). by rewrite app_assoc.
  - intros h Hh Hok. destruct (H5 h Hh Hok) as (h1 & E1 & S1 & C1). destruct (K5 h1 E1 (sc_ok _ _ S1)) as (h2 & E2 & S2 & C2). exists h2. split; [done|]. split; [by eapply same_current_trans|]. auto.
Qed.
Lemma old_txs_some b p a t : lists b p !! a = Some t → old_txs b p a = txs_of t.
Proof. intros H. unfold old_txs. by rewrite H. Qed.
Lemma drop_last_ok p a h : pinv [] p → head p = Some h → head_ok h → is_Some (pending p !! a) → 1 ≤ plen p a →
  ∃ p', drop_last a p = (p', Val tt) ∧ trimmed p p' ∧ plen p' a = plen p a - 1 ∧ (∀ x, x ≠ a → old_txs true p' x = old_txs true p x) ∧ Zlen (contents (pending p')) = Zlen (contents (pending p)) - 1.
Proof.
  intros Hi Hh Hok [t Ht] Hlen. unfold plen in *. pose proof (old_txs_some true p a t Ht) as Eo. rewrite Eo in *. destruct (pi_lists _ _ Hi true a t Ht) as [Hr Hf].
  destruct (last (txs_of t)) as [tx|] eqn:El; [|apply last_None in El; rewrite El in Hlen; by unfold Zlen in Hlen]. apply last_Some in El as [l0 El0].
  assert (lrepr true t (l0 ++ [tx])) as Hr0 by (by rewrite <- El0). destruct (Cap_last _ _ _ _ Hr0) as (t' & Ec & Hr').
  destruct (with_list_take [] true a _ p t t' l0 _ [tx] Hi Ht Ec Hr' ltac:(by rewrite El0)) as (E & Hi1 & Et). cbn [with_list lists set_lists app] in *.
  unfold drop_last. erewrite (bind_val (gets _)) by done. rewrite Ht. erewrite (bind_val (or_panic _)) by done. rewrite (bind_val _ _ _ _ _ E). cbn [for_each].
  assert (U tx) as Hu by (eapply pinv_U; [exact Hi1|]; apply elem_of_app; right; by left).
  set (p2 := set_all (delete (tx_hash tx) (all p)) (set_pending (<[a := t']> (pending p)) p)). apply pinv_discard in Hi1. change (pinv [] p2) in Hi1.
  destruct (lower_nonce_ok a (Nonce tx) p2 h Hh Hok (U_nonce HU _ Hu)) as (h' & En & Hsc & Hn).
  erewrite (bind_val (discard tx ≫= _)); [|unfold discard; rewrite (bind_val (modify _) _ _ p2 tt) by done; exact En]. set (p3 := set_head (Some h') p2) in *.
  assert (∀ x, old_txs true p3 x = if decide (x = a) then l0 else old_txs true p x) as Hold.
  { intros x. unfold old_txs. cbn [lists p3 p2 set_head set_all set_pending pending]. case_decide as Hx; [subst; by rewrite lookup_insert_eq; cbn|by rewrite lookup_insert_ne]. }
  exists p3. split; [done|]. split_and!.
  - split; [by apply pinv_head|done|apply delete_subseteq| | | |].
    + intros x [tx' Hx]. cbn. destruct (decide (x = a)) as [->|Hxa]; [by rewrite lookup_insert_eq|]. rewrite lookup_insert_ne by done. by eexists.
    + intros x. cbn. destruct (decide (x = a)) as [->|Hxa]; [rewrite Ht; by eexists|]. by rewrite lookup_insert_ne.
    + intros x. rewrite Hold. case_decide; [subst; exists [tx]; by rewrite Eo|exists []; by rewrite app_nil_r].
    + intros h0 Hh0 _. assert (h0 = h) as -> by congruence. exists h'. split; [done|]. split; [done|]. intros x [C1 C2]. unfold contig. rewrite Hold, Hn, (sc_cur _ _ Hsc). case_decide as Hx; [subst x|done]. rewrite Eo, El0 in *. split.
      * intros i y Hy. apply C1. by apply lookup_app_l_Some.
      * assert (Nonce tx = cur h a + Z.of_nat (length l0)) as Etx by (apply C1; by rewrite lookup_app_r, Nat.sub_diag). rewrite C2, Etx. unfold Zlen. rewrite length_app. cbn. lia.
  - rewrite Hold, decide_True by done. rewrite El0. unfold Zlen. rewrite length_app. cbn. lia.
  - intros x Hx. by rewrite Hold, decide_False.
  - pose proof (Permutation_length (contents_take (pending p) a t t' [tx] Ht ltac:(by rewrite Et, El0))) as Hc. rewrite length_app in Hc. unfold Zlen. cbn in *. lia.
Qed.

Definition ptotal (p : TxPool) : Z := Zlen (contents (pending p)).
Definition live (p : TxPool) : Prop := pinv [] p ∧ ∃ h, head p = Some h ∧ head_ok h.
Lemma trimmed_live p p' : live p → trimmed p p' → live p'.
Proof. intros [_ (h & Hh & Hok)] Ht. split; [apply Ht|]. destruct (tm_head _ _ Ht h Hh Hok) as (h' & E & Hs & _). exists h'. split; [done|apply Hs]. Qed.
Lemma plen_total p a : pinv [] p → plen p a ≤ ptotal p.
Proof.
  intros Hi. unfold plen, ptotal, old_txs. cbn [lists]. destruct (pending p !! a) as [t|] eqn:Et; cbn; [|apply Zlen_nonneg].
  pose proof (Permutation_length (contents_delete _ _ _ Et)) as H. rewrite length_app in H. unfold Zlen. lia.
Qed.
Lemma pending_len_ok p a : pinv [] p → is_Some (pending p !! a) → pending_len a p = (p, Val (plen p a)).
Proof.
  intros Hi [t Ht]. unfold pending_len, gets, or_panic, mbind, M_bind. rewrite Ht. unfold mret, M_ret. destruct (pi_lists _ _ Hi true a t Ht) as [Hr _]. rewrite (lrepr_Len _ _ _ Hr). unfold plen. by rewrite (old_txs_some true p a t Ht).
Qed.
(** One round: every offender loses a transaction. *)
Lemma drop_round_ok : ∀ offs p, live p → NoDup offs → (∀ a, a ∈ offs → is_Some (pending p !! a) ∧ 1 ≤ plen p a) → ptotal p < 2 ^ 63 →
  ∃ p', drop_round offs (ptotal p) p = (p', Val (ptotal p')) ∧ trimmed p p' ∧ (∀ x, plen p' x = if decide (x ∈ offs) then plen p x - 1 else plen p x) ∧ ptotal p' = ptotal p - Zlen offs.
Proof.
  induction offs as [|a offs IH]; intros p Hl Hd Ha Htot; cbn [drop_round].
  { exists p. split; [done|]. split; [apply trimmed_refl, Hl|]. split; [done|]. unfold Zlen. cbn. lia. }
  apply NoDup_cons in Hd as [Hna Hd]. destruct (Ha a ltac:(by left)) as [Hsome Hlen]. pose proof Hl as [Hi (h & Hh & Hok)].
  destruct (drop_last_ok p a h Hi Hh Hok Hsome Hlen) as (p1 & E1 & Ht1 & Hp1 & Hoth1 & Hc1). rewrite (bind_val _ _ _ _ _ E1). fold (ptotal p) (ptotal p1) in Hc1. pose proof (plen_total p a Hi).
  rewrite u64_small by (unfold is_u64; lia). rewrite <- Hc1. assert (∀ x, x ≠ a → plen p1 x = plen p x) as Hx1 by (intros x Hx; unfold plen; by rewrite Hoth1).
  destruct (IH p1 (trimmed_live _ _ Hl Ht1) Hd) as (p2 & E2 & Ht2 & Hp2 & Hc2).
  - intros x Hx. assert (x ≠ a) by congruence. destruct (Ha x ltac:(by right)) as [Hs Hl']. split; [by apply (tm_dom _ _ Ht1)|by rewrite Hx1].
  - lia.
  - exists p2. split; [exact E2|]. split; [by eapply trimmed_trans|]. split; [|unfold Zlen in *; cbn; lia]. intros x. rewrite Hp2. destruct (decide (x = a)) as [->|Hx].
    + rewrite decide_False by done. rewrite decide_True by (by left). lia.
    + rewrite Hx1 by done. destruct (decide (x ∈ offs)); [rewrite decide_True by (by right)|rewrite decide_False by (by intros [?|?]%elem_of_cons)]; done.
Qed.
(** Rounds until the limit or the threshold is reached. *)
Lemma drop_rounds_ok offs target thr : NoDup offs → target ∈ offs → 1 ≤ thr → ∀ fuel p c, live p → (∀ a, a ∈ offs → is_Some (pending p !! a) ∧ plen p a = c) → thr ≤ c → c < Z.of_nat fuel → ptotal p < 2 ^ 63 →
  ∃ p' c', drop_rounds fuel offs target thr (ptotal p) p = (p', Val (ptotal p')) ∧ trimmed p p' ∧ (∀ x, plen p' x = if decide (x ∈ offs) then c' else plen p x) ∧ thr ≤ c' ≤ c ∧ (ptotal p' ≤ GlobalSlots cfg ∨ c' = thr) ∧ ptotal p' ≤ ptotal p.
Proof.
  intros Hd Hin Hthr. induction fuel as [|fuel IH]; intros p c Hl Ha Hc Hf Htot; [lia|]. cbn [drop_rounds]. pose proof Hl as [Hi _].
  erewrite (bind_val (gets _)) by done. rewrite (pi_config _ _ Hi).
  assert (∀ x, plen p x = if decide (x ∈ offs) then c else plen p x) as Hsame by (intros x; case_decide; [by apply Ha|done]).
  destruct (Z.gtb_spec (ptotal p) (GlobalSlots cfg)) as [Hgt|Hle]; [|exists p, c; split; [done|]; split; [by apply trimmed_refl|]; split; [done|]; split; [lia|]; split; [by left|lia]].
  destruct (Ha target Hin) as [Hsome Hplen]. rewrite (bind_val _ _ _ _ _ (pending_len_ok p target Hi Hsome)), Hplen.
  destruct (Z.gtb_spec c thr) as [Hct|Hct]; [|exists p, c; split; [done|]; split; [by apply trimmed_refl|]; split; [done|]; split; [lia|]; split; [right; lia|lia]].
  destruct (drop_round_ok offs p Hl Hd) as (p1 & E1 & Ht1 & Hp1 & Hc1); [intros a H; destruct (Ha a H) as [? ->]; split; [done|lia]|done|]. rewrite (bind_val _ _ _ _ _ E1). pose proof (Zlen_nonneg offs).
  destruct (IH p1 (c - 1) (trimmed_live _ _ Hl Ht1)) as (p2 & c2 & E2 & Ht2 & Hp2 & Hr2 & Hlim & Hle2); [|lia|lia|lia|].
  - intros a H'. destruct (Ha a H') as [Hs Hpl]. split; [by apply (tm_dom _ _ Ht1)|]. rewrite Hp1, decide_True by done. lia.
  - exists p2, c2. split; [exact E2|]. split; [by eapply trimmed_trans|]. split; [|split; [lia|split; [done|lia]]]. intros x. rewrite Hp2. case_decide as Hx; [done|]. by rewrite Hp1, decide_False.
Qed.

Lemma sorted_ext {A} (f g : A → Z) l : (∀ x, x ∈ l → f x = g x) → StronglySorted (λ x y, f y ≤ f x) l → StronglySorted (λ x y, g y ≤ g x) l.
Proof.
  intros Hfg. induction 1 as [|x l Hs IH Hf]; [constructor|]. constructor; [apply IH; intros y Hy; apply Hfg; by right|]. apply Forall_forall. intros y Hy. rewrite Forall_forall in Hf. specialize (Hf y Hy). rewrite (Hfg x), (Hfg y) in Hf; [done|by right|by left].
Qed.
(** The offenders are brought down to the next spammer, one after the other. *)
Lemma equalize_ok : ∀ sp offs p c, live p → NoDup (offs ++ sp) → (∀ a, a ∈ offs → is_Some (pending p !! a) ∧ plen p a = c ∧ AccountSlots cfg < c) →
  (∀ a, a ∈ sp → is_Some (pending p !! a) ∧ AccountSlots cfg < plen p a ∧ (offs ≠ [] → plen p a ≤ c)) → StronglySorted (λ x y, plen p y ≤ plen p x) sp → ptotal p < 2 ^ 63 →
  ∃ p' offs' c', equalize sp offs (ptotal p) p = (p', Val (offs', ptotal p')) ∧ trimmed p p' ∧ (∀ x, x ∉ offs ++ sp → plen p' x = plen p x) ∧ (∀ x, 1 ≤ plen p x → 1 ≤ plen p' x) ∧ ptotal p' ≤ ptotal p ∧
    (ptotal p' ≤ GlobalSlots cfg ∨ (offs' = offs ++ sp ∧ ∀ a, a ∈ offs' → is_Some (pending p' !! a) ∧ plen p' a = c' ∧ AccountSlots cfg < c')).
Proof.
  pose proof (ok_slots Hcfg) as Hslots. induction sp as [|o sp IH]; intros offs p c Hl Hd Hoffs Hsp Hsorted Htot; cbn [equalize]; pose proof Hl as [Hi _].
  { exists p, offs, c. rewrite app_nil_r in *. split; [done|]. split; [by apply trimmed_refl|]. split; [done|]. split; [done|]. split; [lia|]. right. split; [done|exact Hoffs]. }
  erewrite (bind_val (gets _)) by done. rewrite (pi_config _ _ Hi).
  destruct (Z.gtb_spec (ptotal p) (GlobalSlots cfg)) as [Hgt|Hle]; [|exists p, offs, c; split; [done|]; split; [by apply trimmed_refl|]; split; [done|]; split; [done|]; split; [lia|by left]].
  apply StronglySorted_inv in Hsorted as [Hsorted Hfirst]. rewrite Forall_forall in Hfirst. destruct (Hsp o ltac:(by left)) as (Hosome & Holen & Hoc).
  destruct (last offs) as [prev|] eqn:El.
  - apply last_Some in El as Hpre. destruct Hpre as [l0 Hl0]. assert (prev ∈ offs) as Hprev by (rewrite Hl0; apply elem_of_app; right; by left). assert (offs ≠ []) as Hne by (intros E; rewrite E in Hprev; by apply elem_of_nil in Hprev).
    rewrite (bind_val _ _ _ _ _ (pending_len_ok p o Hi Hosome)). destruct (Hoffs prev Hprev) as (Hpsome & Hplen & Hcslots). rewrite (bind_val _ _ _ _ _ (pending_len_ok p prev Hi Hpsome)), Hplen.
    pose proof (NoDup_app offs (o :: sp)) as Hnd. apply Hnd in Hd as Hd'. destruct Hd' as (Hd1 & Hd2 & Hd3). specialize (Hoc Hne).
    destruct (drop_rounds_ok offs prev (plen p o) Hd1 Hprev ltac:(lia) (Datatypes.S (Z.to_nat c)) p c Hl) as (p1 & c1 & E1 & Ht1 & Hp1 & Hr1 & Hlim & Hle1); [intros a Ha; by destruct (Hoffs a Ha) as (? & ? & _)|lia|lia|done|].
    rewrite (bind_val _ _ _ _ _ E1). assert (∀ x, x ∈ o :: sp → plen p1 x = plen p x) as Hsame by (intros x Hx; rewrite Hp1, decide_False; [done|]; intros Hxo; by apply (Hd2 x)).
    assert (∀ x, 1 ≤ plen p x → 1 ≤ plen p1 x) as Hpos1 by (intros x Hx; rewrite Hp1; case_decide; lia). pose proof (trimmed_live _ _ Hl Ht1) as Hl1.
    destruct Hlim as [Hlim|Hlim].
    + (* the limit is reached: the loop ends *)
      exists p1, (offs ++ [o]), c1. split.
      { destruct sp as [|o' sp]; [done|]. cbn [equalize]. erewrite (bind_val (gets _)) by done. rewrite (pi_config _ _ (proj1 Hl1)). rewrite Z.gtb_ltb, (proj2 (Z.ltb_ge _ _)) by lia. done. }
      split; [done|]. split; [|split; [done|split; [done|by left]]]. intros x Hx. rewrite Hp1, decide_False; [done|]. intros Hxo. apply Hx, elem_of_app. by left.
    + subst c1. destruct (IH (offs ++ [o]) p1 (plen p o) Hl1) as (p2 & offs2 & c2 & E2 & Ht2 & Hoth2 & Hpos2 & Hle2 & Hres); [by rewrite <- app_assoc| | | |lia|].
      * intros a [Ha|Ha%list_elem_of_singleton]%elem_of_app; [destruct (Hoffs a Ha) as (? & _ & _); split; [by apply (tm_dom _ _ Ht1)|]; rewrite Hp1, decide_True by done; split; [done|lia]|].
        subst a. split; [by apply (tm_dom _ _ Ht1)|]. rewrite Hsame by (by left). split; [done|lia].
      * intros a Ha. destruct (Hsp a ltac:(by right)) as (Has & Hal & _). split; [by apply (tm_dom _ _ Ht1)|]. rewrite Hsame by (by right). split; [done|]. intros _. by apply Hfirst.
      * eapply sorted_ext; [|exact Hsorted]. intros x Hx. symmetry. apply Hsame. by right.
      * rewrite <- app_assoc in Hoth2, Hres. exists p2, offs2, c2. split; [exact E2|]. split; [by eapply trimmed_trans|]. split_and!; [|by auto|lia|done].
        intros x Hx. rewrite Hoth2 by done. rewrite Hp1, decide_False; [done|]. intros Hxo. apply Hx, elem_of_app. by left.
  - apply last_None in El as ->. cbn [app] in *. destruct (IH [o] p (plen p o) Hl Hd) as (p2 & offs2 & c2 & E2 & H2); [intros a ->%list_elem_of_singleton; done| |done|done|].
    + intros a Ha. destruct (Hsp a ltac:(by right)) as (? & ? & _). split_and!; [done|done|]. intros _. by apply Hfirst.
    + exists p2, offs2, c2. split; [exact E2|]. exact H2.
Qed.

Section fit.
Context {plaws : PrqueLaws prq}.

Definition spammers (p : TxPool) : list Address :=
  prque_order (omap (λ kv, if u64 (list_Len kv.2) >? AccountSlots cfg then Some (kv.1, float32 (list_Len kv.2)) else None) (go_range (pending p))).
Lemma spammers_ok p : pinv [] p → ptotal p < 2 ^ 24 → NoDup (spammers p) ∧ StronglySorted (λ x y, plen p y ≤ plen p x) (spammers p) ∧
  ∀ a, a ∈ spammers p ↔ is_Some (pending p !! a) ∧ AccountSlots cfg < plen p a.
Proof.
  intros Hi Htot. unfold spammers. set (f := λ kv : Z * txList, _). destruct (prque_sorted (omap f (go_range (pending p)))) as (l & Hl & -> & Hs).
  assert (∀ a t, pending p !! a = Some t → list_Len t = plen p a ∧ 0 ≤ plen p a < 2 ^ 24) as Hlen.
  { intros a t Ht. destruct (pi_lists _ _ Hi true a t Ht) as [Hr _]. rewrite (lrepr_Len _ _ _ Hr). unfold plen. rewrite (old_txs_some true p a t Ht). pose proof (plen_total p a Hi) as Hp. unfold plen in Hp. rewrite (old_txs_some true p a t Ht) in Hp. pose proof (Zlen_nonneg (txs_of t)). split; [done|lia]. }
  assert (∀ x, x ∈ l ↔ is_Some (pending p !! x.1) ∧ x.2 = plen p x.1 ∧ AccountSlots cfg < plen p x.1) as Hin.
  { intros [a n]. rewrite Hl, list_elem_of_omap. cbn [fst snd]. setoid_rewrite go_range_perm. split.
    - intros ([k t] & Hk%elem_of_map_to_list & Ef). unfold f in Ef. cbn in Ef. destruct (Hlen k t Hk) as [El Hb]. rewrite El in Ef. rewrite u64_small in Ef by (unfold is_u64; lia).
      destruct (Z.gtb_spec (plen p k) (AccountSlots cfg)) as [Hgt|]; [|done]. injection Ef as <- <-. split; [by eexists|]. split; [|done]. unfold float32, round_float. by rewrite (proj2 (Z.ltb_lt _ _)) by lia.
    - intros ([t Ht] & -> & Hgt). exists (a, t). split; [by apply elem_of_map_to_list|]. unfold f. cbn. destruct (Hlen a t Ht) as [-> Hb]. rewrite u64_small by (unfold is_u64; lia). rewrite Z.gtb_ltb, (proj2 (Z.ltb_lt _ _)) by lia.
      unfold float32, round_float. by rewrite (proj2 (Z.ltb_lt _ _)) by lia. }
  split_and!.
  - assert (NoDup (omap f (go_range (pending p))).*1) as Hd; [|by rewrite Hl].
    assert (∀ kvs : list (Z * txList), NoDup kvs.*1 → NoDup (omap f kvs).*1 ∧ ∀ k, k ∈ (omap f kvs).*1 → k ∈ kvs.*1) as Hgen; [|by apply Hgen, go_keys_nodup].
    clear. induction kvs as [|[k t] kvs IH]; intros Hd; [split; [constructor|done]|]. cbn in Hd. apply NoDup_cons in Hd as [Hk Hd]. destruct (IH Hd) as [IH1 IH2]. cbn [omap list_omap]. destruct (f (k, t)) as [[k' n]|] eqn:Ef; cbn [fmap list_fmap fst].
    + assert (k' = k) as -> by (unfold f in Ef; cbn in Ef; destruct (_ >? _); congruence). split; [constructor; [by intros ?%IH2|done]|]. intros x [->|?]%elem_of_cons; [by left|right; by apply IH2].
    + split; [done|]. intros x Hx. right. by apply IH2.
  - clear Hl. induction Hs as [|x l Hs IH Hf]; [constructor|]. cbn. constructor.
    + (* the tail keeps its description *)
      clear IH. assert (∀ y, y ∈ x :: l → y.2 = plen p y.1) as Hy by (intros y Hy; by apply Hin in Hy as (_ & ? & _)). clear Hin Hf. revert Hy. induction Hs as [|z l Hs IH Hf]; intros Hy; [constructor|]. cbn. constructor; [apply IH; intros y [->|?]%elem_of_cons; apply Hy; [by left|by right; right]|].
      apply Forall_fmap, Forall_forall. intros y Hyl. rewrite Forall_forall in Hf. cbn. rewrite <- !Hy by (right; (by left || by right)). by apply Hf.
    + apply Forall_fmap, Forall_forall. intros y Hyl. rewrite Forall_forall in Hf. specialize (Hf y Hyl). cbn. destruct (proj1 (Hin x) ltac:(by left)) as (_ & Ex & _). destruct (proj1 (Hin y) ltac:(by right)) as (_ & Ey & _). lia.
  - intros a. rewrite list_elem_of_fmap. split; [intros ([k n] & -> & (? & _ & ?)%Hin); done|]. intros [Hs1 Hgt]. exists (a, plen p a). split; [done|]. by apply Hin.
Qed.
Lemma nonempty_plen p : pinv [] p → nonempty (pending p) ↔ ∀ a, is_Some (pending p !! a) → 1 ≤ plen p a.
Proof.
  intros Hi. split.
  - intros Hne a [t Ht]. specialize (Hne a t Ht). unfold plen. rewrite (old_txs_some true p a t Ht). unfold Zlen. destruct (txs_of t); cbn; [done|lia].
  - intros Hp a t Ht E. specialize (Hp a ltac:(by eexists)). unfold plen in Hp. rewrite (old_txs_some true p a t Ht), E in Hp. by unfold Zlen in Hp.
Qed.
Lemma plen_none p a : ¬ is_Some (pending p !! a) → plen p a = 0.
Proof. intros H. unfold plen, old_txs. cbn [lists]. destruct (pending p !! a); [exfalso; apply H; by eexists|done]. Qed.
Lemma keepFit_pending_ok p : live p → ptotal p < 2 ^ 24 → nonempty (pending p) →
  ∃ p', keepFit_pending p = (p', Val tt) ∧ trimmed p p' ∧ nonempty (pending p') ∧ (ptotal p' ≤ GlobalSlots cfg ∨ ∀ a, plen p' a ≤ AccountSlots cfg) ∧ (∀ a, plen p a ≤ AccountSlots cfg → plen p' a = plen p a) ∧ ptotal p' ≤ ptotal p.
Proof.
  intros Hl Htot Hne. pose proof Hl as [Hi _]. unfold keepFit_pending. erewrite (bind_val (gets config)) by done. rewrite (pi_config _ _ Hi). erewrite (bind_val (gets _)) by done. unfold compose.
  change (count_txs (pending p)) with (count_txs (lists true p)). unfold ptotal in Htot. rewrite (count_txs_ok [] true p Hi) by (cbn [lists]; lia). cbn [lists]. fold (ptotal p) in *.
  destruct (Z.gtb_spec (ptotal p) (GlobalSlots cfg)) as [Hgt|Hle]; [|exists p; split_and!; [done|by apply trimmed_refl|done|by left|done|lia]].
  erewrite (bind_val (gets _)) by done. fold (spammers p). destruct (spammers_ok p Hi Htot) as (Hd & Hs & Hsp).
  destruct (equalize_ok (spammers p) [] p 0 Hl Hd) as (p1 & offs & c & E1 & Ht1 & Hoth & Hpos & Hle1 & Hres); [by intros a ?%elem_of_nil|intros a Ha; apply Hsp in Ha as [? ?]; done|done|lia|].
  rewrite (bind_val _ _ _ _ _ E1). cbv beta iota. cbn [app] in *. pose proof (trimmed_live _ _ Hl Ht1) as Hl1. pose proof (ok_slots Hcfg) as Hslots.
  assert (nonempty (pending p1)) as Hne1. { apply nonempty_plen; [apply Hl1|]. intros a Ha. apply Hpos. rewrite nonempty_plen in Hne by done. apply Hne. by apply (tm_dom' _ _ Ht1). }
  assert (∀ a, plen p a ≤ AccountSlots cfg → plen p1 a = plen p a) as Hsmall by (intros a Ha; apply Hoth; intros [_ ?]%Hsp; lia).
  destruct Hres as [Hlim|[-> Hall]].
  - exists p1. split; [|split_and!; [done|done|by left|done|done]]. destruct (last offs); [|done]. by rewrite Z.gtb_ltb, (proj2 (Z.ltb_ge _ _)).
  - destruct (last (spammers p)) as [target|] eqn:El.
    + assert (target ∈ spammers p) as Htin by (apply last_Some in El as [? ->]; apply elem_of_app; right; by left).
      destruct (Z.gtb_spec (ptotal p1) (GlobalSlots cfg)) as [Hgt1|Hle1']; [|exists p1; split_and!; [done|done|done|by left|done|done]].
      destruct (Hall target Htin) as (Hts & Htc & Hc). rewrite (bind_val _ _ _ _ _ (pending_len_ok p1 target (proj1 Hl1) Hts)), Htc.
      destruct (drop_rounds_ok (spammers p) target (AccountSlots cfg) Hd Htin ltac:(lia) (Datatypes.S (Z.to_nat c)) p1 c Hl1) as (p2 & c2 & E2 & Ht2 & Hp2 & Hr2 & Hlim & Hle2); [intros a Ha; by destruct (Hall a Ha) as (? & ? & _)|lia|lia|lia|].
      rewrite (bind_val _ _ _ _ _ E2). exists p2. split; [done|]. split; [by eapply trimmed_trans|].
      assert (∀ a, plen p a ≤ AccountSlots cfg → plen p2 a = plen p a) as Hsmall2 by (intros a Ha; rewrite Hp2, decide_False; [by apply Hsmall|]; intros [_ ?]%Hsp; lia).
      split_and!; [| |done|lia].
      * apply nonempty_plen; [apply Ht2|]. intros a Ha. rewrite Hp2. case_decide; [lia|]. rewrite nonempty_plen in Hne1 by apply Hl1. apply Hne1. by apply (tm_dom' _ _ Ht2).
      * destruct Hlim as [Hlim|Hlim]; [by left|subst c2; right]. intros a. rewrite Hp2. case_decide as Ha; [lia|]. destruct (decide (is_Some (pending p !! a))) as [Hsa|Hsa].
        -- destruct (Z.le_gt_cases (plen p a) (AccountSlots cfg)) as [Hpa|Hpa]; [by rewrite Hsmall|]. exfalso. apply Ha, Hsp. done.
        -- rewrite plen_none; [lia|]. intros Hx. apply Hsa. by apply (tm_dom' _ _ Ht1).
    + exists p1. split; [done|]. split_and!; [done|done| |done|done]. right. intros a. apply last_None in El. destruct (Z.le_gt_cases (plen p a) (AccountSlots cfg)) as [Hpa|Hpa]; [by rewrite Hsmall|].
      exfalso. assert (a ∈ spammers p) as Hin; [|rewrite El in Hin; by apply elem_of_nil in Hin]. apply Hsp. split; [|done]. destruct (decide (is_Some (pending p !! a))) as [?|Hn]; [done|]. apply plen_none in Hn. lia.
Qed.

(** ** What every operation keeps *)

(** The current state stays, and so do the accounts without gaps. *)
Definition keeps (p p' : TxPool) : Prop := ∀ h, head p = Some h → head_ok h → ∃ h', head p' = Some h' ∧ same_current h h' ∧
  ((∀ tx, U tx → Nonce tx < 2 ^ 64 - 1) → ∀ a, contig h p a → contig h' p' a).
Lemma keeps_refl p : keeps p p.
Proof. intros h Hh Hok. exists h. split; [done|]. split; [by apply same_current_refl|done]. Qed.
Lemma keeps_trans p1 p2 p3 : keeps p1 p2 → keeps p2 p3 → keeps p1 p3.
Proof.
  intros H1 H2 h Hh Hok. destruct (H1 h Hh Hok) as (h1 & E1 & S1 & C1). destruct (H2 h1 E1 (sc_ok _ _ S1)) as (h2 & E2 & S2 & C2). exists h2. split; [done|]. split; [by eapply same_current_trans|]. auto.
Qed.
Lemma trimmed_keeps p p' : trimmed p p' → keeps p p'.
Proof. intros Ht h Hh Hok. destruct (tm_head _ _ Ht h Hh Hok) as (h' & E & S & C). exists h'. auto. Qed.
Lemma unqueued_keeps l p p' : unqueued l p p' → keeps p p'.
Proof. intros Hu h Hh Hok. destruct (uq_state _ _ _ Hu) as (m & al & ->). exists h. split; [done|]. split; [by apply same_current_refl|done]. Qed.

Lemma insert_tx_last tx l : Forall (λ x, Nonce x < Nonce tx) l → insert_tx tx l = l ++ [tx].
Proof. induction 1 as [|x l Hx _ IH]; [done|]. cbn. rewrite (proj2 (Z.ltb_ge _ _)) by lia. rewrite (proj2 (Z.eqb_neq _ _)) by lia. by rewrite IH. Qed.
Lemma run_from_nonces next l : ∀ i tx, run_from next l !! i = Some tx → Nonce tx = next + Z.of_nat i.
Proof.
  revert next. induction l as [|x l IH]; intros next i tx; [done|]. cbn. destruct (Z.eqb_spec (Nonce x) next) as [En|]; [|done]. destruct i as [|i]; cbn; [intros [= <-]; lia|]. intros Hl%IH. lia.
Qed.
Definition consecutive (c : Z) (l : list Transaction) : Prop := ∀ i tx, l !! i = Some tx → Nonce tx = c + Z.of_nat i.
Lemma consecutive_app c l1 l2 : consecutive c l1 → consecutive (c + Zlen l1) l2 → consecutive c (l1 ++ l2).
Proof.
  intros H1 H2 i tx Hi. apply lookup_app_Some in Hi as [Hi|[Hge Hi]]; [by apply H1|]. apply H2 in Hi. unfold Zlen in Hi. lia.
Qed.
Lemma insert_consecutive r : ∀ c l, consecutive c l → consecutive (c + Zlen l) r → foldl (λ l tx, insert_tx tx l) l r = l ++ r.
Proof.
  induction r as [|x r IH]; intros c l Hl Hr; cbn [foldl]; [by rewrite app_nil_r|]. assert (Nonce x = c + Zlen l) as Hx by (specialize (Hr 0%nat x eq_refl); lia).
  rewrite insert_tx_last. 2:{ apply Forall_forall. intros y Hy. apply list_elem_of_lookup in Hy as [i Hy]. pose proof (lookup_lt_Some _ _ _ Hy). apply Hl in Hy. unfold Zlen in Hx. lia. }
  rewrite (IH c); [by rewrite <- app_assoc| |].
  - apply consecutive_app; [done|]. intros i tx Hi. destruct i; [|done]. injection Hi as <-. lia.
  - intros i tx Hi. specialize (Hr (Datatypes.S i) tx Hi). unfold Zlen in *. rewrite length_app. cbn. lia.
Qed.
(** What becomes executable continues the pending transactions. *)
Lemma promoted_consecutive p h a : pinv [] p → contig h p a → let r := promoted h a (old_txs false p a) in r = [] ∨ consecutive (nxt h a) r.
Proof.
  intros Hi [Hc Hn]. unfold promoted, ready_of. destruct (payable h a (old_txs false p a)) as [|tx l] eqn:Ep; [by left|]. destruct (Z.gtb_spec (Nonce tx) (nxt h a)) as [Hgt|Hle]; [by left|]. right.
  assert (tx ∈ payable h a (old_txs false p a)) as Htx by (rewrite Ep; by left). unfold payable in Htx. apply list_elem_of_filter in Htx as [_ [Hcur Htx]%list_elem_of_filter].
  assert (nxt h a ≤ Nonce tx) as Hge.
  { destruct (Z.le_gt_cases (nxt h a) (Nonce tx)) as [|Hlt]; [done|exfalso]. unfold old_txs in Htx. destruct (lists false p !! a) as [tq|] eqn:Eq; [|by apply elem_of_nil in Htx]. cbn in Htx.
    destruct (lookup_lt_is_Some_2 (old_txs true p a) (Z.to_nat (Nonce tx - cur h a))) as [y Hy]; [unfold Zlen in Hn; lia|]. pose proof (Hc _ _ Hy) as Hny.
    unfold old_txs in Hy. destruct (lists true p !! a) as [tp|] eqn:Epn; [|done]. cbn in Hy. apply (other_list [] false p a tq tp tx Hi Eq Htx Epn). replace (Nonce tx) with (Nonce y) by lia. apply list_elem_of_fmap_2. by eapply list_elem_of_lookup_2. }
  intros i y Hy. assert (Nonce tx = nxt h a) as En by lia. rewrite En in Hy. by apply run_from_nonces in Hy.
Qed.
Lemma promote_keeps now p a : live p → ∃ p', promote_account now a p = (p', Val tt) ∧ live p' ∧ keeps p p' ∧ (∀ b x, x ≠ a → lists b p' !! x = lists b p !! x) ∧
  (nonempty (pending p) → nonempty (pending p')) ∧ (nonempty (queue p) → nonempty (queue p')) ∧ Zlen (old_txs false p' a) ≤ AccountQueue cfg ∧ all p' ⊆ all p.
Proof.
  intros [Hi (h & Hh & Hok)]. destruct (promote_account_ok now a p h Hi Hh Hok) as (p' & h' & E & Hi' & Hh' & Hsc & Hn & Hoth & Hpe & Hqu & Ho & Hq & Hall). set (r := promoted h a (old_txs false p a)) in *.
  exists p'. split; [exact E|]. split; [split; [done|]; exists h'; split; [done|apply Hsc]|]. split_and!; [|done| | | |done].
  - intros h0 Hh0 _. assert (h0 = h) as -> by congruence. exists h'. split; [done|]. split; [done|]. intros Hmax x Hx. destruct (decide (x = a)) as [->|Hne].
    + pose proof (promoted_consecutive p h a Hi Hx) as Hr. cbv zeta in Hr. fold r in Hr. destruct Hx as [Hc Hnx]. unfold contig. rewrite (sc_cur _ _ Hsc), Hn, decide_True, Ho by done. destruct Hr as [->|Hr]; [done|].
      rewrite Hnx in Hr. rewrite (insert_consecutive r (cur h a)) by done. split; [by apply consecutive_app|]. unfold Zlen. rewrite length_app. destruct (last r) as [tx|] eqn:El; cbn.
      * apply last_Some in El as [l0 El]. assert (Nonce tx = cur h a + Zlen (old_txs true p a) + Z.of_nat (length l0)) as Et by (apply Hr; rewrite El, lookup_app_r, Nat.sub_diag by done; done).
        assert (U tx) as Hu. { eapply (pinv_U [] p); [done|]. apply elem_of_app. left. assert (tx ∈ r) as Htr by (rewrite El; apply elem_of_app; right; by left). unfold r, promoted in Htr.
          assert (tx ∈ payable h a (old_txs false p a)) as Htp by (rewrite (ready_split (nxt h a) (payable h a _)); apply elem_of_app; by left). apply list_elem_of_filter in Htp as [_ [_ Htp]%list_elem_of_filter].
          unfold old_txs in Htp. destruct (lists false p !! a) as [tq|] eqn:Eq; [|by apply elem_of_nil in Htp]. by eapply (in_located false). }
        specialize (Hmax tx Hu). pose proof (U_nonce HU tx Hu) as Hun. unfold is_u64 in Hun. rewrite u64_small by (unfold is_u64; lia). rewrite Et, El, length_app. unfold Zlen. cbn. lia.
      * apply last_None in El as ->. cbn. rewrite Hnx. unfold Zlen. lia.
    + unfold contig, old_txs. rewrite (sc_cur _ _ Hsc), Hn, decide_False by done. rewrite (Hoth true x Hne). exact Hx.
  - intros Hne x t Ht. destruct (decide (x = a)) as [->|Hx]; [destruct (Hpe t Ht) as [H|H]; [by apply (Hne a)|done]|]. apply (Hne x). change (lists true p !! x = Some t). by rewrite <- Hoth.
  - intros Hne x t Ht. destruct (decide (x = a)) as [->|Hx]; [by apply (Hqu t)|]. apply (Hne x). change (lists false p !! x = Some t). by rewrite <- Hoth.
  - rewrite Hq. unfold Zlen. rewrite length_take. pose proof (ok_account Hcfg). lia.
Qed.

Definition pool_ok (p : TxPool) : Prop :=
  live p ∧ nonempty (pending p) ∧ nonempty (queue p) ∧ Z.of_nat (size (all p)) ≤ GlobalSlots cfg + GlobalQueue cfg.
(** Within the limits of the configuration. *)
Definition fits (p : TxPool) : Prop :=
  (ptotal p ≤ GlobalSlots cfg ∨ ∀ a, plen p a ≤ AccountSlots cfg) ∧ Zlen (contents (queue p)) ≤ GlobalQueue cfg.
Lemma size_sub (m m' : gmap Z Transaction) : m' ⊆ m → (size m' ≤ size m)%nat.
Proof. intros H. rewrite <- !size_dom. apply subseteq_size. by apply subseteq_dom. Qed.
Lemma pool_total p : pool_ok p → ptotal p + Zlen (contents (queue p)) < 2 ^ 24.
Proof.
  intros ([Hi _] & _ & _ & Hb). pose proof (books_size _ _ (pi_books _ _ Hi)) as Hs. rewrite app_nil_r in Hs. unfold located in Hs. rewrite length_app in Hs. pose proof (ok_total Hcfg). unfold ptotal, Zlen. lia.
Qed.
(** Total operations of the pool that keep it in order. *)
Definition total {A} (m : M TxPool pool_error A) (p : TxPool) (Q : TxPool → Prop) : Prop :=
  ∃ p' r, m p = (p', r) ∧ (r ≠ Panic ∧ r ≠ NoFuel) ∧ pool_ok p' ∧ keeps p p' ∧ Q p'.

Lemma unqueued_len l p p' a : pinv [] p → unqueued l p p' → Zlen (old_txs false p' a) ≤ Zlen (old_txs false p a).
Proof.
  intros Hi Hu. pose proof (uq_inv _ _ _ Hu) as Hi'. unfold Zlen. apply inj_le, submseteq_length, NoDup_submseteq; [by apply old_txs_nodup|]. intros x Hx. unfold old_txs in Hx. destruct (lists false p' !! a) as [t'|] eqn:Et'; [|by apply elem_of_nil in Hx]. cbn in Hx.
  destruct (pi_lists _ _ Hi' false a t' Et') as [_ Hf]. rewrite Forall_forall in Hf. assert (x ∈ contents (queue p)) as Hxc by (rewrite (uq_contents _ _ _ Hu); apply elem_of_app; right; apply contents_elem; by eexists _, _).
  destruct (in_queue p x Hxc Hi) as (t & Ht & Hxt). rewrite (Hf x Hx) in Ht. by rewrite (old_txs_some false p a t Ht).
Qed.
Lemma keepFit_ok p : pool_ok p → ∃ p', keepFit p = (p', Val tt) ∧ pool_ok p' ∧ keeps p p' ∧ fits p' ∧ all p' ⊆ all p ∧ ∀ a, Zlen (old_txs false p' a) ≤ Zlen (old_txs false p a).
Proof.
  intros Hok. pose proof (pool_total p Hok) as Htot. destruct Hok as (Hl & Hnp & Hnq & Hb). pose proof (Zlen_nonneg (contents (queue p))). pose proof (Zlen_nonneg (contents (pending p))). unfold ptotal in Htot.
  destruct (keepFit_pending_ok p Hl ltac:(unfold ptotal; lia) Hnp) as (p1 & E1 & Ht1 & Hnp1 & Hlim & _ & Hle). unfold keepFit. rewrite (bind_val _ _ _ _ _ E1).
  destruct (keepFit_queue_ok p1) as (p2 & out & E2 & Hu & Hq); [apply Ht1|by rewrite (tm_queue _ _ Ht1)|rewrite (tm_queue _ _ Ht1); lia|].
  pose proof (trimmed_live _ _ Hl Ht1) as Hl1. destruct (uq_state _ _ _ Hu) as (m & al & Ep2). exists p2. split; [exact E2|].
  assert (all p2 ⊆ all p) as Hsub by (etrans; [apply (uq_all _ _ _ Hu)|apply (tm_all _ _ Ht1)]). split_and!; [|by eapply keeps_trans; [apply trimmed_keeps|eapply unqueued_keeps]| |done|].
  - split_and!; [|by subst p2|eapply unqueued_nonempty, Hu; by rewrite (tm_queue _ _ Ht1)|pose proof (size_sub _ _ Hsub); lia].
    split; [apply Hu|]. destruct Hl1 as [_ (h & Hh & Hok)]. exists h. split; [by subst p2|done].
  - split; [|done]. subst p2. exact Hlim.
  - intros a. etrans; [apply (unqueued_len out p1 p2 a (tm_inv _ _ Ht1) Hu)|]. unfold old_txs. cbn [lists]. by rewrite (tm_queue _ _ Ht1).
Qed.
Lemma for_each_promote_accounts now : ∀ l p, pool_ok p → ∃ p', for_each l (promote_account now) p = (p', Val tt) ∧ pool_ok p' ∧ keeps p p' ∧ all p' ⊆ all p ∧
  (∀ a, a ∈ l → Zlen (old_txs false p' a) ≤ AccountQueue cfg) ∧ ∀ a, a ∉ l → old_txs false p' a = old_txs false p a.
Proof.
  induction l as [|a l IH]; intros p Hok; cbn [for_each]; [exists p; split; [done|]; split; [done|]; split; [apply keeps_refl|]; split; [done|]; split; [by intros a ?%elem_of_nil|done]|].
  destruct Hok as (Hl & Hnp & Hnq & Hb). destruct (promote_keeps now p a Hl) as (p1 & E1 & Hl1 & Hk1 & Hoth1 & Hnp1 & Hnq1 & Hcap1 & Ha1). rewrite (bind_val _ _ _ _ _ E1).
  destruct (IH p1) as (p2 & E2 & Hok2 & Hk2 & Ha2 & Hin2 & Hout2); [split_and!; [done|by apply Hnp1|by apply Hnq1|pose proof (size_sub _ _ Ha1); lia]|]. exists p2. split; [exact E2|]. split; [done|]. split; [by eapply keeps_trans|]. split; [by etrans|]. split.
  - intros x Hx. destruct (decide (x ∈ l)) as [Hxl|Hxl]; [by apply Hin2|]. apply elem_of_cons in Hx as [->|?]; [|done]. by rewrite Hout2.
  - intros x Hx. apply not_elem_of_cons in Hx as [Hxa Hxl]. rewrite Hout2 by done. unfold old_txs. by rewrite Hoth1.
Qed.
Lemma promoteExecutables_ok now accts p : pool_ok p → ∃ p', promoteExecutables now accts p = (p', Val tt) ∧ pool_ok p' ∧ keeps p p' ∧ fits p' ∧ all p' ⊆ all p ∧
  ∀ a, a ∈ default (go_range (queue p)).*1 accts → Zlen (old_txs false p' a) ≤ AccountQueue cfg.
Proof.
  intros Hok. unfold promoteExecutables. erewrite (bind_val (gets _)) by done. destruct (for_each_promote_accounts now (default (go_range (queue p)).*1 accts) p Hok) as (p1 & E1 & Hok1 & Hk1 & Ha1 & Hin1 & _). rewrite (bind_val _ _ _ _ _ E1).
  destruct (keepFit_ok p1 Hok1) as (p2 & E2 & Hok2 & Hk2 & Hf & Ha2 & Hq2). exists p2. split; [exact E2|]. split; [done|]. split; [by eapply keeps_trans|]. split; [done|]. split; [by etrans|]. intros a Ha. etrans; [apply Hq2|by apply Hin1].
Qed.
(** *** Eviction *)
Lemma unqueued_all p p' a t : pinv [] p → queue p !! a = Some t → unqueued (txs_of t) p p' → old_txs false p' a = [].
Proof.
  intros Hi Ht Hu. unfold old_txs. cbn [lists]. destruct (queue p' !! a) as [t'|] eqn:Et'; [|done]. cbn. destruct (txs_of t') as [|x l'] eqn:El; [done|exfalso].
  assert (x ∈ contents (queue p')) as Hx by (apply contents_elem; exists a, t'; split; [done|rewrite El; by left]).
  assert (NoDup (contents (queue p))) as Hd. { destruct (pi_books _ _ Hi) as (_ & _ & Hd & _). rewrite app_nil_r in Hd. apply NoDup_fmap_1 in Hd. unfold located in Hd. by apply NoDup_app in Hd as (_ & _ & Hd). }
  assert (x ∈ contents (queue p)) as Hxc by (rewrite (uq_contents _ _ _ Hu); apply elem_of_app; by right). rewrite (uq_contents _ _ _ Hu) in Hd. apply NoDup_app in Hd as (_ & Hdis & _). apply (Hdis x); [|done].
  destruct (in_queue p x Hxc Hi) as (t0 & Ht0 & Hxt). destruct (pi_lists _ _ (uq_inv _ _ _ Hu) false a t' Et') as [_ Hf]. rewrite El, Forall_cons_iff in Hf. destruct Hf as [Hf _]. rewrite Hf in Ht0. by assert (t0 = t) as -> by congruence.
Qed.
(** The accounts an eviction tick takes: the last promotion is too long ago. *)
Definition expired (now : Z) (p : TxPool) (a : Address) : bool := Lifetime cfg <? Since now (heartbeat p a).
Lemma evict_account_ok now a p : pool_ok p → ∃ p', evict_account now a p = (p', Val tt) ∧ pool_ok p' ∧ keeps p p' ∧ pending p' = pending p ∧ beats p' = beats p ∧
  (∀ x, x ≠ a → old_txs false p' x = old_txs false p x) ∧ old_txs false p' a = if expired now p a then [] else old_txs false p a.
Proof.
  intros (Hl & Hnp & Hnq & Hb). pose proof Hl as [Hi (h & Hh & Hok)]. unfold evict_account. do 3 (erewrite (bind_val (gets _)) by done). rewrite (pi_config _ _ Hi), Z.gtb_ltb. change (Lifetime cfg <? Since now (heartbeat p a)) with (expired now p a).
  destruct (queue p !! a) as [t|] eqn:Et; [destruct (expired now p a) eqn:Ex|].
  2,3: exists p; split; [done|]; split; [done|]; split; [apply keeps_refl|]; split_and!; [done|done|done|]; unfold old_txs; cbn [lists]; rewrite ?Et; by destruct (expired now p a).
  destruct (flatten_queue p a t Hi Et (Hnq a t Et)) as (p1 & E1 & H1). rewrite (bind_val _ _ _ _ _ E1).
  destruct (remove_many (txs_of t) p1 (uq_inv _ _ _ H1)) as (p2 & E2 & H2).
  - rewrite <- (old_txs_some false p a t Et). by apply old_txs_nodup.
  - intros x Hx. rewrite <- (app_nil_l (contents (queue p1))), <- (uq_contents _ _ _ H1). apply contents_elem. by eexists _, _.
  - pose proof (unqueued_trans _ _ _ _ _ H1 H2) as H12. cbn [app] in H12. destruct (uq_state _ _ _ H12) as (m & al & Ep2). exists p2. split; [exact E2|]. split_and!; [|by eapply unqueued_keeps|by subst p2|by subst p2| |by eapply unqueued_all].
    + split_and!; [|by subst p2|by eapply unqueued_nonempty|pose proof (size_sub _ _ (uq_all _ _ _ H12)); lia]. split; [apply H12|]. exists h. split; [by subst p2|done].
    + intros x Hx. unfold old_txs. cbn [lists]. rewrite (uq_others _ _ _ H12 x); [done|]. intros (tx & -> & Htx)%list_elem_of_fmap. destruct (pi_lists _ _ Hi false a t Et) as [_ Hf]. rewrite Forall_forall in Hf. by rewrite (Hf tx Htx) in Hx.
Qed.
Lemma evict_ok now p : pool_ok p → ∃ p', evict now p = (p', Val tt) ∧ pool_ok p' ∧ keeps p p' ∧ pending p' = pending p ∧ ∀ a, old_txs false p' a = if expired now p a then [] else old_txs false p a.
Proof.
  intros Hok. unfold evict. erewrite (bind_val (gets _)) by done. assert (∀ l p, pool_ok p → ∃ p', for_each l (evict_account now) p = (p', Val tt) ∧ pool_ok p' ∧ keeps p p' ∧ pending p' = pending p ∧
    ∀ a, old_txs false p' a = if bool_decide (a ∈ l) && expired now p a then [] else old_txs false p a) as Hloop.
  - clear p Hok. induction l as [|a l IH]; intros p Hok; cbn [for_each]; [exists p; split; [done|]; split; [done|]; split; [apply keeps_refl|done]|].
    destruct (evict_account_ok now a p Hok) as (p1 & E1 & Hok1 & Hk1 & Hp1 & Hb1 & Ho1 & Ha1). rewrite (bind_val _ _ _ _ _ E1). destruct (IH p1 Hok1) as (p2 & E2 & Hok2 & Hk2 & Hp2 & Ho2). exists p2. split; [exact E2|]. split; [done|]. split; [by eapply keeps_trans|]. split; [congruence|].
    intros x. rewrite Ho2. assert (expired now p1 x = expired now p x) as -> by (unfold expired, heartbeat; by rewrite Hb1). destruct (decide (x = a)) as [->|Hx].
    + rewrite Ha1, (bool_decide_true (a ∈ a :: l)) by (by left). cbn. destruct (expired now p a); [by rewrite andb_true_r; case_match|by rewrite andb_false_r].
    + rewrite Ho1 by done. replace (bool_decide (x ∈ a :: l)) with (bool_decide (x ∈ l)); [done|]. apply bool_decide_ext. rewrite elem_of_cons. naive_solver.
  - destruct (Hloop (go_range (queue p)).*1 p Hok) as (p' & E & Hok' & Hk & Hp & Ho). exists p'. split; [exact E|]. split; [done|]. split; [done|]. split; [done|]. intros a. rewrite Ho. case_bool_decide as Ha; [done|]. cbn. rewrite go_keys_in in Ha.
    unfold old_txs. cbn [lists]. destruct (queue p !! a); [exfalso; apply Ha; by eexists|]. by destruct (expired now p a).
Qed.

(** *** A new transaction *)
Lemma pinv_renew b a t t' al p : pinv [] p → lists b p !! a = Some t → list_ok b a t' → (∀ l, books (all p) (txs_of t ++ l) → books al (txs_of t' ++ l)) →
  pinv [] (set_all al (set_lists b (<[a := t']> (lists b p)) p)).
Proof.
  intros Hi Ht Hok Hb. destruct (Hi) as [Hsg Hc Hl Hbk]. split; [by destruct b|by destruct b| |].
  - intros b' x tx. change (lists b' (set_all al ?q)) with (lists b' q). rewrite lists_set_case. destruct (eqb b b') eqn:Eb; [|apply Hl]. apply eqb_prop in Eb as <-. destruct (decide (x = a)) as [->|Hx]; [rewrite lookup_insert_eq; by intros [= <-]|rewrite lookup_insert_ne by done; apply Hl].
  - cbn [all set_all]. change (located (set_all al ?q)) with (located q). rewrite app_nil_r in *. rewrite (located_lists b) in Hbk |- *. rewrite lists_set, lists_set_other, contents_insert, <- app_assoc. apply Hb.
    rewrite (contents_delete _ _ _ Ht), <- app_assoc in Hbk. exact Hbk.
Qed.
Lemma insert_tx_nonces_old tx l : sorted l → Nonce tx ∈ Nonce <$> l → Nonce <$> insert_tx tx l = Nonce <$> l.
Proof.
  induction 1 as [|x l Hl IH Hf]; [by intros ?%elem_of_nil|]. cbn. intros Hin. rewrite Forall_forall in Hf. destruct (Z.ltb_spec (Nonce tx) (Nonce x)) as [Hlt|Hge].
  - exfalso. apply elem_of_cons in Hin as [?|(y & Hy & Hyl)%list_elem_of_fmap]; [lia|]. specialize (Hf y Hyl). unfold nonce_lt in Hf. lia.
  - destruct (Z.eqb_spec (Nonce tx) (Nonce x)) as [He|Hne]; cbn; [by rewrite He|]. f_equal. apply IH. apply elem_of_cons in Hin as [?|?]; [done|done].
Qed.
Lemma slot_located p tx : pinv [] p → slot tx ∈ slot <$> located p → ∃ b t, lists b p !! from tx = Some t ∧ Nonce tx ∈ Nonce <$> txs_of t.
Proof.
  intros Hi (y & [= Hf Hn] & Hy)%list_elem_of_fmap. assert (∃ b, y ∈ contents (lists b p)) as [b Hb] by (unfold located in Hy; apply elem_of_app in Hy as [?|?]; [by exists true|by exists false]).
  apply contents_elem in Hb as (a & t & Ht & Hyt). destruct (pi_lists _ _ Hi b a t Ht) as [_ Hfr]. rewrite Forall_forall in Hfr. rewrite <- (Hfr y Hyt), <- Hf in Ht. exists b, t. split; [done|]. rewrite Hn. by apply list_elem_of_fmap_2.
Qed.
Lemma add_list b p t tx : pinv [] p → U tx → lists b p !! from tx = Some t → (∀ t', lists (negb b) p !! from tx = Some t' → Nonce tx ∉ Nonce <$> txs_of t') →
  (∃ x, x ∈ txs_of t ∧ Nonce x = Nonce tx ∧ with_list b (from tx) (list_Add tx (PriceBump cfg)) p = (p, Val (false, None))) ∨
  (∃ old t', with_list b (from tx) (list_Add tx (PriceBump cfg)) p = (set_lists b (<[from tx := t']> (lists b p)) p, Val (true, old)) ∧
     pinv [] (set_all (<[tx_hash tx := tx]> (from_option (λ x, delete (tx_hash x) (all p)) (all p) old)) (set_lists b (<[from tx := t']> (lists b p)) p)) ∧
     txs_of t' = insert_tx tx (txs_of t) ∧ (is_Some old ↔ Nonce tx ∈ Nonce <$> txs_of t)).
Proof.
  intros Hi Hu Ht Hother. destruct (pi_lists _ _ Hi b _ t Ht) as [Hr Hf]. destruct (Add_takes b t _ tx (PriceBump cfg) Hr (U_nonce HU _ Hu) (ok_bump Hcfg)) as [(Hn & t' & E & Hr' & Hp)|[(x & Hx & Hn & E)|(x & l' & t' & Hx & Hn & Hprice & E & Hr' & Hp)]].
  - right. pose proof (lrepr_txs_of _ _ _ Hr') as Et. exists None, t'. split; [by apply (with_list_ok _ _ _ _ t)|]. split_and!; [|done|split; [by intros [? ?]|done]]. cbn [from_option].
    apply (pinv_renew b _ t t'); [done|done|split; [by rewrite Et|rewrite Et, Hp; by constructor]|]. intros l Hb. rewrite Et. eapply books_perm; [by rewrite Hp|]. cbn [app].
    assert (slot tx ∉ slot <$> txs_of t ++ l) as Hs.
    { intros Hin. assert (txs_of t ++ l ≡ₚ located p) as Hperm. { pose proof (pi_books _ _ Hi) as Hbk. rewrite app_nil_r in Hbk. apply NoDup_Permutation; [by eapply NoDup_fmap_1, Hb|by eapply NoDup_fmap_1, Hbk|].
        intros y. rewrite <- (and_True (y ∈ txs_of t ++ l)), <- (and_True (y ∈ located p)). split; intros [Hy _]; split; try done.
        - apply (books_lookup _ _ (tx_hash y) y Hbk). by apply (books_lookup _ _ (tx_hash y) y Hb).
        - apply (books_lookup _ _ (tx_hash y) y Hb). by apply (books_lookup _ _ (tx_hash y) y Hbk). }
      rewrite Hperm in Hin. destruct (slot_located p tx Hi Hin) as (b' & t2 & Ht2 & Hn2). destruct (decide (b' = b)) as [->|Hb']; [rewrite Ht in Ht2; by injection Ht2 as <-|].
      replace b' with (negb b) in Ht2 by (by destruct b, b'). by apply (Hother t2). }
    apply books_insert; [done|done|done|]. intros Hh. destruct (books_same _ _ _ Hb Hu Hh) as (y & Hy & Hsy). apply Hs. rewrite <- Hsy. by apply list_elem_of_fmap_2.
  - left. exists x. split_and!; [done|done|]. rewrite (with_list_ok _ _ _ _ t _ _ Ht E), insert_id by done. f_equal. destruct b, p; done.
  - right. pose proof (lrepr_txs_of _ _ _ Hr') as Et. exists (Some x), t'. split; [by apply (with_list_ok _ _ _ _ t)|]. assert (x ∈ txs_of t) as Hxt by (rewrite Hx; by left).
    split_and!; [|done|split; [intros _; rewrite <- Hn; by apply list_elem_of_fmap_2|by eexists]]. cbn [from_option].
    rewrite Hx in Hf. apply Forall_cons_iff in Hf as [Hfx Hf]. apply (pinv_renew b _ t t'); [done|done|split; [by rewrite Et|rewrite Et, Hp; by constructor]|]. intros l Hb. rewrite Et. eapply books_perm; [by rewrite Hp|]. cbn [app].
    eapply books_perm in Hb; [|by rewrite Hx]. cbn [app] in Hb. assert (slot tx = slot x) as Es by (unfold slot; by rewrite Hfx, Hn).
    assert (slot tx ∉ slot <$> l' ++ l) as Hs by (destruct Hb as (_ & Hd & _); cbn in Hd; apply NoDup_cons in Hd as [Hd _]; by rewrite Es).
    pose proof (books_delete _ _ _ Hb) as Hb'. apply books_insert; [done|done|done|]. intros Hh. destruct (books_same _ _ _ Hb' Hu Hh) as (y & Hy & Hsy). apply Hs. rewrite <- Hsy. by apply list_elem_of_fmap_2.
Qed.

Lemma bind_two {S Er A B C} (m1 : M S Er A) (m2 : M S Er B) (k : B → M S Er C) s s' b : (m1;; m2) s = (s', Val b) → (m1;; x ← m2; k x) s = k b s'.
Proof. unfold mbind, M_bind. destruct (m1 s) as [s1 []]; [|done..]. destruct (m2 s1) as [s2 []]; by intros [= -> ->]. Qed.
Lemma discard_known b old tx m p : (discard_opt old;; known (tx_hash tx) tx) (set_lists b m p) = (set_all (<[tx_hash tx := tx]> (from_option (λ x, delete (tx_hash x) (all p)) (all p) old)) (set_lists b m p), Val tt).
Proof. destruct old, b; done. Qed.
Lemma enqueue_new p tx : pool_ok p → U tx → (∀ t, pending p !! from tx = Some t → Nonce tx ∉ Nonce <$> txs_of t) → Z.of_nat (size (all p)) < GlobalSlots cfg + GlobalQueue cfg →
  ∃ p' r, enqueueTx (tx_hash tx) tx p = (p', r) ∧ (r ≠ Panic ∧ r ≠ NoFuel) ∧ pool_ok p' ∧ keeps p p' ∧ pending p' = pending p.
Proof.
  intros (Hl & Hnp & Hnq & Hb) Hu Hnone Hsize. pose proof Hl as [Hi (h & Hh & Hok)]. unfold enqueueTx. rewrite (bind_val _ _ _ _ _ (from_of_ok tx p (pi_signer _ _ Hi) Hu)).
  erewrite (bind_val (modify _)) by done. cbn beta. set (p1 := match queue p !! from tx with None => _ | Some _ => _ end). erewrite (bind_val (gets config)) by done.
  assert (pinv [] p1 ∧ (∃ t, queue p1 !! from tx = Some t ∧ (queue p !! from tx = None → txs_of t = [])) ∧ pending p1 = pending p ∧ all p1 = all p ∧ (∀ m, set_queue m p1 = set_queue m p) ∧ (∀ x, x ≠ from tx → queue p1 !! x = queue p !! x)) as (Hi1 & (t & Ht & Hnew) & Hp1 & Ha1 & Hset & Hoth).
  { unfold p1. destruct (queue p !! from tx) as [t|] eqn:Et; [split_and!; try done; by exists t|]. split_and!; try done; [by apply (pinv_create [] false)|exists (newTxList false); cbn; by rewrite lookup_insert_eq|]. intros x Hx. cbn. by rewrite lookup_insert_ne. }
  rewrite (pi_config _ _ Hi1). destruct (add_list false p1 t tx Hi1 Hu Ht) as [(x & Hx & Hn & E)|(old & t' & E & Hi2 & Et' & Hold)]; [cbn [lists negb]; by rewrite Hp1| |].
  - cbn [with_list] in E. rewrite (bind_val _ _ _ _ _ E). cbn [negb]. assert (p1 = p) as Ep by (unfold p1; destruct (queue p !! from tx); [done|]; rewrite (Hnew eq_refl) in Hx; by apply elem_of_nil in Hx).
    exists p, (Err ErrReplaceUnderpriced). rewrite Ep. split; [done|]. split; [done|]. split; [done|]. split; [apply keeps_refl|done].
  - cbn [with_list set_lists lists] in *. rewrite (bind_val _ _ _ _ _ E). cbn [negb]. set (p2 := set_all _ _) in *. pose proof (discard_known false old tx (<[from tx := t']> (queue p1)) p1) as Ed. cbn [set_lists] in Ed. fold p2 in Ed.
    exists p2, (Val (bool_decide (is_Some old))). split.
    { by rewrite (bind_two _ _ _ _ _ _ Ed). }
    split; [done|]. split_and!; [| |by rewrite <- Hp1].
    + split_and!; [split; [done|]; exists h; split; [by rewrite <- Hh; unfold p2, p1; destruct (queue p !! from tx)|done]|unfold p2; cbn; by rewrite Hp1| |].
      * intros x t0. unfold p2. cbn [queue set_all set_queue]. destruct (decide (x = from tx)) as [->|Hx]; [rewrite lookup_insert_eq; intros [= <-]; rewrite Et'; destruct (txs_of t) as [|y l]; cbn; [done|]; by repeat case_match|].
        rewrite lookup_insert_ne, Hoth by done. apply Hnq.
      * unfold p2. cbn [all set_all]. rewrite Ha1. pose proof (size_sub (all p) (from_option (λ x, delete (tx_hash x) (all p)) (all p) old)) as Hsz. rewrite map_size_insert. assert (from_option (λ x, delete (tx_hash x) (all p)) (all p) old ⊆ all p) as Hsub by (destruct old; cbn; [apply delete_subseteq|done]). specialize (Hsz Hsub). case_match; unfold id; lia.
    + intros h0 Hh0 Hok0. exists h0. split; [by rewrite <- Hh0; unfold p2, p1; destruct (queue p !! from tx)|]. split; [by apply same_current_refl|]. intros _ x [C1 C2]. unfold contig, old_txs in *. unfold p2. cbn [lists pending set_all set_queue]. by rewrite Hp1.
Qed.
Lemma add_ok tx p : pool_ok p → U tx → ∃ p' r, add tx p = (p', r) ∧ (r ≠ Panic ∧ r ≠ NoFuel) ∧ pool_ok p' ∧ keeps p p'.
Proof.
  intros Hpok Hu. pose proof Hpok as (Hl & Hnp & Hnq & Hb). pose proof Hl as [Hi (h & Hh & Hok)]. unfold add. rewrite (bind_val _ _ _ _ _ (from_of_ok tx p (pi_signer _ _ Hi) Hu)).
  do 2 (erewrite (bind_val (gets _)) by done). rewrite (pi_config _ _ Hi). unfold compose. pose proof (ok_total Hcfg). pose proof (ok_global Hcfg). pose proof (ok_gqueue Hcfg).
  rewrite !u64_small by (unfold is_u64; lia). destruct (Z.geb_spec (Z.of_nat (size (all p))) (GlobalSlots cfg + GlobalQueue cfg)) as [Hfull|Hroom]; [eexists _, _; split; [done|]; split; [done|]; split; [done|apply keeps_refl]|].
  erewrite (bind_val (gets _)) by done. destruct (pending p !! from tx) as [t|] eqn:Et.
  2:{ destruct (enqueue_new p tx Hpok Hu) as (p' & r & E & Hr & Hok' & Hk & _); [intros t; by rewrite Et|lia|]. by exists p', r. }
  destruct (pi_lists _ _ Hi true _ t Et) as [Hr Hf]. unfold Overlaps. rewrite (repr_Get _ (txs_of t)) by (apply Hr). case_bool_decide as Hov.
  2:{ destruct (enqueue_new p tx Hpok Hu) as (p' & r & E & Hr' & Hok' & Hk & _); [|lia|by exists p', r].
      intros t0. rewrite Et. intros [= <-] (x & Hx & Hin)%list_elem_of_fmap. apply Hov. destruct (List.find _ (txs_of t)) eqn:Ef; [by eexists|]. apply list_elem_of_In in Hin. pose proof (List.find_none _ _ Ef x Hin) as Hf0. cbn in Hf0. by rewrite <- Hx, Z.eqb_refl in Hf0. }
  assert (Nonce tx ∈ Nonce <$> txs_of t) as Hnin. { destruct Hov as [x Hx]. apply List.find_some in Hx as [Hin Hx]. zbool. rewrite <- Hx. apply list_elem_of_fmap_2. by apply list_elem_of_In. }
  destruct (add_list true p t tx Hi Hu Et) as [(x & Hx & Hn & E)|(old & t' & E & Hi2 & Et' & Hold)].
  - intros tq Hq. apply list_elem_of_fmap in Hnin as (y & Hy & Hyt). rewrite Hy. by eapply (other_list [] true p _ t).
  - cbn [with_list] in E. rewrite (bind_val _ _ _ _ _ E). cbn [negb]. eexists _, _. split; [done|]. split; [done|]. split; [done|apply keeps_refl].
  - cbn [with_list set_lists lists] in *. rewrite (bind_val _ _ _ _ _ E). cbn [negb]. set (p2 := set_all _ _) in *. pose proof (discard_known true old tx (<[from tx := t']> (pending p)) p) as Ed. cbn [set_lists] in Ed. fold p2 in Ed.
    exists (fire tx p2), (Val (bool_decide (is_Some old))). split.
    { by rewrite (bind_two _ _ _ _ _ _ Ed). }
    split; [done|]. split.
    + split_and!; [split; [by eapply pinv_same; [exact Hi2|..]|]; exists h; done| |exact Hnq|].
      * intros x t0. unfold p2. cbn [pending fire set_all set_pending]. destruct (decide (x = from tx)) as [->|Hx]; [rewrite lookup_insert_eq; intros [= <-]; rewrite Et'; destruct (txs_of t) as [|y l]; cbn; [done|]; by repeat case_match|].
        rewrite lookup_insert_ne by done. apply Hnp.
      * unfold p2. cbn [all fire set_all]. pose proof (size_sub (all p) (from_option (λ x, delete (tx_hash x) (all p)) (all p) old)) as Hsz. rewrite map_size_insert. assert (from_option (λ x, delete (tx_hash x) (all p)) (all p) old ⊆ all p) as Hsub by (destruct old; cbn; [apply delete_subseteq|done]). specialize (Hsz Hsub). case_match; unfold id; lia.
    + intros h0 Hh0 Hok0. exists h0. split; [done|]. split; [by apply same_current_refl|]. intros _ x [C1 C2]. unfold contig, old_txs in *. unfold p2. cbn [lists pending fire set_all set_pending] in *. destruct (decide (x = from tx)) as [->|Hx]; [|by rewrite lookup_insert_ne].
      rewrite Et in C1, C2. rewrite lookup_insert_eq. cbn in *. rewrite Et'. pose proof (insert_tx_nonces_old tx _ (lrepr_sorted _ _ _ Hr) Hnin) as Hsame. split.
      * intros i y Hy. pose proof (f_equal (λ l, l !! i) Hsame) as Hi0. cbn in Hi0. rewrite !list_lookup_fmap, Hy in Hi0. destruct (txs_of t !! i) as [z|] eqn:Ez; [|done]. cbn in Hi0. injection Hi0 as ->. by apply C1.
      * rewrite C2. f_equal. apply (f_equal length) in Hsame. rewrite !length_fmap in Hsame. unfold Zlen. lia.
Qed.

(** *** Validation *)
Lemma pool_ok_head p h h' : pool_ok p → head p = Some h → same_head h h' → pool_ok (set_head (Some h') p) ∧ keeps p (set_head (Some h') p).
Proof.
  intros ([Hi _] & H1 & H2 & H3) Hh [Hs Hn]. split; [split_and!; [split; [by apply pinv_head|]; exists h'; split; [done|apply Hs]|done|done|done]|].
  intros h0 Hh0 _. assert (h0 = h) as -> by congruence. exists h'. split; [done|]. split; [done|]. intros _ a [C1 C2]. unfold contig. rewrite (sc_cur _ _ Hs), Hn. exact (conj C1 C2).
Qed.
(** The transactions the pool accepts. *)
Definition acceptable (p : TxPool) (h : poolHead) (tx : Transaction) : Prop :=
  tx_size tx ≤ 32768 ∧ 0 ≤ Amount (data tx) ∧ IntrinsicGas (Payload (data tx)) (bool_decide (To tx = None)) ≤ Gas tx ≤ currentMaxGas h ∧
  gasPrice p ≤ GasPrice tx ∧ cur h (from tx) ≤ Nonce tx ∧ Cost tx ≤ bal h (from tx).
Lemma Cmp_lt x y : (big_Cmp x y <? 0) = (x <? y).
Proof. unfold big_Cmp. destruct (Z.compare_spec x y); cbn; symmetry; [apply Z.ltb_ge|apply Z.ltb_lt|apply Z.ltb_ge]; lia. Qed.
Lemma validateTx_ok p h tx : signer p = sg → U tx → head p = Some h → head_ok h →
  ∃ h' r, validateTx tx p = (set_head (Some h') p, r) ∧ same_head h h' ∧ (r ≠ Panic ∧ r ≠ NoFuel) ∧ (r = Val tt ↔ acceptable p h tx).
Proof.
  intros Hsg Hu Hh Hok. assert (∀ (e : pool_error) (P : Prop), ¬ P → ∃ h' (r : outcome pool_error unit), (p, Err e) = (set_head (Some h') p, r) ∧ same_head h h' ∧ (r ≠ Panic ∧ r ≠ NoFuel) ∧ (r = Val tt ↔ P)) as Hrefuse.
  { intros e P HP. exists h, (Err e). split; [by rewrite <- Hh; destruct p|]. split; [split; [by apply same_current_refl|done]|]. split; [done|]. split; [done|tauto]. }
  unfold validateTx, acceptable, maxTransactionSize. destruct (Z.gtb_spec (tx_size tx) (32 * 1024)) as [Hsz|Hsz]; [apply Hrefuse; lia|].
  unfold big_Sign. rewrite Cmp_lt. destruct (Z.ltb_spec (Amount (data tx)) 0) as [Ham|Ham]; [apply Hrefuse; lia|]. rewrite (bind_val _ _ _ _ _ (max_gas_ok p h Hh)). rewrite Cmp_lt.
  destruct (Z.ltb_spec (currentMaxGas h) (Gas tx)) as [Hg|Hg]; [apply Hrefuse; lia|].
  assert (sender tx p = (p, Val (Some (from tx)))) as Es. { destruct (U_sender HU tx Hu) as [a Ea]. unfold sender, TxListProps.from. by rewrite Hsg, Ea. }
  rewrite (bind_val _ _ _ _ _ Es). erewrite (bind_val (gets _)) by done. rewrite Cmp_gt. destruct (Z.ltb_spec (GasPrice tx) (gasPrice p)) as [Hpr|Hpr]; [apply Hrefuse; lia|].
  destruct (current_nonce (from tx) p h Hh Hok) as (h1 & E1 & Hs1). rewrite (bind_val _ _ _ _ _ E1). destruct (Z.gtb_spec (cur h (from tx)) (Nonce tx)) as [Hn|Hn].
  { exists h1, (Err ErrNonceTooLow). split; [done|]. split; [done|]. split; [done|]. split; [done|lia]. }
  destruct (current_balance (from tx) (set_head (Some h1) p) h1 eq_refl (sc_ok _ _ (proj1 Hs1))) as (h2 & E2 & Hs2). rewrite (bind_val _ _ _ _ _ E2), (sc_bal _ _ (proj1 Hs1)), !Cmp_lt.
  destruct (Z.ltb_spec (bal h (from tx)) (Cost tx)) as [Hc|Hc].
  { exists h2, (Err ErrInsufficientFunds). split; [done|]. split; [by eapply same_head_trans|]. split; [done|]. split; [done|lia]. }
  destruct (Z.ltb_spec (Gas tx) (IntrinsicGas (Payload (data tx)) (bool_decide (To tx = None)))) as [Hi|Hi].
  { exists h2, (Err ErrIntrinsicGas). split; [done|]. split; [by eapply same_head_trans|]. split; [done|]. split; [done|lia]. }
  exists h2, (Val tt). split; [done|]. split; [by eapply same_head_trans|]. split; [done|]. split; [|done]. intros _. change (32 * 1024) with 32768 in Hsz. lia.
Qed.
Lemma check_new_ok p tx : pool_ok p → U tx → ∃ p' r, check_new tx p = (p', r) ∧ (r ≠ Panic ∧ r ≠ NoFuel) ∧ pool_ok p' ∧ keeps p p'.
Proof.
  intros Hok Hu. pose proof Hok as ([Hi (h & Hh & Hhok)] & _). unfold check_new. erewrite (bind_val (gets _)) by done. destruct (all p !! tx_hash tx); [eexists _, _; split; [done|]; split; [done|]; split; [done|apply keeps_refl]|].
  destruct (validateTx_ok p h tx (pi_signer _ _ Hi) Hu Hh Hhok) as (h' & r & E & Hs & Hr & _). exists (set_head (Some h') p), r. split; [done|]. split; [done|]. by eapply pool_ok_head.
Qed.

(** *** The entry points *)
Lemma addTxLocked_ok now tx p : pool_ok p → U tx → ∃ p' r, addTxLocked now tx p = (p', r) ∧ (r ≠ Panic ∧ r ≠ NoFuel) ∧ pool_ok p' ∧ keeps p p'.
Proof.
  intros Hok Hu. unfold addTxLocked. destruct (add_ok tx p Hok Hu) as (p1 & r & E & Hr & Hok1 & Hk1). unfold mbind at 1, M_bind at 1. rewrite E. destruct r as [[]|e| |]; try (by destruct Hr); cbn [negb]; [by eexists _, _| |by eexists _, _].
  pose proof Hok1 as ([Hi1 _] & _). rewrite (bind_val _ _ _ _ _ (from_of_ok tx p1 (pi_signer _ _ Hi1) Hu)). destruct (promoteExecutables_ok now (Some [from tx]) p1 Hok1) as (p2 & E2 & Hok2 & Hk2 & _).
  exists p2, (Val tt). split; [done|]. split; [done|]. split; [done|by eapply keeps_trans].
Qed.
Lemma add_all_ok : ∀ l dirty p, pool_ok p → Forall U l → ∃ p' d, add_all l dirty p = (p', Val d) ∧ pool_ok p' ∧ keeps p p'.
Proof.
  induction l as [|tx l IH]; intros dirty p Hok Hu; cbn [add_all]; [exists p, dirty; split; [done|]; split; [done|apply keeps_refl]|]. apply Forall_cons_iff in Hu as [Hu Hus].
  destruct (add_ok tx p Hok Hu) as (p1 & r & E & Hr & Hok1 & Hk1). rewrite E. destruct r as [[]|e| |]; try (by destruct Hr).
  - destruct (IH dirty p1 Hok1 Hus) as (p2 & d & E2 & Hok2 & Hk2). exists p2, d. split; [done|]. split; [done|by eapply keeps_trans].
  - pose proof Hok1 as ([Hi1 _] & _). rewrite (bind_val _ _ _ _ _ (from_of_ok tx p1 (pi_signer _ _ Hi1) Hu)). destruct (IH (<[from tx := tt]> dirty) p1 Hok1 Hus) as (p2 & d & E2 & Hok2 & Hk2). exists p2, d. split; [done|]. split; [done|by eapply keeps_trans].
  - destruct (IH dirty p1 Hok1 Hus) as (p2 & d & E2 & Hok2 & Hk2). exists p2, d. split; [done|]. split; [done|by eapply keeps_trans].
Qed.
Lemma addTxsLocked_ok now l p : pool_ok p → Forall U l → ∃ p', addTxsLocked now l p = (p', Val tt) ∧ pool_ok p' ∧ keeps p p'.
Proof.
  intros Hok Hu. unfold addTxsLocked. destruct (add_all_ok l ∅ p Hok Hu) as (p1 & d & E1 & Hok1 & Hk1). rewrite (bind_val _ _ _ _ _ E1). case_match; [|by exists p1].
  destruct (promoteExecutables_ok now (Some (go_range d).*1) p1 Hok1) as (p2 & E2 & Hok2 & Hk2 & _). exists p2. split; [done|]. split; [done|by eapply keeps_trans].
Qed.
Lemma AddTx_ok now tx p : pool_ok p → U tx → ∃ p' r, AddTx now tx p = (p', r) ∧ (r ≠ Panic ∧ r ≠ NoFuel) ∧ pool_ok p' ∧ keeps p p'.
Proof.
  intros Hok Hu. unfold AddTx. destruct (check_new_ok p tx Hok Hu) as (p1 & r & E & Hr & Hok1 & Hk1). unfold mbind, M_bind. rewrite E. destruct r as [[]|e| |]; try (by destruct Hr); [|by eexists _, _].
  destruct (addTxLocked_ok now tx p1 Hok1 Hu) as (p2 & r & E2 & Hr2 & Hok2 & Hk2). exists p2, r. split; [done|]. split; [done|]. split; [done|by eapply keeps_trans].
Qed.
Lemma AddTxs_ok now l p : pool_ok p → Forall U l → ∃ p' r, AddTxs now l p = (p', r) ∧ (r ≠ Panic ∧ r ≠ NoFuel) ∧ pool_ok p' ∧ keeps p p'.
Proof.
  intros Hok Hu. unfold AddTxs. assert (∃ p1 r, for_each l check_new p = (p1, r) ∧ (r ≠ Panic ∧ r ≠ NoFuel) ∧ pool_ok p1 ∧ keeps p p1) as (p1 & r & E & Hr & Hok1 & Hk1).
  { revert p Hok. induction l as [|tx l IH]; intros p Hok; cbn [for_each]; [eexists _, _; split; [done|]; split; [done|]; split; [done|apply keeps_refl]|]. apply Forall_cons_iff in Hu as [Hu Hus].
    destruct (check_new_ok p tx Hok Hu) as (p1 & r & E & Hr & Hok1 & Hk1). unfold mbind, M_bind. rewrite E. destruct r as [[]|e| |]; try (by destruct Hr); [|by eexists _, _].
    destruct (IH Hus p1 Hok1) as (p2 & r & E2 & Hr2 & Hok2 & Hk2). exists p2, r. split; [done|]. split; [done|]. split; [done|by eapply keeps_trans]. }
  unfold mbind, M_bind. rewrite E. destruct r as [[]|e| |]; try (by destruct Hr); [|by eexists _, _]. destruct (addTxsLocked_ok now l p1 Hok1 Hu) as (p2 & E2 & Hok2 & Hk2). exists p2, (Val tt). split; [done|]. split; [done|]. split; [done|by eapply keeps_trans].
Qed.

(** *** Demotion *)
Definition demoted (h : poolHead) (a : Address) (l : list Transaction) : list Transaction :=
  let l' := prefix_of (affordable (bal h a) (currentMaxGas h)) (filter (λ x, cur h a ≤ Nonce x) l) in
  if bool_decide (cur h a ∈ Nonce <$> l') then l' else [].
Lemma Get_in s t l n : lrepr s t l → (Get n (txs t) = None ↔ n ∉ Nonce <$> l).
Proof.
  intros (Hr & _). rewrite (repr_Get _ l) by done. split.
  - intros Ef (x & Hx & Hin)%list_elem_of_fmap. apply list_elem_of_In in Hin. pose proof (List.find_none _ _ Ef x Hin) as Hf. cbn in Hf. by rewrite Hx, Z.eqb_refl in Hf.
  - intros Hn. destruct (List.find _ l) as [x|] eqn:Ef; [|done]. apply List.find_some in Ef as [Hin Hx]. exfalso. zbool. apply Hn. rewrite <- Hx. apply list_elem_of_fmap_2. by apply list_elem_of_In.
Qed.
Lemma demote_account_ok a p h t : pinv [] p → head p = Some h → head_ok h → pending p !! a = Some t →
  ∃ p' h', demote_account a p = (p', Val tt) ∧ pinv [] p' ∧ head p' = Some h' ∧ same_head h h' ∧ (∀ x, x ≠ a → pending p' !! x = pending p !! x) ∧
    (∀ t', pending p' !! a = Some t' → txs_of t' ≠ []) ∧ (nonempty (queue p) → nonempty (queue p')) ∧ all p' ⊆ all p ∧ old_txs true p' a = demoted h a (txs_of t).
Proof.
  intros Hi Hh Hok Ht. unfold demote_account. destruct (current_nonce a p h Hh Hok) as (h1 & E1 & Hs1). rewrite (bind_val _ _ _ _ _ E1). set (p1 := set_head (Some h1) p).
  destruct (pi_lists _ _ Hi true a t Ht) as [Hr _]. destruct (Forward_takes _ _ _ (cur h a) Hr) as (t1 & l1 & out & Ef & Hr1 & Hp1 & El1).
  destruct (with_list_take [] true a _ p1 t t1 l1 _ out (pinv_head _ _ _ Hi) Ht Ef Hr1 Hp1) as (E2 & Hi2 & Et1). cbn [with_list set_lists lists] in E2, Hi2. rewrite (bind_val _ _ _ _ _ E2).
  destruct (for_each_discard [] _ _ Hi2) as [E3 Hi3]. rewrite (bind_val _ _ _ _ _ E3). set (p3 := set_all _ _) in *.
  destruct (current_balance a p3 h1 eq_refl (sc_ok _ _ (proj1 Hs1))) as (h2 & E4 & Hs2). rewrite (bind_val _ _ _ _ _ E4). rewrite (sc_bal _ _ (proj1 Hs1)). set (p4 := set_head (Some h2) p3).
  rewrite (bind_val _ _ _ _ _ (max_gas_ok p4 h2 eq_refl)). rewrite (sc_gas _ _ (proj1 Hs2)), (sc_gas _ _ (proj1 Hs1)).
  destruct (Filter_takes _ _ _ (bal h a) (currentMaxGas h) Hr1) as (t2 & l2 & removed & invalids & Eg & Hr2 & Hp2 & _ & El2 & _). rewrite <- Et1 in Hp2.
  assert (pending p4 !! a = Some t1) as Hq4 by (cbn; by rewrite lookup_insert_eq).
  destruct (with_list_take [] true a _ p4 t1 t2 l2 _ (removed ++ invalids) (pinv_head _ _ _ Hi3) Hq4 Eg Hr2 Hp2) as (E5 & Hi5 & Et2). cbn [with_list set_lists lists] in E5, Hi5. rewrite (bind_val _ _ _ _ _ E5). cbv beta iota.
  rewrite app_nil_r in Hi5. destruct (for_each_discard invalids _ _ Hi5) as [E6 Hi6]. rewrite (bind_val _ _ _ _ _ E6). set (p6 := set_all (foldl _ _ removed) _) in *.
  rewrite <- (app_nil_r invalids) in Hi6. destruct (for_each_enqueue [] invalids p6 Hi6) as (m7 & E7 & Hi7 & Hoth7 & Hne7 & _). rewrite (bind_val _ _ _ _ _ E7). set (p7 := set_queue m7 p6) in *.
  assert (pending p7 = <[a := t2]> (pending p)) as Hp7 by (cbn; by rewrite insert_insert_eq). erewrite (bind_val (gets _)) by done. rewrite Hp7, lookup_insert_eq. erewrite (bind_val (or_panic _)) by done.
  assert (all p7 ⊆ all p) as Ha7 by (cbn [p7 p6 p4 p3 all set_all set_queue set_head set_pending]; etrans; apply delete_all_sub).
  assert (l2 = prefix_of (affordable (bal h a) (currentMaxGas h)) (filter (λ x, cur h a ≤ Nonce x) (txs_of t))) as El2' by (rewrite El2, El1; done).
  assert (nonempty (queue p) → nonempty (queue p7)) as Hnq7. { intros Hne x tx Hx. destruct (Hne7 x tx Hx) as [Hq|Hq]; [by apply (Hne x)|done]. }
  assert (same_head h h2) as Hs by (by eapply same_head_trans).
  assert (∀ p8 t3, pinv [] p8 → pending p8 = <[a := t3]> (pending p) → head p8 = Some h2 → all p8 ⊆ all p → (nonempty (queue p) → nonempty (queue p8)) → txs_of t3 = demoted h a (txs_of t) →
    ∃ p' h', modify (λ p, match pending p !! a with Some l => if Empty l then set_beats (delete a (beats p)) (set_pending (delete a (pending p)) p) else p | None => p end) p8 = (p', Val tt : outcome pool_error unit) ∧ pinv [] p' ∧ head p' = Some h' ∧ same_head h h' ∧ (∀ x, x ≠ a → pending p' !! x = pending p !! x) ∧
    (∀ t', pending p' !! a = Some t' → txs_of t' ≠ []) ∧ (nonempty (queue p) → nonempty (queue p')) ∧ all p' ⊆ all p ∧ old_txs true p' a = demoted h a (txs_of t)) as Hend.
  { intros p8 t3 Hi8 Hp8 Hh8 Ha8 Hn8 Ht3. unfold modify. assert (lists true p8 !! a = Some t3) as Hl8 by (cbn; by rewrite Hp8, lookup_insert_eq). destruct (pi_lists _ _ Hi8 true a t3 Hl8) as [Hr3 _]. cbn [lists] in Hl8. rewrite Hl8, (Empty_txs _ _ Hr3).
    case_bool_decide as He.
    - eexists _, h2. split; [done|]. split; [eapply pinv_same; [apply (pinv_remove [] true a t3 p8 Hi8 Hl8 He)|done..]|]. split_and!; [done|exact Hs| | |done|done|].
      + intros x Hx. cbn. rewrite lookup_delete_ne, Hp8 by done. by rewrite lookup_insert_ne.
      + intros t'. cbn. by rewrite lookup_delete_eq.
      + unfold old_txs. cbn. rewrite lookup_delete_eq. cbn. congruence.
    - exists p8, h2. split_and!; [done|done|done|exact Hs| | |done|done|].
      + intros x Hx. rewrite Hp8. by rewrite lookup_insert_ne.
      + intros t'. rewrite Hl8. by intros [= <-].
      + by rewrite (old_txs_some true p8 a t3). }
  rewrite (lrepr_Len _ _ _ Hr2). assert (bool_decide (Get (cur h a) (txs t2) = None) = bool_decide (cur h a ∉ Nonce <$> l2)) as -> by (apply bool_decide_ext; by apply (Get_in true)).
  destruct ((Zlen l2 >? 0) && bool_decide (cur h a ∉ Nonce <$> l2)) eqn:Egap.
  - apply andb_true_iff in Egap as [_ Hgap%bool_decide_eq_true]. destruct (Cap_takes _ _ _ 0 Hr2 ltac:(lia)) as (t3 & gapped & Ec & Hr3 & _ & Hp3). cbn [Z.to_nat take app] in Hr3, Hp3.
    assert (lists true p7 !! a = Some t2) as Hl7 by (cbn [lists]; by rewrite Hp7, lookup_insert_eq).
    destruct (with_list_take [] true a _ p7 t2 t3 [] _ gapped Hi7 Hl7 Ec Hr3 ltac:(by rewrite Et2)) as (E8 & Hi8 & Et3). cbn [with_list set_lists lists] in E8, Hi8.
    destruct (for_each_enqueue [] gapped _ Hi8) as (m9 & E9 & Hi9 & _ & Hne9 & _). erewrite (bind_val (with_pending a _ ≫= _)); [|rewrite (bind_val _ _ _ _ _ E8); exact E9].
    apply (Hend _ t3); [done|transitivity (<[a := t3]> (pending p7)); [done|]; by rewrite Hp7, insert_insert_eq|done|exact Ha7| |].
    + intros Hne x tx Hx. destruct (Hne9 x tx Hx) as [Hq|Hq]; [by apply (Hnq7 Hne x)|done].
    + rewrite Et3. unfold demoted. rewrite <- El2'. by rewrite bool_decide_false.
  - erewrite (bind_val (mret tt)) by done. apply (Hend p7 t2); [done|done|done|done|done|]. rewrite Et2. unfold demoted. rewrite <- El2'. destruct (decide (cur h a ∈ Nonce <$> l2)) as [Hin|Hin]; [by rewrite bool_decide_true|rewrite (bool_decide_false (cur h a ∈ Nonce <$> l2)) by done]. apply andb_false_iff in Egap as [Hz|Hc]; [|by rewrite bool_decide_true in Hc].
    destruct l2; [done|]. by unfold Zlen in Hz.
Qed.

Definition pool_core (p : TxPool) : Prop :=
  pinv [] p ∧ nonempty (pending p) ∧ nonempty (queue p) ∧ Z.of_nat (size (all p)) ≤ GlobalSlots cfg + GlobalQueue cfg.
Lemma core_ok p h : pool_core p → head p = Some h → head_ok h → pool_ok p.
Proof. intros (H1 & H2 & H3 & H4) Hh Hok. split_and!; [split; [done|by exists h]|done|done|done]. Qed.
Lemma demoted_same h h' a l : same_current h h' → demoted h' a l = demoted h a l.
Proof. intros Hs. unfold demoted. by rewrite (sc_cur _ _ Hs), (sc_bal _ _ Hs), (sc_gas _ _ Hs). Qed.
Lemma for_each_demote : ∀ l p h, pool_core p → head p = Some h → head_ok h → NoDup l → (∀ a, a ∈ l → is_Some (pending p !! a)) →
  ∃ p' h', for_each l demote_account p = (p', Val tt) ∧ pool_core p' ∧ head p' = Some h' ∧ same_head h h' ∧ ∀ a, old_txs true p' a = if decide (a ∈ l) then demoted h a (old_txs true p a) else old_txs true p a.
Proof.
  induction l as [|a l IH]; intros p h Hc Hh Hok Hd Hin; cbn [for_each]; [exists p, h; split; [done|]; split; [done|]; split; [done|]; split; [split; [by apply same_current_refl|done]|done]|].
  apply NoDup_cons in Hd as [Hna Hd]. destruct (Hin a ltac:(by left)) as [t Ht]. destruct Hc as (Hi & Hnp & Hnq & Hb).
  destruct (demote_account_ok a p h t Hi Hh Hok Ht) as (p1 & h1 & E1 & Hi1 & Hh1 & Hs1 & Hoth1 & Hne1 & Hnq1 & Ha1 & Ho1). rewrite (bind_val _ _ _ _ _ E1).
  destruct (IH p1 h1) as (p2 & h2 & E2 & Hc2 & Hh2 & Hs2 & Ho2); [|done|apply Hs1|done| |].
  - split_and!; [done| |by apply Hnq1|pose proof (size_sub _ _ Ha1); lia]. intros x tx Hx. destruct (decide (x = a)) as [->|Hxa]; [by apply Hne1|]. apply (Hnp x). by rewrite <- Hoth1.
  - intros x Hx. assert (x ≠ a) by congruence. rewrite Hoth1 by done. apply Hin. by right.
  - exists p2, h2. split; [exact E2|]. split; [done|]. split; [done|]. split; [by eapply same_head_trans|]. intros x. rewrite Ho2. destruct (decide (x = a)) as [->|Hxa].
    + rewrite decide_False by done. rewrite decide_True by (by left). by rewrite Ho1, (old_txs_some true p a t).
    + assert (old_txs true p1 x = old_txs true p x) as -> by (unfold old_txs; cbn [lists]; by rewrite Hoth1). destruct (decide (x ∈ l)) as [Hxl|Hxl].
      * rewrite decide_True by (by right). by apply demoted_same, Hs1.
      * rewrite decide_False; [done|]. by intros [?|?]%elem_of_cons.
Qed.
Lemma demoteUnexecutables_ok p h : pool_core p → head p = Some h → head_ok h →
  ∃ p' h', demoteUnexecutables p = (p', Val tt) ∧ pool_core p' ∧ head p' = Some h' ∧ same_head h h' ∧ ∀ a, old_txs true p' a = demoted h a (old_txs true p a).
Proof.
  intros Hc Hh Hok. unfold demoteUnexecutables. erewrite (bind_val (gets _)) by done.
  destruct (for_each_demote (go_range (pending p)).*1 p h Hc Hh Hok) as (p' & h' & E & Hc' & Hh' & Hs & Ho); [apply go_keys_nodup|intros a Ha; by apply go_keys_in|].
  exists p', h'. split; [exact E|]. split; [done|]. split; [done|]. split; [done|]. intros a. rewrite Ho. case_decide as Ha; [done|]. rewrite go_keys_in in Ha.
  unfold old_txs. cbn [lists]. destruct (pending p !! a); [exfalso; apply Ha; by eexists|]. cbn. unfold demoted. by case_bool_decide.
Qed.

(** *** The pending nonces after a reset *)
Lemma refresh_nonce_ok a p h t : pinv [] p → head p = Some h → head_ok h → pending p !! a = Some t → txs_of t ≠ [] →
  ∃ p' h' tx, refresh_nonce a p = (p', Val tt) ∧ pinv [] p' ∧ head p' = Some h' ∧ same_current h h' ∧ last (txs_of t) = Some tx ∧ (∀ x, nxt h' x = if decide (x = a) then u64 (Nonce tx + 1) else nxt h x) ∧
    (∀ x, txs_of <$> pending p' !! x = txs_of <$> pending p !! x) ∧ queue p' = queue p ∧ all p' = all p.
Proof.
  intros Hi Hh Hok Ht Hne. destruct (pi_lists _ _ Hi true a t Ht) as [Hr _]. destruct (Flatten_takes _ _ _ Hr) as (t' & E & Hr').
  destruct (with_list_take [] true a _ p t t' _ _ [] Hi Ht E Hr' ltac:(by rewrite app_nil_r)) as (Ew & Hi' & Et). cbn [with_list set_lists lists app] in *. unfold refresh_nonce. rewrite (bind_val _ _ _ _ _ Ew).
  destruct (last (txs_of t)) as [tx|] eqn:El; [|by apply last_None in El]. erewrite (bind_val (or_panic _)) by done.
  destruct (set_pending_nonce_ok a (u64 (Nonce tx + 1)) (set_pending (<[a := t']> (pending p)) p) h Hh Hok ltac:(apply u64_range)) as (h' & En & Hsc & Hn). rewrite En.
  eexists _, h', tx. split; [done|]. split; [by apply pinv_head|]. split_and!; try done. intros x. cbn. destruct (decide (x = a)) as [->|Hx]; [by rewrite lookup_insert_eq, Ht; cbn; rewrite Et|by rewrite lookup_insert_ne].
Qed.
Lemma for_each_refresh : ∀ l p h, pool_core p → head p = Some h → head_ok h → NoDup l → (∀ a, a ∈ l → is_Some (pending p !! a)) →
  ∃ p' h', for_each l refresh_nonce p = (p', Val tt) ∧ pool_core p' ∧ head p' = Some h' ∧ same_current h h' ∧ (∀ x, old_txs true p' x = old_txs true p x) ∧
    ∀ x, nxt h' x = if decide (x ∈ l) then from_option (λ tx, u64 (Nonce tx + 1)) 0 (last (old_txs true p x)) else nxt h x.
Proof.
  induction l as [|a l IH]; intros p h Hc Hh Hok Hd Hin; cbn [for_each]; [exists p, h; split; [done|]; split; [done|]; split; [done|]; split; [by apply same_current_refl|done]|].
  apply NoDup_cons in Hd as [Hna Hd]. destruct (Hin a ltac:(by left)) as [t Ht]. destruct Hc as (Hi & Hnp & Hnq & Hb).
  destruct (refresh_nonce_ok a p h t Hi Hh Hok Ht (Hnp a t Ht)) as (p1 & h1 & tx & E1 & Hi1 & Hh1 & Hs1 & El & Hn1 & Hp1 & Hq1 & Ha1). rewrite (bind_val _ _ _ _ _ E1).
  assert (∀ x, old_txs true p1 x = old_txs true p x) as Hold by (intros x; unfold old_txs; cbn [lists]; by rewrite Hp1).
  destruct (IH p1 h1) as (p2 & h2 & E2 & Hc2 & Hh2 & Hs2 & Ho2 & Hn2); [|done|apply Hs1|done| |].
  - split_and!; [done| |by rewrite Hq1|by rewrite Ha1]. intros x tx' Hx. specialize (Hp1 x). rewrite Hx in Hp1. destruct (pending p !! x) as [t0|] eqn:E0; [|done]. cbn in Hp1. injection Hp1 as ->. by apply (Hnp x).
  - intros x Hx. specialize (Hp1 x). destruct (Hin x ltac:(by right)) as [t0 E0]. rewrite E0 in Hp1. destruct (pending p1 !! x); [by eexists|done].
  - exists p2, h2. split; [exact E2|]. split; [done|]. split; [done|]. split; [by eapply same_current_trans|]. split; [intros x; by rewrite Ho2|]. intros x. rewrite Hn2, Hold. destruct (decide (x = a)) as [->|Hxa].
    + rewrite decide_False by done. rewrite Hn1, decide_True by done. rewrite decide_True by (by left). rewrite (old_txs_some true p a t Ht), El. done.
    + destruct (decide (x ∈ l)) as [Hxl|Hxl]; [by rewrite decide_True by (by right)|]. rewrite Hn1, decide_False by done. rewrite decide_False; [done|]. by intros [?|?]%elem_of_cons.
Qed.

(** *** A new head *)

(** What the pool relies on from the chain: the state is opened from the
    root, a block is found under its own number, no block has the number that
    follows zero downwards, and its transactions are signed. *)
Record chain_ok (chain : blockChain) : Prop := {
  ch_state root : StateAt chain root = state.New root;
  ch_number hash n b : GetBlock chain hash n = Some b → NumberU64 b = n;
  ch_end hash : GetBlock chain hash (2 ^ 64 - 1) = None;
  ch_txs hash n b : GetBlock chain hash n = Some b → Forall U (transactions b) }.

Lemma New_head root s gas : state.New root = inr s → ∃ ms, ManageState s = Some ms ∧ head_ok (mkPoolHead s ms gas) ∧ ∀ a, nxt (mkPoolHead s ms gas) a = cur (mkPoolHead s ms gas) a.
Proof.
  unfold state.New. destruct (state.OpenTrie root) as [e|t]; [done|]. intros [= <-]. eexists. split; [done|]. split; [|done]. split; [by intros a o ?|]. split; [by intros a o ?|by intros a acc ?].
Qed.
Definition gapless (p : TxPool) : Prop := ∀ a, ∃ c, consecutive c (old_txs true p a).
Lemma consecutive_suffix c l1 l2 : consecutive c (l1 ++ l2) → consecutive (c + Zlen l1) l2.
Proof. intros H i tx Hi. assert ((l1 ++ l2) !! (length l1 + i)%nat = Some tx) as Hl by (rewrite lookup_app_r by lia; by replace (length l1 + i - length l1)%nat with i by lia). apply H in Hl. unfold Zlen. lia. Qed.
Lemma prefix_of_split f l : ∃ q, l = prefix_of f l ++ q.
Proof. induction l as [|x l [q IH]]; [by exists []|]. cbn. destruct (f x); [exists q; cbn; by f_equal|by exists (x :: l)]. Qed.
Lemma demoted_consecutive h a l c : sorted l → consecutive c l → consecutive (cur h a) (demoted h a l).
Proof.
  intros Hs Hc. unfold demoted. set (l1 := filter _ l). assert (∃ c1, consecutive c1 l1) as [c1 Hc1] by (rewrite (filter_split (cur h a) l Hs) in Hc; eexists; by eapply consecutive_suffix).
  destruct (prefix_of_split (affordable (bal h a) (currentMaxGas h)) l1) as [q Hq]. set (l2 := prefix_of _ l1) in *. assert (consecutive c1 l2) as Hc2 by (intros i tx Hi; apply Hc1; rewrite Hq; by apply lookup_app_l_Some).
  case_bool_decide as Hin; [|by intros i tx ?]. apply list_elem_of_fmap in Hin as (x & Hx & Hxl). apply list_elem_of_lookup in Hxl as [k Hk]. destruct l2 as [|y l2]; [done|].
  assert (Nonce y = c1) as Hy by (specialize (Hc2 0%nat y eq_refl); lia). assert (cur h a ≤ Nonce y) as Hge. { assert (y ∈ l1) as Hyl by (rewrite Hq; by left). by apply list_elem_of_filter in Hyl as [? _]. }
  apply Hc2 in Hk. assert (cur h a = c1) as -> by lia. done.
Qed.
Lemma reset_to_ok now chain newHead reinject p : chain_ok chain → pool_core p → Forall U reinject →
  ∃ p', reset_to now chain newHead reinject p = (p', Val tt) ∧
    ((∃ e, StateAt chain (Root newHead) = inl e) ∧ p' = p ∨
     pool_ok p' ∧ fits p' ∧ (∃ s h, StateAt chain (Root newHead) = inr s ∧ head p' = Some h ∧ (∀ a, cur h a = nonce_at a s ∧ bal h a = balance_at a s) ∧ currentMaxGas h = h_GasLimit newHead ∧
       ((∀ tx, U tx → Nonce tx < 2 ^ 64 - 1) → reinject = [] → gapless p → ∀ a, contig h p' a))).
Proof.
  intros Hch Hcore Hu. unfold reset_to. rewrite (ch_state _ Hch). destruct (state.New (Root newHead)) as [e|s] eqn:En; [exists p; split; [done|]; left; split; [by exists e|done]|].
  destruct (New_head (Root newHead) s (h_GasLimit newHead) En) as (ms & Ems & Hok0 & Hn0). rewrite Ems. erewrite (bind_val (or_panic _)) by done. erewrite (bind_val (modify _)) by done. set (h0 := mkPoolHead s ms (h_GasLimit newHead)) in *. set (p0 := set_head (Some h0) p).
  assert (pool_core p0) as Hc0 by (destruct Hcore as (H1 & H2 & H3 & H4); split_and!; [by apply pinv_head|done|done|done]).
  destruct (addTxsLocked_ok now reinject p0 (core_ok p0 h0 Hc0 eq_refl Hok0) Hu) as (p1 & E1 & Hok1 & Hk1). rewrite (bind_val _ _ _ _ _ E1). destruct (Hk1 h0 eq_refl Hok0) as (h1 & Hh1 & Hs1 & _).
  assert (pool_core p1) as Hc1 by (destruct Hok1 as ([? _] & ? & ? & ?); by split_and!).
  destruct (demoteUnexecutables_ok p1 h1 Hc1 Hh1 (sc_ok _ _ Hs1)) as (p2 & h2 & E2 & Hc2 & Hh2 & Hs2 & Ho2). rewrite (bind_val _ _ _ _ _ E2). erewrite (bind_val (gets _)) by done.
  destruct (for_each_refresh (go_range (pending p2)).*1 p2 h2 Hc2 Hh2 (sc_ok _ _ (proj1 Hs2))) as (p3 & h3 & E3 & Hc3 & Hh3 & Hs3 & Ho3 & Hn3); [apply go_keys_nodup|intros a Ha; by apply go_keys_in|]. rewrite (bind_val _ _ _ _ _ E3).
  destruct (promoteExecutables_ok now None p3 (core_ok p3 h3 Hc3 Hh3 (sc_ok _ _ Hs3))) as (p4 & E4 & Hok4 & Hk4 & Hf4 & _). exists p4. split; [exact E4|]. right. split; [done|]. split; [done|].
  destruct (Hk4 h3 Hh3 (sc_ok _ _ Hs3)) as (h4 & Hh4 & Hs4 & Hk4'). exists s, h4. split; [done|]. split; [done|]. assert (same_current h0 h4) as Hs04 by (eapply same_current_trans; [exact Hs1|]; eapply same_current_trans; [apply Hs2|]; by eapply same_current_trans).
  split; [intros a; by rewrite (sc_cur _ _ Hs04), (sc_bal _ _ Hs04)|]. split; [by rewrite (sc_gas _ _ Hs04)|].
  intros Hmax -> Hgap a. apply Hk4'; [done|]. injection E1 as <-. assert (h1 = h0) as -> by (by injection Hh1).
  assert (old_txs true p3 a = demoted h0 a (old_txs true p a)) as Hold by (by rewrite Ho3, Ho2). assert (consecutive (cur h0 a) (old_txs true p3 a)) as Hcons.
  { rewrite Hold. destruct (Hgap a) as [c Hc]. eapply demoted_consecutive, Hc. destruct Hcore as (Hi & _). unfold old_txs. destruct (lists true p !! a) as [t|] eqn:Et; [|constructor]. cbn. eapply lrepr_sorted. by apply (pi_lists _ _ Hi true a t). }
  unfold contig. rewrite (sc_cur _ _ Hs3), (sc_cur _ _ (proj1 Hs2)). split; [exact Hcons|]. rewrite Hn3. rewrite <- Ho3. case_decide as Hin.
  - apply go_keys_in in Hin as [t Ht]. destruct (last (old_txs true p3 a)) as [tx|] eqn:El.
    + apply last_Some in El as [l El]. cbn. assert (Nonce tx = cur h0 a + Z.of_nat (length l)) as Etx by (apply Hcons; rewrite El, lookup_app_r, Nat.sub_diag; done).
      assert (U tx) as Hutx. { destruct Hc3 as (Hi3 & _). eapply (pinv_U [] p3); [done|]. apply elem_of_app. left. unfold old_txs in El. destruct (lists true p3 !! a) as [t3|] eqn:Et3; [|by destruct l]. cbn in El. eapply (in_located true); [exact Et3|]. rewrite El. apply elem_of_app. right. by left. }
      specialize (Hmax tx Hutx). pose proof (U_nonce HU tx Hutx) as Hun. unfold is_u64 in Hun. rewrite u64_small by (unfold is_u64; lia). rewrite El. unfold Zlen. rewrite length_app. cbn. lia.
    + exfalso. apply last_None in El. rewrite Ho3 in El. rewrite (old_txs_some true p2 a t Ht) in El. destruct Hc2 as (_ & Hnp & _). by apply (Hnp a t).
  - rewrite go_keys_in in Hin. assert (old_txs true p3 a = []) as ->. { rewrite Ho3. unfold old_txs. cbn [lists]. destruct (pending p2 !! a); [exfalso; apply Hin; by eexists|done]. }
    rewrite (proj2 Hs2), Hn0. unfold Zlen. cbn. lia.
Qed.

Lemma NumberU64_range b : is_u64 (NumberU64 b).
Proof. apply big_Uint64_range. Qed.
Lemma parent_ok chain b b' : chain_ok chain → parent chain b = Some b' → 0 < NumberU64 b ∧ NumberU64 b' = NumberU64 b - 1 ∧ Forall U (transactions b').
Proof.
  intros Hch Hp. unfold parent in Hp. pose proof (NumberU64_range b) as Hb. unfold is_u64 in Hb. destruct (Z.eq_dec (NumberU64 b) 0) as [E|E].
  - rewrite E in Hp. change (u64 (0 - 1)) with (2 ^ 64 - 1) in Hp. by rewrite (ch_end _ Hch) in Hp.
  - rewrite u64_small in Hp by (unfold is_u64; lia). split; [lia|]. split; [by eapply ch_number|by eapply ch_txs].
Qed.
Lemma walk_down_ok chain to p : chain_ok chain → 0 ≤ to → ∀ fuel b, NumberU64 b < Z.of_nat fuel → Forall U (transactions b) →
  ∃ l o, walk_down fuel chain to b p = (p, Val (l, o)) ∧ Forall U l ∧ ∀ b', o = Some b' → Forall U (transactions b').
Proof.
  intros Hch Hto. induction fuel as [|fuel IH]; intros b Hf Hu; cbn [walk_down]; [pose proof (NumberU64_range b) as H; unfold is_u64 in H; lia|].
  destruct (Z.gtb_spec (NumberU64 b) to) as [Hgt|Hle]; [|exists [], (Some b); split; [done|]; split; [constructor|]; by intros b' [= <-]].
  destruct (parent chain b) as [b'|] eqn:Ep; [|by exists (transactions b), None]. destruct (parent_ok _ _ _ Hch Ep) as (Hpos & Hn & Hu').
  destruct (IH b' ltac:(lia) Hu') as (l & o & E & Hl & Ho). rewrite (bind_val _ _ _ _ _ E). eexists _, _. split; [done|]. split; [by apply Forall_app|done].
Qed.
Lemma walk_both_ok chain p : chain_ok chain → ∀ fuel b1 b2, NumberU64 b1 < Z.of_nat fuel → Forall U (transactions b1) → Forall U (transactions b2) →
  ∃ o, walk_both fuel chain b1 b2 p = (p, Val o) ∧ ∀ d i, o = Some (d, i) → Forall U d.
Proof.
  intros Hch. induction fuel as [|fuel IH]; intros b1 b2 Hf Hu1 Hu2; cbn [walk_both]; [pose proof (NumberU64_range b1) as H; unfold is_u64 in H; lia|].
  destruct (negb _); [|exists (Some ([], [])); split; [done|]; intros d i [= <- <-]; constructor]. destruct (parent chain b1) as [b1'|] eqn:E1; [|by exists None]. destruct (parent chain b2) as [b2'|] eqn:E2; [|by exists None].
  destruct (parent_ok _ _ _ Hch E1) as (Hpos & Hn & Hu1'). destruct (parent_ok _ _ _ Hch E2) as (_ & _ & Hu2'). destruct (IH b1' b2' ltac:(lia) Hu1' Hu2') as (o & E & Ho). rewrite (bind_val _ _ _ _ _ E). eexists. split; [done|].
  destruct o as [[d i]|]; [|done]. intros d' i' [= <- <-]. apply Forall_app. split; [done|by eapply Ho].
Qed.
(** The chain has the block of a header. *)
Definition knows (chain : blockChain) (hd : Header) : Prop := is_Some (GetBlock chain (Header_Hash hd) (big_Uint64 (Number hd))).
Lemma reorg_txs_ok chain old new p : chain_ok chain → knows chain old → knows chain new → ∃ o, reorg_txs chain old new p = (p, Val o) ∧ ∀ l, o = Some l → Forall U l.
Proof.
  intros Hch [b1 H1] [b2 H2]. unfold reorg_txs. destruct (_ >? 64); [exists (Some []); split; [done|]; intros l [= <-]; constructor|]. rewrite H1, H2. do 2 (erewrite (bind_val (or_panic _)) by done).
  pose proof (NumberU64_range b1) as R1. pose proof (NumberU64_range b2) as R2. unfold is_u64 in R1, R2.
  destruct (walk_down_ok chain (NumberU64 b2) p Hch ltac:(lia) (Datatypes.S (Z.to_nat (NumberU64 b1))) b1 ltac:(lia) (ch_txs _ Hch _ _ _ H1)) as (d1 & o1 & E1 & Hd1 & Ho1). rewrite (bind_val _ _ _ _ _ E1). cbv beta iota.
  destruct o1 as [c1|]; [|by exists None]. specialize (Ho1 c1 eq_refl). pose proof (NumberU64_range c1) as R3. unfold is_u64 in R3.
  destruct (walk_down_ok chain (NumberU64 c1) p Hch ltac:(lia) (Datatypes.S (Z.to_nat (NumberU64 b2))) b2 ltac:(lia) (ch_txs _ Hch _ _ _ H2)) as (i1 & o2 & E2 & Hi1 & Ho2). rewrite (bind_val _ _ _ _ _ E2). cbv beta iota.
  destruct o2 as [c2|]; [|by exists None]. destruct (walk_both_ok chain p Hch (Datatypes.S (Z.to_nat (NumberU64 c1))) c1 c2 ltac:(lia) Ho1 (Ho2 c2 eq_refl)) as (o3 & E3 & Ho3). rewrite (bind_val _ _ _ _ _ E3). eexists. split; [done|].
  destruct o3 as [[d2 i2]|]; [|done]. intros l [= <-]. apply Forall_forall. intros x [_ Hx]%list_elem_of_filter. specialize (Ho3 d2 i2 eq_refl). apply elem_of_app in Hx as [Hx|Hx]; [rewrite Forall_forall in Hd1; by apply Hd1|rewrite Forall_forall in Ho3; by apply Ho3].
Qed.
(** Whatever happens, the pool stays in order; it follows the new head unless
    the walk or the state fails. *)
Lemma reset_ok now chain old new p : chain_ok chain → pool_core p → (∀ o, old = Some o → knows chain o ∧ ∃ n, new = Some n ∧ knows chain n) →
  ∃ p', reset now chain old new p = (p', Val tt) ∧ (p' = p ∨ pool_ok p' ∧ fits p' ∧ ∃ h, head p' = Some h ∧ currentMaxGas h = h_GasLimit (default (header (CurrentBlock chain)) new) ∧
    ((∀ tx, U tx → Nonce tx < 2 ^ 64 - 1) → (∀ o n, old = Some o → new = Some n → Header_Hash o = ParentHash n) → gapless p → ∀ a, contig h p' a)).
Proof.
  intros Hch Hcore Hknown. unfold reset. assert (∃ o, match old with None => mret (Some []) | Some oldHead => newHead ← or_panic new; if negb (Header_Hash oldHead =? ParentHash newHead) then reorg_txs chain oldHead newHead else mret (Some []) end p = (p, Val o) ∧ (∀ l, o = Some l → Forall U l) ∧
    ((∀ o n, old = Some o → new = Some n → Header_Hash o = ParentHash n) → o = Some [])) as (o & Eo & Hu & Hnone).
  { destruct old as [oh|]; [|exists (Some []); split; [done|]; split; [|done]; intros l [= <-]; constructor]. destruct (Hknown oh eq_refl) as (Hk1 & nh & -> & Hk2). erewrite (bind_val (or_panic _)) by done.
    destruct (Z.eqb_spec (Header_Hash oh) (ParentHash nh)) as [E|E]; cbn [negb]; [exists (Some []); split; [done|]; split; [|done]; intros l [= <-]; constructor|].
    destruct (reorg_txs_ok chain oh nh p Hch Hk1 Hk2) as (o & Er & Ho). exists o. split; [done|]. split; [done|]. intros H. exfalso. by apply E, H. }
  rewrite (bind_val _ _ _ _ _ Eo). destruct o as [reinject|]; [|exists p; split; [done|by left]].
  destruct (reset_to_ok now chain (default (header (CurrentBlock chain)) new) reinject p Hch Hcore (Hu _ eq_refl)) as (p' & E & [[_ ->]|(Hok & Hf & s & h & _ & Hh & _ & Hg & Hcont)]); [exists p; split; [done|by left]|].
  exists p'. split; [done|]. right. split; [done|]. split; [done|]. exists h. split; [done|]. split; [done|]. intros Hmax Hpar Hgap. apply Hcont; [done| |done]. specialize (Hnone Hpar). by injection Hnone.
Qed.
End fit.
End books.
