(* ===== verification/TxPoolProps.v ===== *)
(** * Properties of the transaction pool *)

From stdpp Require Import base tactics list numbers gmap sorting.
From S2P Require Import Prelude GoMath EvmParams GoHeap RlpEncode RlpDecode RlpRecord RlpStream Keccak TxTypes TxList TxListProps State StateFacts StateLaws Transition Concrete BlockTypes TxPool TxPoolFacts.

#[local] Open Scope Z_scope.
Import types txlist managed blocks txpool.

Section props.
Context {senv : state.StateEnv} {slaws : StateEnvLaws} {secp : Secp256k1} {rng : GoRange} {laws : GoRangeLaws rng} {prq : Prque} {plaws : PrqueLaws prq}.
Context (sg : BoeSigner) (cfg : TxPoolConfiguration) (U : Transaction → Prop).
Context (HU : universe sg U) (Hcfg : config_ok cfg).
Abbreviation from := TxListProps.from.

(** ** The steps of a running pool *)

(** What the network, the RPC calls, the chain and the clock make the pool do.
    A transaction is added under the lock, after a validation that may have
    seen an earlier state.  With [reorg] the new head need not continue the
    old one. *)
Inductive pstep (reorg : bool) (p : TxPool) : TxPool → Prop :=
| step_add now tx : U tx → pstep reorg p (AddTx now tx p).1
| step_adds now l : Forall U l → pstep reorg p (AddTxs now l p).1
| step_locked now tx : U tx → pstep reorg p (addTxLocked now tx p).1
| step_locked_all now l : Forall U l → pstep reorg p (addTxsLocked now l p).1
| step_reset now chain old new : chain_ok U chain → knows chain old → knows chain new → reorg = true ∨ Header_Hash old = ParentHash new →
    pstep reorg p (reset now chain (Some old) (Some new) p).1
| step_evict now : pstep reorg p (evict now p).1
| step_price price : pstep reorg p (SetGasPrice price p).1.
(** From a pool whose first [reset] found the state. *)
Inductive preach (reorg : bool) : TxPool → Prop :=
| reach_new now chain id : chain_ok U chain → NewBoeSigner id = sg → is_Some (head (NewTxPool now chain cfg id).1) → preach reorg (NewTxPool now chain cfg id).1
| reach_step p p' : preach reorg p → pstep reorg p p' → preach reorg p'.

Definition all_contig (p : TxPool) : Prop := ∀ h, head p = Some h → ∀ a, contig h p a.
Lemma ok_core p : pool_ok sg cfg U p → pool_core sg cfg U p.
Proof. intros ([Hi _] & H2 & H3 & H4). by split_and!. Qed.
Lemma contig_gapless p h : head p = Some h → all_contig p → gapless p.
Proof. intros Hh Hc a. exists (cur h a). exact (proj1 (Hc h Hh a)). Qed.
Lemma pstep_ok reorg p p' : pool_ok sg cfg U p → pstep reorg p p' →
  pool_ok sg cfg U p' ∧ ((∀ tx, U tx → Nonce tx < 2 ^ 64 - 1) → reorg = false → all_contig p → all_contig p').
Proof.
  intros Hok Hst. assert (∀ q, keeps U p q → (∀ tx, U tx → Nonce tx < 2 ^ 64 - 1) → reorg = false → all_contig p → all_contig q) as Hkeep.
  { intros q Hk Hmax _ Hc h' Hh' a. destruct Hok as ([_ (h & Hh & Hhok)] & _). destruct (Hk h Hh Hhok) as (h1 & E1 & _ & C1). assert (h1 = h') as -> by congruence. apply C1; [done|]. by apply Hc. }
  destruct Hst as [now tx Hu|now l Hu|now tx Hu|now l Hu|now chain old new Hch Hk1 Hk2 Hre|now|price].
  - destruct (AddTx_ok sg cfg U HU Hcfg now tx p Hok Hu) as (q & r & -> & _ & Hq & Hk). split; [done|by apply Hkeep].
  - destruct (AddTxs_ok sg cfg U HU Hcfg now l p Hok Hu) as (q & r & -> & _ & Hq & Hk). split; [done|by apply Hkeep].
  - destruct (addTxLocked_ok sg cfg U HU Hcfg now tx p Hok Hu) as (q & r & -> & _ & Hq & Hk). split; [done|by apply Hkeep].
  - destruct (addTxsLocked_ok sg cfg U HU Hcfg now l p Hok Hu) as (q & -> & Hq & Hk). split; [done|by apply Hkeep].
  - destruct (reset_ok sg cfg U HU Hcfg now chain (Some old) (Some new) p Hch (ok_core p Hok)) as (q & -> & Hq); [intros o [= <-]; split; [done|]; by exists new|]. destruct Hq as [->|(Hq & _ & h & Hh & _ & Hc)]; [done|]. split; [done|].
    intros Hmax -> Hcon h' Hh' a. cbn [fst] in *. assert (h' = h) as -> by congruence. apply Hc; [done| |].
    + intros o n [= <-] [= <-]. by destruct Hre.
    + destruct Hok as ([_ (h0 & Hh0 & _)] & _). by eapply contig_gapless.
  - destruct (evict_ok sg cfg U HU now p Hok) as (q & -> & Hq & Hk & _). split; [done|by apply Hkeep].
  - split; [|done]. destruct Hok as ([Hi (h & Hh & Hhok)] & H2 & H3 & H4). split_and!; [split; [by eapply pinv_same; [exact Hi|..]|by exists h]|done|done|done].
Qed.
Lemma new_core id : NewBoeSigner id = sg → pool_core sg cfg U (newPool cfg id).
Proof.
  intros Hsg. pose proof (ok_global cfg Hcfg). pose proof (ok_gqueue cfg Hcfg). split_and!; [|by intros a t ?|by intros a t ?|cbn; rewrite map_size_empty; lia]. split; [done|done|by intros [] a t ?|]. split_and!; [constructor|constructor|constructor|done].
Qed.
Lemma preach_ok reorg p : preach reorg p → pool_ok sg cfg U p ∧ ((∀ tx, U tx → Nonce tx < 2 ^ 64 - 1) → reorg = false → all_contig p).
Proof.
  induction 1 as [now chain id Hch Hsg Hh|p p' _ [Hok Hc] Hst].
  - unfold NewTxPool in *. destruct (reset_ok sg cfg U HU Hcfg now chain None (Some (header (CurrentBlock chain))) (newPool cfg id) Hch (new_core id Hsg)) as (q & E & Hq); [done|]. rewrite E in *. cbn [fst] in *.
    destruct Hq as [->|(Hq & _ & h & Hh' & _ & Hc)]; [by destruct Hh|]. split; [done|]. intros Hmax _ h0 Hh0 a. assert (h0 = h) as -> by congruence. apply Hc; [done|done|]. intros x. exists 0. by intros i tx ?.
  - destruct (pstep_ok reorg p p' Hok Hst) as [Hok' Hc']. split; [done|]. auto.
Qed.

(** [Flatten] of every list. *)
Definition relisted (b : bool) (p p' : TxPool) : Prop := ∃ m, p' = set_lists b m p ∧ ∀ a, txs_of <$> m !! a = txs_of <$> lists b p !! a.
Lemma flatten_all_ok b : ∀ l p, pinv sg cfg U [] p → (∀ a, a ∈ l → is_Some (lists b p !! a)) → ∃ p' m, flatten_all (λ a, with_list b a list_Flatten) l p = (p', Val m) ∧ pinv sg cfg U [] p' ∧ relisted b p p' ∧
  ∀ a, m !! a = if decide (a ∈ l) then txs_of <$> lists b p !! a else None.
Proof.
  induction l as [|a l IH]; intros p Hi Hl; cbn [flatten_all]; [exists p, ∅; split; [done|]; split; [done|]; split; [exists (lists b p); by destruct b, p|done]|].
  destruct (Hl a ltac:(by left)) as [t Ht]. destruct (pi_lists _ _ _ _ _ Hi b a t Ht) as [Hr _]. destruct (Flatten_takes _ _ _ Hr) as (t' & E & Hr').
  destruct (with_list_take sg cfg U [] b a _ p t t' _ _ [] Hi Ht E Hr' ltac:(by rewrite app_nil_r)) as (Ew & Hi' & Et). rewrite (bind_val _ _ _ _ _ Ew). cbn [app] in Hi'.
  assert (∀ x, txs_of <$> <[a := t']> (lists b p) !! x = txs_of <$> lists b p !! x) as Hsame by (intros x; destruct (decide (x = a)) as [->|Hx]; [rewrite lookup_insert_eq, Ht; cbn; by rewrite Et|by rewrite lookup_insert_ne]).
  destruct (IH _ Hi') as (p2 & m & E2 & Hi2 & (m2 & Ep2 & Hm2) & Hm).
  - intros x Hx. rewrite lists_set. specialize (Hsame x). destruct (Hl x ltac:(by right)) as [tx Etx]. rewrite Etx in Hsame. destruct (<[a := t']> (lists b p) !! x); [by eexists|done].
  - rewrite (bind_val _ _ _ _ _ E2). eexists _, _. split; [done|]. split; [done|]. split; [exists m2; split; [subst p2; by destruct b|]; intros x; rewrite Hm2, lists_set; apply Hsame|].
    intros x. destruct (decide (x = a)) as [->|Hx]; [rewrite lookup_insert_eq, decide_True by (by left); by rewrite Ht|]. rewrite lookup_insert_ne, Hm, lists_set, Hsame by done.
    destruct (decide (x ∈ l)) as [Hxl|Hxl]; [by rewrite decide_True by (by right)|]. rewrite decide_False; [done|]. by intros [?|?]%elem_of_cons.
Qed.
Lemma Pending_ok p : pinv sg cfg U [] p → ∃ p' m, Pending p = (p', Val m) ∧ pinv sg cfg U [] p' ∧ relisted true p p' ∧ ∀ a, m !! a = txs_of <$> pending p !! a.
Proof.
  intros Hi. unfold Pending. erewrite (bind_val (gets _)) by done. destruct (flatten_all_ok true (go_range (pending p)).*1 p Hi) as (p' & m & E & Hi' & Hre & Hm); [intros a Ha; by apply go_keys_in|].
  exists p', m. split; [exact E|]. split; [done|]. split; [done|]. intros a. rewrite Hm. case_decide as Ha; [done|]. rewrite go_keys_in in Ha. destruct (pending p !! a); [exfalso; apply Ha; by eexists|done].
Qed.
Lemma Content_ok p : pinv sg cfg U [] p → ∃ p' mp mq, Content p = (p', Val (mp, mq)) ∧ pinv sg cfg U [] p' ∧ (∀ a, mp !! a = txs_of <$> pending p !! a) ∧ ∀ a, mq !! a = txs_of <$> queue p !! a.
Proof.
  intros Hi. unfold Content. destruct (Pending_ok p Hi) as (p1 & mp & E1 & Hi1 & (m1 & Ep1 & Hm1) & Hmp). rewrite (bind_val _ _ _ _ _ E1). erewrite (bind_val (gets _)) by done.
  destruct (flatten_all_ok false (go_range (queue p1)).*1 p1 Hi1) as (p2 & mq & E2 & Hi2 & _ & Hmq); [intros a Ha; by apply go_keys_in|]. cbn [with_list] in E2. rewrite (bind_val _ _ _ _ _ E2).
  eexists _, _, _. split; [done|]. split; [done|]. split; [done|]. intros a. rewrite Hmq. cbn [lists]. assert (queue p1 = queue p) as Eq by (by subst p1). rewrite Eq. case_decide as Ha; [done|]. rewrite go_keys_in in Ha. destruct (queue p !! a); [exfalso; apply Ha; by eexists|done].
Qed.

(** ** The claims *)

(** C4: In every pool that can be reached (also across reorganisations), the
    map of all transactions holds exactly the transactions of the pending and
    queued lists, each under its hash; no account has two transactions with
    the same nonce, in either list; no list is empty; and there are never more
    transactions than the two global limits allow together. *)
Theorem pool_consistent reorg p : preach reorg p →
  (∀ hash tx, pool_Get hash p = Some tx ↔ tx_hash tx = hash ∧ ∃ b a t, lists b p !! a = Some t ∧ tx ∈ txs_of t) ∧
  (∀ b b' a a' t t' x y, lists b p !! a = Some t → lists b' p !! a' = Some t' → x ∈ txs_of t → y ∈ txs_of t' → slot sg x = slot sg y → x = y ∧ a = a' ∧ b = b') ∧
  (∀ b a t, lists b p !! a = Some t → sorted (txs_of t) ∧ txs_of t ≠ [] ∧ Forall (λ tx, from sg tx = a) (txs_of t)) ∧
  Z.of_nat (size (all p)) ≤ GlobalSlots cfg + GlobalQueue cfg.
Proof.
  intros Hr. destruct (proj1 (preach_ok _ _ Hr)) as ([Hi _] & Hnp & Hnq & Hb). split_and!; [| | |done].
  - intros hash tx. unfold pool_Get. rewrite (books_lookup _ _ _ _ _ _ (pi_books _ _ _ _ _ Hi)), app_nil_r. unfold located. rewrite elem_of_app, !contents_elem. split.
    + intros [[(a & t & Ht & Htx)|(a & t & Ht & Htx)] Hh]; (split; [done|]); [by exists true, a, t|by exists false, a, t].
    + intros [Hh (b & a & t & Ht & Htx)]. split; [|done]. destruct b; [left|right]; by exists a, t.
  - intros b b' a a' t t' x y Ht Ht' Hx Hy Hs. assert (x = y) as ->. { eapply (slot_inj sg cfg U [] p); [done|..|done]; (apply elem_of_app; left); [by eapply (in_located b)|by eapply (in_located b')]. }
    destruct (pi_lists _ _ _ _ _ Hi b a t Ht) as [_ Hf]. destruct (pi_lists _ _ _ _ _ Hi b' a' t' Ht') as [_ Hf']. rewrite Forall_forall in Hf. rewrite Forall_forall in Hf'. assert (a = a') as <- by (rewrite <- (Hf y Hx); by apply Hf').
    split_and!; [done|done|]. destruct (decide (b = b')) as [|Hne]; [done|exfalso]. replace b' with (negb b) in Ht' by (by destruct b, b'). apply (other_list sg cfg U [] b p a t t' y Hi Ht Hx Ht'). by apply list_elem_of_fmap_2.
  - intros b a t Ht. destruct (pi_lists _ _ _ _ _ Hi b a t Ht) as [Hrep Hf]. split_and!; [by eapply lrepr_sorted| |done]. destruct b; [by apply (Hnp a)|by apply (Hnq a)].
Qed.

Definition returns {A} (r : TxPool * outcome pool_error A) : Prop := r.2 ≠ Panic ∧ r.2 ≠ NoFuel.
(** C5: No operation on a pool that can be reached panics or runs forever:
    adding one or many transactions whose senders can be recovered, moving to
    a new head (also through a
    reorganisation, as long as the chain has the blocks of both heads),
    evicting, and the reading calls.  In particular no list that is nil or
    empty is ever used, and the loops that bring the pool down to its limits
    end. *)
Theorem pool_returns reorg p : preach reorg p →
  (∀ now tx, U tx → returns (AddTx now tx p) ∧ returns (addTxLocked now tx p)) ∧ (∀ now l, Forall U l → returns (AddTxs now l p) ∧ returns (addTxsLocked now l p)) ∧
  (∀ now chain old new, chain_ok U chain → knows chain old → knows chain new → (reset now chain (Some old) (Some new) p).2 = Val tt) ∧
  (∀ now, (evict now p).2 = Val tt) ∧ returns (Pending p) ∧ returns (Content p).
Proof.
  intros Hr. destruct (preach_ok _ _ Hr) as [Hok _]. pose proof Hok as ([Hi _] & _). unfold returns. split_and!.
  - intros now tx Hu. destruct (AddTx_ok sg cfg U HU Hcfg now tx p Hok Hu) as (q & r & -> & H & _). destruct (addTxLocked_ok sg cfg U HU Hcfg now tx p Hok Hu) as (q' & r' & -> & H' & _). done.
  - intros now l Hu. destruct (AddTxs_ok sg cfg U HU Hcfg now l p Hok Hu) as (q & r & -> & H & _). destruct (addTxsLocked_ok sg cfg U HU Hcfg now l p Hok Hu) as (q' & -> & _). done.
  - intros now chain old new Hch Hk1 Hk2. destruct (reset_ok sg cfg U HU Hcfg now chain (Some old) (Some new) p Hch (ok_core p Hok)) as (q & -> & _); [intros o [= <-]; split; [done|]; by exists new|done].
  - intros now. by destruct (evict_ok sg cfg U HU now p Hok) as (q & -> & _).
  - by destruct (Pending_ok p Hi) as (q & m & -> & _).
  - by destruct (Pending_ok p Hi) as (q & m & -> & _).
  - by destruct (Content_ok p Hi) as (q & mp & mq & -> & _).
  - by destruct (Content_ok p Hi) as (q & mp & mq & -> & _).
Qed.

(** C6: As long as every new head continues the last one, what [Pending] gives
    the miner for an account is never empty and has the nonces of the current
    state upwards without a gap, and the nonce the pool proposes for the
    account's next transaction is the one after them. *)
Theorem pending_gapless p : preach false p → (∀ tx, U tx → Nonce tx < 2 ^ 64 - 1) →
  ∃ p' m h, Pending p = (p', Val m) ∧ head p = Some h ∧
    (∀ a l, m !! a = Some l → l ≠ [] ∧ ∀ i tx, l !! i = Some tx → from sg tx = a ∧ Nonce tx = nonce_at a (currentState h) + Z.of_nat i) ∧
    (∀ a, (ms_GetNonce a (pendingState h)).2 = nonce_at a (currentState h) + Zlen (default [] (m !! a))).
Proof.
  intros Hr Hmax. destruct (preach_ok _ _ Hr) as [Hok Hc]. pose proof Hok as ([Hi (h & Hh & Hhok)] & Hnp & _). destruct (Pending_ok p Hi) as (p' & m & E & _ & _ & Hm). exists p', m, h. split; [exact E|]. split; [done|].
  assert (∀ a, default [] (m !! a) = old_txs true p a) as Hd by (intros a; by rewrite Hm). split.
  - intros a l Hl. rewrite Hm in Hl. destruct (pending p !! a) as [t|] eqn:Et; [|done]. injection Hl as <-. split; [by apply (Hnp a)|]. intros i tx Hi'. split.
    + destruct (pi_lists _ _ _ _ _ Hi true a t Et) as [_ Hf]. rewrite Forall_forall in Hf. apply Hf. by eapply list_elem_of_lookup_2.
    + apply (Hc Hmax eq_refl h Hh a). by rewrite (old_txs_some true p a t Et).
  - intros a. destruct Hhok as [_ Hms]. destruct (managed_nonce _ a Hms) as (ms' & -> & _). cbn [snd]. rewrite Hd. apply (Hc Hmax eq_refl h Hh a).
Qed.

(** C17: After transactions were promoted (which ends every addition of a new
    transaction and every new head) the pool is within its limits: at most
    [GlobalQueue] transactions are queued, an account whose queue was looked
    at has at most [AccountQueue] of them, and either at most [GlobalSlots]
    are pending or no account has more than [AccountSlots]. *)
Theorem promote_limits reorg p now accts : preach reorg p →
  ∃ p', promoteExecutables now accts p = (p', Val tt) ∧
    (Stats p').2 ≤ GlobalQueue cfg ∧ (∀ a t, a ∈ default (go_range (queue p)).*1 accts → queue p' !! a = Some t → list_Len t ≤ AccountQueue cfg) ∧
    ((Stats p').1 ≤ GlobalSlots cfg ∨ ∀ a t, pending p' !! a = Some t → list_Len t ≤ AccountSlots cfg).
Proof.
  intros Hr. destruct (preach_ok _ _ Hr) as [Hok _]. destruct (promoteExecutables_ok sg cfg U HU Hcfg now accts p Hok) as (p' & E & Hok' & _ & [Hlim Hq] & _ & Hacc). exists p'. split; [exact E|]. pose proof Hok' as ([Hi' _] & _).
  assert (∀ b a t, lists b p' !! a = Some t → list_Len t = Zlen (old_txs b p' a)) as Hlen. { intros b a t Ht. destruct (pi_lists _ _ _ _ _ Hi' b a t Ht) as [Hrep _]. rewrite (lrepr_Len _ _ _ Hrep). by rewrite (old_txs_some b p' a t Ht). }
  unfold Stats. cbn [fst snd]. rewrite (count_len_ok sg cfg U [] true p' Hi'), (count_len_ok sg cfg U [] false p' Hi'). split_and!; [done| |].
  - intros a t Ha Ht. rewrite (Hlen false a t Ht). by apply Hacc.
  - destruct Hlim as [Hlim|Hlim]; [by left|right]. intros a t Ht. rewrite (Hlen true a t Ht). apply Hlim.
Qed.


(** C37: An eviction tick removes exactly the queued transactions of the
    accounts whose last promotion is longer ago than [Lifetime], and no
    pending one.  For an account that had no transaction promoted yet, or
    whose pending list was emptied, that is the zero time: its queue is lost
    at the first tick, however new the transactions are. *)
Theorem evict_exact reorg p now : preach reorg p → ∃ p', evict now p = (p', Val tt) ∧ pending p' = pending p ∧
  ∀ a, txs_of <$> queue p' !! a = if Lifetime cfg <? Since now (default 0 (beats p !! a)) then None else txs_of <$> queue p !! a.
Proof.
  intros Hr. destruct (preach_ok _ _ Hr) as [Hok _]. destruct (evict_ok sg cfg U HU now p Hok) as (p' & E & Hok' & _ & Hp & Ho). exists p'. split; [exact E|]. split; [done|]. intros a. specialize (Ho a).
  destruct Hok as (_ & _ & Hnq & _), Hok' as (_ & _ & Hnq' & _). unfold old_txs, expired, heartbeat in Ho. cbn [lists] in Ho. destruct (queue p' !! a) as [t'|] eqn:Et'; destruct (queue p !! a) as [t|] eqn:Et; cbn in *.
  - case_match; [by destruct (Hnq' a t' Et')|by rewrite Ho].
  - case_match; by destruct (Hnq' a t' Et').
  - case_match; [done|]. by destruct (Hnq a t Et).
  - by case_match.
Qed.
Lemma taken_all l : taken (λ _, true) l = l.
Proof. induction l as [|x l IH]; cbn; congruence. Qed.
(** C7: Every pending transaction is offered to the miner, and nothing else:
    when the miner takes what [Pending] returns, in the order by price and
    nonce, it gets each account's whole list in the order of the nonces, and
    the set ends. *)
Theorem pending_offered reorg p : preach reorg p → ∃ p' m t t' l,
  Pending p = (p', Val m) ∧ byprice.NewTransactionsByPriceAndNonce sg m = Val t ∧ drain (λ _, true) (Datatypes.S (length (every m))) t = (t', Val l) ∧
  (∀ a, filter (λ tx, from sg tx = a) l = default [] (txs_of <$> pending p !! a)) ∧ ∀ tx, tx ∈ l ↔ ∃ a lst, pending p !! a = Some lst ∧ tx ∈ txs_of lst.
Proof.
  intros Hr. destruct (preach_ok _ _ Hr) as [([Hi _] & Hnp & _) _]. destruct (Pending_ok p Hi) as (p' & m & E & _ & _ & Hm).
  assert (∀ a t, pending p !! a = Some t → Forall (λ tx, from sg tx = a) (txs_of t)) as Hfrom by (intros a t Ht; by destruct (pi_lists _ _ _ _ _ Hi true a t Ht)).
  assert (grouped sg m) as Hg. { intros a l Hl. rewrite Hm in Hl. destruct (pending p !! a) as [t|] eqn:Et; [|done]. injection Hl as <-. split; [by apply (Hnp a)|]. apply Forall_forall. intros tx Htx. specialize (Hfrom a t Et). rewrite Forall_forall in Hfrom. rewrite <- (Hfrom tx Htx).
    destruct (pi_books _ _ _ _ _ Hi) as (HUs & _). rewrite Forall_forall in HUs. destruct (U_sender _ _ HU tx) as [b Eb]; [|unfold TxListProps.from; by rewrite Eb]. apply HUs. rewrite app_nil_r. by apply (in_located true p a t). }
  destruct (New_gives sg m Hg) as (t & Et & Ht). destruct (drain_ok sg (λ _, true) (Datatypes.S (length (every m))) t m Ht ltac:(lia)) as (t' & l & Ed & Hf & _). exists p', m, t, t', l. split; [exact E|]. split; [exact Et|]. split; [exact Ed|].
  assert (∀ a, filter (λ tx, from sg tx = a) l = default [] (txs_of <$> pending p !! a)) as Hall by (intros a; by rewrite (Hf a), taken_all, Hm). split; [exact Hall|]. intros tx. split.
  - intros Htx. specialize (Hall (from sg tx)). assert (tx ∈ filter (λ y, from sg y = from sg tx) l) as Hx by (by apply list_elem_of_filter). rewrite Hall in Hx. destruct (pending p !! from sg tx) as [lst|] eqn:El; [by exists (from sg tx), lst|by apply elem_of_nil in Hx].
  - intros (a & lst & Hl & Htx). specialize (Hall a). rewrite Hl in Hall. cbn in Hall. rewrite <- Hall in Htx. by apply list_elem_of_filter in Htx as [_ ?].
Qed.
End props.

(** ** A pool to look at *)

(** The state under root [n] has one account, 7, with nonce [n] and some
    balance. *)
Definition chain_env : state.StateEnv :=
  let key := ideal_hash (be_bytes 20 7) in
  {| state.Trie := gmap Z (list byte);
     state.db_error := unit;
     state.OpenTrie root := inr {[ key := flat_Account (state.mkAccount root (Some 100000) 0 (Some (ideal_hash []))) ]};
     state.OpenStorageTrie _ _ := inr ∅;
     state.ZeroTrie := ∅;
     state.TryGet := @state.TryGet map_env;
     state.TryUpdate := @state.TryUpdate map_env;
     state.TryDelete := @state.TryDelete map_env;
     state.Trie_Hash t := Z.of_nat (size t);
     state.ContractCode := @state.ContractCode map_env;
     state.ContractCodeSize := @state.ContractCodeSize map_env;
     state.Keccak256Hash := ideal_hash;
     state.rlp_Account := flat_Account;
     state.rlp_Account_decode := flat_Account_decode;
     state.rlp_Split enc := (enc, None);
     state.rlp_bytes b := b |}.
Lemma chain_env_laws : @StateEnvLaws chain_env.
Proof. destruct map_env_laws as [H1 H2 H3 H4 H5 H6 H7]. split; [done|exact H2|exact H3|exact H4|exact H5|exact H6|exact H7]. Qed.
Definition larger (x y : Z * Z) : Prop := y.2 ≤ x.2.
#[local] Instance larger_dec : RelDecision larger.
Proof. intros x y. unfold larger. apply _. Defined.
Definition sorting_prque : Prque := λ l, (merge_sort larger l).*1.
Lemma sorting_laws : PrqueLaws sorting_prque.
Proof.
  intros l. exists (merge_sort larger l). split; [apply merge_sort_Permutation|]. split; [done|].
  apply StronglySorted_merge_sort; [intros x y z; unfold larger; lia|]. intros x y. unfold larger. lia.
Qed.

Section example.
#[local] Existing Instances chain_env chain_env_laws no_secp in_order in_order_laws sorting_prque sorting_laws.
Definition sg : BoeSigner := mkSigner 1 2.
Definition cfg : TxPoolConfiguration := mkPoolConfig 1 10 2 3 2 2 100.
(** A transfer of [amount] from account 7, as it is after its hash and its
    sender were asked for. *)
Definition transfer (nonce amount : Z) : Transaction :=
  put_from (FromSig sg 7) (store_size 100 (store_hash nonce (NewTransaction nonce 1 (Some amount) (Some 21000) (Some 1) []))).
Definition U (tx : Transaction) : Prop := ∃ n, 0 ≤ n < 2 ^ 64 - 1 ∧ ∃ amount, tx = transfer n amount.
Lemma U_universe : universe sg U.
Proof.
  split.
  - intros tx (n & Hn & a & ->). by exists 7.
  - intros tx (n & Hn & a & ->). unfold is_u64. cbn. lia.
  - intros x y (n & Hn & a & ->) (n' & Hn' & a' & ->). cbn. by intros [= ->].
Qed.
Lemma cfg_ok : config_ok cfg.
Proof. split; cbn; lia. Qed.
Lemma U_transfer n a : 0 ≤ n < 100 → U (transfer n a).
Proof. intros H. exists n. split; [lia|by eexists]. Qed.
Lemma U_nonces tx : U tx → Nonce tx < 2 ^ 64 - 1.
Proof. intros (n & Hn & a & ->). cbn. lia. Qed.

Definition head_at (parent number root : Z) : Header :=
  mkHeader parent 0 0 0 root 0 0 [] 1 number 1000000 0 0 [] 0 0 [] [].
Definition chain (current : Header) : blockChain :=
  mkChain (mkBlock current [] [] None None) (λ _ _, None) state.New.
Lemma chain_fine current : chain_ok U (chain current).
Proof. by split. Qed.

(** Account 7 has nonce 5; 5 and 6 become pending, 8 waits. *)
Definition p0 : TxPool := (NewTxPool 1000 (chain (head_at 0 4 5)) cfg (Some 1)).1.
Definition p1 : TxPool := (AddTx 1001 (transfer 5 10) p0).1.
Definition p2 : TxPool := (addTxsLocked 1002 [transfer 8 10; transfer 6 10] p1).1.
Lemma p0_live : is_Some (head p0).
Proof.
  assert (match head p0 with Some _ => true | None => false end = true) as H by (vm_compute; reflexivity).
  destruct (head p0); [by eexists|done].
Qed.
Lemma p2_reach : preach sg cfg U false p2.
Proof.
  eapply reach_step; [eapply reach_step; [apply (reach_new sg cfg U false 1000 (chain (head_at 0 4 5)) (Some 1)); [apply chain_fine|reflexivity|exact p0_live]|]|].
  - apply (step_add U false p0 1001 (transfer 5 10)). by apply U_transfer.
  - apply (step_locked_all U false p1 1002). constructor; [by apply U_transfer|]. constructor; [by apply U_transfer|constructor].
Qed.
Lemma p2_stats : Stats p2 = (2, 1).
Proof. vm_compute. reflexivity. Qed.

Lemma pool_consistent_witness : preach sg cfg U false p2 ∧ Stats p2 = (2, 1) ∧ Z.of_nat (size (all p2)) ≤ 5.
Proof.
  split; [exact p2_reach|]. split; [exact p2_stats|]. exact (proj2 (proj2 (proj2 (pool_consistent sg cfg U U_universe cfg_ok false p2 p2_reach)))).
Defined.
Lemma pool_returns_witness : preach sg cfg U false p2 ∧ U (transfer 7 10) ∧ returns (AddTx 1003 (transfer 7 10) p2) ∧ (evict 1003 p2).2 = Val tt.
Proof.
  assert (U (transfer 7 10)) as Hu by (by apply U_transfer).
  destruct (pool_returns sg cfg U U_universe cfg_ok false p2 p2_reach) as (H1 & _ & _ & H2 & _). split; [exact p2_reach|]. split; [exact Hu|]. split; [exact (proj1 (H1 1003 _ Hu))|exact (H2 1003)].
Defined.
Lemma pending_gapless_witness : preach sg cfg U false p2 ∧ (∀ tx, U tx → Nonce tx < 2 ^ 64 - 1) ∧ ∃ p' m, Pending p2 = (p', Val m) ∧
  ∀ a l, m !! a = Some l → l ≠ [].
Proof.
  split; [exact p2_reach|]. split; [exact U_nonces|]. destruct (pending_gapless sg cfg U U_universe cfg_ok p2 p2_reach U_nonces) as (p' & m & h & E & _ & H & _). exists p', m. split; [exact E|]. intros a l Hl. exact (proj1 (H a l Hl)).
Defined.
Lemma promote_limits_witness : preach sg cfg U false p2 ∧ ∃ p', promoteExecutables 1003 None p2 = (p', Val tt) ∧ (Stats p').2 ≤ 2.
Proof.
  split; [exact p2_reach|]. destruct (promote_limits sg cfg U U_universe cfg_ok false p2 1003 None p2_reach) as (p' & E & H & _). exists p'. split; [exact E|exact H].
Defined.
Lemma pending_offered_witness : preach sg cfg U false p2 ∧ ∃ p' m t t' l, Pending p2 = (p', Val m) ∧ byprice.NewTransactionsByPriceAndNonce sg m = Val t ∧
  drain (λ _, true) (Datatypes.S (length (every m))) t = (t', Val l) ∧ ∀ tx, tx ∈ l ↔ ∃ a lst, pending p2 !! a = Some lst ∧ tx ∈ txs_of lst.
Proof.
  split; [exact p2_reach|]. destruct (pending_offered sg cfg U U_universe cfg_ok false p2 p2_reach) as (p' & m & t & t' & l & E1 & E2 & E3 & _ & H). exists p', m, t, t', l. split; [exact E1|]. split; [exact E2|]. split; [exact E3|exact H].
Defined.
(** The queued transaction is evicted in time, the heartbeat being from 1002. *)
Lemma evict_exact_witness : preach sg cfg U false p2 ∧ ∃ p', evict 1103 p2 = (p', Val tt) ∧ queue p' !! 7 = None.
Proof.
  split; [exact p2_reach|]. destruct (evict_exact sg cfg U U_universe cfg_ok false p2 1103 p2_reach) as (p' & E & _ & H). exists p'. split; [exact E|]. specialize (H 7).
  assert ((Lifetime cfg <? Since 1103 (default 0 (beats p2 !! 7))) = true) as Hb by (vm_compute; reflexivity). rewrite Hb in H. destruct (queue p' !! 7) as [t|]; [discriminate H|reflexivity].
Defined.

(** ** A reorganisation *)

(** Block 5 had the transactions 3 and 4 of account 7, and 5 and 6 are
    pending.  Then the chain goes back to block 4, where the account cannot
    pay for 4. *)
Section gap.
Context (other : bool).
Definition parent : Z := if other then 1 else 0.
End gap.

End example.
